(* ===== verification/_CoqProject ===== *)
-Q . S2P
Prelude.v
Interfaces.v
Errors.v
Queue.v
TaskSlot.v
Tasks.v
QState.v
Permissions.v
Registry.v
QueueOps.v
Control.v
Dispatch.v
Worker.v
Documents.v
F64.v
F64Order.v
Statuses.v
Suspend.v
Observe.v
Paths.v
Arrays.v
Detector.v
SoftSignal.v
SignalCache.v
Staging.v
Motors.v
Journal.v
Route.v
Patterns.v
Compose.v
Bundler.v
Device.v
Machine.v
Logic.v
Assets.v
Frames.v
AreaDetector.v
Handle.v
RunLoop.v
LifeCycle.v
Steps.v
CleanUp.v
Termination.v
Calm.v
Rewind.v
OpenRun.v
Phases.v
Gen.v
Preproc.v
Wrappers.v
Stubs.v
Plans.v
Discipline.v
Library.v
PlanRuns.v
Scans.v
Page.v

