(* ===== verification/Prelude.v ===== *)
(** * bsrs: a Rocq verification library

    bsrs is a Rust port of the bluesky data-acquisition stack: devices whose calls end in
    statuses, a run engine that executes plans over them and emits documents, the plans,
    and a queue server that feeds the engine. This library models the program's own
    logic, from the statuses and signals up to the requests of the queue server, and
    proves what makes it correct. Paths below are relative to src/crates/bsrs/src/.

    ** The program

    A client's request reaches the control server ([qs/dispatch.rs]), which checks
    the caller's permissions ([qs/permissions.rs]) and the manager's lock
    ([qs/state.rs]), and edits the queue ([qs/queue.rs]), starts a queue worker
    through the worker slot ([qs/task_slot.rs], [qs/server.rs]), steers the engine
    ([engine/run_engine.rs]) or records a background task ([qs/tasks.rs]). The worker
    takes items off the queue, builds their plans from the registry
    ([qs/registry.rs]) and runs them on the engine.

    A plan ([plans/], [core/plan.rs]) is a generator of messages ([core/msg.rs]). The
    engine's loop takes one after another, and between them the control requests (pause,
    resume, suspend, stop, abort, halt); it waits for the statuses of the devices
    ([core/status.rs]), rewinds and replays after a pause, is suspended by watched signals
    ([core/suspender.rs], [engine/suspender.rs]), and composes a run's documents
    ([event_model/]) through a bundler ([engine/bundler.rs]), which consumers may pack into
    pages ([event_model/page.rs]) and whose engine leaves a journal of checkpoints
    ([host/checkpoint_store.rs]).

    A device is made of signals ([devices/], [backends/soft/]), of a motor over a signal
    ([host/motor_move.rs]) or of a detector over a control and writers
    ([devices/detector.rs]), which write files where path providers say
    ([devices/path_provider.rs]) and announce them as external assets ([stream/],
    [host/areadetector.rs]).

    ** The files

    Shared:
    - [Prelude]: results and early returns, machine integers ([wrap64], [sat_sub64]),
      the list, map and sorting lemmas and the automation the components share.
    - [Interfaces]: what comes from outside the repository, as classes: JSON numbers,
      UUIDs, texts, the lock-key hash; [Sample] instantiates them for the examples.
    - [Errors]: [core/error.rs] and the status error of [core/status.rs].
    - [F64]: doubles as bit patterns with their IEEE arithmetic; [F64Order]: sums and
      comparisons of non-negative doubles.

    The queue server:
    - [Queue] ([qs/queue.rs]; [PlanQueue.t], one function per method), [TaskSlot]
      ([qs/task_slot.rs]; the claims on the slot as a step relation), [Tasks]
      ([qs/tasks.rs]), [QState] ([qs/state.rs]), [Permissions] ([qs/permissions.rs]),
      [Registry] ([qs/registry.rs]).
    - [QueueOps]: the queue item requests of [qs/dispatch.rs], batches included.
    - [Dispatch]: the rest of [qs/dispatch.rs]; [dispatch] is the whole request, gates
      and method table, over the [World] of all components.
    - [Worker]: the queue worker of [qs/server.rs] and its wake-up.

    The engine:
    - [Control]: the control plane of [engine/run_engine.rs], one function per control
      method and per decision of the run loop, and a step relation that interleaves them.
    - [Device]: messages, plans and what devices answer. [Machine]: the engine's state,
      the schedule of what else happens, and the monad of its code. [Logic]: how to reason
      about that monad.
    - [Handle]: one definition per message, and [handle]. [RunLoop]: [run_async] from the
      claim to the clean-up.
    - [Steps], [LifeCycle], [CleanUp], [Termination], [Calm], [Rewind], [OpenRun]: what
      the engine does, each file one group of theorems.
    - [Statuses]: [core/status.rs], with the call stack of running callbacks.
    - [Suspend]: the fan-out of a signal, the suspenders and their watcher task.
    - [Journal]: the checkpoint journal, its file operation by operation.

    Documents:
    - [Documents] ([event_model/documents.rs]), [Compose] ([event_model/compose.rs];
      [RunBundle]), [Bundler] ([engine/bundler.rs]; [RunBundler] and the machine
      [wire_step] of what a run broadcasts), [Assets] (the external assets of
      [engine/run_engine.rs]), [Page] ([event_model/page.rs]), [Arrays]
      ([core/ndarray.rs], [core/table.rs]).

    Plans:
    - [Patterns] ([plans/patterns.rs]), [Gen] (plan bodies as generators), [Preproc]
      ([plans/preprocessors.rs]), [Stubs] and [Plans] ([plans/mod.rs]).
    - [Phases] and [Discipline]: the automaton of runs and bundles, against the engine
      and against plans. [Library]: the library's plans keep to it. [Wrappers],
      [PlanRuns], [Scans]: what brackets, interruptions and scans do.
    - [Route]: [blop/routing.rs].

    Devices:
    - [SoftSignal] ([backends/soft/signal.rs]; threads between locks), [SignalCache]
      ([devices/signal_cache.rs], [devices/signal.rs]), [Staging]
      ([devices/stage_sigs.rs], [devices/standard_readable.rs], [devices/device.rs]),
      [Motors] ([host/motor_move.rs]), [Observe] ([devices/observe.rs],
      [devices/command.rs]).
    - [Detector] ([devices/detector.rs]; [StandardDetector] over the class [Hardware]),
      [Frames] (the soft detector, the binary and HDF5 sinks, the pipe; a rig of one
      control and one writer is a [Hardware]), [AreaDetector] ([host/areadetector.rs];
      writers of the same interface), [Paths] ([devices/path_provider.rs]).

    ** What the theorems show

    - Queue and requests: queue UIDs stay distinct and locks keyed along any request
      ([dispatch_wf]); batches are atomic; [queue_uid] changes with the contents; without
      the key a locked queue and a locked environment are each protected, a started worker
      only with both; a read-only caller changes nothing but the lock; left alone, with loop
      mode off, the worker's loop refines a reference drain; at most one worker is
      registered, holding its guard and not aborted.
    - Engine: whatever the plans, devices and other tasks do, the documents follow the
      life cycle of runs, a finished call has closed its runs, and hardware is left
      unstaged and told to stop. The engine does not spin ([run_async_terminates]): a call
      ends or waits for good, the latter only without an overall timeout. A run nobody
      interrupts and whose plan does not pause is the plain interpreter of its plan; a
      resume nobody interrupts replays what was kept, once. No control request
      made while the loop runs and no wake-up of its pause gate is lost (a pause in the window
      of [pause_in_start_window] is).
    - Statuses and suspenders: callbacks run once, polling tasks are woken, every value
      posted while a suspender waits is judged.
    - Documents: in a run without a rewind sequence numbers are contiguous per stream;
      every event follows its descriptor; a rewind replays the same events; asset drains
      are accepted exactly when admissible; events of one descriptor and one key set
      round-trip through a page.
    - Plans: the library's plans, under those of its wrappers that [library] lists and with
      hooks that stay inside the run, send messages in an order the engine accepts; a
      [contingency_wrapper] is try/except/else/finally; scans reach their points; routing
      ends and permutes.
    - Devices: subscribers of a soft signal are given the readings in order by one thread
      at a time; the cache follows its monitor as long as no callback comes late; on
      signals that behave as memory cells unstage brings settings back; a kickoff stays
      within its prepare; a move settles at the first poll that finds a reason to; path
      providers name fresh directories.
    - Detectors' files: the datums of a stream tile its frames (for the HDF5 sink when it is
      asked for indices that never decrease); frames written are read back; a run accepts
      every drain of an areaDetector HDF5 writer.
    - The journal: after whole appends a crash at any byte loses at most the record being
      written; where its files behave it stays bounded; an unfinished run is found.
    - Where the code does not do what it means to, or a comment says otherwise, a closed
      lemma shows the case ([second_pause_skips_move], [later_run_is_refused] and the
      like).

    ** Conventions, bounds and fuel

    A [HashMap] is a [gmap], a [HashSet] a [gset], a JSON object an association list; a
    loop over a [HashMap] takes the order of the [gmap], one of those the code may take.
    A [u64] is a [Z] with its wrap-around written out ([wrap64], [sat_sub64], and
    [wrap32]): as in a release build, sums and products wrap. A [usize] that counts
    elements in memory is a [nat]; products of shapes wrap. An [f64] is its bit pattern,
    computed with as IEEE 754 says; the elementary functions are the class [Libm]. A text
    is a [string], its bytes in [Paths] and [Journal]; Unicode's tables are a class. Fresh
    UUIDs, clock readings and dates are arguments. A panic is [None] or an abnormal end
    where the code can reach it.

    One poll of a future sees one instant. In the engine, everything another task does
    while the engine awaits is fixed by a [Schedule], and the theorems hold for every
    schedule; theorems about a run alone take a quiet one. A wait that nothing in the
    schedule ends is an outcome of its own ([Hung]), which the overall timeout turns
    into its error. In [Control], [TaskSlot] and [Suspend] one method or poll is a
    step between which others interleave; in [SoftSignal] and [SignalCache] a section
    under a lock is one step of a thread. Where another thread can see a method half
    done ([run_async]'s start, a reconfiguration) the method is several steps. Joined
    futures run one after another. Calls of hardware and of an IOC are answered by
    parameters and recorded in a log.

    Loops that are not structural take fuel, each with a theorem that its fuel suffices or
    with the fuel's end as a result of its own: the calendar loops of [QState], the worker
    loop, the page chunks, the 2-opt passes of [Route] (enough fuel exists, from the
    arithmetic of doubles), the run loop ([run_async_terminates] computes a bound), the
    loops of plans ([CutShort] when they are used up), and a detector's wait for frames
    ([Waiting]).

    ** Not modelled

    The Lua environment and its bindings ([host/lua_env.rs] and its neighbours, an embedded
    interpreter); the Channel Access and PVAccess backends and the devices over them
    ([backends/epics_ca/], [backends/epics_pva/]: third-party clients); the plugins,
    signals and readings of the areaDetector devices besides their writers, exposure and
    file paths; the ZMQ, Kafka and Tiled sinks and the queue server's sockets; most of the
    bridge to the external optimizer ([blop/] besides routing and its suggestions); the
    command line and the REPL; the derive macro. They are I/O over third-party crates, or
    glue. A document sink that refuses a document is only logged and is left out; so are
    the metrics and the log lines. First openings of the HDF5 sink by two tasks at once are
    not modelled: operations of a writer come one after another. *)

From stdpp Require Export base tactics option list gmap strings sorting.
From Stdlib Require Export ZArith Lia.


(** ** Notation for the code's early returns

    [let? x := e else r in k] is Rust's
    [let x = match e { Some(x) => x, None => return r }; k]. *)

Declare Scope bsrs_scope.
Delimit Scope bsrs_scope with bsrs.
#[global] Open Scope bsrs_scope.

Notation "'let?' x := e 'else' r 'in' k" :=
  (match e with Some x => k | None => r end)
    (at level 10, x pattern, e at level 200, r at level 200, k at level 200,
     format "'[v' 'let?'  x  :=  e  'else'  r  'in' '/' k ']'") : bsrs_scope.

(** ** Results

    [Result<A, E>], the [?] operator and [collect::<Result<Vec<_>, _>>()]. *)

Inductive Result (A E : Type) : Type :=
| Ok (a : A)
| Err (e : E).
Arguments Ok {_ _} _.
Arguments Err {_ _} _.

#[export] Instance Result_eq_dec `{EqDecision A, EqDecision E} : EqDecision (Result A E).
Proof. solve_decision. Defined.

Notation "'let!' x := e 'in' k" :=
  (match e with Ok x => k | Err r => Err r end)
    (at level 10, x pattern, e at level 200, k at level 200,
     format "'[v' 'let!'  x  :=  e  'in' '/' k ']'") : bsrs_scope.

Fixpoint collect {A B E} (f : A → Result B E) (l : list A) : Result (list B) E :=
  match l with
  | [] => Ok []
  | x :: l => let! y := f x in let! ys := collect f l in Ok (y :: ys)
  end.

(** [ok_or(e)] *)
Definition ok_or {A E} (o : option A) (e : E) : Result A E :=
  match o with Some x => Ok x | None => Err e end.

Definition is_ok {A E} (r : Result A E) : bool :=
  match r with Ok _ => true | Err _ => false end.

Lemma collect_Ok {A B E} (f : A → Result B E) l ys :
  collect f l = Ok ys ↔ Forall2 (λ x y, f x = Ok y) l ys.
Proof.
  revert ys. induction l as [|x l IH]; intros ys; simpl.
  - split; [intros [= <-]; constructor|by intros ->%Forall2_nil_inv_l].
  - destruct (f x) as [y|e] eqn:Hx.
    + destruct (collect f l) as [ys'|e'].
      * split.
        -- intros [= <-]. constructor; [done|by apply IH].
        -- intros (y' & ys'' & Hy & Hys & ->)%Forall2_cons_inv_l. apply IH in Hys. congruence.
      * split; [done|]. intros (y' & ys'' & _ & Hys & _)%Forall2_cons_inv_l. by apply IH in Hys.
    + split; [done|]. intros (y' & ? & ? & _)%Forall2_cons_inv_l. congruence.
Qed.

(** ** Hint databases shared by the components *)

Create HintDb bsrs.
Create Rewrite HintDb bsrs_rw.

(** ** Tactics of the development *)

(** Case analysis on the scrutinee of every [match] and [if] in the goal or in
    a hypothesis, keeping the equations. *)
Ltac case_match_in H :=
  match type of H with
  | context [match ?e with _ => _ end] => destruct e eqn:?
  end.

Ltac split_matches := repeat (case_match; simplify_eq/=).

(** Turn boolean tests in the context into propositions. *)
Ltac bools :=
  repeat match goal with
  | H : bool_decide _ = true |- _ => apply bool_decide_eq_true_1 in H
  | H : bool_decide _ = false |- _ => apply bool_decide_eq_false_1 in H
  | H : _ && _ = true |- _ => apply andb_true_iff in H as [? ?]
  | H : _ || _ = false |- _ => apply orb_false_iff in H as [? ?]
  | H : negb _ = true |- _ => apply negb_true_iff in H
  | H : negb _ = false |- _ => apply negb_false_iff in H
  | H : String.eqb _ _ = true |- _ => apply String.eqb_eq in H
  | H : String.eqb _ _ = false |- _ => apply String.eqb_neq in H
  end.

(** A closed equation, by conversion in the virtual machine, with no normal form read back. *)
Ltac vm_eq := match goal with |- _ = ?r => vm_cast_no_check (eq_refl r) end.

(** Decide a closed goal by computation. *)
Ltac compute_decide := apply (bool_decide_unpack _); vm_compute; exact I.

(** ** Fixed-width integers *)

(** [u64] values are [Z]s in [0, 2^64); an atomic [fetch_add] wraps. *)
Definition u64_max : Z := 18446744073709551615.
Definition wrap64 (z : Z) : Z := z `mod` 18446744073709551616.
Definition in_u64 (z : Z) : Prop := (0 ≤ z ≤ u64_max)%Z.
Definition sat_sub64 (a b : Z) : Z := Z.max 0 (a - b).

Lemma wrap64_small z : in_u64 z → wrap64 z = z.
Proof. unfold in_u64, u64_max, wrap64. intros. apply Z.mod_small. lia. Qed.

Lemma wrap64_range z : in_u64 (wrap64 z).
Proof.
  unfold in_u64, u64_max, wrap64.
  pose proof (Z.mod_pos_bound z 18446744073709551616). lia.
Qed.

#[export] Hint Resolve wrap64_range : bsrs.

(** [i64] range, for the JSON integers the server accepts. *)
Definition in_i64 (z : Z) : Prop := (-9223372036854775808 ≤ z ≤ 9223372036854775807)%Z.

#[export] Instance in_u64_dec z : Decision (in_u64 z).
Proof. unfold in_u64, u64_max. apply _. Defined.
#[export] Instance in_i64_dec z : Decision (in_i64 z).
Proof. unfold in_i64. apply _. Defined.

(** [Vec<String>::sort()] *)
Definition sort_names (l : list string) : list string := merge_sort String.le l.

(** ** [Iterator::position] and [VecDeque] updates by index *)

Section sequences.
Context {A : Type}.
Implicit Types (l : list A) (x y : A).

(** [iter().position(p)] *)
Definition position (P : A → Prop) `{∀ x, Decision (P x)} l : option nat :=
  fst <$> list_find P l.

(** [VecDeque::insert(i, x)] for [i <= len] (it panics beyond). *)
Definition vec_insert (i : nat) x l : list A := take i l ++ x :: drop i l.

(** [VecDeque::remove(i)]: the removed element with the rest, [None] out of
    range. *)
Definition vec_remove (i : nat) l : option (A * list A) :=
  x ← l !! i; Some (x, delete i l).

Lemma position_Some (P : A → Prop) `{∀ x, Decision (P x)} l i :
  position P l = Some i ↔
  ∃ x, l !! i = Some x ∧ P x ∧ ∀ j y, l !! j = Some y → j < i → ¬ P y.
Proof.
  unfold position. rewrite fmap_Some. split.
  - intros ([j x] & Hf & ->). apply list_find_Some in Hf. eauto.
  - intros (x & Hx). exists (i, x). split; [|done]. by apply list_find_Some.
Qed.

Lemma position_None (P : A → Prop) `{∀ x, Decision (P x)} l :
  position P l = None ↔ ∀ x, x ∈ l → ¬ P x.
Proof.
  unfold position. rewrite fmap_None, list_find_None, Forall_forall. done.
Qed.

Lemma position_is_Some (P : A → Prop) `{∀ x, Decision (P x)} l :
  is_Some (position P l) ↔ ∃ x, x ∈ l ∧ P x.
Proof.
  split.
  - intros [i (x & Hx & HP & _)%position_Some]. exists x. split; [|done].
    by eapply list_elem_of_lookup_2.
  - intros (x & Hin & HP). apply not_eq_None_Some. rewrite position_None.
    intros Hn. by apply (Hn x).
Qed.

Lemma length_vec_insert i x l : length (vec_insert i x l) = S (length l).
Proof.
  unfold vec_insert. rewrite length_app; simpl. rewrite length_take, length_drop. lia.
Qed.

Lemma vec_insert_perm i x l : vec_insert i x l ≡ₚ x :: l.
Proof.
  unfold vec_insert. rewrite <-Permutation_middle. by rewrite take_drop.
Qed.

Lemma vec_insert_0 x l : vec_insert 0 x l = x :: l.
Proof. done. Qed.

Lemma vec_insert_end i x l : length l ≤ i → vec_insert i x l = l ++ [x].
Proof. intros. unfold vec_insert. by rewrite take_ge, drop_ge by done. Qed.

Lemma vec_insert_app l1 l2 x :
  vec_insert (length l1) x (l1 ++ l2) = l1 ++ x :: l2.
Proof. unfold vec_insert. by rewrite take_app_length, drop_app_length. Qed.

Lemma filter_vec_insert (P : A → Prop) `{∀ x, Decision (P x)} i x l :
  ¬ P x → filter P (vec_insert i x l) = filter P l.
Proof.
  intros Hx. unfold vec_insert. rewrite filter_app, filter_cons_False by done.
  by rewrite <-filter_app, take_drop.
Qed.

Lemma filter_list_delete (P : A → Prop) `{∀ x, Decision (P x)} i x l :
  l !! i = Some x → ¬ P x → filter P (delete i l) = filter P l.
Proof.
  intros Hi Hx. rewrite delete_take_drop, filter_app.
  rewrite <-(take_drop_middle l i x) at 3 by done.
  by rewrite filter_app, filter_cons_False by done.
Qed.

Lemma length_filter_delete (P : A → Prop) `{∀ x, Decision (P x)} i x l :
  l !! i = Some x →
  length (filter P l) = (if decide (P x) then 1 else 0) + length (filter P (delete i l)).
Proof.
  intros Hi. rewrite delete_take_drop, filter_app, length_app.
  transitivity (length (filter P (take i l ++ x :: drop (S i) l)));
    [by rewrite take_drop_middle|].
  rewrite filter_app, length_app.
  case_decide; [rewrite filter_cons_True by done|rewrite filter_cons_False by done]; simpl; lia.
Qed.

Lemma filter_id (P : A → Prop) `{∀ x, Decision (P x)} l :
  (∀ x, x ∈ l → P x) → filter P l = l.
Proof.
  induction l as [|x l IH]; intros HP; [done|].
  rewrite filter_cons_True by (apply HP; left). f_equal.
  apply IH. intros. apply HP. by right.
Qed.

Lemma vec_remove_Some i l x l' :
  vec_remove i l = Some (x, l') ↔ l !! i = Some x ∧ l' = delete i l.
Proof. unfold vec_remove. destruct (l !! i); naive_solver. Qed.

Lemma vec_remove_None i l : vec_remove i l = None ↔ l !! i = None.
Proof. unfold vec_remove. destruct (l !! i); naive_solver. Qed.

Lemma lookup_vec_insert_eq i x l :
  i ≤ length l → vec_insert i x l !! i = Some x.
Proof.
  intros. unfold vec_insert. rewrite lookup_app_r; rewrite length_take; [|lia].
  by replace (i - i `min` length l) with 0 by lia.
Qed.
End sequences.

#[export] Hint Rewrite @length_vec_insert : bsrs_rw.
#[export] Hint Resolve vec_insert_perm : bsrs.

(** Lists keyed by a function whose values do not repeat. *)
Section keyed.
Context {A K : Type} `{EqDecision K} (key : A → K).
Implicit Types (l : list A) (x y : A) (k : K).

Definition key_is k : A → Prop := λ x, key x = k.
#[global] Instance key_is_dec k x : Decision (key_is k x).
Proof. unfold key_is. apply _. Defined.

Lemma position_key_Some l k i :
  position (key_is k) l = Some i → ∃ x, l !! i = Some x ∧ key x = k.
Proof. intros (x & Hx & HP & _)%position_Some. eauto. Qed.

Lemma position_key_None l k :
  position (key_is k) l = None ↔ k ∉ key <$> l.
Proof.
  rewrite position_None. unfold key_is. rewrite list_elem_of_fmap. naive_solver.
Qed.

Lemma position_key_is_Some l k :
  is_Some (position (key_is k) l) ↔ k ∈ key <$> l.
Proof.
  rewrite position_is_Some. unfold key_is. rewrite list_elem_of_fmap. naive_solver.
Qed.

(** With distinct keys, [position] finds the only index holding the key. *)
Lemma position_key_lookup l i x :
  NoDup (key <$> l) → l !! i = Some x → position (key_is (key x)) l = Some i.
Proof.
  intros Hnd Hi. apply position_Some. exists x. repeat split; [done|].
  intros j y Hj Hlt Hk. unfold key_is in Hk.
  assert (i = j); [|lia].
  eapply NoDup_lookup; [exact Hnd| |].
  - by rewrite list_lookup_fmap, Hi.
  - rewrite list_lookup_fmap, Hj. simpl. by f_equal.
Qed.

(** The first occurrence of a key splits the list. *)
Lemma position_key_app l1 l2 x :
  key x ∉ key <$> l1 → position (key_is (key x)) (l1 ++ x :: l2) = Some (length l1).
Proof.
  intros Hni. apply position_Some. exists x.
  split; [by rewrite list_lookup_middle|]. split; [done|].
  intros j y Hj Hlt Hk. apply Hni, list_elem_of_fmap. exists y. split; [done|].
  rewrite lookup_app_l in Hj by done. by eapply list_elem_of_lookup_2.
Qed.

Lemma position_key_split l k i :
  position (key_is k) l = Some i →
  ∃ l1 x l2, l = l1 ++ x :: l2 ∧ i = length l1 ∧ key x = k ∧ k ∉ key <$> l1.
Proof.
  intros (x & Hx & HP & Hfirst)%position_Some.
  exists (take i l), x, (drop (S i) l).
  pose proof (lookup_lt_Some _ _ _ Hx).
  split; [by rewrite take_drop_middle|].
  split; [rewrite length_take; lia|]. split; [done|].
  rewrite list_elem_of_fmap. intros (y & Hk & [j Hj]%list_elem_of_lookup).
  apply lookup_take_Some in Hj as [Hj Hlt]. by eapply Hfirst.
Qed.

Lemma elem_of_key_split l k :
  k ∈ key <$> l → ∃ l1 x l2, l = l1 ++ x :: l2 ∧ key x = k ∧ k ∉ key <$> l1.
Proof.
  intros [i (l1 & x & l2 & ? & ? & ? & ?)%position_key_split]%position_key_is_Some.
  by exists l1, x, l2.
Qed.

Lemma elem_of_key_middle k l1 x l2 :
  k ∈ key <$> l1 ++ x :: l2 ↔ k = key x ∨ k ∈ key <$> l1 ++ l2.
Proof. rewrite !fmap_app, fmap_cons, !elem_of_app, elem_of_cons. tauto. Qed.

(** The first occurrence of a key is at one place. *)
Lemma key_middle_inj l1 x l2 m1 y m2 :
  l1 ++ x :: l2 = m1 ++ y :: m2 → key x = key y → key x ∉ key <$> l1 → key y ∉ key <$> m1 →
  l1 = m1 ∧ x = y ∧ l2 = m2.
Proof.
  intros Heq Hk Hl1 Hk1.
  pose proof (position_key_app l1 l2 x Hl1) as H1.
  pose proof (position_key_app m1 m2 y Hk1) as H2.
  rewrite Heq, Hk, H2 in H1. simplify_eq.
  apply app_inj_1 in Heq as [-> Heq]; [|done]. by simplify_eq.
Qed.

Lemma NoDup_key_filter (P : A → Prop) `{∀ x, Decision (P x)} l :
  NoDup (key <$> l) → NoDup (key <$> filter P l).
Proof.
  induction l as [|x l IH]; [done|]. intros [Hx Hl]%NoDup_cons.
  destruct (decide (P x)); [rewrite filter_cons_True by done|rewrite filter_cons_False by done];
    [|by apply IH].
  constructor; [|by apply IH]. intros (y & Heq & [_ Hy]%list_elem_of_filter)%list_elem_of_fmap.
  apply Hx. rewrite Heq. by apply list_elem_of_fmap_2.
Qed.

Lemma list_delete_middle l1 l2 x : delete (length l1) (l1 ++ x :: l2) = l1 ++ l2.
Proof. rewrite delete_take_drop.
  rewrite take_app_length.
  replace (S (length l1)) with (length (l1 ++ [x])) by (rewrite length_app; simpl; lia).
  replace (l1 ++ x :: l2) with ((l1 ++ [x]) ++ l2) by by rewrite <-app_assoc.
  by rewrite drop_app_length.
Qed.
End keyed.
