(* ===== verification/Interfaces.v ===== *)
(** * What the server takes from outside the repository

    The JSON values the control server exchanges ([serde_json]), the UUIDs it
    mints ([uuid]), the text of its messages and the hash of its lock key
    (the standard library leaves [DefaultHasher]'s algorithm open). Every one
    of them is an interface: the components are proved for all instances, and
    [Sample] is the concrete instance the examples evaluate with. *)

From stdpp Require Import pretty.
From S2P Require Import Prelude.

(** ** JSON

    The numbers are opaque: the code only asks for their [i64] or [u64] view
    and builds them from integers. *)

Class JsonNumber := {
  number : Type;
  num_as_i64 : number → option Z;
  num_as_u64 : number → option Z;
  num_of_Z : Z → number;
  num_as_i64_range : ∀ n z, num_as_i64 n = Some z → in_i64 z;
  num_as_u64_range : ∀ n z, num_as_u64 n = Some z → in_u64 z;
  num_of_u64 : ∀ z, in_u64 z → num_as_u64 (num_of_Z z) = Some z;
  num_of_i64 : ∀ z, in_i64 z → num_as_i64 (num_of_Z z) = Some z;
}.

#[warnings="-register-all"]
Inductive Value `{JsonNumber} : Type :=
| VNull
| VBool (b : bool)
| VNumber (n : number)
| VString (s : string)
| VArray (l : list Value)
| VObject (m : list (string * Value)).

Section json.
Context `{JsonNumber}.

(** Object members keep their submission order; keys do not repeat. *)
Fixpoint assoc_get {B : Type} (k : string) (m : list (string * B)) : option B :=
  match m with
  | [] => None
  | (k', v) :: m => if String.eqb k k' then Some v else assoc_get k m
  end.

(** [Map::insert]: replace in place, or append a new member. *)
Fixpoint assoc_insert {B : Type} (k : string) (v : B) (m : list (string * B))
  : list (string * B) :=
  match m with
  | [] => [(k, v)]
  | (k', v') :: m =>
      if String.eqb k k' then (k', v) :: m else (k', v') :: assoc_insert k v m
  end.

Definition as_object (v : Value) : option (list (string * Value)) :=
  match v with VObject m => Some m | _ => None end.
Definition as_array (v : Value) : option (list Value) :=
  match v with VArray l => Some l | _ => None end.
Definition as_str (v : Value) : option string :=
  match v with VString s => Some s | _ => None end.
Definition as_bool (v : Value) : option bool :=
  match v with VBool b => Some b | _ => None end.
Definition is_null (v : Value) : bool :=
  match v with VNull => true | _ => false end.

(** [Value::get(key)]: [None] unless the value is an object with that key. *)
Definition value_get (v : Value) (k : string) : option Value :=
  m ← as_object v; assoc_get k m.

Definition get_str (v : Value) (k : string) : option string := value_get v k ≫= as_str.
Definition get_bool (v : Value) (k : string) : option bool := value_get v k ≫= as_bool.
Definition get_array (v : Value) (k : string) : option (list Value) :=
  value_get v k ≫= as_array.

Definition json (m : list (string * Value)) : Value := VObject m.
Definition json_nat (n : nat) : Value := VNumber (num_of_Z (Z.of_nat n)).
Definition json_Z (z : Z) : Value := VNumber (num_of_Z z).
(** [Option<String>] as serde writes it. *)
Definition json_opt_str (o : option string) : Value :=
  match o with Some s => VString s | None => VNull end.

Lemma assoc_get_insert_eq {B} k (v : B) m : assoc_get k (assoc_insert k v m) = Some v.
Proof.
  induction m as [|[k' v'] m IH]; simpl; [by rewrite String.eqb_refl|].
  destruct (String.eqb k k') eqn:E; simpl; by rewrite E.
Qed.

Lemma assoc_get_insert_ne {B} k j (v : B) m :
  j ≠ k → assoc_get j (assoc_insert k v m) = assoc_get j m.
Proof.
  intros Hne. induction m as [|[k' v'] m IH]; simpl.
  - destruct (String.eqb_spec j k); [done|done].
  - destruct (String.eqb_spec k k') as [->|Hk]; simpl.
    + destruct (String.eqb_spec j k'); [done|done].
    + by rewrite IH.
Qed.
End json.

(** ** UUIDs: the [n]-th call of [Uuid::new_v4] in the life of the process. *)
Class UuidSource := {
  uuid_v4 : nat → string;
  #[global] uuid_v4_inj :: Inj (=) (=) uuid_v4;
}.

(** ** Text: [format!("{s:?}")] of a string, [format!("{v}")] of a value. *)
Class TextFormat `{JsonNumber} := {
  debug_str : string → string;
  display_value : Value → string;
}.

(** ** The lock key's hash *)
Class KeyHasher := { hash_key : string → Z }.

(** ** A concrete instance *)
Module Sample.
Definition s_as_i64 (o : option Z) : option Z :=
  z ← o; if decide (in_i64 z) then Some z else None.
Definition s_as_u64 (o : option Z) : option Z :=
  z ← o; if decide (in_u64 z) then Some z else None.

#[export, program] Instance sample_number : JsonNumber := {|
  number := option Z;
  num_as_i64 := s_as_i64;
  num_as_u64 := s_as_u64;
  num_of_Z := Some;
|}.
Next Obligation. intros [z'|] z; simpl; [case_decide; naive_solver|done]. Qed.
Next Obligation. intros [z'|] z; simpl; [case_decide; naive_solver|done]. Qed.
Next Obligation. intros z Hz. simpl. by rewrite decide_True. Qed.
Next Obligation. intros z Hz. simpl. by rewrite decide_True. Qed.

#[export, program] Instance sample_uuid : UuidSource := {|
  uuid_v4 n := "u" +:+ pretty n;
|}.

#[export] Instance sample_text : TextFormat := {|
  debug_str s := "`" +:+ s +:+ "`";
  display_value _ := "<json>";
|}.

#[export] Instance sample_hash : KeyHasher := {|
  hash_key s := Z.of_nat (String.length s);
|}.
End Sample.
