(* ===== verification/Errors.v ===== *)
(** * Errors, interrupts and run results ([core/error.rs], [StatusError] of
    [core/status.rs], [RunResult] of [engine/run_engine.rs]) *)

From S2P Require Import Prelude Interfaces.

(** A status's own failure; its timeout carries nothing. *)
Inductive StatusError := SCancelled | STimeout | SFailed (s : string).

(** Durations are in nanoseconds. The event-model and JSON errors are wrapped as
    their text. *)
Inductive BsrsError `{JsonNumber} :=
| Backend (s : string)
| Timeout_ (d : Z)
| ValueTimeout (name matcher : string) (timeout : Z) (last : option Value)
| Connect (e : BsrsError)
| NotConnectedE (nc : NotConnected)
| Cancelled
| InvalidValue (s : string)
| DatatypeE (s : string)
| StateE (s : string)
| PlanE (s : string)
| StatusE (e : StatusError)
| EventModelE (s : string)
| JsonE (s : string)
| Other (s : string)
with NotConnected `{JsonNumber} :=
| NcSource (source : string)
| NcChildren (children : list (string * BsrsError)).

Inductive Interrupt := IStop | IAbort.

Definition interrupt_exit_status (i : Interrupt) : string :=
  match i with IStop => "success" | IAbort => "abort" end.

Section errors.
Context `{JsonNumber}.

Fixpoint as_not_connected (e : BsrsError) : option NotConnected :=
  match e with
  | NotConnectedE nc => Some nc
  | Connect inner => as_not_connected inner
  | _ => None
  end.

(** What a failed status is to the engine ([handle_status], [wait_group]). *)
Definition status_error (e : StatusError) : BsrsError :=
  match e with
  | SCancelled => Cancelled
  | STimeout => StatusE STimeout
  | SFailed s => Backend s
  end.

(** [RunResult]: what [run_async] returns. *)
Record RunResult := mkResult {
  run_uids : list string;
  exit_status : string;
  interrupted : bool;
  reason : string;
  exception : option BsrsError;
}.
End errors.
