(* ===== verification/Queue.v ===== *)
(** * The plan queue and its history ([qs/queue.rs])

    [QueuedItem] is one queued plan or instruction; [PlanQueue.t] is the FIFO
    of pending items with the history of finished ones. A mutating operation
    takes, as its first argument, the UUID [Uuid::new_v4] returns should the
    operation ask for one. *)

From S2P Require Import Prelude Interfaces.

Record QueuedItem `{JsonNumber} := mkItem {
  item_uid : string;
  item_type : string;
  item_name : string;
  item_args : Value;
  item_kwargs : Value;
  item_meta : Value;
  item_user : option string;
  item_user_group : option string;
  item_result : option Value;
}.

Arguments mkItem {_} _ _ _ _ _ _ _ _ _.

Section item.
Context `{JsonNumber}.

(** [QueuedItem::plan]: lifts [args] and [kwargs] out of the submitted item. *)
Definition item_plan (u name : string) (item : Value) : QueuedItem := {|
  item_uid := u;
  item_type := "plan";
  item_name := name;
  item_args := default (VArray []) (value_get item "args");
  item_kwargs := default (VObject []) (value_get item "kwargs");
  item_meta := VNull;
  item_user := None;
  item_user_group := None;
  item_result := None;
|}.

(** [QueuedItem::instruction] *)
Definition item_instruction (u name : string) : QueuedItem := {|
  item_uid := u;
  item_type := "instruction";
  item_name := name;
  item_args := VNull;
  item_kwargs := VNull;
  item_meta := VNull;
  item_user := None;
  item_user_group := None;
  item_result := None;
|}.

(** The argument shape a plan factory takes. *)
Definition plan_args (it : QueuedItem) : Value :=
  json [("args", item_args it); ("kwargs", item_kwargs it)].

Definition with_result (r : Value) (it : QueuedItem) : QueuedItem :=
  mkItem (item_uid it) (item_type it) (item_name it) (item_args it) (item_kwargs it)
    (item_meta it) (item_user it) (item_user_group it) (Some r).

Definition with_uid (u : string) (it : QueuedItem) : QueuedItem :=
  mkItem u (item_type it) (item_name it) (item_args it) (item_kwargs it)
    (item_meta it) (item_user it) (item_user_group it) (item_result it).

(** [queued.user = ..; queued.user_group = ..] *)
Definition with_submitter (us ug : option string) (it : QueuedItem) : QueuedItem :=
  mkItem (item_uid it) (item_type it) (item_name it) (item_args it) (item_kwargs it)
    (item_meta it) us ug (item_result it).

(** The derived [Serialize]: fields in order, absent options skipped. *)
Definition item_to_value (it : QueuedItem) : Value :=
  json ([("item_uid", VString (item_uid it)); ("item_type", VString (item_type it));
         ("name", VString (item_name it)); ("args", item_args it);
         ("kwargs", item_kwargs it); ("meta", item_meta it)]
        ++ (match item_user it with Some s => [("user", VString s)] | None => [] end)
        ++ (match item_user_group it with
            | Some s => [("user_group", VString s)] | None => [] end)
        ++ (match item_result it with Some r => [("result", r)] | None => [] end)).
End item.

Module PlanQueue.

Record t `{JsonNumber} := mk {
  items : list QueuedItem;
  history : list QueuedItem;
  queue_uid : string;
  history_uid : string;
}.

Arguments mk {_} _ _ _ _.

Section ops.
Context `{JsonNumber}.
Implicit Types (q : t) (u uid ref : string) (item : QueuedItem).

Definition new (u1 u2 : string) : t := mk [] [] u1 u2.

Definition set_items (l : list QueuedItem) q : t :=
  mk l (history q) (queue_uid q) (history_uid q).
Definition bump_queue_uid u q : t := mk (items q) (history q) u (history_uid q).
Definition bump_history_uid u q : t := mk (items q) (history q) (queue_uid q) u.

(** [items.iter().position(|i| i.item_uid == uid)] *)
Definition index_of_uid uid q : option nat := position (key_is item_uid uid) (items q).

Definition get_by_uid uid q : option QueuedItem :=
  snd <$> list_find (key_is item_uid uid) (items q).

Definition push_back u item q : t := bump_queue_uid u (set_items (items q ++ [item]) q).

Definition pop_front u q : option QueuedItem * t :=
  match items q with
  | [] => (None, q)
  | it :: rest => (Some it, bump_queue_uid u (set_items rest q))
  end.

Definition len q : nat := length (items q).
Definition is_empty q : bool := match items q with [] => true | _ => false end.
Definition snapshot q : list QueuedItem := items q.

Definition update u uid (replacement : QueuedItem) q : option QueuedItem * t :=
  let? pos := index_of_uid uid q else (None, q) in
  let new_item := with_uid uid replacement in
  (Some new_item, bump_queue_uid u (set_items (<[pos := new_item]> (items q)) q)).

Definition replace_at_uid u uid new_item q : option QueuedItem * t :=
  let? pos := index_of_uid uid q else (None, q) in
  (Some new_item, bump_queue_uid u (set_items (<[pos := new_item]> (items q)) q)).

Definition remove_by_uid u uid q : option QueuedItem * t :=
  let? pos := index_of_uid uid q else (None, q) in
  match vec_remove pos (items q) with
  | Some (it, rest) => (Some it, bump_queue_uid u (set_items rest q))
  | None => (None, q)
  end.

Definition move_to u uid (dest : nat) q : option QueuedItem * t :=
  let? pos := index_of_uid uid q else (None, q) in
  let? (it, rest) := vec_remove pos (items q) else (None, q) in
  let dest := dest `min` length rest in
  (Some it, bump_queue_uid u (set_items (vec_insert dest it rest) q)).

(** The item is already out of the deque when the reference is looked up:
    the early return of the second [?] leaves it out, with the queue UID
    unchanged. *)
Definition move_before_uid u uid ref q : option QueuedItem * t :=
  let? pos := index_of_uid uid q else (None, q) in
  let? (it, rest) := vec_remove pos (items q) else (None, q) in
  let q := set_items rest q in
  let? ref_pos := index_of_uid ref q else (None, q) in
  (Some it, bump_queue_uid u (set_items (vec_insert ref_pos it (items q)) q)).

Definition move_after_uid u uid ref q : option QueuedItem * t :=
  let? pos := index_of_uid uid q else (None, q) in
  let? (it, rest) := vec_remove pos (items q) else (None, q) in
  let q := set_items rest q in
  let? ref_pos := index_of_uid ref q else (None, q) in
  (Some it, bump_queue_uid u (set_items (vec_insert (ref_pos + 1) it (items q)) q)).

Definition push_front u item q : t := bump_queue_uid u (set_items (item :: items q) q).

Definition insert_at u (idx : nat) item q : t :=
  let idx := idx `min` length (items q) in
  bump_queue_uid u (set_items (vec_insert idx item (items q)) q).

Definition insert_before_uid u ref item q : bool * t :=
  match index_of_uid ref q with
  | Some pos => (true, bump_queue_uid u (set_items (vec_insert pos item (items q)) q))
  | None => (false, q)
  end.

Definition insert_after_uid u ref item q : bool * t :=
  match index_of_uid ref q with
  | Some pos =>
      (true, bump_queue_uid u (set_items (vec_insert (pos + 1) item (items q)) q))
  | None => (false, q)
  end.

Definition clear u q : t :=
  if is_empty q then q else bump_queue_uid u (set_items [] q).

Definition history_snapshot q : list QueuedItem := history q.
Definition history_size q : nat := length (history q).

Definition push_history u item q : t :=
  bump_history_uid u (mk (items q) (history q ++ [item]) (queue_uid q) (history_uid q)).

Definition clear_history u q : t :=
  match history q with
  | [] => q
  | _ => bump_history_uid u (mk (items q) [] (queue_uid q) (history_uid q))
  end.
End ops.
End PlanQueue.

(** ** The queue as a state machine

    [op] lists the mutating operations; [exec] runs one, and [run] a sequence,
    each with the UUID it would mint. *)

Section machine.
Context `{JsonNumber}.
Import PlanQueue.

Inductive op :=
| OpPushBack (item : QueuedItem)
| OpPushFront (item : QueuedItem)
| OpInsertAt (idx : nat) (item : QueuedItem)
| OpInsertBefore (ref : string) (item : QueuedItem)
| OpInsertAfter (ref : string) (item : QueuedItem)
| OpPopFront
| OpUpdate (uid : string) (item : QueuedItem)
| OpReplaceAt (uid : string) (item : QueuedItem)
| OpRemove (uid : string)
| OpMoveTo (uid : string) (dest : nat)
| OpMoveBefore (uid ref : string)
| OpMoveAfter (uid ref : string)
| OpClear
| OpPushHistory (item : QueuedItem)
| OpClearHistory.

Definition exec (u : string) (o : op) (q : t) : t :=
  match o with
  | OpPushBack it => push_back u it q
  | OpPushFront it => push_front u it q
  | OpInsertAt i it => insert_at u i it q
  | OpInsertBefore r it => (insert_before_uid u r it q).2
  | OpInsertAfter r it => (insert_after_uid u r it q).2
  | OpPopFront => (pop_front u q).2
  | OpUpdate uid it => (update u uid it q).2
  | OpReplaceAt uid it => (replace_at_uid u uid it q).2
  | OpRemove uid => (remove_by_uid u uid q).2
  | OpMoveTo uid d => (move_to u uid d q).2
  | OpMoveBefore uid r => (move_before_uid u uid r q).2
  | OpMoveAfter uid r => (move_after_uid u uid r q).2
  | OpClear => clear u q
  | OpPushHistory it => push_history u it q
  | OpClearHistory => clear_history u q
  end.

Definition uids (q : t) : list string := item_uid <$> items q.

(** Item UIDs do not repeat in the queue. *)
Definition wf (q : t) : Prop := NoDup (uids q).

(** The item an operation puts into the queue carries a new UID. *)
Definition brings_fresh (o : op) (q : t) : Prop :=
  match o with
  | OpPushBack it | OpPushFront it | OpInsertAt _ it | OpInsertBefore _ it
  | OpInsertAfter _ it | OpReplaceAt _ it => item_uid it ∉ uids q
  | _ => True
  end.

(** A relative move whose reference is absent, or is the moved item itself. *)
Definition dangling_move (o : op) (q : t) : Prop :=
  match o with
  | OpMoveBefore uid r | OpMoveAfter uid r => uid ∈ uids q ∧ (r = uid ∨ r ∉ uids q)
  | _ => False
  end.

Fixpoint run (tr : list (string * op)) (q : t) : t :=
  match tr with
  | [] => q
  | (u, o) :: tr => run tr (exec u o q)
  end.

(** No step of the sequence is a dangling move. *)
Fixpoint never_dangling (tr : list (string * op)) (q : t) : Prop :=
  match tr with
  | [] => True
  | (u, o) :: tr => ¬ dangling_move o q ∧ never_dangling tr (exec u o q)
  end.

(** Every item put into the queue on the way carries a new UID. *)
Fixpoint always_fresh (tr : list (string * op)) (q : t) : Prop :=
  match tr with
  | [] => True
  | (u, o) :: tr => brings_fresh o q ∧ always_fresh tr (exec u o q)
  end.

(** The queue without the item [uid], in order. *)
Definition others (uid : string) (l : list QueuedItem) : list QueuedItem :=
  filter (λ it, item_uid it ≠ uid) l.
End machine.

(** ** Lemmas on the operations *)

Section lemmas.
Context `{JsonNumber}.
Import PlanQueue.
Implicit Types (q : t) (it r : QueuedItem) (l : list QueuedItem).

Lemma index_split q uid i :
  index_of_uid uid q = Some i →
  ∃ l1 it l2, items q = l1 ++ it :: l2 ∧ i = length l1 ∧ item_uid it = uid
    ∧ uid ∉ item_uid <$> l1.
Proof. apply position_key_split. Qed.

Lemma index_split_uids q uid :
  uid ∈ uids q →
  ∃ l1 it l2, items q = l1 ++ it :: l2 ∧ item_uid it = uid ∧ uid ∉ item_uid <$> l1.
Proof. apply elem_of_key_split. Qed.

Lemma index_of_app q l1 it l2 :
  items q = l1 ++ it :: l2 → item_uid it ∉ item_uid <$> l1 →
  index_of_uid (item_uid it) q = Some (length l1).
Proof. intros Hq ?. unfold index_of_uid. rewrite Hq. by apply position_key_app. Qed.

Lemma index_of_None q uid : index_of_uid uid q = None ↔ uid ∉ uids q.
Proof. apply position_key_None. Qed.

Lemma vec_remove_middle l1 it l2 :
  vec_remove (length l1) (l1 ++ it :: l2) = Some (it, l1 ++ l2).
Proof.
  apply vec_remove_Some. split; [by rewrite list_lookup_middle|].
  by rewrite list_delete_middle.
Qed.

Lemma others_middle l1 it l2 :
  NoDup (item_uid <$> l1 ++ it :: l2) → others (item_uid it) (l1 ++ it :: l2) = l1 ++ l2.
Proof.
  rewrite fmap_app, fmap_cons, NoDup_app, NoDup_cons.
  intros (_ & Hd & Hni & _). unfold others.
  rewrite filter_app, filter_cons_False by naive_solver.
  f_equal; apply filter_id; intros x Hx%(list_elem_of_fmap_2 item_uid) Heq;
    rewrite Heq in Hx; [|done].
  apply (Hd (item_uid it)); [done|left].
Qed.

Lemma NoDup_middle l1 it l2 :
  NoDup (item_uid <$> l1 ++ it :: l2) ↔
  item_uid it ∉ item_uid <$> l1 ++ l2 ∧ NoDup (item_uid <$> l1 ++ l2).
Proof.
  rewrite <-NoDup_cons, <-fmap_cons. apply NoDup_Permutation_proper.
  by rewrite <-Permutation_middle.
Qed.

Lemma uids_vec_insert i it l :
  item_uid <$> vec_insert i it l ≡ₚ item_uid it :: (item_uid <$> l).
Proof. by rewrite vec_insert_perm. Qed.

Lemma NoDup_vec_insert i it l :
  item_uid it ∉ item_uid <$> l → NoDup (item_uid <$> l) →
  NoDup (item_uid <$> vec_insert i it l).
Proof. intros. rewrite uids_vec_insert. by constructor. Qed.

Lemma NoDup_replace (l1 : list QueuedItem) it it' l2 :
  NoDup (item_uid <$> l1 ++ it :: l2) → item_uid it' ∉ item_uid <$> l1 ++ l2 →
  NoDup (item_uid <$> <[length l1 := it']> (l1 ++ it :: l2)).
Proof.
  intros [_ Hnd]%NoDup_middle Hni.
  replace (length l1) with (length l1 + 0) by lia.
  rewrite insert_app_r. simpl. by apply NoDup_middle.
Qed.

Lemma others_vec_insert uid i it l :
  item_uid it = uid → others uid (vec_insert i it l) = others uid l.
Proof. intros. apply filter_vec_insert. naive_solver. Qed.

Lemma others_id uid l : uid ∉ item_uid <$> l → others uid l = l.
Proof.
  intros Hni. apply filter_id. intros x Hx <-. apply Hni.
  by apply list_elem_of_fmap_2.
Qed.

(** What taking the item [uid] out of the deque leaves. *)
Lemma take_out q uid :
  uid ∈ uids q →
  ∃ l1 it l2, items q = l1 ++ it :: l2 ∧ item_uid it = uid
    ∧ index_of_uid uid q = Some (length l1)
    ∧ vec_remove (length l1) (items q) = Some (it, l1 ++ l2).
Proof.
  intros (l1 & it & l2 & Hq & <- & Hni)%index_split_uids.
  exists l1, it, l2. split; [done|]. split; [done|].
  split; [by eapply index_of_app|]. rewrite Hq. apply vec_remove_middle.
Qed.
End lemmas.

(** Case analysis on whether the queue holds [uid]: where it does not, the
    operation returns the queue unchanged. *)
Ltac take_uid uid q :=
  let Hin := fresh "Hin" in
  let Hq := fresh "Hq" in
  destruct (decide (uid ∈ uids q)) as [Hin|Hin];
  [ apply take_out in Hin as (l1 & it & l2 & Hq & <- & -> & ->)
  | try done; apply index_of_None in Hin as ->; try done ].

(** A small queue for the examples. *)
Module Ex.
Export Sample.
Definition it (u : string) : QueuedItem := item_plan u "count" (json []).
Definition q : PlanQueue.t := PlanQueue.mk [it "a"; it "b"; it "c"] [] "q0" "h0".
End Ex.

(** ** Theorems *)

Section theorems.
Context `{JsonNumber}.
Import PlanQueue.
Implicit Types (q : t) (it r : QueuedItem).

Lemma exec_keeps_wf u o q : wf q → brings_fresh o q → wf (exec u o q).
Proof.
  unfold wf, uids. intros Hwf Hf.
  destruct o; simpl in *; unfold uids in *.
  - rewrite fmap_app. apply NoDup_app. set_solver by eauto using NoDup_singleton.
  - by constructor.
  - by apply NoDup_vec_insert.
  - unfold insert_before_uid. case_match; [by apply NoDup_vec_insert|done].
  - unfold insert_after_uid. case_match; [by apply NoDup_vec_insert|done].
  - unfold pop_front. destruct (items q) eqn:E; simpl; rewrite ?E; [done|].
    by apply NoDup_cons in Hwf as [_ ?].
  - unfold update. destruct (index_of_uid uid q) eqn:Hi; [|done]. simpl.
    apply index_split in Hi as (l1 & it & l2 & Hq & -> & <- & _). rewrite Hq in *.
    apply NoDup_replace; [done|]. simpl. by apply NoDup_middle in Hwf as [? _].
  - unfold replace_at_uid. destruct (index_of_uid uid q) eqn:Hi; [|done]. simpl.
    apply index_split in Hi as (l1 & it & l2 & Hq & -> & <- & _). rewrite Hq in *.
    apply NoDup_replace; [done|]. set_solver.
  - unfold remove_by_uid. take_uid uid q. simpl. rewrite Hq in Hwf.
    by apply NoDup_middle in Hwf as [_ ?].
  - unfold move_to. take_uid uid q. simpl. rewrite Hq in Hwf.
    apply NoDup_middle in Hwf as [??]. by apply NoDup_vec_insert.
  - unfold move_before_uid. take_uid uid q. rewrite Hq in Hwf.
    apply NoDup_middle in Hwf as [??]. case_match; simpl; [by apply NoDup_vec_insert|done].
  - unfold move_after_uid. take_uid uid q. rewrite Hq in Hwf.
    apply NoDup_middle in Hwf as [??]. case_match; simpl; [by apply NoDup_vec_insert|done].
  - unfold clear. destruct (is_empty q); simpl; [done|constructor].
  - done.
  - unfold clear_history. destruct (history q); done.
Qed.

(** The UIDs an operation may add. *)
Definition brought (o : op) : list string :=
  match o with
  | OpPushBack it | OpPushFront it | OpInsertAt _ it | OpInsertBefore _ it
  | OpInsertAfter _ it | OpReplaceAt _ it => [item_uid it]
  | _ => []
  end.

Lemma exec_uids u o q x : x ∈ uids (exec u o q) → x ∈ uids q ∨ x ∈ brought o.
Proof.
  unfold uids. destruct o; simpl; rewrite ?elem_of_nil, ?list_elem_of_singleton; try tauto.
  - rewrite fmap_app, elem_of_app. simpl. rewrite list_elem_of_singleton. tauto.
  - rewrite elem_of_cons. tauto.
  - rewrite uids_vec_insert, elem_of_cons. tauto.
  - unfold insert_before_uid. case_match; simpl; [|tauto].
    rewrite uids_vec_insert, elem_of_cons. tauto.
  - unfold insert_after_uid. case_match; simpl; [|tauto].
    rewrite uids_vec_insert, elem_of_cons. tauto.
  - unfold pop_front. destruct (items q) eqn:E; simpl; rewrite ?E; [tauto|].
    rewrite elem_of_cons. tauto.
  - unfold update. destruct (index_of_uid uid q) eqn:Hi; [|tauto]. simpl.
    apply index_split in Hi as (l1 & it & l2 & Hq & -> & <- & _). rewrite Hq.
    replace (length l1) with (length l1 + 0) by lia. rewrite insert_app_r. simpl.
    rewrite !elem_of_key_middle. simpl. tauto.
  - unfold replace_at_uid. destruct (index_of_uid uid q) eqn:Hi; [|tauto]. simpl.
    apply index_split in Hi as (l1 & it & l2 & Hq & -> & <- & _). rewrite Hq.
    replace (length l1) with (length l1 + 0) by lia. rewrite insert_app_r. simpl.
    rewrite !elem_of_key_middle. simpl. tauto.
  - unfold remove_by_uid. take_uid uid q; [|tauto]. simpl. rewrite Hq, elem_of_key_middle. tauto.
  - unfold move_to. take_uid uid q; [|tauto]. simpl.
    rewrite uids_vec_insert, elem_of_cons, Hq, elem_of_key_middle. tauto.
  - unfold move_before_uid. take_uid uid q; [|tauto].
    rewrite Hq, elem_of_key_middle. case_match; simpl; [|tauto].
    rewrite uids_vec_insert, elem_of_cons. tauto.
  - unfold move_after_uid. take_uid uid q; [|tauto].
    rewrite Hq, elem_of_key_middle. case_match; simpl; [|tauto].
    rewrite uids_vec_insert, elem_of_cons. tauto.
  - unfold clear. destruct (is_empty q); simpl; [tauto|]. by intros ?%elem_of_nil.
  - unfold clear_history. destruct (history q); tauto.
Qed.

(** The moves on the list of items, by the index the moved item lands at among the
    others. *)
Definition moved_to (k : nat) (it : QueuedItem) u q : t :=
  bump_queue_uid u (set_items (vec_insert k it (others (item_uid it) (items q))) q).

Lemma move_to_list u uid dest q :
  wf q → uid ∈ uids q →
  ∃ it, it ∈ items q ∧ item_uid it = uid
    ∧ move_to u uid dest q =
      (Some it, moved_to (dest `min` length (others uid (items q))) it u q).
Proof.
  intros Hwf Hin. unfold move_to, moved_to. take_uid uid q. rewrite Hq.
  unfold wf, uids in Hwf. rewrite Hq in Hwf. exists it. rewrite others_middle by done.
  split; [set_solver|]. split; [done|]. done.
Qed.

Lemma move_relative_list u uid ref q :
  wf q → uid ∈ uids q → ref ∈ uids q → uid ≠ ref →
  ∃ it l1 r l2, it ∈ items q ∧ item_uid it = uid ∧ item_uid r = ref
    ∧ others uid (items q) = l1 ++ r :: l2 ∧ ref ∉ item_uid <$> l1
    ∧ move_before_uid u uid ref q = (Some it, moved_to (length l1) it u q)
    ∧ move_after_uid u uid ref q = (Some it, moved_to (length l1 + 1) it u q).
Proof.
  intros Hwf Hin Href Hne. unfold move_before_uid, move_after_uid, moved_to.
  take_uid uid q. unfold wf, uids in *. rewrite Hq in *.
  assert (ref ∈ uids (set_items (l1 ++ l2) q)) as Hr
    by (rewrite elem_of_key_middle in Href; unfold uids; simpl; naive_solver).
  apply index_split_uids in Hr as (k1 & r & k2 & Hk & <- & Hk1). simpl in Hk.
  rewrite (index_of_app _ k1 r k2) by done. simpl.
  exists it, k1, r, k2. rewrite others_middle, Hk by done.
  split_and!; try done. set_solver.
Qed.

(** Every operation of the queue keeps its item UIDs distinct, provided an item
    it brings in carries a UID the queue does not hold yet. *)
Theorem exec_wf u o q : wf q → brings_fresh o q → wf (exec u o q).
Proof. apply exec_keeps_wf. Qed.

Lemma missing_ref_dangles q ref l1 it l2 :
  items q = l1 ++ it :: l2 → index_of_uid ref (set_items (l1 ++ l2) q) = None →
  item_uid it ∈ uids q ∧ (ref = item_uid it ∨ ref ∉ uids q).
Proof.
  intros Hq Hn%index_of_None. unfold uids in *. rewrite Hq, !elem_of_key_middle.
  simpl in Hn. split; [by left|]. destruct (decide (ref = item_uid it)); tauto.
Qed.

(** A step that is not a dangling move and leaves [queue_uid] alone leaves
    the items alone. *)
Lemma exec_same_uid u o q :
  ¬ dangling_move o q → u ≠ queue_uid q → queue_uid (exec u o q) = queue_uid q →
  items (exec u o q) = items q.
Proof.
  intros Hnd Hu. destruct o; simpl in *; try done.
  - unfold insert_before_uid. by case_match.
  - unfold insert_after_uid. by case_match.
  - unfold pop_front. destruct (items q) eqn:E; simpl; congruence.
  - unfold update. by case_match.
  - unfold replace_at_uid. by case_match.
  - unfold remove_by_uid. take_uid uid q. done.
  - unfold move_to. take_uid uid q. done.
  - unfold move_before_uid. take_uid uid q. case_match eqn:E; [done|].
    intros _. exfalso. by apply Hnd, (missing_ref_dangles _ _ l1 it l2).
  - unfold move_after_uid. take_uid uid q. case_match eqn:E; [done|].
    intros _. exfalso. by apply Hnd, (missing_ref_dangles _ _ l1 it l2).
  - unfold clear. destruct (is_empty q) eqn:E; simpl; [done|congruence].
  - unfold clear_history. by destruct (history q).
Qed.

(** An operation mints at most the UUID it was given. *)
Lemma exec_uid_cases u o q :
  queue_uid (exec u o q) = queue_uid q ∨ queue_uid (exec u o q) = u.
Proof.
  destruct o; simpl; auto;
    unfold insert_before_uid, insert_after_uid, pop_front, update, replace_at_uid,
      remove_by_uid, move_to, move_before_uid, move_after_uid, clear, clear_history;
    repeat case_match; simpl; auto.
Qed.

Lemma run_uid_cases tr q :
  queue_uid (run tr q) = queue_uid q ∨ queue_uid (run tr q) ∈ tr.*1.
Proof.
  revert q. induction tr as [| [u o] tr IH]; intros q; simpl; [auto|].
  destruct (IH (exec u o q)) as [->|?]; [|set_solver].
  destruct (exec_uid_cases u o q) as [-> | ->]; set_solver.
Qed.

(** C19: A client that sees the same [plan_queue_uid] twice may keep its copy of the
    queue: along any sequence of operations with distinct UUIDs and no
    dangling move, an unchanged [queue_uid] means unchanged contents. *)
Theorem queue_uid_tracks_contents tr q :
  NoDup (queue_uid q :: tr.*1) → never_dangling tr q →
  queue_uid (run tr q) = queue_uid q → items (run tr q) = items q.
Proof.
  revert q. induction tr as [| [u o] tr IH]; intros q Hnd Hd Hu; simpl in *; [done|].
  apply NoDup_cons in Hnd as [Hni Hnd]. apply NoDup_cons in Hnd as [Huni Hnd].
  destruct Hd as [Hd1 Hd2]. destruct (exec_uid_cases u o q) as [Hs|Hs].
  - assert (items (exec u o q) = items q) as <- by (apply exec_same_uid; [done|set_solver|done]).
    apply IH; [rewrite Hs; by apply NoDup_cons; set_solver|done|congruence].
  - exfalso. apply Hni. rewrite <-Hu.
    destruct (run_uid_cases tr (exec u o q)) as [-> | ?]; [rewrite Hs; left|by right].
Qed.

(** A relative move whose reference UID is not in the queue (or is the
    item itself) answers [None] and yet the item is gone from the queue,
    while [queue_uid] stays: the failed request loses a queued plan. *)
Theorem dangling_move_drops_item u uid ref q :
  wf q → dangling_move (OpMoveBefore uid ref) q →
  let q' := set_items (others uid (items q)) q in
  move_before_uid u uid ref q = (None, q') ∧ move_after_uid u uid ref q = (None, q')
  ∧ uid ∉ uids q' ∧ queue_uid q' = queue_uid q ∧ len q = S (len q').
Proof.
  intros Hwf Hd q'. destruct Hd as [Hin Href]. unfold move_before_uid, move_after_uid.
  take_uid uid q. unfold wf, uids in Hwf. rewrite Hq in Hwf.
  assert (others (item_uid it) (items q) = l1 ++ l2) as Ho
    by (rewrite Hq; by apply others_middle).
  apply NoDup_middle in Hwf as [Hni _].
  assert (index_of_uid ref (set_items (l1 ++ l2) q) = None) as ->.
  { apply index_of_None. unfold uids in *. simpl.
    rewrite Hq, elem_of_key_middle in Href. naive_solver. }
  subst q'. unfold len, uids. rewrite Ho. simpl.
  split_and!; [done..|]. rewrite Hq, !length_app. simpl. lia.
Qed.

(** An absolute move of a queued item puts it at the clamped destination, keeps
    every other item in order, loses nothing and mints the new [queue_uid]. *)
Theorem move_to_correct u uid dest q :
  wf q → uid ∈ uids q →
  ∃ it q', move_to u uid dest q = (Some it, q') ∧ item_uid it = uid
    ∧ items q' !! (dest `min` (len q - 1)) = Some it
    ∧ items q' ≡ₚ items q ∧ others uid (items q') = others uid (items q)
    ∧ queue_uid q' = u ∧ history q' = history q.
Proof.
  intros Hwf Hin. unfold move_to, len. take_uid uid q. rewrite Hq.
  unfold wf, uids in Hwf. rewrite Hq in Hwf. eexists it, _. split; [done|]. simpl.
  rewrite !length_app; simpl.
  replace (length l1 + S (length l2) - 1) with (length l1 + length l2) by lia.
  split; [done|]. split; [apply lookup_vec_insert_eq; rewrite length_app; lia|].
  split; [by rewrite vec_insert_perm, Permutation_middle|]. split; [|done].
  rewrite others_vec_insert, others_middle by done.
  apply others_id. by apply NoDup_middle in Hwf as [? _].
Qed.

(** A relative move whose reference is another queued item puts the item right
    before (after) it, keeps every other item in order and loses nothing. *)
Theorem move_relative_correct u uid ref q :
  wf q → uid ∈ uids q → ref ∈ uids q → uid ≠ ref →
  (∃ it r l1 l2 q', move_before_uid u uid ref q = (Some it, q')
    ∧ item_uid it = uid ∧ item_uid r = ref ∧ items q' = l1 ++ it :: r :: l2
    ∧ items q' ≡ₚ items q ∧ others uid (items q') = others uid (items q)
    ∧ queue_uid q' = u)
  ∧ (∃ it r l1 l2 q', move_after_uid u uid ref q = (Some it, q')
    ∧ item_uid it = uid ∧ item_uid r = ref ∧ items q' = l1 ++ r :: it :: l2
    ∧ items q' ≡ₚ items q ∧ others uid (items q') = others uid (items q)
    ∧ queue_uid q' = u).
Proof.
  intros Hwf Hin Href Hne. unfold move_before_uid, move_after_uid.
  take_uid uid q. unfold wf, uids in *. rewrite Hq in Hwf, Href.
  pose proof Hwf as [Hni _]%NoDup_middle.
  assert (ref ∈ uids (set_items (l1 ++ l2) q)) as Hr
    by (rewrite elem_of_key_middle in Href; unfold uids; simpl; naive_solver).
  apply index_split_uids in Hr as (k1 & r & k2 & Hk & <- & Hk1). simpl in Hk.
  rewrite (index_of_app _ k1 r k2) by done. simpl.
  assert (others (item_uid it) (k1 ++ r :: k2) = others (item_uid it) (l1 ++ it :: l2))
    as Ho by (rewrite others_middle, <-Hk by done; by apply others_id).
  assert (∀ i, vec_insert i it (l1 ++ l2) ≡ₚ l1 ++ it :: l2) as Hp
    by (intros; by rewrite vec_insert_perm, Permutation_middle).
  split.
  - eexists it, r, k1, k2, _. split; [done|]. simpl. split; [done|]. split; [done|].
    rewrite Hq, others_vec_insert, Hk by done. split; [apply vec_insert_app|].
    split_and!; [by rewrite <-Hk, Hp|done|done].
  - eexists it, r, k1, k2, _. split; [done|]. simpl. split; [done|]. split; [done|].
    rewrite Hq, others_vec_insert by done.
    split; [|split_and!; [by rewrite Hp|by rewrite Hk|done]]. rewrite Hk. replace (length k1 + 1) with (length (k1 ++ [r])) by (rewrite length_app; done).
    replace (k1 ++ r :: k2) with ((k1 ++ [r]) ++ k2) by (by rewrite <-app_assoc).
    rewrite vec_insert_app, <-app_assoc. done.
Qed.
End theorems.

(** ** Examples at a concrete queue [a; b; c] *)
Section examples.
Import PlanQueue Ex.

Lemma exec_wf_witness : wf (exec "u1" (OpInsertBefore "b" (it "d")) q).
Proof. apply exec_wf; [unfold wf; compute_decide|simpl; compute_decide]. Defined.

Lemma queue_uid_tracks_contents_witness :
  items (run [("u1", OpRemove "z"); ("u2", OpMoveTo "z" 0)] q) = items q.
Proof.
  apply queue_uid_tracks_contents; [compute_decide| |reflexivity].
  simpl. tauto.
Defined.

Lemma dangling_move_drops_item_witness :
  (move_before_uid "u1" "b" "z" q).1 = None
  ∧ uids (move_before_uid "u1" "b" "z" q).2 = ["a"; "c"].
Proof.
  destruct (dangling_move_drops_item "u1" "b" "z" q) as (-> & _).
  - unfold wf. compute_decide.
  - split; [compute_decide|right; compute_decide].
  - split; reflexivity.
Defined.

Lemma move_to_correct_witness : ∃ it' q', move_to "u1" "a" 9 q = (Some it', q')
  ∧ items q' !! 2 = Some it'.
Proof.
  destruct (move_to_correct "u1" "a" 9 q) as (it' & q' & ? & _ & ? & _).
  - unfold wf. compute_decide.
  - compute_decide.
  - by exists it', q'.
Defined.

Lemma move_relative_correct_witness :
  ∃ it' q', move_before_uid "u1" "c" "a" q = (Some it', q') ∧ queue_uid q' = "u1".
Proof.
  destruct (move_relative_correct "u1" "c" "a" q)
    as [(it' & r & l1 & l2 & q' & ? & _ & _ & _ & _ & _ & ?) _].
  - unfold wf. compute_decide.
  - compute_decide.
  - compute_decide.
  - done.
  - by exists it', q'.
Defined.
End examples.
