(* ===== verification/TaskSlot.v ===== *)
(** * The queue-worker slot ([qs/task_slot.rs])

    [QueueTaskSlot] is the claim on queue execution: a generation-stamped
    entry that is held by at most one worker. The file models the slot's
    operations, then the whole protocol around it: guards that are dropped at
    any time, abort handles registered late, forced revocations. *)

From S2P Require Import Prelude.

(** A [tokio] task, named by its abort handle. *)
Definition AbortHandle := nat.

Record Entry := mkEntry {
  generation : Z;
  handle : option AbortHandle;
}.

(** [SlotInner] with the [worker_finished] flag beside it. *)
Record QueueTaskSlot := mkSlot {
  next_gen : Z;
  entry : option Entry;
  worker_finished : bool;
}.

Definition slot_new : QueueTaskSlot := mkSlot 0 None false.

(** The claim is the generation it was stamped with. *)
Definition slot_claim (s : QueueTaskSlot) : option Z * QueueTaskSlot :=
  match entry s with
  | Some _ => (None, s)
  | None =>
      let g := next_gen s in
      (Some g, mkSlot (wrap64 (next_gen s + 1)) (Some (mkEntry g None)) (worker_finished s))
  end.

(** Returns the handle it aborts, when the claim is no longer current. *)
Definition slot_register (g : Z) (h : AbortHandle) (s : QueueTaskSlot)
  : option AbortHandle * QueueTaskSlot :=
  match entry s with
  | Some e =>
      if decide (generation e = g)
      then (None, mkSlot (next_gen s) (Some (mkEntry (generation e) (Some h)))
                    (worker_finished s))
      else (Some h, s)
  | None => (Some h, s)
  end.

Definition slot_take (s : QueueTaskSlot) : option AbortHandle * QueueTaskSlot :=
  (entry s ≫= handle, mkSlot (next_gen s) None (worker_finished s)).

Definition slot_is_active (s : QueueTaskSlot) : bool :=
  match entry s with Some _ => true | None => false end.

(** [finish], which the claim's [Drop] runs. *)
Definition slot_finish (g : Z) (s : QueueTaskSlot) : QueueTaskSlot :=
  match entry s with
  | Some e =>
      if decide (generation e = g) then mkSlot (next_gen s) None true else s
  | None => s
  end.

Definition slot_take_worker_finished (s : QueueTaskSlot) : bool * QueueTaskSlot :=
  (worker_finished s, mkSlot (next_gen s) (entry s) false).

(** ** The protocol

    [guards] are the claims not dropped yet, [tasks] the spawned workers with
    the generation each was claimed under (registered handles), [aborted] the
    handles [abort] was called on. A worker is registered once, under a
    generation claimed before; every caller of [take] aborts the handle it
    gets. *)

Record Protocol := mkProto {
  slot : QueueTaskSlot;
  guards : list Z;
  tasks : list (Z * AbortHandle);
  aborted : list AbortHandle;
}.

Definition proto_init : Protocol := mkProto slot_new [] [] [].

Inductive proto_step : Protocol → Protocol → Prop :=
| step_claim p g s' :
    slot_claim (slot p) = (Some g, s') →
    proto_step p (mkProto s' (g :: guards p) (tasks p) (aborted p))
| step_claim_refused p s' :
    slot_claim (slot p) = (None, s') →
    proto_step p (mkProto s' (guards p) (tasks p) (aborted p))
| step_register p g h o s' :
    (0 ≤ g < next_gen (slot p))%Z → g ∉ (tasks p).*1 →
    slot_register g h (slot p) = (o, s') →
    proto_step p (mkProto s' (guards p) ((g, h) :: tasks p) (option_list o ++ aborted p))
| step_take p o s' :
    slot_take (slot p) = (o, s') →
    proto_step p (mkProto s' (guards p) (tasks p) (option_list o ++ aborted p))
| step_drop p g l1 l2 :
    guards p = l1 ++ g :: l2 →
    proto_step p (mkProto (slot_finish g (slot p)) (l1 ++ l2) (tasks p) (aborted p))
| step_poll p b s' :
    slot_take_worker_finished (slot p) = (b, s') →
    proto_step p (mkProto s' (guards p) (tasks p) (aborted p)).

(** [n] steps from the initial state. *)
Inductive proto_reach : nat → Protocol → Prop :=
| reach_init : proto_reach 0 proto_init
| reach_step n p p' : proto_reach n p → proto_step p p' → proto_reach (S n) p'.

(** The claim under generation [g] holds the slot. *)
Definition current (g : Z) (s : QueueTaskSlot) : Prop :=
  ∃ e, entry s = Some e ∧ generation e = g.

#[export] Instance current_dec g s : Decision (current g s).
Proof.
  unfold current. destruct (entry s) as [e|].
  - destruct (decide (generation e = g)); [left; eauto|right; naive_solver].
  - right. naive_solver.
Defined.

Record proto_inv (n : nat) (p : Protocol) : Prop := {
  inv_bound : (0 ≤ next_gen (slot p) ≤ Z.of_nat n)%Z;
  inv_guards : NoDup (guards p);
  inv_guards_lt : ∀ g, g ∈ guards p → (g < next_gen (slot p))%Z;
  inv_current : ∀ g, current g (slot p) → g ∈ guards p;
  inv_tasks : NoDup (tasks p).*1;
  inv_tasks_lt : ∀ g, g ∈ (tasks p).*1 → (g < next_gen (slot p))%Z;
  inv_tracked : ∀ e h, entry (slot p) = Some e →
    handle e = Some h ↔ (generation e, h) ∈ tasks p;
  inv_orphans : ∀ g h, (g, h) ∈ tasks p → g ∈ guards p →
    current g (slot p) ∨ h ∈ aborted p;
}.

(** ** Lemmas *)

Lemma current_some g e n b : current g (mkSlot n (Some e) b) ↔ generation e = g.
Proof. unfold current. simpl. naive_solver. Qed.

Lemma current_none g n b : ¬ current g (mkSlot n None b).
Proof. unfold current. simpl. naive_solver. Qed.

Lemma finish_cases g s :
  (current g s ∧ slot_finish g s = mkSlot (next_gen s) None true)
  ∨ (¬ current g s ∧ slot_finish g s = s).
Proof.
  unfold slot_finish, current. destruct (entry s) as [e|]; [|naive_solver].
  case_decide; naive_solver.
Qed.

(** A claim that is not current releases nothing. *)
Lemma finish_stale g s : ¬ current g s → slot_finish g s = s.
Proof. destruct (finish_cases g s) as [[??]|[??]]; done. Qed.

Lemma next_gen_finish g s : next_gen (slot_finish g s) = next_gen s.
Proof. by destruct (finish_cases g s) as [[? ->]|[? ->]]. Qed.

Lemma proto_inv_init : proto_inv 0 proto_init.
Proof.
  split; simpl; try constructor; try lia; try set_solver.
  - intros g [e [? _]]. done.
Qed.

Lemma proto_inv_claim n p g s' :
  (Z.of_nat (S n) ≤ u64_max)%Z → proto_inv n p → slot_claim (slot p) = (Some g, s') →
  proto_inv (S n) (mkProto s' (g :: guards p) (tasks p) (aborted p)).
Proof.
  intros Hn [Hb Hg Hglt Hc Ht Htlt Htr Ho] Hcl. unfold slot_claim in Hcl.
  destruct (entry (slot p)) as [e|] eqn:He; simplify_eq.
  assert (wrap64 (next_gen (slot p) + 1) = next_gen (slot p) + 1)%Z as Hw
    by (apply wrap64_small; unfold in_u64; lia).
  assert (∀ g, g ∈ (tasks p).*1 → g ≠ next_gen (slot p)) as Hne
    by (intros g Hin%Htlt ->; lia).
  split; simpl; rewrite ?Hw.
  - lia.
  - constructor; [|done]. intros Hin%Hglt. lia.
  - intros g [-> | Hin%Hglt]%elem_of_cons; lia.
  - intros g <-%current_some. simpl. set_solver.
  - done.
  - intros g Hin%Htlt. lia.
  - intros e h [= <-]. simpl. split; [done|]. intros Hin.
    exfalso. apply (Hne (next_gen (slot p))); [|done].
    apply list_elem_of_fmap. by exists (next_gen (slot p), h).
  - intros g h Hin [-> | Hg']%elem_of_cons.
    + left. by apply current_some.
    + destruct (Ho g h Hin Hg') as [[e [? _]]|?]; [congruence|by right].
Qed.

Lemma proto_inv_register n p g h o s' :
  (0 ≤ g < next_gen (slot p))%Z → g ∉ (tasks p).*1 →
  proto_inv n p → slot_register g h (slot p) = (o, s') →
  proto_inv (S n) (mkProto s' (guards p) ((g, h) :: tasks p) (option_list o ++ aborted p)).
Proof.
  intros Hlt Hni [Hb Hg Hglt Hc Ht Htlt Htr Ho] Hr. unfold slot_register in Hr.
  destruct (entry (slot p)) as [e|] eqn:He; [case_decide|]; simplify_eq/=.
  - split; simpl; try done; [lia|..].
    + intros g <-%current_some. apply Hc. by exists e.
    + by constructor.
    + intros g [-> | ?]%elem_of_cons; [lia|auto].
    + intros e' h' [= <-]. simpl. split; [intros [= <-]; left|].
      intros [[= ->]|Hin]%elem_of_cons; [done|].
      exfalso. apply Hni, list_elem_of_fmap. by exists (generation e, h').
    + intros g h' [[= -> ->]|Hin]%elem_of_cons Hg'; [left; by apply current_some|].
      destruct (Ho g h' Hin Hg') as [(e' & ? & ?)|?]; [|by right].
      left. apply current_some. simpl. congruence.
  - split; simpl; try done; [lia|by constructor|..].
    + intros g' [-> | ?]%elem_of_cons; [lia|auto].
    + intros e' h' He'. rewrite He in He'. injection He' as <-.
      rewrite (Htr e h' eq_refl). split; [by right|].
      intros [[= ? ->]|?]%elem_of_cons; done.
    + intros g' h' [[= -> ->]|Hin]%elem_of_cons Hg'; [right; left|].
      destruct (Ho g' h' Hin Hg'); [by left|right; by right].
  - split; simpl; try done; [lia|by constructor|..].
    + intros g' [-> | ?]%elem_of_cons; [lia|auto].
    + intros e' h' He'. congruence.
    + intros g' h' [[= -> ->]|Hin]%elem_of_cons Hg'; [right; left|].
      destruct (Ho g' h' Hin Hg'); [by left|right; by right].
Qed.

Lemma proto_inv_take n p o s' :
  proto_inv n p → slot_take (slot p) = (o, s') →
  proto_inv (S n) (mkProto s' (guards p) (tasks p) (option_list o ++ aborted p)).
Proof.
  intros [Hb Hg Hglt Hc Ht Htlt Htr Ho] [= <- <-].
  split; simpl; try done; [lia|by intros g ?%current_none|].
  intros g h Hin Hg'. right. apply elem_of_app.
  destruct (Ho g h Hin Hg') as [(e & He & <-)|?]; [left|by right].
  rewrite He. simpl. apply (Htr _ _ He) in Hin as ->. simpl. left.
Qed.

Lemma proto_inv_drop n p g l1 l2 :
  proto_inv n p → guards p = l1 ++ g :: l2 →
  proto_inv (S n) (mkProto (slot_finish g (slot p)) (l1 ++ l2) (tasks p) (aborted p)).
Proof.
  intros [Hb Hg Hglt Hc Ht Htlt Htr Ho] Hgs. rewrite Hgs in *.
  assert (g ∉ l1 ++ l2 ∧ NoDup (l1 ++ l2)) as [Hni Hnd].
  { apply NoDup_cons. by rewrite Permutation_middle. }
  assert (∀ g', g' ∈ l1 ++ l2 → g' ∈ l1 ++ g :: l2) as Hsub
    by (intros g'; rewrite !elem_of_app, elem_of_cons; tauto).
  split; simpl; rewrite ?next_gen_finish; try done; [lia|by eauto|..].
  - intros g' Hcur. destruct (finish_cases g (slot p)) as [[? Hf]|[Hn Hf]];
      rewrite Hf in Hcur; [by apply current_none in Hcur|].
    apply Hc in Hcur as Hin. rewrite elem_of_app, elem_of_cons in Hin.
    rewrite elem_of_app. destruct Hin as [?|[-> | ?]]; [by left|done|by right].
  - intros e h He. apply Htr. by destruct (finish_cases g (slot p)) as [[? Hf]|[Hn Hf]];
      rewrite Hf in He.
  - intros g' h Hin Hg'. destruct (Ho g' h Hin (Hsub _ Hg')) as [Hcur|?]; [|by right].
    left. rewrite finish_stale; [done|]. intros Hcur'.
    assert (g = g') as ->; [|done].
    destruct Hcur as (e & He & <-), Hcur' as (e' & He' & <-). congruence.
Qed.

Lemma proto_inv_step n p p' :
  (Z.of_nat (S n) ≤ u64_max)%Z → proto_inv n p → proto_step p p' → proto_inv (S n) p'.
Proof.
  intros Hn Hi Hs. destruct Hs as [p g s' Hc|p s' Hc|p g h o s' Hg Ht Hr|p o s' Ht
    |p g l1 l2 Hg|p b s' Hp].
  - by eapply proto_inv_claim.
  - unfold slot_claim in Hc. destruct (entry (slot p)) eqn:He; simplify_eq.
    destruct Hi. by split; simpl; try done; lia.
  - by eapply proto_inv_register.
  - by eapply proto_inv_take.
  - by apply proto_inv_drop.
  - unfold slot_take_worker_finished in Hp. simplify_eq.
    destruct Hi. by split; simpl; try done; lia.
Qed.

Lemma proto_inv_reach n p : (Z.of_nat n ≤ u64_max)%Z → proto_reach n p → proto_inv n p.
Proof.
  intros Hn Hr. induction Hr as [|n p p' Hr IH Hs]; [apply proto_inv_init|].
  eapply proto_inv_step; [done| |done]. apply IH. lia.
Qed.

#[export] Hint Resolve proto_inv_reach : bsrs.

(** ** Theorems *)

(** C17: However claims, registrations, forced revocations and drops interleave, at most one
    worker is registered, still holds its guard and has not been aborted. (One whose claim
    is revoked before it is registered is not counted: it is aborted when it registers.) *)
Theorem at_most_one_live_worker n p g1 h1 g2 h2 :
  (Z.of_nat n ≤ u64_max)%Z → proto_reach n p →
  (g1, h1) ∈ tasks p → g1 ∈ guards p → h1 ∉ aborted p →
  (g2, h2) ∈ tasks p → g2 ∈ guards p → h2 ∉ aborted p →
  (g1, h1) = (g2, h2).
Proof.
  intros Hn Hr%proto_inv_reach Ht1 Hg1 Ha1 Ht2 Hg2 Ha2; [|done].
  destruct (inv_orphans _ _ Hr _ _ Ht1 Hg1) as [(e & He & <-)|?]; [|done].
  destruct (inv_orphans _ _ Hr _ _ Ht2 Hg2) as [(e' & He' & <-)|?]; [|done].
  assert (e = e') as <- by congruence.
  apply (inv_tracked _ _ Hr _ _ He) in Ht1. apply (inv_tracked _ _ Hr _ _ He) in Ht2.
  congruence.
Qed.

(** A claim that was revoked or released never becomes current again, and
    dropping it later changes nothing: no stale worker can free its
    successor's slot. *)
Theorem revoked_claim_is_inert n m p p' g :
  (Z.of_nat (m + n) ≤ u64_max)%Z → proto_reach n p → nsteps proto_step m p p' →
  (g < next_gen (slot p))%Z → ¬ current g (slot p) →
  ¬ current g (slot p') ∧ slot_finish g (slot p') = slot p'.
Proof.
  intros Hn Hr Hs Hlt Hc.
  assert (¬ current g (slot p')) as Hnc; [|split; [done|by apply finish_stale]].
  revert n Hn Hr Hlt Hc. induction Hs as [p|m p p1 p2 Hst _ IH]; intros n Hn Hr Hlt Hc;
    [done|].
  apply (IH (S n)); [lia|by eapply reach_step|..].
  all: pose proof (proto_inv_reach n p ltac:(lia) Hr) as Hi;
    pose proof (inv_bound _ _ Hi) as Hb.
  all: destruct Hst as [p g' s' Hcl|p s' Hcl|p g' h o s' Hg Ht Hrg|p o s' Htk
    |p g' l1 l2 Hgs|p b s' Hp]; simpl.
  all: unfold slot_claim, slot_register, slot_take, slot_take_worker_finished, current in *.
  all: rewrite ?next_gen_finish; simpl in *; repeat case_match; simplify_eq/=; try done.
  all: try (rewrite wrap64_small by (unfold in_u64; lia); lia).
  all: try naive_solver lia.
  destruct (finish_cases g' (slot p)) as [[? ->]|[? ->]]; naive_solver.
Qed.

(** ** Examples: claim, register, revoke, claim again *)

Definition ex_claimed : Protocol :=
  mkProto (mkSlot 1 (Some (mkEntry 0 (Some 7))) false) [0%Z] [(0%Z, 7)] [].

Lemma ex_claimed_reach : proto_reach 2 ex_claimed.
Proof.
  eapply reach_step; [eapply reach_step; [apply reach_init|]|].
  - by eapply step_claim.
  - refine (step_register _ 0 7 None (mkSlot 1 (Some (mkEntry 0 (Some 7))) false) _ _ _);
      [compute_decide|compute_decide|done].
Qed.

Definition ex_revoked : Protocol :=
  mkProto (mkSlot 1 None false) [0%Z] [(0%Z, 7)] [7].

Lemma ex_revoked_reach : proto_reach 3 ex_revoked.
Proof.
  eapply reach_step; [apply ex_claimed_reach|].
  by apply (step_take ex_claimed (Some 7)).
Qed.

Lemma at_most_one_live_worker_witness : (0%Z, 7) = (0%Z, 7).
Proof.
  apply (at_most_one_live_worker 2 ex_claimed); first [compute_decide|apply ex_claimed_reach].
Defined.

Lemma revoked_claim_is_inert_witness :
  ¬ current 0 (mkSlot 2 (Some (mkEntry 1 None)) false).
Proof.
  refine (proj1 (revoked_claim_is_inert 3 1 ex_revoked
    (mkProto (mkSlot 2 (Some (mkEntry 1 None)) false) [1%Z; 0%Z] [(0%Z, 7)] [7]) 0 _ _ _ _ _)).
  - compute_decide.
  - apply ex_revoked_reach.
  - eapply nsteps_l; [by eapply step_claim|apply nsteps_O].
  - compute_decide.
  - compute_decide.
Defined.
