(* ===== verification/Tasks.v ===== *)
(** * Background tasks ([qs/tasks.rs])

    [TaskTracker] backs [task_status] and [task_result]: a bounded table of
    background evaluations with first-in-first-out eviction. *)

From S2P Require Import Prelude.

Record EvalResult := mkEval {
  eval_stdout : string;
  eval_return_value : option string;
  eval_error : option string;
}.

Definition eval_is_success (r : EvalResult) : bool :=
  match eval_error r with None => true | Some _ => false end.

Inductive TaskState :=
| Running
| Completed (r : EvalResult).

(** [started_at] is never read and is left out. *)
Record TaskEntry := mkTask {
  task_state : TaskState;
  task_source_method : string;
}.

Record TaskTracker := mkTracker {
  entries : gmap string TaskEntry;
  order : list string;
}.

Definition MAX_TASKS : nat := 256.

Definition tracker_new : TaskTracker := mkTracker ∅ [].

(** Evict the oldest entry of a full table. *)
Definition tracker_evict (t : TaskTracker) : TaskTracker :=
  if decide (MAX_TASKS ≤ size (entries t)) then
    match order t with
    | old :: rest => mkTracker (delete old (entries t)) rest
    | [] => t
    end
  else t.

Definition tracker_start (uid source_method : string) (t : TaskTracker) : TaskTracker :=
  let t := tracker_evict t in
  mkTracker (<[uid := mkTask Running source_method]> (entries t)) (order t ++ [uid]).

Definition tracker_source_method (uid : string) (t : TaskTracker) : option string :=
  task_source_method <$> entries t !! uid.

Definition tracker_complete (uid : string) (r : EvalResult) (t : TaskTracker) : TaskTracker :=
  match entries t !! uid with
  | Some e => mkTracker (<[uid := mkTask (Completed r) (task_source_method e)]> (entries t))
                (order t)
  | None => t
  end.

Definition tracker_status (uid : string) (t : TaskTracker) : option string :=
  e ← entries t !! uid;
  Some match task_state e with
       | Running => "running"
       | Completed r => if eval_is_success r then "completed" else "failed"
       end.

Definition tracker_result (uid : string) (t : TaskTracker) : option EvalResult :=
  e ← entries t !! uid;
  match task_state e with Completed r => Some r | Running => None end.

(** ** The tracker as a state machine *)

Inductive task_op :=
| TaskStart (uid source_method : string)
| TaskComplete (uid : string) (r : EvalResult).

Definition task_exec (o : task_op) (t : TaskTracker) : TaskTracker :=
  match o with
  | TaskStart uid m => tracker_start uid m t
  | TaskComplete uid r => tracker_complete uid r t
  end.

Definition task_run (os : list task_op) (t : TaskTracker) : TaskTracker :=
  foldl (λ t o, task_exec o t) t os.

(** The UIDs started by a sequence, in order. *)
Definition started (os : list task_op) : list string :=
  omap (λ o, match o with TaskStart uid _ => Some uid | _ => None end) os.

(** The eviction queue lists the entries of the table once each. *)
Record tracker_wf (t : TaskTracker) : Prop := {
  tracker_order_nodup : NoDup (order t);
  tracker_order_dom : ∀ uid, uid ∈ order t ↔ uid ∈ dom (entries t);
}.

(** The last [n] elements. *)
Definition last_n {A} (n : nat) (l : list A) : list A := drop (length l - n) l.

(** ** Lemmas *)

Lemma tracker_wf_size t : tracker_wf t → size (entries t) = length (order t).
Proof.
  intros [Hnd Hd]. rewrite <-size_dom.
  rewrite <-(size_list_to_set (C := gset string) (order t)) by done.
  f_equal. apply set_eq. intros uid. rewrite elem_of_list_to_set. symmetry. apply Hd.
Qed.

Lemma tracker_wf_new : tracker_wf tracker_new.
Proof. split; [constructor|]. intros. set_solver. Qed.

Lemma tracker_evict_order t :
  tracker_wf t → length (order t) ≤ MAX_TASKS →
  order (tracker_evict t) = last_n (MAX_TASKS - 1) (order t).
Proof.
  intros Hwf Hle. unfold tracker_evict, last_n. rewrite (tracker_wf_size _ Hwf).
  case_decide as Hge.
  - replace (length (order t) - (MAX_TASKS - 1)) with 1 by (unfold MAX_TASKS in *; lia).
    destruct (order t) eqn:Ho; simpl; [by rewrite Ho|by rewrite drop_0].
  - by replace (length (order t) - (MAX_TASKS - 1)) with 0 by lia.
Qed.

Lemma length_last_n {A} n (l : list A) : length (last_n n l) = length l `min` n.
Proof. unfold last_n. rewrite length_drop. lia. Qed.

Lemma last_n_snoc {A} n (l : list A) x :
  0 < n → last_n (n - 1) (last_n n l) ++ [x] = last_n n (l ++ [x]).
Proof.
  intros Hn. unfold last_n. rewrite drop_drop, length_app, length_drop; simpl.
  rewrite drop_app_le by lia. f_equal. f_equal. lia.
Qed.

Lemma tracker_wf_evict t : tracker_wf t → tracker_wf (tracker_evict t).
Proof.
  intros [Hnd Hd]. unfold tracker_evict. case_decide; [|by split].
  destruct (order t) as [|old rest] eqn:Ho; [by split; rewrite ?Ho|].
  apply NoDup_cons in Hnd as [Hni Hnd]. split; simpl; [done|]. intros uid.
  rewrite dom_delete_L, elem_of_difference, <-Hd, elem_of_singleton, elem_of_cons.
  split; [intros Hin; split; [by right|by intros ->]|naive_solver].
Qed.

Lemma tracker_evict_fresh uid t :
  uid ∉ order t → uid ∉ order (tracker_evict t).
Proof.
  intros Hni. unfold tracker_evict. case_decide; [|done].
  destruct (order t) eqn:Ho; [by rewrite Ho|]. simpl. set_solver.
Qed.

Lemma tracker_wf_start uid m t :
  tracker_wf t → uid ∉ order t → tracker_wf (tracker_start uid m t).
Proof.
  intros Hwf%tracker_wf_evict Hni%tracker_evict_fresh. destruct Hwf as [Hnd Hd].
  split; simpl.
  - apply NoDup_app. split; [done|]. split; [|apply NoDup_singleton]. set_solver.
  - intros u. rewrite dom_insert_L, elem_of_app, Hd. set_solver.
Qed.

Lemma tracker_complete_dom uid r t : dom (entries (tracker_complete uid r t)) = dom (entries t).
Proof.
  unfold tracker_complete. destruct (entries t !! uid) eqn:He; [|done]. simpl.
  apply elem_of_dom_2 in He. rewrite dom_insert_L. set_solver.
Qed.

Lemma tracker_complete_order uid r t : order (tracker_complete uid r t) = order t.
Proof. unfold tracker_complete. by destruct (entries t !! uid). Qed.

Lemma tracker_wf_complete uid r t : tracker_wf t → tracker_wf (tracker_complete uid r t).
Proof.
  intros [Hnd Hd]. split; rewrite tracker_complete_order; [done|].
  intros u. by rewrite tracker_complete_dom.
Qed.

Lemma task_run_snoc os o t : task_run (os ++ [o]) t = task_exec o (task_run os t).
Proof. unfold task_run. by rewrite foldl_app. Qed.

Lemma started_snoc os o :
  started (os ++ [o])
  = started os ++ match o with TaskStart uid _ => [uid] | _ => [] end.
Proof. unfold started. rewrite omap_app. by destruct o. Qed.

Lemma last_n_subset {A} n (l : list A) x : x ∈ last_n n l → x ∈ l.
Proof. apply subseteq_drop. Qed.

(** A sequence of operations whose starts carry distinct UIDs keeps the table
    in step with its eviction queue. *)
Lemma task_run_inv os :
  NoDup (started os) →
  tracker_wf (task_run os tracker_new)
  ∧ order (task_run os tracker_new) = last_n MAX_TASKS (started os).
Proof.
  induction os as [|o os IH] using rev_ind; intros Hnd.
  - split; [apply tracker_wf_new|done].
  - rewrite started_snoc in *. rewrite task_run_snoc.
    apply NoDup_app in Hnd as (Hnd & Hdj & _). destruct (IH Hnd) as [Hwf Ho].
    destruct o as [uid m|uid r]; simpl.
    + assert (uid ∉ order (task_run os tracker_new)) as Hni.
      { rewrite Ho. intros Hin%last_n_subset. by apply (Hdj uid); [|left]. }
      split; [by apply tracker_wf_start|].
      rewrite tracker_evict_order, Ho by (rewrite ?Ho, ?length_last_n; auto with lia).
      apply last_n_snoc. unfold MAX_TASKS. lia.
    + rewrite app_nil_r. split; [by apply tracker_wf_complete|].
      by rewrite tracker_complete_order.
Qed.

(** ** Theorems *)

(** Started with distinct UIDs, the tracker holds exactly the last [MAX_TASKS]
    tasks, whatever was completed in between: its size stays bounded and the
    oldest task is the one evicted. *)
Theorem tracker_keeps_last_tasks os uid :
  NoDup (started os) →
  size (entries (task_run os tracker_new)) = length (started os) `min` MAX_TASKS
  ∧ (is_Some (tracker_status uid (task_run os tracker_new))
     ↔ uid ∈ last_n MAX_TASKS (started os)).
Proof.
  intros [Hwf Ho]%task_run_inv. split.
  - by rewrite (tracker_wf_size _ Hwf), Ho, length_last_n.
  - rewrite <-Ho, (tracker_order_dom _ Hwf), elem_of_dom. unfold tracker_status.
    destruct (entries _ !! uid) as [e|]; simpl; split; intros [? ?]; eauto; done.
Qed.

(** [status] and [result] agree on every tracked task: a running task has no
    result, a completed one a successful result, a failed one an error; an
    unknown task has neither. *)
Theorem status_result_agree t uid :
  match tracker_status uid t with
  | Some s =>
      (s = "running" ∧ tracker_result uid t = None)
      ∨ (∃ r, tracker_result uid t = Some r
          ∧ s = if eval_is_success r then "completed" else "failed")
  | None => tracker_result uid t = None ∧ tracker_source_method uid t = None
  end.
Proof.
  unfold tracker_status, tracker_result, tracker_source_method.
  destruct (entries t !! uid) as [[[|r] sm]|]; simpl; eauto.
Qed.

(** A completion records its result for its own task, keeps the method the task
    came from, and touches no other task. *)
Theorem complete_correct t uid r uid' :
  is_Some (entries t !! uid) →
  tracker_result uid (tracker_complete uid r t) = Some r
  ∧ tracker_source_method uid' (tracker_complete uid r t) = tracker_source_method uid' t
  ∧ (uid' ≠ uid → entries (tracker_complete uid r t) !! uid' = entries t !! uid').
Proof.
  intros [e He]. unfold tracker_result, tracker_complete, tracker_source_method.
  rewrite He. simpl. rewrite lookup_insert_eq. simpl. split; [done|]. split.
  - destruct (decide (uid' = uid)) as [-> | Hne].
    + by rewrite lookup_insert_eq, He.
    + by rewrite lookup_insert_ne.
  - intros. by rewrite lookup_insert_ne.
Qed.

(** ** Examples *)

Definition ex_result : EvalResult := mkEval "out" None None.
Definition ex_ops : list task_op :=
  [TaskStart "t1" "lua_eval"; TaskComplete "t1" ex_result; TaskStart "t2" "lua_eval"].

Lemma tracker_keeps_last_tasks_witness :
  size (entries (task_run ex_ops tracker_new)) = 2.
Proof. exact (proj1 (tracker_keeps_last_tasks ex_ops "t1" ltac:(compute_decide))). Defined.

Lemma complete_correct_witness :
  tracker_result "t2" (tracker_complete "t2" ex_result (task_run ex_ops tracker_new))
  = Some ex_result.
Proof.
  refine (proj1 (complete_correct (task_run ex_ops tracker_new) "t2" ex_result "t1" _)).
  compute_decide.
Defined.
