(* ===== verification/QState.v ===== *)
(** * Manager state ([qs/state.rs])

    The manager's state machine values, its lock, the timestamp arithmetic and
    the state snapshot the handlers share. *)

From stdpp Require Import pretty.
From S2P Require Import Prelude Interfaces Queue.

Inductive EState :=
| EnvironmentClosed
| Idle
| ExecutingQueue
| Paused
| Aborting
| CreatingEnvironment
| ClosingEnvironment
| DestroyingEnvironment.

#[export] Instance EState_eq_dec : EqDecision EState.
Proof. solve_decision. Defined.

Definition estate_str (e : EState) : string :=
  match e with
  | EnvironmentClosed => "environment_closed"
  | Idle => "idle"
  | ExecutingQueue => "executing_queue"
  | Paused => "paused"
  | Aborting => "aborting"
  | CreatingEnvironment => "creating_environment"
  | ClosingEnvironment => "closing_environment"
  | DestroyingEnvironment => "destroying_environment"
  end.

(** ** Time stamps *)

Definition is_leap (y : Z) : bool :=
  ((y `mod` 4 =? 0) && negb (y `mod` 100 =? 0) || (y `mod` 400 =? 0))%Z.

Definition year_days (y : Z) : Z := if is_leap y then 366 else 365.

Definition month_days (y : Z) : list Z :=
  [31; if is_leap y then 29 else 28; 31; 30; 31; 30; 31; 31; 30; 31; 30; 31]%Z.

(** The [loop] over years, one unit of fuel per turn. *)
Fixpoint year_loop (fuel : nat) (y d : Z) : Z * Z :=
  match fuel with
  | O => (y, d)
  | S fuel =>
      if (d <? year_days y)%Z then (y, d)
      else year_loop fuel (y + 1)%Z (d - year_days y)%Z
  end.

(** The [for] over months, left by [break]. *)
Fixpoint month_loop (mdays : list Z) (mo d : Z) : Z * Z :=
  match mdays with
  | [] => (mo, d)
  | md :: mdays =>
      if (d <? md)%Z then (mo, d) else month_loop mdays (mo + 1)%Z (d - md)%Z
  end.

Definition wrap32 (z : Z) : Z := z `mod` 4294967296.

Record Ymdhms := mkYmdhms { yy : Z; mo : Z; dd : Z; hh : Z; mi : Z; ss : Z }.

(** [div_euclid] and [rem_euclid] by a positive divisor are [Z.div] and
    [Z.modulo]. No year is shorter than 365 days: [days / 365 + 1] turns of the
    year loop are enough. *)
Definition secs_to_ymdhms (secs : Z) : Ymdhms :=
  let days := (secs / 86400)%Z in
  let r := (secs `mod` 86400)%Z in
  let h := (r / 3600)%Z in
  let mi := ((r / 60) `mod` 60)%Z in
  let s := (r `mod` 60)%Z in
  let '(y, d) := year_loop (S (Z.to_nat (days / 365))) 1970 days in
  let '(mo, d) := month_loop (month_days y) 1 d in
  mkYmdhms y mo (wrap32 d + 1)%Z h mi s.

(** [format!("{:0w$}", z)] for [z >= 0] *)
Definition zero_pad (w : nat) (z : Z) : string :=
  let s := pretty z in
  String.concat "" (replicate (w - String.length s) "0") +:+ s.

Definition now_iso8601 (secs : Z) : string :=
  let t := secs_to_ymdhms secs in
  zero_pad 4 (yy t) +:+ "-" +:+ zero_pad 2 (mo t) +:+ "-" +:+ zero_pad 2 (dd t) +:+ "T"
  +:+ zero_pad 2 (hh t) +:+ ":" +:+ zero_pad 2 (mi t) +:+ ":" +:+ zero_pad 2 (ss t) +:+ "Z".

(** ** The lock *)

Record LockInfo := mkLock {
  lock_queue : bool;
  lock_environment : bool;
  lock_user : option string;
  lock_note : option string;
  lock_time : option string;
  lock_uid : string;
  lock_key_hash : option Z;
}.

Definition lock_unlocked (u : string) : LockInfo := mkLock false false None None None u None.

(** [LockInfo::lock]: a new lock with a fresh UID. *)
Definition lock_lock (u now : string) (environment queue : bool) (user note : option string)
  (key_hash : Z) (l : LockInfo) : LockInfo :=
  mkLock queue environment user note (Some now) u (Some key_hash).

Definition lock_clear (u : string) (l : LockInfo) : LockInfo :=
  mkLock false false None None None u None.

Definition is_locked (l : LockInfo) : bool := lock_environment l || lock_queue l.

(** The derived [Serialize]; [key_hash] is skipped. *)
Definition lock_to_value `{JsonNumber} (l : LockInfo) : Value :=
  json [("queue", VBool (lock_queue l)); ("environment", VBool (lock_environment l));
        ("user", json_opt_str (lock_user l)); ("note", json_opt_str (lock_note l));
        ("time", json_opt_str (lock_time l)); ("uid", VString (lock_uid l))].

(** ** The shared state *)

Record EngineState `{JsonNumber} := mkState {
  st_state : option EState;
  current_run_uid : option string;
  current_item : option QueuedItem;
  queue_len : nat;
  history_len : nat;
  plans_run : Z;
  plans_failed : Z;
  re_runs : list (string * bool);
  es_re_metadata : gmap string Value;
  queue_stop_pending : bool;
  pause_pending : bool;
  worker_background_tasks : Z;
  queue_autostart_enabled : bool;
  queue_mode : gmap string Value;
  lock : LockInfo;
}.
Arguments mkState {_} _ _ _ _ _ _ _ _ _ _ _ _ _ _ _.

Section state.
Context `{JsonNumber}.
Implicit Types (s : EngineState).

Definition state_default (u : string) : EngineState := {|
  st_state := None;
  current_run_uid := None;
  current_item := None;
  queue_len := 0;
  history_len := 0;
  plans_run := 0;
  plans_failed := 0;
  re_runs := [];
  es_re_metadata := ∅;
  queue_stop_pending := false;
  pause_pending := false;
  worker_background_tasks := 0;
  queue_autostart_enabled := false;
  queue_mode := {[ "loop" := VBool false ]};
  lock := lock_unlocked u;
|}.

(** Field assignments. *)
Definition set_state (v : option EState) s : EngineState :=
  mkState v (current_run_uid s) (current_item s) (queue_len s) (history_len s)
    (plans_run s) (plans_failed s) (re_runs s) (es_re_metadata s) (queue_stop_pending s)
    (pause_pending s) (worker_background_tasks s) (queue_autostart_enabled s)
    (queue_mode s) (lock s) .
Definition set_current_run_uid (v : option string) s : EngineState :=
  mkState (st_state s) v (current_item s) (queue_len s) (history_len s) (plans_run s)
    (plans_failed s) (re_runs s) (es_re_metadata s) (queue_stop_pending s)
    (pause_pending s) (worker_background_tasks s) (queue_autostart_enabled s)
    (queue_mode s) (lock s) .
Definition set_current_item (v : option QueuedItem) s : EngineState :=
  mkState (st_state s) (current_run_uid s) v (queue_len s) (history_len s) (plans_run s)
    (plans_failed s) (re_runs s) (es_re_metadata s) (queue_stop_pending s)
    (pause_pending s) (worker_background_tasks s) (queue_autostart_enabled s)
    (queue_mode s) (lock s) .
Definition set_plans_run (v : Z) s : EngineState :=
  mkState (st_state s) (current_run_uid s) (current_item s) (queue_len s) (history_len s)
    v (plans_failed s) (re_runs s) (es_re_metadata s) (queue_stop_pending s)
    (pause_pending s) (worker_background_tasks s) (queue_autostart_enabled s)
    (queue_mode s) (lock s) .
Definition set_plans_failed (v : Z) s : EngineState :=
  mkState (st_state s) (current_run_uid s) (current_item s) (queue_len s) (history_len s)
    (plans_run s) v (re_runs s) (es_re_metadata s) (queue_stop_pending s)
    (pause_pending s) (worker_background_tasks s) (queue_autostart_enabled s)
    (queue_mode s) (lock s) .
Definition set_re_runs (v : list (string * bool)) s : EngineState :=
  mkState (st_state s) (current_run_uid s) (current_item s) (queue_len s) (history_len s)
    (plans_run s) (plans_failed s) v (es_re_metadata s) (queue_stop_pending s)
    (pause_pending s) (worker_background_tasks s) (queue_autostart_enabled s)
    (queue_mode s) (lock s) .
Definition set_queue_stop_pending (v : bool) s : EngineState :=
  mkState (st_state s) (current_run_uid s) (current_item s) (queue_len s) (history_len s)
    (plans_run s) (plans_failed s) (re_runs s) (es_re_metadata s) v (pause_pending s)
    (worker_background_tasks s) (queue_autostart_enabled s) (queue_mode s) (lock s) .
Definition set_pause_pending (v : bool) s : EngineState :=
  mkState (st_state s) (current_run_uid s) (current_item s) (queue_len s) (history_len s)
    (plans_run s) (plans_failed s) (re_runs s) (es_re_metadata s) (queue_stop_pending s)
    v (worker_background_tasks s) (queue_autostart_enabled s) (queue_mode s) (lock s) .
Definition set_worker_background_tasks (v : Z) s : EngineState :=
  mkState (st_state s) (current_run_uid s) (current_item s) (queue_len s) (history_len s)
    (plans_run s) (plans_failed s) (re_runs s) (es_re_metadata s) (queue_stop_pending s)
    (pause_pending s) v (queue_autostart_enabled s) (queue_mode s) (lock s) .
Definition set_queue_autostart_enabled (v : bool) s : EngineState :=
  mkState (st_state s) (current_run_uid s) (current_item s) (queue_len s) (history_len s)
    (plans_run s) (plans_failed s) (re_runs s) (es_re_metadata s) (queue_stop_pending s)
    (pause_pending s) (worker_background_tasks s) v (queue_mode s) (lock s) .
Definition set_queue_mode (v : gmap string Value) s : EngineState :=
  mkState (st_state s) (current_run_uid s) (current_item s) (queue_len s) (history_len s)
    (plans_run s) (plans_failed s) (re_runs s) (es_re_metadata s) (queue_stop_pending s)
    (pause_pending s) (worker_background_tasks s) (queue_autostart_enabled s) v (lock s)
    .
Definition set_lock (v : LockInfo) s : EngineState :=
  mkState (st_state s) (current_run_uid s) (current_item s) (queue_len s) (history_len s)
    (plans_run s) (plans_failed s) (re_runs s) (es_re_metadata s) (queue_stop_pending s)
    (pause_pending s) (worker_background_tasks s) (queue_autostart_enabled s)
    (queue_mode s) v.

(** [EngineState::initial]: the engine is closed. *)
Definition state_initial (u : string) : EngineState :=
  set_state (Some EnvironmentClosed) (state_default u).
End state.

(** ** The calendar

    Days from 1970-01-01 to the first day of year [y] (proleptic Gregorian,
    closed form) and of month [mo] of year [y]. *)

Definition days_before_year (y : Z) : Z :=
  (365 * (y - 1970) + ((y - 1) / 4 - 492) - ((y - 1) / 100 - 19) + ((y - 1) / 400 - 4))%Z.

Definition days_before_month (y mo : Z) : Z :=
  foldr Z.add 0%Z (take (Z.to_nat (mo - 1)) (month_days y)).

(** The Unix time of a calendar date and time of day. *)
Definition unix_time (t : Ymdhms) : Z :=
  (86400 * (days_before_year (yy t) + days_before_month (yy t) (mo t) + (dd t - 1))
   + 3600 * hh t + 60 * mi t + ss t)%Z.

Definition valid_ymdhms (t : Ymdhms) : Prop :=
  (1970 ≤ yy t ∧ 1 ≤ mo t ≤ 12 ∧ 1 ≤ dd t
   ∧ (∃ md, month_days (yy t) !! Z.to_nat (mo t - 1) = Some md ∧ dd t ≤ md)
   ∧ 0 ≤ hh t < 24 ∧ 0 ≤ mi t < 60 ∧ 0 ≤ ss t < 60)%Z.

(** A locked state always has a key to compare with. *)
Definition lock_wf (l : LockInfo) : Prop := is_locked l = true → is_Some (lock_key_hash l).

(** ** Lemmas *)

Lemma days_before_year_step y :
  days_before_year (y + 1) = (days_before_year y + year_days y)%Z.
Proof.
  unfold days_before_year, year_days, is_leap.
  destruct (Z.eqb_spec (y `mod` 4) 0), (Z.eqb_spec (y `mod` 100) 0),
    (Z.eqb_spec (y `mod` 400) 0); simpl; Z.div_mod_to_equations; lia.
Qed.

Lemma year_days_bounds y : (365 ≤ year_days y ≤ 366)%Z.
Proof. unfold year_days. destruct (is_leap y); lia. Qed.

(** The loop ends in the year the day falls in. *)
Lemma year_loop_spec fuel y d :
  (0 ≤ d)%Z → (d / 365 < Z.of_nat fuel)%Z →
  let '(y', d') := year_loop fuel y d in
  (days_before_year y' + d' = days_before_year y + d ∧ 0 ≤ d' < year_days y' ∧ y ≤ y')%Z.
Proof.
  revert y d. induction fuel as [|fuel IH]; intros y d Hd Hf.
  - pose proof (Z.div_pos d 365 ltac:(lia) ltac:(lia)). lia.
  - simpl. pose proof (year_days_bounds y) as Hy.
    destruct (Z.ltb_spec d (year_days y)); [lia|].
    specialize (IH (y + 1)%Z (d - year_days y)%Z).
    destruct (year_loop fuel (y + 1) (d - year_days y)) as [y' d'].
    rewrite days_before_year_step in IH.
    assert ((d - year_days y) / 365 < Z.of_nat fuel)%Z; [|lia].
    apply Z.le_lt_trans with ((d - 365) / 365)%Z; [apply Z.div_le_mono; lia|].
    replace (d - 365)%Z with (d + (-1) * 365)%Z by lia. rewrite Z.div_add by lia. lia.
Qed.

Lemma year_days_sum y : foldr Z.add 0%Z (month_days y) = year_days y.
Proof. unfold month_days, year_days. by destruct (is_leap y). Qed.

Lemma month_loop_spec (pre l : list Z) d :
  Forall (λ m, 0 < m)%Z (pre ++ l) →
  (0 ≤ d < foldr Z.add 0 l)%Z →
  let '(mo, d') := month_loop l (Z.of_nat (length pre) + 1) d in
  ∃ (k : nat) (md : Z), mo = Z.of_nat (k + 1) ∧ k < length (pre ++ l)
    ∧ (pre ++ l) !! k = Some md ∧ (0 ≤ d' < md)%Z
    ∧ (foldr Z.add 0 (take k (pre ++ l)) + d' = foldr Z.add 0 pre + d)%Z.
Proof.
  revert pre d. induction l as [|m l IH]; intros pre d Hp Hd; simpl in *; [lia|].
  destruct (Z.ltb_spec d m) as [Hlt|Hge].
  - exists (length pre), m. rewrite take_app_length, list_lookup_middle by done.
    rewrite length_app. simpl. split_and!; try lia. done.
  - specialize (IH (pre ++ [m]) (d - m)%Z). rewrite <-!app_assoc in IH. simpl in IH.
    rewrite length_app in IH. simpl in IH.
    replace (Z.of_nat (length pre + 1) + 1)%Z with (Z.of_nat (length pre) + 1 + 1)%Z in IH
      by lia.
    destruct (month_loop l (Z.of_nat (length pre) + 1 + 1) (d - m)) as [mo' d'].
    destruct IH as (k & md & -> & Hk & Hl & Hd' & Hs); [done|lia|].
    exists k, md. split_and!; try done; try lia.
    rewrite Hs, foldr_app. simpl. clear.
    assert (∀ z, foldr Z.add (m + z) pre = foldr Z.add 0 pre + m + z)%Z as Hf; [|rewrite Hf; lia].
    induction pre as [|x pre IH]; intros z; simpl; [lia|]. rewrite IH. lia.
Qed.

Lemma month_days_pos y : Forall (λ m, 0 < m)%Z (month_days y).
Proof. unfold month_days. destruct (is_leap y); repeat constructor; lia. Qed.

Lemma length_month_days y : length (month_days y) = 12.
Proof. done. Qed.

Lemma month_days_le y k md : month_days y !! k = Some md → (md ≤ 31)%Z.
Proof.
  intros Hk. assert (Forall (λ m, m ≤ 31)%Z (month_days y)) as Hf
    by (unfold month_days; destruct (is_leap y); repeat constructor; lia).
  by eapply Forall_lookup_1 in Hf.
Qed.

(** ** Theorems *)

(** The manager's time stamps are right: for every Unix time from the epoch on,
    the date and time of day computed by the loops are a valid Gregorian date
    whose Unix time is the one given. *)
Theorem secs_to_ymdhms_correct secs :
  (0 ≤ secs)%Z → valid_ymdhms (secs_to_ymdhms secs) ∧ unix_time (secs_to_ymdhms secs) = secs.
Proof.
  intros Hs. unfold secs_to_ymdhms.
  pose proof (Z.div_pos secs 86400 Hs ltac:(lia)) as Hdays.
  pose proof (Z.div_pos (secs / 86400) 365 Hdays ltac:(lia)) as Hq.
  pose proof (year_loop_spec (S (Z.to_nat (secs / 86400 / 365))) 1970 (secs / 86400)
    Hdays ltac:(lia)) as Hy.
  destruct (year_loop _ _ _) as [y d]. destruct Hy as (Hy & Hd & Hge).
  pose proof (month_loop_spec [] (month_days y) d (month_days_pos y)) as Hm.
  rewrite year_days_sum in Hm. specialize (Hm Hd). simpl Z.of_nat in Hm.
  change (0 + 1)%Z with 1%Z in Hm.
  destruct (month_loop _ _ _) as [mo' d']. destruct Hm as (k & md & -> & Hk & Hl & Hd' & Hsum).
  cbn [app foldr] in Hk, Hl, Hsum. rewrite length_month_days in Hk.
  pose proof (month_days_le _ _ _ Hl) as Hmd.
  assert (wrap32 d' = d') as Hw by (apply Z.mod_small; lia).
  assert (Z.to_nat (Z.of_nat (k + 1) - 1) = k) as Hk' by lia.
  unfold valid_ymdhms, unix_time, days_before_month. cbn [yy mo dd hh mi ss].
  rewrite Hw, Hk'. change (days_before_year 1970) with 0%Z in Hy.
  clear Hq Hmd Hw Hk'. split.
  - split_and!; try lia; [exists md; split; [done|lia]|..]; clear -Hs; Z.div_mod_to_equations; lia.
  - replace (days_before_year y + foldr Z.add 0 (take k (month_days y)) + (d' + 1 - 1))%Z
      with (secs / 86400)%Z by lia. clear -Hs. Z.div_mod_to_equations. lia.
Qed.

(** A lock always carries the key hash it is released with: it holds in the
    initial state and is kept by locking and unlocking. *)
Theorem lock_info_wf u now env queue user note h l :
  lock_wf (lock_unlocked u) ∧ lock_wf (lock_clear u l)
  ∧ lock_wf (lock_lock u now env queue user note h l)
  ∧ is_locked (lock_lock u now env queue user note h l) = env || queue.
Proof. by split_and!; try done; intros _; exists h. Qed.

Lemma secs_to_ymdhms_correct_witness :
  secs_to_ymdhms 1709210096 = mkYmdhms 2024 2 29 12 34 56
  ∧ unix_time (secs_to_ymdhms 1709210096) = 1709210096%Z.
Proof.
  split; [vm_compute; reflexivity|]. apply (secs_to_ymdhms_correct 1709210096). lia.
Defined.
