(* ===== verification/Permissions.v ===== *)
(** * Role-based access control ([qs/permissions.rs])

    Method classes, group policies with their patterns, the loaded policy state
    and the authorisation check of every request. Regular expressions ([regex])
    and the parsed TOML file are outside the repository: the first is the
    interface [RegexEngine], the second an argument of [load_from_file]. *)

From S2P Require Import Prelude Interfaces.

(** ** Method classes *)

Inductive MethodClass := Info | QueueAdd | QueueMutate | Admin | Lock | Unknown.

#[export] Instance MethodClass_eq_dec : EqDecision MethodClass.
Proof. solve_decision. Defined.

Definition info_methods : list string :=
  ["ping"; "status"; "config_get"; "queue_get"; "history_get"; "plans_allowed";
   "plans_existing"; "devices_allowed"; "devices_existing"; "device_inspect";
   "lock_info"; "task_status"; "task_result"; "permissions_get"; "manager_test";
   "manager_version"; "re_runs"].

Definition queue_add_methods : list string :=
  ["queue_item_add"; "queue_item_add_batch"; "queue_item_execute"; "queue_item_update"].

Definition queue_mutate_methods : list string :=
  ["queue_item_remove"; "queue_item_remove_batch"; "queue_item_move";
   "queue_item_move_batch"; "queue_clear"; "queue_start"; "queue_stop";
   "queue_stop_cancel"; "queue_autostart"; "queue_mode_set"; "history_clear";
   "environment_open"; "environment_close"; "environment_destroy";
   "environment_update"; "re_pause"; "re_resume"; "re_abort"; "re_halt"; "re_stop";
   "re_metadata"; "re_runs_clear"].

Definition admin_methods : list string :=
  ["permissions_reload"; "permissions_set"; "manager_stop"; "manager_kill";
   "script_upload"; "function_execute"; "kernel_interrupt"; "lua_eval"].

Definition mem (s : string) (l : list string) : bool := existsb (String.eqb s) l.

Definition classify (method : string) : MethodClass :=
  if mem method info_methods then Info
  else if mem method queue_add_methods then QueueAdd
  else if mem method queue_mutate_methods then QueueMutate
  else if mem method admin_methods then Admin
  else if mem method ["lock"; "unlock"] then Lock
  else Unknown.

(** ** Regular expressions

    [regex_new] is [Regex::new] (its error text on failure); a pattern keeps its
    source text; [".*"] compiles and matches every string. *)
Class RegexEngine := {
  Regex : Type;
  regex_new : string → Result Regex string;
  is_match : Regex → string → bool;
  regex_as_str : Regex → string;
  regex_any : Regex;
  regex_any_new : regex_new ".*" = Ok regex_any;
  regex_any_match : ∀ s, is_match regex_any s = true;
  regex_as_str_new : ∀ s r, regex_new s = Ok r → regex_as_str r = s;
}.

(** ** The policy file *)

Record GroupFile := mkGroupFile {
  gf_read_only : bool;
  gf_admin : bool;
  gf_allowed_plans : list string;
  gf_allowed_devices : list string;
}.

Record File := mkFile {
  f_default_group : option string;
  f_user_groups : gmap string GroupFile;
  f_api_keys : gmap string string;
}.

(** What reading and parsing the file at a path gives. *)
Definition FileSystem := string → Result File string.

(** ** Group policies *)

Record GroupPolicy `{RegexEngine} := mkPolicy {
  read_only : bool;
  admin : bool;
  allowed_plans : list Regex;
  allowed_devices : list Regex;
}.
Arguments mkPolicy {_} _ _ _ _.

Record Inner `{RegexEngine} := mkInner {
  enforced : bool;
  default_group : string;
  groups : gmap string GroupPolicy;
  api_keys : gmap string string;
  path : option string;
}.
Arguments mkInner {_} _ _ _ _ _.

Section permissions.
Context `{RegexEngine, JsonNumber, !TextFormat}.
Implicit Types (g : Inner) (p : GroupPolicy) (params : Value).

Definition permissive_root : GroupPolicy := mkPolicy false true [regex_any] [regex_any].
Definition permissive_primary : GroupPolicy := mkPolicy false false [regex_any] [regex_any].

Definition to_re (xs : list string) : Result (list Regex) string :=
  collect (λ s, match regex_new s with
                | Ok r => Ok r
                | Err e => Err ("regex " +:+ debug_str s +:+ ": " +:+ e)
                end) xs.

Definition from_file (gf : GroupFile) : Result GroupPolicy string :=
  let! plans := to_re (gf_allowed_plans gf) in
  let! devices := to_re (gf_allowed_devices gf) in
  Ok (mkPolicy (gf_read_only gf) (gf_admin gf) plans devices).

Definition plan_allowed p (name : string) : bool :=
  existsb (λ r, is_match r name) (allowed_plans p).
Definition device_allowed p (name : string) : bool :=
  existsb (λ r, is_match r name) (allowed_devices p).

(** ** The policy state *)

Definition permissive : Inner :=
  mkInner false "primary"
    (<["primary" := permissive_primary]> {[ "root" := permissive_root ]}) ∅ None.

(** The [for] over the file's groups; a [HashMap] yields them in any order, here
    the order of [map_to_list]. *)
Definition compile_groups (ug : gmap string GroupFile)
  : Result (gmap string GroupPolicy) string :=
  let! l := collect (λ '(name, gf), let! pol := from_file gf in Ok (name, pol)) (map_to_list ug) in
  Ok (list_to_map l).

Definition load_from_file (fs : FileSystem) (pth : string) : Result Inner string :=
  let! file := fs pth in
  let dg := default "primary" (f_default_group file) in
  let! gs := compile_groups (f_user_groups file) in
  if decide (gs !! dg = None) then
    Err ("default_group " +:+ debug_str dg +:+ " has no matching [user_groups." +:+ dg
         +:+ "] section")
  else Ok (mkInner true dg gs (f_api_keys file) (Some pth)).

(** [reload]: on an error the state stays. *)
Definition reload (fs : FileSystem) g : Result () string * Inner :=
  let? pth := path g else (Err "no source file", g) in
  match load_from_file fs pth with
  | Ok g' => (Ok (), g')
  | Err e => (Err e, g)
  end.

Definition resolve_group g params : string :=
  match get_str params "api_key" ≫= λ key, api_keys g !! key with
  | Some group => group
  | None => default_group g
  end.

(** Every plan name of an add request. *)
Definition plan_names_from_params params : list string :=
  option_list (value_get params "item" ≫= λ v, get_str v "name")
  ++ match get_array params "items" with
     | Some arr => omap (λ it, get_str it "name") arr
     | None => []
     end.

Definition check g (method : string) params (group : string) : Result () string :=
  if negb (enforced g) then Ok () else
  let! policy := ok_or (groups g !! group)
    ("RBAC: caller's group " +:+ debug_str group +:+ " is not configured in permissions.toml") in
  match classify method with
  | Info | Lock => Ok ()
  | Unknown => Ok ()
  | QueueAdd =>
      if read_only policy then
        Err ("RBAC: group " +:+ debug_str group +:+ " is read-only; '" +:+ method +:+ "' denied")
      else
        (fix names (l : list string) : Result () string :=
           match l with
           | [] => Ok ()
           | name :: l =>
               if negb (plan_allowed policy name) then
                 Err ("RBAC: group " +:+ debug_str group +:+ " not allowed to run plan "
                      +:+ debug_str name)
               else names l
           end) (plan_names_from_params params)
  | QueueMutate =>
      if read_only policy then
        Err ("RBAC: group " +:+ debug_str group +:+ " is read-only; '" +:+ method +:+ "' denied")
      else Ok ()
  | Admin =>
      if admin policy then Ok ()
      else Err ("RBAC: group " +:+ debug_str group +:+ " is not admin; '" +:+ method
                +:+ "' denied")
  end.

Definition filter_plans_for_group g (group : string) (names : list string) : list string :=
  if negb (enforced g) then names else
  match groups g !! group with
  | Some policy => filter (λ n, Is_true (plan_allowed policy n)) names
  | None => names
  end.

Definition filter_devices_for_group g (group : string) (names : list string) : list string :=
  if negb (enforced g) then names else
  match groups g !! group with
  | Some policy => filter (λ n, Is_true (device_allowed policy n)) names
  | None => names
  end.

Definition is_admin g (group : string) : bool :=
  if negb (enforced g) then true else
  match groups g !! group with
  | Some policy => admin policy
  | None => false
  end.

(** The policy as [permissions_get] returns it. *)
Definition policy_to_value p : Value :=
  json [("allowed_plans", VArray (VString ∘ regex_as_str <$> allowed_plans p));
        ("allowed_devices", VArray (VString ∘ regex_as_str <$> allowed_devices p));
        ("read_only", VBool (read_only p)); ("admin", VBool (admin p))].

Definition snapshot_for_get g : Value :=
  json [("user_groups", json (prod_map id policy_to_value <$> map_to_list (groups g)))].

(** ** What a policy grants

    [grants p method names] is the policy's contract: informational and lock
    methods are free, adding plans needs a writable group all of whose plan
    names match, other changes need a writable group, administration needs an
    admin group. *)
Definition grants p (c : MethodClass) (names : list string) : Prop :=
  match c with
  | Info | Lock | Unknown => True
  | QueueAdd => read_only p = false ∧ Forall (λ n, plan_allowed p n = true) names
  | QueueMutate => read_only p = false
  | Admin => admin p = true
  end.

(** A state that a policy file can give: callers without a key have a group. *)
Definition inner_wf g : Prop := is_Some (groups g !! default_group g).

(** ** Lemmas *)

Lemma mem_spec s l : mem s l = true ↔ s ∈ l.
Proof.
  unfold mem. rewrite existsb_exists. split.
  - intros (x & Hx & ->%String.eqb_eq). by apply list_elem_of_In.
  - intros Hs. exists s. rewrite String.eqb_refl. split; [by apply list_elem_of_In|done].
Qed.

Lemma compile_groups_lookup ug gs :
  compile_groups ug = Ok gs →
  ∀ n, match ug !! n with
       | Some gf => ∃ p, gs !! n = Some p ∧ from_file gf = Ok p
       | None => gs !! n = None
       end.
Proof.
  unfold compile_groups. intros Hc n.
  destruct (collect _ _) as [l|] eqn:Hl; simplify_eq. apply collect_Ok in Hl.
  assert (l.*1 = (map_to_list ug).*1) as Hk.
  { clear n. induction Hl as [|[n gf] [n' p] l1 l2 Hx _ IH]; simpl; [done|].
    destruct (from_file gf); simplify_eq. by f_equal. }
  assert (NoDup l.*1) as Hnd by (rewrite Hk; apply NoDup_fst_map_to_list).
  destruct (ug !! n) as [gf|] eqn:Hn.
  - apply elem_of_map_to_list, list_elem_of_lookup_1 in Hn as [i Hi].
    destruct (Forall2_lookup_l _ _ _ _ _ Hl Hi) as ([n' p] & Hp & Hx).
    destruct (from_file gf) as [p'|] eqn:Hf; simplify_eq. exists p. split; [|done].
    apply elem_of_list_to_map; [done|]. by eapply list_elem_of_lookup_2.
  - apply not_elem_of_list_to_map. rewrite Hk. intros Hin.
    apply list_elem_of_fmap in Hin as ([n' gf] & -> & Hin).
    apply elem_of_map_to_list in Hin. simpl in Hn. congruence.
Qed.

Lemma load_wf fs pth g : load_from_file fs pth = Ok g → inner_wf g ∧ enforced g = true.
Proof.
  unfold load_from_file, inner_wf. intros Hl.
  destruct (fs pth) as [file|]; [|done].
  destruct (compile_groups _) as [gs|]; [|done].
  case_decide as Hd; simplify_eq/=. split; [|done]. by apply not_eq_None_Some.
Qed.

(** What passing the check means. *)
Lemma check_grants g method params group :
  enforced g = true →
  check g method params group = Ok ()
  ↔ ∃ p, groups g !! group = Some p
         ∧ grants p (classify method) (plan_names_from_params params).
Proof.
  intros He. unfold check. rewrite He. simpl.
  destruct (groups g !! group) as [p|]; simpl; [|by naive_solver].
  transitivity (grants p (classify method) (plan_names_from_params params)); [|naive_solver].
  unfold grants. destruct (classify method); try done; [|by destruct (read_only p)..|by destruct (admin p)].
  destruct (read_only p); [by naive_solver|].
  induction (plan_names_from_params params) as [|n l IH].
  { split; [by repeat constructor|done]. }
  destruct (plan_allowed p n) eqn:Hp; simpl.
  - rewrite IH, Forall_cons. naive_solver.
  - rewrite Forall_cons. naive_solver congruence.
Qed.

(** ** Theorems *)

(** The check enforces exactly the policy: with enforcement on, a request is
    let through if and only if the caller's group is configured and its policy
    grants the method's class, every plan name of the request included. *)
Theorem check_spec g method params group :
  enforced g = true →
  check g method params group = Ok ()
  ↔ ∃ p, groups g !! group = Some p
         ∧ grants p (classify method) (plan_names_from_params params).
Proof. apply check_grants. Qed.

(** A reload is all or nothing: it fails and keeps the policy in force, or it
    installs exactly the groups and keys of the file, each group compiled from
    its section, with enforcement on, a configured default group and the same
    source path. *)
Theorem reload_correct fs g :
  inner_wf g →
  let '(r, g') := reload fs g in
  inner_wf g'
  ∧ match r with
    | Err _ => g' = g
    | Ok _ => ∃ pth file, path g = Some pth ∧ fs pth = Ok file ∧ enforced g' = true
              ∧ path g' = Some pth ∧ api_keys g' = f_api_keys file
              ∧ default_group g' = default "primary" (f_default_group file)
              ∧ ∀ n, match f_user_groups file !! n with
                     | Some gf => ∃ p, groups g' !! n = Some p ∧ from_file gf = Ok p
                     | None => groups g' !! n = None
                     end
    end.
Proof.
  intros Hwf. unfold reload. destruct (path g) as [pth|]; [|done].
  destruct (load_from_file fs pth) as [g'|e] eqn:Hl; [|done].
  split; [by eapply load_wf|].
  unfold load_from_file in Hl. destruct (fs pth) as [file|] eqn:Hf; [|done].
  destruct (compile_groups _) as [gs|] eqn:Hc; [|done]. case_decide; simplify_eq/=.
  exists pth, file. split_and!; try done. by apply compile_groups_lookup.
Qed.

(** A caller without a known key has the privileges of the default group, and a
    known key gives its group: what the check answers for the resolved group of
    a keyless request never depends on the key table. *)
Theorem resolve_group_correct g params :
  match get_str params "api_key" with
  | Some key => resolve_group g params = default (default_group g) (api_keys g !! key)
  | None => resolve_group g params = default_group g
  end.
Proof.
  unfold resolve_group. destruct (get_str params "api_key") as [key|]; simpl; [|done].
  by destruct (api_keys g !! key).
Qed.
End permissions.

(** ** A concrete pattern engine and policy file *)
Import Sample.

Module Ex.

#[export, program] Instance sample_regex : RegexEngine := {|
  Regex := string;
  regex_new s := if String.eqb s "(" then Err "unclosed group" else Ok s;
  is_match r s := String.eqb r ".*" || String.eqb r s;
  regex_as_str r := r;
  regex_any := ".*";
|}.
Next Obligation. done. Qed.
Next Obligation. done. Qed.
Next Obligation. intros s r. simpl. case_match; congruence. Qed.

Definition ex_fs : FileSystem := λ _,
  Ok (mkFile None {["primary" := mkGroupFile false false ["count"] [".*"]]} {["k" := "primary"]}).

Definition ex_inner : Inner :=
  mkInner true "primary" {["primary" := mkPolicy false false ["count"] [".*"]]} ∅ (Some "p.toml").

Definition ex_params (plan : string) : Value :=
  json [("item", json [("name", VString plan)])].

Example ex_denied : is_ok (check ex_inner "queue_item_add" (ex_params "fly") "primary") = false.
Proof. reflexivity. Qed.
Example ex_admin_denied : is_ok (check ex_inner "lua_eval" (ex_params "count") "primary") = false.
Proof. reflexivity. Qed.
End Ex.

Import Ex.

Lemma check_spec_witness :
  check Ex.ex_inner "queue_item_add" (Ex.ex_params "count") "primary" = Ok ().
Proof.
  apply (check_spec Ex.ex_inner "queue_item_add" (Ex.ex_params "count") "primary" eq_refl).
  eexists. split; [reflexivity|]. split; [reflexivity|]. repeat constructor.
Defined.

Lemma reload_correct_witness :
  is_ok (fst (reload Ex.ex_fs Ex.ex_inner)) = true
  ∧ inner_wf (snd (reload Ex.ex_fs Ex.ex_inner)).
Proof.
  split; [reflexivity|].
  assert (inner_wf Ex.ex_inner) as Hwf by (eexists; reflexivity).
  pose proof (reload_correct Ex.ex_fs Ex.ex_inner Hwf) as H.
  destruct (reload Ex.ex_fs Ex.ex_inner) as [r g']. exact (proj1 H).
Defined.
