(* ===== verification/Registry.v ===== *)
(** * Registered plans and devices ([qs/registry.rs])

    The plans a server can run, each with its schema, and the devices by role; the
    dictionaries sent to clients, the device look-up and the built-in [count]
    plan's argument parser. A device is a value of an abstract type; a plan
    factory is the built-in one or a closure the embedder registered. *)

From stdpp Require Import sorting.
From S2P Require Import Prelude Interfaces Queue.

(** ** Parameter and plan schemas *)

Inductive ParamKind :=
| PositionalOnly | PositionalOrKeyword | VarPositional | KeywordOnly | VarKeyword.

Definition wire_name (k : ParamKind) : string :=
  match k with
  | PositionalOnly => "POSITIONAL_ONLY"
  | PositionalOrKeyword => "POSITIONAL_OR_KEYWORD"
  | VarPositional => "VAR_POSITIONAL"
  | KeywordOnly => "KEYWORD_ONLY"
  | VarKeyword => "VAR_KEYWORD"
  end.

Definition wire_value (k : ParamKind) : nat :=
  match k with
  | PositionalOnly => 0
  | PositionalOrKeyword => 1
  | VarPositional => 2
  | KeywordOnly => 3
  | VarKeyword => 4
  end.

Record ParamSpec := mkParam {
  ps_name : string;
  ps_description : option string;
  ps_kind : ParamKind;
  ps_annotation_type : option string;
  ps_default : option string;
}.

Definition param_new (name : string) (k : ParamKind) : ParamSpec := mkParam name None k None None.
Definition with_description (d : string) (p : ParamSpec) : ParamSpec :=
  mkParam (ps_name p) (Some d) (ps_kind p) (ps_annotation_type p) (ps_default p).
Definition with_type (t : string) (p : ParamSpec) : ParamSpec :=
  mkParam (ps_name p) (ps_description p) (ps_kind p) (Some t) (ps_default p).
Definition with_default (d : string) (p : ParamSpec) : ParamSpec :=
  mkParam (ps_name p) (ps_description p) (ps_kind p) (ps_annotation_type p) (Some d).

Record PlanMeta := mkMeta {
  pm_description : option string;
  pm_parameters : list ParamSpec;
}.

Definition meta_default : PlanMeta := mkMeta None [].

(** ** The registry *)

(** One device table per role, in the struct's order. *)
Inductive Role :=
| Readables | Movables | Locatables | Stoppables | Triggerables | Stageables | Flyables
| Collectables | Monitorables | Preparables | Configurables | Pausables.

#[export] Instance Role_eq_dec : EqDecision Role.
Proof. solve_decision. Defined.

(** [FCount] is the factory [register_plan_count] builds. *)
Inductive PlanFactory (F : Type) := FCount | FExternal (f : F).
Arguments FCount {_}.
Arguments FExternal {_} _.

Record Registry (F D : Type) := mkRegistry {
  plans : gmap string (PlanFactory F * PlanMeta);
  tables : Role → gmap string D;
  lua_exposed : gmap string D;
}.
Arguments mkRegistry {_ _} _ _ _.
Arguments plans {_ _} _.
Arguments tables {_ _} _ _.
Arguments lua_exposed {_ _} _.

(** What the embedder's code does: its factories, the devices' self-description,
    the library's [count] plan. *)
Class PlanLib `{JsonNumber} := {
  Factory : Type;
  Device : Type;
  Plan : Type;
  inspect_dyn : Device → Value;
  plan_count : list Device → Z → Plan;
  call_external : Factory → Registry Factory Device → Value → Result Plan string;
}.

Section registry.
Context `{JsonNumber, !PlanLib, !TextFormat}.
Notation Reg := (Registry Factory Device).
Implicit Types (r : Reg) (name : string) (d : Device).

Definition param_to_json (p : ParamSpec) : Value :=
  json ([("name", VString (ps_name p))]
        ++ (match ps_description p with Some s => [("description", VString s)] | None => [] end)
        ++ [("kind", json [("name", VString (wire_name (ps_kind p)));
                           ("value", json_nat (wire_value (ps_kind p)))])]
        ++ (match ps_annotation_type p with
            | Some t => [("annotation", json [("type", VString t)])] | None => [] end)
        ++ (match ps_default p with Some s => [("default", VString s)] | None => [] end)).

Definition meta_to_json (m : PlanMeta) name : Value :=
  json [("name", VString name); ("module", VString "bsrs_qs");
        ("description", VString (default EmptyString (pm_description m)));
        ("properties", json [("is_generator", VBool true)]);
        ("parameters", VArray (param_to_json <$> pm_parameters m))].

Definition registry_new : Reg := mkRegistry ∅ (λ _, ∅) ∅.

Definition register_plan_with_meta name (f : PlanFactory Factory) (m : PlanMeta) r : Reg :=
  mkRegistry (<[name := (f, m)]> (plans r)) (tables r) (lua_exposed r).
Definition register_plan name (f : PlanFactory Factory) r : Reg :=
  register_plan_with_meta name f meta_default r.

(** [register_readable], [register_movable], ...: one table's insertion. *)
Definition register_role (role : Role) name d r : Reg :=
  mkRegistry (plans r)
    (λ role', if decide (role = role') then <[name := d]> (tables r role') else tables r role')
    (lua_exposed r).

Definition register_positioner name d r : Reg :=
  foldr (λ role r, register_role role name d r) r
    [Monitorables; Stoppables; Locatables; Movables; Readables].

Definition register_lua_methods name d r : Reg :=
  mkRegistry (plans r) (tables r) (<[name := d]> (lua_exposed r)).

Definition role_get (role : Role) name r : option Device := tables r role !! name.

Definition registry_plan name r : option (PlanFactory Factory) := fst <$> plans r !! name.

Definition plan_names r : list string := sort_names (map_to_list (plans r)).*1.

Definition plans_dict_subset (names : list string) r : Value :=
  json (foldl (λ m name,
          match plans r !! name with
          | Some p => assoc_insert name (meta_to_json (snd p) name) m
          | None => m
          end) [] names).

Definition plan_dict r : Value := plans_dict_subset (plan_names r) r.

(** The union of every role's names and the lua-only ones, sorted ([BTreeSet]). *)
Definition all_roles : list Role :=
  [Readables; Movables; Locatables; Stoppables; Triggerables; Stageables; Flyables;
   Collectables; Monitorables; Preparables; Configurables; Pausables].

Definition device_name_set r : gset string :=
  ⋃ ((λ role, dom (tables r role)) <$> all_roles) ∪ dom (lua_exposed r).

Definition device_names r : list string := sort_names (elements (device_name_set r)).

Definition devices_dict_subset (names : list string) r : Value :=
  json (foldl (λ m name,
          if decide (name ∈ device_name_set r) then
            assoc_insert name
              (json [("name", VString name); ("description", VString EmptyString);
                     ("module", VString "bsrs_qs")]) m
          else m) [] names).

Definition device_dict r : Value := devices_dict_subset (device_names r) r.

(** The role tables [inspect_device] looks in, in order. *)
Definition inspect_roles : list Role :=
  [Readables; Movables; Stoppables; Triggerables; Stageables; Flyables; Collectables;
   Monitorables; Preparables; Configurables; Pausables].

Fixpoint inspect_in (roles : list Role) name r : option Value :=
  match roles with
  | [] => None
  | role :: roles =>
      match tables r role !! name with
      | Some o => Some (inspect_dyn o)
      | None => inspect_in roles name r
      end
  end.

Definition inspect_device name r : option Value := inspect_in inspect_roles name r.

(** ** The built-in [count] plan *)

Definition as_u64 (v : Value) : option Z :=
  match v with VNumber n => num_as_u64 n | _ => None end.

(** The strings of an array value; other elements are dropped. *)
Definition string_list (v : Value) : option (list string) :=
  match as_array v with Some l => Some (omap as_str l) | None => None end.

Definition parse_count_args (args : Value) : Result (list string * Z) string :=
  match as_object args with
  | Some obj =>
      let detectors :=
        default []
          (match assoc_get "args" obj ≫= string_list with
           | Some l => Some l
           | None => assoc_get "kwargs" obj ≫= λ k, value_get k "detectors" ≫= string_list
           end) in
      let! num :=
        ok_or (match assoc_get "kwargs" obj ≫= λ k, value_get k "num" ≫= as_u64 with
               | Some n => Some n
               | None => match assoc_get "args" obj ≫= as_array with
                         | Some a => last a ≫= as_u64
                         | None => None
                         end
               end) "count: missing 'num' argument" in
      Ok (detectors, num)
  | None => Err ("count args must be object; got " +:+ display_value args)
  end.

Definition call_count r (args : Value) : Result Plan string :=
  let! p := parse_count_args args in
  let! dets := collect (λ n, ok_or (role_get Readables n r) ("unknown detector: " +:+ n))
                 (fst p) in
  Ok (plan_count dets (snd p)).

Definition call_factory (f : PlanFactory Factory) r (args : Value) : Result Plan string :=
  match f with
  | FCount => call_count r args
  | FExternal f => call_external f r args
  end.

Definition count_meta : PlanMeta :=
  mkMeta (Some "Trigger and read a list of detectors `num` times.")
    [with_description "Readable device names to trigger and read at each point."
       (with_type "typing.List[Readable]" (param_new "detectors" PositionalOrKeyword));
     with_description "Number of readings to take."
       (with_type "int" (param_new "num" PositionalOrKeyword))].

Definition register_plan_count name r : Reg :=
  register_plan_with_meta name FCount count_meta r.

(** ** Lemmas *)

Lemma elem_of_device_name_set r name :
  name ∈ device_name_set r
  ↔ (∃ role, is_Some (tables r role !! name)) ∨ is_Some (lua_exposed r !! name).
Proof.
  unfold device_name_set. rewrite elem_of_union, elem_of_dom, elem_of_union_list.
  split; (intros [Hl|Hl]; [left|by right]).
  - destruct Hl as (X & HX & Hn). apply list_elem_of_fmap in HX as (role & -> & _).
    exists role. by apply elem_of_dom in Hn.
  - destruct Hl as (role & Hn). exists (dom (tables r role)). rewrite elem_of_dom.
    split; [|done]. apply list_elem_of_fmap. exists role. split; [done|].
    unfold all_roles. destruct role; set_solver.
Qed.

Lemma inspect_in_None roles name r :
  inspect_in roles name r = None ↔ ∀ role, role ∈ roles → tables r role !! name = None.
Proof.
  induction roles as [|role roles IH]; simpl.
  - split; [|done]. by intros _ ? ?%elem_of_nil.
  - destruct (tables r role !! name) eqn:Ht.
    + split; [done|]. intros Hn. rewrite (Hn role) in Ht by left. done.
    + rewrite IH. setoid_rewrite elem_of_cons. naive_solver.
Qed.

Lemma devices_dict_keys r names name :
  name ∈ names → name ∈ device_name_set r → is_Some (value_get (devices_dict_subset names r) name).
Proof.
  intros Hin Hset. unfold devices_dict_subset, value_get. simpl.
  assert (∀ (m : list (string * Value)), (is_Some (assoc_get name m) ∨ name ∈ names) →
    is_Some (assoc_get name (foldl (λ m name,
      if decide (name ∈ device_name_set r) then
        assoc_insert name (json [("name", VString name); ("description", VString EmptyString);
          ("module", VString "bsrs_qs")]) m
      else m) m names))) as Hgo; [|apply Hgo; by right].
  clear Hin. induction names as [|n names IH]; intros m Hm; simpl.
  - destruct Hm as [?|[]%elem_of_nil]; done.
  - apply IH. rewrite elem_of_cons in Hm. destruct (decide (n = name)) as [->|Hne].
    + left. rewrite decide_True by done. by rewrite assoc_get_insert_eq.
    + destruct Hm as [Hm|[->|?]]; [left|done|by right].
      case_decide; [by rewrite assoc_get_insert_ne|done].
Qed.

(** ** Theorems *)

(** The device list sent to clients is exactly the registered names, each once,
    sorted: a name is in it if and only if some role table or the lua-only table
    has it, and every listed name has an entry in the existing-devices
    dictionary. *)
Theorem device_names_exact r :
  NoDup (device_names r) ∧ Sorted String.le (device_names r)
  ∧ ∀ name, (name ∈ device_names r
             ↔ (∃ role, is_Some (tables r role !! name)) ∨ is_Some (lua_exposed r !! name))
            ∧ (name ∈ device_names r → is_Some (value_get (device_dict r) name)).
Proof.
  unfold device_dict. assert (∀ name, name ∈ device_names r ↔ name ∈ device_name_set r) as Hset.
  { intros. unfold device_names, sort_names. by rewrite merge_sort_Permutation, elem_of_elements. }
  split_and!.
  - unfold device_names, sort_names. rewrite merge_sort_Permutation. apply NoDup_elements.
  - apply Sorted_merge_sort. apply _.
  - intros name. rewrite Hset. split; [apply elem_of_device_name_set|].
    intros Hn. apply devices_dict_keys; [by apply Hset|done].
Qed.

(** Inspection misses two tables: a device registered only as locatable, or only
    with Lua methods, is listed as an existing device but inspecting it reports
    that there is no such device. *)
Theorem inspect_misses_listed_device name d :
  let r1 := register_role Locatables name d registry_new in
  let r2 := register_lua_methods name d registry_new in
  (name ∈ device_names r1 ∧ inspect_device name r1 = None)
  ∧ (name ∈ device_names r2 ∧ inspect_device name r2 = None).
Proof.
  simpl. split; (split; [unfold device_names, sort_names;
    rewrite merge_sort_Permutation, elem_of_elements; apply elem_of_device_name_set|]).
  - left. exists Locatables. simpl. by rewrite lookup_insert_eq.
  - apply inspect_in_None. intros role Hr. simpl. rewrite decide_False; [done|].
    intros <-. unfold inspect_roles in Hr. set_solver.
  - right. simpl. by rewrite lookup_insert_eq.
  - apply inspect_in_None. intros role Hr. simpl. done.
Qed.

(** A count submitted to the queue with its detectors as a keyword measures
    nothing: the queued item always has a positional list (the empty one when the
    client sent none), which the argument parser prefers, so the keyword detectors
    are never read; executed immediately, the same item reads them. *)
Theorem queued_count_ignores_keyword_detectors u dets num :
  in_u64 num →
  let item := json [("name", VString "count");
                    ("kwargs", json [("detectors", VArray (VString <$> dets));
                                     ("num", json_Z num)])] in
  parse_count_args (plan_args (item_plan u "count" item)) = Ok ([], num)
  ∧ parse_count_args item = Ok (dets, num).
Proof.
  intros Hn. simpl. unfold parse_count_args. simpl. rewrite num_of_u64 by done. simpl.
  split; [done|]. do 2 f_equal. unfold string_list. simpl.
  induction dets as [|d dets IH]; simpl; [done|]. by f_equal.
Qed.
End registry.

(** ** Witness *)

Module ExReg.
Export Interfaces.Sample.
#[export] Instance ex_lib : PlanLib := {|
  Factory := nat; Device := nat; Plan := nat;
  inspect_dyn _ := VNull; plan_count _ _ := 0; call_external f _ _ := Ok f |}.
End ExReg.
Import ExReg.

Lemma queued_count_ignores_keyword_detectors_witness :
  parse_count_args (json [("name", VString "count");
    ("kwargs", json [("detectors", VArray [VString "det1"]); ("num", json_Z 3)])])
  = Ok (["det1"], 3%Z).
Proof. apply (queued_count_ignores_keyword_detectors "u" ["det1"] 3). compute_decide. Defined.
