(* ===== verification/QueueOps.v ===== *)
(** * The queue requests ([qs/dispatch.rs], queue contents)

    The handlers of the queue item requests, over the queue and the process's UUID
    source: [uuids] counts the UUIDs minted so far. Each handler returns the flat
    response it sends with the new state. *)

From stdpp Require Import pretty sorting.
From S2P Require Import Prelude Interfaces Queue Registry.

(** ** Responses ([qs/methods.rs]) *)

Section responses.
Context `{JsonNumber}.

Definition err (msg : string) : Value :=
  json [("success", VBool false); ("msg", VString msg)].

(** The successful responses start with the same two members. *)
Definition success (fields : list (string * Value)) : Value :=
  json (("success", VBool true) :: ("msg", VString EmptyString) :: fields).

(** [r["success"] == true] *)
Definition succeeded (r : Value) : bool := bool_decide (get_bool r "success" = Some true).
End responses.

Record Q `{JsonNumber} := mkQ { uuids : nat; pq : PlanQueue.t }.
Arguments mkQ {_} _ _.

Section queue_requests.
Context `{JsonNumber, !PlanLib, !TextFormat, !UuidSource}.
Notation Reg := (Registry Factory Device).
Implicit Types (s : Q) (r : Reg) (params : Value).

(** The next UUID, and the state after minting it. *)
Definition next_uuid s : string := uuid_v4 (uuids s).
Definition minted s : Q := mkQ (S (uuids s)) (pq s).

(** Run a queue operation that may mint one UUID. *)
Definition on_queue {A} (f : string → PlanQueue.t → A * PlanQueue.t) s : A * Q :=
  let '(a, q) := f (next_uuid s) (pq s) in (a, mkQ (S (uuids s)) q).

Definition on_queue_ (f : string → PlanQueue.t → PlanQueue.t) s : Q :=
  mkQ (S (uuids s)) (f (next_uuid s) (pq s)).

Definition insert_positioned (queued : QueuedItem) (pos_val : option Value)
  (before_uid after_uid : option string) s : Result () string * Q :=
  let qsize := Z.of_nat (PlanQueue.len (pq s)) in
  match before_uid with
  | Some buid =>
      let '(found, s) := on_queue (λ u, PlanQueue.insert_before_uid u buid queued) s in
      if negb found then (Err ("before_uid not found: " +:+ buid), s) else (Ok (), s)
  | None =>
  match after_uid with
  | Some auid =>
      let '(found, s) := on_queue (λ u, PlanQueue.insert_after_uid u auid queued) s in
      if negb found then (Err ("after_uid not found: " +:+ auid), s) else (Ok (), s)
  | None =>
  match pos_val with
  | None => (Ok (), on_queue_ (λ u, PlanQueue.push_back u queued) s)
  | Some (VString p) =>
      if String.eqb p "back" then (Ok (), on_queue_ (λ u, PlanQueue.push_back u queued) s)
      else if String.eqb p "front" then
        (Ok (), on_queue_ (λ u, PlanQueue.insert_at u 0 queued) s)
      else (Err ("invalid pos string: " +:+ p), s)
  | Some (VNumber n) =>
      let? i := num_as_i64 n else (Err "pos must be an integer", s) in
      if (i =? 0)%Z || (i <? - qsize)%Z then
        (Ok (), on_queue_ (λ u, PlanQueue.insert_at u 0 queued) s)
      else if (i =? -1)%Z || (qsize <=? i)%Z then
        (Ok (), on_queue_ (λ u, PlanQueue.push_back u queued) s)
      else
        let ref_idx := Z.to_nat (if (0 <? i)%Z then i else qsize + i + 1)%Z in
        (Ok (), on_queue_ (λ u, PlanQueue.insert_at u ref_idx queued) s)
  | Some other => (Err ("invalid pos value: " +:+ display_value other), s)
  end end end.

#[local] Arguments insert_positioned : simpl never.

(** The position parameters, or what is ambiguous about them. *)
Definition positions params : option Value * option string * option string :=
  (value_get params "pos", get_str params "before_uid", get_str params "after_uid").

Definition ambiguous (p : option Value * option string * option string) : option string :=
  let '(pos_val, before_uid, after_uid) := p in
  if bool_decide (is_Some pos_val)
     && (bool_decide (is_Some before_uid) || bool_decide (is_Some after_uid)) then
    Some "ambiguous: cannot specify both 'pos' and 'before_uid'/'after_uid'"
  else if bool_decide (is_Some before_uid) && bool_decide (is_Some after_uid) then
    Some "ambiguous: cannot specify both 'before_uid' and 'after_uid'"
  else None.

(** The item of an add request, with the UUID [u] minted for it. *)
Definition build_item r (u : string) (item : Value) (name : string)
  : Result QueuedItem string :=
  let ty := default "plan" (get_str item "item_type") in
  if String.eqb ty "plan" then
    match registry_plan name r with
    | None => Err ("unknown plan: " +:+ name)
    | Some _ => Ok (item_plan u name item)
    end
  else if String.eqb ty "instruction" then
    if negb (String.eqb name "queue_stop") then
      Err ("unsupported instruction: " +:+ debug_str name
           +:+ " (only 'queue_stop' is supported)")
    else Ok (item_instruction u name)
  else Err ("unsupported item_type: " +:+ debug_str ty).

Definition queue_item_add r params s : Value * Q :=
  let? item := value_get params "item" else (err "missing 'item'", s) in
  let? name := get_str item "name" else (err "item.name required", s) in
  let '(pos_val, before_uid, after_uid) := positions params in
  match ambiguous (positions params) with
  | Some msg => (err msg, s)
  | None =>
  match build_item r (next_uuid s) item name with
  | Err msg => (err msg, s)
  | Ok queued =>
      let s := minted s in
      let queued := with_submitter (get_str params "user") (get_str params "user_group") queued in
      let '(res, s) := insert_positioned queued pos_val before_uid after_uid s in
      match res with
      | Err msg => (err msg, s)
      | Ok _ =>
          (success [("qsize", json_nat (PlanQueue.len (pq s))); ("item", item_to_value queued);
                    ("plan_queue_uid", VString (PlanQueue.queue_uid (pq s)))], s)
      end
  end end.

(** ** Batch add *)

(** Phase 1: validate and build every item; nothing is queued. *)
Fixpoint prepare_batch r (us ug : option string) (items : list Value) s
  : list QueuedItem * list Value * bool * Q :=
  match items with
  | [] => ([], [], false, s)
  | item :: items =>
      match get_str item "name" with
      | Some n =>
          if bool_decide (is_Some (registry_plan n r)) then
            let qi := with_submitter us ug (item_plan (next_uuid s) n item) in
            let '(prepared, results, had_error, s) :=
              prepare_batch r us ug items (minted s) in
            (qi :: prepared, success [] :: results, had_error, s)
          else
            let '(prepared, results, _, s) := prepare_batch r us ug items s in
            (prepared, err ("unknown plan: " +:+ n) :: results, true, s)
      | None =>
          let '(prepared, results, _, s) := prepare_batch r us ug items s in
          (prepared, err "item.name required" :: results, true, s)
      end
  end.

(** Phase 2: the first item at the batch's position, each other one right after
    the one before it. *)
Fixpoint insert_batch (p : option Value * option string * option string)
  (prev_uid : option string) (prepared : list QueuedItem) s
  : Result (list Value) string * Q :=
  match prepared with
  | [] => (Ok [], s)
  | qi :: prepared =>
      let '(placed, s) :=
        match prev_uid with
        | None => let '(pos_val, before_uid, after_uid) := p in
                  insert_positioned qi pos_val before_uid after_uid s
        | Some prev => insert_positioned qi None None (Some prev) s
        end in
      match placed with
      | Err msg => (Err msg, s)
      | Ok _ =>
          let '(rest, s) := insert_batch p (Some (item_uid qi)) prepared s in
          (match rest with Ok l => Ok (item_to_value qi :: l) | Err e => Err e end, s)
      end
  end.

Definition queue_item_add_batch r params s : Value * Q :=
  let? items := get_array params "items" else (err "missing 'items' array", s) in
  match ambiguous (positions params) with
  | Some msg => (err msg, s)
  | None =>
      let '(prepared, results, had_error, s) :=
        prepare_batch r (get_str params "user") (get_str params "user_group") items s in
      if had_error then
        (json [("success", VBool false);
               ("msg", VString "batch rejected: one or more items failed validation");
               ("qsize", json_nat (PlanQueue.len (pq s))); ("items", VArray items);
               ("results", VArray results);
               ("plan_queue_uid", VString (PlanQueue.queue_uid (pq s)))], s)
      else
        let '(added, s) := insert_batch (positions params) None prepared s in
        match added with
        | Err msg => (err msg, s)
        | Ok added_items =>
            (success [("qsize", json_nat (PlanQueue.len (pq s))); ("items", VArray added_items);
                      ("results", VArray results);
                      ("plan_queue_uid", VString (PlanQueue.queue_uid (pq s)))], s)
        end
  end.

(** ** Update, get, remove *)

Definition queue_item_update params s : Value * Q :=
  let? item := value_get params "item" else (err "missing 'item'", s) in
  let? uid := get_str item "item_uid" else (err "item.item_uid required", s) in
  let name := default EmptyString (get_str item "name") in
  let replace := default false (get_bool params "replace") in
  let new_item := item_plan (next_uuid s) name item in
  let s := minted s in
  let '(result, s) :=
    if replace then on_queue (λ u, PlanQueue.replace_at_uid u uid new_item) s
    else on_queue (λ u, PlanQueue.update u uid new_item) s in
  match result with
  | Some updated =>
      (success [("item", item_to_value updated);
                ("plan_queue_uid", VString (PlanQueue.queue_uid (pq s)))], s)
  | None => (err ("uid not found: " +:+ uid), s)
  end.

Definition queue_item_get params s : Value :=
  match get_str params "uid" with
  | Some uid =>
      match PlanQueue.get_by_uid uid (pq s) with
      | Some it => success [("item", item_to_value it)]
      | None => err ("uid not found: " +:+ uid)
      end
  | None =>
  match value_get params "pos" with
  | Some pos =>
      let snap := PlanQueue.snapshot (pq s) in
      let idx_opt :=
        match pos with
        | VString p =>
            if String.eqb p "front" then head snap
            else if String.eqb p "back" then last snap else None
        | VNumber n => num_as_u64 n ≫= λ i, snap !! Z.to_nat i
        | _ => None
        end in
      match idx_opt with
      | Some it => success [("item", item_to_value it)]
      | None => err ("pos not found: " +:+ display_value pos)
      end
  | None => err "specify 'uid' or 'pos'"
  end end.

Definition queue_item_remove params s : Value * Q :=
  let? uid := get_str params "uid" else (err "uid required", s) in
  let '(removed, s) := on_queue (λ u, PlanQueue.remove_by_uid u uid) s in
  match removed with
  | Some it =>
      (success [("item", item_to_value it); ("qsize", json_nat (PlanQueue.len (pq s)));
                ("plan_queue_uid", VString (PlanQueue.queue_uid (pq s)))], s)
  | None => (err ("uid not found: " +:+ uid), s)
  end.

Fixpoint remove_all (uids : list string) s : list QueuedItem * Q :=
  match uids with
  | [] => ([], s)
  | uid :: uids =>
      let '(removed, s) := on_queue (λ u, PlanQueue.remove_by_uid u uid) s in
      let '(rest, s) := remove_all uids s in
      (option_list removed ++ rest, s)
  end.

Definition queue_item_remove_batch params s : Value * Q :=
  let? a := get_array params "uids" else (err "missing 'uids' array", s) in
  let '(removed, s) := remove_all (omap as_str a) s in
  (success [("items_removed", VArray (item_to_value <$> removed));
            ("qsize", json_nat (PlanQueue.len (pq s)));
            ("plan_queue_uid", VString (PlanQueue.queue_uid (pq s)))], s).

(** ** Move *)

Definition resolve_pos_q (p : option Value) (q : PlanQueue.t) : nat :=
  match p with
  | Some (VString x) =>
      if String.eqb x "front" then 0
      else PlanQueue.len q
  | Some (VNumber n) => Z.to_nat (default 0%Z (num_as_u64 n))
  | _ => PlanQueue.len q
  end.

Definition moved_response (it : QueuedItem) s : Value :=
  success [("item", item_to_value it);
           ("plan_queue_uid", VString (PlanQueue.queue_uid (pq s)))].

Definition queue_item_move params s : Value * Q :=
  let? uid := get_str params "uid" else (err "uid required", s) in
  match get_str params "before_uid" with
  | Some ref_uid =>
      let '(result, s) := on_queue (λ u, PlanQueue.move_before_uid u uid ref_uid) s in
      match result with
      | Some it => (moved_response it s, s)
      | None => (err ("uid or reference uid not found: " +:+ uid), s)
      end
  | None =>
  match get_str params "after_uid" with
  | Some ref_uid =>
      let '(result, s) := on_queue (λ u, PlanQueue.move_after_uid u uid ref_uid) s in
      match result with
      | Some it => (moved_response it s, s)
      | None => (err ("uid or reference uid not found: " +:+ uid), s)
      end
  | None =>
      let dest := resolve_pos_q (value_get params "pos_dest") (pq s) in
      let '(result, s) := on_queue (λ u, PlanQueue.move_to u uid dest) s in
      match result with
      | Some it => (moved_response it s, s)
      | None => (err ("uid not found: " +:+ uid), s)
      end
  end end.

(** ** Batch move *)

Fixpoint first_duplicate (seen uids : list string) : option string :=
  match uids with
  | [] => None
  | u :: uids => if decide (u ∈ seen) then Some u else first_duplicate (u :: seen) uids
  end.

Definition missing_uids (uids : list string) (q : PlanQueue.t) : list string :=
  filter (λ u, PlanQueue.get_by_uid u q = None) uids.

(** The checks made before anything moves: the first that fails. *)
Definition batch_error (uids : list string) (before_uid after_uid : option string)
  (q : PlanQueue.t) : option string :=
  match first_duplicate [] uids with
  | Some u => Some ("duplicate uid in batch: " +:+ u)
  | None =>
  let missing := missing_uids uids q in
  if negb (bool_decide (missing = [])) then
    Some ("uids not in queue: " +:+ String.concat ", " missing)
  else
  let check_ref (what : string) (ref : option string) : option string :=
    match ref with
    | Some b =>
        if bool_decide (b ∈ uids) then Some (what +:+ " is in the batch: " +:+ b)
        else if bool_decide (PlanQueue.get_by_uid b q = None) then
          Some (what +:+ " not found: " +:+ b)
        else None
    | None => None
    end in
  match check_ref "before_uid" before_uid with
  | Some e => Some e
  | None => check_ref "after_uid" after_uid
  end end.

(** [sort_by_key] on the queue index, a stable sort. *)
Definition idx_le (a b : nat * string) : Prop := a.1 ≤ b.1.
#[local] Instance idx_le_dec : RelDecision idx_le.
Proof. unfold idx_le. intros a b. apply _. Defined.

(** [index_of_uid(u).unwrap()]: the batch's UIDs are known to be queued. *)
Definition indexed (q : PlanQueue.t) (u : string) : nat * string :=
  (default 0 (PlanQueue.index_of_uid u q), u).

Definition queue_order (uids : list string) (q : PlanQueue.t) : list string :=
  (merge_sort idx_le (indexed q <$> uids)).*2.

(** The destination of the first item. *)
Definition move_first (uid : string) (pos_dest : option Value)
  (before_uid after_uid : option string) s : option QueuedItem * Q :=
  match before_uid, after_uid with
  | Some b, _ => on_queue (λ u, PlanQueue.move_before_uid u uid b) s
  | None, Some a => on_queue (λ u, PlanQueue.move_after_uid u uid a) s
  | None, None =>
      on_queue (λ u, PlanQueue.move_to u uid (resolve_pos_q pos_dest (pq s))) s
  end.

Fixpoint move_block (pos_dest : option Value) (before_uid after_uid : option string)
  (prev_uid : option string) (ordered : list string) s : Result (list Value) string * Q :=
  match ordered with
  | [] => (Ok [], s)
  | uid :: ordered =>
      let '(placed, s) :=
        match prev_uid with
        | None => move_first uid pos_dest before_uid after_uid s
        | Some p => on_queue (λ u, PlanQueue.move_after_uid u uid p) s
        end in
      match placed with
      | None => (Err ("move failed for uid: " +:+ uid), s)
      | Some it =>
          let '(rest, s) := move_block pos_dest before_uid after_uid (Some uid) ordered s in
          (match rest with Ok l => Ok (item_to_value it :: l) | Err e => Err e end, s)
      end
  end.

Definition queue_item_move_batch params s : Value * Q :=
  let? a := get_array params "uids" else (err "missing 'uids' array", s) in
  let uids := omap as_str a in
  let pos_dest := match value_get params "pos_dest" with
                  | Some v => if is_null v then None else Some v
                  | None => None
                  end in
  let before_uid := get_str params "before_uid" in
  let after_uid := get_str params "after_uid" in
  let n_dest := (if pos_dest then 1 else 0) + (if before_uid then 1 else 0)
                + (if after_uid then 1 else 0) in
  if n_dest <? 1 then
    (err "destination not specified: use 'pos_dest', 'before_uid', or 'after_uid'", s)
  else if 1 <? n_dest then
    (err "ambiguous: only one of 'pos_dest', 'before_uid', 'after_uid'", s)
  else
  let reorder := default false (get_bool params "reorder") in
  match batch_error uids before_uid after_uid (pq s) with
  | Some e => (err e, s)
  | None =>
      let ordered := if reorder then queue_order uids (pq s) else uids in
      let '(moved, s) := move_block pos_dest before_uid after_uid None ordered s in
      match moved with
      | Err e => (err e, s)
      | Ok moved =>
          (success [("items_moved", VArray moved); ("qsize", json_nat (PlanQueue.len (pq s)));
                    ("plan_queue_uid", VString (PlanQueue.queue_uid (pq s)))], s)
      end
  end.

(** ** Specifications *)

(** Where a positioned insertion lands, in Python's index arithmetic: before or
    after the reference item, else at the named end, else at the signed index
    clamped to the queue, counting from one past the back when it is negative. *)
Definition insertion_index (pos_val : option Value) (before_uid after_uid : option string)
  (l : list QueuedItem) : option nat :=
  match before_uid, after_uid, pos_val with
  | Some b, _, _ => position (key_is item_uid b) l
  | None, Some a, _ => S <$> position (key_is item_uid a) l
  | None, None, None => Some (length l)
  | None, None, Some (VString p) =>
      if String.eqb p "back" then Some (length l)
      else if String.eqb p "front" then Some 0 else None
  | None, None, Some (VNumber n) =>
      i ← num_as_i64 n;
      Some (if decide (0 ≤ i)%Z then Z.to_nat i `min` length l
            else Z.to_nat (Z.of_nat (length l) + 1 + i))
  | None, None, Some _ => None
  end.

(** The UUIDs still to come are not in the queue. *)
Definition fresh s : Prop := ∀ n, uuids s ≤ n → uuid_v4 n ∉ uids (pq s).

Definition q_wf s : Prop := wf (pq s) ∧ fresh s.

(** Two states with the same queue and history. *)
Definition q_same s s' : Prop := pq s' = pq s.

(** ** Lemmas *)

Lemma insert_positioned_spec queued pos_val before_uid after_uid s :
  let '(res, s') := insert_positioned queued pos_val before_uid after_uid s in
  match insertion_index pos_val before_uid after_uid (PlanQueue.items (pq s)) with
  | Some k =>
      res = Ok () ∧ k ≤ length (PlanQueue.items (pq s))
      ∧ PlanQueue.items (pq s') = vec_insert k queued (PlanQueue.items (pq s))
      ∧ PlanQueue.history (pq s') = PlanQueue.history (pq s)
      ∧ PlanQueue.queue_uid (pq s') = next_uuid s ∧ uuids s' = S (uuids s)
  | None => (∃ e, res = Err e) ∧ q_same s s' ∧ uuids s ≤ uuids s'
  end.
Proof.
  unfold insert_positioned, insertion_index, q_same. destruct before_uid as [b|].
  { unfold on_queue, PlanQueue.insert_before_uid, PlanQueue.index_of_uid.
    destruct (position _ _) as [i|] eqn:Hi; simpl; [|by eauto with lia].
    apply position_key_Some in Hi as (x & Hx & _). apply lookup_lt_Some in Hx.
    split_and!; done || lia. }
  destruct after_uid as [a|].
  { unfold on_queue, PlanQueue.insert_after_uid, PlanQueue.index_of_uid.
    destruct (position _ _) as [i|] eqn:Hi; simpl; [|by eauto with lia].
    apply position_key_Some in Hi as (x & Hx & _). apply lookup_lt_Some in Hx.
    rewrite Nat.add_1_r. split_and!; done || lia. }
  assert (∀ l : list QueuedItem, l ++ [queued] = vec_insert (length l) queued l) as Hend
    by (intros; by rewrite vec_insert_end).
  destruct pos_val as [[| |n|p| |]|]; simpl; eauto with lia.
  - destruct (num_as_i64 n) as [i|]; simpl; [|by eauto with lia].
    unfold PlanQueue.len, on_queue_, PlanQueue.insert_at, PlanQueue.push_back, PlanQueue.set_items.
    generalize (PlanQueue.items (pq s)) as l; intros l.
    assert (∀ k k', k = k' → vec_insert k queued l = vec_insert k' queued l) as Hk by congruence.
    destruct (Z.eqb_spec i 0), (Z.ltb_spec i (- Z.of_nat (length l)));
      [case_decide; simpl; split_and!; try done; try (apply Hk); lia..|].
    destruct (Z.eqb_spec i (-1)), (Z.leb_spec (Z.of_nat (length l)) i);
      [case_decide; simpl; split_and!; try done; try (rewrite Hend; apply Hk); lia..|].
    destruct (Z.ltb_spec 0 i); case_decide; simpl; split_and!; try done; try (apply Hk); lia.
  - destruct (String.eqb p "back"); simpl; [split_and!; auto; apply Hend|].
    destruct (String.eqb p "front"); simpl; [split_and!; auto with lia|]. eauto with lia.
  - split_and!; auto.
Qed.

Lemma minted_wf s : q_wf s → q_wf (minted s).
Proof. intros [Hw Hf]. split; [done|]. intros n Hn. apply Hf. simpl in *. lia. Qed.

Lemma same_wf s s' : q_same s s' → uuids s ≤ uuids s' → q_wf s → q_wf s'.
Proof.
  unfold q_wf, fresh. intros -> Hle [Hw Hf]. split; [done|]. intros n Hn. apply Hf. lia.
Qed.

(** One queue operation, run with the next UUID. *)
Lemma op_wf o s :
  q_wf s → brings_fresh o (pq s) →
  (∀ x, x ∈ brought o → ∃ m, m < uuids s ∧ x = uuid_v4 m) →
  q_wf (mkQ (S (uuids s)) (exec (next_uuid s) o (pq s))).
Proof.
  intros [Hw Hf] Hb Hm. split; [by apply exec_keeps_wf|].
  intros n Hn [Hx|Hx]%exec_uids; simpl in *; [apply (Hf n); [lia|done]|].
  destruct (Hm _ Hx) as (m & Hlt & Heq). apply (inj uuid_v4) in Heq. lia.
Qed.

(** A queued item that arrives with a minted UID is new to a well-formed queue. *)
Lemma insert_positioned_wf queued p b a s m :
  q_wf s → item_uid queued = uuid_v4 m → m < uuids s → item_uid queued ∉ uids (pq s) →
  q_wf (snd (insert_positioned queued p b a s)).
Proof.
  intros [Hw Hf] Hm Hlt Hni. pose proof (insert_positioned_spec queued p b a s) as Hs.
  destruct (insert_positioned queued p b a s) as [res s']. simpl.
  destruct (insertion_index p b a _) as [k|].
  - destruct Hs as (_ & _ & Hi & _ & _ & Hu). split; unfold wf, fresh, uids in *; rewrite Hi.
    + by apply NoDup_vec_insert.
    + intros n Hn. rewrite uids_vec_insert, elem_of_cons. intros [Heq|Hin].
      * rewrite Hm in Heq. apply (inj uuid_v4) in Heq. lia.
      * apply (Hf n); [lia|done].
  - destruct Hs as (_ & Hs & Hle). by apply (same_wf s).
Qed.

(** What phase 1 of a batch builds. *)
Lemma prepare_batch_spec r us ug items s :
  let '(prepared, results, had_error, s') := prepare_batch r us ug items s in
  q_same s s' ∧ uuids s' = uuids s + length prepared
  ∧ item_uid <$> prepared = uuid_v4 <$> seq (uuids s) (length prepared)
  ∧ length results = length items
  ∧ (had_error = false ↔ Forall (λ v, ∃ n, get_str v "name" = Some n ∧ is_Some (registry_plan n r)) items)
  ∧ (had_error = false →
     Forall2 (λ v it, ∃ n, get_str v "name" = Some n
       ∧ it = with_submitter us ug (item_plan (item_uid it) n v)) items prepared).
Proof.
  revert s. induction items as [|v items IH]; intros s; simpl.
  { split_and!; try done; try (by rewrite Nat.add_0_r); by constructor. }
  assert (∀ n, get_str v "name" = Some n → ¬ is_Some (registry_plan n r) →
    ¬ Forall (λ v, ∃ n, get_str v "name" = Some n ∧ is_Some (registry_plan n r)) (v :: items))
    as Hbad.
  { intros n Hn Hno [(n' & Hn' & Hp) _]%Forall_cons. congruence. }
  destruct (get_str v "name") as [n|] eqn:Hname.
  - case_bool_decide as Hp.
    + specialize (IH (minted s)). destruct (prepare_batch r us ug items (minted s))
        as [[[prepared results] had_error] s']. simpl in *.
      destruct IH as (Hs & Hu & Hm & Hl & He & Hf). split_and!; simpl.
      * done.
      * lia.
      * f_equal. exact Hm.
      * by rewrite Hl.
      * rewrite Forall_cons, He. naive_solver.
      * intros Hh. constructor; [by exists n|by apply Hf].
    + specialize (IH s). destruct (prepare_batch r us ug items s)
        as [[[prepared results] had_error] s'].
      destruct IH as (Hs & Hu & Hm & Hl & He & Hf). split_and!; simpl; try done; [by rewrite Hl|].
      split; [done|]. intros Hall. by destruct (Hbad n eq_refl Hp).
  - specialize (IH s). destruct (prepare_batch r us ug items s)
      as [[[prepared results] had_error] s'].
    destruct IH as (Hs & Hu & Hm & Hl & He & Hf). split_and!; simpl; try done; [by rewrite Hl|].
    split; [done|]. intros [(n' & Hn' & _) _]%Forall_cons. congruence.
Qed.

(** Phase 2 past the first item: the block follows it. *)
Lemma insert_block p prepared l1 x l2 s :
  PlanQueue.items (pq s) = l1 ++ x :: l2 →
  NoDup (item_uid <$> l1 ++ x :: prepared) →
  let '(res, s') := insert_batch p (Some (item_uid x)) prepared s in
  res = Ok (item_to_value <$> prepared)
  ∧ PlanQueue.items (pq s') = l1 ++ x :: prepared ++ l2
  ∧ PlanQueue.history (pq s') = PlanQueue.history (pq s)
  ∧ uuids s' = uuids s + length prepared.
Proof.
  revert l1 x s. induction prepared as [|y prepared IH]; intros l1 x s Hi Hnd; simpl.
  { split_and!; done || lia. }
  pose proof (insert_positioned_spec y None None (Some (item_uid x)) s) as Hs.
  destruct (insert_positioned y None None (Some (item_uid x)) s) as [res s1].
  assert (item_uid x ∉ item_uid <$> l1) as Hx.
  { apply NoDup_middle in Hnd as [Hnd _]. rewrite fmap_app in Hnd. set_solver. }
  simpl in Hs. rewrite Hi, position_key_app in Hs by done. simpl in Hs.
  destruct Hs as (-> & _ & Hi1 & Hh & _ & Hu).
  replace (vec_insert (S (length l1)) y (l1 ++ x :: l2)) with ((l1 ++ [x]) ++ y :: l2) in Hi1.
  2:{ rewrite <-vec_insert_app. rewrite length_app, <-app_assoc. simpl. f_equal. lia. }
  specialize (IH (l1 ++ [x]) y s1 Hi1). rewrite <-app_assoc in IH. specialize (IH Hnd).
  destruct (insert_batch p (Some (item_uid y)) prepared s1) as [rest s2].
  destruct IH as (-> & Hi2 & Hh2 & Hu2).
  split_and!; try done; [by rewrite Hi2, <-app_assoc|by rewrite Hh2|lia].
Qed.

(** Phase 2: all of the block at the batch's position, or nothing. *)
Lemma insert_batch_spec pos_val before_uid after_uid x prepared s :
  NoDup (item_uid <$> PlanQueue.items (pq s)) →
  NoDup (item_uid <$> x :: prepared) →
  (∀ u, u ∈ item_uid <$> x :: prepared → u ∉ uids (pq s)) →
  let '(res, s') := insert_batch (pos_val, before_uid, after_uid) None (x :: prepared) s in
  match insertion_index pos_val before_uid after_uid (PlanQueue.items (pq s)) with
  | Some k =>
      res = Ok (item_to_value <$> x :: prepared)
      ∧ PlanQueue.items (pq s') =
          take k (PlanQueue.items (pq s)) ++ (x :: prepared) ++ drop k (PlanQueue.items (pq s))
      ∧ PlanQueue.history (pq s') = PlanQueue.history (pq s)
      ∧ uuids s' = uuids s + length (x :: prepared)
  | None => (∃ e, res = Err e) ∧ q_same s s' ∧ uuids s ≤ uuids s'
  end.
Proof.
  intros Hq Hnd Hnew. simpl.
  pose proof (insert_positioned_spec x pos_val before_uid after_uid s) as Hs.
  destruct (insert_positioned x pos_val before_uid after_uid s) as [res s1].
  destruct (insertion_index _ _ _ _) as [k|]; [|destruct Hs as ([e ->] & ? & ?); by eauto].
  destruct Hs as (-> & Hk & Hi & Hh & _ & Hu). unfold vec_insert in Hi.
  pose proof (insert_block (pos_val, before_uid, after_uid) prepared _ _ _ s1 Hi) as Hb.
  destruct (insert_batch _ (Some (item_uid x)) prepared s1) as [rest s2].
  destruct Hb as (-> & Hi2 & Hh2 & Hu2).
  { rewrite fmap_app. apply NoDup_app. split_and!; [|intros u Hu1 Hu2; apply (Hnew u Hu2)|done].
    - rewrite <-(take_drop k (PlanQueue.items (pq s))), fmap_app in Hq.
      by apply NoDup_app in Hq as [? _].
    - unfold uids. rewrite <-(take_drop k (PlanQueue.items (pq s))), fmap_app.
      apply elem_of_app. by left. }
  split_and!; try done; [by rewrite Hh2|simpl; lia].
Qed.

Lemma succeeded_success fields : succeeded (success fields) = true.
Proof. reflexivity. Qed.
Lemma succeeded_err msg : succeeded (err msg) = false.
Proof. reflexivity. Qed.
Lemma succeeded_rejected m : succeeded (json (("success", VBool false) :: m)) = false.
Proof. reflexivity. Qed.

Hint Rewrite succeeded_success succeeded_err succeeded_rejected : bsrs_rw.

(** The batch's items have new, distinct UIDs. *)
Lemma prepared_new s s1 (prepared : list QueuedItem) :
  fresh s → q_same s s1 →
  item_uid <$> prepared = uuid_v4 <$> seq (uuids s) (length prepared) →
  NoDup (item_uid <$> prepared) ∧ ∀ u, u ∈ item_uid <$> prepared → u ∉ uids (pq s1).
Proof.
  intros Hf -> ->. split; [apply NoDup_fmap_2; [apply _|apply NoDup_seq]|].
  intros u (n & -> & Hn)%list_elem_of_fmap. apply elem_of_seq in Hn. apply Hf. lia.
Qed.

(** Every way a batch add ends. *)
Lemma add_batch_cases r params s :
  q_wf s →
  let '(resp, s') := queue_item_add_batch r params s in
  (succeeded resp = false ∧ q_same s s' ∧ uuids s ≤ uuids s')
  ∨ ∃ items new, succeeded resp = true ∧ get_array params "items" = Some items
    ∧ Forall2 (λ v it, ∃ n, get_str v "name" = Some n ∧ is_Some (registry_plan n r)
        ∧ it = with_submitter (get_str params "user") (get_str params "user_group")
                 (item_plan (item_uid it) n v)) items new
    ∧ item_uid <$> new = uuid_v4 <$> seq (uuids s) (length new)
    ∧ PlanQueue.history (pq s') = PlanQueue.history (pq s)
    ∧ uuids s + length new ≤ uuids s'
    ∧ (new = [] ∧ q_same s s'
       ∨ ∃ k, insertion_index (value_get params "pos") (get_str params "before_uid")
                (get_str params "after_uid") (PlanQueue.items (pq s)) = Some k
              ∧ PlanQueue.items (pq s') =
                take k (PlanQueue.items (pq s)) ++ new ++ drop k (PlanQueue.items (pq s))).
Proof.
  intros [Hw Hf]. unfold queue_item_add_batch.
  destruct (get_array params "items") as [items|]; [|left; done].
  destruct (ambiguous _); [left; done|].
  pose proof (prepare_batch_spec r (get_str params "user") (get_str params "user_group") items s)
    as Hp.
  destruct (prepare_batch r _ _ items s) as [[[prepared results] had_error] s1].
  destruct Hp as (Hs1 & Hu1 & Hm & _ & He & Hall).
  destruct had_error; [left; simpl; split_and!; [done|done|lia]|].
  specialize (proj1 He eq_refl) as Hreg. specialize (Hall eq_refl).
  assert (Forall2 (λ v it, ∃ n, get_str v "name" = Some n ∧ is_Some (registry_plan n r)
      ∧ it = with_submitter (get_str params "user") (get_str params "user_group")
               (item_plan (item_uid it) n v)) items prepared) as Hall'.
  { clear -Hreg Hall. induction Hall as [|v it items prepared (n & Hn & Hit) _ IH]; [done|].
    apply Forall_cons in Hreg as [(n' & Hn' & Hp) Hreg].
    constructor; [exists n; naive_solver congruence|by apply IH]. }
  destruct (prepared_new s s1 prepared Hf Hs1 Hm) as [Hnd Hnew].
  unfold positions. destruct prepared as [|x prepared].
  { simpl. right. exists items, []. split_and!; try done; [by rewrite Hs1|simpl in *; lia|].
    by left. }
  pose proof (insert_batch_spec (value_get params "pos") (get_str params "before_uid")
    (get_str params "after_uid") x prepared s1) as Hb.
  rewrite Hs1 in Hb. specialize (Hb Hw Hnd). rewrite Hs1 in Hnew. specialize (Hb Hnew).
  destruct (insert_batch _ None (x :: prepared) s1) as [added s2].
  destruct (insertion_index _ _ _ _) as [k|].
  - destruct Hb as (-> & Hi & Hh & Hu). right. exists items, (x :: prepared).
    rewrite succeeded_success. split_and!; try done; [simpl in *; lia|]. right. by exists k.
  - destruct Hb as ([e ->] & Hs2 & Hle). left. rewrite succeeded_err. unfold q_same in *.
    split_and!; [done|congruence|lia].
Qed.

(** The queue without the items named in a batch. *)
Definition without (us : list string) (l : list QueuedItem) : list QueuedItem :=
  filter (λ it, item_uid it ∉ us) l.

Lemma without_cons u us l : without us (others u l) = without (u :: us) l.
Proof.
  unfold without, others. rewrite list_filter_filter. apply list_filter_iff.
  intros it. rewrite not_elem_of_cons. tauto.
Qed.

Lemma moved_to_perm k it q :
  wf q → it ∈ PlanQueue.items q →
  vec_insert k it (others (item_uid it) (PlanQueue.items q)) ≡ₚ PlanQueue.items q.
Proof.
  unfold wf, uids. intros Hw (l1 & l2 & Hq)%list_elem_of_split. rewrite Hq in *.
  by rewrite vec_insert_perm, others_middle, Permutation_middle.
Qed.

Lemma moved_to_wf k it u q : wf q → it ∈ PlanQueue.items q → wf (moved_to k it u q).
Proof. intros Hw Hi. unfold wf, uids. simpl. by rewrite moved_to_perm. Qed.

(** The rest of a block move, once the items before it stand. *)
Lemma move_block_spec pd b a ordered l1 blk x l2 s :
  wf (pq s) → PlanQueue.items (pq s) = l1 ++ (blk ++ [x]) ++ l2 →
  NoDup ordered → (∀ u, u ∈ ordered → u ∈ uids (pq s) ∧ u ∉ item_uid <$> blk ++ [x]) →
  let '(res, s') := move_block pd b a (Some (item_uid x)) ordered s in
  ∃ new, item_uid <$> new = ordered ∧ res = Ok (item_to_value <$> new)
    ∧ PlanQueue.items (pq s') =
      without ordered l1 ++ (blk ++ [x]) ++ new ++ without ordered l2
    ∧ PlanQueue.items (pq s') ≡ₚ PlanQueue.items (pq s)
    ∧ PlanQueue.history (pq s') = PlanQueue.history (pq s)
    ∧ uuids s' = uuids s + length ordered.
Proof.
  revert l1 blk x l2 s. induction ordered as [|uid ordered IH]; intros l1 blk x l2 s Hw Hi Hnd Hin.
  { simpl. exists []. unfold without. rewrite !filter_id by set_solver.
    split_and!; done || lia. }
  apply NoDup_cons in Hnd as [Hni Hnd]. simpl.
  destruct (Hin uid) as [Hu Hub]; [left|].
  assert (item_uid x ∈ uids (pq s)) as Hx by (unfold uids; rewrite Hi; set_solver).
  assert (uid ≠ item_uid x) as Hne by set_solver.
  destruct (move_relative_list (next_uuid s) uid (item_uid x) (pq s) Hw Hu Hx Hne)
    as (it & k1 & r & k2 & Hit & Hiu & Hr & Ho & Hk1 & _ & Hmv).
  unfold on_queue. rewrite Hmv.
  assert (others uid (PlanQueue.items (pq s)) = (others uid l1 ++ blk) ++ x :: others uid l2)
    as Ho2.
  { rewrite Hi. unfold others. rewrite !filter_app.
    rewrite (filter_id _ blk), (filter_id _ [x]) by set_solver. by rewrite <-!app_assoc. }
  rewrite Ho2 in Ho.
  destruct (key_middle_inj item_uid _ _ _ _ _ _ Ho (eq_sym Hr)) as (<- & <- & <-).
  { intros Hxin. unfold wf, uids in Hw.
    rewrite Hi, !fmap_app in Hw. apply NoDup_app in Hw as (_ & Hd & Hw2).
    rewrite fmap_app in Hxin. apply elem_of_app in Hxin as [Hxin|Hxin].
    - apply (Hd (item_uid x)); [|set_solver].
      apply list_elem_of_fmap in Hxin as (y & -> & Hy%list_elem_of_filter). set_solver.
    - apply NoDup_app in Hw2 as (Hw2 & _). apply NoDup_app in Hw2 as (_ & Hd2 & _).
      apply (Hd2 (item_uid x)); set_solver. }
  { by rewrite Hr. }
  pose proof (moved_to_perm (length (others uid l1 ++ blk) + 1) it (pq s) Hw Hit) as Hperm.
  specialize (IH (others uid l1) (blk ++ [x]) it (others uid l2)
    (mkQ (S (uuids s)) (moved_to (length (others uid l1 ++ blk) + 1) it (next_uuid s) (pq s)))).
  rewrite Hiu in IH.
  destruct (move_block pd b a (Some uid) ordered _) as [res s'].
  destruct IH as (new & Hnew & Hres & Hi' & Hp' & Hh' & Hu').
  - by apply moved_to_wf.
  - simpl. rewrite Hiu, Ho2.
    replace ((others uid l1 ++ blk) ++ x :: others uid l2)
      with ((others uid l1 ++ blk ++ [x]) ++ others uid l2) by by rewrite <-!app_assoc.
    replace (length (others uid l1 ++ blk) + 1) with (length (others uid l1 ++ blk ++ [x]))
      by (rewrite !length_app; simpl; lia).
    rewrite vec_insert_app. by rewrite <-!app_assoc.
  - done.
  - intros u Huo. destruct (Hin u) as [Huq Hub2]; [by right|]. split.
    + unfold uids in *. simpl. by rewrite Hperm.
    + rewrite fmap_app, elem_of_app. simpl. rewrite list_elem_of_singleton.
      intros [Hb|Heq]; [by apply Hub2|]. apply Hni. congruence.
  - exists (it :: new). split_and!.
    + simpl. rewrite Hiu. f_equal. exact Hnew.
    + by rewrite Hres.
    + rewrite Hi', !without_cons. by rewrite <-!app_assoc.
    + rewrite Hp'. simpl. exact Hperm.
    + by rewrite Hh'.
    + simpl in *. lia.
Qed.

(** Where the first item of a block move lands among the others. *)
Definition first_index (uid : string) (pos_dest : option Value) (before_uid after_uid : option string)
  (q : PlanQueue.t) (k : nat) : Prop :=
  let l := others uid (PlanQueue.items q) in
  match before_uid, after_uid with
  | Some b, _ => ∃ r : QueuedItem, l !! k = Some r ∧ item_uid r = b
  | None, Some a => ∃ j (r : QueuedItem), k = S j ∧ l !! j = Some r ∧ item_uid r = a
  | None, None => k = resolve_pos_q pos_dest q `min` length l
  end.

Lemma move_first_spec uid pos_dest b a s :
  wf (pq s) → uid ∈ uids (pq s) →
  (∀ ref, b = Some ref ∨ a = Some ref → ref ∈ uids (pq s) ∧ uid ≠ ref) →
  ∃ it k, it ∈ PlanQueue.items (pq s) ∧ item_uid it = uid
    ∧ move_first uid pos_dest b a s =
      (Some it, mkQ (S (uuids s)) (moved_to k it (next_uuid s) (pq s)))
    ∧ k ≤ length (others uid (PlanQueue.items (pq s)))
    ∧ first_index uid pos_dest b a (pq s) k.
Proof.
  intros Hw Hu Href. unfold move_first, first_index, on_queue. destruct b as [b|].
  { destruct (Href b) as [Hb Hne]; [by left|].
    destruct (move_relative_list (next_uuid s) uid b (pq s) Hw Hu Hb Hne)
      as (it & k1 & r & k2 & Hit & Hiu & Hr & Ho & _ & -> & _).
    exists it, (length k1). rewrite Ho. split_and!; try done; [rewrite length_app; simpl; lia|].
    exists r. by rewrite list_lookup_middle. }
  destruct a as [a|].
  { destruct (Href a) as [Ha Hne]; [by right|].
    destruct (move_relative_list (next_uuid s) uid a (pq s) Hw Hu Ha Hne)
      as (it & k1 & r & k2 & Hit & Hiu & Hr & Ho & _ & _ & ->).
    exists it, (length k1 + 1). rewrite Ho.
    split_and!; try done; [rewrite length_app; simpl; lia|].
    exists (length k1), r. rewrite list_lookup_middle by done. split; [lia|done]. }
  destruct (move_to_list (next_uuid s) uid (resolve_pos_q pos_dest (pq s)) (pq s) Hw Hu)
    as (it & Hit & Hiu & ->).
  eexists it, _. split_and!; try done. lia.
Qed.

Lemma first_duplicate_None seen us :
  first_duplicate seen us = None ↔ NoDup us ∧ ∀ u, u ∈ us → u ∉ seen.
Proof.
  revert seen. induction us as [|u us IH]; intros seen; simpl.
  - split; [|done]. intros _. split; [constructor|]. by intros ? ?%elem_of_nil.
  - case_decide; [split; [done|]; intros [_ Hn]; exfalso; by apply (Hn u); [left|]|].
    rewrite IH, NoDup_cons. setoid_rewrite elem_of_cons. naive_solver.
Qed.

Lemma get_by_uid_None u q : PlanQueue.get_by_uid u q = None ↔ u ∉ uids q.
Proof.
  rewrite <-index_of_None. unfold PlanQueue.get_by_uid, PlanQueue.index_of_uid, position.
  by destruct (list_find _ _).
Qed.

(** What the checks before a block move establish. *)
Lemma batch_error_None us b a q :
  batch_error us b a q = None →
  NoDup us ∧ (∀ u, u ∈ us → u ∈ uids q)
  ∧ ∀ ref, b = Some ref ∨ a = Some ref → ref ∈ uids q ∧ ref ∉ us.
Proof.
  unfold batch_error. destruct (first_duplicate [] us) eqn:Hd; [done|].
  apply first_duplicate_None in Hd as [Hnd _].
  case_bool_decide as Hm; simpl; [|done]. intros Hrest.
  split; [done|]. split.
  - intros u Hu. destruct (decide (u ∈ uids q)) as [|Hni]; [done|].
    apply get_by_uid_None in Hni.
    assert (u ∈ missing_uids us q) as Hin by (by apply list_elem_of_filter).
    rewrite Hm in Hin. by apply elem_of_nil in Hin.
  - assert (∀ what ref, (if bool_decide (ref ∈ us) then Some (what +:+ " is in the batch: " +:+ ref)
       else if bool_decide (PlanQueue.get_by_uid ref q = None)
       then Some (what +:+ " not found: " +:+ ref) else None) = None →
       ref ∈ uids q ∧ ref ∉ us) as Hc.
    { intros what ref. case_bool_decide; [done|]. case_bool_decide as Hg; [done|].
      rewrite get_by_uid_None in Hg. split; [|done]. by destruct (decide (ref ∈ uids q)). }
    intros ref Hr. destruct b as [b|]; [destruct (if bool_decide (b ∈ us) then _ else _) eqn:Hb;
      [done|]; apply Hc in Hb|];
      (destruct a as [a|]; [apply Hc in Hrest|]); naive_solver.
Qed.

Lemma index_of_wf q l1 it l2 :
  wf q → PlanQueue.items q = l1 ++ it :: l2 →
  PlanQueue.index_of_uid (item_uid it) q = Some (length l1).
Proof.
  intros Hw Hi. eapply index_of_app; [exact Hi|]. unfold wf, uids in Hw.
  rewrite Hi in Hw. apply NoDup_middle in Hw as [Hw _]. rewrite fmap_app in Hw. set_solver.
Qed.

Lemma indexed_sorted (P : QueuedItem → Prop) `{∀ it, Decision (P it)} q pre l :
  wf q → PlanQueue.items q = pre ++ l →
  StronglySorted idx_le (indexed q <$> (item_uid <$> filter P l)).
Proof.
  intros Hw. revert pre. induction l as [|x l IH]; intros pre Hi; [constructor|].
  specialize (IH (pre ++ [x])). rewrite <-app_assoc in IH. specialize (IH Hi).
  destruct (decide (P x)); [|by rewrite filter_cons_False].
  rewrite filter_cons_True by done. constructor; [done|]. apply Forall_forall.
  intros ? (u & -> & (y & -> & [_ Hy]%list_elem_of_filter)%list_elem_of_fmap)%list_elem_of_fmap.
  apply list_elem_of_split in Hy as (l1 & l2 & ->). unfold indexed, idx_le. simpl.
  rewrite (index_of_wf q pre x (l1 ++ y :: l2)) by done.
  rewrite (index_of_wf q (pre ++ x :: l1) y l2) by (done || by rewrite <-app_assoc).
  simpl. rewrite length_app. lia.
Qed.

(** Reordering a batch gives its items in queue order. *)
Lemma queue_order_spec us q :
  wf q → NoDup us → (∀ u, u ∈ us → u ∈ uids q) →
  queue_order us q = item_uid <$> filter (λ it, item_uid it ∈ us) (PlanQueue.items q).
Proof.
  intros Hw Hnd Hin. unfold queue_order.
  assert (merge_sort idx_le (indexed q <$> us)
    = indexed q <$> (item_uid <$> filter (λ it, item_uid it ∈ us) (PlanQueue.items q))) as ->.
  { apply (StronglySorted_unique_strong idx_le).
    - intros x1 x2 Hx1 Hx2 Hle1 Hle2. rewrite merge_sort_Permutation in Hx1.
      apply list_elem_of_fmap in Hx1 as (u1 & -> & Hu1).
      apply list_elem_of_fmap in Hx2 as (u2 & -> & (it2 & -> & [_ Hi2]%list_elem_of_filter)
        %list_elem_of_fmap).
      apply Hin in Hu1. apply list_elem_of_fmap in Hu1 as (it1 & -> & Hi1).
      apply list_elem_of_split in Hi1 as (l1 & l2 & Hi1).
      apply list_elem_of_split in Hi2 as (k1 & k2 & Hi2).
      unfold indexed, idx_le in *. simpl in *.
      rewrite (index_of_wf q l1 it1 l2 Hw Hi1), (index_of_wf q k1 it2 k2 Hw Hi2) in Hle1, Hle2.
      simpl in Hle1, Hle2.
      rewrite Hi1 in Hi2. apply app_inj_1 in Hi2 as [_ Hi2]; [|lia]. by simplify_eq.
    - apply StronglySorted_merge_sort; unfold idx_le.
      + intros [] [] []; simpl. lia.
      + intros [] []; simpl. lia.
    - by apply (indexed_sorted _ q []).
    - rewrite merge_sort_Permutation. apply fmap_Permutation, NoDup_Permutation; [done|..].
      + by apply NoDup_key_filter.
      + intros u. rewrite list_elem_of_fmap. setoid_rewrite list_elem_of_filter. split.
        * intros Hu. pose proof (Hin u Hu) as (it & -> & Hit)%list_elem_of_fmap. eauto.
        * by intros (it & -> & ? & _). }
  rewrite <-list_fmap_compose. apply list_fmap_id.
Qed.

(** Every way a batch move ends: refused with the queue untouched, or the whole
    block stands, first item at its destination. *)
Definition block_moved (us : list string) (pos_dest : option Value)
  (before_uid after_uid : option string) (q q' : PlanQueue.t) : Prop :=
  match us with
  | [] => q' = q
  | uid :: rest =>
      ∃ k block, item_uid <$> block = us
        ∧ first_index uid pos_dest before_uid after_uid q k
        ∧ PlanQueue.items q' =
          without rest (take k (others uid (PlanQueue.items q))) ++ block
          ++ without rest (drop k (others uid (PlanQueue.items q)))
        ∧ PlanQueue.items q' ≡ₚ PlanQueue.items q
        ∧ PlanQueue.history q' = PlanQueue.history q
  end.

Lemma move_block_first us pos_dest b a s :
  wf (pq s) → NoDup us → (∀ u, u ∈ us → u ∈ uids (pq s)) →
  (∀ ref, b = Some ref ∨ a = Some ref → ref ∈ uids (pq s) ∧ ref ∉ us) →
  let '(res, s') := move_block pos_dest b a None us s in
  (∃ vals, res = Ok vals) ∧ block_moved us pos_dest b a (pq s) (pq s')
  ∧ uuids s' = uuids s + length us.
Proof.
  intros Hw Hnd Hin Href. destruct us as [|uid us]; simpl.
  { split_and!; [by eexists|done|lia]. }
  apply NoDup_cons in Hnd as [Hni Hnd].
  destruct (move_first_spec uid pos_dest b a s) as (it & k & Hit & Hiu & -> & Hk & Hfi);
    [done|apply Hin; left| |].
  { intros ref Hr. destruct (Href ref Hr) as [? Hr2]. split; [done|]. intros ->. apply Hr2. left. }
  pose proof (moved_to_perm k it (pq s) Hw Hit) as Hperm. rewrite Hiu in Hperm.
  pose proof (move_block_spec pos_dest b a us
    (take k (others uid (PlanQueue.items (pq s)))) [] it
    (drop k (others uid (PlanQueue.items (pq s))))
    (mkQ (S (uuids s)) (moved_to k it (next_uuid s) (pq s)))) as Hb.
  rewrite Hiu in Hb. simpl in Hb. rewrite Hiu in Hb.
  destruct (move_block pos_dest b a (Some uid) us _) as [res s'].
  destruct Hb as (new & Hnew & -> & Hi & Hp & Hh & Hu); [|done|done| |].
  - by apply moved_to_wf.
  - intros u Hu. split; [|set_solver]. unfold uids. simpl. rewrite Hiu, Hperm. apply Hin. by right.
  - split_and!; [by eexists| |simpl in *; lia]. exists k, (it :: new). split_and!; try done.
    + simpl. rewrite Hiu. f_equal. exact Hnew.
    + etrans; [exact Hp|]. done.
Qed.

Lemma move_batch_cases params s :
  wf (pq s) →
  let '(resp, s') := queue_item_move_batch params s in
  uuids s ≤ uuids s'
  ∧ (succeeded resp = false ∧ q_same s s'
     ∨ ∃ a ordered, succeeded resp = true ∧ get_array params "uids" = Some a
       ∧ NoDup (omap as_str a) ∧ (∀ u, u ∈ omap as_str a → u ∈ uids (pq s))
       ∧ ordered = (if default false (get_bool params "reorder")
                    then item_uid <$> filter (λ it, item_uid it ∈ omap as_str a)
                                        (PlanQueue.items (pq s))
                    else omap as_str a)
       ∧ block_moved ordered
           (value_get params "pos_dest" ≫= λ v, if is_null v then None else Some v)
           (get_str params "before_uid") (get_str params "after_uid") (pq s) (pq s')).
Proof.
  intros Hw. unfold queue_item_move_batch.
  destruct (get_array params "uids") as [a|]; [|split; [done|by left]].
  set (us := omap as_str a). cbv zeta.
  destruct (_ <? 1); [split; [done|by left]|]. destruct (1 <? _); [split; [done|by left]|].
  destruct (batch_error us _ _ (pq s)) eqn:He; [split; [done|by left]|].
  apply batch_error_None in He as (Hnd & Hin & Href).
  set (ordered := if default false (get_bool params "reorder") then queue_order us (pq s) else us).
  assert (ordered = if default false (get_bool params "reorder")
    then item_uid <$> filter (λ it, item_uid it ∈ us) (PlanQueue.items (pq s)) else us) as Hord.
  { unfold ordered. destruct (default _ _); [|done]. by apply queue_order_spec. }
  assert (NoDup ordered ∧ ∀ u, u ∈ ordered ↔ u ∈ us) as [Hond Hoin].
  { rewrite Hord. destruct (default _ _); [|done]. split; [by apply NoDup_key_filter|].
    intros u. rewrite list_elem_of_fmap. setoid_rewrite list_elem_of_filter. split.
    - by intros (it & -> & ? & _).
    - intros Hu. pose proof (Hin u Hu) as (it & -> & Hit)%list_elem_of_fmap. eauto. }
  clearbody ordered.
  pose proof (move_block_first ordered
    (value_get params "pos_dest" ≫= λ v, if is_null v then None else Some v)
    (get_str params "before_uid") (get_str params "after_uid") s Hw Hond) as Hb.
  change (match value_get params "pos_dest" with
          | Some v => if is_null v then None else Some v | None => None end)
    with (value_get params "pos_dest" ≫= λ v, if is_null v then None else Some v).
  destruct (move_block _ _ _ None ordered s) as [res s'].
  destruct Hb as ([vals ->] & Hb & Hu).
  { intros u Hu. by apply Hin, Hoin. }
  { intros ref Hr. destruct (Href ref Hr). rewrite Hoin. done. }
  rewrite succeeded_success. split; [lia|]. right. exists a, ordered. split_and!; try done.
Qed.

(** ** The handlers keep the queue well formed *)

Lemma on_queue_wf o (f : string → PlanQueue.t → option QueuedItem * PlanQueue.t) s :
  (∀ u, snd (f u (pq s)) = exec u o (pq s)) → brought o = [] → brings_fresh o (pq s) →
  q_wf s → q_wf (snd (on_queue f s)) ∧ uuids (snd (on_queue f s)) = S (uuids s).
Proof.
  intros Hf Hb Hfr Hw. unfold on_queue. specialize (Hf (next_uuid s)).
  destruct (f (next_uuid s) (pq s)) as [a q]. simpl in *. rewrite Hf. split; [|done].
  apply op_wf; [done|done|]. rewrite Hb. by intros ? ?%elem_of_nil.
Qed.

Lemma queue_item_add_wf r params s :
  q_wf s → q_wf (snd (queue_item_add r params s))
           ∧ uuids s ≤ uuids (snd (queue_item_add r params s)).
Proof.
  intros Hw. unfold queue_item_add. destruct (value_get params "item") as [item|]; [|done].
  destruct (get_str item "name") as [name|]; [|done]. destruct (positions params) as [[p b] a].
  destruct (ambiguous _); [done|]. destruct (build_item r (next_uuid s) item name) as [it|e] eqn:Hb;
    [|done].
  assert (item_uid it = uuid_v4 (uuids s)) as Hu.
  { unfold build_item in Hb. repeat case_match; simplify_eq; done. }
  set (queued := with_submitter _ _ it).
  assert (item_uid queued ∉ uids (pq (minted s))) as Hni.
  { simpl. rewrite Hu. destruct Hw as [_ Hf]. by apply Hf. }
  pose proof (insert_positioned_wf queued p b a (minted s) (uuids s) (minted_wf s Hw) Hu
    ltac:(simpl; lia) Hni) as Hw'.
  pose proof (insert_positioned_spec queued p b a (minted s)) as Hs.
  destruct (insert_positioned queued p b a (minted s)) as [res s']. simpl in Hw', Hs.
  assert (uuids s ≤ uuids s') by (case_match; [destruct Hs as (_&_&_&_&_&?)|
    destruct Hs as (_&_&?)]; lia).
  destruct res; done.
Qed.

Lemma queue_item_add_batch_wf r params s :
  q_wf s → q_wf (snd (queue_item_add_batch r params s))
           ∧ uuids s ≤ uuids (snd (queue_item_add_batch r params s)).
Proof.
  intros Hw. pose proof (add_batch_cases r params s Hw) as Hc.
  destruct (queue_item_add_batch r params s) as [resp s']. simpl.
  destruct Hc as [(_ & Hs & Hle)|(items & new & _ & _ & _ & Hnew & _ & Hle & Hc)].
  { split; [by apply (same_wf s)|done]. }
  split; [|lia]. destruct Hc as [[-> Hs]|(k & _ & Hi)]; [apply (same_wf s); done || lia|].
  destruct Hw as [Hw Hf]. pose proof (prepared_new s s new Hf eq_refl Hnew) as [Hnd Hni].
  assert (item_uid <$> PlanQueue.items (pq s') ≡ₚ (item_uid <$> new) ++ uids (pq s)) as Hp.
  { rewrite Hi, !fmap_app. unfold uids. rewrite (Permutation_app_comm (item_uid <$> take k _)).
    rewrite <-app_assoc. f_equiv. rewrite Permutation_app_comm, <-fmap_app. by rewrite take_drop. }
  split.
  - unfold wf, uids. rewrite Hp. apply NoDup_app. split_and!; [done| |done].
    intros u Hu. by apply Hni.
  - intros n Hn. unfold uids. rewrite Hp, elem_of_app, Hnew. intros [Hu|Hu].
    + apply list_elem_of_fmap in Hu as (m & Hm & Hlt%elem_of_seq).
      apply (inj uuid_v4) in Hm. lia.
    + apply (Hf n); [lia|done].
Qed.

Lemma queue_item_update_wf params s :
  q_wf s → q_wf (snd (queue_item_update params s))
           ∧ uuids s ≤ uuids (snd (queue_item_update params s)).
Proof.
  intros Hw. unfold queue_item_update. destruct (value_get params "item") as [item|]; [|done].
  destruct (get_str item "item_uid") as [uid|]; [|done].
  set (it := item_plan (next_uuid s) _ item). pose proof (minted_wf s Hw) as Hm.
  destruct (default false (get_bool params "replace")).
  - assert (q_wf (mkQ (S (S (uuids s))) (exec (next_uuid (minted s)) (OpReplaceAt uid it) (pq s))))
      as Hr.
    { apply (op_wf (OpReplaceAt uid it) (minted s)); [done|..].
      - destruct Hw as [_ Hf]. by apply Hf.
      - intros x ->%list_elem_of_singleton. exists (uuids s). split; [simpl; lia|done]. }
    unfold on_queue. simpl in Hr |- *.
    destruct (PlanQueue.replace_at_uid _ uid it (pq s)) as [[]]; simpl in *; split; done || lia.
  - assert (q_wf (mkQ (S (S (uuids s))) (exec (next_uuid (minted s)) (OpUpdate uid it) (pq s))))
      as Hr by (apply (op_wf (OpUpdate uid it) (minted s)); [done..|]; by intros ? ?%elem_of_nil).
    unfold on_queue. simpl in Hr |- *.
    destruct (PlanQueue.update _ uid it (pq s)) as [[]]; simpl in *; split; done || lia.
Qed.

Lemma queue_item_remove_wf params s :
  q_wf s → q_wf (snd (queue_item_remove params s))
           ∧ uuids s ≤ uuids (snd (queue_item_remove params s)).
Proof.
  intros Hw. unfold queue_item_remove. destruct (get_str params "uid") as [uid|]; [|done].
  destruct (on_queue_wf (OpRemove uid) (λ u, PlanQueue.remove_by_uid u uid) s) as [Hr Hu]; try done.
  destruct (on_queue _ s) as [[] s']; simpl in *; split; done || lia.
Qed.

Lemma remove_all_wf us s :
  q_wf s → q_wf (snd (remove_all us s)) ∧ uuids s ≤ uuids (snd (remove_all us s)).
Proof.
  revert s. induction us as [|uid us IH]; intros s Hw; [done|]. simpl.
  destruct (on_queue_wf (OpRemove uid) (λ u, PlanQueue.remove_by_uid u uid) s) as [Hr Hu]; try done.
  destruct (on_queue _ s) as [a s1]. simpl in *. specialize (IH s1 Hr).
  destruct (remove_all us s1) as [l s2]. simpl in *. split; [apply IH|lia].
Qed.

Lemma queue_item_remove_batch_wf params s :
  q_wf s → q_wf (snd (queue_item_remove_batch params s))
           ∧ uuids s ≤ uuids (snd (queue_item_remove_batch params s)).
Proof.
  intros Hw. unfold queue_item_remove_batch. destruct (get_array params "uids"); [|done].
  pose proof (remove_all_wf (omap as_str l) s Hw). by destruct (remove_all _ s).
Qed.

Lemma queue_item_move_wf params s :
  q_wf s → q_wf (snd (queue_item_move params s))
           ∧ uuids s ≤ uuids (snd (queue_item_move params s)).
Proof.
  intros Hw. unfold queue_item_move. destruct (get_str params "uid") as [uid|]; [|done].
  destruct (get_str params "before_uid") as [b|].
  { destruct (on_queue_wf (OpMoveBefore uid b) (λ u, PlanQueue.move_before_uid u uid b) s)
      as [Hr Hu]; try done.
    destruct (on_queue _ s) as [[] s']; simpl in *; split; done || lia. }
  destruct (get_str params "after_uid") as [b|].
  { destruct (on_queue_wf (OpMoveAfter uid b) (λ u, PlanQueue.move_after_uid u uid b) s)
      as [Hr Hu]; try done.
    destruct (on_queue _ s) as [[] s']; simpl in *; split; done || lia. }
  set (d := resolve_pos_q _ _).
  destruct (on_queue_wf (OpMoveTo uid d) (λ u, PlanQueue.move_to u uid d) s) as [Hr Hu]; try done.
  destruct (on_queue _ s) as [[] s']; simpl in *; split; done || lia.
Qed.

Lemma queue_item_move_batch_wf params s :
  q_wf s → q_wf (snd (queue_item_move_batch params s))
           ∧ uuids s ≤ uuids (snd (queue_item_move_batch params s)).
Proof.
  intros [Hw Hf]. pose proof (move_batch_cases params s Hw) as Hc.
  destruct (queue_item_move_batch params s) as [resp s']. simpl.
  destruct Hc as [Hle Hc]. split; [|done].
  destruct Hc as [[_ Hs]|(a & ordered & _ & _ & _ & _ & _ & Hb)]; [by apply (same_wf s)|].
  destruct ordered as [|u us]; simpl in Hb; [by apply (same_wf s)|].
  destruct Hb as (_ & _ & _ & _ & _ & Hp & _).
  split; [unfold wf, uids|unfold fresh, uids]; setoid_rewrite Hp; [done|].
  intros n Hn. apply Hf. lia.
Qed.
End queue_requests.

(** ** Theorems *)

Section theorems.
Context `{JsonNumber, !PlanLib, !TextFormat, !UuidSource}.
Notation Reg := (Registry Factory Device).
Implicit Types (s : Q) (params : Value).

(** A positioned insertion follows Python's index rules: it succeeds exactly when
    the reference exists or the position is well formed, puts the item at the
    specified index and mints the new queue UID; and on every error the queue is
    untouched. *)
Theorem insert_positioned_correct queued pos_val before_uid after_uid s :
  let '(res, s') := insert_positioned queued pos_val before_uid after_uid s in
  match insertion_index pos_val before_uid after_uid (PlanQueue.items (pq s)) with
  | Some k =>
      res = Ok ()
      ∧ PlanQueue.items (pq s') = vec_insert k queued (PlanQueue.items (pq s))
      ∧ PlanQueue.history (pq s') = PlanQueue.history (pq s)
      ∧ PlanQueue.queue_uid (pq s') = next_uuid s
  | None => (∃ e, res = Err e) ∧ pq s' = pq s
  end.
Proof.
  pose proof (insert_positioned_spec queued pos_val before_uid after_uid s) as Hs.
  destruct (insert_positioned _ _ _ _ s) as [res s'].
  destruct (insertion_index _ _ _ _); [|by destruct Hs as (? & ? & _)].
  by destruct Hs as (? & _ & ? & ? & ? & _).
Qed.

(** C18: A batch add is atomic and contiguous: it answers success only when every
    submitted item names a registered plan, and then the built items, in the
    submitted order, stand as one block at the requested position with the rest
    of the queue around it; any other answer leaves the queue untouched. *)
Theorem queue_item_add_batch_atomic (r : Reg) params s :
  q_wf s →
  let '(resp, s') := queue_item_add_batch r params s in
  if succeeded resp then
    ∃ items new, get_array params "items" = Some items
      ∧ Forall2 (λ v it, ∃ n, get_str v "name" = Some n ∧ is_Some (registry_plan n r)
          ∧ it = with_submitter (get_str params "user") (get_str params "user_group")
                   (item_plan (item_uid it) n v)) items new
      ∧ PlanQueue.history (pq s') = PlanQueue.history (pq s)
      ∧ (new = [] ∧ pq s' = pq s
         ∨ ∃ k, insertion_index (value_get params "pos") (get_str params "before_uid")
                  (get_str params "after_uid") (PlanQueue.items (pq s)) = Some k
                ∧ PlanQueue.items (pq s') =
                  take k (PlanQueue.items (pq s)) ++ new ++ drop k (PlanQueue.items (pq s)))
  else pq s' = pq s.
Proof.
  intros Hw. pose proof (add_batch_cases r params s Hw) as Hc.
  destruct (queue_item_add_batch r params s) as [resp s'].
  destruct Hc as [(-> & Hs & _)|(items & new & -> & Hi & Hn & _ & Hh & _ & Hb)]; [done|].
  by exists items, new.
Qed.

(** A batch move is atomic: once the checks pass no move of the block can fail;
    the named items stand as one contiguous block (in the given order, or in queue
    order when asked), the first one at the destination, every other item in its
    order around them, nothing lost or duplicated; and a refused batch leaves the
    queue untouched. *)
Theorem queue_item_move_batch_atomic params s :
  wf (pq s) →
  let '(resp, s') := queue_item_move_batch params s in
  if succeeded resp then
    ∃ a ordered, get_array params "uids" = Some a
      ∧ NoDup (omap as_str a)
      ∧ ordered = (if default false (get_bool params "reorder")
                   then item_uid <$> filter (λ it, item_uid it ∈ omap as_str a)
                                       (PlanQueue.items (pq s))
                   else omap as_str a)
      ∧ block_moved ordered
          (value_get params "pos_dest" ≫= λ v, if is_null v then None else Some v)
          (get_str params "before_uid") (get_str params "after_uid") (pq s) (pq s')
  else pq s' = pq s.
Proof.
  intros Hw. pose proof (move_batch_cases params s Hw) as Hc.
  destruct (queue_item_move_batch params s) as [resp s'].
  destruct Hc as [_ [[-> Hs]|(a & ordered & -> & Ha & Hnd & _ & Ho & Hb)]]; [done|].
  by exists a, ordered.
Qed.
End theorems.

(** ** Witnesses *)

Module ExOps.
Export Queue.Ex.
#[export] Instance sample_lib : PlanLib := {|
  Factory := nat; Device := nat; Plan := nat;
  inspect_dyn _ := VNull; plan_count _ _ := 0; call_external f _ _ := Ok f |}.
Definition reg : Registry Factory Device :=
  register_plan_count "count" registry_new.
Definition s0 : Q := mkQ 10 q.
Definition batch : Value :=
  json [("items", VArray [json [("name", VString "count")]; json [("name", VString "count")]]);
        ("pos", json_Z 1)].
Definition move : Value :=
  json [("uids", VArray [VString "c"; VString "a"]); ("after_uid", VString "b")].

Lemma s0_wf : q_wf s0.
Proof.
  split; [compute_decide|]. intros n Hn. unfold uids. simpl.
  rewrite !elem_of_cons, elem_of_nil. intros [Ha|[Ha|[Ha|[]]]]; discriminate Ha.
Qed.
End ExOps.
Import ExOps.

Example ex_batch :
  item_uid <$> PlanQueue.items (pq (snd (queue_item_add_batch reg batch s0)))
  = ["a"; "u10"; "u11"; "b"; "c"].
Proof. reflexivity. Qed.

Lemma queue_item_add_batch_atomic_witness :
  succeeded (fst (queue_item_add_batch reg batch s0)) = true
  ∧ PlanQueue.history (pq (snd (queue_item_add_batch reg batch s0))) = [].
Proof.
  assert (succeeded (fst (queue_item_add_batch reg batch s0)) = true) as Hs by reflexivity.
  split; [exact Hs|]. pose proof (queue_item_add_batch_atomic reg batch s0 s0_wf) as H.
  destruct (queue_item_add_batch reg batch s0) as [resp s']. simpl in Hs |- *.
  rewrite Hs in H. destruct H as (? & ? & _ & _ & Hh & _). exact Hh.
Defined.

Lemma queue_item_move_batch_atomic_witness :
  item_uid <$> PlanQueue.items (pq (snd (queue_item_move_batch move s0))) = ["b"; "c"; "a"]
  ∧ ∃ k : nat, first_index "c" None None (Some "b") (pq s0) k.
Proof.
  split; [reflexivity|].
  assert (succeeded (fst (queue_item_move_batch move s0)) = true) as Hs by reflexivity.
  pose proof (queue_item_move_batch_atomic move s0 (proj1 s0_wf)) as H.
  destruct (queue_item_move_batch move s0) as [resp s']. simpl in Hs. rewrite Hs in H.
  destruct H as (a & ordered & Ha & _ & Ho & Hb). injection Ha as <-. rewrite Ho in Hb.
  destruct Hb as (k & _ & _ & Hk & _). exists k. exact Hk.
Defined.
