(* ===== verification/Control.v ===== *)
(** * The engine's control plane ([engine/run_engine.rs])

    The flags, counters and wake-ups a pause, resume, suspension, stop, abort,
    halt or Ctrl-C touches, what the run loop does to consume those requests, and
    the interleavings of the two sides. Every method of the code is one atomic
    step; the start of a run is three, cut where another thread's request can
    make a difference. *)

From S2P Require Import Prelude Interfaces Errors.

(** ** Data *)

(** [EngineRunState] *)
Inductive EngineRunState := RIdle | RRunning | RPaused | RAborting | RHalting.

#[global] Instance EngineRunState_eq_dec : EqDecision EngineRunState.
Proof. solve_decision. Defined.

(** A cancellation token; a renewed one has another identity. *)
Record Token := mkToken { tok_id : nat; tok_cancelled : bool }.

(** A suspender's plan factory, by its identity. *)
Definition SuspendCallback := nat.

Record Suspension := mkSuspension {
  justification : string;
  susp_pre_plan : option SuspendCallback;
  susp_post_plan : option SuspendCallback;
}.

(** [Notify] fields count the [notify_waiters] calls: a waiter registered at count
    [p] is woken once the count has moved on. *)
Record RunControl := mkControl {
  is_running : bool;
  is_paused : bool;
  permit : nat;
  pause_notify : nat;
  cancel : Token;
  pause_seq : Z;
  pending_suspend : option Suspension;
  holds : Z;
  manual_pause : bool;
  run_gen : Z;
}.

(** The control fields of [RunEngine]; [watcher] says that the SIGINT task runs. *)
Record Control := mkEngine {
  ctl : RunControl;
  deferred_pause : bool;
  is_aborting : bool;
  is_halting : bool;
  is_stopping : bool;
  interrupt_seq : Z;
  interrupt_reason : string;
  sigint_count : Z;
  signal_installed : bool;
  watcher : bool;
}.

(** Field stores. *)
Definition rc_set_is_running (v : bool) (c : RunControl) : RunControl :=
  mkControl v (is_paused c) (permit c) (pause_notify c) (cancel c) (pause_seq c)
    (pending_suspend c) (holds c) (manual_pause c) (run_gen c).
Definition rc_set_is_paused (v : bool) (c : RunControl) : RunControl :=
  mkControl (is_running c) v (permit c) (pause_notify c) (cancel c) (pause_seq c)
    (pending_suspend c) (holds c) (manual_pause c) (run_gen c).
Definition rc_set_permit (v : nat) (c : RunControl) : RunControl :=
  mkControl (is_running c) (is_paused c) v (pause_notify c) (cancel c) (pause_seq c)
    (pending_suspend c) (holds c) (manual_pause c) (run_gen c).
Definition rc_set_pause_notify (v : nat) (c : RunControl) : RunControl :=
  mkControl (is_running c) (is_paused c) (permit c) v (cancel c) (pause_seq c)
    (pending_suspend c) (holds c) (manual_pause c) (run_gen c).
Definition rc_set_cancel (v : Token) (c : RunControl) : RunControl :=
  mkControl (is_running c) (is_paused c) (permit c) (pause_notify c) v (pause_seq c)
    (pending_suspend c) (holds c) (manual_pause c) (run_gen c).
Definition rc_set_pause_seq (v : Z) (c : RunControl) : RunControl :=
  mkControl (is_running c) (is_paused c) (permit c) (pause_notify c) (cancel c) v
    (pending_suspend c) (holds c) (manual_pause c) (run_gen c).
Definition rc_set_pending_suspend (v : option Suspension) (c : RunControl) : RunControl :=
  mkControl (is_running c) (is_paused c) (permit c) (pause_notify c) (cancel c)
    (pause_seq c) v (holds c) (manual_pause c) (run_gen c).
Definition rc_set_holds (v : Z) (c : RunControl) : RunControl :=
  mkControl (is_running c) (is_paused c) (permit c) (pause_notify c) (cancel c)
    (pause_seq c) (pending_suspend c) v (manual_pause c) (run_gen c).
Definition rc_set_manual_pause (v : bool) (c : RunControl) : RunControl :=
  mkControl (is_running c) (is_paused c) (permit c) (pause_notify c) (cancel c)
    (pause_seq c) (pending_suspend c) (holds c) v (run_gen c).
Definition rc_set_run_gen (v : Z) (c : RunControl) : RunControl :=
  mkControl (is_running c) (is_paused c) (permit c) (pause_notify c) (cancel c)
    (pause_seq c) (pending_suspend c) (holds c) (manual_pause c) v.

Definition set_ctl (v : RunControl) (e : Control) : Control :=
  mkEngine v (deferred_pause e) (is_aborting e) (is_halting e) (is_stopping e)
    (interrupt_seq e) (interrupt_reason e) (sigint_count e) (signal_installed e) (watcher
    e).
Definition set_deferred_pause (v : bool) (e : Control) : Control :=
  mkEngine (ctl e) v (is_aborting e) (is_halting e) (is_stopping e) (interrupt_seq e)
    (interrupt_reason e) (sigint_count e) (signal_installed e) (watcher e).
Definition set_is_aborting (v : bool) (e : Control) : Control :=
  mkEngine (ctl e) (deferred_pause e) v (is_halting e) (is_stopping e) (interrupt_seq e)
    (interrupt_reason e) (sigint_count e) (signal_installed e) (watcher e).
Definition set_is_halting (v : bool) (e : Control) : Control :=
  mkEngine (ctl e) (deferred_pause e) (is_aborting e) v (is_stopping e) (interrupt_seq
    e) (interrupt_reason e) (sigint_count e) (signal_installed e) (watcher e).
Definition set_is_stopping (v : bool) (e : Control) : Control :=
  mkEngine (ctl e) (deferred_pause e) (is_aborting e) (is_halting e) v (interrupt_seq e)
    (interrupt_reason e) (sigint_count e) (signal_installed e) (watcher e).
Definition set_interrupt_seq (v : Z) (e : Control) : Control :=
  mkEngine (ctl e) (deferred_pause e) (is_aborting e) (is_halting e) (is_stopping e) v
    (interrupt_reason e) (sigint_count e) (signal_installed e) (watcher e).
Definition set_interrupt_reason (v : string) (e : Control) : Control :=
  mkEngine (ctl e) (deferred_pause e) (is_aborting e) (is_halting e) (is_stopping e)
    (interrupt_seq e) v (sigint_count e) (signal_installed e) (watcher e).
Definition set_sigint_count (v : Z) (e : Control) : Control :=
  mkEngine (ctl e) (deferred_pause e) (is_aborting e) (is_halting e) (is_stopping e)
    (interrupt_seq e) (interrupt_reason e) v (signal_installed e) (watcher e).
Definition set_signal_installed (v : bool) (e : Control) : Control :=
  mkEngine (ctl e) (deferred_pause e) (is_aborting e) (is_halting e) (is_stopping e)
    (interrupt_seq e) (interrupt_reason e) (sigint_count e) v (watcher e).
Definition set_watcher (v : bool) (e : Control) : Control :=
  mkEngine (ctl e) (deferred_pause e) (is_aborting e) (is_halting e) (is_stopping e)
    (interrupt_seq e) (interrupt_reason e) (sigint_count e) (signal_installed e) v.

Definition new_token (t : Token) : Token := mkToken (S (tok_id t)) false.
Definition cancelled_token (t : Token) : Token := mkToken (tok_id t) true.

(** ** [RunControl] *)

Definition control_new : RunControl :=
  mkControl false false 0 0 (mkToken 0 false) 0 None 0 false 0.

Definition reset_for_run (c : RunControl) : RunControl :=
  let c := rc_set_run_gen (wrap64 (run_gen c + 1)) c in
  let c := rc_set_is_paused false c in
  let c := rc_set_manual_pause false c in
  let c := rc_set_holds 0 c in
  let c := rc_set_pending_suspend None c in
  rc_set_cancel (new_token (cancel c)) c.

Definition mark_paused (c : RunControl) : RunControl :=
  let c := rc_set_is_paused true c in
  let c := rc_set_pause_seq (wrap64 (pause_seq c + 1)) c in
  let c := rc_set_cancel (cancelled_token (cancel c)) c in
  rc_set_pause_notify (S (pause_notify c)) c.

Definition rc_pause (c : RunControl) : RunControl := mark_paused (rc_set_manual_pause true c).

Definition wake (c : RunControl) : RunControl :=
  let c := rc_set_is_paused false c in
  rc_set_permit (S (permit c)) c.

Definition rc_resume (c : RunControl) : RunControl := wake (rc_set_manual_pause false c).

(** [request_suspend]: the state and the generation its release task carries. *)
Definition request_suspend (s : Suspension) (c : RunControl) : RunControl * Z :=
  let c := rc_set_pending_suspend (Some s) c in
  let c := rc_set_holds (wrap64 (holds c + 1)) c in
  let gen := run_gen c in
  (mark_paused c, gen).

Definition release (gen : Z) (c : RunControl) : RunControl :=
  if negb (gen =? run_gen c)%Z then c else
  let before := holds c in
  let c := rc_set_holds (sat_sub64 (holds c) 1) c in
  if (before <=? 1)%Z && negb (manual_pause c) then wake c else c.

(** ** [RunEngine] *)

Definition engine_new : Control :=
  mkEngine control_new false false false false 0 "" 0 false false.

Definition engine_state (e : Control) : EngineRunState :=
  if is_halting e then RHalting
  else if is_aborting e then RAborting
  else if is_paused (ctl e) then RPaused
  else if is_running (ctl e) then RRunning
  else RIdle.

Definition request_interrupt (e : Control) : Control :=
  let e := set_interrupt_seq (wrap64 (interrupt_seq e + 1)) e in
  let e := set_ctl (rc_set_cancel (cancelled_token (cancel (ctl e))) (ctl e)) e in
  set_ctl (wake (ctl e)) e.

Definition pause (defer : bool) (e : Control) : Control :=
  if defer then set_deferred_pause true e else set_ctl (rc_pause (ctl e)) e.

Definition resume (e : Control) : Control := set_ctl (rc_resume (ctl e)) e.

Definition abort (reason : string) (e : Control) : Control :=
  let e := set_interrupt_reason reason e in
  let e := set_is_aborting true e in
  let e := set_is_stopping false e in
  request_interrupt e.

Definition halt (reason : string) (e : Control) : Control :=
  let e := set_interrupt_reason reason e in
  let e := set_is_halting true e in
  let e := set_is_aborting true e in
  request_interrupt e.

Definition stop (e : Control) : Control :=
  let e := set_is_stopping true e in
  let e := set_is_aborting true e in
  request_interrupt e.

Definition stop_reason (e : Control) : option string :=
  if String.eqb (interrupt_reason e) EmptyString then None else Some (interrupt_reason e).

(** [install_signal_handler] and one Ctrl-C seen by the task it spawned. *)
Definition install_signal_handler (e : Control) : Control :=
  if signal_installed e then e else set_watcher true (set_signal_installed true e).

Definition sigint (e : Control) : Control :=
  if negb (watcher e) then e else
  let n := (sigint_count e + 1)%Z in
  let e := set_sigint_count (n `mod` 256)%Z e in
  if (n =? 1)%Z then pause false e
  else if (n =? 2)%Z then abort "user abort" e
  else set_watcher false (halt "user halt" e).

(** ** What the run loop consumes *)

Inductive InterruptRequest := Halt | Throw (kind : Interrupt).

Definition take_interrupt (thrown_seq : Z) (e : Control)
  : option InterruptRequest * Z * Control :=
  let seq := interrupt_seq e in
  if (seq =? thrown_seq)%Z then (None, thrown_seq, e) else
  let e := set_ctl (rc_set_cancel (new_token (cancel (ctl e))) (ctl e)) e in
  (Some (if is_halting e then Halt
         else if is_stopping e then Throw IStop
         else Throw IAbort), seq, e).

Definition interrupt_pending (thrown_seq : Z) (e : Control) : bool :=
  negb (interrupt_seq e =? thrown_seq)%Z.

Definition pause_pending (pause_seen : Z) (e : Control) : bool :=
  negb (pause_seq (ctl e) =? pause_seen)%Z.

Definition ack_pause (pause_seen : Z) (e : Control) : Z * Control :=
  let seq := pause_seq (ctl e) in
  if (seq =? pause_seen)%Z then (pause_seen, e)
  else (seq, set_ctl (rc_set_cancel (new_token (cancel (ctl e))) (ctl e)) e).

(** A [Checkpoint] applies a deferred pause. *)
Definition apply_deferred (e : Control) : Control :=
  if deferred_pause e then
    let e := set_deferred_pause false e in
    set_ctl (rc_pause (ctl e)) e
  else e.

(** ** Interleavings

    One engine and the threads that send it requests. [thrown] and [seen] are the
    run loop's locals [thrown_seq] and [pause_seen]; [phase] is where its task
    is: not running, in the first steps of [run_async], in the loop, in the pause
    gate with its waiter registered at count [p], or parked there. [tasks] are
    the generations of the suspensions' release tasks still waiting. *)

Inductive Phase := NoRun | Claimed | Fresh | Looping | Armed (p : nat) | Parked (p : nat).

Record Sys := mkSys {
  eng : Control;
  thrown : Z;
  seen : Z;
  phase : Phase;
  tasks : list Z;
}.

Inductive op :=
(* requests *)
| OPause (defer : bool) | OResume | OAbort (reason : string) | OHalt (reason : string)
| OStop | OSuspend (s : Suspension) | ORelease (k : nat) | OSigint | OInstall
(* the run loop *)
| LClaim | LReset | LSeen | LCheckpoint | LTake | LArm | LCheck | LWake | LTimeout | LEnd.

Definition is_request (o : op) : bool :=
  match o with
  | OPause _ | OResume | OAbort _ | OHalt _ | OStop | OSuspend _ | ORelease _
  | OSigint | OInstall => true
  | _ => false
  end.

Definition with_eng (e : Control) (s : Sys) : Sys :=
  mkSys e (thrown s) (seen s) (phase s) (tasks s).

(** Claim the engine: the compare-exchange, the flag resets, the interrupt count
    remembered. *)
Definition run_claim (s : Sys) : option Sys :=
  if is_running (ctl (eng s)) then None else
  let e := set_ctl (rc_set_is_running true (ctl (eng s))) (eng s) in
  let e := set_is_stopping false (set_is_halting false (set_is_aborting false e)) in
  let thrown_seq := interrupt_seq e in
  Some (mkSys (set_interrupt_reason EmptyString e) thrown_seq (seen s) Claimed (tasks s)).

(** [ctl.reset_for_run()] *)
Definition run_reset (s : Sys) : Sys :=
  mkSys (set_ctl (reset_for_run (ctl (eng s))) (eng s)) (thrown s) (seen s) Fresh (tasks s).

(** The pause count remembered; the loop is entered. *)
Definition run_seen (s : Sys) : Sys :=
  mkSys (set_sigint_count 0 (set_deferred_pause false (eng s))) (thrown s)
    (pause_seq (ctl (eng s))) Looping (tasks s).

(** Enter the pause gate: register the waiter, acknowledge the request, take the
    suspension. *)
Definition gate_arm (s : Sys) : option Sys :=
  if pause_pending (seen s) (eng s) then
    let p := permit (ctl (eng s)) in
    let '(seen', e) := ack_pause (seen s) (eng s) in
    let e := set_ctl (rc_set_pending_suspend None (ctl e)) e in
    Some (mkSys e (thrown s) seen' (Armed p) (tasks s))
  else None.

(** The rest of a pass through the gate once the wait is over. *)
Definition gate_leave (s : Sys) : Sys :=
  let '(seen', e) := ack_pause (seen s) (eng s) in
  mkSys e (thrown s) seen' Looping (tasks s).

Definition loop_step (o : op) (s : Sys) : option Sys :=
  match o, phase s with
  | LClaim, NoRun => run_claim s
  | LReset, Claimed => Some (run_reset s)
  | LSeen, Fresh => Some (run_seen s)
  | LCheckpoint, Looping => Some (with_eng (apply_deferred (eng s)) s)
  | LTake, Looping =>
      let '(_, thrown', e) := take_interrupt (thrown s) (eng s) in
      Some (mkSys e thrown' (seen s) Looping (tasks s))
  | LArm, Looping => gate_arm s
  | LCheck, Armed p =>
      if is_paused (ctl (eng s)) then Some (mkSys (eng s) (thrown s) (seen s) (Parked p) (tasks s))
      else Some (gate_leave s)
  | LWake, Parked p =>
      if decide (permit (ctl (eng s)) = p) then None else Some (gate_leave s)
  | LTimeout, (Looping | Armed _ | Parked _) =>
      let e := eng s in
      let e := set_ctl (rc_set_cancel (cancelled_token (cancel (ctl e))) (ctl e)) e in
      let e := set_ctl (rc_set_is_running false (ctl e)) e in
      Some (mkSys e (thrown s) (seen s) NoRun (tasks s))
  | LEnd, Looping =>
      let e := set_ctl (rc_set_is_running false (ctl (eng s))) (eng s) in
      Some (mkSys e (thrown s) (seen s) NoRun (tasks s))
  | _, _ => None
  end.

Definition step (o : op) (s : Sys) : option Sys :=
  match o with
  | OPause defer => Some (with_eng (pause defer (eng s)) s)
  | OResume => Some (with_eng (resume (eng s)) s)
  | OAbort r => Some (with_eng (abort r (eng s)) s)
  | OHalt r => Some (with_eng (halt r (eng s)) s)
  | OStop => Some (with_eng (stop (eng s)) s)
  | OSuspend su =>
      let '(c, gen) := request_suspend su (ctl (eng s)) in
      Some (mkSys (set_ctl c (eng s)) (thrown s) (seen s) (phase s) (tasks s ++ [gen]))
  | ORelease k =>
      gen ← tasks s !! k;
      Some (mkSys (set_ctl (release gen (ctl (eng s))) (eng s)) (thrown s) (seen s) (phase s)
              (delete k (tasks s)))
  | OSigint => Some (with_eng (sigint (eng s)) s)
  | OInstall => Some (with_eng (install_signal_handler (eng s)) s)
  | _ => loop_step o s
  end.

Fixpoint run (os : list op) (s : Sys) : option Sys :=
  match os with
  | [] => Some s
  | o :: os => s' ← step o s; run os s'
  end.

Definition sys_init : Sys := mkSys engine_new 0 0 NoRun [].

(** [reach ok n s]: the system can be in [s] after [n] steps, each allowed by
    [ok]. *)
Inductive reach (ok : op → Sys → Prop) : nat → Sys → Prop :=
| reach_init : reach ok 0 sys_init
| reach_step n s o s' :
    reach ok n s → ok o s → step o s = Some s' → reach ok (S n) s'.

(** An operation that may request an immediate pause. *)
Definition pauses (o : op) : bool :=
  match o with OPause false | OSuspend _ | OSigint => true | _ => false end.

(** No pause request falls between [reset_for_run] and the read of [pause_seq]. *)
Definition calm (o : op) (s : Sys) : Prop := phase s = Fresh → pauses o = false.
Definition any_step (_ : op) (_ : Sys) : Prop := True.

(** The release tasks of the current run's suspensions. *)
Definition live_holds (s : Sys) : nat :=
  length (filter (λ g, g = run_gen (ctl (eng s))) (tasks s)).

Definition u64_steps (n : nat) : Prop := (Z.of_nat n < u64_max)%Z.

(** ** Invariants *)

(** A 64-bit counter [a] that has counted [n] requests since it read [b]. *)
Definition counted (k : nat) (a b : Z) (n : Z) : Prop :=
  (0 ≤ n ≤ Z.of_nat k ∧ in_u64 a ∧ in_u64 b ∧ a = wrap64 (b + n))%Z.

Definition looping (p : Phase) : bool :=
  match p with Looping | Armed _ | Parked _ => true | _ => false end.

(** The counters against what the loop has seen of them: in the loop, a cancelled
    token is explained by a request outstanding. *)
Record counters (k : nat) (s : Sys) (n m : Z) : Prop := {
  c_int : counted k (interrupt_seq (eng s)) (thrown s) n;
  c_pause : counted k (pause_seq (ctl (eng s))) (seen s) m;
  c_cancel : looping (phase s) = true → tok_cancelled (cancel (ctl (eng s))) = true →
             (0 < n ∨ 0 < m)%Z;
  c_fresh : phase s = Fresh → tok_cancelled (cancel (ctl (eng s))) = true → (0 < n)%Z;
}.

Record gate_ok (s : Sys) : Prop := {
  g_le : ∀ p, phase s = Armed p ∨ phase s = Parked p → p ≤ permit (ctl (eng s));
  g_parked : ∀ p, phase s = Parked p → permit (ctl (eng s)) = p →
             is_paused (ctl (eng s)) = true;
}.

Record holds_ok (k : nat) (s : Sys) : Prop := {
  h_count : holds (ctl (eng s)) = Z.of_nat (live_holds s);
  h_gen : (0 ≤ run_gen (ctl (eng s)) ≤ Z.of_nat k)%Z;
  h_tasks : Forall (λ g, (0 ≤ g ≤ run_gen (ctl (eng s)))%Z) (tasks s);
  h_len : length (tasks s) ≤ k;
}.

(** ** Lemmas *)

Lemma counted_mono k a b n : counted k a b n → counted (S k) a b n.
Proof. unfold counted. intros (?&?&?&?). split_and!; try done; lia. Qed.

Lemma counted_incr k a b n : counted k a b n → counted (S k) (wrap64 (a + 1)) b (n + 1).
Proof.
  unfold counted. intros (?&?&?&->). split_and!; try done; try lia; [apply wrap64_range|].
  unfold wrap64. rewrite Z.add_mod_idemp_l by lia. by rewrite Z.add_assoc.
Qed.

Lemma counted_refl k a : in_u64 a → counted k a a 0.
Proof.
  unfold counted. intros Ha. split_and!; try done; [lia|]. rewrite Z.add_0_r.
  by rewrite wrap64_small.
Qed.

(** Fewer than 2^64 requests are never mistaken for none. *)
Lemma counted_ne k a b n : counted k a b n → u64_steps k → (0 < n)%Z → a ≠ b.
Proof.
  unfold counted, u64_steps, in_u64, wrap64, u64_max. intros (?&?&?&->) Hk Hn.
  intros Heq. destruct (decide (b + n < 18446744073709551616)%Z).
  - rewrite Z.mod_small in Heq by lia. lia.
  - rewrite <-(Z.mod_add _ (-1)), Z.mod_small in Heq by lia. lia.
Qed.

(** What a request does to the fields the loop reads. *)
Lemma request_effect o s s' :
  is_request o = true → step o s = Some s' →
  ∃ i p : bool,
    interrupt_seq (eng s') =
      (if i then wrap64 (interrupt_seq (eng s) + 1) else interrupt_seq (eng s))
    ∧ pause_seq (ctl (eng s')) =
      (if p then wrap64 (pause_seq (ctl (eng s)) + 1) else pause_seq (ctl (eng s)))
    ∧ tok_cancelled (cancel (ctl (eng s'))) =
      tok_cancelled (cancel (ctl (eng s))) || i || p
    ∧ thrown s' = thrown s ∧ seen s' = seen s ∧ phase s' = phase s
    ∧ (p = true → pauses o = true)
    ∧ (permit (ctl (eng s')) = permit (ctl (eng s))
         ∧ (is_paused (ctl (eng s)) = true → is_paused (ctl (eng s')) = true)
       ∨ permit (ctl (eng s')) = S (permit (ctl (eng s))))
    ∧ run_gen (ctl (eng s')) = run_gen (ctl (eng s))
    ∧ is_running (ctl (eng s')) = is_running (ctl (eng s))
    ∧ (is_halting (eng s) = true → is_halting (eng s') = true).
Proof.
  intros Hr Hs. destruct o; try done; simpl in Hs; simplify_eq; simpl.
  - destruct defer; [exists false, false|exists false, true]; simpl;
      rewrite ?orb_false_r, ?orb_true_r; split_and!; auto.
  - exists false, false. simpl. rewrite !orb_false_r. split_and!; auto.
  - exists true, false. simpl. rewrite orb_true_r. split_and!; auto.
  - exists true, false. simpl. rewrite orb_true_r. split_and!; auto.
  - exists true, false. simpl. rewrite orb_true_r. split_and!; auto.
  - exists false, true. simpl. rewrite orb_true_r. split_and!; auto.
  - destruct (tasks s !! k) as [gen|]; simplify_eq/=. exists false, false.
    unfold release. case_match; simpl; [rewrite !orb_false_r; split_and!; auto|].
    case_match; simpl; rewrite !orb_false_r; split_and!; auto.
  - unfold sigint. destruct (watcher (eng s)); simpl;
      [|exists false, false; rewrite !orb_false_r; split_and!; auto].
    case_match; [exists false, true; simpl; rewrite orb_true_r; split_and!; auto|].
    case_match; exists true, false; simpl; rewrite orb_true_r; split_and!; auto.
  - unfold install_signal_handler. exists false, false. rewrite !orb_false_r.
    case_match; simpl; split_and!; auto.
Qed.

Lemma counters_init : counters 0 sys_init 0 0.
Proof.
  split; try done; simpl; apply counted_refl; unfold in_u64, u64_max; lia.
Qed.

Lemma counters_request k s n m o s' :
  counters k s n m → calm o s → is_request o = true → step o s = Some s' →
  ∃ n' m', counters (S k) s' n' m' ∧ (n ≤ n')%Z ∧ (m ≤ m')%Z.
Proof.
  intros [Hi Hp Hc Hf] Hcalm Hr Hs.
  destruct (request_effect o s s' Hr Hs)
    as (i & p & Hi' & Hp' & Hc' & Ht & Hse & Hph & Hpo & _).
  exists (if i then n + 1 else n)%Z, (if p then m + 1 else m)%Z.
  pose proof (counted_incr _ _ _ _ Hi). pose proof (counted_incr _ _ _ _ Hp).
  pose proof (counted_mono _ _ _ _ Hi). pose proof (counted_mono _ _ _ _ Hp).
  unfold counted in Hi, Hp.
  split; [split|by destruct i, p; lia].
  - rewrite Hi', Ht. by destruct i.
  - rewrite Hp', Hse. by destruct p.
  - rewrite Hph, Hc'. intros Hl. specialize (Hc Hl).
    destruct (tok_cancelled _), i, p; simpl; intros; try done; naive_solver lia.
  - rewrite Hph, Hc'. intros Hl. specialize (Hf Hl). specialize (Hcalm Hl).
    destruct p; [naive_solver congruence|].
    destruct (tok_cancelled _), i; simpl; intros; try done; naive_solver lia.
Qed.

Lemma counters_loop k s n m o s' :
  counters k s n m → is_request o = false → step o s = Some s' →
  ∃ n' m', counters (S k) s' n' m'.
Proof.
  intros [Hi Hp Hc Hf] Hr Hs.
  pose proof (counted_mono _ _ _ _ Hi) as Hi1. pose proof (counted_mono _ _ _ _ Hp) as Hp1.
  pose proof (counted_incr _ _ _ _ Hp) as Hp2.
  assert (in_u64 (interrupt_seq (eng s))) as Hiu by (unfold counted in Hi; naive_solver).
  assert (in_u64 (pause_seq (ctl (eng s)))) as Hpu by (unfold counted in Hp; naive_solver).
  pose proof (counted_refl (S k) _ Hiu) as Hi0. pose proof (counted_refl (S k) _ Hpu) as Hp0.
  assert (0 ≤ m)%Z as Hm by (unfold counted in Hp; lia).
  destruct o; try done; simpl in Hs; destruct (phase s) as [| | | |p|p] eqn:Hph;
    simplify_eq/=.
  - unfold run_claim in Hs. case_match; simplify_eq/=.
    exists 0%Z, m. split; simpl; done.
  - exists n, m. split; simpl; done.
  - exists n, 0%Z. split; simpl; try done. intros _ Ht. specialize (Hf eq_refl Ht). by left.
  - unfold apply_deferred. destruct (deferred_pause (eng s)) eqn:Hd; simpl.
    + exists n, (m + 1)%Z. split; simpl; rewrite ?Hph; try done; intros; lia.
    + exists n, m. split; simpl; rewrite ?Hph; try done; by apply Hc.
  - unfold take_interrupt in Hs. destruct (Z.eqb_spec (interrupt_seq (eng s)) (thrown s)) as [He|He];
      simplify_eq/=.
    + exists n, m. split; simpl; try done; by apply Hc.
    + exists 0%Z, m. split; simpl; done.
  - unfold gate_arm, ack_pause, pause_pending in Hs.
    destruct (Z.eqb_spec (pause_seq (ctl (eng s))) (seen s)) as [He|He]; simplify_eq/=.
    exists n, 0%Z. split; simpl; done.
  - case_match; simplify_eq/=; [exists n, m; split; simpl; try done; by apply Hc|].
    unfold gate_leave, ack_pause.
    destruct (Z.eqb_spec (pause_seq (ctl (eng s))) (seen s)) as [He|He]; simpl.
    + exists n, m. split; simpl; try done; by apply Hc.
    + exists n, 0%Z. split; simpl; done.
  - case_decide; simplify_eq/=. unfold gate_leave, ack_pause.
    destruct (Z.eqb_spec (pause_seq (ctl (eng s))) (seen s)) as [He|He]; simpl.
    + exists n, m. split; simpl; try done; by apply Hc.
    + exists n, 0%Z. split; simpl; done.
  - exists n, m. split; simpl; done.
  - exists n, m. split; simpl; done.
  - exists n, m. split; simpl; done.
  - exists n, m. split; simpl; done.
Qed.

Lemma reach_counters n s : reach calm n s → ∃ i p, counters n s i p.
Proof.
  induction 1 as [|n s o s' _ (i & p & IH) Hcalm Hs]; [eexists _, _; apply counters_init|].
  destruct (is_request o) eqn:Hr.
  - destruct (counters_request _ _ _ _ _ _ IH Hcalm Hr Hs) as (? & ? & ? & _). eauto.
  - by eapply counters_loop.
Qed.

Lemma gate_ok_other s : (∀ p, phase s ≠ Armed p ∧ phase s ≠ Parked p) → gate_ok s.
Proof. intros Hp. split; intros p; pose proof (Hp p); naive_solver. Qed.

Lemma gate_ok_step o s s' : gate_ok s → step o s = Some s' → gate_ok s'.
Proof.
  intros [Hle Hok] Hs. destruct (is_request o) eqn:Hr.
  - destruct (request_effect o s s' Hr Hs)
      as (i & q & _ & _ & _ & _ & _ & Hph & _ & Hper & _).
    split; intros p; rewrite Hph.
    + intros Hp. specialize (Hle p Hp). destruct Hper as [[-> _] | ->]; lia.
    + intros Hp. specialize (Hle p (or_intror Hp)). destruct Hper as [[-> Hpa] | ->]; [|lia].
      intros Hpe. by apply Hpa, (Hok p).
  - destruct o; try done; simpl in Hs; destruct (phase s) as [| | | |p|p] eqn:Hph;
      simplify_eq/=; try by apply gate_ok_other.
    + unfold run_claim in Hs. case_match; simplify_eq. by apply gate_ok_other.
    + apply gate_ok_other. intros. simpl. by rewrite Hph.
    + destruct (take_interrupt _ _) as [[? ?] ?]. simplify_eq. by apply gate_ok_other.
    + unfold gate_arm, ack_pause in Hs. repeat case_match; simplify_eq;
        split; simpl; naive_solver.
    + case_match; simplify_eq.
      * split; simpl; naive_solver.
      * unfold gate_leave. destruct (ack_pause _ _). by apply gate_ok_other.
    + case_decide; simplify_eq. unfold gate_leave. destruct (ack_pause _ _).
      by apply gate_ok_other.
Qed.

Lemma reach_gate_ok ok n s : reach ok n s → gate_ok s.
Proof.
  induction 1 as [|n s o s' _ IH _ Hs]; [by apply gate_ok_other|].
  by eapply gate_ok_step.
Qed.

Lemma holds_ok_same k s s' :
  holds_ok k s → holds (ctl (eng s')) = holds (ctl (eng s)) →
  run_gen (ctl (eng s')) = run_gen (ctl (eng s)) → tasks s' = tasks s → holds_ok (S k) s'.
Proof.
  intros [Hc Hg Ht Hl] Hh Hr Htk. unfold live_holds in *. split; unfold live_holds;
    rewrite ?Hh, ?Hr, ?Htk; try done; lia.
Qed.

Lemma live_holds_le s : live_holds s ≤ length (tasks s).
Proof. apply length_filter. Qed.

Lemma holds_ok_suspend k su s s' :
  holds_ok k s → u64_steps (S k) → step (OSuspend su) s = Some s' → holds_ok (S k) s'.
Proof.
  intros [Hc Hg Ht Hl] Hk Hs. simpl in Hs. simplify_eq.
  pose proof (live_holds_le s) as Hle. split; unfold live_holds in *; simpl.
  - rewrite filter_app, length_app, filter_cons_True by done. simpl.
    unfold u64_steps, u64_max in Hk. rewrite Hc. unfold wrap64. rewrite Z.mod_small; lia.
  - lia.
  - apply Forall_app. split; [done|]. apply Forall_singleton. lia.
  - rewrite length_app. simpl. lia.
Qed.

Lemma live_holds_delete s i g :
  tasks s !! i = Some g →
  length (filter (λ g, g = run_gen (ctl (eng s))) (delete i (tasks s))) =
    if decide (g = run_gen (ctl (eng s))) then pred (live_holds s) else live_holds s.
Proof.
  intros Hi. unfold live_holds. rewrite (length_filter_delete _ i g (tasks s)) by done.
  destruct (decide (g = run_gen (ctl (eng s)))); simpl; lia.
Qed.

Lemma live_holds_pos s i g :
  tasks s !! i = Some g → g = run_gen (ctl (eng s)) → 0 < live_holds s.
Proof.
  intros Hi Hg. unfold live_holds.
  rewrite <-(take_drop_middle (tasks s) i g) by done.
  rewrite filter_app, length_app, filter_cons_True by done. simpl. lia.
Qed.

(** [release] on the holds and the flag it may clear. *)
Lemma release_holds gen c :
  gen = run_gen c →
  holds (release gen c) = sat_sub64 (holds c) 1
  ∧ run_gen (release gen c) = run_gen c
  ∧ if (holds c <=? 1)%Z && negb (manual_pause c)
    then is_paused (release gen c) = false ∧ permit (release gen c) = S (permit c)
    else is_paused (release gen c) = is_paused c ∧ permit (release gen c) = permit c.
Proof.
  intros ->. unfold release. rewrite Z.eqb_refl. simpl. by case_match.
Qed.

Lemma release_stale gen c : gen ≠ run_gen c → release gen c = c.
Proof. intros Hg. unfold release. by apply Z.eqb_neq in Hg as ->. Qed.

Lemma holds_ok_release k i s s' :
  holds_ok k s → step (ORelease i) s = Some s' → holds_ok (S k) s'.
Proof.
  intros [Hc Hg Ht Hl] Hs. simpl in Hs. destruct (tasks s !! i) as [g|] eqn:Hi; simplify_eq/=.
  pose proof (live_holds_delete _ _ _ Hi) as Hd.
  pose proof (length_delete (tasks s) i (mk_is_Some _ _ Hi)).
  assert (Forall (λ g, (0 ≤ g ≤ run_gen (ctl (eng s)))%Z) (delete i (tasks s))).
  { apply Forall_delete. done. }
  destruct (decide (g = run_gen (ctl (eng s)))) as [->|Hne].
  - destruct (release_holds _ (ctl (eng s)) eq_refl) as (Hh & Hr & _).
    split; unfold live_holds; simpl; rewrite ?Hr, ?Hh; try done; try lia.
    rewrite Hd, Hc. unfold sat_sub64. lia.
  - pose proof (release_stale _ _ Hne) as Hrs.
    split; unfold live_holds; simpl; rewrite ?Hrs; try done; try lia.
Qed.

Lemma holds_ok_reset k s : holds_ok k s → u64_steps (S k) → holds_ok (S k) (run_reset s).
Proof.
  intros [Hc Hg Ht Hl] Hk. unfold u64_steps, u64_max in Hk.
  assert (wrap64 (run_gen (ctl (eng s)) + 1) = (run_gen (ctl (eng s)) + 1)%Z) as Hw
    by (unfold wrap64; rewrite Z.mod_small; lia).
  split; unfold live_holds; simpl; rewrite ?Hw; try lia.
  - induction (tasks s) as [|g l IH]; [done|].
    apply Forall_cons in Ht as [Hx Ht]. rewrite filter_cons_False by lia.
    apply IH; [done|simpl in Hl; lia].
  - eapply Forall_impl; [exact Ht|]. simpl. lia.
Qed.

Lemma step_same_holds o s s' :
  step o s = Some s' →
  match o with
  | OSuspend _ | ORelease _ | LReset => True
  | _ => holds (ctl (eng s')) = holds (ctl (eng s))
         ∧ run_gen (ctl (eng s')) = run_gen (ctl (eng s)) ∧ tasks s' = tasks s
  end.
Proof.
  intros Hs. destruct o; try done; simpl in Hs; simplify_eq; try done;
    unfold run_claim, gate_arm, gate_leave, ack_pause, take_interrupt, apply_deferred,
      run_seen, install_signal_handler, sigint, pause in *;
    repeat case_match; by simplify_eq/=.
Qed.

Lemma holds_ok_step k o s s' :
  holds_ok k s → u64_steps (S k) → step o s = Some s' → holds_ok (S k) s'.
Proof.
  intros Hok Hk Hs. pose proof (step_same_holds _ _ _ Hs) as Hsame.
  destruct o; try by (destruct Hsame as (? & ? & ?); eapply holds_ok_same).
  - by eapply holds_ok_suspend.
  - by eapply holds_ok_release.
  - simpl in Hs. destruct (phase s); simplify_eq. by apply holds_ok_reset.
Qed.

Lemma reach_holds_ok ok n s : reach ok n s → u64_steps n → holds_ok n s.
Proof.
  induction 1 as [|n s o s' _ IH _ Hs]; intros Hn; [by split|].
  eapply holds_ok_step; [apply IH|done..]. unfold u64_steps in *. lia.
Qed.

Lemma pending_interrupt k s n m :
  counters k s n m → u64_steps k → (0 < n)%Z →
  interrupt_pending (thrown s) (eng s) = true.
Proof.
  intros [Hi _ _ _] Hk Hn. unfold interrupt_pending.
  apply negb_true_iff, Z.eqb_neq. by eapply counted_ne.
Qed.

Lemma pending_pause k s n m :
  counters k s n m → u64_steps k → (0 < m)%Z → pause_pending (seen s) (eng s) = true.
Proof.
  intros [_ Hp _ _] Hk Hm. unfold pause_pending.
  apply negb_true_iff, Z.eqb_neq. by eapply counted_ne.
Qed.

(** Requests arriving in the loop never lower the counts. *)
Lemma requests_counters os k s n m s' :
  counters k s n m → looping (phase s) = true → forallb is_request os = true →
  run os s = Some s' →
  ∃ n' m', counters (k + length os) s' n' m' ∧ (n ≤ n')%Z ∧ (m ≤ m')%Z.
Proof.
  revert k s n m. induction os as [|o os IH]; intros k s n m Hc Hl Hr Hs; simpl in *.
  - simplify_eq. exists n, m. rewrite Nat.add_0_r. split_and!; [done|lia..].
  - apply andb_true_iff in Hr as [Ho Hr].
    destruct (step o s) as [s1|] eqn:Hs1; simplify_eq/=.
    assert (calm o s) as Hcalm by (intros Hf; rewrite Hf in Hl; done).
    destruct (counters_request _ _ _ _ _ _ Hc Hcalm Ho Hs1) as (n1 & m1 & Hc1 & ? & ?).
    destruct (request_effect _ _ _ Ho Hs1) as (? & ? & _ & _ & _ & _ & _ & Hph & _).
    rewrite <-Hph in Hl.
    destruct (IH _ _ _ _ Hc1 Hl Hr Hs) as (n2 & m2 & Hc2 & ? & ?).
    exists n2, m2. rewrite Nat.add_succ_r. split_and!; [done|lia..].
Qed.

Lemma requests_pending n s o s1 os s2 :
  reach calm n s → looping (phase s) = true → step o s = Some s1 →
  forallb is_request os = true → run os s1 = Some s2 → u64_steps (S n + length os) →
  match o with
  | OPause false | OSuspend _ => pause_pending (seen s2) (eng s2) = true
  | OStop | OAbort _ | OHalt _ => interrupt_pending (thrown s2) (eng s2) = true
  | _ => True
  end.
Proof.
  intros Hr Hl Hs Hos Hrun Hn. destruct (reach_counters _ _ Hr) as (i & p & Hc).
  assert (∀ i' p', counters (S n) s1 i' p' → looping (phase s1) = true →
    (0 < i' → interrupt_pending (thrown s2) (eng s2) = true)%Z
    ∧ (0 < p' → pause_pending (seen s2) (eng s2) = true)%Z) as Hgo.
  { intros i' p' Hc1 Hl1.
    destruct (requests_counters _ _ _ _ _ _ Hc1 Hl1 Hos Hrun) as (i2 & p2 & Hc2 & ? & ?).
    split; intros; [eapply pending_interrupt|eapply pending_pause]; try done; lia. }
  destruct Hc as [Hi Hp _ _].
  assert (0 ≤ i ∧ 0 ≤ p)%Z as [? ?] by (unfold counted in *; lia).
  pose proof (counted_mono _ _ _ _ Hi). pose proof (counted_mono _ _ _ _ Hp).
  pose proof (counted_incr _ _ _ _ Hi). pose proof (counted_incr _ _ _ _ Hp).
  assert (phase s ≠ Fresh) as Hf by (intros Hf; rewrite Hf in Hl; done).
  destruct o; try done; simpl in Hs; simplify_eq.
  - destruct defer; [done|]. apply (Hgo i (p + 1)%Z); [|done|lia].
    split; simpl; (done || lia || by intros ?%Hf).
  - apply (Hgo (i + 1)%Z p); [|done|lia]. split; simpl; (done || lia || by intros ?%Hf).
  - apply (Hgo (i + 1)%Z p); [|done|lia]. split; simpl; (done || lia || by intros ?%Hf).
  - apply (Hgo (i + 1)%Z p); [|done|lia]. split; simpl; (done || lia || by intros ?%Hf).
  - apply (Hgo i (p + 1)%Z); [|done|lia]. split; simpl; (done || lia || by intros ?%Hf).
Qed.

Lemma aborting_kept o s s' :
  o ≠ LClaim → step o s = Some s' → is_aborting (eng s) = true → is_aborting (eng s') = true.
Proof.
  intros Hne Hs Ha. destruct o; try done; simpl in Hs; simplify_eq; try done;
    unfold gate_arm, gate_leave, ack_pause, take_interrupt, apply_deferred, request_suspend,
      run_seen, install_signal_handler, sigint, pause in *;
    repeat case_match; simplify_eq/=; try done.
  by apply bind_Some in Hs as (? & _ & [= <-]).
Qed.

Lemma watcher_gone o s s' :
  step o s = Some s' → signal_installed (eng s) = true → watcher (eng s) = false →
  signal_installed (eng s') = true ∧ watcher (eng s') = false.
Proof.
  intros Hs Hi Hw. destruct o; simpl in Hs; simplify_eq; try done;
    unfold gate_arm, gate_leave, ack_pause, take_interrupt, apply_deferred, request_suspend,
      run_seen, run_claim, install_signal_handler, sigint, pause in *;
    repeat case_match; simplify_eq/=; try done; try congruence.
  by apply bind_Some in Hs as (? & _ & [= <-]).
Qed.

Lemma sigint_taps e :
  watcher e = true → sigint_count e = 0%Z →
  sigint e = pause false (set_sigint_count 1 e)
  ∧ sigint (sigint e) = abort "user abort" (set_sigint_count 2 (sigint e))
  ∧ sigint (sigint (sigint e)) =
      set_watcher false (halt "user halt" (set_sigint_count 3 (sigint (sigint e)))).
Proof.
  intros Hw Hc. assert (sigint e = pause false (set_sigint_count 1 e)) as He1.
  { unfold sigint. by rewrite Hw, Hc. }
  assert (sigint (sigint e) = abort "user abort" (set_sigint_count 2 (sigint e))) as He2.
  { rewrite He1. unfold sigint. simpl. by rewrite Hw. }
  split_and!; try done. rewrite He2, He1. unfold sigint. simpl. by rewrite Hw.
Qed.

(** ** Theorems *)

(** A handler that returns because the run's token was cancelled is always
    explained: while the loop runs, a cancelled token means that an interrupt or
    a pause is outstanding, for every interleaving of fewer than 2^64 steps in
    which no pause request falls between the token's renewal and the read of the
    pause count at the start of the run. *)
Theorem cancel_explained n s :
  reach calm n s → u64_steps n → looping (phase s) = true →
  tok_cancelled (cancel (ctl (eng s))) = true →
  interrupt_pending (thrown s) (eng s) || pause_pending (seen s) (eng s) = true.
Proof.
  intros Hr Hn Hl Ht. destruct (reach_counters _ _ Hr) as (i & p & Hc).
  apply orb_true_iff. destruct (c_cancel _ _ _ _ Hc Hl Ht).
  - left. by eapply pending_interrupt.
  - right. by eapply pending_pause.
Qed.

(** What the flags say the next interrupt is, and what a request asks for. *)
Definition owed (e : Control) : InterruptRequest :=
  if is_halting e then Halt else if is_stopping e then Throw IStop else Throw IAbort.
Definition wish (e : Control) (o : op) : option InterruptRequest :=
  match o with
  | OHalt _ => Some Halt
  | OStop => Some (Throw IStop)
  | OAbort _ => Some (Throw IAbort)
  | OSigint =>
      if negb (watcher e) then None
      else if (sigint_count e + 1 =? 1)%Z then None
      else if (sigint_count e + 1 =? 2)%Z then Some (Throw IAbort) else Some Halt
  | _ => None
  end.
Definition stands_over (w : InterruptRequest) (x : option InterruptRequest) : InterruptRequest :=
  match w, x with Halt, _ => Halt | _, Some x => x | w, None => w end.
(** The last of the requests, a halt standing over every other. *)
Fixpoint latest_wish (w : InterruptRequest) (os : list op) (s : Sys) : InterruptRequest :=
  match os with
  | [] => w
  | o :: os =>
      let w := stands_over w (wish (eng s) o) in
      match step o s with Some s' => latest_wish w os s' | None => w end
  end.

Lemma owed_request o s s' :
  is_request o = true → step o s = Some s' →
  owed (eng s') = stands_over (owed (eng s)) (wish (eng s) o).
Proof.
  intros Hr Hs. destruct o; try done; simpl in Hs; simplify_eq; unfold owed; simpl.
  - destruct defer; simpl; by destruct (is_halting (eng s)), (is_stopping (eng s)).
  - by destruct (is_halting (eng s)), (is_stopping (eng s)).
  - by destruct (is_halting (eng s)), (is_stopping (eng s)).
  - by destruct (is_halting (eng s)), (is_stopping (eng s)).
  - by destruct (is_halting (eng s)), (is_stopping (eng s)).
  - by destruct (is_halting (eng s)), (is_stopping (eng s)).
  - destruct (tasks s !! k) as [gen|]; simplify_eq/=. by destruct (is_halting (eng s)), (is_stopping (eng s)).
  - unfold sigint. destruct (watcher (eng s)); simpl; [|by destruct (is_halting (eng s)), (is_stopping (eng s))].
    destruct (_ =? 1)%Z; simpl; [by destruct (is_halting (eng s)), (is_stopping (eng s))|].
    destruct (_ =? 2)%Z; simpl; by destruct (is_halting (eng s)), (is_stopping (eng s)).
  - unfold install_signal_handler. destruct (signal_installed (eng s)); simpl; by destruct (is_halting (eng s)), (is_stopping (eng s)).
Qed.
Lemma owed_requests os : ∀ s s2, forallb is_request os = true → run os s = Some s2 →
  owed (eng s2) = latest_wish (owed (eng s)) os s.
Proof.
  induction os as [|o os IH]; intros s s2 Ho Hr; simpl in *; [by simplify_eq|].
  apply andb_true_iff in Ho as [Ho Hos]. destruct (step o s) as [s1|] eqn:Hs; simplify_eq/=.
  rewrite <-(owed_request o s s1 Ho Hs). by apply IH.
Qed.


(** C16: No wake-up is lost: a loop parked in the pause gate with the pause already
    lifted can leave it, and a resume, stop, abort or halt always lets a parked
    loop leave. *)
Theorem no_lost_wakeup ok n s p :
  reach ok n s → phase s = Parked p →
  (is_paused (ctl (eng s)) = false → is_Some (step LWake s))
  ∧ ∀ o s', match o with OResume | OAbort _ | OHalt _ | OStop => True | _ => False end →
            step o s = Some s' → is_Some (step LWake s').
Proof.
  intros Hr Hph. destruct (reach_gate_ok _ _ _ Hr) as [Hle Hok].
  specialize (Hok p Hph). specialize (Hle p (or_intror Hph)). split.
  - intros Hp. simpl. rewrite Hph. case_decide as Heq; [|done].
    rewrite Hok in Hp by done. done.
  - intros o s' Ho Hs. destruct o; try done; simpl in Hs; simplify_eq; simpl;
      rewrite Hph; (case_decide; [exfalso; simpl in *; lia|done]).
Qed.

(** A suspension's release lifts the pause exactly when it is the run's last
    one and the user asked for none: a release of an earlier run's suspension
    changes nothing, and one that leaves another hold or a manual pause standing
    neither clears the pause nor wakes the loop. *)
Theorem release_wakes_last ok n s k g s' :
  reach ok n s → u64_steps n → tasks s !! k = Some g → step (ORelease k) s = Some s' →
  if decide (g ≠ run_gen (ctl (eng s))) then eng s' = eng s
  else if decide (1 < live_holds s ∨ manual_pause (ctl (eng s)) = true) then
    is_paused (ctl (eng s')) = is_paused (ctl (eng s))
    ∧ permit (ctl (eng s')) = permit (ctl (eng s))
  else is_paused (ctl (eng s')) = false ∧ permit (ctl (eng s')) = S (permit (ctl (eng s))).
Proof.
  intros Hr Hn Hk Hs. destruct (reach_holds_ok _ _ _ Hr Hn) as [Hc _ _ _].
  simpl in Hs. rewrite Hk in Hs. simplify_eq/=.
  destruct (decide (g ≠ _)) as [Hg|Hg].
  - rewrite release_stale by done. by destruct (eng s).
  - apply dec_stable in Hg. destruct (release_holds _ _ Hg) as (_ & _ & Hw).
    assert ((holds (ctl (eng s)) <=? 1)%Z && negb (manual_pause (ctl (eng s)))
            = negb (bool_decide (1 < live_holds s ∨ manual_pause (ctl (eng s)) = true)))
      as Heq.
    { rewrite Hc. destruct (manual_pause _); simpl.
      - rewrite bool_decide_true by auto. by rewrite andb_false_r.
      - rewrite andb_true_r. destruct (Z.leb_spec (Z.of_nat (live_holds s)) 1).
        + rewrite bool_decide_false; [done|]. intros [|]; [lia|done].
        + rewrite bool_decide_true; [done|]. left. lia. }
    rewrite Heq in Hw.
    destruct (decide (1 < live_holds s ∨ manual_pause (ctl (eng s)) = true)) as [Hd|Hd];
      [rewrite (bool_decide_true _ Hd) in Hw|rewrite (bool_decide_false _ Hd) in Hw];
      exact Hw.
Qed.

(** A halt wins over every request made after it: whatever requests follow, the
    next interrupt the loop takes is the halt, until the engine is claimed for
    another run. *)
Theorem halt_wins n s r s1 os s2 :
  reach calm n s → phase s = Looping → step (OHalt r) s = Some s1 →
  forallb is_request os = true → run os s1 = Some s2 → u64_steps (S n + length os) →
  fst (fst (take_interrupt (thrown s2) (eng s2))) = Some Halt.
Proof.
  intros Hr Hph Hs Hos Hrun Hn.
  assert (interrupt_pending (thrown s2) (eng s2) = true) as Hp.
  { eapply (requests_pending n s (OHalt r)); try done. by rewrite Hph. }
  assert (is_halting (eng s2) = true) as Hh.
  { assert (is_halting (eng s1) = true) as Hh1 by (simpl in Hs; by simplify_eq).
    clear -Hos Hrun Hh1. revert s1 Hrun Hh1. induction os as [|o os IH]; intros s1 Hrun Hh1.
    { by simplify_eq/=. }
    simpl in *. apply andb_true_iff in Hos as [Ho Hos].
    destruct (step o s1) as [s3|] eqn:Hs; simplify_eq/=.
    destruct (request_effect _ _ _ Ho Hs) as (? & ? & _ & _ & _ & _ & _ & _ & _ & _ & _ & _ & Hi).
    eauto. }
  unfold interrupt_pending in Hp. unfold take_interrupt. bools. rewrite Hp. simpl. by rewrite Hh.
Qed.

(** A stop requested after an abort the loop has not taken yet turns it into a
    stop: the run then closes as a success. *)
Theorem stop_downgrades_abort s r s1 s2 :
  phase s = Looping → is_halting (eng s) = false → in_u64 (interrupt_seq (eng s)) →
  thrown s = interrupt_seq (eng s) →
  step (OAbort r) s = Some s1 → step OStop s1 = Some s2 →
  fst (fst (take_interrupt (thrown s2) (eng s2))) = Some (Throw IStop).
Proof.
  intros Hph Hh Hu Ht Hs1 Hs2. simpl in Hs1, Hs2. simplify_eq/=.
  unfold take_interrupt. simpl. rewrite Ht, Hh.
  destruct (Z.eqb_spec (wrap64 (wrap64 (interrupt_seq (eng s) + 1) + 1)) (interrupt_seq (eng s)))
    as [He|]; [|done].
  unfold wrap64, in_u64, u64_max in *. rewrite Z.add_mod_idemp_l in He by lia.
  Z.div_mod_to_equations. lia.
Qed.

(** A pause requested between the token's renewal and the read of the pause
    count, when a run starts, is lost by the loop: the loop runs with no pause
    outstanding, the engine reports paused, and the run's token is cancelled with
    no request to explain it. *)
Theorem pause_in_start_window s s1 s2 s3 :
  phase s = Claimed → is_halting (eng s) = false → is_aborting (eng s) = false →
  interrupt_seq (eng s) = thrown s →
  step LReset s = Some s1 → step (OPause false) s1 = Some s2 → step LSeen s2 = Some s3 →
  phase s3 = Looping ∧ pause_pending (seen s3) (eng s3) = false
  ∧ interrupt_pending (thrown s3) (eng s3) = false
  ∧ engine_state (eng s3) = RPaused
  ∧ tok_cancelled (cancel (ctl (eng s3))) = true.
Proof.
  intros Hph Hh Ha Hi Hs1 Hs2 Hs3. simpl in Hs1. rewrite Hph in Hs1. simplify_eq/=.
  unfold engine_state, pause_pending, interrupt_pending. simpl.
  rewrite Hh, Ha, Hi, !Z.eqb_refl. done.
Qed.

(** Outside a run the engine does not report idle after an abort, a halt or a
    stop: the flags the report reads are cleared only when the next run is
    claimed. *)
Theorem interrupted_run_never_idle os s o s1 s2 s3 :
  match o with OAbort _ | OHalt _ | OStop => True | _ => False end →
  step o s = Some s1 → run os s1 = Some s2 → LClaim ∉ os →
  phase s2 = Looping → step LEnd s2 = Some s3 →
  phase s3 = NoRun ∧ is_running (ctl (eng s3)) = false ∧ engine_state (eng s3) ≠ RIdle.
Proof.
  intros Ho Hs Hrun Hno Hph Hs3.
  assert (is_aborting (eng s2) = true) as Ha.
  { assert (is_aborting (eng s1) = true) as Ha1
      by (destruct o; try done; simpl in Hs; by simplify_eq).
    clear -Hrun Hno Ha1. revert s1 Hrun Ha1. induction os as [|o os IH]; intros s1 Hrun Ha1.
    { by simplify_eq/=. }
    simpl in *. rewrite not_elem_of_cons in Hno. destruct Hno as [Hne Hno].
    destruct (step o s1) as [s3|] eqn:Hs; simplify_eq/=.
    apply (IH Hno s3 Hrun). by eapply aborting_kept. }
  simpl in Hs3. rewrite Hph in Hs3. simplify_eq/=. split_and!; try done.
  unfold engine_state. simpl. rewrite Ha. by destruct (is_halting (eng s2)).
Qed.

(** Three taps: in a run, the first Ctrl-C pauses, the second aborts, the third
    halts. *)
Theorem sigint_three_taps e :
  watcher e = true → sigint_count e = 0%Z →
  let e1 := sigint e in let e2 := sigint e1 in let e3 := sigint e2 in
  manual_pause (ctl e1) = true ∧ is_paused (ctl e1) = true ∧ is_aborting e1 = is_aborting e
  ∧ is_aborting e2 = true ∧ is_paused (ctl e2) = false
  ∧ interrupt_reason e2 = "user abort" ∧ is_halting e2 = is_halting e
  ∧ is_halting e3 = true ∧ interrupt_reason e3 = "user halt".
Proof.
  intros Hw Hc. destruct (sigint_taps e Hw Hc) as (He1 & He2 & He3).
  cbv zeta. rewrite He3, He2, He1. done.
Qed.

(** The third tap ends the handler for good: the task is gone while the engine
    still counts the handler as installed, so in every later run, whatever is
    done (installing it again included), Ctrl-C does nothing. *)
Theorem sigint_handler_not_renewed e os s s' :
  watcher e = true → sigint_count e = 0%Z → signal_installed e = true →
  eng s = sigint (sigint (sigint e)) → run os s = Some s' →
  sigint (eng s') = eng s' ∧ install_signal_handler (eng s') = eng s'.
Proof.
  intros Hw Hc Hi He Hrun.
  assert (watcher (eng s) = false ∧ signal_installed (eng s) = true) as [Hw' Hi'].
  { destruct (sigint_taps e Hw Hc) as (He1 & He2 & He3).
    rewrite He, He3, He2, He1. split; [done|exact Hi]. }
  clear He. revert s Hrun Hw' Hi'. induction os as [|o os IH]; intros s Hrun Hw' Hi'; simpl in *.
  - simplify_eq. unfold sigint, install_signal_handler. by rewrite Hw', Hi'.
  - destruct (step o s) as [s1|] eqn:Hs; simplify_eq/=.
    destruct (watcher_gone _ _ _ Hs Hi' Hw'). eauto.
Qed.

(** ** Witnesses *)

(** Checked traces are reachable. *)
Fixpoint calm_trace (os : list op) (s : Sys) : option Sys :=
  match os with
  | [] => Some s
  | o :: os =>
      match phase s, pauses o with
      | Fresh, true => None
      | _, _ => s' ← step o s; calm_trace os s'
      end
  end.

Lemma calm_trace_reach os n s s' :
  reach calm n s → calm_trace os s = Some s' → reach calm (n + length os) s'.
Proof.
  revert n s. induction os as [|o os IH]; intros n s Hr Ht; simpl in *.
  - simplify_eq. by rewrite Nat.add_0_r.
  - assert (calm o s ∧ ∃ s1, step o s = Some s1 ∧ calm_trace os s1 = Some s') as (Hc & s1 & Hs & Ht').
    { unfold calm. repeat case_match; try done;
        (split; [congruence|]); by apply bind_Some in Ht as (s1 & ? & ?); exists s1. }
    rewrite Nat.add_succ_r. change (S (n + length os)) with (S n + length os).
    eapply IH; [|done]. by eapply reach_step.
Qed.

Definition ex_start : list op := [LClaim; LReset; LSeen].
Definition ex_sys (os : list op) : Sys := default sys_init (calm_trace os sys_init).
Definition ex_susp : Suspension := mkSuspension "beam" None None.
Definition ex_looping : Sys := ex_sys ex_start.
Definition ex_paused : Sys := ex_sys (ex_start ++ [OPause false]).
Definition ex_parked : Sys := ex_sys (ex_start ++ [OPause false; LArm; LCheck]).
Definition ex_two_holds : Sys := ex_sys (ex_start ++ [OSuspend ex_susp; OSuspend ex_susp]).

Lemma ex_reach os s :
  calm_trace os sys_init = Some s → reach calm (length os) s.
Proof. apply (calm_trace_reach os 0); apply reach_init. Qed.

Lemma cancel_explained_witness :
  tok_cancelled (cancel (ctl (eng ex_paused))) = true
  ∧ interrupt_pending (thrown ex_paused) (eng ex_paused)
    || pause_pending (seen ex_paused) (eng ex_paused) = true.
Proof.
  split; [reflexivity|].
  apply (cancel_explained 4); [by apply (ex_reach (ex_start ++ [OPause false]))|done..].
Defined.


Lemma no_lost_wakeup_witness :
  is_Some (step LWake (with_eng (resume (eng ex_parked)) ex_parked)).
Proof.
  assert (reach calm 6 ex_parked) as Hr.
  { apply (ex_reach (ex_start ++ [OPause false; LArm; LCheck])). vm_compute. reflexivity. }
  destruct (no_lost_wakeup calm 6 ex_parked 0 Hr eq_refl) as [_ H].
  exact (H OResume _ I eq_refl).
Defined.

Lemma release_wakes_last_witness :
  ∃ s', step (ORelease 0) ex_two_holds = Some s' ∧ is_paused (ctl (eng s')) = true.
Proof.
  eexists. split; [reflexivity|].
  assert (reach calm 5 ex_two_holds) as Hr.
  { apply (ex_reach (ex_start ++ [OSuspend ex_susp; OSuspend ex_susp])). vm_compute.
    reflexivity. }
  pose proof (release_wakes_last calm 5 ex_two_holds 0 1 _ Hr eq_refl eq_refl eq_refl) as H.
  destruct (decide (1%Z ≠ _)) as [Hne|_]; [by destruct Hne|].
  destruct (decide (1 < live_holds ex_two_holds ∨ _)) as [_|Hn]; [exact (proj1 H)|].
  exfalso. apply Hn. left. apply (bool_decide_unpack _). vm_compute. exact I.
Defined.

Lemma halt_wins_witness :
  let s := ex_sys (ex_start ++ [OHalt "h"; OStop; OPause false]) in
  fst (fst (take_interrupt (thrown s) (eng s))) = Some Halt.
Proof.
  apply (halt_wins 3 ex_looping "h" (ex_sys (ex_start ++ [OHalt "h"])) [OStop; OPause false]);
    [by apply (ex_reach ex_start)|reflexivity..|done].
Defined.

Lemma stop_downgrades_abort_witness :
  let s := ex_sys (ex_start ++ [OAbort "x"; OStop]) in
  fst (fst (take_interrupt (thrown s) (eng s))) = Some (Throw IStop).
Proof.
  apply (stop_downgrades_abort ex_looping "x" (ex_sys (ex_start ++ [OAbort "x"])));
    try reflexivity. compute_decide.
Defined.

Lemma pause_in_start_window_witness :
  ∃ s3, run [LClaim; LReset; OPause false; LSeen] sys_init = Some s3
        ∧ pause_pending (seen s3) (eng s3) = false.
Proof.
  eexists. split; [reflexivity|].
  eapply (pause_in_start_window (ex_sys [LClaim])); reflexivity.
Defined.

Lemma interrupted_run_never_idle_witness :
  ∃ s3, run (ex_start ++ [OAbort "x"; LTake; LEnd]) sys_init = Some s3
        ∧ engine_state (eng s3) ≠ RIdle.
Proof.
  exists (ex_sys (ex_start ++ [OAbort "x"; LTake; LEnd])). split; [vm_compute; reflexivity|].
  refine (proj2 (proj2 (interrupted_run_never_idle [LTake] ex_looping (OAbort "x")
    (ex_sys (ex_start ++ [OAbort "x"])) (ex_sys (ex_start ++ [OAbort "x"; LTake]))
    (ex_sys (ex_start ++ [OAbort "x"; LTake; LEnd])) I _ _ _ _ _)));
    try (vm_compute; reflexivity).
  rewrite list_elem_of_singleton. discriminate.
Defined.

Definition ex_watched : Control := install_signal_handler engine_new.

Lemma sigint_three_taps_witness :
  is_halting (sigint (sigint (sigint ex_watched))) = true.
Proof. apply (sigint_three_taps ex_watched); reflexivity. Defined.

Definition ex_dead : Sys := with_eng (sigint (sigint (sigint ex_watched))) sys_init.
Definition ex_later : Sys := default sys_init (run [LClaim; LReset; LSeen; OInstall] ex_dead).

Lemma sigint_handler_not_renewed_witness :
  phase ex_later = Looping ∧ sigint (eng ex_later) = eng ex_later.
Proof.
  split; [vm_compute; reflexivity|].
  refine (proj1 (sigint_handler_not_renewed ex_watched [LClaim; LReset; LSeen; OInstall]
    ex_dead ex_later _ _ _ _ _)); vm_compute; reflexivity.
Defined.
