(* ===== verification/Dispatch.v ===== *)
(** * The control server's requests ([qs/dispatch.rs])

    The world a request acts on (queue, manager state, engine slot, worker slot,
    permissions, task tracker), the gate every request passes (permissions, then
    the lock) and the handlers, composed as the dispatch table composes them.
    Handlers over the queue items are those of [QueueOps]. *)

From stdpp Require Import pretty.
From S2P Require Import Prelude Interfaces Queue Registry QueueOps TaskSlot Tasks QState Permissions.
From S2P Require Control.

(** ** The world *)

(** An engine: its identity, its control plane, its metadata, whether the
    checkpoint hook is installed. *)
Record Engine `{JsonNumber} := mkEng {
  en_id : nat;
  en_ctl : Control.Control;
  en_md : gmap string Value;
  en_checkpoint_hook : bool;
}.
Arguments mkEng {_} _ _ _ _.

(** A task given to [rt.spawn]. *)
Inductive Spawned `{JsonNumber, !PlanLib} :=
| SpQueueLoop (engine : nat) (generation : Z)
| SpSingleItem (engine : nat) (generation : Z) (item : QueuedItem) (plan : Plan)
| SpEval (task_uid source : string).

(** The abort handle of a task is its index in [w_spawned]; [w_engines] counts the
    engines created. *)
Record World `{JsonNumber, !PlanLib, !RegexEngine} := mkWorld {
  w_q : Q;
  w_state : EngineState;
  w_engine : option Engine;
  w_engines : nat;
  w_slot : QueueTaskSlot;
  w_perms : Inner;
  w_tracker : TaskTracker;
  w_spawned : list Spawned;
  w_aborted : list AbortHandle;
  w_stop : bool;
}.
Arguments mkWorld {_ _ _} _ _ _ _ _ _ _ _ _ _.

(** What the server is built with, and the clock's reading (Unix seconds). *)
Record Config `{JsonNumber, !PlanLib} := mkConfig {
  cfg_registry : Registry Factory Device;
  cfg_lua : bool;
  cfg_checkpoint_hook : bool;
  cfg_environment_hook : option (Engine → Result () string * Engine);
  cfg_files : FileSystem;
  cfg_version : string;
  cfg_now : Z;
}.
Arguments mkConfig {_ _} _ _ _ _ _ _ _.

(** A request: [method] and [params]. *)
Record QsRequest `{JsonNumber} := mkReq { method : string; params : Value }.
Arguments mkReq {_} _ _.

Section dispatch.
Context `{JsonNumber, !PlanLib, !RegexEngine, !TextFormat, !UuidSource, !KeyHasher}.
Implicit Types (w : World) (cfg : Config) (ps : Value) (m : string).

(** Field updates. *)
Definition set_w_q (v : Q) (w : World) : World :=
  mkWorld v (w_state w) (w_engine w) (w_engines w) (w_slot w) (w_perms w) (w_tracker w)
    (w_spawned w) (w_aborted w) (w_stop w).
Definition set_w_state (v : EngineState) (w : World) : World :=
  mkWorld (w_q w) v (w_engine w) (w_engines w) (w_slot w) (w_perms w) (w_tracker w)
    (w_spawned w) (w_aborted w) (w_stop w).
Definition set_w_engine (v : option Engine) (w : World) : World :=
  mkWorld (w_q w) (w_state w) v (w_engines w) (w_slot w) (w_perms w) (w_tracker w)
    (w_spawned w) (w_aborted w) (w_stop w).
Definition set_w_engines (v : nat) (w : World) : World :=
  mkWorld (w_q w) (w_state w) (w_engine w) v (w_slot w) (w_perms w) (w_tracker w)
    (w_spawned w) (w_aborted w) (w_stop w).
Definition set_w_slot (v : QueueTaskSlot) (w : World) : World :=
  mkWorld (w_q w) (w_state w) (w_engine w) (w_engines w) v (w_perms w) (w_tracker w)
    (w_spawned w) (w_aborted w) (w_stop w).
Definition set_w_perms (v : Inner) (w : World) : World :=
  mkWorld (w_q w) (w_state w) (w_engine w) (w_engines w) (w_slot w) v (w_tracker w)
    (w_spawned w) (w_aborted w) (w_stop w).
Definition set_w_tracker (v : TaskTracker) (w : World) : World :=
  mkWorld (w_q w) (w_state w) (w_engine w) (w_engines w) (w_slot w) (w_perms w) v
    (w_spawned w) (w_aborted w) (w_stop w).
Definition set_w_spawned (v : list Spawned) (w : World) : World :=
  mkWorld (w_q w) (w_state w) (w_engine w) (w_engines w) (w_slot w) (w_perms w)
    (w_tracker w) v (w_aborted w) (w_stop w).
Definition set_w_aborted (v : list AbortHandle) (w : World) : World :=
  mkWorld (w_q w) (w_state w) (w_engine w) (w_engines w) (w_slot w) (w_perms w)
    (w_tracker w) (w_spawned w) v (w_stop w).
Definition set_w_stop (v : bool) (w : World) : World :=
  mkWorld (w_q w) (w_state w) (w_engine w) (w_engines w) (w_slot w) (w_perms w)
    (w_tracker w) (w_spawned w) (w_aborted w) v.


Definition on_state (f : EngineState → EngineState) w : World := set_w_state (f (w_state w)) w.

(** A queue handler, run on the world's queue. *)
Definition via_queue (f : Q → Value * Q) w : Value * World :=
  let '(r, q) := f (w_q w) in (r, set_w_q q w).

(** [Uuid::new_v4()] *)
Definition new_v4 w : string * World := (next_uuid (w_q w), set_w_q (minted (w_q w)) w).

(** [h.abort()] of the handle, if there is one. *)
Definition abort_handle (o : option AbortHandle) w : World :=
  match o with Some h => set_w_aborted (w_aborted w ++ [h]) w | None => w end.

(** [rt.spawn]: the world with the task, and its abort handle. *)
Definition spawn (t : Spawned) w : AbortHandle * World :=
  (length (w_spawned w), set_w_spawned (w_spawned w ++ [t]) w).

(** [queue_task.take()] and the abort of the handle it gives. *)
Definition take_worker w : World :=
  let '(h, sl) := slot_take (w_slot w) in abort_handle h (set_w_slot sl w).

(** ** The lock gate *)

Definition always_allowed : list string :=
  ["ping"; "status"; "config_get"; "queue_get"; "history_get"; "lock_info";
   "plans_allowed"; "plans_existing"; "devices_allowed"; "devices_existing"; "re_runs";
   "re_metadata"; "task_status"; "task_result"; "manager_test"].

Definition env_methods : list string :=
  ["environment_open"; "environment_close"; "environment_destroy"; "environment_update"].

Definition queue_method m : bool :=
  String.prefix "queue_" m || String.prefix "history_" m || String.prefix "re_" m.

Definition lock_check m (st : EngineState) ps : bool :=
  if mem m always_allowed then true else
  if negb (is_locked (lock st)) then true else
  let supplied_hash := hash_key <$> get_str ps "lock_key" in
  if String.eqb m "unlock" then bool_decide (supplied_hash = lock_key_hash (lock st)) else
  let env_method := mem m env_methods in
  let blocked := lock_environment (lock st) && env_method
                 || lock_queue (lock st) && queue_method m in
  if negb blocked then true
  else bool_decide (supplied_hash = lock_key_hash (lock st)).

(** ** Status *)

Definition json_str (s : string) : Value := VString s.

Definition engine_paused w : bool :=
  match w_engine w with
  | Some re => bool_decide (Control.engine_state (en_ctl re) = Control.RPaused)
  | None => false
  end.

Definition status_fields cfg w (status_uid : string) : list (string * Value) :=
  let q := pq (w_q w) in
  let st := w_state w in
  let env_exists := bool_decide (is_Some (w_engine w)) in
  let paused_mid_run := engine_paused w && bool_decide (st_state st = Some ExecutingQueue) in
  let manager_state :=
    if paused_mid_run then estate_str Paused
    else from_option estate_str "environment_closed" (st_state st) in
  let re_state :=
    if paused_mid_run then estate_str Paused
    else if env_exists then from_option estate_str "idle" (st_state st)
    else "null" in
  [("status_uid", json_str status_uid); ("time", json_str (now_iso8601 (cfg_now cfg)));
   ("manager_state", json_str manager_state);
   ("manager_version", json_str (cfg_version cfg)); ("msg_recv", json_str EmptyString);
   ("items_in_queue", json_nat (PlanQueue.len q));
   ("items_in_history", json_nat (PlanQueue.history_size q));
   ("running_item_uid", json_opt_str (item_uid <$> current_item st));
   ("running_item_name", json_opt_str (item_name <$> current_item st));
   ("plans_run", json_Z (plans_run st)); ("plans_failed", json_Z (plans_failed st));
   ("re_state", json_str re_state); ("worker_environment_exists", VBool env_exists);
   ("worker_environment_state", json_str (if env_exists then "idle" else "closed"));
   ("queue_stop_pending", VBool (queue_stop_pending st));
   ("pause_pending", VBool (pause_pending st && negb paused_mid_run));
   ("worker_background_tasks", json_Z (worker_background_tasks st));
   ("queue_autostart_enabled", VBool (queue_autostart_enabled st));
   ("plan_queue_mode", json (map_to_list (queue_mode st)));
   ("plan_queue_uid", json_str (PlanQueue.queue_uid q));
   ("plan_history_uid", json_str (PlanQueue.history_uid q));
   ("lock_info_uid", json_str (lock_uid (lock st)));
   ("lock", json [("environment", VBool (lock_environment (lock st)));
                  ("queue", VBool (lock_queue (lock st)))]);
   ("devices_allowed_uid", json_str "static"); ("plans_allowed_uid", json_str "static");
   ("devices_existing_uid", json_str "static"); ("plans_existing_uid", json_str "static");
   ("task_results_uid", json_str "static"); ("run_list_uid", json_str "static")].

Definition status_response cfg w : Value * World :=
  let '(u, w) := new_v4 w in (success (status_fields cfg w u), w).

(** ** The environment *)

Definition engine_new (id : nat) (ckpt : bool) : Engine := mkEng id Control.engine_new ∅ ckpt.

Definition env_open cfg w : Value * World :=
  if bool_decide (is_Some (w_engine w)) then (err "environment already open", w) else
  let w := on_state (set_state (Some CreatingEnvironment)) w in
  let re := engine_new (w_engines w) (cfg_checkpoint_hook cfg) in
  let w := set_w_engines (S (w_engines w)) w in
  let '(hooked, re) :=
    match cfg_environment_hook cfg with Some hook => hook re | None => (Ok (), re) end in
  match hooked with
  | Err e =>
      (err ("environment hook failed: " +:+ e),
       on_state (set_state (Some EnvironmentClosed)) w)
  | Ok _ =>
      let w := set_w_engine (Some re) w in
      (success [], on_state (set_state (Some Idle)) w)
  end.

Definition env_close w : Value * World :=
  let? re := w_engine w else (err "no environment", w) in
  if negb (bool_decide (Control.engine_state (en_ctl re) = Control.RIdle))
     || slot_is_active (w_slot w) then
    (err "cannot close the environment while a plan or the queue is running (use environment_destroy to force)", w)
  else
    let w := on_state (set_state (Some ClosingEnvironment)) w in
    let w := set_w_engine None w in
    (success [], on_state (set_state (Some EnvironmentClosed)) w).

Definition env_destroy w : Value * World :=
  if negb (bool_decide (is_Some (w_engine w))) then (err "no environment", w) else
  let w := take_worker w in
  let w := on_state (set_state (Some DestroyingEnvironment)) w in
  let w := set_w_engine None w in
  (success [], on_state (set_state (Some EnvironmentClosed)) w).

(** ** Starting workers *)

Definition state_debug (o : option EState) : string :=
  match o with
  | None => "None"
  | Some EnvironmentClosed => "Some(EnvironmentClosed)"
  | Some Idle => "Some(Idle)"
  | Some ExecutingQueue => "Some(ExecutingQueue)"
  | Some Paused => "Some(Paused)"
  | Some Aborting => "Some(Aborting)"
  | Some CreatingEnvironment => "Some(CreatingEnvironment)"
  | Some ClosingEnvironment => "Some(ClosingEnvironment)"
  | Some DestroyingEnvironment => "Some(DestroyingEnvironment)"
  end.

(** Spawn a worker under the claim [generation] and register its handle. *)
Definition spawn_claimed (generation : Z) (t : Spawned) w : World :=
  let '(h, w) := spawn t w in
  let '(revoked, sl) := slot_register generation h (w_slot w) in
  abort_handle revoked (set_w_slot sl w).

Definition queue_start w : Value * World :=
  let? re := w_engine w else (err "environment not open", w) in
  if negb (bool_decide (st_state (w_state w) = Some Idle)) then
    (err ("cannot start in state " +:+ state_debug (st_state (w_state w))), w)
  else
    match slot_claim (w_slot w) with
    | (None, _) => (err "cannot start: a queue worker is already running", w)
    | (Some generation, sl) =>
        let w := set_w_slot sl w in
        (success [], spawn_claimed generation (SpQueueLoop (en_id re) generation) w)
    end.

Definition maybe_autostart w : World :=
  if negb (queue_autostart_enabled (w_state w)) || PlanQueue.is_empty (pq (w_q w)) then w
  else snd (queue_start w).

Definition queue_item_execute cfg ps w : Value * World :=
  let? item := value_get ps "item" else (err "missing 'item'", w) in
  if negb (String.eqb (default "plan" (get_str item "item_type")) "plan") then
    (err "queue_item_execute: only 'plan' items are supported", w) else
  let? name := get_str item "name" else (err "item.name required", w) in
  let? factory := registry_plan name (cfg_registry cfg)
    else (err ("unknown plan: " +:+ name), w) in
  match call_factory factory (cfg_registry cfg) item with
  | Err e => (err ("plan build failed: " +:+ e), w)
  | Ok plan =>
      let? re := w_engine w else (err "environment not open", w) in
      if negb (bool_decide (st_state (w_state w) = Some Idle)) then
        (err ("cannot execute item in state " +:+ state_debug (st_state (w_state w))), w)
      else
        match slot_claim (w_slot w) with
        | (None, _) => (err "cannot execute item: a queue worker is already running", w)
        | (Some generation, sl) =>
            let w := set_w_slot sl w in
            let '(u, w) := new_v4 w in
            let queued := with_submitter (get_str ps "user") (get_str ps "user_group")
                            (item_plan u name item) in
            let item_echo := item_to_value queued in
            let w := spawn_claimed generation
                       (SpSingleItem (en_id re) generation queued plan) w in
            (success [("qsize", json_nat (PlanQueue.len (pq (w_q w)))); ("item", item_echo)], w)
        end
  end.

(** ** The run engine *)

Definition on_engine (f : Control.Control → Control.Control) (re : Engine) : Engine :=
  mkEng (en_id re) (f (en_ctl re)) (en_md re) (en_checkpoint_hook re).

Definition re_with (f : Control.Control → Control.Control) w : Value * World :=
  match w_engine w with
  | Some re => (success [], set_w_engine (Some (on_engine f re)) w)
  | None => (err "no environment", w)
  end.

Definition re_pause ps w : Value * World :=
  match w_engine w with
  | Some re =>
      if bool_decide (Control.engine_state (en_ctl re) = Control.RIdle) then
        (err "re_pause: no plan is running", w)
      else
        let defer := match get_str ps "option" with
                     | Some s => String.eqb s "deferred" | None => false end in
        let w := set_w_engine (Some (on_engine (Control.pause defer) re)) w in
        (success [], on_state (set_pause_pending true) w)
  | None => (err "no environment", w)
  end.

Definition handle_re_runs ps w : Value :=
  let option := default "active" (get_str ps "option") in
  let runs := List.filter (λ r : string * bool,
    if String.eqb option "open" then r.2
    else if String.eqb option "closed" then negb r.2 else true) (re_runs (w_state w)) in
  success [("run_list", VArray ((λ r, json [("uid", VString r.1); ("is_open", VBool r.2)]) <$> runs));
           ("run_list_uid", VString "static")].

Definition handle_re_metadata ps w : Value * World :=
  let? re := w_engine w else (err "no environment", w) in
  let re :=
    match value_get ps "metadata" ≫= as_object with
    | Some md_in => mkEng (en_id re) (en_ctl re) (list_to_map md_in) (en_checkpoint_hook re)
    | None => re
    end in
  (success [("re_metadata", json (map_to_list (en_md re)))], set_w_engine (Some re) w).

(** ** The lock requests *)

Definition lock_response w : Value :=
  success [("lock_info", lock_to_value (lock (w_state w)));
           ("lock_info_uid", VString (lock_uid (lock (w_state w))))].

Definition lock_apply cfg ps w : Value * World :=
  let? key := get_str ps "lock_key" else (err "missing 'lock_key'", w) in
  let env := default false (get_bool ps "environment") in
  let queue := default false (get_bool ps "queue") in
  if negb env && negb queue then
    (err "must lock at least one of `environment` / `queue`", w) else
  if is_locked (lock (w_state w))
     && negb (bool_decide (lock_key_hash (lock (w_state w)) = Some (hash_key key))) then
    (err "subsystem already locked", w)
  else
    let '(u, w) := new_v4 w in
    let w := on_state (set_lock (lock_lock u (now_iso8601 (cfg_now cfg)) env queue
                          (get_str ps "user") (get_str ps "note") (hash_key key)
                          (lock (w_state w)))) w in
    (lock_response w, w).

Definition lock_release ps w : Value * World :=
  let? key := get_str ps "lock_key" else (err "missing 'lock_key'", w) in
  if is_locked (lock (w_state w))
     && negb (bool_decide (lock_key_hash (lock (w_state w)) = Some (hash_key key))) then
    (err "lock_key does not match", w)
  else
    let '(u, w) := new_v4 w in
    let w := on_state (set_lock (lock_clear u (lock (w_state w)))) w in
    (lock_response w, w).

(** ** Background tasks *)

Definition check_task_access (uid caller_group : string) w : Result () string :=
  match tracker_source_method uid (w_tracker w) with
  | None => Ok ()
  | Some source =>
      if bool_decide (classify source = Admin) && negb (is_admin (w_perms w) caller_group) then
        Err ("RBAC: task " +:+ debug_str uid +:+ " originated from admin-class method '"
             +:+ source +:+ "'; non-admin caller cannot poll its status / result")
      else Ok ()
  end.

Definition task_uid_of ps : string := default EmptyString (get_str ps "task_uid").

Definition handle_task_status ps (group : string) w : Value :=
  let uid := task_uid_of ps in
  match check_task_access uid group w with
  | Err reason => err reason
  | Ok _ =>
      let status := default "completed" (tracker_status uid (w_tracker w)) in
      success [("status", VString status);
               ("task_uid", default VNull (value_get ps "task_uid"))]
  end.

Definition handle_task_result ps (group : string) w : Value :=
  let uid := task_uid_of ps in
  match check_task_access uid group w with
  | Err reason => err reason
  | Ok _ =>
      let status := default "completed" (tracker_status uid (w_tracker w)) in
      let '(ok, return_value, traceback) :=
        match tracker_result uid (w_tracker w) with
        | Some r => (eval_is_success r, from_option VString VNull (eval_return_value r),
                     default EmptyString (eval_error r))
        | None => (true, VNull, EmptyString)
        end in
      let stdout := from_option eval_stdout EmptyString (tracker_result uid (w_tracker w)) in
      success [("status", VString status);
               ("result", json [("return_value", return_value); ("traceback", VString traceback);
                                ("stdout", VString stdout); ("msg", VString EmptyString);
                                ("success", VBool ok); ("task_uid", VString uid)])]
  end.

(** Start an evaluation in the background. *)
Definition start_eval (source_method src : string) w : string * World :=
  let '(task_uid, w) := new_v4 w in
  let w := set_w_tracker (tracker_start task_uid source_method (w_tracker w)) w in
  let w := on_state (λ s, set_worker_background_tasks (worker_background_tasks s + 1)%Z s) w in
  let '(_, w) := spawn (SpEval task_uid src) w in
  (task_uid, w).

(** The spawned evaluation's last steps, with the result it got (a panic is a
    result with its message). *)
Definition finish_eval (task_uid : string) (result : EvalResult) w : World :=
  let w := set_w_tracker (tracker_complete task_uid result (w_tracker w)) w in
  on_state (λ s, set_worker_background_tasks (sat_sub64 (worker_background_tasks s) 1) s) w.

Definition MAX_LUA_EVAL_SOURCE : Z := Z.shiftl 1 20.

Definition lua_eval cfg ps w : Value * World :=
  let? src := get_str ps "source" else (err "lua_eval: missing string param 'source'", w) in
  let n := Z.of_nat (String.length src) in
  if (MAX_LUA_EVAL_SOURCE <? n)%Z then
    (err ("lua_eval: source too large (" +:+ pretty n +:+ " bytes, max "
          +:+ pretty MAX_LUA_EVAL_SOURCE +:+ " bytes)"), w) else
  if negb (cfg_lua cfg) then
    (err "lua_eval: this bsrs-qs build has no Lua evaluator wired (use `bsrs qs-manager` rather than a custom build)", w)
  else
    let '(task_uid, w) := start_eval "lua_eval" src w in
    (success [("task_uid", VString task_uid)], w).

Definition lua_source_for_function (name : string) (args kwargs : Value) : string :=
  let positional := match as_array args with Some arr => display_value <$> arr | None => [] end in
  let keyword :=
    match as_object kwargs with
    | Some (_ :: _ as obj) =>
        ["{" +:+ String.concat "," ((λ kv, kv.1 +:+ "=" +:+ display_value kv.2) <$> obj) +:+ "}"]
    | _ => []
    end in
  "return " +:+ name +:+ "(" +:+ String.concat "," (positional ++ keyword) +:+ ")".

Definition function_execute cfg ps w : Value * World :=
  let? item := value_get ps "item" else (err "function_execute: missing 'item'", w) in
  let item_type := default "function" (get_str item "item_type") in
  if negb (String.eqb item_type "function") then
    (err ("function_execute: item_type must be 'function', got " +:+ debug_str item_type), w) else
  let? name := get_str item "name" else (err "function_execute: item.name required", w) in
  let args := default (VArray []) (value_get item "args") in
  let kwargs := default (VObject []) (value_get item "kwargs") in
  if negb (cfg_lua cfg) then
    (err "function_execute: no Lua evaluator wired (use `bsrs qs-manager` rather than a custom build)", w)
  else
    let '(item_uid, w) := new_v4 w in
    let returned_item :=
      match item with
      | VObject obj =>
          VObject (assoc_insert "item_type" (VString "function")
                     (assoc_insert "item_uid" (VString item_uid) obj))
      | _ => item
      end in
    let '(task_uid, w) :=
      start_eval "function_execute" (lua_source_for_function name args kwargs) w in
    (success [("item", returned_item); ("task_uid", VString task_uid)], w).

(** [format!("{:016x}", h)] *)
Definition hex_digit (z : Z) : string :=
  default EmptyString (["0"; "1"; "2"; "3"; "4"; "5"; "6"; "7"; "8"; "9"; "a"; "b"; "c"; "d"; "e"; "f"]
           !! Z.to_nat (Z.land z 15)).
Definition hex16 (z : Z) : string :=
  String.concat EmptyString ((λ i, hex_digit (Z.shiftr z (4 * Z.of_nat i))) <$> reverse (seq 0 16)).

Definition permissions_uid (p : Inner) : string :=
  hex16 (hash_key (display_value (snapshot_for_get p))).

(** ** The dispatch table

    Each group answers its own methods and [None] for the others. *)

Definition dispatch_info cfg m ps (group : string) w : option (Value * World) :=
  let r := cfg_registry cfg in
  if mem m ["ping"; "status"] then Some (status_response cfg w)
  else if String.eqb m "config_get" then
    Some (success [("config", json [("implementation", VString "bsrs-qs");
                                    ("runtime", VString "rust");
                                    ("version", VString (cfg_version cfg));
                                    ("wire_protocol",
                                      VString "bluesky-queueserver-compatible (subset)");
                                    ("ip_connect_info", json [])])], w)
  else if String.eqb m "plans_allowed" then
    let allowed := filter_plans_for_group (w_perms w) group (plan_names r) in
    Some (success [("plans_allowed", plans_dict_subset allowed r);
                   ("plans_allowed_uid", VString "static")], w)
  else if String.eqb m "plans_existing" then
    Some (success [("plans_existing", plan_dict r); ("plans_existing_uid", VString "static")], w)
  else if String.eqb m "devices_allowed" then
    let allowed := filter_devices_for_group (w_perms w) group (device_names r) in
    Some (success [("devices_allowed", devices_dict_subset allowed r);
                   ("devices_allowed_uid", VString "static")], w)
  else if String.eqb m "devices_existing" then
    Some (success [("devices_existing", device_dict r);
                   ("devices_existing_uid", VString "static")], w)
  else if String.eqb m "device_inspect" then
    Some (match get_str ps "name" with
          | None => err "device_inspect: missing string param 'name'"
          | Some name =>
              match inspect_device name r with
              | Some st => success [("name", VString name); ("state", st)]
              | None => err ("device_inspect: no device named " +:+ debug_str name)
              end
          end, w)
  else None.

(** A handler whose success can make an armed queue runnable. *)
Definition then_autostart (rw : Value * World) : Value * World :=
  let '(r, w) := rw in (r, if succeeded r then maybe_autostart w else w).

Definition dispatch_env cfg m w : option (Value * World) :=
  if String.eqb m "environment_open" then Some (then_autostart (env_open cfg w))
  else if String.eqb m "environment_close" then Some (env_close w)
  else if String.eqb m "environment_destroy" then Some (env_destroy w)
  else if String.eqb m "environment_update" then Some (success [], w)
  else None.

Definition queue_get w : Value :=
  let running := from_option item_to_value VNull (current_item (w_state w)) in
  success [("items", VArray (item_to_value <$> PlanQueue.snapshot (pq (w_q w))));
           ("running_item", running);
           ("plan_queue_uid", VString (PlanQueue.queue_uid (pq (w_q w))))].

Definition dispatch_queue cfg m ps w : option (Value * World) :=
  let r := cfg_registry cfg in
  if String.eqb m "queue_get" then Some (queue_get w, w)
  else if String.eqb m "queue_clear" then
    Some (success [], set_w_q (on_queue_ PlanQueue.clear (w_q w)) w)
  else if String.eqb m "queue_item_add" then
    Some (then_autostart (via_queue (queue_item_add r ps) w))
  else if String.eqb m "queue_item_add_batch" then
    Some (then_autostart (via_queue (queue_item_add_batch r ps) w))
  else if String.eqb m "queue_item_update" then Some (via_queue (queue_item_update ps) w)
  else if String.eqb m "queue_item_get" then Some (queue_item_get ps (w_q w), w)
  else if String.eqb m "queue_item_remove" then Some (via_queue (queue_item_remove ps) w)
  else if String.eqb m "queue_item_remove_batch" then
    Some (via_queue (queue_item_remove_batch ps) w)
  else if String.eqb m "queue_item_move" then Some (via_queue (queue_item_move ps) w)
  else if String.eqb m "queue_item_move_batch" then
    Some (via_queue (queue_item_move_batch ps) w)
  else if String.eqb m "queue_item_execute" then Some (queue_item_execute cfg ps w)
  else None.

Definition dquote : string := String (Ascii.ascii_of_nat 34) EmptyString.

(** The requested setting; anything else is refused. *)
Definition autostart_option ps : option bool :=
  match value_get ps "enable", value_get ps "option" with
  | Some (VBool b), _ => Some b
  | None, Some (VString s) =>
      if String.eqb s "enable" then Some true
      else if String.eqb s "disable" then Some false else None
  | _, _ => None
  end.

Definition queue_autostart ps w : Value * World :=
  match autostart_option ps with
  | None => (err ("queue_autostart: required param 'enable' (bool) or 'option' (" +:+ dquote
                   +:+ "enable" +:+ dquote +:+ "/" +:+ dquote +:+ "disable" +:+ dquote +:+ ")"), w)
  | Some enable =>
      let w := on_state (set_queue_autostart_enabled enable) w in
      (success [], if enable then maybe_autostart w else w)
  end.

Definition dispatch_exec m ps w : option (Value * World) :=
  if String.eqb m "queue_start" then Some (queue_start w)
  else if String.eqb m "queue_stop" then
    Some (success [], on_state (set_queue_stop_pending true) w)
  else if String.eqb m "queue_stop_cancel" then
    Some (success [], on_state (set_queue_stop_pending false) w)
  else if String.eqb m "queue_autostart" then Some (queue_autostart ps w)
  else if String.eqb m "queue_mode_set" then
    Some (match value_get ps "mode" with
          | Some (VObject mode) => (success [], on_state (set_queue_mode (list_to_map mode)) w)
          | _ => (err "missing 'mode' object", w)
          end)
  else if String.eqb m "history_get" then
    Some (success [("items", VArray (item_to_value <$> PlanQueue.history_snapshot (pq (w_q w))));
                   ("plan_history_uid", VString (PlanQueue.history_uid (pq (w_q w))))], w)
  else if String.eqb m "history_clear" then
    Some (success [], set_w_q (on_queue_ PlanQueue.clear_history (w_q w)) w)
  else None.

Definition dispatch_re m ps w : option (Value * World) :=
  if String.eqb m "re_pause" then Some (re_pause ps w)
  else if String.eqb m "re_resume" then
    Some (re_with Control.resume (on_state (set_pause_pending false) w))
  else if String.eqb m "re_abort" then
    Some (re_with (Control.abort "user abort") (on_state (set_pause_pending false) w))
  else if String.eqb m "re_halt" then
    Some (re_with (Control.halt "user halt") (on_state (set_pause_pending false) w))
  else if String.eqb m "re_stop" then Some (re_with Control.stop w)
  else if String.eqb m "re_runs" then Some (handle_re_runs ps w, w)
  else if String.eqb m "re_metadata" then Some (handle_re_metadata ps w)
  else None.

Definition dispatch_lock cfg m ps w : option (Value * World) :=
  if String.eqb m "lock" then Some (lock_apply cfg ps w)
  else if String.eqb m "lock_info" then Some (lock_response w, w)
  else if String.eqb m "unlock" then Some (lock_release ps w)
  else None.

Definition dispatch_task cfg m ps (group : string) w : option (Value * World) :=
  if String.eqb m "task_status" then Some (handle_task_status ps group w, w)
  else if String.eqb m "task_result" then Some (handle_task_result ps group w, w)
  else if String.eqb m "lua_eval" then Some (lua_eval cfg ps w)
  else None.

Definition dispatch_manager cfg m ps w : option (Value * World) :=
  if String.eqb m "manager_test" then Some (success [], w)
  else if String.eqb m "permissions_get" then
    Some (success [("user_group_permissions", snapshot_for_get (w_perms w));
                   ("user_group_permissions_uid", VString (permissions_uid (w_perms w)))], w)
  else if String.eqb m "permissions_reload" then
    let '(res, p) := reload (cfg_files cfg) (w_perms w) in
    let w := set_w_perms p w in
    Some (match res with
          | Ok _ => json [("success", VBool true); ("msg", VString "permissions reloaded")]
          | Err e => err ("permissions_reload: " +:+ e)
          end, w)
  else if String.eqb m "manager_stop" then
    Some (success [], set_w_stop true (take_worker w))
  else if String.eqb m "function_execute" then Some (function_execute cfg ps w)
  else if mem m ["permissions_set"; "script_upload"; "kernel_interrupt"; "manager_kill"] then
    Some (err ("method '" +:+ m +:+ "' is registered but not implemented in bsrs-qs (bluesky-queueserver-only feature)"), w)
  else None.

(** The first of two answers. *)
Definition or_else {A} (o1 o2 : option A) : option A := match o1 with Some _ => o1 | None => o2 end.

Definition dispatch_table cfg m ps (group : string) w : option (Value * World) :=
  or_else (dispatch_info cfg m ps group w)
  (or_else (dispatch_env cfg m w)
  (or_else (dispatch_queue cfg m ps w)
  (or_else (dispatch_exec m ps w)
  (or_else (dispatch_re m ps w)
  (or_else (dispatch_lock cfg m ps w)
  (or_else (dispatch_task cfg m ps group w)
           (dispatch_manager cfg m ps w))))))).

Definition dispatch cfg (req : QsRequest) w : Value * World :=
  let m := method req in
  let ps := params req in
  let group := resolve_group (w_perms w) ps in
  match check (w_perms w) m ps group with
  | Err reason => (err reason, w)
  | Ok _ =>
      if negb (lock_check m (w_state w) ps) then
        (err "operation rejected: subsystem is locked (use `unlock` with the matching key)", w)
      else
        match dispatch_table cfg m ps group w with
        | Some rw => rw
        | None => (err ("unknown method: " +:+ m), w)
        end
  end.
End dispatch.

(** Case analysis on the method a handler group answers, one goal per method. *)
Ltac each_method Hd m :=
  repeat match type of Hd with
  | context [String.eqb m ?s] => destruct (String.eqb_spec m s) as [->|_]
  | context [mem m ?l] =>
      let Hm := fresh "Hm" in
      destruct (mem m l) eqn:Hm;
      [ apply mem_spec in Hm;
        repeat (apply elem_of_cons in Hm as [->|Hm]; [|try by apply elem_of_nil in Hm]) | ]
  end.

(** ** Lemmas *)

Section lemmas.
Context `{JsonNumber, !PlanLib, !RegexEngine, !TextFormat, !UuidSource, !KeyHasher}.
Implicit Types (w : World) (cfg : Config) (ps : Value) (m : string).

Definition is_worker (t : Spawned) : bool :=
  match t with SpEval _ _ => false | _ => true end.

(** The world after a worker [t] has claimed the slot. *)
Definition worker_started (t : Spawned) w w' : Prop :=
  slot_is_active (w_slot w) = false ∧ is_worker t = true
  ∧ ∃ sl, slot_is_active sl = true
          ∧ w' = set_w_slot sl (set_w_spawned (w_spawned w ++ [t]) w).

Lemma spawn_claimed_started g t w sl :
  slot_claim (w_slot w) = (Some g, sl) → is_worker t = true →
  worker_started t w (spawn_claimed g t (set_w_slot sl w)).
Proof.
  unfold slot_claim, worker_started. intros Hc Ht. destruct (entry (w_slot w)) eqn:He; simplify_eq.
  split; [unfold slot_is_active; by rewrite He|]. split; [done|].
  unfold spawn_claimed, slot_register. simpl. rewrite decide_True by done. simpl.
  eexists. split; [|reflexivity]. done.
Qed.

Lemma queue_start_cases w :
  snd (queue_start w) = w
  ∨ ∃ re g, w_engine w = Some re ∧ st_state (w_state w) = Some Idle
            ∧ succeeded (fst (queue_start w)) = true
            ∧ worker_started (SpQueueLoop (en_id re) g) w (snd (queue_start w)).
Proof.
  unfold queue_start. destruct (w_engine w) as [re|]; [|by left].
  case_bool_decide as Hs; simpl; [|by left].
  destruct (slot_claim (w_slot w)) as [[g|] sl] eqn:Hc; [|by left].
  right. exists re, g. split_and!; try done. by apply spawn_claimed_started.
Qed.

Lemma maybe_autostart_cases w :
  maybe_autostart w = w
  ∨ queue_autostart_enabled (w_state w) = true
    ∧ ∃ re g, w_engine w = Some re ∧ st_state (w_state w) = Some Idle
              ∧ worker_started (SpQueueLoop (en_id re) g) w (maybe_autostart w).
Proof.
  unfold maybe_autostart. destruct (queue_autostart_enabled (w_state w)); simpl; [|by left].
  destruct (PlanQueue.is_empty _); simpl; [by left|].
  destruct (queue_start_cases w) as [Hs|(re & g & ? & ? & _ & ?)]; [by left|right].
  split; [done|]. by exists re, g.
Qed.

(** A request either is refused and leaves the world alone, or runs its handler. *)
Lemma dispatch_cases cfg req w :
  (succeeded (fst (dispatch cfg req w)) = false ∧ snd (dispatch cfg req w) = w)
  ∨ check (w_perms w) (method req) (params req) (resolve_group (w_perms w) (params req)) = Ok ()
    ∧ lock_check (method req) (w_state w) (params req) = true
    ∧ dispatch_table cfg (method req) (params req) (resolve_group (w_perms w) (params req)) w
      = Some (dispatch cfg req w).
Proof.
  unfold dispatch. destruct (check _ _ _ _) as [[]|e]; [|by left].
  destruct (lock_check _ _ _); simpl; [|by left].
  destruct (dispatch_table _ _ _ _ w) as [rw|] eqn:Ht; [by right|by left].
Qed.

(** Only UUIDs were minted. *)
Definition only_minted w w' : Prop :=
  ∃ n, uuids (w_q w) ≤ n ∧ w' = set_w_q (mkQ n (pq (w_q w))) w.

Lemma only_minted_refl w : only_minted w w.
Proof. exists (uuids (w_q w)). split; [done|]. by destruct w as [[]]. Qed.

Lemma new_v4_minted w : only_minted w (snd (new_v4 w)).
Proof. exists (S (uuids (w_q w))). split; [lia|done]. Qed.

Hint Resolve only_minted_refl new_v4_minted : bsrs.

Lemma info_minted cfg m ps group w rw :
  dispatch_info cfg m ps group w = Some rw → only_minted w (snd rw).
Proof.
  unfold dispatch_info. intros Hd. repeat case_match; simplify_eq/=; auto with bsrs.
Qed.

(** ** The invariant *)

Definition world_wf w : Prop := q_wf (w_q w) ∧ lock_wf (lock (w_state w)).

Lemma only_minted_wf w w' : only_minted w w' → world_wf w → world_wf w'.
Proof.
  intros (n & Hn & ->) [Hq Hl]. split; [|done]. by apply (same_wf (w_q w)).
Qed.

Lemma worker_started_same t w w' :
  worker_started t w w' → w_q w' = w_q w ∧ w_state w' = w_state w ∧ w_engine w' = w_engine w
    ∧ w_perms w' = w_perms w ∧ w_tracker w' = w_tracker w ∧ w_spawned w' = w_spawned w ++ [t].
Proof. by intros (_ & _ & sl & _ & ->). Qed.

Lemma maybe_autostart_same w :
  w_q (maybe_autostart w) = w_q w ∧ w_state (maybe_autostart w) = w_state w
  ∧ w_engine (maybe_autostart w) = w_engine w.
Proof.
  destruct (maybe_autostart_cases w) as [->|(_ & re & g & _ & _ & Hs)]; [done|].
  by apply worker_started_same in Hs as (? & ? & ? & _).
Qed.

Lemma then_autostart_same rw :
  w_q (snd (then_autostart rw)) = w_q (snd rw)
  ∧ w_state (snd (then_autostart rw)) = w_state (snd rw)
  ∧ w_engine (snd (then_autostart rw)) = w_engine (snd rw)
  ∧ fst (then_autostart rw) = fst rw.
Proof.
  destruct rw as [r w]. simpl. destruct (succeeded r); [|done].
  by destruct (maybe_autostart_same w) as (? & ? & ?).
Qed.

Lemma queue_start_same w :
  w_q (snd (queue_start w)) = w_q w ∧ w_state (snd (queue_start w)) = w_state w
  ∧ w_engine (snd (queue_start w)) = w_engine w.
Proof.
  destruct (queue_start_cases w) as [->|(re & g & _ & _ & _ & Hs)]; [done|].
  by apply worker_started_same in Hs as (? & ? & ? & _).
Qed.

(** What [env_*] change: the manager's state value, the engine slot, the worker
    slot, never the queue, the lock or the running item. *)
Lemma env_same cfg m w rw :
  dispatch_env cfg m w = Some rw →
  w_q (snd rw) = w_q w ∧ lock (w_state (snd rw)) = lock (w_state w).
Proof.
  unfold dispatch_env. intros Hd. repeat case_match; simplify_eq/=; try done.
  - destruct (then_autostart_same (env_open cfg w)) as (-> & -> & _).
    unfold env_open. by repeat case_match.
  - unfold env_close. by repeat case_match.
  - unfold env_destroy, take_worker, abort_handle. repeat case_match; done.
Qed.

Lemma execute_cases cfg ps w :
  (succeeded (fst (queue_item_execute cfg ps w)) = false
   ∧ snd (queue_item_execute cfg ps w) = w)
  ∨ ∃ re g it pl, w_engine w = Some re ∧ st_state (w_state w) = Some Idle
      ∧ worker_started (SpSingleItem (en_id re) g it pl) (snd (new_v4 w))
          (snd (queue_item_execute cfg ps w)).
Proof.
  unfold queue_item_execute. destruct (value_get ps "item") as [item|]; [|by left].
  destruct (negb (String.eqb _ _)); [by left|].
  destruct (get_str item "name") as [name|]; [|by left].
  destruct (registry_plan name _) as [f|]; [|by left].
  destruct (call_factory f _ item) as [pl|]; [|by left].
  destruct (w_engine w) as [re|]; [|by left].
  case_bool_decide as Hs; simpl; [|by left].
  destruct (slot_claim (w_slot w)) as [[g|] sl] eqn:Hc; [|by left].
  right. do 4 eexists. split; [done|]. split; [done|].
  exact (spawn_claimed_started g (SpSingleItem _ _ _ _) (snd (new_v4 w)) sl Hc eq_refl).
Qed.

Lemma via_queue_wf (f : Q → Value * Q) w :
  (∀ s, q_wf s → q_wf (snd (f s)) ∧ uuids s ≤ uuids (snd (f s))) →
  world_wf w → world_wf (snd (via_queue f w)).
Proof.
  intros Hf [Hq Hl]. unfold via_queue. specialize (Hf _ Hq).
  destruct (f (w_q w)) as [r q]. by split; [apply Hf|].
Qed.

Lemma then_autostart_wf rw : world_wf (snd rw) → world_wf (snd (then_autostart rw)).
Proof.
  intros Hw. unfold world_wf. by destruct (then_autostart_same rw) as (-> & -> & _).
Qed.

Lemma on_queue_op_wf o w :
  brings_fresh o (pq (w_q w)) → brought o = [] → world_wf w →
  world_wf (set_w_q (on_queue_ (λ u q, exec u o q) (w_q w)) w).
Proof.
  intros Hf Hb [Hq Hl]. split; [|done]. apply op_wf; [done|done|].
  rewrite Hb. by intros ? ?%elem_of_nil.
Qed.

Lemma worker_started_wf t w w' : worker_started t w w' → world_wf w → world_wf w'.
Proof. intros (Hq & Hs & _)%worker_started_same. unfold world_wf. by rewrite Hq, Hs. Qed.

Lemma queue_group_wf cfg m ps w rw :
  dispatch_queue cfg m ps w = Some rw → world_wf w → world_wf (snd rw).
Proof.
  unfold dispatch_queue. intros Hd Hw. repeat (case_match; [simplify_eq|]); simplify_eq; try done.
  - by apply (on_queue_op_wf OpClear).
  - by apply then_autostart_wf, via_queue_wf; [apply queue_item_add_wf|].
  - by apply then_autostart_wf, via_queue_wf; [apply queue_item_add_batch_wf|].
  - by apply via_queue_wf; [apply queue_item_update_wf|].
  - by apply via_queue_wf; [apply queue_item_remove_wf|].
  - by apply via_queue_wf; [apply queue_item_remove_batch_wf|].
  - by apply via_queue_wf; [apply queue_item_move_wf|].
  - by apply via_queue_wf; [apply queue_item_move_batch_wf|].
  - destruct (execute_cases cfg ps w) as [[_ ->]|(re & g & it & pl & _ & _ & Hs)]; [done|].
    eapply worker_started_wf; [exact Hs|]. eapply only_minted_wf; [apply new_v4_minted|done].
Qed.

Lemma exec_group_wf m ps w rw :
  dispatch_exec m ps w = Some rw → world_wf w → world_wf (snd rw).
Proof.
  unfold dispatch_exec. intros Hd Hw. repeat (case_match; [simplify_eq|]); simplify_eq; try done.
  - unfold world_wf. by destruct (queue_start_same w) as (-> & -> & _).
  - unfold queue_autostart. destruct (autostart_option ps) as [b|]; [|done].
    simpl. destruct b; [|done]. unfold world_wf.
    by destruct (maybe_autostart_same (on_state (set_queue_autostart_enabled true) w))
      as (-> & -> & _).
  - by case_match.
  - by apply (on_queue_op_wf OpClearHistory).
Qed.

Lemma re_group_same m ps w rw :
  dispatch_re m ps w = Some rw →
  w_q (snd rw) = w_q w ∧ lock (w_state (snd rw)) = lock (w_state w)
  ∧ st_state (w_state (snd rw)) = st_state (w_state w)
  ∧ w_slot (snd rw) = w_slot w ∧ w_spawned (snd rw) = w_spawned w
  ∧ en_id <$> w_engine (snd rw) = en_id <$> w_engine w.
Proof.
  unfold dispatch_re. intros Hd. repeat (case_match; [simplify_eq|]); simplify_eq; try done;
    unfold re_pause, re_with, handle_re_metadata; simpl;
    destruct (w_engine w) as [re|] eqn:He; simpl; rewrite ?He; try done;
    repeat case_match; simpl; rewrite ?He; done.
Qed.

Lemma lock_group_wf cfg m ps w rw :
  dispatch_lock cfg m ps w = Some rw → world_wf w → world_wf (snd rw).
Proof.
  unfold dispatch_lock. intros Hd Hw. repeat (case_match; [simplify_eq|]); simplify_eq; try done.
  - unfold lock_apply. repeat (case_match; [done|]). case_match; [|done]. case_match; [done|].
    case_match; [done|]. simpl. destruct Hw as [Hq _].
    split; [by apply minted_wf|]. intros _. by eexists.
  - unfold lock_release. case_match; [|done]. case_match; [done|]. simpl. destruct Hw as [Hq _].
    split; [by apply minted_wf|]. done.
Qed.

Lemma start_eval_wf sm src w : world_wf w → world_wf (snd (start_eval sm src w)).
Proof. intros [Hq Hl]. split; [by apply minted_wf|done]. Qed.

Lemma task_group_wf cfg m ps group w rw :
  dispatch_task cfg m ps group w = Some rw → world_wf w → world_wf (snd rw).
Proof.
  unfold dispatch_task. intros Hd Hw. repeat (case_match; [simplify_eq|]); simplify_eq; try done.
  unfold lua_eval. case_match; [|done]. case_match; [done|]. case_match; [done|].
  by apply (start_eval_wf "lua_eval" s w).
Qed.

Lemma take_worker_same w :
  w_q (take_worker w) = w_q w ∧ w_state (take_worker w) = w_state w
  ∧ w_engine (take_worker w) = w_engine w ∧ w_spawned (take_worker w) = w_spawned w.
Proof.
  unfold take_worker, abort_handle. by destruct (slot_take _) as [[] ?].
Qed.

Lemma manager_group_wf cfg m ps w rw :
  dispatch_manager cfg m ps w = Some rw → world_wf w → world_wf (snd rw).
Proof.
  unfold dispatch_manager. intros Hd Hw. repeat (case_match; [simplify_eq|]); simplify_eq; try done.
  - by destruct (reload _ _) as [[] ?]; simplify_eq.
  - unfold world_wf. simpl. by destruct (take_worker_same w) as (-> & -> & _).
  - assert (world_wf (snd (new_v4 w))) as Hw' by (by eapply only_minted_wf; [apply new_v4_minted|]).
    unfold function_execute. destruct (value_get ps "item") as [item|]; [|done].
    destruct (negb _); [done|]. destruct (get_str item "name") as [name|]; [|done].
    destruct (negb _); [done|]. by apply (start_eval_wf "function_execute"
      (lua_source_for_function name (default (VArray []) (value_get item "args"))
         (default (VObject []) (value_get item "kwargs"))) (snd (new_v4 w))).
Qed.

Lemma table_wf cfg m ps group w rw :
  dispatch_table cfg m ps group w = Some rw → world_wf w → world_wf (snd rw).
Proof.
  unfold dispatch_table, or_else. intros Hd Hw.
  destruct (dispatch_info _ _ _ _ _) eqn:Hg1; simplify_eq.
  { apply info_minted in Hg1. by eapply only_minted_wf. }
  destruct (dispatch_env _ _ _) eqn:Hg2; simplify_eq.
  { apply env_same in Hg2 as [Hq Hl]. unfold world_wf. by rewrite Hq, Hl. }
  destruct (dispatch_queue _ _ _ _) eqn:Hg3; simplify_eq; [by eapply queue_group_wf|].
  destruct (dispatch_exec _ _ _) eqn:Hg4; simplify_eq; [by eapply exec_group_wf|].
  destruct (dispatch_re _ _ _) eqn:Hg5; simplify_eq.
  { apply re_group_same in Hg5 as (Hq & Hl & _). unfold world_wf. by rewrite Hq, Hl. }
  destruct (dispatch_lock _ _ _ _) eqn:Hg6; simplify_eq; [by eapply lock_group_wf|].
  destruct (dispatch_task _ _ _ _ _) eqn:Hg7; simplify_eq; [by eapply task_group_wf|].
  by eapply manager_group_wf.
Qed.

Lemma dispatch_keeps_wf cfg req w : world_wf w → world_wf (snd (dispatch cfg req w)).
Proof.
  intros Hw. destruct (dispatch_cases cfg req w) as [[_ ->]|(_ & _ & Ht)]; [done|].
  by eapply table_wf.
Qed.

(** ** What each class of method can do *)

(** The methods that change the world are the lock requests and those the
    permissions class as changes. *)
Definition changing (c : MethodClass) : bool :=
  match c with QueueAdd | QueueMutate | Admin => true | _ => false end.

Lemma table_changing cfg m ps group w rw :
  dispatch_table cfg m ps group w = Some rw →
  only_minted w (snd rw) ∨ changing (classify m) = true ∨ m ∈ ["lock"; "unlock"].
Proof.
  unfold dispatch_table, or_else. intros Hd.
  destruct (dispatch_info _ _ _ _ _) eqn:Hg1; simplify_eq; [left; by eapply info_minted|].
  destruct (dispatch_env _ _ _) eqn:Hg2; simplify_eq.
  { right; left. unfold dispatch_env in Hg2. each_method Hg2 m; try done. }
  destruct (dispatch_queue _ _ _ _) eqn:Hg3; simplify_eq.
  { unfold dispatch_queue in Hg3. each_method Hg3 m; simplify_eq; auto with bsrs. }
  destruct (dispatch_exec _ _ _) eqn:Hg4; simplify_eq.
  { unfold dispatch_exec in Hg4. each_method Hg4 m; simplify_eq; auto with bsrs. }
  destruct (dispatch_re _ _ _) eqn:Hg5; simplify_eq.
  { unfold dispatch_re in Hg5. each_method Hg5 m; simplify_eq; auto with bsrs. }
  destruct (dispatch_lock _ _ _ _) eqn:Hg6; simplify_eq.
  { unfold dispatch_lock in Hg6. each_method Hg6 m; simplify_eq; auto with bsrs;
      right; right; set_solver. }
  destruct (dispatch_task _ _ _ _ _) eqn:Hg7; simplify_eq.
  { unfold dispatch_task in Hg7. each_method Hg7 m; simplify_eq; auto with bsrs. }
  unfold dispatch_manager in Hd. each_method Hd m; simplify_eq; auto with bsrs.
Qed.

Lemma table_unclassified cfg m ps group w rw :
  dispatch_table cfg m ps group w = Some rw → classify m = Unknown → m = "queue_item_get".
Proof.
  unfold dispatch_table, or_else. intros Hd Hc.
  destruct (dispatch_info _ _ _ _ _) eqn:Hg1; simplify_eq.
  { unfold dispatch_info in Hg1. each_method Hg1 m; done. }
  destruct (dispatch_env _ _ _) eqn:Hg2; simplify_eq.
  { unfold dispatch_env in Hg2. each_method Hg2 m; done. }
  destruct (dispatch_queue _ _ _ _) eqn:Hg3; simplify_eq.
  { unfold dispatch_queue in Hg3. each_method Hg3 m; done. }
  destruct (dispatch_exec _ _ _) eqn:Hg4; simplify_eq.
  { unfold dispatch_exec in Hg4. each_method Hg4 m; done. }
  destruct (dispatch_re _ _ _) eqn:Hg5; simplify_eq.
  { unfold dispatch_re in Hg5. each_method Hg5 m; done. }
  destruct (dispatch_lock _ _ _ _) eqn:Hg6; simplify_eq.
  { unfold dispatch_lock in Hg6. each_method Hg6 m; done. }
  destruct (dispatch_task _ _ _ _ _) eqn:Hg7; simplify_eq.
  { unfold dispatch_task in Hg7. each_method Hg7 m; done. }
  unfold dispatch_manager in Hd. each_method Hd m; done.
Qed.

(** ** What the lock stops *)

Definition wrong_key (st : EngineState) ps : Prop :=
  is_locked (lock st) = true ∧ hash_key <$> get_str ps "lock_key" ≠ lock_key_hash (lock st).

Lemma lock_check_queue m st ps :
  wrong_key st ps → lock_queue (lock st) = true → mem m always_allowed = false →
  queue_method m = true → lock_check m st ps = false.
Proof.
  intros [Hl Hk] Hq Ha Hm. unfold lock_check. rewrite Ha, Hl, Hq, Hm. simpl.
  rewrite orb_true_r. simpl. by case_match; apply bool_decide_eq_false_2.
Qed.

Lemma lock_check_env m st ps :
  wrong_key st ps → lock_environment (lock st) = true → mem m env_methods = true →
  lock_check m st ps = true → False.
Proof.
  intros [Hl Hk] Hq Hm%mem_spec. unfold lock_check.
  assert (mem m always_allowed = false ∧ mem m env_methods = true) as [-> ->].
  { unfold env_methods in Hm. repeat (apply elem_of_cons in Hm as [->|Hm]; [done|]).
    by apply elem_of_nil in Hm. }
  rewrite Hl, Hq. simpl. by case_match; intros ?%bool_decide_eq_true_1.
Qed.

(** What a queue lock keeps: contents, history and the execution settings. *)
Definition queue_kept w w' : Prop :=
  pq (w_q w') = pq (w_q w)
  ∧ queue_stop_pending (w_state w') = queue_stop_pending (w_state w)
  ∧ queue_autostart_enabled (w_state w') = queue_autostart_enabled (w_state w)
  ∧ queue_mode (w_state w') = queue_mode (w_state w).

Definition engine_kept w w' : Prop := en_id <$> w_engine w' = en_id <$> w_engine w.

Lemma only_minted_kept w w' :
  only_minted w w' → queue_kept w w' ∧ engine_kept w w' ∧ lock (w_state w') = lock (w_state w).
Proof. by intros (n & _ & ->). Qed.

Lemma queue_kept_refl w : queue_kept w w.
Proof. done. Qed.
Lemma engine_kept_refl w : engine_kept w w.
Proof. done. Qed.
Hint Resolve queue_kept_refl engine_kept_refl : bsrs.

Lemma lock_group_kept cfg m ps w rw :
  wrong_key (w_state w) ps → m ≠ "unlock" → dispatch_lock cfg m ps w = Some rw → snd rw = w.
Proof.
  unfold dispatch_lock. intros [Hl Hk] Hm Hd. each_method Hd m; simplify_eq; try done.
  unfold lock_apply. destruct (get_str ps "lock_key") as [key|]; [|done].
  case_match; [done|]. rewrite Hl. simpl. rewrite bool_decide_eq_false_2; [done|].
  intros Heq. by apply Hk.
Qed.

Lemma env_group_kept cfg m w rw :
  dispatch_env cfg m w = Some rw →
  mem m env_methods = true ∧ queue_kept w (snd rw) ∧ lock (w_state (snd rw)) = lock (w_state w).
Proof.
  unfold dispatch_env, queue_kept. intros Hd. each_method Hd m; simplify_eq; try done;
    (split; [done|]).
  - destruct (then_autostart_same (env_open cfg w)) as (-> & -> & _).
    unfold env_open. by repeat case_match.
  - unfold env_close. by repeat case_match.
  - unfold env_destroy. case_match; [done|]. simpl.
    by destruct (take_worker_same w) as (-> & -> & _).
Qed.

Lemma queue_group_same cfg m ps w rw :
  dispatch_queue cfg m ps w = Some rw →
  w_state (snd rw) = w_state w ∧ w_engine (snd rw) = w_engine w
  ∧ (only_minted w (snd rw) ∨ mem m always_allowed = false ∧ queue_method m = true).
Proof.
  assert (∀ (f : Q → Value * Q), w_state (snd (via_queue f w)) = w_state w
    ∧ w_engine (snd (via_queue f w)) = w_engine w) as Hv.
  { intros f. unfold via_queue. by destruct (f (w_q w)). }
  unfold dispatch_queue. intros Hd. each_method Hd m; simplify_eq; simpl;
    try (split_and!; [by (apply Hv || done)..|auto with bsrs]).
  - destruct (then_autostart_same (via_queue (queue_item_add (cfg_registry cfg) ps) w))
      as (_ & -> & -> & _). destruct (Hv (queue_item_add (cfg_registry cfg) ps)). auto.
  - destruct (then_autostart_same (via_queue (queue_item_add_batch (cfg_registry cfg) ps) w))
      as (_ & -> & -> & _). destruct (Hv (queue_item_add_batch (cfg_registry cfg) ps)). auto.
  - destruct (execute_cases cfg ps w) as [[_ ->]|(re & g & it & pl & _ & _ & Hs)]; [auto|].
    apply worker_started_same in Hs as (_ & -> & -> & _). auto.
Qed.

Lemma exec_group_same m ps w rw :
  dispatch_exec m ps w = Some rw →
  lock (w_state (snd rw)) = lock (w_state w) ∧ w_engine (snd rw) = w_engine w
  ∧ (only_minted w (snd rw) ∨ mem m always_allowed = false ∧ queue_method m = true).
Proof.
  unfold dispatch_exec. intros Hd. each_method Hd m; simplify_eq; simpl; auto with bsrs.
  - destruct (queue_start_same w) as (_ & -> & ->). auto.
  - unfold queue_autostart. destruct (autostart_option ps) as [[]|]; simpl; auto.
    destruct (maybe_autostart_same (on_state (set_queue_autostart_enabled true) w))
      as (_ & -> & ->). auto.
  - repeat case_match; auto.
Qed.

Lemma re_group_kept m ps w rw :
  dispatch_re m ps w = Some rw → queue_kept w (snd rw).
Proof.
  unfold dispatch_re, queue_kept. intros Hd. each_method Hd m; simplify_eq; try done;
    unfold re_pause, re_with, handle_re_metadata; simpl;
    destruct (w_engine w) as [re|]; simpl; try done; by repeat case_match.
Qed.

Lemma task_group_kept cfg m ps group w rw :
  dispatch_task cfg m ps group w = Some rw →
  queue_kept w (snd rw) ∧ engine_kept w (snd rw) ∧ lock (w_state (snd rw)) = lock (w_state w).
Proof.
  unfold dispatch_task. intros Hd. each_method Hd m; simplify_eq; try done.
  unfold lua_eval. by repeat (case_match; [|done] || (case_match; [done|])).
Qed.

Lemma manager_group_kept cfg m ps w rw :
  dispatch_manager cfg m ps w = Some rw →
  queue_kept w (snd rw) ∧ engine_kept w (snd rw) ∧ lock (w_state (snd rw)) = lock (w_state w).
Proof.
  unfold dispatch_manager, queue_kept, engine_kept. intros Hd. each_method Hd m; simplify_eq; try done.
  - by destruct (reload _ _); simplify_eq.
  - simpl. by destruct (take_worker_same w) as (-> & -> & -> & _).
  - unfold function_execute. destruct (value_get ps "item") as [item|]; [|done].
    destruct (negb _); [done|]. destruct (get_str item "name") as [name|]; [|done].
    by destruct (negb _).
Qed.

Lemma table_kept cfg m ps group w rw :
  wrong_key (w_state w) ps → lock_check m (w_state w) ps = true →
  dispatch_table cfg m ps group w = Some rw →
  lock (w_state (snd rw)) = lock (w_state w)
  ∧ (lock_queue (lock (w_state w)) = true → queue_kept w (snd rw))
  ∧ (lock_environment (lock (w_state w)) = true → engine_kept w (snd rw)).
Proof.
  intros Hk Hlc Hd. pose proof (lock_check_queue m _ _ Hk) as Hlq.
  assert (∀ A : Prop, A → (only_minted w (snd rw) ∨ mem m always_allowed = false ∧ queue_method m = true)
    → A ∧ (lock_queue (lock (w_state w)) = true → queue_kept w (snd rw))) as Hgate.
  { intros A HA [Hm|[Ha Hq]]; (split; [done|]); intros Hl; [by apply only_minted_kept|].
    rewrite Hlq in Hlc by done. done. }
  unfold dispatch_table, or_else in Hd.
  destruct (dispatch_info _ _ _ _ _) eqn:Hg1; simplify_eq.
  { apply info_minted, only_minted_kept in Hg1 as (? & ? & ?). auto. }
  destruct (dispatch_env _ _ _) eqn:Hg2; simplify_eq.
  { apply env_group_kept in Hg2 as (Hm & ? & ?). split_and!; try done.
    intros Hl. by destruct (lock_check_env m _ _ Hk Hl Hm Hlc). }
  destruct (dispatch_queue _ _ _ _) eqn:Hg3; simplify_eq.
  { apply queue_group_same in Hg3 as (Hs & He & Hm).
    rewrite Hs. unfold engine_kept. rewrite He. split; [done|]. by apply and_comm, (Hgate _). }
  destruct (dispatch_exec _ _ _) eqn:Hg4; simplify_eq.
  { apply exec_group_same in Hg4 as (Hs & He & Hm).
    rewrite Hs. unfold engine_kept. rewrite He. split; [done|]. by apply and_comm, (Hgate _). }
  destruct (dispatch_re _ _ _) eqn:Hg5; simplify_eq.
  { pose proof (re_group_kept _ _ _ _ Hg5). apply re_group_same in Hg5 as (_ & ? & _ & _ & _ & ?).
    auto. }
  destruct (dispatch_lock _ _ _ _) eqn:Hg6; simplify_eq.
  { apply lock_group_kept in Hg6 as ->; auto with bsrs. intros ->. unfold lock_check in Hlc.
    destruct Hk as [Hl Hne]. rewrite Hl in Hlc. simpl in Hlc. by apply bool_decide_eq_true_1 in Hlc. }
  destruct (dispatch_task _ _ _ _ _) eqn:Hg7; simplify_eq.
  { apply task_group_kept in Hg7 as (? & ? & ?). auto. }
  apply manager_group_kept in Hd as (? & ? & ?). auto.
Qed.

(** The requests a lock is there to stop. *)
Definition stopped_by_queue_lock : list string :=
  ["queue_clear"; "queue_item_add"; "queue_item_add_batch"; "queue_item_update"; "queue_item_remove";
   "queue_item_remove_batch"; "queue_item_move"; "queue_item_move_batch"; "queue_item_execute";
   "queue_start"; "queue_stop"; "queue_stop_cancel"; "queue_autostart"; "queue_mode_set"; "history_clear";
   "re_pause"; "re_resume"; "re_abort"; "re_halt"; "re_stop"].
Definition stopped_by_environment_lock : list string :=
  ["environment_open"; "environment_close"; "environment_destroy"; "environment_update"].

Lemma stopped_queue m st ps :
  wrong_key st ps → lock_queue (lock st) = true → m ∈ stopped_by_queue_lock → lock_check m st ps = true → False.
Proof.
  intros Hk Hq Hm Hl. rewrite (lock_check_queue m st ps Hk Hq) in Hl; [done|..];
    unfold stopped_by_queue_lock in Hm; repeat (apply elem_of_cons in Hm as [->|Hm]; [done|]); by apply elem_of_nil in Hm.
Qed.
Lemma stopped_env m st ps :
  wrong_key st ps → lock_environment (lock st) = true → m ∈ stopped_by_environment_lock → lock_check m st ps = true → False.
Proof.
  intros Hk He Hm. apply lock_check_env; [done|done|]. unfold stopped_by_environment_lock in Hm.
  repeat (apply elem_of_cons in Hm as [->|Hm]; [done|]). by apply elem_of_nil in Hm.
Qed.

(** No worker was started, and the engine's control is as it was. *)
Definition workers w : list Spawned := filter (λ t, is_worker t = true) (w_spawned w).
Definition execution_kept w w' : Prop :=
  workers w' = workers w ∧ en_ctl <$> w_engine w' = en_ctl <$> w_engine w.

Lemma only_minted_execution w w' : only_minted w w' → execution_kept w w'.
Proof. by intros (n & _ & ->). Qed.
Lemma re_group_control m ps w rw :
  dispatch_re m ps w = Some rw →
  execution_kept w (snd rw) ∨ mem m always_allowed = false ∧ queue_method m = true.
Proof.
  unfold dispatch_re, execution_kept. intros Hd. each_method Hd m; simplify_eq; auto.
  left. unfold handle_re_metadata. destruct (w_engine w) as [re|] eqn:He; simpl; rewrite ?He; [|done].
  split; [done|]. by case_match.
Qed.
Lemma task_group_execution cfg m ps group w rw :
  dispatch_task cfg m ps group w = Some rw → execution_kept w (snd rw).
Proof.
  unfold dispatch_task. intros Hd. each_method Hd m; simplify_eq; try done.
  unfold lua_eval. repeat (case_match; [|done] || (case_match; [done|])); simplify_eq/=.
  all: unfold execution_kept, workers; simpl; rewrite ?filter_app; simpl; by rewrite ?app_nil_r.
Qed.
Lemma manager_group_execution cfg m ps w rw :
  dispatch_manager cfg m ps w = Some rw → execution_kept w (snd rw).
Proof.
  unfold dispatch_manager. intros Hd. each_method Hd m; simplify_eq; try done.
  - by destruct (reload _ _); simplify_eq.
  - unfold execution_kept, workers. simpl. by destruct (take_worker_same w) as (_ & _ & -> & ->).
  - unfold function_execute. destruct (value_get ps "item") as [item|]; [|done].
    destruct (negb _); [done|]. destruct (get_str item "name") as [name|]; [|done].
    destruct (negb _); [done|]. unfold execution_kept, workers. simpl. rewrite filter_app. simpl. by rewrite app_nil_r.
Qed.
Lemma table_execution cfg m ps group w rw :
  wrong_key (w_state w) ps → lock_check m (w_state w) ps = true →
  lock_queue (lock (w_state w)) = true → lock_environment (lock (w_state w)) = true →
  dispatch_table cfg m ps group w = Some rw → execution_kept w (snd rw).
Proof.
  intros Hk Hlc Hq He Hd. pose proof (lock_check_queue m _ _ Hk Hq) as Hlq.
  assert (only_minted w (snd rw) ∨ execution_kept w (snd rw) ∨ mem m always_allowed = false ∧ queue_method m = true
    → execution_kept w (snd rw)) as Hgate.
  { intros [Hm|[Hm|[Ha Hm]]]; [by apply only_minted_execution|done|]. rewrite Hlq in Hlc by done. done. }
  unfold dispatch_table, or_else in Hd.
  destruct (dispatch_info _ _ _ _ _) eqn:Hg1; simplify_eq; [apply info_minted in Hg1; auto|].
  destruct (dispatch_env _ _ _) eqn:Hg2; simplify_eq.
  { apply env_group_kept in Hg2 as (Hm & _). by destruct (lock_check_env m _ _ Hk He Hm Hlc). }
  destruct (dispatch_queue _ _ _ _) eqn:Hg3; simplify_eq; [apply queue_group_same in Hg3 as (_ & _ & [?|?]); auto|].
  destruct (dispatch_exec _ _ _) eqn:Hg4; simplify_eq; [apply exec_group_same in Hg4 as (_ & _ & [?|?]); auto|].
  destruct (dispatch_re _ _ _) eqn:Hg5; simplify_eq; [apply re_group_control in Hg5 as [?|?]; auto|].
  destruct (dispatch_lock _ _ _ _) eqn:Hg6; simplify_eq.
  { apply lock_group_kept in Hg6 as ->; [done|done|]. intros ->. unfold lock_check in Hlc.
    destruct Hk as [Hl Hne]. rewrite Hl in Hlc. simpl in Hlc. by apply bool_decide_eq_true_1 in Hlc. }
  destruct (dispatch_task _ _ _ _ _) eqn:Hg7; simplify_eq; [by eapply task_group_execution|].
  by eapply manager_group_execution.
Qed.
End lemmas.

(** ** Starting workers *)

Section spawning.
Context `{JsonNumber, !PlanLib, !RegexEngine, !TextFormat, !UuidSource, !KeyHasher}.
Implicit Types (w : World) (cfg : Config) (ps : Value) (m : string).

(** A request spawns no queue worker, or exactly one, which then holds the slot
    that was free before, with the manager idle and an environment open. *)
Definition spawn_ok w w' : Prop :=
  ∃ new, w_spawned w' = w_spawned w ++ new
    ∧ (Forall (λ t, is_worker t = false) new
       ∨ ∃ t, new = [t] ∧ is_worker t = true
              ∧ slot_is_active (w_slot w) = false ∧ slot_is_active (w_slot w') = true
              ∧ st_state (w_state w') = Some Idle ∧ is_Some (w_engine w')).

Lemma spawn_ok_same w w' : w_spawned w' = w_spawned w → spawn_ok w w'.
Proof. intros Hs. exists []. rewrite app_nil_r. auto. Qed.

Lemma worker_started_spawn_ok t w0 w w' :
  w_spawned w = w_spawned w0 → w_slot w = w_slot w0 →
  worker_started t w w' → st_state (w_state w) = Some Idle → is_Some (w_engine w) →
  spawn_ok w0 w'.
Proof.
  intros Hsp Hsl (Hf & Ht & sl & Ha & ->) Hs He. rewrite Hsl in Hf.
  exists [t]. simpl. rewrite Hsp. split; [done|].
  right. exists t. done.
Qed.

Lemma autostart_spawn_ok w0 w :
  w_spawned w = w_spawned w0 → w_slot w = w_slot w0 → spawn_ok w0 (maybe_autostart w).
Proof.
  intros Hsp Hsl. destruct (maybe_autostart_cases w) as [->|(_ & re & g & He & Hs & Hw)].
  - by apply spawn_ok_same.
  - eapply worker_started_spawn_ok; [done|done|exact Hw|done|by eexists].
Qed.

Lemma then_autostart_spawn_ok w0 rw :
  w_spawned (snd rw) = w_spawned w0 → w_slot (snd rw) = w_slot w0 →
  spawn_ok w0 (snd (then_autostart rw)).
Proof.
  destruct rw as [r w]. simpl. intros. destruct (succeeded r);
    [by apply autostart_spawn_ok|by apply spawn_ok_same].
Qed.

Lemma table_spawn_ok cfg m ps group w rw :
  dispatch_table cfg m ps group w = Some rw → spawn_ok w (snd rw).
Proof.
  assert (∀ (f : Q → Value * Q), w_spawned (snd (via_queue f w)) = w_spawned w
    ∧ w_slot (snd (via_queue f w)) = w_slot w) as Hv.
  { intros f. unfold via_queue. by destruct (f (w_q w)). }
  unfold dispatch_table, or_else. intros Hd.
  destruct (dispatch_info _ _ _ _ _) eqn:Hg1; simplify_eq.
  { apply info_minted in Hg1 as (n & _ & ->). by apply spawn_ok_same. }
  destruct (dispatch_env _ _ _) eqn:Hg2; simplify_eq.
  { unfold dispatch_env in Hg2. each_method Hg2 m; simplify_eq.
    - apply then_autostart_spawn_ok; unfold env_open; by repeat case_match.
    - apply spawn_ok_same. unfold env_close. by repeat case_match.
    - apply spawn_ok_same. unfold env_destroy. simpl.
      case_match; [done|]. simpl. by destruct (take_worker_same w) as (_ & _ & _ & ->).
    - by apply spawn_ok_same. }
  destruct (dispatch_queue _ _ _ _) eqn:Hg3; simplify_eq.
  { unfold dispatch_queue in Hg3. each_method Hg3 m; simplify_eq;
      try (by apply spawn_ok_same); try (by apply spawn_ok_same, Hv);
      try (by apply then_autostart_spawn_ok; apply Hv).
    destruct (execute_cases cfg ps w) as [[_ ->]|(re & g & it & pl & He & Hs & Hw)];
      [by apply spawn_ok_same|].
    eapply worker_started_spawn_ok; [| |exact Hw|..]; try done; by eexists. }
  destruct (dispatch_exec _ _ _) eqn:Hg4; simplify_eq.
  { unfold dispatch_exec in Hg4. each_method Hg4 m; simplify_eq; try (by apply spawn_ok_same).
    - destruct (queue_start_cases w) as [->|(re & g & He & Hs & _ & Hw)];
        [by apply spawn_ok_same|].
      eapply worker_started_spawn_ok; [done|done|exact Hw|done|by eexists].
    - unfold queue_autostart. destruct (autostart_option ps) as [[]|]; simpl;
        [|by apply spawn_ok_same..]. by apply autostart_spawn_ok.
    - apply spawn_ok_same. by repeat case_match. }
  destruct (dispatch_re _ _ _) eqn:Hg5; simplify_eq.
  { apply spawn_ok_same. by apply re_group_same in Hg5 as (_ & _ & _ & _ & ? & _). }
  destruct (dispatch_lock _ _ _ _) eqn:Hg6; simplify_eq.
  { apply spawn_ok_same. unfold dispatch_lock in Hg6. each_method Hg6 m; simplify_eq; try done;
      unfold lock_apply, lock_release; (destruct (get_str ps "lock_key"); [|done]).
    - destruct (negb _ && negb _); [done|]. by destruct (is_locked _ && _).
    - by destruct (is_locked _ && _). }
  destruct (dispatch_task _ _ _ _ _) eqn:Hg7; simplify_eq.
  { unfold dispatch_task in Hg7. each_method Hg7 m; simplify_eq; try (by apply spawn_ok_same).
    unfold lua_eval. case_match; [|by apply spawn_ok_same]. case_match; [by apply spawn_ok_same|].
    case_match; [by apply spawn_ok_same|]. eexists. split; [done|]. left. by repeat constructor. }
  unfold dispatch_manager in Hd. each_method Hd m; simplify_eq; try (by apply spawn_ok_same).
  - destruct (reload _ _); simplify_eq. by apply spawn_ok_same.
  - apply spawn_ok_same. simpl. by destruct (take_worker_same w) as (_ & _ & _ & ->).
  - unfold function_execute. destruct (value_get ps "item") as [item|]; [|by apply spawn_ok_same].
    destruct (negb _); [by apply spawn_ok_same|].
    destruct (get_str item "name") as [name|]; [|by apply spawn_ok_same].
    destruct (negb _); [by apply spawn_ok_same|]. eexists. split; [done|]. left.
    by repeat constructor.
Qed.
End spawning.

(** ** Theorems *)

Section theorems.
Context `{JsonNumber, !PlanLib, !RegexEngine, !TextFormat, !UuidSource, !KeyHasher}.
Implicit Types (w : World) (cfg : Config) (ps : Value) (req : QsRequest).

(** C1: Every request keeps the world well formed: the queue's item UIDs distinct, the
    UUIDs still to be minted unused in it, and a lock always with its key. *)
Theorem dispatch_wf cfg req w : world_wf w → world_wf (snd (dispatch cfg req w)).
Proof. apply dispatch_keeps_wf. Qed.

(** C4: A caller whose group is read-only and not an administrator changes nothing:
    with permissions enforced, whatever it asks (taking or releasing the lock
    apart), the world is the same afterwards, minted UUIDs aside. *)
Theorem read_only_caller_changes_nothing cfg req w p :
  enforced (w_perms w) = true →
  groups (w_perms w) !! resolve_group (w_perms w) (params req) = Some p →
  read_only p = true → admin p = false → method req ∉ ["lock"; "unlock"] →
  only_minted w (snd (dispatch cfg req w)).
Proof.
  intros He Hp Hr Ha Hm. destruct (dispatch_cases cfg req w) as [[_ ->]|(Hc & _ & Ht)].
  { apply only_minted_refl. }
  apply check_grants in Hc as (p' & Hp' & Hg); [|done]. rewrite Hp in Hp'. simplify_eq.
  destruct (table_changing _ _ _ _ _ _ Ht) as [?|[Hch|?]]; [done| |done].
  destruct (classify (method req)); simpl in *; try done; [destruct Hg as [Hg _]|..]; congruence.
Qed.

(** C3: While a lock is held, a request without its key leaves the lock as it is. With the
    queue locked it changes neither the queue, the history nor the execution settings, and
    each request that edits or runs the queue, clears the history or steers the engine is
    refused without effect. With the environment locked it neither opens, closes nor
    replaces the environment: the four requests for it are refused without effect. With both
    locked it starts no worker and gives the engine's control no request. (With the queue
    alone locked [environment_open] may still start an armed queue.) *)
Theorem lock_protects cfg req w :
  wrong_key (w_state w) (params req) →
  let r := fst (dispatch cfg req w) in let w' := snd (dispatch cfg req w) in
  lock (w_state w') = lock (w_state w)
  ∧ (lock_queue (lock (w_state w)) = true →
       queue_kept w w' ∧ (method req ∈ stopped_by_queue_lock → succeeded r = false ∧ w' = w))
  ∧ (lock_environment (lock (w_state w)) = true →
       engine_kept w w' ∧ (method req ∈ stopped_by_environment_lock → succeeded r = false ∧ w' = w))
  ∧ (lock_queue (lock (w_state w)) = true → lock_environment (lock (w_state w)) = true → execution_kept w w').
Proof.
  intros Hk. simpl. destruct (dispatch_cases cfg req w) as [[Hr ->]|(_ & Hl & Ht)]; [done|].
  destruct (table_kept _ _ _ _ _ _ Hk Hl Ht) as (Hk1 & Hk2 & Hk3). split_and!; [done| | |].
  - intros Hq. split; [by apply Hk2|]. intros Hm. by destruct (stopped_queue _ _ _ Hk Hq Hm Hl).
  - intros He. split; [by apply Hk3|]. intros Hm. by destruct (stopped_env _ _ _ Hk He Hm Hl).
  - intros Hq He. eapply table_execution; eauto.
Qed.

(** A request starts at most one queue worker, and one only when the slot is free,
    an environment is open and the manager is idle; the worker then holds the
    slot. *)
Theorem one_worker_per_request cfg req w : spawn_ok w (snd (dispatch cfg req w)).
Proof.
  destruct (dispatch_cases cfg req w) as [[_ ->]|(_ & _ & Ht)]; [by apply spawn_ok_same|].
  by eapply table_spawn_ok.
Qed.

(** No request that changes anything escapes the permission classes: the one
    method the table answers without a class is queue_item_get, which only
    reads. *)
Theorem unclassified_method_only_reads cfg m ps group w rw :
  dispatch_table cfg m ps group w = Some rw → classify m = Unknown →
  m = "queue_item_get" ∧ snd rw = w.
Proof.
  intros Hd Hc. pose proof (table_unclassified _ _ _ _ _ _ Hd Hc) as ->.
  split; [done|].
  unfold dispatch_table, or_else, dispatch_info, dispatch_env, dispatch_queue in Hd.
  simpl in Hd. by simplify_eq.
Qed.

(** Aborting an idle engine wedges the orderly close: the abort is accepted, and
    from then on environment_close is refused as if a plan were running, though
    none is. *)
Theorem close_refused_after_idle_abort cfg ps1 ps2 w re :
  enforced (w_perms w) = false → is_locked (lock (w_state w)) = false →
  w_engine w = Some re → Control.engine_state (en_ctl re) = Control.RIdle →
  slot_is_active (w_slot w) = false →
  let '(r1, w1) := dispatch cfg (mkReq "re_abort" ps1) w in
  let '(r2, w2) := dispatch cfg (mkReq "environment_close" ps2) w1 in
  succeeded r1 = true ∧ succeeded r2 = false ∧ w2 = w1
  ∧ en_id <$> w_engine w2 = Some (en_id re)
  ∧ (Control.is_running (Control.ctl (en_ctl re)) = false →
     Control.is_running ∘ Control.ctl ∘ en_ctl <$> w_engine w2 = Some false).
Proof.
  intros Hp Hl He Hs Hsl. unfold dispatch, check, lock_check. simpl. rewrite Hp, Hl. simpl.
  unfold dispatch_table, dispatch_info, dispatch_env, dispatch_queue, dispatch_exec, dispatch_re.
  simpl. unfold re_with. simpl. rewrite He. simpl. rewrite Hp, Hl. simpl.
  unfold env_close. simpl.
  assert (Control.engine_state (Control.abort "user abort" (en_ctl re)) ≠ Control.RIdle) as Hne.
  { unfold Control.engine_state. simpl. by destruct (Control.is_halting _). }
  rewrite bool_decide_eq_false_2 by done. simpl. split_and!; try done.
  intros Hr. by rewrite Hr.
Qed.

(** Destroying the environment under a running plan leaves the plan on display:
    the worker that would clear the running item is aborted, and the item stays
    the running item of a manager whose environment is closed. *)
Theorem destroy_keeps_running_item cfg ps w re it :
  enforced (w_perms w) = false → is_locked (lock (w_state w)) = false →
  w_engine w = Some re → current_item (w_state w) = Some it →
  let '(r, w') := dispatch cfg (mkReq "environment_destroy" ps) w in
  succeeded r = true ∧ w_engine w' = None ∧ slot_is_active (w_slot w') = false
  ∧ st_state (w_state w') = Some EnvironmentClosed
  ∧ current_item (w_state w') = Some it ∧ w_q w' = w_q w.
Proof.
  intros Hp Hl He Hc. unfold dispatch, check, lock_check. simpl. rewrite Hp, Hl. simpl.
  unfold dispatch_table, dispatch_info, dispatch_env. simpl. unfold env_destroy.
  rewrite He. simpl. destruct (take_worker_same w) as (Hq & Hst & _ & _).
  rewrite Hq, Hst. split_and!; try done.
  unfold take_worker, abort_handle. by destruct (slot_take (w_slot w)) as [[]] eqn:Hs;
    unfold slot_take in Hs; simplify_eq.
Qed.

(** A queue lock does not stop the queue from being started: opening the
    environment, which a queue lock leaves open to anyone, starts an armed and
    non-empty queue that a keyless queue_start could not start. *)
Theorem queue_lock_lets_open_start cfg ps w :
  enforced (w_perms w) = false → wrong_key (w_state w) ps →
  lock_queue (lock (w_state w)) = true → lock_environment (lock (w_state w)) = false →
  w_engine w = None → cfg_environment_hook cfg = None → entry (w_slot w) = None →
  queue_autostart_enabled (w_state w) = true → PlanQueue.is_empty (pq (w_q w)) = false →
  (succeeded (fst (dispatch cfg (mkReq "queue_start" ps) w)) = false
   ∧ snd (dispatch cfg (mkReq "queue_start" ps) w) = w)
  ∧ w_spawned (snd (dispatch cfg (mkReq "environment_open" ps) w)) =
      w_spawned w ++ [SpQueueLoop (w_engines w) (next_gen (w_slot w))].
Proof.
  intros Hp Hk Hq Hl He Hh Hsl Ha Hne. split.
  - unfold dispatch, check. simpl. rewrite Hp. simpl.
    by rewrite (lock_check_queue "queue_start" _ _ Hk Hq eq_refl eq_refl).
  - destruct Hk as [Hk _]. unfold dispatch, check, lock_check. simpl. rewrite Hp, Hk, Hq, Hl. simpl.
    unfold dispatch_table, dispatch_info, dispatch_env, env_open. simpl. rewrite He, Hh. simpl.
    unfold maybe_autostart. simpl. rewrite Ha, Hne. simpl.
    unfold queue_start, slot_claim. simpl. rewrite Hsl. simpl.
    unfold spawn_claimed, slot_register. simpl. by rewrite decide_True by done.
Qed.
End theorems.

(** ** Witnesses *)

Module ExD.
Export QueueOps.ExOps Permissions.Ex.

Definition cfg : Config := mkConfig reg true false None ex_fs "0.1" 1709210096.
Definition viewer : Inner :=
  mkInner true "viewer" {["viewer" := mkPolicy true false [] []]} ∅ None.
Definition st0 : EngineState := state_initial "l0".
Definition w0 : World :=
  mkWorld s0 st0 None 0 slot_new permissive tracker_new [] [] false.
Definition key_lock : LockInfo := lock_lock "l1" "now" false true None None 3 (lock st0).
(** The queue locked with a key of hash 3. *)
Definition w_locked : World :=
  set_w_state (set_queue_autostart_enabled true (set_lock key_lock st0)) w0.
Definition ps0 : Value := json [].
Definition re0 : Engine := engine_new 0 false.
Definition w_idle : World := set_w_engine (Some re0) (set_w_state (set_state (Some Idle) st0) w0).
Definition w_running : World :=
  set_w_engine (Some re0) (set_w_state (set_current_item (Some (it "z")) st0) w0).

Lemma w0_wf : world_wf w0.
Proof. split; [apply s0_wf|]. done. Qed.

Lemma locked_wrong_key : wrong_key (w_state w_locked) ps0.
Proof. split; [reflexivity|]. discriminate. Qed.
End ExD.
Import ExD.

Lemma dispatch_wf_witness : world_wf (snd (dispatch cfg (mkReq "queue_item_add_batch" batch) w0)).
Proof. apply (dispatch_wf cfg (mkReq "queue_item_add_batch" batch) w0 w0_wf). Defined.

Lemma read_only_caller_changes_nothing_witness :
  only_minted (set_w_perms viewer w0)
    (snd (dispatch cfg (mkReq "queue_clear" ps0) (set_w_perms viewer w0))).
Proof.
  eapply read_only_caller_changes_nothing; [reflexivity|reflexivity|reflexivity|reflexivity|].
  apply (bool_decide_unpack _). vm_compute. exact I.
Defined.

Lemma lock_protects_witness :
  lock (w_state (snd (dispatch cfg (mkReq "queue_start" ps0) w_locked))) = key_lock
  ∧ snd (dispatch cfg (mkReq "queue_start" ps0) w_locked) = w_locked.
Proof.
  destruct (lock_protects cfg (mkReq "queue_start" ps0) w_locked locked_wrong_key) as (Hl & Hq & _).
  split; [exact Hl|]. apply (Hq eq_refl). unfold stopped_by_queue_lock. set_solver.
Defined.

(** The metadata of the engine, which runs take up, are replaced by a request without the
    key while the queue is locked. *)
Lemma locked_metadata_is_replaced :
  let req := mkReq "re_metadata" (VObject [("metadata", VObject [("user", VString "guest")])]) in
  let w := set_w_engine (Some re0) w_locked in
  wrong_key (w_state w) (params req) ∧ succeeded (fst (dispatch cfg req w)) = true
  ∧ en_md <$> w_engine w = Some ∅ ∧ en_md <$> w_engine (snd (dispatch cfg req w)) = Some {["user" := VString "guest"]}.
Proof. split_and!; [split; [reflexivity|discriminate]|reflexivity..]. Qed.

Lemma unclassified_method_only_reads_witness :
  ∃ rw, dispatch_table cfg "queue_item_get" ps0 "primary" w0 = Some rw ∧ snd rw = w0.
Proof.
  eexists. split; [reflexivity|].
  eapply (unclassified_method_only_reads cfg "queue_item_get" ps0 "primary" w0); reflexivity.
Defined.

Lemma close_refused_after_idle_abort_witness :
  let w1 := snd (dispatch cfg (mkReq "re_abort" ps0) w_idle) in
  snd (dispatch cfg (mkReq "environment_close" ps0) w1) = w1.
Proof.
  pose proof (close_refused_after_idle_abort cfg ps0 ps0 w_idle re0 eq_refl eq_refl eq_refl
    eq_refl eq_refl) as H. cbv zeta.
  destruct (dispatch cfg (mkReq "re_abort" ps0) w_idle) as [r1 w1]. cbn [snd].
  destruct (dispatch cfg (mkReq "environment_close" ps0) w1) as [r2 w2].
  exact (proj1 (proj2 (proj2 H))).
Defined.

Lemma destroy_keeps_running_item_witness :
  current_item (w_state (snd (dispatch cfg (mkReq "environment_destroy" ps0) w_running)))
  = Some (it "z").
Proof.
  pose proof (destroy_keeps_running_item cfg ps0 w_running re0 (it "z") eq_refl eq_refl eq_refl
    eq_refl) as H.
  destruct (dispatch cfg (mkReq "environment_destroy" ps0) w_running) as [r w'].
  exact (proj1 (proj2 (proj2 (proj2 (proj2 H))))).
Defined.

Lemma queue_lock_lets_open_start_witness :
  w_spawned (snd (dispatch cfg (mkReq "environment_open" ps0) w_locked)) = [SpQueueLoop 0 0].
Proof.
  apply (queue_lock_lets_open_start cfg ps0 w_locked eq_refl locked_wrong_key);
    reflexivity.
Defined.
