(* ===== verification/Worker.v ===== *)
(** * The queue worker ([qs/server.rs])

    What a spawned worker does with the queue: the loop of [execute_queue_loop] cut
    at its await (the run itself, whose outcome the engine gives), the single
    item of [execute_single_item], and the reply thread's poll for a finished
    worker. *)

From S2P Require Import Prelude Interfaces Queue Registry QueueOps TaskSlot Tasks QState.
From S2P Require Import Permissions Errors Dispatch.

(** ** The outcome of a run

    [RunResult], or the error of [run_async_with] as its text. *)
Definition Outcome `{JsonNumber} := Result RunResult string.

Definition item_completed (status : string) : bool := mem status ["success"; "no-run"].

Section worker.
Context `{JsonNumber, !PlanLib, !RegexEngine, !TextFormat, !UuidSource, !KeyHasher}.
Implicit Types (w : World) (cfg : Config) (it : QueuedItem) (s : EngineState).

Definition idle_out (disable_autostart : bool) w : World :=
  on_state (λ s,
    let s := set_state (Some Idle) s in
    let s := set_pause_pending false s in
    let s := set_current_item None s in
    if disable_autostart then set_queue_autostart_enabled false s else s) w.

Definition push_history it w : World :=
  set_w_q (on_queue_ (λ u, PlanQueue.push_history u it) (w_q w)) w.

(** [queue.push_back(item)] *)
Definition push_back it w : World :=
  set_w_q (on_queue_ (λ u, PlanQueue.push_back u it) (w_q w)) w.

(** [u64 += 1] *)
Definition bump_failed w : World :=
  on_state (λ s, set_plans_failed (wrap64 (plans_failed s + 1)) s) w.

(** Archive an item that could not start and idle out. *)
Definition fail_to_start it (why : string) w : World :=
  idle_out true
    (push_history (with_result (json [("exit_status", VString "fail"); ("reason", VString why)]) it) w).

(** Where a turn of the loop leaves the worker: at the head again, in the run of an
    item, or gone. *)
Inductive Turn := Again | InRun (it : QueuedItem) (pl : Plan) | Exit.

(** The start of [run_plan_item]. *)
Definition begin_item it w : World :=
  on_state (λ s, set_current_item (Some it) (set_state (Some ExecutingQueue) s)) w.

(** One turn of the loop up to the run. *)
Definition loop_head cfg w : Turn * World :=
  if queue_stop_pending (w_state w) then
    (Exit, idle_out true (on_state (set_queue_stop_pending false) w))
  else
    let '(item, q) := on_queue (λ u, PlanQueue.pop_front u) (w_q w) in
    let w := set_w_q q w in
    match item with
    | None => (Exit, idle_out false w)
    | Some it =>
        if String.eqb (item_type it) "instruction" then
          if String.eqb (item_name it) "queue_stop" then
            let archived := with_result (json [("exit_status", VString "completed")]) it in
            (Again, on_state (set_queue_stop_pending true) (push_history archived w))
          else (Exit, fail_to_start it ("unknown instruction: " +:+ item_name it) w)
        else
          match registry_plan (item_name it) (cfg_registry cfg) with
          | None => (Exit, fail_to_start it "unknown plan" (bump_failed w))
          | Some factory =>
              match call_factory factory (cfg_registry cfg) (plan_args it) with
              | Err e => (Exit, fail_to_start it ("plan build failed: " +:+ e) (bump_failed w))
              | Ok plan => (InRun it plan, begin_item it w)
              end
          end
    end.

(** ** The end of a run *)

Definition outcome_status (o : Outcome) : string * string :=
  match o with Ok r => (exit_status r, reason r) | Err e => ("fail", e) end.

Definition outcome_uid (o : Outcome) : option string :=
  match o with Ok r => last (run_uids r) | Err _ => None end.

(** The bounded list of recent runs. *)
Definition record_run (uid : string) (runs : list (string * bool)) : list (string * bool) :=
  let runs := (λ e, if String.eqb e.1 uid then (e.1, false) else e) <$> runs in
  let runs := runs ++ [(uid, false)] in
  drop (length runs - 64) runs.

Definition failed_status (status : string) : bool := mem status ["abort"; "fail"; "halt"].

(** The rest of [run_plan_item]. *)
Definition end_item it (o : Outcome) w : World :=
  let '(status, why) := outcome_status o in
  let run_uid := outcome_uid o in
  let w := on_state (λ s,
    let s := set_plans_run (wrap64 (plans_run s + 1)) s in
    let s := set_current_run_uid run_uid s in
    let s := set_current_item None s in
    let s := match run_uid with
             | Some uid => set_re_runs (record_run uid (re_runs s)) s | None => s end in
    if failed_status status then set_plans_failed (wrap64 (plans_failed s + 1)) s else s) w in
  push_history (with_result (json [("exit_status", VString status);
                                   ("run_uid", json_opt_str run_uid);
                                   ("reason", VString why)]) it) w.

(** [queue_mode["loop"]] *)
Definition loop_mode s : bool :=
  default false (queue_mode s !! "loop" ≫= as_bool).

(** One turn of the loop from the end of the run. *)
Definition loop_tail it (o : Outcome) w : Turn * World :=
  let w := end_item it o w in
  let w := if loop_mode (w_state w) then push_back it w else w in
  if negb (item_completed (outcome_status o).1) then (Exit, idle_out true w) else (Again, w).

(** The claim's drop when the worker returns. *)
Definition drop_claim (generation : Z) w : World :=
  set_w_slot (slot_finish generation (w_slot w)) w.

(** [execute_queue_loop] left to itself: [runs n it] is the outcome of the [n]-th
    run. [None]: out of fuel. *)
Fixpoint execute_queue_loop (fuel : nat) (runs : nat → QueuedItem → Outcome) (n : nat)
  cfg (generation : Z) w : option World :=
  match fuel with
  | O => None
  | S fuel =>
      let '(t, w) := loop_head cfg w in
      match t with
      | Exit => Some (drop_claim generation w)
      | Again => execute_queue_loop fuel runs n cfg generation w
      | InRun it _ =>
          let '(t, w) := loop_tail it (runs n it) w in
          match t with
          | Exit => Some (drop_claim generation w)
          | _ => execute_queue_loop fuel runs (S n) cfg generation w
          end
      end
  end.

(** [execute_single_item], with the outcome of its run. *)
Definition execute_single_item it (o : Outcome) (generation : Z) w : World :=
  let w := begin_item it w in
  let w := end_item it o w in
  let w := idle_out (negb (item_completed (outcome_status o).1)) w in
  drop_claim generation w.

(** The reply thread's check of every turn ([rep_loop]). *)
Definition poll_finished w : World :=
  let '(finished, sl) := slot_take_worker_finished (w_slot w) in
  let w := set_w_slot sl w in
  if finished then maybe_autostart w else w.

(** ** Specifications *)

(** [it] archived: the same item with some result. *)
Definition archives it it' : Prop := ∃ r, it' = with_result r it.

(** An item whose plan can be built. *)
Definition buildable cfg it : bool :=
  if String.eqb (item_type it) "instruction" then false else
  match registry_plan (item_name it) (cfg_registry cfg) with
  | Some f => is_ok (call_factory f (cfg_registry cfg) (plan_args it))
  | None => false
  end.

(** The reference: in queue order, run items until one does not complete, cannot be
    built or is an instruction; that one is consumed too and the rest stays. The
    result is what was consumed, what is left, and whether the queue ran dry. *)
Fixpoint drain cfg (runs : nat → QueuedItem → Outcome) (n : nat) (items : list QueuedItem)
  : list QueuedItem * list QueuedItem * bool :=
  match items with
  | [] => ([], [], true)
  | it :: rest =>
      if buildable cfg it && item_completed (outcome_status (runs n it)).1 then
        let '(ran, kept, dry) := drain cfg runs (S n) rest in (it :: ran, kept, dry)
      else ([it], rest, false)
  end.

(** ** Lemmas *)

Lemma pop_front_items (qs : Q) :
  let '(o, s') := on_queue (λ u, PlanQueue.pop_front u) qs in
  match PlanQueue.items (pq qs) with
  | [] => o = None ∧ pq s' = pq qs
  | it :: rest => o = Some it ∧ PlanQueue.items (pq s') = rest
                  ∧ PlanQueue.history (pq s') = PlanQueue.history (pq qs)
  end ∧ uuids s' = S (uuids qs).
Proof. unfold on_queue, PlanQueue.pop_front. by destruct (PlanQueue.items (pq qs)). Qed.

(** What one pass over the front of the queue leaves. *)
Record after_item it w w' : Prop := {
  ai_items : PlanQueue.items (pq (w_q w)) = it :: PlanQueue.items (pq (w_q w'));
  ai_history : ∃ it', archives it it'
    ∧ PlanQueue.history (pq (w_q w')) = PlanQueue.history (pq (w_q w)) ++ [it'];
  ai_slot : w_slot w' = w_slot w;
}.

(** The state a worker leaves behind. *)
Record exited (disabled : bool) w w' : Prop := {
  ex_state : st_state (w_state w') = Some Idle;
  ex_item : current_item (w_state w') = None;
  ex_pause : QState.pause_pending (w_state w') = false;
  ex_auto : queue_autostart_enabled (w_state w') =
            if disabled then false else queue_autostart_enabled (w_state w);
}.

Lemma loop_head_stop cfg w :
  queue_stop_pending (w_state w) = true →
  let '(t, w1) := loop_head cfg w in
  t = Exit ∧ w_q w1 = w_q w ∧ w_slot w1 = w_slot w ∧ exited true w w1.
Proof. unfold loop_head. intros ->. done. Qed.

Lemma loop_head_empty cfg w :
  queue_stop_pending (w_state w) = false → PlanQueue.items (pq (w_q w)) = [] →
  let '(t, w1) := loop_head cfg w in
  t = Exit ∧ pq (w_q w1) = pq (w_q w) ∧ w_slot w1 = w_slot w ∧ exited false w w1.
Proof.
  unfold loop_head. intros -> Hi. pose proof (pop_front_items (w_q w)) as Hp.
  destruct (on_queue _ (w_q w)) as [o q]. rewrite Hi in Hp. destruct Hp as [[-> Hq] _]. done.
Qed.

Lemma loop_head_item cfg w it rest :
  queue_stop_pending (w_state w) = false → PlanQueue.items (pq (w_q w)) = it :: rest →
  let '(t, w1) := loop_head cfg w in
  if buildable cfg it then
    (∃ pl, t = InRun it pl) ∧ PlanQueue.items (pq (w_q w1)) = rest
    ∧ PlanQueue.history (pq (w_q w1)) = PlanQueue.history (pq (w_q w))
    ∧ queue_mode (w_state w1) = queue_mode (w_state w)
    ∧ queue_autostart_enabled (w_state w1) = queue_autostart_enabled (w_state w)
    ∧ queue_stop_pending (w_state w1) = false ∧ w_slot w1 = w_slot w
  else
    after_item it w w1
    ∧ (t = Exit ∧ exited true w w1 ∨ t = Again ∧ queue_stop_pending (w_state w1) = true).
Proof.
  unfold loop_head, buildable. intros Hstop Hi. rewrite Hstop.
  pose proof (pop_front_items (w_q w)) as Hp.
  destruct (on_queue _ (w_q w)) as [o q]. rewrite Hi in Hp. destruct Hp as [(-> & Hq & Hh) _].
  destruct (String.eqb (item_type it) "instruction").
  - destruct (String.eqb (item_name it) "queue_stop").
    + split; [|by right]. split; simpl; [by rewrite Hi, Hq| |done].
      eexists. split; [by eexists|]. by rewrite Hh.
    + split; [|by left]. split; simpl; [by rewrite Hi, Hq| |done].
      eexists. split; [by eexists|]. by rewrite Hh.
  - destruct (registry_plan _ _) as [f|].
    + destruct (call_factory f _ _) as [pl|e]; simpl.
      * rewrite Hq, Hh. split_and!; by eauto.
      * split; [|by left]. split; simpl; [by rewrite Hi, Hq| |done].
        eexists. split; [by eexists|]. by rewrite Hh.
    + split; [|by left]. split; simpl; [by rewrite Hi, Hq| |done].
      eexists. split; [by eexists|]. by rewrite Hh.
Qed.

(** The end of a run archives the item and touches neither the pending items nor the
    settings. *)
Lemma end_item_spec it o w :
  PlanQueue.items (pq (w_q (end_item it o w))) = PlanQueue.items (pq (w_q w))
  ∧ (∃ it', archives it it' ∧ PlanQueue.history (pq (w_q (end_item it o w))) =
                              PlanQueue.history (pq (w_q w)) ++ [it'])
  ∧ queue_mode (w_state (end_item it o w)) = queue_mode (w_state w)
  ∧ queue_autostart_enabled (w_state (end_item it o w)) = queue_autostart_enabled (w_state w)
  ∧ queue_stop_pending (w_state (end_item it o w)) = queue_stop_pending (w_state w)
  ∧ current_item (w_state (end_item it o w)) = None
  ∧ w_slot (end_item it o w) = w_slot w.
Proof.
  unfold end_item. destruct (outcome_status o) as [status why]. simpl.
  destruct (outcome_uid o), (failed_status status); simpl; split_and!; try done;
    eexists; (split; [by eexists|done]).
Qed.

(** What a whole run of the worker leaves, loop mode off. *)
Record drained cfg (runs : nat → QueuedItem → Outcome) (n : nat) (generation : Z) w w' : Prop := {
  d_ran : ∃ arch,
    let '(ran, kept, dry) := drain cfg runs n (PlanQueue.items (pq (w_q w))) in
    PlanQueue.items (pq (w_q w')) = kept
    ∧ Forall2 archives ran arch
    ∧ PlanQueue.history (pq (w_q w')) = PlanQueue.history (pq (w_q w)) ++ arch
    ∧ queue_autostart_enabled (w_state w') = (dry && queue_autostart_enabled (w_state w));
  d_state : st_state (w_state w') = Some Idle;
  d_item : current_item (w_state w') = None;
  d_slot : w_slot w' = slot_finish generation (w_slot w);
}.

Lemma loop_stops cfg fuel runs n g w :
  queue_stop_pending (w_state w) = true →
  ∃ w', execute_queue_loop (S fuel) runs n cfg g w = Some w'
    ∧ pq (w_q w') = pq (w_q w) ∧ w_slot w' = slot_finish g (w_slot w) ∧ exited true w w'.
Proof.
  intros Hs. pose proof (loop_head_stop cfg w Hs) as Hh. simpl.
  destruct (loop_head cfg w) as [t w1]. destruct Hh as (-> & Hq & Hsl & He).
  eexists. split; [done|]. simpl. rewrite Hq, Hsl. split_and!; try done. by destruct He.
Qed.

Lemma loop_drains cfg runs g fuel : ∀ n w,
  loop_mode (w_state w) = false → queue_stop_pending (w_state w) = false →
  length (PlanQueue.items (pq (w_q w))) + 2 ≤ fuel →
  ∃ w', execute_queue_loop fuel runs n cfg g w = Some w' ∧ drained cfg runs n g w w'.
Proof.
  induction fuel as [|fuel IH]; intros n w Hm Hs Hf; [lia|].
  destruct (PlanQueue.items (pq (w_q w))) as [|it rest] eqn:Hi.
  { pose proof (loop_head_empty cfg w Hs Hi) as Hh. simpl.
    destruct (loop_head cfg w) as [t w1]. destruct Hh as (-> & Hq & Hsl & [He1 He2 He3 He4]).
    eexists. split; [done|]. split; simpl; rewrite ?Hq, ?Hsl, ?Hi; try done.
    exists []. simpl. rewrite app_nil_r. done. }
  pose proof (loop_head_item cfg w it rest Hs Hi) as Hh. simpl in Hf |- *.
  destruct (loop_head cfg w) as [t w1]. destruct (buildable cfg it) eqn:Hb.
  - destruct Hh as ([pl ->] & Hi1 & Hh1 & Hm1 & Ha1 & Hs1 & Hsl1). unfold loop_tail.
    destruct (end_item_spec it (runs n it) w1)
      as (Hi2 & (it' & Har & Hh2) & Hm2 & Ha2 & Hs2 & Hc2 & Hsl2).
    assert (loop_mode (w_state (end_item it (runs n it) w1)) = false) as Hm3.
    { unfold loop_mode in *. by rewrite Hm2, Hm1. }
    rewrite Hm3. destruct (item_completed (outcome_status (runs n it)).1) eqn:Hc; simpl.
    + destruct (IH (S n) (end_item it (runs n it) w1)) as (w' & Hw' & [Hran Hst Hit Hsl]);
        [done|congruence|rewrite Hi2, Hi1; lia|].
      exists w'. split; [done|]. split; try done; [|by rewrite Hsl, Hsl2, Hsl1].
      rewrite Hi. simpl. rewrite Hb, Hc. simpl. rewrite Hi2, Hi1 in Hran.
      destruct Hran as (arch & Hran). destruct (drain cfg runs (S n) rest) as [[ran kept] dry].
      destruct Hran as (? & ? & Hh3 & Ha3). exists (it' :: arch). split_and!; try done.
      * by constructor.
      * by rewrite Hh3, Hh2, Hh1, <-app_assoc.
      * by rewrite Ha3, Ha2, Ha1.
    + eexists. split; [done|]. split; simpl; try done; [|by rewrite Hsl2, Hsl1].
      rewrite Hi. simpl. rewrite Hb, Hc. simpl. exists [it'].
      rewrite Hi2, Hh2, Hi1, Hh1. split_and!; try done. by repeat constructor.
  - destruct Hh as [[Hi1 (it' & Har & Hh1) Hsl1] Ht].
    assert (PlanQueue.items (pq (w_q w1)) = rest) as Hr by (rewrite Hi in Hi1; congruence).
    destruct Ht as [[-> [He1 He2 He3 He4]]|[-> Hs1]].
    + eexists. split; [done|]. split; simpl; try done; [|by rewrite Hsl1].
      rewrite Hi. simpl. rewrite Hb. simpl. exists [it']. rewrite Hh1, Hr.
      split_and!; try done. by repeat constructor.
    + destruct fuel as [|fuel]; [lia|].
      destruct (loop_stops cfg fuel runs n g w1 Hs1) as (w' & -> & Hq & Hsl & [He1 He2 He3 He4]).
      exists w'. split; [done|]. split; try done; [|by rewrite Hsl, Hsl1].
      rewrite Hi. simpl. rewrite Hb. simpl. exists [it']. rewrite Hq, Hh1, Hr.
      split_and!; try done. by repeat constructor.
Qed.

(** ** Theorems *)

(** C2: With loop mode off, no stop of the queue pending and nobody else touching the queue or
    the manager while it works, the worker ends, and what it leaves is what the reference
    computes: the items consumed in queue order and archived in that order, each once; the
    rest of the queue untouched; the manager idle with no running item; autostart still
    armed only when the queue ran dry; the slot released. One turn per item and two more are
    enough. *)
Theorem queue_loop_refines_drain cfg runs n g w fuel :
  loop_mode (w_state w) = false → queue_stop_pending (w_state w) = false →
  length (PlanQueue.items (pq (w_q w))) + 2 ≤ fuel →
  ∃ w', execute_queue_loop fuel runs n cfg g w = Some w' ∧ drained cfg runs n g w w'.
Proof. apply loop_drains. Qed.

(** An item executed outside the queue is archived like a queued one and leaves
    the queue as it is; the manager returns to idle, and only a run that did not
    complete disarms autostart. *)
Theorem single_item_correct it o g w :
  let w' := execute_single_item it o g w in
  PlanQueue.items (pq (w_q w')) = PlanQueue.items (pq (w_q w))
  ∧ (∃ it', archives it it' ∧
       PlanQueue.history (pq (w_q w')) = PlanQueue.history (pq (w_q w)) ++ [it'])
  ∧ st_state (w_state w') = Some Idle ∧ current_item (w_state w') = None
  ∧ queue_autostart_enabled (w_state w') =
      (item_completed (outcome_status o).1 && queue_autostart_enabled (w_state w))
  ∧ w_slot w' = slot_finish g (w_slot w).
Proof.
  unfold execute_single_item.
  destruct (end_item_spec it o (begin_item it w)) as (Hi & (it' & Ha & Hh) & _ & Hau & _ & _ & Hsl).
  cbv zeta. split_and!.
  - simpl. by rewrite Hi.
  - exists it'. split; [done|]. simpl. by rewrite Hh.
  - simpl. by destruct (negb _).
  - simpl. by destruct (negb _).
  - simpl. destruct (item_completed _); simpl; [|done]. by rewrite Hau.
  - simpl. by rewrite Hsl.
Qed.

(** The record of recent runs is bounded: it never holds more than 64 entries, and
    it ends with the run just recorded. *)
Lemma record_run_bounded uid runs :
  length (record_run uid runs) ≤ 64 ∧ last (record_run uid runs) = Some (uid, false)
  ∧ (length runs < 64 → length (record_run uid runs) = S (length runs)).
Proof.
  unfold record_run. set (l := (λ e : string * bool, _) <$> runs).
  assert (length l = length runs) as Hl by apply length_fmap.
  rewrite length_drop, length_app. simpl. split_and!; [lia| |lia].
  rewrite drop_app_le by lia. apply last_snoc.
Qed.

(** A worker that finished wakes an armed queue: when its release has been
    announced and the queue is armed and not empty, with the manager idle, an
    environment open and the slot free, the next turn of the reply loop starts a
    worker, and the announcement is consumed. *)
Theorem finished_worker_wakes_queue w re :
  worker_finished (w_slot w) = true → entry (w_slot w) = None →
  queue_autostart_enabled (w_state w) = true → PlanQueue.is_empty (pq (w_q w)) = false →
  st_state (w_state w) = Some Idle → w_engine w = Some re →
  w_spawned (poll_finished w) = w_spawned w ++ [SpQueueLoop (en_id re) (next_gen (w_slot w))]
  ∧ slot_is_active (w_slot (poll_finished w)) = true
  ∧ worker_finished (w_slot (poll_finished w)) = false.
Proof.
  intros Hf He Ha Hq Hs Hen. unfold poll_finished, slot_take_worker_finished. rewrite Hf.
  unfold maybe_autostart. simpl. rewrite Ha, Hq. simpl. unfold queue_start. simpl.
  rewrite Hen, bool_decide_eq_true_2 by done. simpl. unfold slot_claim. simpl. rewrite He. simpl.
  unfold spawn_claimed, slot_register. simpl. by rewrite decide_True by done.
Qed.

End worker.

(** ** Witnesses *)

Module ExW.
Export Dispatch.ExD.
Definition ok_run (n : nat) (i : QueuedItem) : Outcome :=
  Ok (mkResult ["r" +:+ item_uid i] "success" false "" None).
(** An idle manager with one item queued and the queue armed. *)
Definition w_armed : World :=
  set_w_q s0 (set_w_engine (Some re0)
    (set_w_state (set_queue_autostart_enabled true (set_state (Some Idle) st0)) w0)).
End ExW.
Import ExW.

Lemma queue_loop_refines_drain_witness :
  ∃ w', execute_queue_loop 9 ok_run 0 cfg 0 w_armed = Some w'
    ∧ st_state (w_state w') = Some Idle.
Proof.
  destruct (queue_loop_refines_drain cfg ok_run 0 0 w_armed 9) as (w' & ? & [_ ? _ _]);
    [reflexivity|reflexivity|simpl; lia|].
  by exists w'.
Defined.

Lemma finished_worker_wakes_queue_witness :
  w_spawned (poll_finished (set_w_slot (mkSlot 1 None true) w_armed)) = [SpQueueLoop 0 1].
Proof. apply (finished_worker_wakes_queue (set_w_slot (mkSlot 1 None true) w_armed) re0); reflexivity. Defined.
