(* ===== verification/Documents.v ===== *)
(** * The document model ([event_model/documents.rs])

    The ten document kinds with the fields the engine composes them from. A
    [HashMap] is a [gmap]; an [f64] is its 64-bit pattern, because the code only
    copies times and readings and never computes with them. *)

From S2P Require Import Prelude Interfaces.

Definition f64 := Z.

(** ** Exit statuses *)

Inductive ExitStatus := Success | Abort | Fail_.

#[export] Instance ExitStatus_eq_dec : EqDecision ExitStatus.
Proof. solve_decision. Defined.

Definition exit_as_str (s : ExitStatus) : string :=
  match s with Success => "success" | Abort => "abort" | Fail_ => "fail" end.

(** [from_str]; the error is only ever unwrapped. *)
Definition exit_from_str (s : string) : option ExitStatus :=
  if String.eqb s "success" then Some Success
  else if String.eqb s "abort" then Some Abort
  else if String.eqb s "fail" then Some Fail_
  else None.

Lemma exit_round_trip s : exit_from_str (exit_as_str s) = Some s.
Proof. by destruct s. Qed.

Lemma exit_from_str_Some s e : exit_from_str s = Some e → s = exit_as_str e.
Proof.
  unfold exit_from_str. intros H. repeat case_match; bools; simplify_eq; done.
Qed.

(** ** Data keys *)

Inductive Dtype := DString | DNumber | DArray | DBoolean | DInteger.

Inductive DtypeNumpy :=
| NpScalar (s : string)
| NpStructured (fields : list (string * string)).

Record LimitsRange := mkLimitsRange { high : option f64; low : option f64 }.
Record RdsRange := mkRds { time_difference : f64; value_difference : f64 }.
Record Limits := mkLimits {
  alarm : option LimitsRange;
  control : option LimitsRange;
  display : option LimitsRange;
  warning : option LimitsRange;
  hysteresis : option f64;
  rds : option RdsRange;
}.

Record DataKey := mkDataKey {
  dk_source : string;
  dk_dtype : Dtype;
  dk_shape : list (option Z);
  dk_dtype_numpy : option DtypeNumpy;
  dk_external : option string;
  dk_units : option string;
  dk_precision : option Z;
  dk_object_name : option string;
  dk_dims : option (list string);
  dk_limits : option Limits;
  dk_choices : option (list string);
}.

Definition set_object_name (n : option string) (k : DataKey) : DataKey :=
  mkDataKey (dk_source k) (dk_dtype k) (dk_shape k) (dk_dtype_numpy k) (dk_external k)
    (dk_units k) (dk_precision k) n (dk_dims k) (dk_limits k) (dk_choices k).

Record SignalMetadata := mkSignalMetadata {
  sm_limits : option Limits;
  sm_choices : option (list string);
  sm_precision : option Z;
  sm_units : option string;
}.

Definition make_datakey (source : string) (dtype : Dtype) (shape : list (option Z))
  (dtype_numpy : option DtypeNumpy) (meta : SignalMetadata) : DataKey :=
  mkDataKey source dtype shape dtype_numpy None (sm_units meta) (sm_precision meta) None None
    (sm_limits meta) (sm_choices meta).

(** ** Hints *)

Inductive DimensionItem := DimName (s : string) | DimFields (l : list string).
Record Hints := mkHints { dimensions : option (list (list DimensionItem)) }.

Record PerObjectHint := mkHint { hint_fields : option (list string); NX_class : option string }.

(** ** Documents *)

Record StreamRange := mkRange { r_start : Z; r_stop : Z }.

Record StreamResource `{JsonNumber} := mkStreamResource {
  sr_uid : string;
  sr_data_key : string;
  sr_mimetype : string;
  sr_uri : string;
  sr_parameters : gmap string Value;
  sr_run_start : option string;
}.

Record StreamDatum := mkStreamDatum {
  sd_uid : string;
  sd_stream_resource : string;
  sd_descriptor : string;
  sd_indices : StreamRange;
  sd_seq_nums : StreamRange;
}.

Section documents.
Context `{JsonNumber}.

Record Projections := mkProjections {
  pj_configuration : gmap string Value;
  pj_name : string;
  pj_projection : gmap string Value;
  pj_version : string;
}.

Record RunStart := mkRunStart {
  rs_uid : string;
  rs_time : f64;
  rs_scan_id : option Z;
  rs_hints : option Hints;
  rs_sample : option Value;
  rs_data_groups : list string;
  rs_data_session : string;
  rs_data_type : option Value;
  rs_group : string;
  rs_owner : string;
  rs_project : string;
  rs_projections : list Projections;
  rs_extra : gmap string Value;
}.

Record RunStop := mkRunStop {
  stop_uid : string;
  stop_run_start : string;
  stop_time : f64;
  stop_exit_status : ExitStatus;
  stop_why : option string;
  stop_num_events : gmap string Z;
  stop_data_type : option Value;
  stop_extra : gmap string Value;
}.

Record Configuration := mkConfiguration {
  cf_data : gmap string Value;
  cf_data_keys : gmap string DataKey;
  cf_timestamps : gmap string f64;
}.

Definition configuration_default : Configuration := mkConfiguration ∅ ∅ ∅.

Record EventDescriptor := mkDescriptor {
  ed_uid : string;
  ed_run_start : string;
  ed_time : f64;
  ed_data_keys : gmap string DataKey;
  ed_configuration : gmap string Configuration;
  ed_name : option string;
  ed_hints : option (gmap string PerObjectHint);
  ed_object_keys : gmap string (list string);
}.

(** [TypedReading<serde_json::Value>] *)
Record ReadingValue := mkReading {
  rd_value : Value;
  rd_timestamp : f64;
  rd_alarm_severity : option Z;
  rd_message : option string;
}.

Record Event := mkEvent {
  ev_uid : string;
  ev_descriptor : string;
  ev_time : f64;
  ev_seq_num : Z;
  ev_data : gmap string Value;
  ev_timestamps : gmap string f64;
  ev_filled : gmap string Value;
}.

Record EventPage := mkEventPage {
  ep_uid : list string;
  ep_descriptor : string;
  ep_time : list f64;
  ep_seq_num : list Z;
  ep_data : gmap string (list Value);
  ep_timestamps : gmap string (list f64);
  ep_filled : gmap string (list Value);
}.

Record Resource := mkResource {
  res_uid : string;
  res_spec : string;
  res_root : string;
  res_path : string;
  res_path_semantics : option string;
  res_kwargs : gmap string Value;
  res_run_start : option string;
}.

Record Datum := mkDatum {
  datum_id : string;
  datum_resource : string;
  datum_kwargs : gmap string Value;
}.

Record DatumPage := mkDatumPage {
  dp_id : list string;
  dp_resource : string;
  dp_kwargs : gmap string (list Value);
}.

Inductive Document :=
| DocStart (d : RunStart)
| DocDescriptor (d : EventDescriptor)
| DocEvent (d : Event)
| DocEventPage (d : EventPage)
| DocResource (d : Resource)
| DocDatum (d : Datum)
| DocDatumPage (d : DatumPage)
| DocStreamResource (d : StreamResource)
| DocStreamDatum (d : StreamDatum)
| DocStop (d : RunStop).

(** ** Subscription filters *)

Inductive DocFilter := FAll | FStart | FDescriptor | FEvent | FStop.

Definition filter_matches (f : DocFilter) (d : Document) : bool :=
  match f, d with
  | FAll, _ => true
  | FStart, DocStart _ => true
  | FDescriptor, DocDescriptor _ => true
  | FEvent, DocEvent _ => true
  | FStop, DocStop _ => true
  | _, _ => false
  end.
End documents.
