(* ===== verification/F64.v ===== *)
(** * Double-precision numbers

    An [f64] is its bit pattern. The arithmetic is the IEEE 754 binary64 arithmetic of
    the specification of floating-point numbers in Rocq's library, read from and
    written to bit patterns, and the comparisons and roundings are Rust's. The
    elementary functions, whose last bits the platform decides, are parameters. *)

From Stdlib Require Import SpecFloat.
From S2P Require Import Prelude Documents.

#[local] Open Scope Z_scope.

(** ** Bit patterns *)

Definition sign_bit : Z := 9223372036854775808.
Definition frac_size : Z := 4503599627370496.
Definition exp_mask : Z := 2047.
Definition quiet_nan : f64 := 9221120237041090560.

Definition of_bits (b : f64) : spec_float :=
  let s := negb (b <? sign_bit) in
  let e := (b `div` frac_size) `mod` 2048 in
  let m := b `mod` frac_size in
  if e =? exp_mask then (if m =? 0 then S754_infinity s else S754_nan)
  else match (if e =? 0 then m else m + frac_size) with
       | Zpos p => S754_finite s p (if e =? 0 then -1074 else e - 1075)
       | _ => S754_zero s
       end.

Definition signed (s : bool) (b : Z) : f64 := if s then sign_bit + b else b.

Definition to_bits (x : spec_float) : f64 :=
  match x with
  | S754_zero s => signed s 0
  | S754_infinity s => signed s (exp_mask * frac_size)
  | S754_nan => quiet_nan
  | S754_finite s m e =>
      signed s (if Zpos m <? frac_size then Zpos m
                else (e + 1075) * frac_size + (Zpos m - frac_size))
  end.

(** ** Arithmetic *)

Definition unop (op : spec_float → spec_float) (a : f64) : f64 := to_bits (op (of_bits a)).
Definition binop (op : spec_float → spec_float → spec_float) (a b : f64) : f64 :=
  to_bits (op (of_bits a) (of_bits b)).

Definition f64_add : f64 → f64 → f64 := binop (SFadd 53 1024).
Definition f64_sub : f64 → f64 → f64 := binop (SFsub 53 1024).
Definition f64_mul : f64 → f64 → f64 := binop (SFmul 53 1024).
Definition f64_div : f64 → f64 → f64 := binop (SFdiv 53 1024).
Definition f64_sqrt : f64 → f64 := unop (SFsqrt 53 1024).
Definition f64_neg : f64 → f64 := unop SFopp.
Definition f64_abs : f64 → f64 := unop SFabs.

(** [n as f64]. *)
Definition f64_of_Z (n : Z) : f64 := to_bits (binary_normalize 53 1024 n 0 false).
Definition f64_of_nat (n : nat) : f64 := f64_of_Z (Z.of_nat n).

Definition f64_eqb (a b : f64) : bool := SFeqb (of_bits a) (of_bits b).
Definition f64_ltb (a b : f64) : bool := SFltb (of_bits a) (of_bits b).
Definition f64_leb (a b : f64) : bool := SFleb (of_bits a) (of_bits b).

Definition is_nan (a : f64) : bool := match of_bits a with S754_nan => true | _ => false end.

(** [f64::min], [f64::max]: a NaN loses. *)
Definition f64_min (a b : f64) : f64 :=
  if is_nan a then b else if is_nan b then a else if f64_ltb b a then b else a.
Definition f64_max (a b : f64) : f64 :=
  if is_nan a then b else if is_nan b then a else if f64_ltb a b then b else a.

(** [f64::clamp], which panics unless [lo <= hi]. *)
Definition f64_clamp (x lo hi : f64) : option f64 :=
  if f64_leb lo hi then Some (if f64_ltb x lo then lo else if f64_ltb hi x then hi else x)
  else None.

Definition f64_one : f64 := 4607182418800017408.
Definition f64_two : f64 := 4611686018427387904.
Definition f64_half : f64 := 4602678819172646912.
Definition f64_pi : f64 := 4614256656552045848.

Definition f64_signum (a : f64) : f64 :=
  match of_bits a with
  | S754_nan => quiet_nan
  | S754_zero s | S754_infinity s | S754_finite s _ _ => signed s f64_one
  end.

(** [x as usize]: towards zero, saturating, a NaN is 0. *)
Definition f64_to_usize (a : f64) : Z :=
  match of_bits a with
  | S754_finite false m e =>
      Z.min (if e <? 0 then Zpos m `div` 2 ^ (- e) else Zpos m * 2 ^ e) u64_max
  | S754_infinity false => u64_max
  | _ => 0
  end.

(** Literals: [n / 10^k]. *)
Definition f64_dec (n k : Z) : f64 := f64_div (f64_of_Z n) (f64_of_Z (10 ^ k)).

Declare Scope f64_scope.
Delimit Scope f64_scope with f64.
Infix "+" := f64_add : f64_scope.
Infix "-" := f64_sub : f64_scope.
Infix "*" := f64_mul : f64_scope.
Infix "/" := f64_div : f64_scope.
Notation "- x" := (f64_neg x) : f64_scope.
Infix "<=?" := f64_leb : f64_scope.
Infix "<?" := f64_ltb : f64_scope.
Infix "=?" := f64_eqb : f64_scope.

Class Libm := {
  f64_cos : f64 → f64;
  f64_sin : f64 → f64;
  f64_tan : f64 → f64;
  f64_exp : f64 → f64;
  f64_ln : f64 → f64;
}.

(** ** Bit patterns and numbers *)

Definition valid (x : spec_float) : bool :=
  match x with S754_finite _ m e => bounded 53 1024 m e | _ => true end.

Definition is_f64 (b : f64) : Prop := 0 ≤ b < 2 * sign_bit.

Lemma digits2_pos_log2 p : Zpos (digits2_pos p) = Z.log2 (Zpos p) + 1.
Proof.
  induction p as [p IH|p IH|]; simpl digits2_pos; [| |done].
  - rewrite Pos2Z.inj_succ, IH. rewrite (Pos2Z.inj_xI p), Z.log2_succ_double by lia. lia.
  - rewrite Pos2Z.inj_succ, IH. rewrite (Pos2Z.inj_xO p), Z.log2_double by lia. lia.
Qed.

Lemma bounded_spec m e :
  bounded 53 1024 m e = true ↔
  (Zpos m < frac_size ∧ e = -1074) ∨ (frac_size ≤ Zpos m < 2 * frac_size ∧ -1074 ≤ e ≤ 971).
Proof.
  unfold bounded, canonical_mantissa, fexp, emin. rewrite digits2_pos_log2, andb_true_iff, Z.eqb_eq, Z.leb_le.
  change frac_size with (2 ^ 52). change (2 * 2 ^ 52) with (2 ^ 53).
  assert (0 ≤ Z.log2 (Zpos m)) by apply Z.log2_nonneg.
  assert (2 ^ Z.log2 (Zpos m) ≤ Zpos m < 2 ^ Z.succ (Z.log2 (Zpos m))) as [Hl Hu] by (by apply Z.log2_spec).
  assert (Zpos m < 2 ^ 52 ↔ Z.log2 (Zpos m) < 52) as -> by (by apply Z.log2_lt_pow2).
  assert (Zpos m < 2 ^ 53 ↔ Z.log2 (Zpos m) < 53) as -> by (by apply Z.log2_lt_pow2).
  assert (2 ^ 52 ≤ Zpos m ↔ 52 ≤ Z.log2 (Zpos m)) as -> by (by apply Z.log2_le_pow2).
  lia.
Qed.

Lemma signed_split s z :
  0 ≤ z < sign_bit →
  negb (signed s z <? sign_bit) = s ∧ signed s z `mod` frac_size = z `mod` frac_size
  ∧ (signed s z `div` frac_size) `mod` 2048 = z `div` frac_size.
Proof.
  intros Hz. assert (0 ≤ z `div` frac_size < 2048) as Hd.
  { unfold sign_bit, frac_size in *. split; [apply Z.div_pos|apply Z.div_lt_upper_bound]; lia. }
  destruct s; unfold signed; split_and!.
  - apply negb_true_iff, Z.ltb_ge. lia.
  - change sign_bit with (2048 * frac_size). rewrite Z.add_comm. by apply Z.mod_add.
  - change sign_bit with (2048 * frac_size). rewrite Z.div_add_l by done.
    rewrite Z.add_mod, Z.mod_same, Z.add_0_l, Z.mod_mod by done. by apply Z.mod_small.
  - apply negb_false_iff, Z.ltb_lt. lia.
  - done.
  - by apply Z.mod_small.
Qed.

Lemma of_signed s e m :
  0 ≤ e < 2048 → 0 ≤ m < frac_size →
  of_bits (signed s (e * frac_size + m)) =
  if e =? exp_mask then (if m =? 0 then S754_infinity s else S754_nan)
  else match (if e =? 0 then m else m + frac_size) with
       | Zpos p => S754_finite s p (if e =? 0 then -1074 else e - 1075)
       | _ => S754_zero s
       end.
Proof.
  intros He Hm. unfold of_bits.
  destruct (signed_split s (e * frac_size + m)) as (-> & -> & ->).
  { unfold sign_bit, frac_size in *. nia. }
  by rewrite Z.div_add_l, (Z.div_small m), Z.add_0_r, (Z.add_comm _ m), Z.mod_add, Z.mod_small by done.
Qed.

(** ** Theorems *)

(** A valid binary64 number is the number its bit pattern stands for. *)
Theorem of_to_bits x : valid x = true → of_bits (to_bits x) = x.
Proof.
  destruct x as [s|s| |s m e]; intros Hv.
  - by apply (of_signed s 0 0).
  - by apply (of_signed s 2047 0).
  - done.
  - cbn [valid] in Hv. apply bounded_spec in Hv. cbn [to_bits]. destruct (Z.ltb_spec (Zpos m) frac_size).
    + change (Zpos m) with (0 * frac_size + Zpos m) at 1. rewrite of_signed by lia. simpl. destruct Hv as [[_ ->]|]; [done|lia].
    + rewrite of_signed by (unfold frac_size in *; lia).
      destruct (Z.eqb_spec (e + 1075) exp_mask); [unfold exp_mask in *; lia|].
      destruct (Z.eqb_spec (e + 1075) 0); [lia|].
      replace (Zpos m - frac_size + frac_size) with (Zpos m) by lia. f_equal. lia.
Qed.

(** Every bit pattern but those of the NaNs stands for a valid number, and is read back
    from it. *)
Theorem to_of_bits b :
  is_f64 b → is_nan b = false → to_bits (of_bits b) = b ∧ valid (of_bits b) = true.
Proof.
  intros Hb Hn. pose proof (Z.div_mod b frac_size ltac:(done)) as Hdm.
  set (s := negb (b <? sign_bit)). set (z := if s then b - sign_bit else b).
  assert (b = signed s z ∧ 0 ≤ z < sign_bit) as [Hbs Hz].
  { subst z s. unfold signed, is_f64 in *. destruct (Z.ltb_spec b sign_bit); simpl; lia. }
  set (e := z `div` frac_size). set (m := z `mod` frac_size).
  assert (z = e * frac_size + m) as Hem
    by (rewrite Z.mul_comm; by apply Z.div_mod).
  assert (0 ≤ m < frac_size) as Hm by (by apply Z.mod_pos_bound).
  assert (0 ≤ e < 2048) as He by (unfold frac_size, sign_bit in *; lia).
  clearbody e m s. rewrite Hem in Hbs. clear z Hz Hem Hdm. unfold is_nan in Hn.
  rewrite Hbs in Hn |- *. rewrite (of_signed s e m He Hm) in Hn |- *. clear Hbs Hb b.
  destruct (Z.eqb_spec e exp_mask) as [->|Hne].
  - destruct (m =? 0) eqn:E0; [|done]. apply Z.eqb_eq in E0. rewrite E0. by rewrite Z.add_0_r.
  - destruct (Z.eqb_spec e 0) as [->|H0].
    + destruct m as [|p|p] eqn:Em; [done| |lia]. cbn [to_bits valid].
      destruct (Z.ltb_spec (Zpos p) frac_size); [|lia]. split; [done|]. apply bounded_spec. by left.
    + destruct (m + frac_size) as [|p|p] eqn:Em; [unfold frac_size in *; lia| |unfold frac_size in *; lia].
      cbn [to_bits valid]. destruct (Z.ltb_spec (Zpos p) frac_size); [lia|]. split; [f_equal; lia|].
      apply bounded_spec. right. unfold exp_mask in *. lia.
Qed.

(** The literals of the code. *)
Example f64_literals :
  f64_of_Z 1 = f64_one ∧ f64_dec 5 1 = 4602678819172646912 ∧ f64_dec 11 1 = 4607632778762754458
  ∧ f64_add (f64_dec 1 1) (f64_dec 2 1) = 4599075939470750516.
Proof. vm_compute. done. Qed.

(** [Duration::as_secs_f64] of a duration in nanoseconds. *)
Definition as_secs_f64 (ns : Z) : f64 :=
  f64_add (f64_of_Z (ns `div` 1000000000)) (f64_div (f64_of_Z (ns `mod` 1000000000)) (f64_of_Z 1000000000)).

Module LibmSample.
#[export] Instance sample_libm : Libm :=
  {| f64_cos x := x; f64_sin x := x; f64_tan x := x; f64_exp x := x; f64_ln x := x |}.
End LibmSample.
