(* ===== verification/F64Order.v ===== *)
(** * Sums and comparisons of non-negative doubles

    The rank of a non-negative double is its value in units of the smallest positive one, an
    infinity having that of the first power of two out of range. Sums round the sum of the
    ranks, rounding is monotone, and doubles are compared as their ranks are. *)

From Stdlib Require Import SpecFloat.
From S2P Require Import Prelude Documents F64.

#[local] Open Scope Z_scope.

(** ** Shifting to the right *)

(** Where [m] lies between the multiples of [2^n]. *)
Definition loc (m n : Z) : location :=
  if m `mod` 2 ^ n =? 0 then loc_Exact else loc_Inexact (2 * (m `mod` 2 ^ n) ?= 2 ^ n).

Lemma shr_1_div mrs :
  0 ≤ shr_m mrs → shr_1 mrs = Build_shr_record (shr_m mrs `div` 2) (Z.odd (shr_m mrs)) (shr_r mrs || shr_s mrs).
Proof.
  destruct mrs as [m r s]. simpl. intros Hm. rewrite <-Z.div2_div. by destruct m as [|[p|p|]|].
Qed.

Lemma shr_m_iter p mrs : 0 ≤ shr_m mrs → shr_m (SpecFloat.iter_pos shr_1 p mrs) = shr_m mrs `div` 2 ^ Zpos p.
Proof.
  revert mrs. induction p as [p IH|p IH|]; intros mrs Hm; simpl.
  - assert (0 < 2 ^ Zpos p) by (by apply Z.pow_pos_nonneg).
    assert (0 ≤ shr_m (shr_1 mrs)) by (rewrite shr_1_div by done; by apply Z.div_pos).
    rewrite IH, IH by (rewrite ?IH by done; try apply Z.div_pos; done). rewrite shr_1_div by done. cbn [shr_m].
    rewrite !Z.div_div by lia. f_equal. replace (Zpos p~1) with (1 + (Zpos p + Zpos p)) by lia.
    rewrite !Z.pow_add_r by lia. lia.
  - assert (0 < 2 ^ Zpos p) by (by apply Z.pow_pos_nonneg).
    rewrite IH, IH by (rewrite ?IH by done; try apply Z.div_pos; done).
    rewrite Z.div_div by lia. f_equal. replace (Zpos p~0) with (Zpos p + Zpos p) by lia.
    by rewrite Z.pow_add_r by lia.
  - by rewrite shr_1_div by done.
Qed.

(** The record of [m] shifted by [n] bits. *)
Definition shifted (m n : Z) mrs : Prop := shr_m mrs = m `div` 2 ^ n ∧ loc_of_shr_record mrs = loc m n.

Lemma shifted_1 m n mrs : 0 ≤ m → 0 ≤ n → shifted m n mrs → shifted m (n + 1) (shr_1 mrs).
Proof.
  intros Hm Hn [Em El]. assert (0 < 2 ^ n) as Hp by (by apply Z.pow_pos_nonneg).
  assert (0 ≤ shr_m mrs) as Hq by (rewrite Em; by apply Z.div_pos).
  rewrite shr_1_div by done. unfold shifted. cbn [shr_m].
  assert (2 ^ (n + 1) = 2 ^ n * 2) as E2 by (rewrite Z.pow_add_r by lia; lia).
  split.
  { by rewrite Em, Z.div_div, E2 by lia. }
  assert (m `mod` 2 ^ (n + 1) = 2 ^ n * (shr_m mrs `mod` 2) + m `mod` 2 ^ n) as Er.
  { rewrite E2, Em, Z.rem_mul_r by lia. lia. }
  pose proof (Z.mod_pos_bound m (2 ^ n) Hp) as Hb.
  assert ((shr_r mrs || shr_s mrs) = negb (m `mod` 2 ^ n =? 0)) as ->.
  { unfold loc in El. destruct mrs as [q r s]. simpl in *.
    destruct (m `mod` 2 ^ n =? 0) eqn:E0; destruct r, s; simplify_eq; done. }
  unfold loc. rewrite Er, E2. rewrite Zodd_mod. simpl.
  pose proof (Z.mod_pos_bound (shr_m mrs) 2 ltac:(lia)) as Hb2.
  destruct (Z.eqb_spec (m `mod` 2 ^ n) 0) as [->|Hne]; simpl.
  - destruct (Z.eqb_spec (shr_m mrs `mod` 2) 1) as [->|Ho]; simpl.
    + destruct (Z.eqb_spec (2 ^ n * 1 + 0) 0); [lia|]. f_equal. symmetry. apply Z.compare_eq_iff. lia.
    + assert (shr_m mrs `mod` 2 = 0) as -> by lia. by rewrite Z.mul_0_r.
  - destruct (Z.eqb_spec (shr_m mrs `mod` 2) 1) as [->|Ho]; simpl.
    + destruct (Z.eqb_spec (2 ^ n * 1 + m `mod` 2 ^ n) 0); [lia|]. f_equal. symmetry. apply Z.compare_gt_iff. lia.
    + assert (shr_m mrs `mod` 2 = 0) as -> by lia. rewrite Z.mul_0_r, Z.add_0_l.
      destruct (Z.eqb_spec (m `mod` 2 ^ n) 0); [done|]. f_equal. symmetry. apply Z.compare_lt_iff. lia.
Qed.

Lemma shifted_iter m n p mrs : 0 ≤ m → 0 ≤ n → shifted m n mrs → shifted m (n + Zpos p) (SpecFloat.iter_pos shr_1 p mrs).
Proof.
  intros Hm. revert n mrs. induction p as [p IH|p IH|]; intros n mrs Hn Hs; simpl.
  - replace (n + Zpos p~1) with (n + 1 + Zpos p + Zpos p) by lia.
    apply IH; [lia|]. apply IH; [lia|]. by apply shifted_1.
  - replace (n + Zpos p~0) with (n + Zpos p + Zpos p) by lia. apply IH; [lia|]. by apply IH.
  - by apply shifted_1.
Qed.

Lemma shr_exact m e n :
  0 ≤ m → 0 ≤ n → ∃ mrs, shr (shr_record_of_loc m loc_Exact) e n = (mrs, e + n) ∧ shifted m n mrs.
Proof.
  intros Hm Hn. assert (shifted m 0 (shr_record_of_loc m loc_Exact)) as H0.
  { unfold shifted, loc. simpl. by rewrite Z.div_1_r, Z.mod_1_r. }
  destruct n as [|p|p]; [|simpl|lia].
  - eexists. by rewrite Z.add_0_r.
  - eexists. split; [done|]. by apply (shifted_iter m 0).
Qed.

Lemma digits2_log2 m : 0 < m → Zdigits2 m = Z.log2 m + 1.
Proof. destruct m as [|p|p]; try lia. intros _. apply digits2_pos_log2. Qed.

Lemma fexp_max e : fexp 53 1024 e = Z.max (e - 53) (-1074).
Proof. done. Qed.

(** ** Rounding *)

(** The position of the last bit a double keeps of [S], and [S] rounded to nearest there. *)
Definition exponent (S : Z) : Z := Z.max 0 (Z.log2 S - 52).
Definition rnd_at (S k : Z) : Z := round_nearest_even (S `div` 2 ^ k) (loc S k).
Definition rnd (S : Z) : Z := rnd_at S (exponent S) * 2 ^ exponent S.

Lemma loc_scale m n t : 0 ≤ n → 0 ≤ t → loc (m * 2 ^ t) (n + t) = loc m n.
Proof.
  intros Hn Ht. assert (0 < 2 ^ t) by (by apply Z.pow_pos_nonneg). assert (0 < 2 ^ n) by (by apply Z.pow_pos_nonneg).
  unfold loc. rewrite Z.pow_add_r by done. rewrite Z.mul_mod_distr_r by lia.
  destruct (Z.eqb_spec (m `mod` 2 ^ n * 2 ^ t) 0), (Z.eqb_spec (m `mod` 2 ^ n) 0); try nia; [done|].
  f_equal. rewrite Z.mul_assoc. rewrite <-!(Z.mul_comm (2 ^ t)). by rewrite <-Zmult_compare_compat_l by lia.
Qed.
Lemma rnd_at_scale m n t : 0 ≤ n → 0 ≤ t → rnd_at (m * 2 ^ t) (n + t) = rnd_at m n.
Proof.
  intros Hn Ht. unfold rnd_at. rewrite loc_scale by done. rewrite Z.pow_add_r by done.
  assert (0 < 2 ^ t) by (by apply Z.pow_pos_nonneg). assert (0 < 2 ^ n) by (by apply Z.pow_pos_nonneg).
  by rewrite Z.div_mul_cancel_r by lia.
Qed.
Lemma rnd_at_bounds S k : S `div` 2 ^ k ≤ rnd_at S k ≤ S `div` 2 ^ k + 1.
Proof. unfold rnd_at, round_nearest_even. repeat case_match; lia. Qed.

Lemma exponent_bounds S :
  0 < S → 0 ≤ exponent S ∧ S `div` 2 ^ exponent S < 2 ^ 53
          ∧ (exponent S = 0 ∨ 2 ^ 52 ≤ S `div` 2 ^ exponent S).
Proof.
  intros HS. pose proof (Z.log2_spec S HS) as [Hl Hu]. pose proof (Z.log2_nonneg S). unfold exponent.
  split; [lia|]. destruct (Z.leb_spec (Z.log2 S) 52).
  - rewrite Z.max_l by lia. rewrite Z.div_1_r. split; [|by left].
    eapply Z.lt_le_trans; [done|]. apply Z.pow_le_mono_r; lia.
  - rewrite Z.max_r by lia. set (k := Z.log2 S - 52). assert (0 < 2 ^ k) by (apply Z.pow_pos_nonneg; lia).
    replace (Z.succ (Z.log2 S)) with (53 + k) in Hu by lia. replace (Z.log2 S) with (52 + k) in Hl by lia.
    rewrite Z.pow_add_r in Hl, Hu by lia. split.
    + apply Z.div_lt_upper_bound; lia.
    + right. apply Z.div_le_lower_bound; lia.
Qed.

Definition out_of_range_aux : seal (2 ^ 2098).
Proof. by eexists. Qed.
Definition out_of_range : Z := out_of_range_aux.(unseal).
Lemma out_of_range_eq : out_of_range = 2 ^ 2098.
Proof. apply out_of_range_aux.(seal_eq). Qed.

(** What rounding makes of a value: the double of its rounded value, or an infinity. *)
Definition rounds_to (x : spec_float) (v : Z) : Prop :=
  valid x = true ∧
  ((∃ m e, x = S754_finite false m e ∧ Zpos m * 2 ^ (e + 1074) = v ∧ v < out_of_range)
   ∨ x = S754_infinity false ∧ out_of_range ≤ v).

Lemma rounds_finite q k :
  0 < q < 2 ^ 53 → 0 ≤ k → k = 0 ∨ 2 ^ 52 ≤ q →
  rounds_to (match q with Zpos m => if k - 1074 <=? 971 then S754_finite false m (k - 1074) else S754_infinity false
                        | _ => S754_nan end) (q * 2 ^ k).
Proof.
  intros Hq Hk Hc. destruct q as [|m|m]; try lia. unfold rounds_to. rewrite out_of_range_eq. destruct (Z.leb_spec (k - 1074) 971).
  - split.
    + simpl. apply bounded_spec. change frac_size with (2 ^ 52). lia.
    + left. eexists _, _. split; [done|]. replace (k - 1074 + 1074) with k by lia. split; [done|].
      apply Z.lt_le_trans with (2 ^ 53 * 2 ^ k).
      * apply Z.mul_lt_mono_pos_r; [by apply Z.pow_pos_nonneg|lia].
      * rewrite <-Z.pow_add_r by lia. apply Z.pow_le_mono_r; lia.
  - split; [done|]. right. split; [done|]. apply Z.le_trans with (2 ^ 52 * 2 ^ k).
    + rewrite <-Z.pow_add_r by lia. apply Z.pow_le_mono_r; lia.
    + apply Z.mul_le_mono_nonneg_r; [by apply Z.pow_nonneg|]. lia.
Qed.

(** A number with no bit below its own last place. *)
Lemma shr_fexp_exact q k :
  0 < q ≤ 2 ^ 53 → 0 ≤ k → k = 0 ∨ 2 ^ 52 ≤ q →
  ∃ mrs e, shr_fexp 53 1024 q (k - 1074) loc_Exact = (mrs, e) ∧
    if q =? 2 ^ 53 then shr_m mrs = 2 ^ 52 ∧ e = k + 1 - 1074 else shr_m mrs = q ∧ e = k - 1074.
Proof.
  intros Hq Hk Hc. unfold shr_fexp. rewrite fexp_max, digits2_log2 by lia.
  destruct (Z.eqb_spec q (2 ^ 53)) as [->|Hne].
  - rewrite Z.log2_pow2 by lia.
    replace (Z.max (53 + 1 + (k - 1074) - 53) (-1074) - (k - 1074)) with 1 by lia.
    destruct (shr_exact (2 ^ 53) (k - 1074) 1) as (mrs & -> & Hs & _); [lia..|].
    eexists _, _. split; [done|]. rewrite Hs. split; [done|lia].
  - assert (Z.log2 q < 53) as Hl by (apply Z.log2_lt_pow2; lia).
    assert (k = 0 ∨ 52 ≤ Z.log2 q) as Hl2.
    { destruct Hc as [|Hc]; [by left|]. right. by apply Z.log2_le_pow2; [lia|]. }
    replace (Z.max (Z.log2 q + 1 + (k - 1074) - 53) (-1074) - (k - 1074)) with 0 by lia.
    simpl. by eexists _, _.
Qed.

Lemma round_aux_spec m e :
  0 < m → -1074 ≤ e → e ≤ exponent (m * 2 ^ (e + 1074)) - 1074 →
  rounds_to (binary_round_aux 53 1024 false m e loc_Exact) (rnd (m * 2 ^ (e + 1074))).
Proof.
  intros Hm He Hfit. set (t := e + 1074) in *. set (S := m * 2 ^ t) in *.
  assert (0 < 2 ^ t) as Ht by (apply Z.pow_pos_nonneg; lia).
  assert (0 < S) as HS by (subst S; nia).
  destruct (exponent_bounds S HS) as (Hk & Hu & Hc).
  set (k := exponent S) in *. set (q := rnd_at S k).
  assert (0 < q ≤ 2 ^ 53) as Hq.
  { pose proof (rnd_at_bounds S k) as Hb. fold q in Hb. split; [|lia].
    destruct Hc as [E|]; [|lia]. assert (q = S); [|lia]. subst q. rewrite E. unfold rnd_at, loc.
    by rewrite Z.div_1_r, Z.mod_1_r. }
  assert (k = 0 ∨ 2 ^ 52 ≤ q) as Hq52.
  { pose proof (rnd_at_bounds S k) as Hb. fold q in Hb. lia. }
  unfold binary_round_aux. unfold shr_fexp at 1. rewrite digits2_log2 by done.
  assert (fexp 53 1024 (Z.log2 m + 1 + e) = k - 1074) as ->.
  { rewrite fexp_max. subst k. unfold exponent. subst S. rewrite Z.log2_mul_pow2 by lia. lia. }
  destruct (shr_exact m e (k - 1074 - e)) as (mrs & -> & Hsm & Hsl); [lia..|].
  assert (round_nearest_even (shr_m mrs) (loc_of_shr_record mrs) = q) as ->.
  { rewrite Hsm, Hsl. fold (rnd_at m (k - 1074 - e)). subst q S. rewrite <-(rnd_at_scale m _ t) by lia.
    f_equal. lia. }
  replace (e + (k - 1074 - e)) with (k - 1074) by lia.
  destruct (shr_fexp_exact q k Hq Hk Hq52) as (mrs2 & e2 & -> & Hs2).
  unfold rnd. fold k q. destruct (Z.eqb_spec q (2 ^ 53)) as [E|Hne].
  - destruct Hs2 as [Hs2 ->]. replace (q * 2 ^ k) with (2 ^ 52 * 2 ^ (k + 1)).
    + rewrite Hs2. exact (rounds_finite (2 ^ 52) (k + 1) ltac:(lia) ltac:(lia) ltac:(lia)).
    + rewrite E, Z.pow_add_r by lia. lia.
  - destruct Hs2 as [Hs2 ->]. pose proof (rounds_finite q k ltac:(lia) Hk Hq52) as Hr.
    rewrite Hs2. clearbody q. destruct q; [lia|exact Hr|lia].
Qed.

Lemma iter_xO m d : Zpos (Pos.iter xO m d) = Zpos m * 2 ^ Zpos d.
Proof.
  induction d as [|d IH] using Pos.peano_ind.
  - simpl Pos.iter. rewrite Pos2Z.inj_xO. lia.
  - rewrite Pos.iter_succ, Pos2Z.inj_xO, IH, Pos2Z.inj_succ, Z.pow_succ_r by lia. lia.
Qed.

(** Shifting a number to the left does not change its value. *)
Lemma shl_align_value m e e' :
  -1074 ≤ e → -1074 ≤ e' →
  let '(m', e1) := shl_align m e e' in
  Zpos m' * 2 ^ (e1 + 1074) = Zpos m * 2 ^ (e + 1074) ∧ e1 = Z.min e e'.
Proof.
  intros He He'. unfold shl_align. destruct (e' - e) as [|d|d] eqn:E.
  1: split; [done|lia].
  1: split; [done|lia].
  rewrite iter_xO. replace (e + 1074) with (Zpos d + (e' + 1074)) by lia. rewrite (Z.pow_add_r 2 (Zpos d)) by lia.
  split; lia.
Qed.

Lemma round_spec m e :
  -1074 ≤ e → rounds_to (binary_round 53 1024 false m e) (rnd (Zpos m * 2 ^ (e + 1074))).
Proof.
  intros He. unfold binary_round. rewrite digits2_pos_log2. set (e' := fexp 53 1024 _).
  assert (-1074 ≤ e') as He' by (subst e'; rewrite fexp_max; lia).
  pose proof (shl_align_value m e e' He He') as Hs. destruct (shl_align m e e') as [m1 e1].
  destruct Hs as [Hv ->]. rewrite <-Hv. apply round_aux_spec; [done|lia|]. rewrite Hv. unfold exponent.
  rewrite Z.log2_mul_pow2 by lia. subst e'. rewrite fexp_max. lia.
Qed.

(** Rounding is monotone, and leaves doubles as they are. *)
Lemma round_nearest_even_mono q s1 s2 k :
  s1 `div` 2 ^ k = q → s2 `div` 2 ^ k = q → s1 ≤ s2 → 0 ≤ k → rnd_at s1 k ≤ rnd_at s2 k.
Proof.
  intros E1 E2 Hle Hk. unfold rnd_at. rewrite E1, E2.
  assert (0 < 2 ^ k) as Hp by (by apply Z.pow_pos_nonneg).
  pose proof (Z.div_mod s1 (2 ^ k) ltac:(lia)) as D1. pose proof (Z.div_mod s2 (2 ^ k) ltac:(lia)) as D2.
  rewrite E1 in D1. rewrite E2 in D2.
  pose proof (Z.mod_pos_bound s1 _ Hp). pose proof (Z.mod_pos_bound s2 _ Hp).
  assert (s1 `mod` 2 ^ k ≤ s2 `mod` 2 ^ k) as Hm by lia.
  unfold loc. destruct (Z.eqb_spec (s1 `mod` 2 ^ k) 0), (Z.eqb_spec (s2 `mod` 2 ^ k) 0); simpl.
  - done.
  - repeat case_match; lia.
  - lia.
  - destruct (Z.compare_spec (2 * (s1 `mod` 2 ^ k)) (2 ^ k)), (Z.compare_spec (2 * (s2 `mod` 2 ^ k)) (2 ^ k));
      repeat case_match; lia.
Qed.

Lemma rnd_mono s1 s2 : 0 ≤ s1 → s1 ≤ s2 → rnd s1 ≤ rnd s2.
Proof.
  intros H1 Hle. destruct (decide (s1 = 0)) as [->|Hne].
  { assert (rnd 0 = 0) as -> by done. unfold rnd. pose proof (rnd_at_bounds s2 (exponent s2)).
    assert (0 ≤ exponent s2) by (unfold exponent; lia).
    apply Z.mul_nonneg_nonneg; [|by apply Z.pow_nonneg].
    assert (0 ≤ s2 `div` 2 ^ exponent s2) by (apply Z.div_pos; [lia|by apply Z.pow_pos_nonneg]). lia. }
  destruct (exponent_bounds s1) as (Hk1 & Hu1 & _); [lia|]. destruct (exponent_bounds s2) as (Hk2 & Hu2 & Hc2); [lia|].
  assert (exponent s1 ≤ exponent s2) as Hk.
  { unfold exponent. pose proof (Z.log2_le_mono s1 s2 Hle). lia. }
  pose proof (rnd_at_bounds s1 (exponent s1)). pose proof (rnd_at_bounds s2 (exponent s2)).
  assert (0 < 2 ^ exponent s1) as Hp1 by (by apply Z.pow_pos_nonneg).
  unfold rnd. destruct (decide (exponent s1 = exponent s2)) as [E|Hlt].
  - rewrite E in *. apply Z.mul_le_mono_nonneg_r; [lia|].
    assert (s1 `div` 2 ^ exponent s2 ≤ s2 `div` 2 ^ exponent s2) as Hq by (apply Z.div_le_mono; lia).
    destruct (decide (s1 `div` 2 ^ exponent s2 = s2 `div` 2 ^ exponent s2)) as [Eq|]; [|lia].
    by eapply (round_nearest_even_mono (s2 `div` 2 ^ exponent s2)).
  - apply Z.le_trans with (2 ^ 53 * 2 ^ exponent s1); [nia|].
    apply Z.le_trans with (2 ^ 52 * 2 ^ exponent s2).
    + rewrite <-!Z.pow_add_r by lia. apply Z.pow_le_mono_r; lia.
    + apply Z.mul_le_mono_nonneg_r; [by apply Z.pow_nonneg|]. lia.
Qed.

Lemma rnd_multiple q k : 0 ≤ q < 2 ^ 53 → 0 ≤ k → k = 0 ∨ 2 ^ 52 ≤ q → rnd (q * 2 ^ k) = q * 2 ^ k.
Proof.
  intros Hq Hk Hc. destruct (decide (q = 0)) as [->|Hne]; [done|].
  assert (exponent (q * 2 ^ k) = k) as E.
  { unfold exponent. rewrite Z.log2_mul_pow2 by lia.
    assert (Z.log2 q < 53) by (apply Z.log2_lt_pow2; lia).
    destruct Hc as [->|Hc]; [lia|]. apply Z.log2_le_pow2 in Hc; lia. }
  unfold rnd. rewrite E. f_equal. replace (rnd_at (q * 2 ^ k) k) with (rnd_at (q * 2 ^ k) (0 + k)) by done.
  rewrite rnd_at_scale by lia. unfold rnd_at, loc. by rewrite Z.div_1_r, Z.mod_1_r.
Qed.

(** ** Ranks *)

Definition rank (x : spec_float) : Z :=
  match x with
  | S754_finite _ m e => Zpos m * 2 ^ (e + 1074)
  | S754_infinity _ => out_of_range
  | _ => 0
  end.
Definition nonneg (x : spec_float) : Prop :=
  valid x = true ∧ match x with
                   | S754_finite s _ _ | S754_infinity s => s = false
                   | S754_zero _ => True
                   | S754_nan => False
                   end.

Lemma rank_finite s m e :
  valid (S754_finite s m e) = true →
  0 < Zpos m * 2 ^ (e + 1074) < out_of_range ∧ rnd (Zpos m * 2 ^ (e + 1074)) = Zpos m * 2 ^ (e + 1074).
Proof.
  intros Hv. apply bounded_spec in Hv. change frac_size with (2 ^ 52) in Hv.
  assert (0 < 2 ^ (e + 1074)) by (apply Z.pow_pos_nonneg; lia). split; [split; [lia|]|].
  - rewrite out_of_range_eq. apply Z.lt_le_trans with (2 ^ 53 * 2 ^ (e + 1074)).
    + apply Z.mul_lt_mono_pos_r; lia.
    + rewrite <-Z.pow_add_r by lia. apply Z.pow_le_mono_r; lia.
  - apply rnd_multiple; lia.
Qed.
Lemma out_of_range_power : 0 < out_of_range ∧ rnd out_of_range = out_of_range.
Proof.
  rewrite out_of_range_eq. split; [by apply Z.pow_pos_nonneg|]. replace 2098 with (52 + 2046) by lia.
  rewrite Z.pow_add_r by lia.
  apply rnd_multiple; lia.
Qed.
#[local] Opaque rnd.
Lemma rank_bounds x : nonneg x → 0 ≤ rank x ≤ out_of_range ∧ rnd (rank x) = rank x.
Proof.
  pose proof out_of_range_power as [Hpos Hrnd].
  intros [Hv Hs]. destruct x as [s|s| |s m e]; [split; simpl; [lia|done]| |done|].
  - simpl. split; [lia|done].
  - destruct (rank_finite _ _ _ Hv). simpl. split; [lia|done].
Qed.

Lemma rounds_rank x v : rounds_to x v → nonneg x ∧ rank x = Z.min out_of_range v.
Proof.
  intros [Hv [(m & e & -> & Em & Hlt)|[-> Hle]]]; (split; [done|]); simpl; lia.
Qed.

Lemma add_rank x y :
  nonneg x → nonneg y →
  nonneg (SFadd 53 1024 x y) ∧ rank (SFadd 53 1024 x y) = Z.min out_of_range (rnd (rank x + rank y)).
Proof.
  intros Hx Hy. pose proof (rank_bounds x Hx) as [Bx Rx]. pose proof (rank_bounds y Hy) as [By Ry].
  assert (∀ z, nonneg z → rank z = Z.min out_of_range (rnd (rank z))) as Hz.
  { intros z Hz. destruct (rank_bounds z Hz) as [? ->]. lia. }
  pose proof out_of_range_power as [Hpos Ho].
  assert (∀ z, 0 ≤ z → Z.min out_of_range (rnd (out_of_range + z)) = out_of_range) as Hinf.
  { intros z H0. pose proof (rnd_mono out_of_range (out_of_range + z) ltac:(lia) ltac:(lia)). lia. }
  destruct x as [sx|sx| |sx mx ex]; [| |by destruct Hx|].
  - destruct y as [sy|sy| |sy my ey]; try by destruct Hy.
    + split; [by destruct sx, sy|]. replace (rank (SFadd 53 1024 (S754_zero sx) (S754_zero sy))) with 0 by by destruct sx, sy.
      cbn [rank] in *. rewrite Z.add_0_l, Rx. lia.
    + split; [done|]. cbn [SFadd rank] in *. rewrite Z.add_0_l, Ho. lia.
    + split; [done|]. cbn [SFadd]. change (rank (S754_zero sx)) with 0. rewrite Z.add_0_l. by apply Hz.
  - destruct Hx as [_ ->]. destruct y as [sy|sy| |sy my ey]; try by destruct Hy.
    all: try (destruct Hy as [_ ->]); (split; [done|]); symmetry; apply Hinf; lia.
  - destruct Hx as [Vx ->]. destruct y as [sy|sy| |sy my ey]; [| |by destruct Hy|].
    + split; [done|]. cbn [SFadd]. change (rank (S754_zero sy)) with 0. rewrite Z.add_0_r. by apply Hz.
    + destruct Hy as [_ ->]. split; [done|]. rewrite Z.add_comm. symmetry. apply Hinf. lia.
    + destruct Hy as [Vy ->]. simpl in Vx, Vy. apply bounded_spec in Vx, Vy.
      cbn [SFadd cond_Zopp]. set (ez := Z.min ex ey).
      pose proof (shl_align_value mx ex ez ltac:(lia) ltac:(lia)) as Sx.
      pose proof (shl_align_value my ey ez ltac:(lia) ltac:(lia)) as Sy.
      destruct (shl_align mx ex ez) as [mx' ex']. destruct (shl_align my ey ez) as [my' ey'].
      destruct Sx as [Sx ->], Sy as [Sy ->]. cbn [fst]. simpl rank at 2 3. rewrite <-Sx, <-Sy.
      replace (ex `min` ez) with ez by lia. replace (ey `min` ez) with ez by lia. rewrite <-Z.mul_add_distr_r.
      apply rounds_rank. apply (round_spec (mx' + my')). lia.
Qed.

Lemma ltb_rank x y : nonneg x → nonneg y → SFltb x y = (rank x <? rank y).
Proof.
  pose proof out_of_range_power as [Hpos _]. intros [Vx Sx] [Vy Sy]. unfold SFltb.
  destruct x as [sx|sx| |sx mx ex], y as [sy|sy| |sy my ey]; try done; subst; simpl; try done.
  all: try (destruct (rank_finite _ _ _ Vx) as [? _]); try (destruct (rank_finite _ _ _ Vy) as [? _]);
    try (symmetry; first [apply Z.ltb_lt; lia|apply Z.ltb_ge; lia]).
  - simpl in Vx, Vy. apply bounded_spec in Vx, Vy. change frac_size with (2 ^ 52) in *.
    assert (∀ m1 e1 m2 e2, Zpos m1 < 2 ^ 53 → 2 ^ 52 ≤ Zpos m2 → -1074 ≤ e1 → e1 < e2 →
              Zpos m1 * 2 ^ (e1 + 1074) < Zpos m2 * 2 ^ (e2 + 1074)) as Hexp.
    { intros m1 e1 m2 e2 H1 H2 He1 He. apply Z.lt_le_trans with (2 ^ 53 * 2 ^ (e1 + 1074)).
      - apply Z.mul_lt_mono_pos_r; [apply Z.pow_pos_nonneg; lia|lia].
      - apply Z.le_trans with (2 ^ 52 * 2 ^ (e2 + 1074)).
        + rewrite <-!Z.pow_add_r by lia. apply Z.pow_le_mono_r; lia.
        + apply Z.mul_le_mono_nonneg_r; [apply Z.pow_nonneg; lia|lia]. }
    destruct (Z.compare_spec ex ey) as [->|Hlt|Hgt]; symmetry.
    + assert (0 < 2 ^ (ey + 1074)) by (apply Z.pow_pos_nonneg; lia).
      change (Pos.compare_cont Eq mx my) with (Pos.compare mx my). destruct (Pos.compare_spec mx my) as [->|Hm|Hm].
      * by rewrite Z.ltb_irrefl.
      * apply Z.ltb_lt, Z.mul_lt_mono_pos_r; lia.
      * apply Z.ltb_ge, Z.mul_le_mono_nonneg_r; lia.
    + apply Z.ltb_lt, Hexp; lia.
    + apply Z.ltb_ge, Z.lt_le_incl, Hexp; lia.
Qed.

(** ** Bit patterns *)

Lemma of_bits_valid b : valid (of_bits b) = true.
Proof.
  unfold of_bits. assert (0 ≤ b `mod` frac_size < frac_size) as Hm by by apply Z.mod_pos_bound.
  assert (0 ≤ (b `div` frac_size) `mod` 2048 < 2048) as He by by apply Z.mod_pos_bound.
  set (m := b `mod` frac_size) in *. set (e := (b `div` frac_size) `mod` 2048) in *.
  destruct (Z.eqb_spec e exp_mask); [by case_match|]. unfold exp_mask in *.
  destruct (Z.eqb_spec e 0); case_match; try done; apply bounded_spec; lia.
Qed.

Definition f64_rank (a : f64) : Z := rank (of_bits a).
Definition f64_nonneg (a : f64) : Prop := nonneg (of_bits a).

Lemma f64_add_rank a b :
  f64_nonneg a → f64_nonneg b →
  f64_nonneg (f64_add a b) ∧ f64_rank (f64_add a b) = Z.min out_of_range (rnd (f64_rank a + f64_rank b)).
Proof.
  intros Ha Hb. destruct (add_rank _ _ Ha Hb) as [Hn Hr]. unfold f64_nonneg, f64_rank, f64_add, binop.
  rewrite of_to_bits by apply Hn. done.
Qed.
Lemma f64_ltb_rank a b : f64_nonneg a → f64_nonneg b → f64_ltb a b = (f64_rank a <? f64_rank b).
Proof. apply ltb_rank. Qed.

(** A sum that is smaller as a double, with something added to it even, is smaller. *)
Theorem f64_sum_decreases a b c d eps :
  f64_nonneg a → f64_nonneg b → f64_nonneg c → f64_nonneg d → f64_nonneg eps →
  f64_ltb (f64_add (f64_add c d) eps) (f64_add a b) = true → f64_rank c + f64_rank d < f64_rank a + f64_rank b.
Proof.
  intros Ha Hb Hc Hd He. destruct (f64_add_rank _ _ Hc Hd) as [Hcd Rcd].
  destruct (f64_add_rank _ _ Hcd He) as [Hcde Rcde]. destruct (f64_add_rank _ _ Ha Hb) as [Hab Rab].
  rewrite f64_ltb_rank, Z.ltb_lt, Rcde, Rab by done.
  destruct (rank_bounds _ Hcd) as [Bcd Fcd]. destruct (rank_bounds _ He) as [Be _].
  destruct (rank_bounds _ Ha) as [Ba _]. destruct (rank_bounds _ Hb) as [Bb _].
  fold (f64_rank eps) in Be. fold (f64_rank a) in Ba. fold (f64_rank b) in Bb.
  fold (f64_rank (f64_add c d)) in Bcd, Fcd.
  pose proof (rnd_mono (f64_rank (f64_add c d)) (f64_rank (f64_add c d) + f64_rank eps) ltac:(lia) ltac:(lia)) as Hm.
  intros Hlt. destruct (Z.lt_ge_cases (f64_rank c + f64_rank d) (f64_rank a + f64_rank b)) as [|Hge]; [done|].
  pose proof (rnd_mono (f64_rank a + f64_rank b) (f64_rank c + f64_rank d) ltac:(lia) Hge). lia.
Qed.

(** ** Square roots and differences *)

Definition nonneg_or_nan (x : spec_float) : Prop := x = S754_nan ∨ nonneg x.

Definition unsigned_bits (b : f64) : Prop := 0 ≤ b < sign_bit.

Lemma of_bits_nonneg b : unsigned_bits b → nonneg_or_nan (of_bits b).
Proof.
  intros Hb. pose proof (of_bits_valid b) as Hv. unfold nonneg_or_nan, nonneg.
  assert (negb (b <? sign_bit) = false) as Hs by (apply negb_false_iff, Z.ltb_lt; apply Hb).
  unfold of_bits in *. rewrite Hs in *. repeat case_match; simplify_eq; eauto.
Qed.

Lemma shr_m_bound m r s e n :
  0 ≤ m → 0 ≤ shr_m (shr (Build_shr_record m r s) e n).1 ∧ (shr (Build_shr_record m r s) e n).2 = Z.max e (e + n)
  ∧ ∀ k, 0 ≤ k → m < 2 ^ (k + Z.max 0 n) → shr_m (shr (Build_shr_record m r s) e n).1 < 2 ^ k.
Proof.
  intros Hm. destruct n as [|p|p]; simpl.
  - split; [done|]. split; [lia|]. intros k Hk. by rewrite Z.add_0_r.
  - rewrite shr_m_iter by done. simpl. assert (0 < 2 ^ Zpos p) by by apply Z.pow_pos_nonneg.
    split; [by apply Z.div_pos|]. split; [lia|]. intros k Hk Hlt. rewrite Z.max_r, Z.pow_add_r in Hlt by lia.
    apply Z.div_lt_upper_bound; lia.
  - split; [done|]. split; [lia|]. intros k Hk. by rewrite Z.add_0_r.
Qed.

Lemma round_aux_bits m e l : 0 ≤ m → unsigned_bits (to_bits (binary_round_aux 53 1024 false m e l)).
Proof.
  intros Hm. unfold binary_round_aux, shr_fexp at 1.
  assert (∃ r s, shr_record_of_loc m l = Build_shr_record m r s) as (r & s & ->) by (destruct l as [|[]]; by eexists _, _).
  set (n := fexp 53 1024 (Zdigits2 m + e) - e).
  destruct (shr_m_bound m r s e n Hm) as (H1 & H2 & _).
  destruct (shr (Build_shr_record m r s) e n) as [mrs e1]. simpl in H1, H2.
  set (q := round_nearest_even (shr_m mrs) (loc_of_shr_record mrs)).
  assert (0 ≤ q) as Hq by (subst q; unfold round_nearest_even; repeat case_match; lia).
  assert (-1074 ≤ e1) as He1 by (subst e1 n; rewrite fexp_max; lia). clear H2.
  unfold shr_fexp. set (n2 := fexp 53 1024 (Zdigits2 q + e1) - e1).
  destruct (shr_m_bound q false false e1 n2 Hq) as (H3 & H4 & H5).
  assert (q < 2 ^ (53 + Z.max 0 n2)) as Hq2.
  { destruct (decide (q = 0)) as [->|Hne]; [by apply Z.pow_pos_nonneg; [|lia]|].
    apply Z.log2_lt_pow2; [lia|]. subst n2. rewrite fexp_max, digits2_log2 by lia. lia. }
  specialize (H5 53 ltac:(lia) Hq2). simpl shr_record_of_loc.
  destruct (shr (Build_shr_record q false false) e1 n2) as [mrs2 e2]. simpl in H3, H4, H5.
  destruct (shr_m mrs2) as [|p|p]; [done| |lia].
  destruct (Z.leb_spec e2 (1024 - 53)); [|done]. cbn [to_bits signed].
  unfold unsigned_bits, sign_bit, frac_size in *. change (2 ^ 53) with 9007199254740992 in H5.
  destruct (Z.ltb_spec (Zpos p) 4503599627370496); lia.
Qed.

Lemma sqrt_core_nonneg m e : 0 ≤ (SFsqrt_core_binary 53 1024 (Zpos m) e).1.1.
Proof.
  assert (∀ z, 0 ≤ z → 0 ≤ (Z.sqrtrem z).1) as Hz.
  { intros z Hz. pose proof (Z.sqrtrem_spec z Hz) as Hs. destruct (Z.sqrtrem z). simpl. lia. }
  unfold SFsqrt_core_binary.
  match goal with |- context [Z.sqrtrem ?z] => specialize (Hz z); destruct (Z.sqrtrem z) end.
  simpl in *. apply Hz. case_match; [done|by apply Z.shiftl_nonneg|done].
Qed.
Lemma f64_sqrt_nonneg a : nonneg_or_nan (of_bits (f64_sqrt a)).
Proof.
  unfold f64_sqrt, unop. destruct (of_bits a) as [s|s| |s m e] eqn:E; simpl SFsqrt.
  - right. rewrite of_to_bits by done. done.
  - destruct s; [by left|]. right. rewrite of_to_bits by done. done.
  - by left.
  - destruct s; [by left|]. apply of_bits_nonneg. cbn [SFsqrt].
    destruct (SFsqrt_core_binary 53 1024 (Zpos m) e) as [[mz ez] lz] eqn:Ec. apply round_aux_bits.
    pose proof (sqrt_core_nonneg m e) as Hz. by rewrite Ec in Hz.
Qed.

(** The square of a difference does not depend on its order. *)
Lemma binary_round_opp m e : binary_round 53 1024 true m e = SFopp (binary_round 53 1024 false m e).
Proof.
  unfold binary_round, binary_round_aux. destruct (shl_align _ _ _) as [m' e'].
  destruct (shr_fexp _ _ _ _ _) as [r1 e1]. destruct (shr_fexp _ _ _ _ _) as [r2 e2].
  destruct (shr_m r2); [done| |done]. by case_match.
Qed.
Lemma binary_round_valid s m e : -1074 ≤ e → valid (binary_round 53 1024 s m e) = true.
Proof.
  intros He. destruct (round_spec m e He) as [Hv _]. destruct s; [|done].
  rewrite binary_round_opp. by destruct (binary_round 53 1024 false m e).
Qed.

Lemma sub_opp x y :
  valid x = true → valid y = true →
  valid (SFsub 53 1024 x y) = true ∧ valid (SFsub 53 1024 y x) = true
  ∧ (SFsub 53 1024 y x = SFopp (SFsub 53 1024 x y)
     ∨ ∃ s1 s2, SFsub 53 1024 x y = S754_zero s1 ∧ SFsub 53 1024 y x = S754_zero s2).
Proof.
  intros Vx Vy.
  destruct x as [sx|sx| |sx mx ex], y as [sy|sy| |sy my ey]; simpl; try by (repeat split; auto).
  - repeat split; [by destruct sx, sy..|]. right. by destruct sx, sy; eexists _, _.
  - repeat split; [by destruct sx, sy..|]. left. by destruct sx, sy.
  - repeat split; [done..|]. left. by rewrite negb_involutive.
  - repeat split; [by destruct sx, sy..|]. left. by destruct sx, sy.
  - repeat split; [done..|]. left. by rewrite negb_involutive.
  - rewrite (Z.min_comm ey ex). set (ez := Z.min ex ey).
    assert (-1074 ≤ ez) as Hez.
    { simpl in Vx, Vy. apply bounded_spec in Vx, Vy. lia. }
    set (a := cond_Zopp sx _). set (b := cond_Zopp sy _). replace (b - a) with (- (a - b)) by lia.
    destruct (a - b) as [|p|p]; simpl.
    + repeat split. right. by eexists _, _.
    + repeat split; [by apply binary_round_valid..|]. left. apply binary_round_opp.
    + repeat split; [by apply binary_round_valid..|]. left. rewrite binary_round_opp.
      by destruct (binary_round 53 1024 false p ez); simpl; rewrite ?negb_involutive.
Qed.

Lemma sub_square_comm a b :
  f64_mul (f64_sub a b) (f64_sub a b) = f64_mul (f64_sub b a) (f64_sub b a).
Proof.
  destruct (sub_opp (of_bits a) (of_bits b) (of_bits_valid a) (of_bits_valid b)) as (V1 & V2 & H).
  unfold f64_mul, f64_sub, binop. rewrite !of_to_bits by done. f_equal.
  destruct H as [->|(s1 & s2 & -> & ->)].
  - destruct (SFsub 53 1024 (of_bits a) (of_bits b)) as [s|s| |s m e]; simpl; by rewrite ?xorb_nilpotent.
  - simpl. by rewrite !xorb_nilpotent.
Qed.
