(* ===== verification/Statuses.v ===== *)
(** * Statuses ([core/status.rs])

    Completion handles: what may finish one, who is told and when. The statuses of the
    process are a store in which a status is known by its index; finishing one runs its
    callbacks, which may finish others, so a call stack of running callbacks is explicit.
    A callback of the user is known by a number and has no effect on the store. *)

From S2P Require Import Prelude Interfaces Errors Documents F64.

(** ** Data *)

(** How a status ended. *)
Definition End : Type := Result unit StatusError.

Inductive StatusOutcome := Success | Failed (e : StatusError).

Definition outcome (e : End) : StatusOutcome :=
  match e with Ok _ => Success | Err e => Failed e end.

(** A callback: the user's, or the one an [and] status leaves with each of its parts:
    the status to finish and the counter of parts that have yet to succeed. *)
Inductive Callback := CUser (k : nat) | CAnd (target counter : nat).

Inductive StatusPhase :=
| Pending (callbacks : list Callback) (wakers : list nat)
| Ended (e : End).

Record WatcherUpdate := mkUpdate {
  wu_current : f64; wu_initial : f64; wu_target : f64;
  wu_name : option string; wu_unit : option string; wu_precision : option Z;
  wu_fraction : option f64; wu_time_elapsed : option f64; wu_time_remaining : option f64;
}.

Definition update_new (current initial target : f64) : WatcherUpdate :=
  mkUpdate current initial target None None None None None None.

Record Inner := mkInner {
  in_phase : StatusPhase;
  in_progress : f64;
  in_watcher : option WatcherUpdate;
  in_observers : list nat;
  in_cancel : bool;
  in_start : Z;
  in_settle : Z;
}.

Definition set_in_phase v (i : Inner) : Inner :=
  mkInner v (in_progress i) (in_watcher i) (in_observers i) (in_cancel i) (in_start i) (in_settle i).
Definition set_in_progress v (i : Inner) : Inner :=
  mkInner (in_phase i) v (in_watcher i) (in_observers i) (in_cancel i) (in_start i) (in_settle i).
Definition set_in_watcher v (i : Inner) : Inner :=
  mkInner (in_phase i) (in_progress i) v (in_observers i) (in_cancel i) (in_start i) (in_settle i).
Definition set_in_observers v (i : Inner) : Inner :=
  mkInner (in_phase i) (in_progress i) (in_watcher i) v (in_cancel i) (in_start i) (in_settle i).
Definition set_in_cancel v (i : Inner) : Inner :=
  mkInner (in_phase i) (in_progress i) (in_watcher i) (in_observers i) v (in_start i) (in_settle i).

(** [Status]: the handle. [parts]: what an [and] status combines. *)
Inductive Status := mkStatus (inner : nat) (parts : option (Status * Status)).
Definition st_inner (s : Status) : nat := match s with mkStatus i _ => i end.

(** A spawned timer, in nanoseconds: the status fails at its timeout, a success lands. *)
Inductive Timer := TTimeout (status : nat) (deadline : Z) | TSettle (status : nat) (at_ : Z).

(** A running [observe_watcher]: what its watcher has been given, what is queued for it. *)
Record Observer := mkObserver {
  ob_status : nat;
  ob_given : list WatcherUpdate;
  ob_queue : list WatcherUpdate;
  ob_alive : bool;
}.

Record Store := mkStore {
  inners : list Inner;
  counters : list Z;
  timers : list Timer;
  all_observers : list Observer;
  fired : list (nat * StatusOutcome);
  woken : list nat;
}.

Definition set_inners v (h : Store) : Store :=
  mkStore v (counters h) (timers h) (all_observers h) (fired h) (woken h).
Definition set_counters v (h : Store) : Store :=
  mkStore (inners h) v (timers h) (all_observers h) (fired h) (woken h).
Definition set_timers v (h : Store) : Store :=
  mkStore (inners h) (counters h) v (all_observers h) (fired h) (woken h).
Definition set_all_observers v (h : Store) : Store :=
  mkStore (inners h) (counters h) (timers h) v (fired h) (woken h).
Definition set_fired v (h : Store) : Store :=
  mkStore (inners h) (counters h) (timers h) (all_observers h) v (woken h).
Definition set_woken v (h : Store) : Store :=
  mkStore (inners h) (counters h) (timers h) (all_observers h) (fired h) v.

Definition empty_store : Store := mkStore [] [] [] [] [] [].

Definition on_inner (s : nat) (f : Inner → Inner) (h : Store) : Store :=
  set_inners (alter f s (inners h)) h.
Definition phase_of (h : Store) (s : nat) : option StatusPhase := in_phase <$> inners h !! s.

(** [Inner::end] *)
Definition end_of (h : Store) (s : nat) : option End :=
  match phase_of h s with Some (Ended e) => Some e | _ => None end.

(** ** Finishing *)

(** A call of [finish] in progress: the callbacks and the tasks still to be told. *)
Record Frame := mkFrame { fr_end : End; fr_callbacks : list Callback; fr_wakers : list nat }.

(** The only transition of a status: a finished one is left alone. *)
Definition enter (s : nat) (e : End) (st : list Frame) (h : Store) : list Frame * Store :=
  match phase_of h s with
  | Some (Pending cbs ws) => (mkFrame e cbs ws :: st, on_inner s (set_in_phase (Ended e)) h)
  | _ => (st, h)
  end.

(** [pending.fetch_sub(1)] *)
Definition fetch_sub (c : nat) (h : Store) : Z * Store :=
  let n := default 0%Z (counters h !! c) in (n, set_counters (<[c := (n - 1)%Z]> (counters h)) h).

Definition fire (k : nat) (e : End) (h : Store) : Store := set_fired (fired h ++ [(k, outcome e)]) h.

Definition step (st : list Frame) (h : Store) : list Frame * Store :=
  match st with
  | [] => ([], h)
  | mkFrame e [] ws :: st => (st, set_woken (woken h ++ ws) h)
  | mkFrame e (CUser k :: cbs) ws :: st => (mkFrame e cbs ws :: st, fire k e h)
  | mkFrame e (CAnd t c :: cbs) ws :: st =>
      let st := mkFrame e cbs ws :: st in
      match e with
      | Err _ => enter t e st h
      | Ok _ => let '(n, h) := fetch_sub c h in if (n =? 1)%Z then enter t e st h else (st, h)
      end
  end.

Fixpoint run (fuel : nat) (st : list Frame) (h : Store) : Store :=
  match fuel, st with
  | 0, _ | _, [] => h
  | S fuel, _ => let '(st, h) := step st h in run fuel st h
  end.

(** The work left: the callbacks queued anywhere and the calls in progress. *)
Definition queued (i : Inner) : list Callback := match in_phase i with Pending cbs _ => cbs | Ended _ => [] end.
Definition all_queued (h : Store) : list Callback := inners h ≫= queued.
Definition work (st : list Frame) (h : Store) : nat :=
  2 * length (all_queued h ++ (st ≫= fr_callbacks)) + length st.

Definition finish (s : nat) (e : End) (h : Store) : Store :=
  let '(st, h) := enter s e [] h in run (work st h) st h.

(** ** Operations *)

Definition inner_new (now settle : Z) : Inner := mkInner (Pending [] []) 0%Z None [] false now settle.

(** [Status::with_timeout]: the handle and its setter are the new index. *)
Definition with_timeout (timeout : option Z) (settle now : Z) (h : Store) : nat * Store :=
  let s := length (inners h) in
  let h := set_inners (inners h ++ [inner_new now settle]) h in
  (s, match timeout with
      | Some d => set_timers (timers h ++ [TTimeout s (now + d + settle)%Z]) h
      | None => h
      end).

Definition status_new (now : Z) (h : Store) : nat * Store := with_timeout None 0 now h.

(** Of the setter. *)
Definition success (s : nat) (now : Z) (h : Store) : Store :=
  match inners h !! s with
  | None => h
  | Some i =>
      if (in_settle i =? 0)%Z then finish s (Ok ()) h
      else set_timers (timers h ++ [TSettle s (now + in_settle i)%Z]) h
  end.
Definition fail (s : nat) (x : StatusError) (h : Store) : Store := finish s (Err x) h.

Definition done (now : Z) (h : Store) : nat * Store :=
  let '(s, h) := status_new now h in (s, success s now h).
Definition status_fail (x : StatusError) (now : Z) (h : Store) : nat * Store :=
  let '(s, h) := status_new now h in (s, fail s x h).

(** The timer fires: only a status still pending is changed. *)
Definition timer_fires (t : Timer) (h : Store) : Store :=
  match t with
  | TTimeout s _ => finish s (Err STimeout) h
  | TSettle s _ => finish s (Ok ()) h
  end.
Definition due (now : Z) (t : Timer) : bool :=
  match t with TTimeout _ d => (d <=? now)%Z | TSettle _ d => (d <=? now)%Z end.
Definition fire_timer (i : nat) (now : Z) (h : Store) : Store :=
  match timers h !! i with
  | Some t => if due now t then timer_fires t (set_timers (delete i (timers h)) h) else h
  | None => h
  end.

Definition cancel (s : nat) (h : Store) : Store :=
  finish s (Err SCancelled) (on_inner s (set_in_cancel true) h).

(** Queued before the end runs the queue, or run at once. *)
Definition register (s : nat) (cb : Callback) (h : Store) : Store :=
  match phase_of h s with
  | Some (Pending cbs ws) => on_inner s (set_in_phase (Pending (cbs ++ [cb]) ws)) h
  | Some (Ended e) => let '(st, h) := step [mkFrame e [cb] []] h in run (work st h) st h
  | None => h
  end.
Definition add_callback (s k : nat) (h : Store) : Store := register s (CUser k) h.

Definition and_status (a b : Status) (now : Z) (h : Store) : Status * Store :=
  let '(t, h) := status_new now h in
  let c := length (counters h) in
  let h := set_counters (counters h ++ [2%Z]) h in
  let h := register (st_inner a) (CAnd t c) h in
  let h := register (st_inner b) (CAnd t c) h in
  (mkStatus t (Some (a, b)), h).

Fixpoint contains (self : Status) (s : nat) : bool :=
  match self with
  | mkStatus _ None => false
  | mkStatus _ (Some (l, r)) =>
      (st_inner l =? s) || contains l s || (st_inner r =? s) || contains r s
  end.

Definition done_state (h : Store) (s : nat) : bool := bool_decide (is_Some (end_of h s)).
Definition is_success (h : Store) (s : nat) : bool :=
  match end_of h s with Some (Ok _) => true | _ => false end.
Definition status_exception (h : Store) (s : nat) : option StatusError :=
  match end_of h s with Some (Err x) => Some x | _ => None end.
Definition cancelled (h : Store) (s : nat) : bool :=
  match end_of h s with Some (Err SCancelled) => true | _ => false end.

(** [Future::poll] by a task: a waker that is there already is not added again. *)
Definition poll (s task : nat) (h : Store) : option End * Store :=
  match phase_of h s with
  | Some (Pending cbs ws) =>
      (None, if decide (task ∈ ws) then h
             else on_inner s (set_in_phase (Pending cbs (ws ++ [task]))) h)
  | Some (Ended e) => (Some e, h)
  | None => (None, h)
  end.

(** ** Progress *)

Definition progress (s : nat) (p : f64) (h : Store) : Store := on_inner s (set_in_progress p) h.

Definition queue_update (u : WatcherUpdate) (o : Observer) : Observer :=
  mkObserver (ob_status o) (ob_given o) (ob_queue o ++ [u]) (ob_alive o).

(** The elapsed time, where the producer left it out. *)
Definition filled (now : Z) (i : Inner) (u : WatcherUpdate) : WatcherUpdate :=
  mkUpdate (wu_current u) (wu_initial u) (wu_target u) (wu_name u) (wu_unit u)
    (wu_precision u) (wu_fraction u)
    (Some (default (as_secs_f64 (now - in_start i)) (wu_time_elapsed u)))
    (wu_time_remaining u).

(** Sent to every observer whose queue is still there. *)
Definition update_watcher (s : nat) (u : WatcherUpdate) (now : Z) (h : Store) : Store :=
  match inners h !! s with
  | None => h
  | Some i =>
      let u := filled now i u in
      let live o := bool_decide (ob_alive <$> all_observers h !! o = Some true) in
      let obs := filter (λ o, live o = true) (in_observers i) in
      let i := match wu_fraction u with Some f => set_in_progress f i | None => i end in
      set_all_observers (foldl (λ os o, alter (queue_update u) o os) (all_observers h) obs)
        (on_inner s (λ _, set_in_watcher (Some u) (set_in_observers obs i)) h)
  end.

(** [observe_watcher] up to its first wait: the latest update is given at once. *)
Definition observe (s : nat) (h : Store) : nat * Store :=
  let o := length (all_observers h) in
  match inners h !! s with
  | None => (o, h)
  | Some i =>
      (o, set_all_observers (all_observers h ++ [mkObserver s (option_list (in_watcher i)) [] true])
            (on_inner s (set_in_observers (in_observers i ++ [o])) h))
  end.

(** One turn of its loop: a finished status ends it with all that is queued, otherwise
    the next update is given. *)
Definition observe_turn (o : nat) (h : Store) : Store :=
  match all_observers h !! o with
  | Some ob =>
      if ob_alive ob then
        let ob :=
          if done_state h (ob_status ob) then mkObserver (ob_status ob) (ob_given ob ++ ob_queue ob) [] false
          else match ob_queue ob with
               | [] => ob
               | u :: q => mkObserver (ob_status ob) (ob_given ob ++ [u]) q true
               end in
        set_all_observers (<[o := ob]> (all_observers h)) h
      else h
  | None => h
  end.

(** ** What may happen to the statuses *)

Inductive Action :=
| ANew (timeout : option Z) (settle : Z)
| ASuccess (s : nat) | AFail (s : nat) (x : StatusError) | ATimer (i : nat)
| ACancel (s : nat) | ACallback (s k : nat) | AAnd (a b : Status) | APoll (s task : nat)
| AProgress (s : nat) (p : f64) | AUpdate (s : nat) (u : WatcherUpdate)
| AObserve (s : nat) | ATurn (o : nat).

Definition act (now : Z) (a : Action) (h : Store) : Store :=
  match a with
  | ANew d settle => (with_timeout d settle now h).2
  | ASuccess s => success s now h
  | AFail s x => fail s x h
  | ATimer i => fire_timer i now h
  | ACancel s => cancel s h
  | ACallback s k => add_callback s k h
  | AAnd a b => (and_status a b now h).2
  | APoll s task => (poll s task h).2
  | AProgress s p => progress s p h
  | AUpdate s u => update_watcher s u now h
  | AObserve s => (observe s h).2
  | ATurn o => observe_turn o h
  end.
Fixpoint act_all (l : list (Z * Action)) (h : Store) : Store :=
  match l with [] => h | (now, a) :: l => act_all l (act now a h) end.

(** [SubToken]: its action runs when it is dropped, once. *)
Definition SubToken : Type := option nat.
Definition token_drop (t : SubToken) (log : list nat) : SubToken * list nat := (None, log ++ option_list t).

(** ** The work of finishing *)

#[global] Instance StatusError_eq_dec : EqDecision StatusError.
Proof. solve_decision. Defined.
#[global] Instance Callback_eq_dec : EqDecision Callback.
Proof. solve_decision. Defined.

Section finishing.
Implicit Types (h : Store) (st : list Frame) (cb : Callback) (e : End) (s t c k : nat).

Lemma lookup_on_inner h s f s' :
  inners (on_inner s f h) !! s' = if decide (s = s') then f <$> inners h !! s' else inners h !! s'.
Proof.
  unfold on_inner. simpl. case_decide as Hd; [subst; by rewrite list_lookup_alter_eq|by rewrite list_lookup_alter_ne].
Qed.

Lemma phase_of_ended h s e s' :
  phase_of (on_inner s (set_in_phase (Ended e)) h) s' =
    if decide (s = s') then (λ _, Ended e) <$> phase_of h s' else phase_of h s'.
Proof.
  unfold phase_of. rewrite lookup_on_inner. case_decide; [|done]. by destruct (inners h !! s').
Qed.

Lemma queued_bind_alter (l : list Inner) s f i :
  l !! s = Some i → queued i ++ (alter f s l ≫= queued) ≡ₚ queued (f i) ++ (l ≫= queued).
Proof.
  revert s. induction l as [|j l IH]; intros [|s] Hs; simplify_eq/=.
  - by rewrite !app_assoc, (Permutation_app_comm (queued i)).
  - specialize (IH s Hs).
    rewrite (Permutation_app_comm (queued j) (alter f s l ≫= queued)), app_assoc, IH, <- app_assoc.
    by rewrite (Permutation_app_comm (l ≫= queued)).
Qed.

Lemma all_queued_ended h s e cbs ws :
  phase_of h s = Some (Pending cbs ws) →
  all_queued h ≡ₚ cbs ++ all_queued (on_inner s (set_in_phase (Ended e)) h).
Proof.
  unfold phase_of. intros (i & Hi & Hp)%fmap_Some.
  pose proof (queued_bind_alter (inners h) s (set_in_phase (Ended e)) i Hi) as Hq.
  unfold all_queued, on_inner. simpl. rewrite <- Hq at 1. simpl. unfold queued at 1. by rewrite <- Hp.
Qed.

(** The callbacks that have yet to run. *)
Definition waiting st h : list Callback := all_queued h ++ (st ≫= fr_callbacks).

Lemma enter_waiting s e st h :
  waiting (enter s e st h).1 (enter s e st h).2 ≡ₚ waiting st h
  ∧ length (enter s e st h).1 ≤ S (length st).
Proof.
  unfold enter. destruct (phase_of h s) as [[cbs ws|e']|] eqn:Hp; simpl; [|auto|auto].
  split; [|lia]. unfold waiting. simpl. rewrite (all_queued_ended h s e cbs ws Hp) at 1.
  rewrite !app_assoc. apply Permutation_app_tail. apply Permutation_app_comm.
Qed.

(** One step runs a callback or ends a call. *)
Lemma step_waiting fr st h :
  let '(st', h') := step (fr :: st) h in
  (fr_callbacks fr = [] ∧ st' = st ∧ waiting st' h' = waiting (fr :: st) h)
  ∨ ∃ cb cbs, fr_callbacks fr = cb :: cbs ∧ waiting (fr :: st) h ≡ₚ cb :: waiting st' h'
              ∧ length st' ≤ S (S (length st)).
Proof.
  destruct fr as [e [|[k|t c] cbs] ws]; simpl.
  - by left.
  - right. exists (CUser k), cbs. split_and!; [done| |lia].
    unfold waiting. simpl. symmetry. apply Permutation_middle.
  - set (st1 := mkFrame e cbs ws :: st).
    assert (∀ h1, all_queued h1 = all_queued h →
      waiting (mkFrame e (CAnd t c :: cbs) ws :: st) h ≡ₚ CAnd t c :: waiting st1 h1) as Hw.
    { intros h1 Hq. unfold waiting. rewrite Hq. simpl. symmetry. apply Permutation_middle. }
    destruct e as [[]|x]; simpl.
    + set (h1 := set_counters _ h). specialize (Hw h1 eq_refl). destruct (_ =? 1)%Z.
      * destruct (enter_waiting t (Ok ()) st1 h1) as [He Hl]. destruct (enter t (Ok ()) st1 h1) as [st' h'].
        right. exists (CAnd t c), cbs. split_and!; [done| |done]. rewrite Hw. simpl in He. by rewrite He.
      * right. exists (CAnd t c), cbs. split_and!; [done|done|simpl; lia].
    + specialize (Hw h eq_refl). destruct (enter_waiting t (Err x) st1 h) as [He Hl].
      destruct (enter t (Err x) st1 h) as [st' h'].
      right. exists (CAnd t c), cbs. split_and!; [done| |done]. rewrite Hw. simpl in He. by rewrite He.
Qed.

Lemma step_work fr st h :
  let '(st', h') := step (fr :: st) h in work st' h' < work (fr :: st) h.
Proof.
  pose proof (step_waiting fr st h) as Hs. destruct (step (fr :: st) h) as [st' h'].
  unfold work. fold (waiting st' h') (waiting (fr :: st) h).
  destruct Hs as [(_ & -> & ->)|(cb & cbs & _ & Hw & Hl)]; [simpl; lia|].
  apply Permutation_length in Hw. rewrite Hw. simpl in *. lia.
Qed.

(** Any fuel from the work on gives the same end. *)
Lemma run_enough fuel st h : work st h ≤ fuel → run fuel st h = run (work st h) st h.
Proof.
  revert st h. induction fuel as [fuel IH] using lt_wf_ind. intros st h Hf.
  destruct st as [|fr st]; [by destruct fuel, (work [] h)|].
  pose proof (step_work fr st h) as Hw. destruct fuel as [|fuel]; [destruct (step _ _); lia|].
  destruct (work (fr :: st) h) as [|w] eqn:Hwe; [destruct (step _ _); lia|].
  cbn [run]. destruct (step (fr :: st) h) as [st' h'].
  rewrite (IH fuel) by lia. destruct (decide (w = fuel)) as [->|]; [by rewrite (IH fuel) by lia|].
  rewrite (IH w) by lia. done.
Qed.

Lemma run_step fr st h :
  run (work (fr :: st) h) (fr :: st) h = let '(st', h') := step (fr :: st) h in run (work st' h') st' h'.
Proof.
  pose proof (step_work fr st h) as Hw. destruct (work (fr :: st) h) as [|w]; [destruct (step _ _); lia|].
  cbn [run]. destruct (step (fr :: st) h) as [st' h']. apply run_enough. lia.
Qed.

(** What every step keeps, finishing keeps. *)
Lemma run_keeps (P : list Frame → Store → Prop) st h :
  (∀ fr st h, P (fr :: st) h → let '(st', h') := step (fr :: st) h in P st' h') →
  P st h → P [] (run (work st h) st h).
Proof.
  intros Hstep. remember (work st h) as w eqn:Hw. revert st h Hw.
  induction w as [w IH] using lt_wf_ind. intros st h -> HP. destruct st as [|fr st].
  - by destruct (work [] h).
  - rewrite run_step. pose proof (step_work fr st h) as Hlt. specialize (Hstep fr st h HP).
    destruct (step (fr :: st) h) as [st' h']. by eapply IH.
Qed.
End finishing.

(** ** Registrations

    [RUser k s]: the user's callback [k] was registered with status [s]. [RAnd t c a b]:
    [t] combines [a] and [b] and counts with [c]. *)
Inductive Reg := RUser (k s : nat) | RAnd (t c a b : nat).

Section registered.
Implicit Types (h : Store) (st : list Frame) (cb : Callback) (e : End) (s t c k a b : nat).
Implicit Types (regs : list Reg) (X : list (nat * Callback)).

Definition owner regs s cb : Prop :=
  match cb with
  | CUser k => RUser k s ∈ regs
  | CAnd t c => ∃ a b, RAnd t c a b ∈ regs ∧ (s = a ∨ s = b)
  end.

Definition user_id cb : option nat := match cb with CUser k => Some k | CAnd _ _ => None end.
Definition reg_id (r : Reg) : option nat := match r with RUser k _ => Some k | RAnd _ _ _ _ => None end.

(** Every callback yet to run, with those whose registration is not over. *)
Definition tokens X st h : list Callback := waiting st h ++ X.*2.
Definition occ cb (l : list Callback) : nat := length (filter (λ x, x = cb) l).

(** A part of an [and] status is waited for. *)
Definition waited X h s cb : Prop :=
  (∃ i, inners h !! s = Some i ∧ cb ∈ queued i) ∨ (s, cb) ∈ X.

Definition and_ok X st h t c a b : Prop :=
  (∀ cbs ws, phase_of h t = Some (Pending cbs ws) →
     counters h !! c = Some (Z.of_nat (occ (CAnd t c) (tokens X st h)))
     ∧ 0 < occ (CAnd t c) (tokens X st h))
  ∧ (∀ x, x = a ∨ x = b → match end_of h x with
       | None => waited X h x (CAnd t c)
       | Some (Ok _) => True
       | Some (Err _) => is_Some (end_of h t) ∨ (x, CAnd t c) ∈ X
           ∨ ∃ fr y, fr ∈ st ∧ CAnd t c ∈ fr_callbacks fr ∧ fr_end fr = Err y
       end)
  ∧ match end_of h t with
    | None => True
    | Some (Ok _) => ∀ x, x = a ∨ x = b → end_of h x = Some (Ok ())
    | Some (Err y) => y = SCancelled ∨ ∃ x, (x = a ∨ x = b) ∧ end_of h x = Some (Err y)
    end.

Record inv regs X st h : Prop := {
  iv_users : (fired h).*1 ++ omap user_id (tokens X st h) ≡ₚ omap reg_id regs;
  iv_fired : ∀ k o, (k, o) ∈ fired h → ∃ s e, RUser k s ∈ regs ∧ end_of h s = Some e ∧ o = outcome e;
  iv_queue : ∀ s i cb, inners h !! s = Some i → cb ∈ queued i → owner regs s cb;
  iv_X : ∀ s cb, (s, cb) ∈ X → owner regs s cb;
  iv_frame : ∀ fr cb, fr ∈ st → cb ∈ fr_callbacks fr →
    ∃ s, owner regs s cb ∧ end_of h s = Some (fr_end fr);
  iv_and : ∀ t c a b, RAnd t c a b ∈ regs → and_ok X st h t c a b;
  iv_one : ∀ t c a b t' c' a' b', RAnd t c a b ∈ regs → RAnd t' c' a' b' ∈ regs →
    t = t' ∨ c = c' → t = t' ∧ c = c' ∧ a = a' ∧ b = b';
  iv_dom : ∀ r, r ∈ regs → match r with
    | RUser k s => s < length (inners h)
    | RAnd t c a b => t < length (inners h) ∧ a < length (inners h) ∧ b < length (inners h)
                      ∧ c < length (counters h)
    end;
}.

(** What may finish a status that combines others. *)
Definition legit regs s e h : Prop :=
  ∀ c a b, RAnd s c a b ∈ regs →
    match e with
    | Ok _ => ∀ x, x = a ∨ x = b → end_of h x = Some (Ok ())
    | Err y => y = SCancelled ∨ ∃ x, (x = a ∨ x = b) ∧ end_of h x = Some (Err y)
    end.

Lemma occ_perm cb l l' : l ≡ₚ l' → occ cb l = occ cb l'.
Proof. intros Hl. unfold occ. by rewrite Hl. Qed.
Lemma occ_cons cb x l : occ cb (x :: l) = (if decide (x = cb) then 1 else 0) + occ cb l.
Proof. unfold occ. rewrite filter_cons. by destruct (decide (x = cb)). Qed.
Lemma occ_app cb l l' : occ cb (l ++ l') = occ cb l + occ cb l'.
Proof. unfold occ. by rewrite filter_app, length_app. Qed.
Lemma occ_in cb l : cb ∈ l → 0 < occ cb l.
Proof.
  intros Hin. unfold occ. destruct (filter (λ x, x = cb) l) eqn:Hf; [|simpl; lia].
  assert (cb ∈ filter (λ x, x = cb) l) as Hc by (by apply list_elem_of_filter). rewrite Hf in Hc.
  by apply not_elem_of_nil in Hc.
Qed.

Lemma end_of_ended h s e s' cbs ws :
  phase_of h s = Some (Pending cbs ws) →
  end_of (on_inner s (set_in_phase (Ended e)) h) s' = if decide (s' = s) then Some e else end_of h s'.
Proof.
  intros Hp. unfold end_of. rewrite phase_of_ended. destruct (decide (s = s')) as [<-|Hn].
  - rewrite Hp, decide_True by done. done.
  - by rewrite decide_False by auto.
Qed.

Lemma end_of_pending h s cbs ws : phase_of h s = Some (Pending cbs ws) → end_of h s = None.
Proof. unfold end_of. by intros ->. Qed.

(** A status that has ended stays as it is. *)
Lemma ended_stays h s e s' e' cbs ws :
  phase_of h s = Some (Pending cbs ws) → end_of h s' = Some e' →
  end_of (on_inner s (set_in_phase (Ended e)) h) s' = Some e'.
Proof.
  intros Hp He. rewrite (end_of_ended _ _ _ _ _ _ Hp), decide_False; [done|].
  intros ->. by rewrite (end_of_pending _ _ _ _ Hp) in He.
Qed.

Lemma waiting_queued h s i cb st : inners h !! s = Some i → cb ∈ queued i → cb ∈ waiting st h.
Proof.
  intros Hi Hcb. unfold waiting. apply elem_of_app. left. unfold all_queued. apply list_elem_of_bind.
  exists i. split; [done|]. by apply list_elem_of_lookup_2 in Hi.
Qed.
Lemma waited_token X st h s cb : waited X h s cb → cb ∈ tokens X st h.
Proof.
  unfold tokens. rewrite elem_of_app. intros [(i & Hi & Hcb)|Hx]; [left; by eapply waiting_queued|right].
  apply list_elem_of_fmap. by exists (s, cb).
Qed.

Lemma enter_inv regs X st h s e :
  inv regs X st h → legit regs s e h →
  inv regs X (enter s e st h).1 (enter s e st h).2.
Proof.
  intros Hi Hleg. pose proof (enter_waiting s e st h) as [Hw _].
  unfold enter in *. destruct (phase_of h s) as [[cbs ws|e']|] eqn:Hp; [|exact Hi|exact Hi]. simpl in *.
  set (h' := on_inner s (set_in_phase (Ended e)) h) in *.
  assert (tokens X (mkFrame e cbs ws :: st) h' ≡ₚ tokens X st h) as Ht by (unfold tokens; by rewrite Hw).
  assert (∀ x e', end_of h x = Some e' → end_of h' x = Some e') as Hstay by (intros; by eapply ended_stays).
  assert (∀ s' i cb, inners h' !! s' = Some i → cb ∈ queued i →
            s' ≠ s ∧ inners h !! s' = Some i) as Hq.
  { intros s' i cb. unfold h'. rewrite lookup_on_inner. case_decide as Hd; [|auto].
    intros (j & _ & ->)%fmap_Some Hin. by apply not_elem_of_nil in Hin. }
  assert (∃ i, inners h !! s = Some i ∧ queued i = cbs) as (i0 & Hi0 & Hcbs).
  { unfold phase_of in Hp. apply fmap_Some in Hp as (i & Hs & Hph). exists i. split; [done|].
    unfold queued. by rewrite <- Hph. }
  destruct Hi as [H1 H2 H3 H4 H5 H6 H7 H8]. constructor.
  - by rewrite Ht.
  - intros k o (s' & e' & Hr & He & Ho)%H2. eauto 10.
  - intros s' i cb Hs' Hin. destruct (Hq s' i cb Hs' Hin) as [_ Hs]. eauto.
  - exact H4.
  - intros fr cb [->|Hfr]%elem_of_cons Hin; simpl in *.
    + exists s. split; [|unfold h'; rewrite (end_of_ended _ _ _ _ _ _ Hp), decide_True by done; done].
      eapply H3; [done|by rewrite Hcbs].
    + destruct (H5 fr cb Hfr Hin) as (s' & Ho & He). eauto.
  - intros t c a b Hr. destruct (H6 t c a b Hr) as (Ha & Hb & Hc). split_and!.
    + intros cbs' ws' Hpt. unfold h' in Hpt. rewrite phase_of_ended in Hpt. case_decide as Hd.
      { subst t. rewrite Hp in Hpt. done. }
      rewrite (occ_perm _ _ _ Ht). by eapply Ha.
    + intros x Hx. specialize (Hb x Hx). unfold h' at 1. rewrite (end_of_ended _ _ _ _ _ _ Hp).
      destruct (decide (x = s)) as [->|Hn].
      * rewrite (end_of_pending _ _ _ _ Hp) in Hb. destruct e as [|y]; [done|]. right.
        destruct Hb as [(i & Hs & Hin)|Hin]; [right|by left].
        exists (mkFrame (Err y) cbs ws), y. split_and!; [left|simpl|done]. simplify_eq. done.
      * destruct (end_of h x) as [[u|y]|].
        -- done.
        -- destruct Hb as [[e' He]|[Hin|(fr & y' & Hfr & Hin & Hy)]]; [left; by exists e'; auto|auto|].
           right. right. exists fr, y'. split_and!; [by right|done|done].
        -- destruct Hb as [(i & Hs & Hin)|Hin]; [left|by right]. exists i. split; [|done].
           unfold h'. rewrite lookup_on_inner. by rewrite decide_False by auto.
    + unfold h' at 1. rewrite (end_of_ended _ _ _ _ _ _ Hp). destruct (decide (t = s)) as [->|Hn].
      * specialize (Hleg c a b Hr). destruct e as [u|y]; [intros x Hx; apply Hstay; auto|].
        destruct Hleg as [->|(x & Hx & He)]; [by left|right; eauto].
      * destruct (end_of h t) as [[u|y]|]; [intros x Hx; apply Hstay; auto| |done].
        destruct Hc as [->|(x & Hx & He)]; [by left|right; eauto].
  - exact H7.
  - intros r Hr. specialize (H8 r Hr). unfold h', on_inner. simpl. rewrite length_alter. exact H8.
Qed.

Lemma tokens_middle X st1 e cb cbs ws st2 h :
  tokens X (st1 ++ mkFrame e (cb :: cbs) ws :: st2) h ≡ₚ cb :: tokens X (st1 ++ mkFrame e cbs ws :: st2) h.
Proof.
  unfold tokens, waiting. rewrite !bind_app, !bind_cons. simpl.
  rewrite !(app_assoc (all_queued h)). rewrite <- Permutation_middle. done.
Qed.

(** The callback of an [and] status has run: its status has ended, or it was one success
    of two that are awaited. *)
Lemma consume_and regs X st1 e t c cbs ws st2 h cs :
  inv regs X (st1 ++ mkFrame e (CAnd t c :: cbs) ws :: st2) h →
  (∀ c', c' ≠ c → cs !! c' = counters h !! c') → length cs = length (counters h) →
  (is_Some (end_of h t) ∨ e = Ok () ∧ ∃ n, counters h !! c = Some n ∧ cs !! c = Some (n - 1)%Z ∧ n ≠ 1%Z) →
  inv regs X (st1 ++ mkFrame e cbs ws :: st2) (set_counters cs h).
Proof.
  intros [H1 H2 H3 H4 H5 H6 H7 H8] Hcs Hl Hcase.
  assert (tokens X (st1 ++ mkFrame e (CAnd t c :: cbs) ws :: st2) h ≡ₚ
          CAnd t c :: tokens X (st1 ++ mkFrame e cbs ws :: st2) (set_counters cs h)) as Ht
    by exact (tokens_middle X st1 e (CAnd t c) cbs ws st2 h).
  assert (∃ a b, RAnd t c a b ∈ regs) as (a0 & b0 & Hr0).
  { destruct (H5 (mkFrame e (CAnd t c :: cbs) ws) (CAnd t c)) as (s & (a & b & Hr & _) & _);
      [apply elem_of_app; right; left|left|]. by exists a, b. }
  assert (∀ fr cb, fr ∈ st1 ++ mkFrame e cbs ws :: st2 → cb ∈ fr_callbacks fr →
    ∃ fr', fr' ∈ st1 ++ mkFrame e (CAnd t c :: cbs) ws :: st2 ∧ cb ∈ fr_callbacks fr' ∧ fr_end fr' = fr_end fr) as Hfr.
  { intros fr cb [Hin|[->|Hin]%elem_of_cons]%elem_of_app Hcb.
    - exists fr. split_and!; [apply elem_of_app; by left|done|done].
    - exists (mkFrame e (CAnd t c :: cbs) ws). split_and!; [apply elem_of_app; right; left|by right|done].
    - exists fr. split_and!; [apply elem_of_app; right; by right|done|done]. }
  constructor; try done.
  - rewrite Ht in H1. simpl in H1. exact H1.
  - intros fr cb Hin Hcb. destruct (Hfr fr cb Hin Hcb) as (fr' & Hin' & Hcb' & <-). eauto.
  - intros t' c' a b Hr. destruct (H6 t' c' a b Hr) as (Ha & Hb & Hc).
    destruct (decide (t' = t)) as [->|Hne].
    + destruct (H7 _ _ _ _ _ _ _ _ Hr Hr0 (or_introl eq_refl)) as (_ & -> & -> & ->). split_and!; [| |exact Hc].
      * intros cbs' ws' Hp. destruct (Ha cbs' ws' Hp) as [Hn Hpos].
        destruct Hcase as [[e' He]|(-> & n & Hn1 & Hn2 & Hn3)].
        { by rewrite (end_of_pending _ _ _ _ Hp : end_of h t = None) in He. }
        rewrite Hn1 in Hn. rewrite (occ_perm _ _ _ Ht), occ_cons, decide_True in * by done. simplify_eq.
        cbn [counters set_counters]. rewrite Hn2. split; [f_equal; lia|lia].
      * intros x Hx. specialize (Hb x Hx). change (end_of (set_counters cs h)) with (end_of h).
        destruct (end_of h x) as [[u|y]|]; [done| |exact Hb].
        destruct Hcase as [He|(-> & _)]; [by left|].
        destruct Hb as [Hb|[Hb|(fr & y' & Hin & Hcb & Hy)]]; [by left|right; by left|].
        right. right. exists fr, y'. split_and!; [|done|done].
        apply elem_of_app in Hin as [Hin|[->|Hin]%elem_of_cons]; [apply elem_of_app; by left|done|].
        apply elem_of_app. right. by right.
    + assert (c' ≠ c) as Hcc by (intros ->; by destruct (H7 _ _ _ _ _ _ _ _ Hr Hr0 (or_intror eq_refl))).
      split_and!; [| |exact Hc].
      * intros cbs' ws' Hp. destruct (Ha cbs' ws' Hp) as [Hn Hpos].
        rewrite (occ_perm _ _ _ Ht), occ_cons, decide_False in * by congruence.
        cbn [counters set_counters]. by rewrite Hcs.
      * intros x Hx. specialize (Hb x Hx). change (end_of (set_counters cs h)) with (end_of h).
        destruct (end_of h x) as [[u|y]|]; [done| |exact Hb].
        destruct Hb as [Hb|[Hb|(fr & y' & Hin & Hcb & Hy)]]; [by left|right; by left|].
        right. right. apply elem_of_app in Hin as [Hin|[->|Hin]%elem_of_cons].
        -- exists fr, y'. split_and!; [apply elem_of_app; by left|done|done].
        -- exists (mkFrame e cbs ws), y'. simpl in *. apply elem_of_cons in Hcb as [Hcb|Hcb]; [congruence|].
           split_and!; [apply elem_of_app; right; left|done|done].
        -- exists fr, y'. split_and!; [apply elem_of_app; right; by right|done|done].
  - intros r Hr. specialize (H8 r Hr). destruct r; simpl in *; [done|]. by rewrite Hl.
Qed.

Lemma enter_counters s e st h cs :
  enter s e st (set_counters cs h) = ((enter s e st h).1, set_counters cs (enter s e st h).2).
Proof. unfold enter. change (phase_of (set_counters cs h) s) with (phase_of h s). by destruct (phase_of h s) as [[]|]. Qed.

Lemma enter_frames s e st h : ∃ st1, ∀ st', enter s e st' h = (st1 ++ st', (enter s e st h).2).
Proof.
  unfold enter. destruct (phase_of h s) as [[cbs ws|e']|]; simpl; [by exists [mkFrame e cbs ws]|by exists []..].
Qed.

Lemma enter_ended regs X st h s e :
  s < length (inners h) → inv regs X st h → is_Some (end_of (enter s e st h).2 s).
Proof.
  intros Hs _. unfold enter. destruct (lookup_lt_is_Some_2 _ _ Hs) as [i Hi].
  destruct (phase_of h s) as [[cbs ws|e']|] eqn:Hp; simpl.
  - rewrite (end_of_ended _ _ _ _ _ _ Hp), decide_True by done. by eexists.
  - unfold end_of. rewrite Hp. by eexists.
  - unfold phase_of in Hp. by rewrite Hi in Hp.
Qed.

(** The callback is consumed after the status it finishes was entered. *)
Lemma enter_consume regs X e t c cbs ws st h cs :
  inv regs X (mkFrame e (CAnd t c :: cbs) ws :: st) h → legit regs t e h → t < length (inners h) →
  (∀ c', c' ≠ c → cs !! c' = counters h !! c') → length cs = length (counters h) →
  let '(st', h') := enter t e (mkFrame e cbs ws :: st) (set_counters cs h) in inv regs X st' h'.
Proof.
  intros Hi Hleg Ht Hcs Hl. rewrite enter_counters. simpl.
  pose proof (enter_inv _ _ _ _ _ _ Hi Hleg) as He.
  pose proof (enter_ended _ _ _ _ _ e Ht Hi) as Hend.
  destruct (enter_frames t e (mkFrame e (CAnd t c :: cbs) ws :: st) h) as [st1 Hst].
  rewrite (Hst (mkFrame e cbs ws :: st)). rewrite Hst in He, Hend. simpl in *.
  assert (counters (enter t e (mkFrame e (CAnd t c :: cbs) ws :: st) h).2 = counters h) as Hc.
  { unfold enter. by destruct (phase_of h t) as [[]|]. }
  apply consume_and with (t := t) (c := c); [done|by rewrite Hc|by rewrite Hc|by left].
Qed.

Lemma set_same_counters h : set_counters (counters h) h = h.
Proof. by destruct h. Qed.

Lemma step_inv regs X fr st h :
  inv regs X (fr :: st) h → let '(st', h') := step (fr :: st) h in inv regs X st' h'.
Proof.
  intros Hi. destruct fr as [e [|[k|t c] cbs] ws].
  - destruct Hi as [H1 H2 H3 H4 H5 H6 H7 H8]. simpl. constructor; try done.
    + intros fr cb Hin. apply H5. by right.
    + intros t c a b Hr. destruct (H6 t c a b Hr) as (Ha & Hb & Hc). split_and!; [exact Ha| |exact Hc].
      intros x Hx. specialize (Hb x Hx). change (end_of (set_woken _ h)) with (end_of h).
      destruct (end_of h x) as [[u|y]|]; [done| |exact Hb].
      destruct Hb as [Hb|[Hb|(fr & y' & [->|Hin]%elem_of_cons & Hcb & Hy)]]; [by left|right; by left| |].
      * by apply not_elem_of_nil in Hcb.
      * right. right. by exists fr, y'.
  - simpl. assert (∃ s, RUser k s ∈ regs ∧ end_of h s = Some e) as (s & Hr & He).
    { destruct (iv_frame _ _ _ _ Hi (mkFrame e (CUser k :: cbs) ws) (CUser k)) as (s & Ho & He); [left|left|].
      by exists s. }
    pose proof (tokens_middle X [] e (CUser k) cbs ws st h) as Ht. simpl in Ht.
    destruct Hi as [H1 H2 H3 H4 H5 H6 H7 H8]. constructor; try done.
    + rewrite Ht in H1. simpl in *. rewrite fmap_app, <- app_assoc. simpl. exact H1.
    + intros k' o [Hin|Hin]%elem_of_app; [by apply H2|]. apply list_elem_of_singleton in Hin as [= -> ->].
      by exists s, e.
    + intros fr cb [->|Hin]%elem_of_cons Hcb; [|apply H5; [by right|done]].
      apply (H5 (mkFrame e (CUser k :: cbs) ws) cb); [left|by right].
    + intros t c a b Hr'. destruct (H6 t c a b Hr') as (Ha & Hb & Hc). split_and!; [| |exact Hc].
      * intros cbs' ws' Hp. specialize (Ha cbs' ws' Hp).
        rewrite (occ_perm _ _ _ Ht), occ_cons, decide_False in Ha by done. exact Ha.
      * intros x Hx. specialize (Hb x Hx). change (end_of (fire k e h)) with (end_of h).
        destruct (end_of h x) as [[u|y]|]; [done| |exact Hb].
        destruct Hb as [Hb|[Hb|(fr & y' & [->|Hin]%elem_of_cons & Hcb & Hy)]]; [by left|right; by left| |].
        -- right. right. exists (mkFrame e cbs ws), y'. simpl in *. apply elem_of_cons in Hcb as [|Hcb]; [done|].
           split_and!; [left|done|done].
        -- right. right. exists fr, y'. split_and!; [by right|done|done].
  - assert (∃ s a b, RAnd t c a b ∈ regs ∧ (s = a ∨ s = b) ∧ end_of h s = Some e) as (s & a & b & Hr & Hs & He).
    { destruct (iv_frame _ _ _ _ Hi (mkFrame e (CAnd t c :: cbs) ws) (CAnd t c)) as (s & (a & b & Hr & Hs) & He);
        [left|left|]. by exists s, a, b. }
    destruct (iv_dom _ _ _ _ Hi _ Hr) as (Htd & Had & Hbd & Hcd).
    destruct (iv_and _ _ _ _ Hi t c a b Hr) as (Ha & Hb & Hc).
    assert (∀ c a' b', RAnd t c a' b' ∈ regs → a' = a ∧ b' = b) as Hone.
    { intros c' a' b' Hr'. by destruct (iv_one _ _ _ _ Hi _ _ _ _ _ _ _ _ Hr' Hr (or_introl eq_refl)) as (_ & _ & -> & ->). }
    simpl. destruct e as [[]|y].
    + destruct (lookup_lt_is_Some_2 _ _ Hcd) as [n Hn]. unfold fetch_sub. rewrite Hn. simpl.
      set (cs := <[c := (n - 1)%Z]> (counters h)).
      assert (∀ c', c' ≠ c → cs !! c' = counters h !! c') as Hcs by (intros; unfold cs; by rewrite list_lookup_insert_ne).
      assert (length cs = length (counters h)) as Hl by (unfold cs; by rewrite length_insert).
      destruct (n =? 1)%Z eqn:Hn1.
      * apply Z.eqb_eq in Hn1. subst n.
        destruct (end_of h t) as [e'|] eqn:Het.
        { (* already ended: entering does nothing *)
          assert (enter t (Ok ()) (mkFrame (Ok ()) cbs ws :: st) (set_counters cs h)
                  = (mkFrame (Ok ()) cbs ws :: st, set_counters cs h)) as ->.
          { unfold enter. change (phase_of (set_counters cs h) t) with (phase_of h t).
            unfold end_of in Het. destruct (phase_of h t) as [[]|]; try done. }
          apply (consume_and regs X [] (Ok ()) t c cbs ws st h cs Hi Hcs Hl). left. by rewrite Het. }
        apply (enter_consume regs X (Ok ()) t c cbs ws st h cs Hi); [|done|done|done].
        intros c' a' b' Hr' x Hx. destruct (Hone _ _ _ Hr') as [-> ->].
        assert (∃ cbs' ws', phase_of h t = Some (Pending cbs' ws')) as (cbs' & ws' & Hp).
        { destruct (lookup_lt_is_Some_2 _ _ Htd) as [i Hit]. unfold end_of, phase_of in *. rewrite Hit in *. simpl in *.
          destruct (in_phase i); [by eexists _, _|done]. }
        destruct (Ha cbs' ws' Hp) as [Hn' Hpos]. rewrite Hn in Hn'. injection Hn' as Hn'.
        pose proof (tokens_middle X [] (Ok ()) (CAnd t c) cbs ws st h) as Ht. simpl in Ht.
        rewrite (occ_perm _ _ _ Ht), occ_cons, decide_True in Hn' by done.
        assert (CAnd t c ∉ tokens X (mkFrame (Ok ()) cbs ws :: st) h) as Hno.
        { intros Hin%occ_in. lia. }
        specialize (Hb x Hx). destruct (end_of h x) as [[[]|y]|]; [done| |].
        -- destruct Hb as [[? [=]]|[Hin|(fr & y' & [->|Hin]%elem_of_cons & Hcb & Hy)]]; [|done|].
           ++ destruct Hno. unfold tokens. apply elem_of_app. right. apply list_elem_of_fmap. by exists (x, CAnd t c).
           ++ destruct Hno. unfold tokens, waiting. rewrite !elem_of_app. left. right.
              apply list_elem_of_bind. exists fr. split; [done|by right].
        -- destruct Hno. apply (waited_token X (mkFrame (Ok ()) cbs ws :: st)) in Hb. exact Hb.
      * apply Z.eqb_neq in Hn1. apply (consume_and regs X [] (Ok ()) t c cbs ws st h cs Hi Hcs Hl).
        right. split; [done|]. exists n. split_and!; [done| |done]. unfold cs.
        by rewrite list_lookup_insert_eq.
    + pose proof (enter_consume regs X (Err y) t c cbs ws st h (counters h) Hi) as Hec.
      rewrite set_same_counters in Hec. apply Hec; [|done|done|done].
      intros c' a' b' Hr'. destruct (Hone _ _ _ Hr') as [-> ->]. right. by exists s.
Qed.

Lemma run_inv regs X st h : inv regs X st h → inv regs X [] (run (work st h) st h).
Proof. apply (run_keeps (inv regs X)). intros fr st' h'. apply step_inv. Qed.

Lemma finish_inv regs s e h : inv regs [] [] h → legit regs s e h → inv regs [] [] (finish s e h).
Proof.
  intros Hi Hleg. unfold finish. pose proof (enter_inv _ _ _ _ _ _ Hi Hleg) as He.
  destruct (enter s e [] h) as [st h']. by apply run_inv.
Qed.

(** ** Registering *)

(** What matters of a status: its callbacks or its end. *)
Definition view1 (i : Inner) : list Callback + End :=
  match in_phase i with Pending cbs _ => inl cbs | Ended e => inr e end.
Definition view h : list (list Callback + End) := view1 <$> inners h.

Lemma queued_view i : queued i = match view1 i with inl cbs => cbs | inr _ => [] end.
Proof. unfold queued, view1. by destruct (in_phase i). Qed.
Lemma end_of_view h s : end_of h s = v ← view h !! s; match v with inl _ => None | inr e => Some e end.
Proof.
  unfold end_of, phase_of, view. rewrite list_lookup_fmap. destruct (inners h !! s) as [i|]; [|done].
  simpl. unfold view1. by destruct (in_phase i).
Qed.
Lemma all_queued_view h : all_queued h = view h ≫= λ v, match v with inl cbs => cbs | inr _ => [] end.
Proof.
  unfold all_queued, view. induction (inners h) as [|i l IH]; [done|].
  rewrite fmap_cons, !bind_cons, queued_view. by f_equal.
Qed.
Lemma phase_pending_view h s :
  (∃ cbs ws, phase_of h s = Some (Pending cbs ws)) ↔ ∃ cbs, view h !! s = Some (inl cbs).
Proof.
  unfold phase_of, view. rewrite list_lookup_fmap. destruct (inners h !! s) as [i|]; simpl;
    [unfold view1; destruct (in_phase i)|]; naive_solver.
Qed.

Lemma inv_view regs X h h' :
  view h' = view h → counters h' = counters h → fired h' = fired h → inv regs X [] h → inv regs X [] h'.
Proof.
  intros Hv Hc Hf [H1 H2 H3 H4 H5 H6 H7 H8].
  assert (∀ s, end_of h' s = end_of h s) as He by (intros s; by rewrite !end_of_view, Hv).
  assert (tokens X [] h' = tokens X [] h) as Ht by (unfold tokens, waiting; by rewrite !all_queued_view, Hv).
  assert (length (inners h') = length (inners h)) as Hl.
  { apply (f_equal length) in Hv. unfold view in Hv. by rewrite !length_fmap in Hv. }
  assert (∀ s i cb, inners h' !! s = Some i → cb ∈ queued i → ∃ j, inners h !! s = Some j ∧ cb ∈ queued j) as Hq.
  { intros s i cb Hi Hcb. assert (view h' !! s = Some (view1 i)) as Hs by (unfold view; by rewrite list_lookup_fmap, Hi).
    rewrite Hv in Hs. unfold view in Hs. rewrite list_lookup_fmap in Hs. apply fmap_Some in Hs as (j & Hj & Hij).
    exists j. split; [done|]. by rewrite queued_view, <- Hij, <- queued_view. }
  assert (∀ s i cb, inners h !! s = Some i → cb ∈ queued i → ∃ j, inners h' !! s = Some j ∧ cb ∈ queued j) as Hq'.
  { intros s i cb Hi Hcb. assert (view h !! s = Some (view1 i)) as Hs by (unfold view; by rewrite list_lookup_fmap, Hi).
    rewrite <- Hv in Hs. unfold view in Hs. rewrite list_lookup_fmap in Hs. apply fmap_Some in Hs as (j & Hj & Hij).
    exists j. split; [done|]. by rewrite queued_view, <- Hij, <- queued_view. }
  constructor.
  - by rewrite Ht, Hf.
  - intros k o. rewrite Hf. intros (s & e & Hr & Hs & Ho)%H2. exists s, e. by rewrite He.
  - intros s i cb Hi Hcb. destruct (Hq s i cb Hi Hcb) as (j & Hj & Hcb'). eauto.
  - done.
  - intros fr cb Hin. by apply not_elem_of_nil in Hin.
  - intros t c a b Hr. destruct (H6 t c a b Hr) as (Ha & Hb & Hc'). unfold and_ok. rewrite Ht, Hc. split_and!.
    + intros cbs ws Hp. assert (∃ cbs ws, phase_of h t = Some (Pending cbs ws)) as (cbs' & ws' & Hp').
      { apply phase_pending_view. rewrite <- Hv. apply phase_pending_view. eauto. }
      by eapply Ha.
    + intros x Hx. specialize (Hb x Hx). rewrite !He. destruct (end_of h x) as [[u|y]|]; [done| |].
      * destruct Hb as [Hb|[Hb|(fr & y' & Hin & _)]]; [by left|right; by left|by apply not_elem_of_nil in Hin].
      * destruct Hb as [(i & Hi & Hcb)|Hin]; [left; by eapply Hq'|by right].
    + rewrite He. destruct (end_of h t) as [[u|y]|]; [intros x Hx; rewrite He; auto| |done].
      destruct Hc' as [->|(x & Hx & Hs)]; [by left|right; exists x; by rewrite He].
  - done.
  - intros r Hr. specialize (H8 r Hr). by rewrite Hl, Hc.
Qed.

Lemma register_inv regs X s cb h :
  s < length (inners h) → inv regs ((s, cb) :: X) [] h → inv regs X [] (register s cb h).
Proof.
  intros Hs Hi. unfold register. destruct (lookup_lt_is_Some_2 _ _ Hs) as [i Hin].
  assert (owner regs s cb) as Hown by (apply (iv_X _ _ _ _ Hi); left).
  destruct (phase_of h s) as [[cbs ws|e]|] eqn:Hp.
  - (* queued *)
    assert (in_phase i = Pending cbs ws) as Hph by (unfold phase_of in Hp; rewrite Hin in Hp; by injection Hp).
    set (h' := on_inner s _ h).
    assert (∀ x, end_of h' x = end_of h x) as He.
    { intros x. unfold end_of, phase_of, h'. rewrite lookup_on_inner. case_decide as Hd; [subst x|done].
      rewrite Hin. simpl. by rewrite Hph. }
    assert (tokens X [] h' ≡ₚ tokens ((s, cb) :: X) [] h) as Ht.
    { unfold tokens, waiting. rewrite fmap_cons, !(app_nil_r (all_queued _)).
      cbn [snd]. rewrite <- (Permutation_middle (all_queued h)), app_comm_cons. apply Permutation_app_tail.
      unfold all_queued, h', on_inner. simpl.
      pose proof (queued_bind_alter (inners h) s (set_in_phase (Pending (cbs ++ [cb]) ws)) i Hin) as Hq.
      assert (queued i = cbs) as Hqi by (unfold queued; by rewrite Hph). rewrite Hqi in Hq.
      change (queued (set_in_phase (Pending (cbs ++ [cb]) ws) i)) with (cbs ++ [cb]) in Hq.
      rewrite <- app_assoc in Hq. by apply Permutation_app_inv_l in Hq. }
    destruct Hi as [H1 H2 H3 H4 H5 H6 H7 H8]. constructor.
    + by rewrite Ht.
    + intros k o (s' & e & Hr & Hs' & Ho)%H2. exists s', e. by rewrite He.
    + intros s' j cb'. unfold h'. rewrite lookup_on_inner. case_decide as Hd; [subst s'|by apply H3].
      rewrite Hin. intros [= <-]. unfold queued. simpl. rewrite elem_of_app, list_elem_of_singleton.
      intros [Hcb| ->]; [|done]. eapply H3; [done|]. unfold queued. by rewrite Hph.
    + intros s' cb' Hx. apply H4. by right.
    + intros fr cb' Hfr. by apply not_elem_of_nil in Hfr.
    + intros t c a b Hr. destruct (H6 t c a b Hr) as (Ha & Hb & Hc). split_and!.
      * intros cbs' ws' Hpt. rewrite (occ_perm _ _ _ Ht).
        assert (∃ cbs'' ws'', phase_of h t = Some (Pending cbs'' ws'')) as (cbs'' & ws'' & Hpt'); [|by eapply Ha].
        unfold h', phase_of in Hpt. rewrite lookup_on_inner in Hpt. case_decide; [subst; eauto|eauto].
      * intros x Hx. specialize (Hb x Hx). rewrite !He. destruct (end_of h x) as [[u|y]|] eqn:Hex; [done| |].
        -- destruct Hb as [Hb|[[[= -> ->]|Hb]%elem_of_cons|(fr & y' & Hfr & _)]]; [by left| |right; by left|by apply not_elem_of_nil in Hfr].
           by rewrite (end_of_pending _ _ _ _ Hp) in Hex.
        -- unfold waited, h'. destruct Hb as [(j & Hj & Hcb)|[[= -> ->]|Hb]%elem_of_cons]; [left|left|by right].
           ++ rewrite lookup_on_inner. case_decide as Hd; [subst x|eauto]. rewrite Hin in Hj. simplify_eq.
              eexists. split; [by rewrite Hin|]. unfold queued in *. rewrite Hph in Hcb. simpl.
              apply elem_of_app. by left.
           ++ rewrite lookup_on_inner, decide_True by done. eexists. split; [by rewrite Hin|].
              unfold queued. simpl. apply elem_of_app. right. by apply list_elem_of_singleton.
      * rewrite He. destruct (end_of h t) as [[u|y]|]; [intros x Hx; rewrite He; auto| |done].
        destruct Hc as [->|(x & Hx & Hex)]; [by left|right; exists x; by rewrite He].
    + done.
    + intros r Hr. specialize (H8 r Hr). unfold h', on_inner. simpl. by rewrite length_alter.
  - (* run at once *)
    rewrite <- (run_step (mkFrame e [cb] []) [] h). apply run_inv.
    assert (end_of h s = Some e) as Hes by (unfold end_of; by rewrite Hp).
    assert (tokens X [mkFrame e [cb] []] h ≡ₚ tokens ((s, cb) :: X) [] h) as Ht.
    { unfold tokens, waiting. simpl. by rewrite !app_nil_r, <- app_assoc. }
    destruct Hi as [H1 H2 H3 H4 H5 H6 H7 H8]. constructor; try done.
    + by rewrite Ht.
    + intros s' cb' Hx. apply H4. by right.
    + intros fr cb' ->%list_elem_of_singleton ->%list_elem_of_singleton. by exists s.
    + intros t c a b Hr. destruct (H6 t c a b Hr) as (Ha & Hb & Hc). split_and!; [| |exact Hc].
      * intros cbs ws Hpt. rewrite (occ_perm _ _ _ Ht). by eapply Ha.
      * intros x Hx. specialize (Hb x Hx). destruct (end_of h x) as [[u|y]|] eqn:Hex; [done| |].
        -- destruct Hb as [Hb|[[[= -> <-]|Hb]%elem_of_cons|(fr & y' & Hfr & _)]];
             [by left| |right; by left|by apply not_elem_of_nil in Hfr].
           right. right. exists (mkFrame e [CAnd t c] []), y. split_and!; [left|left|]. simpl. congruence.
        -- destruct Hb as [(j & Hj & Hcb)|[[= -> ->]|Hb]%elem_of_cons]; [left; eauto|congruence|by right].
  - unfold phase_of in Hp. by rewrite Hin in Hp.
Qed.
End registered.


(** ** What may happen, in order *)

(** The registrations an action makes in a store. *)
Definition noted (a : Action) (h : Store) : list Reg :=
  match a with
  | ACallback s k => [RUser k s]
  | AAnd a b => [RAnd (length (inners h)) (length (counters h)) (st_inner a) (st_inner b)]
  | _ => []
  end.

(** The setter of an [and] status is dropped, and no callback is registered twice. *)
Definition allowed (regs : list Reg) (h : Store) (a : Action) : Prop :=
  match a with
  | ASuccess s | AFail s _ => ∀ t c a b, RAnd t c a b ∈ regs → s ≠ t
  | ACallback s k => s < length (inners h) ∧ ∀ s', RUser k s' ∉ regs
  | AAnd a b => st_inner a < length (inners h) ∧ st_inner b < length (inners h)
  | _ => True
  end.

Inductive reach : list Reg → Store → Prop :=
| reach_start : reach [] empty_store
| reach_act regs h now a :
    reach regs h → allowed regs h a → reach (noted a h ++ regs) (act now a h).

Section reachable.
Implicit Types (h : Store) (s t c k a b : nat) (regs : list Reg).

Definition timer_status (tm : Timer) : nat := match tm with TTimeout s _ | TSettle s _ => s end.

(** What is not told of the callbacks: the timers are of statuses with a setter. *)
Record sound regs h : Prop := {
  sd_inv : inv regs [] [] h;
  sd_timers : ∀ tm, tm ∈ timers h → timer_status tm < length (inners h)
    ∧ ∀ t c a b, RAnd t c a b ∈ regs → timer_status tm ≠ t;
  sd_once : NoDup (omap reg_id regs);
}.

Definition same_shape h h' : Prop :=
  timers h' = timers h ∧ length (inners h') = length (inners h).

Lemma enter_shape s e st h : same_shape h (enter s e st h).2.
Proof.
  unfold enter. destruct (phase_of h s) as [[]|]; [|done|done]. split; [done|apply length_alter].
Qed.
Lemma run_shape st h : same_shape h (run (work st h) st h).
Proof.
  apply (run_keeps (λ _ h', same_shape h h')); [|done]. intros fr st' h' [Ht Hl].
  assert (∀ t e st'' h'', same_shape h' h'' → same_shape h (enter t e st'' h'').2) as He.
  { intros t e st'' h'' [Ht' Hl']. destruct (enter_shape t e st'' h'') as [Ht'' Hl'']. split; congruence. }
  destruct fr as [e [|[k|t c] cbs] ws]; simpl; [done|done|]. destruct e as [[]|y].
  - simpl. destruct (_ =? 1)%Z; [|done]. specialize (He t (Ok ()) (mkFrame (Ok ()) cbs ws :: st')).
    destruct (enter _ _ _ _) as [st1 h1] eqn:Hen. specialize (He (set_counters (<[c:=(default 0 (counters h' !! c) - 1)%Z]> (counters h')) h')).
    rewrite Hen in He. by apply He.
  - specialize (He t (Err y) (mkFrame (Err y) cbs ws :: st') h'). destruct (enter _ _ _ _). by apply He.
Qed.
Lemma finish_shape s e h : same_shape h (finish s e h).
Proof.
  unfold finish. destruct (enter_shape s e [] h) as [Ht Hl]. destruct (enter s e [] h) as [st h'].
  destruct (run_shape st h') as [Ht' Hl']. split; simpl in *; congruence.
Qed.
Lemma on_inner_shape s f h : same_shape h (on_inner s f h).
Proof. split; [done|apply length_alter]. Qed.
Lemma register_shape s cb h : same_shape h (register s cb h).
Proof.
  unfold register. destruct (phase_of h s) as [[cbs ws|e]|]; [apply on_inner_shape| |done].
  rewrite <- (run_step (mkFrame e [cb] []) [] h). apply run_shape.
Qed.

Lemma sound_shape regs h h' : same_shape h h' → inv regs [] [] h' → sound regs h → sound regs h'.
Proof.
  intros [Ht Hl] Hi [_ H2 H3]. constructor; [done| |done]. intros tm. rewrite Ht, Hl. apply H2.
Qed.

Lemma legit_free regs s e h : (∀ t c a b, RAnd t c a b ∈ regs → s ≠ t) → legit regs s e h.
Proof. intros Hs c a b Hr. by destruct (Hs s c a b Hr). Qed.
Lemma legit_cancel regs s h : legit regs s (Err SCancelled) h.
Proof. intros c a b _. by left. Qed.

Lemma finish_sound regs s e h : sound regs h → legit regs s e h → sound regs (finish s e h).
Proof.
  intros Hs Hl. eapply sound_shape; [apply finish_shape| |done]. apply finish_inv; [|done]. apply Hs.
Qed.

Lemma view_on_inner s f h :
  (∀ i, view1 (f i) = view1 i) → view (on_inner s f h) = view h.
Proof.
  intros Hf. unfold view, on_inner. simpl. generalize (inners h). revert s.
  intros s l. revert s. induction l as [|i l IH]; intros [|s]; simpl; [done|done|by rewrite Hf|f_equal; apply IH].
Qed.

Lemma view_sound regs h h' :
  same_shape h h' → view h' = view h → counters h' = counters h → fired h' = fired h →
  sound regs h → sound regs h'.
Proof. intros Hsh Hv Hc Hf Hs. eapply sound_shape; [done| |done]. eapply inv_view; [..|apply Hs]; done. Qed.

(** A new status has no callbacks and no end. *)
Lemma inv_new regs h i : view1 i = inl [] → inv regs [] [] h → inv regs [] [] (set_inners (inners h ++ [i]) h).
Proof.
  intros Hv [H1 H2 H3 H4 H5 H6 H7 H8]. set (h' := set_inners _ h).
  assert (∀ s, end_of h' s = end_of h s) as He.
  { intros s. unfold end_of, phase_of, h'. simpl. destruct (decide (s < length (inners h))).
    - by rewrite lookup_app_l.
    - rewrite lookup_app_r, (lookup_ge_None_2 (inners h)) by lia. destruct (s - length (inners h)); [|done].
      simpl. unfold view1 in Hv. by destruct (in_phase i). }
  assert (∀ s cbs ws, s < length (inners h) → phase_of h' s = Some (Pending cbs ws) → phase_of h s = Some (Pending cbs ws)) as Hp.
  { intros s cbs ws Hs. unfold phase_of, h'. simpl. by rewrite lookup_app_l. }
  assert (tokens [] [] h' = tokens [] [] h) as Ht.
  { unfold tokens, waiting, all_queued, h'. simpl. rewrite bind_app. simpl. by rewrite queued_view, Hv, !app_nil_r. }
  assert (∀ s j, inners h !! s = Some j → inners h' !! s = Some j) as Hin.
  { intros s j Hj. unfold h'. simpl. rewrite lookup_app_l; [done|]. by eapply lookup_lt_Some. }
  constructor.
  - by rewrite Ht.
  - intros k o (s & e & Hr & Hs & Ho)%H2. exists s, e. by rewrite He.
  - intros s j cb. unfold h'. simpl. intros [Hj|[_ Hj]]%lookup_app_Some Hcb; [by eapply H3|].
    apply list_lookup_singleton_Some in Hj as [_ <-]. rewrite queued_view, Hv in Hcb. by apply not_elem_of_nil in Hcb.
  - done.
  - intros fr cb Hfr. by apply not_elem_of_nil in Hfr.
  - intros t c a b Hr. destruct (H6 t c a b Hr) as (Ha & Hb & Hc). destruct (H8 _ Hr) as (Htl & _). split_and!.
    + intros cbs ws Hpt. rewrite Ht. apply (Ha cbs ws). by apply Hp.
    + intros x Hx. specialize (Hb x Hx). rewrite !He. destruct (end_of h x) as [[u|y]|]; [done|done|].
      destruct Hb as [(j & Hj & Hcb)|Hb]; [left; exists j; auto|by right].
    + rewrite He. destruct (end_of h t) as [[u|y]|]; [intros x Hx; rewrite He; auto| |done].
      destruct Hc as [->|(x & Hx & Hs)]; [by left|right; exists x; by rewrite He].
  - done.
  - intros r Hr. specialize (H8 r Hr). unfold h'. simpl. rewrite length_app. simpl. destruct r; lia.
Qed.

Lemma inv_user regs h k s :
  s < length (inners h) → inv regs [] [] h → inv (RUser k s :: regs) [(s, CUser k)] [] h.
Proof.
  intros Hs [H1 H2 H3 H4 H5 H6 H7 H8].
  assert (∀ cb, CUser k ≠ cb → occ cb (tokens [(s, CUser k)] [] h) = occ cb (tokens [] [] h)) as Ho.
  { intros cb Hcb. unfold tokens. rewrite !occ_app. simpl. by rewrite occ_cons, decide_False. }
  assert (∀ s' cb, owner regs s' cb → owner (RUser k s :: regs) s' cb) as How.
  { intros s' [k'|t c]; simpl; [by right|]. intros (a & b & Hr & Hx). exists a, b. split; [by right|done]. }
  constructor.
  - unfold tokens in *. simpl in *. rewrite app_nil_r in H1. rewrite omap_app. simpl.
    rewrite app_assoc, H1. symmetry. apply Permutation_cons_append.
  - intros k' o (s' & e & Hr & Hx)%H2. exists s', e. split; [by right|done].
  - eauto.
  - intros s' cb [[= -> ->]|[]%not_elem_of_nil]%elem_of_cons. by left.
  - intros fr cb Hfr. by apply not_elem_of_nil in Hfr.
  - intros t c a b [?|Hr]%elem_of_cons; [done|]. destruct (H6 t c a b Hr) as (Ha & Hb & Hc). split_and!; [| |done].
    + intros cbs ws Hp. rewrite Ho by done. by eapply Ha.
    + intros x Hx. specialize (Hb x Hx). destruct (end_of h x) as [[u|y]|]; [done| |].
      * destruct Hb as [Hb|[Hb|(fr & y' & Hfr & _)]]; [by left|by apply not_elem_of_nil in Hb|by apply not_elem_of_nil in Hfr].
      * destruct Hb as [Hb|Hb]; [by left|by apply not_elem_of_nil in Hb].
  - intros t c a b t' c' a' b' [?|Hr]%elem_of_cons [?|Hr']%elem_of_cons; [done..|]. by apply H7.
  - intros r [->|Hr]%elem_of_cons; [done|by apply H8].
Qed.

Lemma inv_and regs h a b now :
  a < length (inners h) → b < length (inners h) → inv regs [] [] h →
  let t := length (inners h) in let c := length (counters h) in
  inv (RAnd t c a b :: regs) [(a, CAnd t c); (b, CAnd t c)] []
    (set_counters (counters h ++ [2%Z]) (set_inners (inners h ++ [inner_new now 0]) h)).
Proof.
  intros Ha Hb Hi t c. pose proof (inv_new regs h (inner_new now 0) eq_refl Hi) as Hn.
  set (h1 := set_inners _ h) in *. set (h' := set_counters _ h1).
  destruct Hi as [_ _ _ _ _ _ _ H0]. destruct Hn as [H1 H2 H3 H4 H5 H6 H7 H8].
  assert (∀ t' c' a' b', RAnd t' c' a' b' ∈ regs → t' < t ∧ c' < c) as Hlt.
  { intros t' c' a' b' Hr. destruct (H0 _ Hr) as (? & _ & _ & ?). done. }
  assert (CAnd t c ∉ tokens [] [] h1) as Hno.
  { unfold tokens, waiting. simpl. rewrite !app_nil_r. unfold all_queued. intros (i & Hq & Hin)%list_elem_of_bind.
    apply list_elem_of_lookup in Hin as [s Hs]. destruct (H3 s i _ Hs Hq) as (a' & b' & Hr & _).
    destruct (Hlt _ _ _ _ Hr). lia. }
  assert (∀ cb, occ cb (tokens [(a, CAnd t c); (b, CAnd t c)] [] h')
          = occ cb (tokens [] [] h1) + (if decide (CAnd t c = cb) then 2 else 0)) as Ho.
  { intros cb. unfold tokens. change (waiting [] h') with (waiting [] h1). rewrite !occ_app. simpl.
    rewrite !occ_cons. change (occ cb []) with 0. case_decide; lia. }
  assert (∀ s' cb, owner regs s' cb → owner (RAnd t c a b :: regs) s' cb) as How.
  { intros s' [k'|t' c']; simpl; [by right|]. intros (a' & b' & Hr & Hx). exists a', b'. split; [by right|done]. }
  assert (∀ x, x < t → end_of h' x = end_of h x) as Hold.
  { intros x Hx. unfold end_of, phase_of, h', h1. simpl. by rewrite lookup_app_l. }
  constructor.
  - unfold tokens in *. change (waiting [] h') with (waiting [] h1). simpl in *. rewrite app_nil_r in H1.
    rewrite omap_app. simpl. rewrite app_nil_r. exact H1.
  - intros k' o (s' & e & Hr & Hx)%H2. exists s', e. split; [by right|done].
  - intros s i cb Hs Hq. by eapply How, H3.
  - intros s' cb [[= -> ->]|[[= -> ->]|[]%not_elem_of_nil]%elem_of_cons]%elem_of_cons;
      exists a, b; (split; [left|auto]).
  - intros fr cb Hfr. by apply not_elem_of_nil in Hfr.
  - intros t' c' a' b' [[= -> -> -> ->]|Hr]%elem_of_cons.
    + assert (occ (CAnd t c) (tokens [] [] h1) = 0) as Hz.
      { unfold occ. destruct (filter _ _) as [|x l] eqn:Hf; [done|].
        assert (x ∈ filter (λ x, x = CAnd t c) (tokens [] [] h1)) as [-> Hin]%list_elem_of_filter by (rewrite Hf; left).
        done. }
      split_and!.
      * intros cbs ws _. rewrite Ho, Hz, decide_True by done. unfold h'. simpl.
        rewrite lookup_app_r, Nat.sub_diag by done. split; [done|lia].
      * intros x Hx. destruct (end_of h' x) as [[u|y]|]; [done| |].
        -- right. left. destruct Hx as [->| ->]; [left|right; left].
        -- right. destruct Hx as [->| ->]; [left|right; left].
      * unfold end_of, phase_of, h', h1. simpl. by rewrite lookup_app_r, Nat.sub_diag.
    + destruct (H6 t' c' a' b' Hr) as (Hx1 & Hx2 & Hx3). destruct (Hlt _ _ _ _ Hr). split_and!; [| |exact Hx3].
      * intros cbs ws Hp. rewrite Ho, decide_False by (intros [= ? ?]; lia). rewrite Nat.add_0_r. unfold h'. simpl.
        rewrite lookup_app_l by done. by eapply Hx1.
      * intros x Hx. specialize (Hx2 x Hx). change (end_of h') with (end_of h1). destruct (end_of h1 x) as [[u|y]|]; [done| |].
        -- destruct Hx2 as [Hx2|[Hx2|(fr & y' & Hfr & _)]]; [by left|by apply not_elem_of_nil in Hx2|by apply not_elem_of_nil in Hfr].
        -- destruct Hx2 as [Hx2|Hx2]; [by left|by apply not_elem_of_nil in Hx2].
  - intros t1 c1 a1 b1 t2 c2 a2 b2 [[= -> -> -> ->]|Hr]%elem_of_cons [[= -> -> -> ->]|Hr']%elem_of_cons Hor; [done|..].
    + destruct (Hlt _ _ _ _ Hr'). lia.
    + destruct (Hlt _ _ _ _ Hr). lia.
    + by apply H7.
  - intros r [->|Hr]%elem_of_cons; unfold h', h1; simpl; rewrite !length_app; simpl; [unfold t, c; lia|].
    specialize (H8 r Hr). unfold h1 in H8. simpl in H8. rewrite length_app in H8. simpl in H8. destruct r; lia.
Qed.

Lemma register_sound regs X s cb h :
  s < length (inners h) → inv regs ((s, cb) :: X) [] h → NoDup (omap reg_id regs) →
  (∀ tm, tm ∈ timers h → timer_status tm < length (inners h)
     ∧ ∀ t c a b, RAnd t c a b ∈ regs → timer_status tm ≠ t) →
  let h' := register s cb h in
  inv regs X [] h' ∧ length (inners h') = length (inners h) ∧ timers h' = timers h
  ∧ (X = [] → sound regs h').
Proof.
  intros Hs Hi Hd Ht h'. destruct (register_shape s cb h) as [Hsh Hl]. pose proof (register_inv _ _ _ _ _ Hs Hi) as Hr.
  split_and!; [done|done|done|]. intros ->. constructor; [done| |done].
  intros tm. unfold h'. rewrite Hsh, Hl. apply Ht.
Qed.

Lemma sound_act regs h now (a : Action) :
  sound regs h → allowed regs h a → sound (noted a h ++ regs) (act now a h).
Proof.
  intros Hs Ha. destruct a as [d settle|s|s x|i|s|s k|a b|s task|s p|s u|s|o]; simpl in *.
  - pose proof (inv_new regs h (inner_new now settle) eq_refl (sd_inv _ _ Hs)) as Hi.
    destruct Hs as [Hs0 H2 H3]. unfold with_timeout. simpl.
    assert (∀ tm, tm ∈ timers h → timer_status tm < S (length (inners h))
      ∧ ∀ t c a b, RAnd t c a b ∈ regs → timer_status tm ≠ t) as Hold.
    { intros tm Hin. destruct (H2 tm Hin) as [Hlt Hne]. split; [lia|done]. }
    destruct d as [d|].
    + constructor; [eapply inv_view; [..|exact Hi]; done| |done]. simpl. rewrite length_app. simpl.
      intros tm [Hin| ->%list_elem_of_singleton]%elem_of_app; [rewrite Nat.add_1_r; by apply Hold|].
      simpl. split; [lia|]. intros t c a b Hr <-. apply (iv_dom _ _ _ _ Hs0) in Hr. lia.
    + constructor; [exact Hi| |done]. simpl. rewrite length_app, Nat.add_1_r. exact Hold.
  - unfold success. destruct (inners h !! s) as [i|] eqn:Hi; [|done]. case_match.
    + apply finish_sound; [done|]. by apply legit_free.
    + destruct Hs as [H1 H2 H3]. constructor; [eapply inv_view; [..|exact H1]; done| |done]. simpl.
      intros tm [Hin| ->%list_elem_of_singleton]%elem_of_app; [by apply H2|]. simpl.
      split; [by eapply lookup_lt_Some|done].
  - apply finish_sound; [done|]. by apply legit_free.
  - unfold fire_timer. destruct (timers h !! i) as [tm|] eqn:Hi; [|done]. destruct (due now tm); [|done].
    pose proof Hs as [H1 H2 H3]. destruct (H2 tm) as [_ Hfree]; [by eapply list_elem_of_lookup_2|].
    assert (sound regs (set_timers (delete i (timers h)) h)) as Hs'.
    { constructor; [eapply inv_view; [..|exact H1]; done| |done]. simpl. intros tm' Hin. apply H2.
      rewrite delete_take_drop in Hin. rewrite <- (take_drop_middle _ _ _ Hi).
      apply elem_of_app in Hin as [Hin|Hin]; apply elem_of_app; [by left|right; by right]. }
    destruct tm; simpl in *; (apply finish_sound; [done|by apply legit_free]).
  - unfold cancel. apply finish_sound; [|apply legit_cancel].
    eapply view_sound; [apply on_inner_shape| |done|done|done]. by apply view_on_inner.
  - destruct Ha as [Hlt Hfresh]. destruct Hs as [H1 H2 H3].
    apply (register_sound (RUser k s :: regs) []); [done|by apply inv_user| | |done].
    + simpl. constructor; [|done]. intros (r & Hr & Hk)%list_elem_of_omap.
      destruct r as [k' s'|]; [|done]. injection Hk as ->. by apply (Hfresh s').
    + intros tm Hin. destruct (H2 tm Hin) as [Htm Hne]. split; [done|]. intros t c a b [?|Hr]%elem_of_cons; [done|]. by eapply Hne.
  - destruct Ha as [Hla Hlb]. destruct Hs as [H1 H2 H3]. unfold and_status. simpl.
    set (t := length (inners h)). set (c := length (counters h)). set (h1 := set_counters _ _).
    pose proof (inv_and regs h (st_inner a) (st_inner b) now Hla Hlb H1) as Hi. simpl in Hi.
    change (inv (RAnd t c (st_inner a) (st_inner b) :: regs) [(st_inner a, CAnd t c); (st_inner b, CAnd t c)] [] h1) in Hi.
    assert (length (inners h1) = S t) as Hl1 by (unfold h1; simpl; rewrite length_app; simpl; lia).
    assert (∀ tm, tm ∈ timers h → timer_status tm < length (inners h1) ∧
      ∀ t' c' a' b', RAnd t' c' a' b' ∈ RAnd t c (st_inner a) (st_inner b) :: regs → timer_status tm ≠ t') as Htm.
    { intros tm Hin. destruct (H2 tm Hin) as [Hlt Hne]. split; [lia|].
      intros t' c' a' b' [[= -> -> -> ->]|Hr]%elem_of_cons; [unfold t; lia|by eapply Hne]. }
    destruct (register_sound _ _ _ _ _ (ltac:(lia) : st_inner a < length (inners h1)) Hi H3 Htm) as (Hi2 & Hl2 & Ht2 & _).
    set (h2 := register (st_inner a) (CAnd t c) h1) in *.
    apply (register_sound _ [] (st_inner b) (CAnd t c) h2); [lia|done|done| |done].
    intros tm. rewrite Ht2, Hl2. apply Htm.
  - unfold poll. destruct (phase_of h s) as [[cbs ws|e]|] eqn:Hp; [|done|done]. simpl. case_decide; [done|].
    assert (view (on_inner s (set_in_phase (Pending cbs (ws ++ [task]))) h) = view h) as Hv.
    { unfold view, on_inner. simpl. unfold phase_of in Hp. revert Hp. generalize (inners h). intros l. revert s.
      induction l as [|i l IH]; intros [|s] Hp; simplify_eq/=; [by unfold view1; rewrite Hp|f_equal; by apply IH]. }
    by eapply view_sound; [apply on_inner_shape|..].
  - eapply view_sound; [apply on_inner_shape| |done|done|done]. by apply view_on_inner.
  - unfold update_watcher. destruct (inners h !! s) as [i|] eqn:Hi; [|done].
    eapply view_sound; [split; simpl; [done|apply length_alter]| |done|done|done].
    unfold view. simpl. set (i' := set_in_watcher _ _).
    assert (view1 i' = view1 i) as Hv by (unfold i'; by destruct (wu_fraction _)).
    clearbody i'. revert Hi. generalize (inners h). intros l. revert s.
    induction l as [|j l IH]; intros [|s] Hi; simplify_eq/=; [by rewrite Hv|f_equal; by apply IH].
  - unfold observe. destruct (inners h !! s) as [i|] eqn:Hi; [|done]. simpl.
    eapply view_sound; [split; simpl; [done|apply length_alter]| |done|done|done].
    by apply (view_on_inner s (λ i, set_in_observers _ i) h).
  - unfold observe_turn. destruct (all_observers h !! o) as [ob|]; [|done]. destruct (ob_alive ob); [|done].
    by apply (view_sound regs h).
Qed.

Lemma reach_sound regs h : reach regs h → sound regs h.
Proof.
  induction 1 as [|regs h now x _ IH Ha]; [|by apply sound_act].
  constructor; [|by intros ? ?%not_elem_of_nil|constructor]. constructor; [done|..].
  - by intros k o ?%not_elem_of_nil.
  - done.
  - by intros s cb ?%not_elem_of_nil.
  - by intros fr cb ?%not_elem_of_nil.
  - by intros t c a b ?%not_elem_of_nil.
  - by intros t c a b t' c' a' b' ?%not_elem_of_nil.
  - by intros r ?%not_elem_of_nil.
Qed.
End reachable.

(** ** What the statuses promise *)

Section promises.
Implicit Types (h : Store) (s t c k a b : nat) (regs : list Reg).

(** What callback [k] has been told. *)
Definition told (k : nat) (h : Store) : list StatusOutcome := (filter (λ x, x.1 = k) (fired h)).*2.

Lemma user_once regs k s s' : NoDup (omap reg_id regs) → RUser k s ∈ regs → RUser k s' ∈ regs → s = s'.
Proof.
  induction regs as [|r regs IH]; [by intros _ ?%not_elem_of_nil|]. simpl.
  intros Hd [Hr|Hr]%elem_of_cons [Hr'|Hr']%elem_of_cons.
  - congruence.
  - subst r. simpl in Hd. apply NoDup_cons in Hd as [Hn _]. destruct Hn. apply list_elem_of_omap. by exists (RUser k s').
  - subst r. simpl in Hd. apply NoDup_cons in Hd as [Hn _]. destruct Hn. apply list_elem_of_omap. by exists (RUser k s).
  - apply IH; [|done|done]. destruct (reg_id r); [by apply NoDup_cons in Hd as [_ Hd]|done].
Qed.

Lemma told_nodup k o h : NoDup (fired h).*1 → (k, o) ∈ fired h → told k h = [o].
Proof.
  unfold told. induction (fired h) as [|[k' o'] l IH]; [by intros _ ?%not_elem_of_nil|].
  simpl. intros [Hn Hd]%NoDup_cons [[= <- <-]|Hin]%elem_of_cons; rewrite filter_cons; simpl.
  - rewrite decide_True by done. simpl. f_equal.
    assert (filter (λ x, x.1 = k) l = []) as ->; [|done].
    destruct (filter _ _) as [|x l'] eqn:Hf; [done|].
    assert (x ∈ filter (λ x, x.1 = k) l) as [Hx Hin]%list_elem_of_filter by (rewrite Hf; left).
    destruct Hn. apply list_elem_of_fmap. by exists x.
  - rewrite decide_False; [by apply IH|]. intros ->. destruct Hn. apply list_elem_of_fmap. by exists (k, o).
Qed.

(** C28: A callback registered with a status, before or after its end, is told its outcome once
    if the status has ended, and has been told nothing if it has not: whatever statuses,
    combinations, cancellations, timers and other callbacks there are. *)
Theorem callbacks_fire_once regs h k s :
  reach regs h → RUser k s ∈ regs →
  told k h = match end_of h s with Some e => [outcome e] | None => [] end.
Proof.
  intros Hr Hk. apply reach_sound in Hr as [Hi _ Hd].
  pose proof (iv_users _ _ _ _ Hi) as Hp.
  assert (NoDup ((fired h).*1 ++ omap user_id (tokens [] [] h))) as Hdn by (by rewrite Hp).
  apply NoDup_app in Hdn as (Hn1 & Hn2 & Hn3).
  destruct (end_of h s) as [e|] eqn:He.
  - assert (k ∈ (fired h).*1 ++ omap user_id (tokens [] [] h)) as Hin.
    { rewrite Hp. apply list_elem_of_omap. by exists (RUser k s). }
    apply elem_of_app in Hin as [Hin|Hin].
    + apply list_elem_of_fmap in Hin as ([k' o] & -> & Hin). apply told_nodup; [done|].
      destruct (iv_fired _ _ _ _ Hi _ _ Hin) as (s' & e' & Hr' & He' & ->).
      rewrite (user_once _ _ _ _ Hd Hk Hr') in He. by simplify_eq.
    + apply list_elem_of_omap in Hin as (cb & Hin & Hcb). destruct cb as [k'|]; [|done]. injection Hcb as ->.
      unfold tokens, waiting in Hin. simpl in Hin. rewrite !app_nil_r in Hin.
      unfold all_queued in Hin. apply list_elem_of_bind in Hin as (i & Hq & Hin).
      apply list_elem_of_lookup in Hin as [s' Hs]. pose proof (iv_queue _ _ _ _ Hi _ _ _ Hs Hq) as Hr'. simpl in Hr'.
      rewrite <- (user_once _ _ _ _ Hd Hk Hr') in Hs. unfold end_of, phase_of in He. rewrite Hs in He. simpl in He.
      unfold queued in Hq. destruct (in_phase i); [done|by apply not_elem_of_nil in Hq].
  - unfold told. destruct (filter _ _) as [|[k' o] l] eqn:Hf; [done|].
    assert ((k', o) ∈ filter (λ x, x.1 = k) (fired h)) as [Hx Hin]%list_elem_of_filter by (rewrite Hf; left).
    simpl in Hx. subst k'. destruct (iv_fired _ _ _ _ Hi _ _ Hin) as (s' & e' & Hr' & He' & _).
    rewrite (user_once _ _ _ _ Hd Hk Hr') in He. congruence.
Qed.

(** An [and] status has succeeded only if both its parts have; it has failed with the
    failure of a part or because it was cancelled; and it is pending only while a part is
    and none has failed. *)
Theorem and_status_spec regs h t c a b :
  reach regs h → RAnd t c a b ∈ regs →
  match end_of h t with
  | Some (Ok _) => end_of h a = Some (Ok ()) ∧ end_of h b = Some (Ok ())
  | Some (Err y) => y = SCancelled ∨ end_of h a = Some (Err y) ∨ end_of h b = Some (Err y)
  | None => (end_of h a = None ∨ end_of h b = None)
            ∧ (∀ y, end_of h a ≠ Some (Err y)) ∧ (∀ y, end_of h b ≠ Some (Err y))
  end.
Proof.
  intros Hr Hin. apply reach_sound in Hr as [Hi _ _].
  destruct (iv_and _ _ _ _ Hi _ _ _ _ Hin) as (Ha & Hb & Hc). destruct (end_of h t) as [[u|y]|] eqn:He.
  - split; apply Hc; auto.
  - destruct Hc as [->|(x & [->| ->] & Hx)]; auto.
  - assert (∀ x, x = a ∨ x = b → ∀ y, end_of h x ≠ Some (Err y)) as Hno.
    { intros x Hx y Hxe. specialize (Hb x Hx). rewrite Hxe in Hb.
      destruct Hb as [[? [=]]|[[]%not_elem_of_nil|(fr & y' & []%not_elem_of_nil & _)]]. }
    split_and!; [|by apply Hno; left|by apply Hno; right].
    assert (∃ cbs ws, phase_of h t = Some (Pending cbs ws)) as (cbs & ws & Hp).
    { destruct (iv_dom _ _ _ _ Hi _ Hin) as (Ht & _). destruct (lookup_lt_is_Some_2 _ _ Ht) as [i Hit].
      unfold end_of, phase_of in *. rewrite Hit in *. simpl in *. destruct (in_phase i); [eauto|done]. }
    destruct (Ha _ _ Hp) as [_ Hpos].
    assert (CAnd t c ∈ all_queued h) as Hq.
    { unfold tokens, waiting in Hpos. simpl in Hpos. rewrite !app_nil_r in Hpos.
      unfold occ in Hpos. destruct (filter _ _) as [|x l] eqn:Hf; [simpl in Hpos; lia|].
      assert (x ∈ filter (λ x, x = CAnd t c) (all_queued h)) as [-> Hx]%list_elem_of_filter by (rewrite Hf; left).
      done. }
    unfold all_queued in Hq. apply list_elem_of_bind in Hq as (i & Hq & Hs).
    apply list_elem_of_lookup in Hs as [s Hs]. destruct (iv_queue _ _ _ _ Hi _ _ _ Hs Hq) as (a' & b' & Hr' & Hx).
    destruct (iv_one _ _ _ _ Hi _ _ _ _ _ _ _ _ Hin Hr' (or_introl eq_refl)) as (_ & _ & <- & <-).
    assert (end_of h s = None) as Hse.
    { unfold end_of, phase_of. rewrite Hs. simpl. unfold queued in Hq. destruct (in_phase i); [done|by apply not_elem_of_nil in Hq]. }
    destruct Hx as [->| ->]; auto.
Qed.
End promises.

(** ** Ends are final, and no waiter is forgotten *)

Section growth.
Implicit Types (h : Store) (st : list Frame) (s : nat).

(** From [h], with calls in progress: what had ended has the same end, and the tasks that
    waited for a status wait for it still, or were woken when it ended, or are about to be. *)
Record grows h st h' : Prop := {
  gr_end : ∀ s e, end_of h s = Some e → end_of h' s = Some e;
  gr_woken : ∃ l, woken h' = woken h ++ l ∧
    ∀ s cbs ws w, phase_of h s = Some (Pending cbs ws) → w ∈ ws →
      (∃ cbs' ws', phase_of h' s = Some (Pending cbs' ws') ∧ w ∈ ws')
      ∨ is_Some (end_of h' s) ∧ (w ∈ l ∨ ∃ fr, fr ∈ st ∧ w ∈ fr_wakers fr);
}.

Lemma grows_refl h : grows h [] h.
Proof. constructor; [done|]. exists []. rewrite app_nil_r. split; [done|]. eauto. Qed.

(** Nothing of the phases but the callbacks and more waiters. *)
Lemma grows_same h st h1 h2 :
  grows h st h1 → woken h2 = woken h1 →
  (∀ s e, end_of h1 s = Some e → end_of h2 s = Some e) →
  (∀ s cbs ws w, phase_of h1 s = Some (Pending cbs ws) → w ∈ ws →
     ∃ cbs' ws', phase_of h2 s = Some (Pending cbs' ws') ∧ w ∈ ws') →
  grows h st h2.
Proof.
  intros [H1 (l & Hl & H2)] Hw He Hp. constructor; [auto|]. exists l. rewrite Hw. split; [done|].
  intros s cbs ws w Hph Hin. destruct (H2 s cbs ws w Hph Hin) as [(cbs' & ws' & Hph' & Hin')|[[e Hend] Hor]]; [eauto|].
  right. split; [|done]. by exists e; auto.
Qed.
Lemma grows_phase h st h1 h2 :
  grows h st h1 → woken h2 = woken h1 → (∀ s, phase_of h2 s = phase_of h1 s) → grows h st h2.
Proof.
  intros Hg Hw Hp. eapply grows_same; [done|done| |].
  - intros s e. unfold end_of. by rewrite Hp.
  - intros s cbs ws w. rewrite Hp. eauto.
Qed.

Lemma grows_enter h st h1 s e : grows h st h1 → grows h (enter s e st h1).1 (enter s e st h1).2.
Proof.
  intros Hg. unfold enter. destruct (phase_of h1 s) as [[cbs ws|e']|] eqn:Hp; [|done|done]. simpl.
  destruct Hg as [H1 (l & Hl & H2)]. constructor.
  - intros s' e' He%H1. by eapply ended_stays.
  - exists l. split; [done|]. intros s' cbs' ws' w Hph Hin.
    destruct (H2 s' cbs' ws' w Hph Hin) as [(cbs2 & ws2 & Hph2 & Hin2)|[[e' He] Hor]].
    + destruct (decide (s' = s)) as [->|Hn].
      * right. rewrite Hp in Hph2. injection Hph2 as <- <-. split; [rewrite (end_of_ended _ _ _ _ _ _ Hp), decide_True by done; by eexists|].
        right. exists (mkFrame e cbs ws). split; [left|done].
      * left. exists cbs2, ws2. by rewrite phase_of_ended, decide_False by auto.
    + right. split; [exists e'; by eapply ended_stays|]. destruct Hor as [|(fr & Hfr & Hw)]; [by left|].
      right. exists fr. split; [by right|done].
Qed.

Lemma grows_frame h e cb cbs ws st h1 :
  grows h (mkFrame e (cb :: cbs) ws :: st) h1 → grows h (mkFrame e cbs ws :: st) h1.
Proof.
  intros [H1 (l & Hl & H2)]. constructor; [done|]. exists l. split; [done|]. intros s cbs' ws' w Hph Hin.
  destruct (H2 s cbs' ws' w Hph Hin) as [|[He [|(fr & [->|Hfr]%elem_of_cons & Hw)]]]; [by left|right; by auto|..].
  - right. split; [done|]. right. exists (mkFrame e cbs ws). split; [left|done].
  - right. split; [done|]. right. exists fr. split; [by right|done].
Qed.

Lemma grows_step h fr st h1 :
  grows h (fr :: st) h1 → let '(st', h') := step (fr :: st) h1 in grows h st' h'.
Proof.
  intros Hg. destruct fr as [e [|[k|t c] cbs] ws]; simpl.
  - destruct Hg as [H1 (l & Hl & H2)]. constructor; [done|]. exists (l ++ ws). simpl. rewrite Hl, app_assoc.
    split; [done|]. intros s cbs' ws' w Hph Hin.
    destruct (H2 s cbs' ws' w Hph Hin) as [|[He [Hin'|(fr & [->|Hfr]%elem_of_cons & Hw)]]]; [by left|right..];
      (split; [done|]); rewrite ?elem_of_app; eauto.
  - eapply grows_phase; [by eapply grows_frame|done|done].
  - apply grows_frame in Hg. destruct e as [[]|y].
    + simpl. set (h2 := set_counters _ h1).
      assert (grows h (mkFrame (Ok ()) cbs ws :: st) h2) as Hg2 by (eapply grows_phase; [exact Hg|done|done]).
      destruct (_ =? 1)%Z; [|exact Hg2].
      pose proof (grows_enter _ _ _ t (Ok ()) Hg2) as Hen. by destruct (enter _ _ _ _).
    + pose proof (grows_enter _ _ _ t (Err y) Hg) as Hen. by destruct (enter _ _ _ _).
Qed.

Lemma grows_run h st h1 : grows h st h1 → grows h [] (run (work st h1) st h1).
Proof. apply (run_keeps (grows h)). intros. by apply grows_step. Qed.
Lemma grows_finish h h1 s e : grows h [] h1 → grows h [] (finish s e h1).
Proof.
  intros Hg. unfold finish. pose proof (grows_enter _ _ _ s e Hg) as He. destruct (enter s e [] h1). by apply grows_run.
Qed.

Lemma phase_on_inner h s f s' :
  (∀ i, in_phase (f i) = in_phase i) → phase_of (on_inner s f h) s' = phase_of h s'.
Proof. intros Hf. unfold phase_of. rewrite lookup_on_inner. case_decide; [|done]. destruct (inners h !! s'); simpl; by rewrite ?Hf. Qed.

(** Callbacks and waiters are only added. *)
Lemma grows_more h h1 s cbs ws cbs' ws' :
  grows h [] h1 → phase_of h1 s = Some (Pending cbs ws) → (∀ w, w ∈ ws → w ∈ ws') →
  grows h [] (on_inner s (set_in_phase (Pending cbs' ws')) h1).
Proof.
  intros Hg Hp Hsub. eapply grows_same; [done|done| |].
  - intros s' e. unfold end_of, phase_of in *. rewrite lookup_on_inner. case_decide; [|done]. subst s'.
    destruct (inners h1 !! s) as [i|]; [|done]. simpl in *. by simplify_eq; rewrite Hp.
  - intros s' cbs2 ws2 w Hph Hin. unfold phase_of in *. rewrite lookup_on_inner. case_decide; [|eauto]. subst s'.
    rewrite Hph in Hp. simplify_eq. destruct (inners h1 !! s) as [i|]; [|done]. simpl in *. eauto.
Qed.
Lemma grows_register h h1 s cb : grows h [] h1 → grows h [] (register s cb h1).
Proof.
  intros Hg. unfold register. destruct (phase_of h1 s) as [[cbs ws|e]|] eqn:Hp; [by eapply grows_more| |done].
  rewrite <- (run_step (mkFrame e [cb] []) [] h1). apply grows_run.
  destruct Hg as [H1 (l & Hl & H2)]. constructor; [done|]. exists l. split; [done|]. intros s' cbs ws w Hph Hin.
  destruct (H2 s' cbs ws w Hph Hin) as [|[He [|(fr & []%not_elem_of_nil & _)]]]; auto.
Qed.
Lemma grows_new h now d settle : grows h [] (with_timeout d settle now h).2.
Proof.
  unfold with_timeout. eapply (grows_same h [] h); [apply grows_refl|by destruct d| |]; simpl.
  - intros s e He. assert (s < length (inners h)) as Hs.
    { apply lookup_lt_is_Some. unfold end_of, phase_of in He. destruct (inners h !! s); [by eexists|done]. }
    unfold end_of, phase_of in *. destruct d; simpl; by rewrite lookup_app_l.
  - intros s cbs ws w Hp Hw. exists cbs, ws. split; [|done]. assert (s < length (inners h)) as Hs.
    { apply lookup_lt_is_Some. unfold phase_of in Hp. destruct (inners h !! s); [by eexists|done]. }
    unfold phase_of in *. destruct d; simpl; by rewrite lookup_app_l.
Qed.

Lemma grows_act now (x : Action) h : grows h [] (act now x h).
Proof.
  pose proof (grows_refl h) as H0. destruct x as [d settle|s|s x|i|s|s k|a b|s task|s p|s u|s|o]; simpl.
  - apply grows_new.
  - unfold success. destruct (inners h !! s); [|done]. case_match; [by apply grows_finish|by eapply grows_phase].
  - by apply grows_finish.
  - unfold fire_timer. destruct (timers h !! i) as [tm|]; [|done]. destruct (due now tm); [|done].
    destruct tm; simpl; apply grows_finish; by eapply grows_phase.
  - apply grows_finish. eapply grows_phase; [done|done|]. intros s'. by apply phase_on_inner.
  - by apply grows_register.
  - unfold and_status. simpl. do 2 apply grows_register.
    pose proof (grows_new h now None 0) as Hg. by eapply grows_phase; [exact Hg|..].
  - unfold poll. destruct (phase_of h s) as [[cbs ws|e]|] eqn:Hp; [|done|done]. simpl. case_decide; [done|].
    eapply grows_more; [done|done|]. intros w Hw. apply elem_of_app. by left.
  - eapply grows_phase; [done|done|]. intros s'. by apply phase_on_inner.
  - unfold update_watcher. destruct (inners h !! s) as [i|] eqn:Hi; [|done].
    eapply grows_phase; [done|done|]. intros s'. unfold phase_of. simpl.
    destruct (decide (s = s')) as [<-|]; [|by rewrite list_lookup_alter_ne].
    rewrite list_lookup_alter_eq, Hi. simpl. f_equal. by destruct (wu_fraction u).
  - unfold observe. destruct (inners h !! s) as [i|] eqn:Hi; [|done].
    eapply grows_phase; [done|done|]. intros s'. simpl.
    by apply (phase_on_inner h s (set_in_observers (in_observers i ++ [length (all_observers h)]))).
  - unfold observe_turn. destruct (all_observers h !! o) as [ob|]; [|done]. destruct (ob_alive ob); [|done].
    by eapply grows_phase.
Qed.

Lemma grows_trans h h1 h2 : grows h [] h1 → grows h1 [] h2 → grows h [] h2.
Proof.
  intros [H1 (l & Hl & H2)] [H3 (l' & Hl' & H4)]. constructor; [auto|]. exists (l ++ l').
  rewrite Hl', Hl, app_assoc. split; [done|]. intros s cbs ws w Hp Hw.
  destruct (H2 s cbs ws w Hp Hw) as [(cbs' & ws' & Hp' & Hw')|[[e He] [Hin|(fr & []%not_elem_of_nil & _)]]].
  - destruct (H4 s cbs' ws' w Hp' Hw') as [|[He [Hin|(fr & []%not_elem_of_nil & _)]]]; [by left|].
    right. split; [done|]. left. apply elem_of_app. by right.
  - right. split; [exists e; auto|]. left. apply elem_of_app. by left.
Qed.
Lemma grows_all l h : grows h [] (act_all l h).
Proof.
  revert h. induction l as [|[now x] l IH]; intros h; [apply grows_refl|].
  simpl. eapply grows_trans; [apply grows_act|apply IH].
Qed.

(** What a status ended with stays its end, whatever happens to it after. *)
Theorem first_outcome_wins l h s e : end_of h s = Some e → end_of (act_all l h) s = Some e.
Proof. apply (gr_end _ _ _ (grows_all l h)). Qed.

(** C29: A task that found a status pending is woken when the status ends, whatever happens
    to the statuses before that. *)
Theorem no_wakeup_is_lost l h s task :
  s < length (inners h) → end_of h s = None →
  let h1 := (poll s task h).2 in let h2 := act_all l h1 in
  is_Some (end_of h2 s) → ∃ ws, woken h2 = woken h1 ++ ws ∧ task ∈ ws.
Proof.
  intros Hs He h1 h2 [e He2]. assert (∃ cbs ws, phase_of h1 s = Some (Pending cbs ws) ∧ task ∈ ws) as (cbs & ws & Hp & Hw).
  { unfold h1, poll. destruct (lookup_lt_is_Some_2 _ _ Hs) as [i Hi].
    destruct (phase_of h s) as [[cbs ws|e']|] eqn:Hp.
    - simpl. case_decide; [by exists cbs, ws|]. exists cbs, (ws ++ [task]). unfold phase_of. rewrite lookup_on_inner, decide_True, Hi by done.
      split; [done|]. apply elem_of_app. right. by apply list_elem_of_singleton.
    - unfold end_of in He. by rewrite Hp in He.
    - unfold phase_of in Hp. by rewrite Hi in Hp. }
  destruct (grows_all l h1) as [_ (l' & Hl & H2)]. exists l'. split; [exact Hl|].
  destruct (H2 s cbs ws task Hp Hw) as [(cbs' & ws' & Hp' & _)|[_ [Hin|(fr & []%not_elem_of_nil & _)]]]; [|done].
  unfold end_of in He2. fold h2 in Hp'. by rewrite Hp' in He2.
Qed.
End growth.

(** ** Observers *)

Section observers.
Implicit Types (h : Store) (st : list Frame) (s o : nat).

(** What of a status its observers depend on. *)
Definition rest_of (i : Inner) : Z * list nat := (in_start i, in_observers i).
Definition steady h h' : Prop :=
  all_observers h' = all_observers h ∧ rest_of <$> inners h' = rest_of <$> inners h.

Lemma steady_refl h : steady h h.
Proof. done. Qed.
Lemma steady_trans h h1 h2 : steady h h1 → steady h1 h2 → steady h h2.
Proof. intros [H1 H2] [H3 H4]. split; congruence. Qed.
Lemma steady_on_inner s f h : (∀ i, rest_of (f i) = rest_of i) → steady h (on_inner s f h).
Proof.
  intros Hf. split; [done|]. unfold on_inner. simpl. generalize (inners h). intros l. revert s.
  induction l as [|i l IH]; intros [|s]; simpl; [done|done|by rewrite Hf|f_equal; apply IH].
Qed.
Lemma steady_enter s e st h : steady h (enter s e st h).2.
Proof. unfold enter. destruct (phase_of h s) as [[]|]; [|done|done]. by apply steady_on_inner. Qed.
Lemma steady_run st h : steady h (run (work st h) st h).
Proof.
  apply (run_keeps (λ _ h', steady h h')); [|done]. intros fr st' h' Hs.
  destruct fr as [e [|[k|t c] cbs] ws]; simpl; [done|done|]. destruct e as [[]|y]; simpl.
  - set (h1 := set_counters _ h'). destruct (_ =? 1)%Z; [|done].
    pose proof (steady_enter t (Ok ()) (mkFrame (Ok ()) cbs ws :: st') h1) as He.
    destruct (enter _ _ _ _). by eapply steady_trans; [exact Hs|].
  - pose proof (steady_enter t (Err y) (mkFrame (Err y) cbs ws :: st') h') as He.
    destruct (enter _ _ _ _). by eapply steady_trans.
Qed.
Lemma steady_finish s e h : steady h (finish s e h).
Proof.
  unfold finish. pose proof (steady_enter s e [] h) as He. destruct (enter s e [] h) as [st h'].
  eapply steady_trans; [exact He|apply steady_run].
Qed.
Lemma steady_register s cb h : steady h (register s cb h).
Proof.
  unfold register. destruct (phase_of h s) as [[cbs ws|e]|]; [by apply steady_on_inner| |done].
  rewrite <- (run_step (mkFrame e [cb] []) [] h). apply steady_run.
Qed.

(** The updates posted to a status. *)
Definition posted s (i : Inner) (l : list (Z * Action)) : list WatcherUpdate :=
  l ≫= λ '(now, a), match a with AUpdate s' u => if s' =? s then [filled now i u] else [] | _ => [] end.

(** Observer [o] is registered with status [s] alone and has been sent [us]. *)
Definition observing s o (i0 : Inner) (us : list WatcherUpdate) h : Prop :=
  ∃ i ob, inners h !! s = Some i ∧ in_start i = in_start i0
    ∧ all_observers h !! o = Some ob ∧ ob_status ob = s
    ∧ (∀ s' j, s' ≠ s → inners h !! s' = Some j → o ∉ in_observers j)
    ∧ NoDup (in_observers i)
    ∧ (∀ s' j x, inners h !! s' = Some j → x ∈ in_observers j → x < length (all_observers h))
    ∧ if ob_alive ob then o ∈ in_observers i ∧ ob_given ob ++ ob_queue ob = us
      else ob_queue ob = [] ∧ ob_given ob `prefix_of` us.

Lemma observing_steady s o i0 us h h' : steady h h' → observing s o i0 us h → observing s o i0 us h'.
Proof.
  intros [Ho Hi] (i & ob & H1 & H2 & H3 & H4 & H5 & H6 & H7 & H8).
  assert (∀ s' j, inners h' !! s' = Some j → ∃ j', inners h !! s' = Some j' ∧ rest_of j' = rest_of j) as Hback.
  { intros s' j Hj. assert ((rest_of <$> inners h') !! s' = Some (rest_of j)) as Hr by (by rewrite list_lookup_fmap, Hj).
    rewrite Hi, list_lookup_fmap in Hr. apply fmap_Some in Hr as (j' & Hj' & Hr). eauto. }
  assert (is_Some (inners h' !! s)) as [i' Hi'].
  { apply lookup_lt_is_Some. apply (f_equal length) in Hi. rewrite !length_fmap in Hi. rewrite Hi. by eapply lookup_lt_Some. }
  destruct (Hback _ _ Hi') as (i2 & Hi2 & Hr). rewrite H1 in Hi2. injection Hi2 as <-. injection Hr as Hst Hob.
  exists i', ob. rewrite Ho, <- Hst, <- Hob. split_and!; try done.
  - intros s' j Hn Hj. destruct (Hback _ _ Hj) as (j' & Hj' & Hr). injection Hr as _ <-. by eapply H5.
  - intros s' j x Hj. destruct (Hback _ _ Hj) as (j' & Hj' & Hr). injection Hr as _ <-. by eapply H7.
Qed.

Lemma queued_to u (os : list nat) (obs : list Observer) o :
  NoDup os →
  foldl (λ obs o, alter (queue_update u) o obs) obs os !! o
  = if decide (o ∈ os) then queue_update u <$> obs !! o else obs !! o.
Proof.
  revert obs. induction os as [|x os IH]; intros obs Hd; simpl.
  - done.
  - apply NoDup_cons in Hd as [Hx Hd]. rewrite IH by done.
    destruct (decide (o = x)) as [->|Hn].
    + rewrite decide_False, decide_True by (done || left). by rewrite list_lookup_alter_eq.
    + rewrite list_lookup_alter_ne by auto. destruct (decide (o ∈ os)).
      * by rewrite decide_True by (by right).
      * rewrite decide_False; [done|]. by intros [|]%elem_of_cons.
Qed.
Lemma queued_length u (os : list nat) (obs : list Observer) :
  length (foldl (λ obs o, alter (queue_update u) o obs) obs os) = length obs.
Proof. revert obs. induction os as [|x os IH]; intros obs; [done|]. simpl. by rewrite IH, length_alter. Qed.

Lemma observing_more s o i0 us us' h :
  us' = [] → observing s o i0 us h → observing s o i0 (us ++ us') h.
Proof. intros ->. by rewrite app_nil_r. Qed.

Lemma observing_new s o i0 us now d settle h :
  observing s o i0 us h → observing s o i0 us (with_timeout d settle now h).2.
Proof.
  intros (i & ob & H1 & H2 & H3 & H4 & H5 & H6 & H7 & H8).
  assert (∀ s' j, inners (with_timeout d settle now h).2 !! s' = Some j →
    inners h !! s' = Some j ∨ in_observers j = []) as Hback.
  { intros s' j Hj. assert ((inners h ++ [inner_new now settle]) !! s' = Some j) as Hj' by (by destruct d).
    apply lookup_app_Some in Hj' as [Hj'|[_ Hj']]; [by left|right].
    by apply list_lookup_singleton_Some in Hj' as [_ <-]. }
  exists i, ob. split_and!; try done; try (by destruct d).
  - assert ((inners h ++ [inner_new now settle]) !! s = Some i) by (by apply lookup_app_l_Some). by destruct d.
  - intros s' j Hn Hj. destruct (Hback _ _ Hj) as [| ->]; [by eapply H5|apply not_elem_of_nil].
  - intros s' j x Hj Hx. destruct (Hback _ _ Hj) as [Hj'|He]; [|rewrite He in Hx; by apply not_elem_of_nil in Hx].
    replace (all_observers (with_timeout d settle now h).2) with (all_observers h) by (by destruct d). by eapply H7.
Qed.

Lemma observing_observe s o i0 us s' h :
  observing s o i0 us h → observing s o i0 us (observe s' h).2.
Proof.
  intros (i & ob & H1 & H2 & H3 & H4 & H5 & H6 & H7 & H8).
  unfold observe. destruct (inners h !! s') as [i'|] eqn:Hi'; [|by exists i, ob].
  set (o' := length (all_observers h)). pose proof (lookup_lt_Some _ _ _ H3) as Ho.
  set (f := set_in_observers (in_observers i' ++ [o'])).
  exists (if decide (s' = s) then f i else i), ob.
  assert (∀ x j, alter f s' (inners h) !! x = Some j → (x = s' ∧ j = f i') ∨ inners h !! x = Some j) as Hback.
  { intros x j Hj. destruct (decide (x = s')) as [->|]; [|rewrite list_lookup_alter_ne in Hj by auto; by right].
    rewrite list_lookup_alter_eq, Hi' in Hj. injection Hj as <-. by left. }
  simpl. split_and!.
  - case_decide as Hd; [subst; by rewrite list_lookup_alter_eq, H1|by rewrite list_lookup_alter_ne].
  - by case_decide.
  - by rewrite lookup_app_l.
  - done.
  - intros x j Hn [[-> ->]|Hj]%Hback; [|by eapply H5]. unfold f. simpl.
    intros [Hin|Hin%list_elem_of_singleton]%elem_of_app; [by eapply H5|unfold o' in Hin; lia].
  - case_decide; [|done]. subst s'. rewrite Hi' in H1. injection H1 as ->. simpl.
    apply NoDup_app. split_and!; [done| |apply NoDup_singleton].
    intros x Hx ->%list_elem_of_singleton. specialize (H7 _ _ _ Hi' Hx). unfold o' in H7. lia.
  - intros x j y Hj Hy. rewrite length_app. simpl. apply Hback in Hj as [[-> ->]|Hj].
    + unfold f in Hy. simpl in Hy. apply elem_of_app in Hy as [Hy|Hy%list_elem_of_singleton]; [|unfold o' in Hy; lia].
      specialize (H7 _ _ _ Hi' Hy). lia.
    + specialize (H7 _ _ _ Hj Hy). lia.
  - destruct (ob_alive ob); [|done]. destruct H8 as [Hin Hus]. split; [|done]. case_decide; [|done]. subst s'.
    rewrite Hi' in H1. injection H1 as ->. simpl. apply elem_of_app. by left.
Qed.

Lemma observing_turn s o i0 us o' h :
  observing s o i0 us h → observing s o i0 us (observe_turn o' h).
Proof.
  intros (i & ob & H1 & H2 & H3 & H4 & H5 & H6 & H7 & H8).
  unfold observe_turn. destruct (all_observers h !! o') as [ob'|] eqn:Hob; [|by exists i, ob].
  destruct (ob_alive ob') eqn:Ha; [|by exists i, ob]. set (ob2 := if done_state _ _ then _ else _).
  exists i. destruct (decide (o' = o)) as [->|Hn].
  - rewrite H3 in Hob. injection Hob as <-. rewrite Ha in H8. destruct H8 as [Hin Hus].
    exists ob2. simpl. rewrite list_lookup_insert_eq by (by eapply lookup_lt_Some). split_and!; try done.
    + unfold ob2. destruct (done_state _ _); [done|]. by destruct (ob_queue ob).
    + intros s' j x. rewrite length_insert. apply H7.
    + unfold ob2. destruct (done_state _ _); simpl; [by rewrite Hus|].
      destruct (ob_queue ob) eqn:Hq; [by rewrite Ha, Hq|simpl; by rewrite <- app_assoc].
  - exists ob. simpl. rewrite list_lookup_insert_ne by done. split_and!; try done.
    intros s' j x. rewrite length_insert. apply H7.
Qed.

Lemma filled_start now i j u : in_start i = in_start j → filled now i u = filled now j u.
Proof. unfold filled. by intros ->. Qed.

Lemma observing_update s o i0 us s' u now h :
  observing s o i0 us h →
  observing s o i0 (us ++ posted s i0 [(now, AUpdate s' u)]) (update_watcher s' u now h).
Proof.
  intros (i & ob & H1 & H2 & H3 & H4 & H5 & H6 & H7 & H8). unfold posted. simpl.
  unfold update_watcher. destruct (inners h !! s') as [i'|] eqn:Hi'.
  2:{ rewrite (proj2 (Nat.eqb_neq s' s)) by congruence. rewrite !app_nil_r. by exists i, ob. }
  cbv zeta. set (v := filled now i' u). set (live := λ o, _ = true). set (obs := filter live (in_observers i')).
  set (f := λ _ : Inner, _).
  assert (NoDup (in_observers i') → NoDup obs) as Hnd by (intros; by apply NoDup_filter).
  assert (∀ x j, alter f s' (inners h) !! x = Some j →
    (∃ j', inners h !! x = Some j' ∧ in_start j' = in_start j ∧ ∀ y, y ∈ in_observers j → y ∈ in_observers j')) as Hback.
  { intros x j Hj. destruct (decide (x = s')) as [->|]; [|rewrite list_lookup_alter_ne in Hj by auto; eauto].
    rewrite list_lookup_alter_eq, Hi' in Hj. injection Hj as <-. exists i'. split_and!; [done|by unfold f; destruct (wu_fraction _)|].
    intros y. unfold f. simpl. destruct (wu_fraction _); simpl; by intros [_ ?]%list_elem_of_filter. }
  destruct (decide (s' = s)) as [->|Hn].
  - rewrite Nat.eqb_refl. rewrite H1 in Hi'. injection Hi' as <-. rewrite (filled_start now i0 i u), app_nil_r by done. fold v.
    assert (o ∈ obs ↔ ob_alive ob = true) as Hlive.
    { unfold obs. rewrite list_elem_of_filter. unfold live. rewrite H3. simpl. rewrite bool_decide_eq_true.
      destruct (ob_alive ob); [|naive_solver]. destruct H8 as [H8 _]. naive_solver. }
    exists (f i). pose proof (queued_to v obs (all_observers h) o (Hnd H6)) as Hq.
    rewrite H3 in Hq. exists (if decide (o ∈ obs) then queue_update v ob else ob). simpl. split_and!.
    + by rewrite list_lookup_alter_eq, H1.
    + rewrite <- H2. unfold f. by destruct (wu_fraction _).
    + rewrite Hq. by case_decide.
    + by case_decide.
    + intros x j Hn [j' (Hj & _ & Hsub)]%Hback Hin. by eapply (H5 x j'); [..|apply Hsub].
    + unfold f. destruct (wu_fraction _); simpl; by apply Hnd.
    + intros x j y [j' (Hj & _ & Hsub)]%Hback Hin. rewrite queued_length. by eapply (H7 x j'); [|apply Hsub].
    + case_decide as Hd.
      * simpl. pose proof (proj1 Hlive Hd) as Ha. rewrite Ha in *. destruct H8 as [_ <-].
        rewrite app_assoc. split; [|done]. unfold f. by destruct (wu_fraction _).
      * destruct (ob_alive ob); [by destruct Hd; apply Hlive|]. destruct H8 as [Hqe Hpre].
        split; [done|]. by apply prefix_app_r.
  - rewrite (proj2 (Nat.eqb_neq s' s)) by done. simpl. rewrite !app_nil_r.
    assert (o ∉ obs) as Hno by (intros [_ Hin]%list_elem_of_filter; by eapply (H5 s')).
    exists i, ob. simpl. split_and!.
    + by rewrite list_lookup_alter_ne.
    + done.
    + destruct (decide (NoDup obs)) as [Hd|Hd].
      * rewrite queued_to by done. by rewrite decide_False.
      * clear -H3 Hno. revert H3. generalize (all_observers h). induction obs as [|x l IH]; intros obs' H3; [done|].
        simpl. apply not_elem_of_cons in Hno as [Hx Hno]. apply IH; [done|]. by rewrite list_lookup_alter_ne.
    + done.
    + intros x j Hx [j' (Hj & _ & Hsub)]%Hback Hin. by eapply (H5 x j'); [..|apply Hsub].
    + done.
    + intros x j y [j' (Hj & _ & Hsub)]%Hback Hin. rewrite queued_length. by eapply (H7 x j'); [|apply Hsub].
    + done.
Qed.

Lemma observing_act s o i0 us now (x : Action) h :
  observing s o i0 us h → observing s o i0 (us ++ posted s i0 [(now, x)]) (act now x h).
Proof.
  intros Ho. destruct x as [d settle|s'|s' y|j|s'|s' k|a b|s' task|s' p|s' u|s'|o']; simpl;
    try (apply observing_more; [done|]).
  - by apply observing_new.
  - eapply observing_steady; [|done]. unfold success. destruct (inners h !! s'); [|done]. case_match; [apply steady_finish|done].
  - eapply observing_steady; [apply steady_finish|done].
  - eapply observing_steady; [|done]. unfold fire_timer. destruct (timers h !! j) as [tm|]; [|done]. destruct (due now tm); [|done].
    destruct tm; simpl; (eapply steady_trans; [|apply steady_finish]; done).
  - eapply observing_steady; [|done]. unfold cancel. eapply steady_trans; [|apply steady_finish]. by apply steady_on_inner.
  - eapply observing_steady; [apply steady_register|done].
  - unfold and_status. simpl. do 2 (eapply observing_steady; [apply steady_register|]).
    eapply (observing_steady _ _ _ _ (with_timeout None 0 now h).2); [done|]. by apply observing_new.
  - eapply observing_steady; [|done]. unfold poll. destruct (phase_of h s') as [[cbs ws|e]|]; [|done|done]. simpl.
    case_decide; [done|]. by apply steady_on_inner.
  - eapply observing_steady; [|done]. by apply steady_on_inner.
  - by apply observing_update.
  - by apply observing_observe.
  - by apply observing_turn.
Qed.

(** Every observer is registered once. *)
Definition tidy h : Prop :=
  ∀ s i, inners h !! s = Some i →
    NoDup (in_observers i) ∧ ∀ x, x ∈ in_observers i → x < length (all_observers h).

Lemma tidy_back h h' :
  length (all_observers h) ≤ length (all_observers h') →
  (∀ s i, inners h' !! s = Some i → in_observers i = []
     ∨ ∃ j, inners h !! s = Some j ∧ (in_observers i = in_observers j
          ∨ (∃ P (_ : ∀ x, Decision (P x)), in_observers i = filter P (in_observers j))
          ∨ in_observers i = in_observers j ++ [length (all_observers h)]
            ∧ length (all_observers h) < length (all_observers h'))) →
  tidy h → tidy h'.
Proof.
  intros Hl Hb Ht s i Hi. destruct (Hb s i Hi) as [->|(j & Hj & Hor)]; [split; [constructor|by intros x ?%not_elem_of_nil]|].
  destruct (Ht s j Hj) as [Hd Hx]. destruct Hor as [->|[(P & dec & ->)|[-> Hlt]]].
  - split; [done|]. intros x Hin. specialize (Hx x Hin). lia.
  - split; [by apply NoDup_filter|]. intros x [_ Hin]%list_elem_of_filter. specialize (Hx x Hin). lia.
  - split.
    + apply NoDup_app. split_and!; [done| |apply NoDup_singleton]. intros x Hin ->%list_elem_of_singleton.
      specialize (Hx _ Hin). lia.
    + intros x [Hin| ->%list_elem_of_singleton]%elem_of_app; [specialize (Hx _ Hin); lia|lia].
Qed.
Lemma tidy_steady h h' : steady h h' → tidy h → tidy h'.
Proof.
  intros [Ho Hi]. apply tidy_back; [by rewrite Ho|]. intros s i Hs. right.
  assert ((rest_of <$> inners h') !! s = Some (rest_of i)) as Hr by (by rewrite list_lookup_fmap, Hs).
  rewrite Hi, list_lookup_fmap in Hr. apply fmap_Some in Hr as (j & Hj & Hr). injection Hr as _ Hr. eauto.
Qed.
Lemma tidy_new now d settle h : tidy h → tidy (with_timeout d settle now h).2.
Proof.
  apply tidy_back; [by destruct d|]. intros s i Hs.
  assert ((inners h ++ [inner_new now settle]) !! s = Some i) as Hs' by (by destruct d).
  apply lookup_app_Some in Hs' as [Hj|[_ Hj]]; [right; eauto|left].
  by apply list_lookup_singleton_Some in Hj as [_ <-].
Qed.

Lemma tidy_act now (x : Action) h : tidy h → tidy (act now x h).
Proof.
  intros Ht. destruct x as [d settle|s|s y|j|s|s k|a b|s task|s p|s u|s|o]; simpl.
  - by apply tidy_new.
  - eapply tidy_steady; [|done]. unfold success. destruct (inners h !! s); [|done]. case_match; [apply steady_finish|done].
  - eapply tidy_steady; [apply steady_finish|done].
  - eapply tidy_steady; [|done]. unfold fire_timer. destruct (timers h !! j) as [tm|]; [|done]. destruct (due now tm); [|done].
    destruct tm; simpl; (eapply steady_trans; [|apply steady_finish]; done).
  - eapply tidy_steady; [|done]. unfold cancel. eapply steady_trans; [|apply steady_finish]. by apply steady_on_inner.
  - eapply tidy_steady; [apply steady_register|done].
  - unfold and_status. simpl. do 2 (eapply tidy_steady; [apply steady_register|]).
    eapply (tidy_steady (with_timeout None 0 now h).2); [done|]. by apply tidy_new.
  - eapply tidy_steady; [|done]. unfold poll. destruct (phase_of h s) as [[cbs ws|e]|]; [|done|done]. simpl.
    case_decide; [done|]. by apply steady_on_inner.
  - eapply tidy_steady; [|done]. by apply steady_on_inner.
  - unfold update_watcher. destruct (inners h !! s) as [i|] eqn:Hi; [|done]. cbv zeta.
    revert Ht. apply tidy_back; simpl; [by rewrite queued_length|]. intros s' i' Hs. right.
    destruct (decide (s' = s)) as [->|]; [|rewrite list_lookup_alter_ne in Hs by auto; eauto].
    rewrite list_lookup_alter_eq, Hi in Hs. injection Hs as <-. exists i. split; [done|]. right. left.
    destruct (wu_fraction u); eexists _, _; reflexivity.
  - unfold observe. destruct (inners h !! s) as [i|] eqn:Hi; [|done].
    revert Ht. apply tidy_back; simpl; rewrite length_app; [lia|]. simpl. intros s' i' Hs. right.
    destruct (decide (s' = s)) as [->|]; [|rewrite list_lookup_alter_ne in Hs by auto; eauto].
    rewrite list_lookup_alter_eq, Hi in Hs. injection Hs as <-. exists i. split; [done|]. right. right.
    split; [done|lia].
  - unfold observe_turn. destruct (all_observers h !! o) as [ob|]; [|done]. destruct (ob_alive ob); [|done].
    revert Ht. apply tidy_back; simpl; [by rewrite length_insert|eauto].
Qed.
Lemma reach_tidy regs h : reach regs h → tidy h.
Proof. induction 1 as [|regs h now x _ IH _]; [by intros s i|by apply tidy_act]. Qed.

Lemma observing_all s o i0 us l h :
  observing s o i0 us h → observing s o i0 (us ++ posted s i0 l) (act_all l h).
Proof.
  revert us h. induction l as [|[now x] l IH]; intros us h Ho; simpl; [by rewrite app_nil_r|].
  apply (observing_act _ _ _ _ now x), IH in Ho. unfold posted in *. simpl in *.
  by rewrite app_nil_r, <- app_assoc in Ho.
Qed.

(** *** What the setter's calls leave of an end *)

Lemma enter_keeps_end h s e st s' e' :
  end_of h s' = Some e' → end_of (enter s e st h).2 s' = Some e'.
Proof.
  intros He. unfold enter. destruct (phase_of h s) as [[cbs ws|e0]|] eqn:Hp; [|done..]. by eapply ended_stays.
Qed.
Lemma run_ended h s' e' st : end_of h s' = Some e' → end_of (run (work st h) st h) s' = Some e'.
Proof.
  apply (run_keeps (λ _ h', end_of h' s' = Some e')). intros fr st' h' He.
  destruct fr as [e [|[k|t c] cbs] ws]; simpl; [done|done|]. destruct e as [[]|y]; simpl.
  - destruct (_ =? 1)%Z; [|done].
    pose proof (enter_keeps_end (set_counters (<[c:=(default 0 (counters h' !! c) - 1)%Z]> (counters h')) h') t (Ok ())
      (mkFrame (Ok ()) cbs ws :: st') s' e' He) as H1. by destruct (enter _ _ _ _).
  - pose proof (enter_keeps_end h' t (Err y) (mkFrame (Err y) cbs ws :: st') s' e' He) as H1. by destruct (enter _ _ _ _).
Qed.
Lemma finish_pending s e h : is_Some (inners h !! s) → end_of h s = None → end_of (finish s e h) s = Some e.
Proof.
  intros [i Hi] Hn. unfold finish, enter. destruct (phase_of h s) as [[cbs ws|e0]|] eqn:Hp.
  - apply run_ended. rewrite (end_of_ended _ _ _ _ _ _ Hp). by rewrite decide_True.
  - unfold end_of in Hn. by rewrite Hp in Hn.
  - unfold phase_of in Hp. by rewrite Hi in Hp.
Qed.
Lemma update_watcher_inner s u now h i : inners h !! s = Some i →
  ∃ i', inners (update_watcher s u now h) !! s = Some i' ∧ in_phase i' = in_phase i ∧ in_settle i' = in_settle i.
Proof.
  intros Hi. unfold update_watcher. rewrite Hi. simpl. rewrite list_lookup_alter_eq, Hi. simpl.
  eexists. split; [done|]. by destruct (wu_fraction u).
Qed.

(** An observer of a status is given the latest update there was and then every update
    posted to the status, once and in order, what is posted with the end of the status
    included; when it is over it has been given a prefix of what was ever posted. *)
Theorem observer_gets_every_update regs h s i l :
  reach regs h → inners h !! s = Some i →
  let '(o, h1) := observe s h in
  ∃ ob, all_observers (act_all l h1) !! o = Some ob
    ∧ let sent := option_list (in_watcher i) ++ posted s i l in
      if ob_alive ob then
        ob_given ob ++ ob_queue ob = sent
        ∧ (is_Some (end_of (act_all l h1) s) →
           ob_given <$> all_observers (observe_turn o (act_all l h1)) !! o = Some sent)
      else ob_queue ob = [] ∧ ob_given ob `prefix_of` sent.
Proof.
  intros Hr Hi. pose proof (reach_tidy _ _ Hr) as Ht. unfold observe. rewrite Hi.
  set (o := length (all_observers h)). set (h1 := set_all_observers _ _).
  assert (observing s o i (option_list (in_watcher i)) h1) as Ho.
  { assert (∀ x j, inners h1 !! x = Some j → (x = s ∧ j = set_in_observers (in_observers i ++ [o]) i) ∨ inners h !! x = Some j) as Hback.
    { intros x j. unfold h1. simpl. destruct (decide (x = s)) as [->|]; [|rewrite list_lookup_alter_ne by auto; by right].
      rewrite list_lookup_alter_eq, Hi. intros [= <-]. by left. }
    exists (set_in_observers (in_observers i ++ [o]) i), (mkObserver s (option_list (in_watcher i)) [] true).
    unfold h1. simpl. destruct (Ht s i Hi) as [Hd Hx]. split_and!; try done.
    - by rewrite list_lookup_alter_eq, Hi.
    - by rewrite lookup_app_r, Nat.sub_diag.
    - intros x j Hn Hj Hin. destruct (Hback x j Hj) as [[? _]|Hj']; [done|]. destruct (Ht x j Hj') as [_ Hlt].
      specialize (Hlt _ Hin). unfold o in Hlt. lia.
    - apply NoDup_app. split_and!; [done| |apply NoDup_singleton]. intros x Hin ->%list_elem_of_singleton.
      specialize (Hx _ Hin). unfold o in Hx. lia.
    - intros x j y Hj Hy. rewrite length_app. simpl. destruct (Hback x j Hj) as [[-> ->]|Hj'].
      + simpl in Hy. apply elem_of_app in Hy as [Hy|Hy%list_elem_of_singleton]; [specialize (Hx _ Hy); lia|unfold o in Hy; lia].
      + destruct (Ht x j Hj') as [_ Hlt]. specialize (Hlt _ Hy). lia.
    - apply elem_of_app. right. by apply list_elem_of_singleton.
    - by rewrite app_nil_r. }
  destruct (observing_all _ _ _ _ l _ Ho) as (i' & ob & _ & _ & Hob & Hst & _ & _ & _ & Hus).
  exists ob. split; [exact Hob|]. cbv zeta. destruct (ob_alive ob) eqn:Ha; [|done]. destruct Hus as [_ Hus]. split; [done|].
  intros Hend. unfold observe_turn. rewrite Hob, Ha, Hst. unfold done_state. rewrite bool_decide_eq_true_2 by done.
  simpl. rewrite list_lookup_insert_eq by (by eapply lookup_lt_Some). simpl. by rewrite Hus.
Qed.
End observers.

Module StatusExample.

(** Two statuses combined, a callback on the combination and one on a part. *)
Definition parts : list (Z * Action) :=
  [(0, ANew None 0); (0, ANew None 0); (1, AAnd (mkStatus 0 None) (mkStatus 1 None));
   (1, ACallback 2 7); (1, ACallback 0 8)]%Z.
Definition both : list (Z * Action) := parts ++ [(2, ASuccess 0); (3, ASuccess 1)]%Z.
Definition one_fails : list (Z * Action) := parts ++ [(2, AFail 1 (SFailed "stall"))]%Z.
Definition regs : list Reg := [RUser 8 0; RUser 7 2; RAnd 2 0 0 1].

Lemma reach_parts : reach regs (act_all parts empty_store).
Proof.
  pose proof reach_start as Hr.
  apply (reach_act _ _ 0%Z (ANew None 0)) in Hr; [|done].
  apply (reach_act _ _ 0%Z (ANew None 0)) in Hr; [|done].
  apply (reach_act _ _ 1%Z (AAnd (mkStatus 0 None) (mkStatus 1 None))) in Hr; [|simpl; lia].
  apply (reach_act _ _ 1%Z (ACallback 2 7)) in Hr; [|split; [simpl; lia|set_solver]].
  apply (reach_act _ _ 1%Z (ACallback 0 8)) in Hr; [|split; [simpl; lia|set_solver]].
  exact Hr.
Qed.
Lemma reach_both : reach regs (act_all both empty_store).
Proof.
  pose proof reach_parts as Hr.
  apply (reach_act _ _ 2%Z (ASuccess 0)) in Hr; [|simpl; unfold regs; set_solver].
  apply (reach_act _ _ 3%Z (ASuccess 1)) in Hr; [|simpl; unfold regs; set_solver].
  exact Hr.
Qed.
Lemma reach_one_fails : reach regs (act_all one_fails empty_store).
Proof.
  pose proof reach_parts as Hr.
  apply (reach_act _ _ 2%Z (AFail 1 (SFailed "stall"))) in Hr; [|simpl; unfold regs; set_solver].
  exact Hr.
Qed.

Lemma callbacks_fire_once_witness :
  told 7 (act_all both empty_store) = [Success] ∧ told 8 (act_all one_fails empty_store) = [].
Proof.
  split.
  - apply (callbacks_fire_once regs (act_all both empty_store) 7 2); [exact reach_both|unfold regs; set_solver].
  - apply (callbacks_fire_once regs (act_all one_fails empty_store) 8 0); [exact reach_one_fails|unfold regs; set_solver].
Defined.

Lemma and_status_spec_witness :
  let h := act_all one_fails empty_store in
  end_of h 2 = Some (Err (SFailed "stall")) ∧ end_of h 0 = None
  ∧ (SFailed "stall" = SCancelled ∨ end_of h 0 = Some (Err (SFailed "stall"))
     ∨ end_of h 1 = Some (Err (SFailed "stall"))).
Proof.
  intros h. split_and!; [reflexivity|reflexivity|].
  apply (and_status_spec regs h 2 0 0 1); [exact reach_one_fails|unfold regs; set_solver].
Defined.

(** Cancelled after it succeeded. *)
Lemma first_outcome_wins_witness :
  let h := act_all both empty_store in
  end_of (act_all [(4, ACancel 0); (5, AFail 1 STimeout)]%Z h) 0 = Some (Ok ()).
Proof. intros h. apply (first_outcome_wins _ h 0 (Ok ())). reflexivity. Defined.

Lemma no_wakeup_is_lost_witness :
  let h := act_all parts empty_store in let h1 := (poll 2 5 h).2 in
  ∃ ws, woken (act_all [(2, ASuccess 0); (3, ASuccess 1)]%Z h1) = woken h1 ++ ws ∧ 5 ∈ ws.
Proof.
  intros h h1. apply (no_wakeup_is_lost _ h 2 5); [simpl; lia|reflexivity|].
  eexists. vm_compute. reflexivity.
Defined.

Definition up (x : f64) : WatcherUpdate := update_new x 0%Z 0%Z.
Lemma observer_gets_every_update_witness :
  let h := act_all (parts ++ [(2, AUpdate 0 (up 1%Z))]%Z) empty_store in
  let h1 := (observe 0 h).2 in
  ∃ ob, all_observers (observe_turn 0 (act_all [(3, AUpdate 0 (up 2)); (3, AUpdate 0 (up 3)); (4, ASuccess 0)]%Z h1)) !! 0 = Some ob
    ∧ wu_current <$> ob_given ob = [1; 2; 3]%Z.
Proof.
  intros h h1. assert (reach regs h) as Hr.
  { pose proof reach_parts as Hr. exact (reach_act _ _ 2%Z (AUpdate 0 (up 1%Z)) Hr I). }
  destruct (inners h !! 0) as [i|] eqn:Hi; [|vm_compute in Hi; discriminate].
  destruct (observer_gets_every_update regs h 0 i [(3, AUpdate 0 (up 2)); (3, AUpdate 0 (up 3)); (4, ASuccess 0)]%Z Hr Hi)
    as (ob & Hob & Hus).
  assert (ob_alive ob = true) as Ha.
  { change (all_observers (act_all [(3, AUpdate 0 (up 2)); (3, AUpdate 0 (up 3)); (4, ASuccess 0)]%Z (observe 0 h).2) !! 0 = Some ob) in Hob.
    vm_compute in Hob. by injection Hob as <-. }
  cbv zeta in Hus. rewrite Ha in Hus. destruct Hus as [_ Hus].
  specialize (Hus (ltac:(eexists; vm_compute; reflexivity))).
  apply fmap_Some in Hus as (ob' & Hob' & Hg). exists ob'. split; [exact Hob'|]. rewrite <- Hg.
  vm_compute in Hi. injection Hi as <-. vm_compute. reflexivity.
Defined.
End StatusExample.
