(* ===== verification/Suspend.v ===== *)
(** * Suspenders ([core/subscription.rs], [engine/suspender.rs], [run_engine.rs])

    A signal's values fanned out to listener queues, the suspenders that watch them, and
    the watcher task the engine runs for an installed suspender. A poll of a future reads
    what its queue holds at that instant; between two polls anything may happen. *)

From S2P Require Import Prelude Interfaces Errors Documents F64 Control.

(** ** Fan-out *)

Section fanout.
Context {T : Type}.
Implicit Types (v : T) (q : list T) (rx : nat).

(** [Fanout<T>] with the queues of its listeners; a receiver that was dropped has none. *)
Record Fanout := mkFanout {
  latest : option T;
  listeners : list nat;
  queues : gmap nat (list T);
  fresh_rx : nat;
}.

Definition new_fanout : Fanout := mkFanout None [] ∅ 0.

(** [retain(send)]: the listeners whose receiver is still there have the value queued. *)
Definition receivers (f : Fanout) : list nat := filter (λ rx, is_Some (queues f !! rx)) (listeners f).
Definition post v (f : Fanout) : option T * Fanout :=
  let live := receivers f in
  (latest f, mkFanout (Some v) live (foldr (λ rx, alter (λ q, q ++ [v]) rx) (queues f) live) (fresh_rx f)).

Definition listen (f : Fanout) : nat * Fanout :=
  let rx := fresh_rx f in
  (rx, mkFanout (latest f) (receivers f ++ [rx]) (<[rx := option_list (latest f)]> (queues f)) (S rx)).

Definition clear (f : Fanout) : Fanout := mkFanout None (listeners f) (queues f) (fresh_rx f).
Definition listener_count (f : Fanout) : nat := length (receivers f).

(** Of a receiver: the next queued value, and its drop. *)
Definition try_recv rx (f : Fanout) : option T * Fanout :=
  match queues f !! rx with
  | Some (v :: q) => (Some v, mkFanout (latest f) (listeners f) (<[rx := q]> (queues f)) (fresh_rx f))
  | _ => (None, f)
  end.
Definition drop_rx rx (f : Fanout) : Fanout :=
  mkFanout (latest f) (listeners f) (delete rx (queues f)) (fresh_rx f).

Inductive FanOp := FPost v | FListen | FClear | FRecv rx | FDrop rx.
Definition fan_op (o : FanOp) (f : Fanout) : Fanout :=
  match o with
  | FPost v => (post v f).2
  | FListen => (listen f).2
  | FClear => clear f
  | FRecv rx => (try_recv rx f).2
  | FDrop rx => drop_rx rx f
  end.

(** What receiver [rx] is given along a sequence of operations. *)
Fixpoint heard rx (l : list FanOp) (f : Fanout) : list T :=
  match l with
  | [] => []
  | o :: l =>
      match o with
      | FRecv rx' => if rx' =? rx then option_list (try_recv rx' f).1 else []
      | _ => []
      end ++ heard rx l (fan_op o f)
  end.
Definition posts (l : list FanOp) : list T := omap (λ o, match o with FPost v => Some v | _ => None end) l.

(** Every listener is registered once and the numbers are not used again. *)
Record fan_ok (f : Fanout) : Prop := {
  fo_once : NoDup (listeners f);
  fo_known : ∀ rx, rx ∈ listeners f → rx < fresh_rx f;
  fo_queue : ∀ rx, is_Some (queues f !! rx) → rx < fresh_rx f;
}.

Lemma queued_each v (l : list nat) (qs : gmap nat (list T)) rx :
  NoDup l →
  foldr (λ rx, alter (λ q, q ++ [v]) rx) qs l !! rx
  = if decide (rx ∈ l) then (λ q, q ++ [v]) <$> qs !! rx else qs !! rx.
Proof.
  induction l as [|x l IH]; intros Hd; simpl; [done|]. apply NoDup_cons in Hd as [Hx Hd].
  destruct (decide (x = rx)) as [->|Hn].
  - rewrite lookup_alter_eq, IH, decide_False, decide_True by (done || left). done.
  - rewrite lookup_alter_ne, IH by done. destruct (decide (rx ∈ l)).
    + by rewrite decide_True by (by right).
    + rewrite decide_False; [done|]. by intros [|]%elem_of_cons.
Qed.

Lemma receivers_ok f : fan_ok f → NoDup (receivers f) ∧ ∀ rx, rx ∈ receivers f → rx < fresh_rx f.
Proof.
  intros [H1 H2 _]. split; [by apply NoDup_filter|]. intros rx [_ Hin]%list_elem_of_filter. auto.
Qed.

Lemma post_queue v f rx :
  fan_ok f → queues (post v f).2 !! rx
  = if decide (rx ∈ listeners f) then (λ q, q ++ [v]) <$> queues f !! rx else queues f !! rx.
Proof.
  intros Hf. simpl. rewrite queued_each by (by apply receivers_ok). unfold receivers.
  destruct (decide (rx ∈ listeners f)) as [Hin|Hin].
  - destruct (queues f !! rx) as [q|] eqn:Hq.
    + rewrite decide_True; [done|]. apply list_elem_of_filter. rewrite Hq. by eauto.
    + by destruct (decide _).
  - rewrite decide_False; [done|]. by intros [_ ?]%list_elem_of_filter.
Qed.

Lemma fan_op_ok o f : fan_ok f → fan_ok (fan_op o f).
Proof.
  intros Hf. destruct (receivers_ok f Hf) as [Hr Hlt]. pose proof Hf as [H1 H2 H3].
  destruct o as [v| | |rx|rx]; simpl.
  - constructor; [done|done|]. intros rx. change (mkFanout _ _ _ _) with (post v f).2.
    rewrite post_queue by done. destruct (decide _); [rewrite fmap_is_Some|]; apply H3.
  - constructor; simpl.
    + apply NoDup_app. split_and!; [done| |apply NoDup_singleton].
      intros rx Hin ->%list_elem_of_singleton. specialize (Hlt _ Hin). lia.
    + intros rx [Hin| ->%list_elem_of_singleton]%elem_of_app; [specialize (Hlt _ Hin); lia|lia].
    + intros rx. destruct (decide (rx = fresh_rx f)) as [->|]; [lia|].
      rewrite lookup_insert_ne by done. intros Hs%H3. lia.
  - done.
  - unfold try_recv. destruct (queues f !! rx) as [[|v q]|] eqn:Hq; [done| |done]. constructor; [done|done|].
    simpl. intros x. destruct (decide (x = rx)) as [->|]; [intros _; apply H3; by rewrite Hq|].
    rewrite lookup_insert_ne by done. apply H3.
  - constructor; [done|done|]. simpl. intros x. destruct (decide (x = rx)) as [->|].
    + rewrite lookup_delete_eq. by intros [].
    + rewrite lookup_delete_ne by done. apply H3.
Qed.

Fixpoint fan_all (l : list FanOp) (f : Fanout) : Fanout :=
  match l with [] => f | o :: l => fan_all l (fan_op o f) end.

Lemma try_recv_spec rx f :
  (∃ v q, queues f !! rx = Some (v :: q)
     ∧ try_recv rx f = (Some v, mkFanout (latest f) (listeners f) (<[rx := q]> (queues f)) (fresh_rx f)))
  ∨ try_recv rx f = (None, f) ∧ ∀ q, queues f !! rx = Some q → q = [].
Proof. unfold try_recv. destruct (queues f !! rx) as [[|v q]|]; [right|left; eauto|right]; naive_solver. Qed.

Lemma heard_queue rx q l f :
  fan_ok f → rx ∈ listeners f → queues f !! rx = Some q → FDrop rx ∉ l →
  ∃ q', queues (fan_all l f) !! rx = Some q' ∧ heard rx l f ++ q' = q ++ posts l.
Proof.
  revert q f. induction l as [|o l IH]; intros q f Hf Hin Hq Hd; simpl.
  { exists q. by rewrite app_nil_r. }
  apply not_elem_of_cons in Hd as [Hdo Hd]. pose proof (fan_op_ok o f Hf) as Hf'.
  assert (is_Some (queues f !! rx)) as Hlive by (by rewrite Hq).
  assert (rx ∈ receivers f) as Hrec by (by apply list_elem_of_filter).
  destruct o as [v| | |rx'|rx']; simpl.
  - destruct (IH (q ++ [v]) (post v f).2 Hf' Hrec) as (q' & Hq' & He); [|done|].
    { rewrite post_queue, decide_True, Hq by done. done. }
    exists q'. split; [exact Hq'|]. simpl in He. rewrite He, <- app_assoc. done.
  - destruct (IH q (listen f).2 Hf') as (q' & Hq' & He); [|simpl|done|].
    { simpl. apply elem_of_app. by left. }
    { rewrite lookup_insert_ne; [done|]. pose proof (fo_queue _ Hf rx Hlive). lia. }
    exists q'. split; [exact Hq'|exact He].
  - destruct (IH q (clear f) Hf' Hin Hq Hd) as (q' & Hq' & He). by exists q'.
  - destruct (try_recv_spec rx' f) as [(v & q2 & Hq2 & Ht)|[Ht Hnil]]; simpl in Hf'; rewrite Ht in *; cbn [fst snd] in *.
    + destruct (Nat.eqb_spec rx' rx) as [->|Hn].
      * rewrite Hq in Hq2. injection Hq2 as ->. simpl.
        destruct (IH q2 _ Hf' Hin (lookup_insert_eq _ _ _) Hd) as (q' & Hq' & He). exists q'.
        split; [exact Hq'|]. exact (f_equal (cons v) He).
      * destruct (IH q _ Hf' Hin) as (q' & Hq' & He); [by simpl; rewrite lookup_insert_ne|done|]. by exists q'.
    + destruct (IH q f Hf Hin Hq Hd) as (q' & Hq' & He). exists q'. split; [done|]. by destruct (rx' =? rx).
  - destruct (IH q (drop_rx rx' f) Hf' Hin) as (q' & Hq' & He); [simpl; rewrite lookup_delete_ne; [done|congruence]|done|].
    by exists q'.
Qed.

(** A listener hears the value current when it registered, if there is one, and then
    every value posted, in order, once: what it has read and what waits in its queue. *)
Theorem listener_hears_every_value l f :
  fan_ok f →
  let '(rx, f1) := listen f in
  FDrop rx ∉ l →
  ∃ q, queues (fan_all l f1) !! rx = Some q
       ∧ heard rx l f1 ++ q = option_list (latest f) ++ posts l.
Proof.
  intros Hf. destruct (listen f) as [rx f1] eqn:Hl. intros Hd.
  pose proof (fan_op_ok FListen f Hf) as Hf1. simpl in Hf1. unfold listen in Hl. injection Hl as <- <-.
  apply (heard_queue (fresh_rx f) (option_list (latest f))); [exact Hf1| | |exact Hd].
  - simpl. apply elem_of_app. right. by apply list_elem_of_singleton.
  - simpl. by rewrite lookup_insert_eq.
Qed.
End fanout.
Arguments Fanout : clear implicits.
Arguments FanOp : clear implicits.

(** ** Futures over a queue *)

Section futures.
Context {T : Type} (bad : T → bool).
Implicit Types (v : T) (q : list T).

(** One poll of [await_bad]: the queue is read up to a BAD value, or to its end. A closed
    queue never resolves it. *)
Fixpoint await_bad q : option (list T) :=
  match q with
  | [] => None
  | v :: q => if bad v then Some q else await_bad q
  end.

(** Where [await_good_stable] waits: for a first value, for a GOOD one, or for its delay,
    which is over at an instant. *)
Inductive Stable := SFirst | SBad | SGood (until : Z).

(** One poll of it at an instant: [None] when it has resolved. Where the timer has expired
    and an update waits too, [select!] takes either: [timer q] says that it takes the timer
    when [q] is waiting. *)
Fixpoint await_good_stable (delay : option Z) (timer : list T → bool) (now : Z) (closed : bool)
    q (st : Stable) : option Stable :=
  let expired := match st with SGood until => (until <=? now)%Z | _ => false end in
  match q with
  | [] => if expired || closed then None else Some st
  | v :: q' =>
      if expired && timer q then None
      else if bad v then await_good_stable delay timer now closed q' SBad
      else match delay with
           | None => None
           | Some d => await_good_stable delay timer now closed q' (SGood (now + d))
           end
  end.

(** With no delay: resolved by the first GOOD value. *)
Lemma await_good_no_delay timer now closed q st :
  (∀ u, st ≠ SGood u) →
  await_good_stable None timer now closed q st = None ↔ closed = true ∨ Exists (λ v, bad v = false) q.
Proof.
  revert st. induction q as [|v q IH]; intros st Hst; simpl.
  - rewrite Exists_nil. destruct st; [destruct closed; naive_solver..|by destruct (Hst until)].
  - rewrite Exists_cons. assert (match st with SGood u => (u <=? now)%Z | _ => false end = false) as -> by (destruct st; [done..|by destruct (Hst until)]).
    simpl. destruct (bad v) eqn:Hb; [|naive_solver]. rewrite IH by done. naive_solver.
Qed.

(** With a delay: it resolves by its timer, if no newer value was read, or when the source
    is gone. *)
Lemma await_good_delay d timer now closed q st :
  (0 < d)%Z → await_good_stable (Some d) timer now closed q st = None →
  closed = true ∨ ∃ until, st = SGood until ∧ (until <= now)%Z.
Proof.
  intros Hd. revert st. induction q as [|v q IH]; intros st; simpl.
  - destruct closed; [by left|]. destruct st as [| |u]; [done..|]. rewrite orb_false_r.
    destruct (Z.leb_spec u now); [by right; eauto|done].
  - destruct (match st with SGood _ => _ | _ => _ end) eqn:He; simpl.
    + intros _. right. destruct st as [| |u]; [done..|]. exists u. split; [done|lia].
    + destruct (bad v); intros [|(u & Hu & Hle)]%IH; auto; [done|]. injection Hu as <-. lia.
Qed.

(** And it is left waiting where the last value read puts it. *)
Lemma await_good_left d timer now closed q v st st' :
  (0 < d)%Z → await_good_stable (Some d) timer now closed (q ++ [v]) st = Some st' →
  st' = if bad v then SBad else SGood (now + d).
Proof.
  intros Hd. revert st. induction q as [|w q IH]; intros st; simpl.
  - destruct (_ && _); [done|].
    destruct (bad v); simpl; [by destruct closed; simpl; [|intros [= <-]]|].
    destruct (Z.leb_spec (now + d) now); [lia|]. destruct closed; simpl; [done|by intros [= <-]].
  - destruct (_ && _); [done|]. by destruct (bad w); apply IH.
Qed.
End futures.

(** ** The suspenders *)

Record SignalSuspender (T : Type) := mkSignalSuspender {
  ss_name : string;
  ss_bad : T → bool;
  resume_delay : option Z;
  auto_resume : bool;
  ss_justification : string;
  ss_pre_plan : option SuspendCallback;
  ss_post_plan : option SuspendCallback;
}.
Arguments mkSignalSuspender {_}. Arguments ss_name {_}. Arguments ss_bad {_}.
Arguments resume_delay {_}. Arguments auto_resume {_}. Arguments ss_justification {_}.
Arguments ss_pre_plan {_}. Arguments ss_post_plan {_}.

Inductive ThresholdDirection := BadIfBelow | BadIfAbove.

Section suspenders.
Context {T : Type}.
Implicit Types (s : SignalSuspender T).

Definition signal_suspender (name : string) (bad : T → bool) (just : string) : SignalSuspender T :=
  mkSignalSuspender name bad None true just None None.

Definition with_resume_delay (delay : Z) s : SignalSuspender T :=
  mkSignalSuspender (ss_name s) (ss_bad s) (Some delay) (auto_resume s) (ss_justification s)
    (ss_pre_plan s) (ss_post_plan s).
Definition with_pre_plan (plan : SuspendCallback) s : SignalSuspender T :=
  mkSignalSuspender (ss_name s) (ss_bad s) (resume_delay s) (auto_resume s) (ss_justification s)
    (Some plan) (ss_post_plan s).
Definition with_post_plan (plan : SuspendCallback) s : SignalSuspender T :=
  mkSignalSuspender (ss_name s) (ss_bad s) (resume_delay s) (auto_resume s) (ss_justification s)
    (ss_pre_plan s) (Some plan).

(** [SuspendWhenChanged]: no way back by default. *)
Definition suspend_when_changed `{EqDecision T} (name : string) (expected : T) : SignalSuspender T :=
  let s := signal_suspender name (λ v, negb (bool_decide (v = expected)))
             (name +:+ ": value changed (manual resume required)") in
  mkSignalSuspender (ss_name s) (ss_bad s) (resume_delay s) false (ss_justification s)
    (ss_pre_plan s) (ss_post_plan s).
Definition allow_resume s : SignalSuspender T :=
  mkSignalSuspender (ss_name s) (ss_bad s) (resume_delay s) true
    (ss_name s +:+ ": value changed from expected") (ss_pre_plan s) (ss_post_plan s).
End suspenders.

Definition suspend_bool_high (name : string) : SignalSuspender bool :=
  signal_suspender name (λ v, v) (name +:+ ": signal high").
Definition suspend_bool_low (name : string) : SignalSuspender bool :=
  signal_suspender name negb (name +:+ ": signal low").

Section doubles.
(** [Display] of a double. *)
Variable f64_text : f64 → string.

Definition suspend_threshold (name : string) (threshold : f64) (dir : ThresholdDirection)
    : SignalSuspender f64 :=
  signal_suspender name
    (λ v, match dir with BadIfBelow => f64_ltb v threshold | BadIfAbove => f64_ltb threshold v end)
    (name +:+ ": signal " +:+ match dir with BadIfBelow => "<" | BadIfAbove => ">" end
       +:+ " " +:+ f64_text threshold).

Definition suspend_outside_band (name : string) (band_bottom band_top : f64) : SignalSuspender f64 :=
  signal_suspender name (λ v, f64_leb v band_bottom || f64_leb band_top v)
    (name +:+ ": outside (" +:+ f64_text band_bottom +:+ ", " +:+ f64_text band_top +:+ ")").
End doubles.

(** ** An installed suspender *)

(** The futures of a suspender: [trip], [watch] and the [watch] of a one-shot suspender. *)
Inductive Fut := FTrip (rx : nat) | FWatch (rx : nat) (st : Stable) | FNever.

Section world.
Context {T : Type} (s : SignalSuspender T).

(** The signal ([source] says whether its producers hold it), the engine's control plane,
    the engine's task that watches the suspender, and the suspensions it has requested:
    what each waits for and the run it belongs to. *)
Record World := mkWorld {
  fan : Fanout T;
  source : bool;
  rc : RunControl;
  watcher : option Fut;
  clears : list (Fut * Z);
  released : bool;
}.
Implicit Types (w : World).

Definition set_fan v w : World := mkWorld v (source w) (rc w) (watcher w) (clears w) (released w).
Definition set_rc v w : World := mkWorld (fan w) (source w) v (watcher w) (clears w) (released w).
Definition set_watcher v w : World := mkWorld (fan w) (source w) (rc w) v (clears w) (released w).
Definition set_clears v w : World := mkWorld (fan w) (source w) (rc w) (watcher w) v (released w).

(** [SignalSuspender::listen]: already closed once the source is gone. *)
Definition ss_listen w : nat * World :=
  if source w then let '(rx, f) := listen (fan w) in (rx, set_fan f w)
  else let rx := fresh_rx (fan w) in
       (rx, set_fan (mkFanout (latest (fan w)) (listeners (fan w)) (<[rx := []]> (queues (fan w))) (S rx)) w).

Definition trip w : Fut * World := let '(rx, w) := ss_listen w in (FTrip rx, w).
Definition watch w : Fut * World :=
  if negb (auto_resume s) then (FNever, w) else
  let '(rx, w) := ss_listen w in (FWatch rx SFirst, w).

(** Whether [tripped] has a future to wait for: the current value is BAD. *)
Definition tripped w : bool :=
  source w && match latest (fan w) with Some v => ss_bad s v | None => false end.

(** A poll of a future: [None] when it has resolved, its receiver dropped with what was
    queued for it. *)
Definition poll_fut (timer : list T → bool) (now : Z) (fut : Fut) w : option Fut * World :=
  let f := fan w in
  let left rx := mkFanout (latest f) (listeners f) (<[rx := []]> (queues f)) (fresh_rx f) in
  match fut with
  | FNever => (Some FNever, w)
  | FTrip rx =>
      match await_bad (ss_bad s) (default [] (queues f !! rx)) with
      | Some _ => (None, set_fan (drop_rx rx f) w)
      | None => (Some (FTrip rx), set_fan (left rx) w)
      end
  | FWatch rx st =>
      match await_good_stable (ss_bad s) (resume_delay s) timer now (negb (source w))
              (default [] (queues f !! rx)) st with
      | None => (None, set_fan (drop_rx rx f) w)
      | Some st => (Some (FWatch rx st), set_fan (left rx) w)
      end
  end.

Definition suspension : Suspension :=
  mkSuspension (ss_justification s) (ss_pre_plan s) (ss_post_plan s).

(** The condition holds: while a run is in progress it is suspended until the condition
    clears. *)
Definition ask_suspension w : World :=
  if is_running (rc w) then
    let '(clear, w) := watch w in
    let '(c, gen) := request_suspend suspension (rc w) in
    set_clears (clears w ++ [(clear, gen)]) (set_rc c w)
  else w.

(** [register_suspender]'s task, a stage of its loop at a time: [trip], [watch], again. *)
Definition watcher_turn (timer : list T → bool) (now : Z) w : World :=
  match watcher w with
  | None => w
  | Some fut =>
      match poll_fut timer now fut w with
      | (Some fut, w) => set_watcher (Some fut) w
      | (None, w) =>
          let '(next, w) := match fut with
                            | FTrip _ => watch (ask_suspension w)
                            | _ => trip w
                            end in
          set_watcher (Some next) w
      end
  end.

(** The release task of a suspension: it ends with the condition, or with the removal of
    the suspender. *)
Definition clear_turn (i : nat) (timer : list T → bool) (now : Z) w : World :=
  match clears w !! i with
  | None => w
  | Some (fut, gen) =>
      let lift w := set_rc (release gen (rc w)) (set_clears (delete i (clears w)) w) in
      if released w then lift w else
      match poll_fut timer now fut w with
      | (Some fut, w) => set_clears (<[i := (fut, gen)]> (clears w)) w
      | (None, w) => lift w
      end
  end.

Definition install w : World := let '(fut, w) := trip w in set_watcher (Some fut) w.
(** [SuspenderHandle]'s drop: the task is aborted and a suspension it holds released. *)
Definition remove w : World :=
  mkWorld (fan w) (source w) (rc w) None (clears w) true.

Inductive Event :=
| EPost (v : T) | EDropSource | EWatcher (timer : list T → bool) (now : Z)
| EClear (i : nat) (timer : list T → bool) (now : Z) | EControl (c : RunControl) | ERemove.

Definition event (e : Event) w : World :=
  match e with
  | EPost v => if source w then set_fan (post v (fan w)).2 w else w
  | EDropSource => mkWorld (fan w) false (rc w) (watcher w) (clears w) (released w)
  | EWatcher timer now => watcher_turn timer now w
  | EClear i timer now => clear_turn i timer now w
  | EControl c => set_rc c w
  | ERemove => remove w
  end.
Fixpoint events (l : list Event) w : World := match l with [] => w | e :: l => events l (event e w) end.
End world.
Arguments World : clear implicits.
Arguments Event : clear implicits.

(** ** When a suspension lifts *)

Section settling.
Context {T : Type} (bad : T → bool) (d : Z) (timer : list T → bool).
Implicit Types (v : T) (q : list T) (l : list (Z * list T)).

(** Polls of [await_good_stable], each with its instant and what is queued since the last. *)
Fixpoint polls l (st : Stable) : option Stable :=
  match l with
  | [] => Some st
  | (now, q) :: l => await_good_stable bad (Some d) timer now false q st ≫= polls l
  end.

Lemma polls_app l l' st : polls (l ++ l') st = polls l st ≫= polls l'.
Proof.
  revert st. induction l as [|[now q] l IH]; intros st; simpl; [done|].
  destruct (await_good_stable _ _ _ _ _ _ _) as [st'|]; simpl; [apply IH|done].
Qed.

(** The last value that was read, and when. *)
Definition last_read l : option (Z * T) :=
  last (omap (λ x, (λ v, (x.1, v)) <$> last x.2) l).

Lemma last_read_snoc l now q :
  last_read (l ++ [(now, q)]) = match last q with Some v => Some (now, v) | None => last_read l end.
Proof.
  unfold last_read. rewrite omap_app. simpl. destruct (last q); simpl; [by rewrite last_snoc|by rewrite app_nil_r].
Qed.

Lemma polls_state l st :
  (0 < d)%Z → polls l SFirst = Some st →
  st = match last_read l with
       | None => SFirst
       | Some (t, v) => if bad v then SBad else SGood (t + d)
       end.
Proof.
  intros Hd. revert st. induction l as [|[now q] l IH] using rev_ind; intros st; [by intros [= <-]|].
  rewrite polls_app, last_read_snoc. destruct (polls l SFirst) as [st1|]; [|done]. simpl.
  specialize (IH st1 eq_refl). destruct (await_good_stable _ _ _ _ _ _ _) as [st2|] eqn:Ha; [|done].
  simpl. intros [= <-]. destruct q as [|v q] using rev_ind.
  - simpl in *. destruct (_ || _); [done|]. by injection Ha as <-.
  - rewrite last_snoc. by eapply await_good_left.
Qed.

Lemma lifts_settled l now q st :
  (0 < d)%Z → polls l SFirst = Some st →
  (polls (l ++ [(now, q)]) SFirst = None →
     ∃ t v, last_read l = Some (t, v) ∧ bad v = false ∧ (t + d <= now)%Z)
  ∧ (q = [] → (∃ t v, last_read l = Some (t, v) ∧ bad v = false ∧ (t + d <= now)%Z) →
     polls (l ++ [(now, q)]) SFirst = None).
Proof.
  intros Hd Hst. pose proof (polls_state l st Hd Hst) as Hs. rewrite polls_app, Hst. simpl.
  split.
  - destruct (await_good_stable _ _ _ _ _ _ _) eqn:Ha; [done|]. intros _.
    destruct (await_good_delay _ _ _ _ _ _ _ Hd Ha) as [|(u & Hu & Hle)]; [done|].
    subst st. destruct (last_read l) as [[t v]|]; [|done]. exists t, v.
    destruct (bad v) eqn:Hb; [done|]. injection Hu as <-. done.
  - intros -> (t & v & Hl & Hb & Hle). rewrite Hl, Hb in Hs. subst st. simpl.
    by rewrite (proj2 (Z.leb_le _ _) Hle).
Qed.

(** The suspension does not lift while updates arrive faster than the delay, GOOD as all
    of them may be. *)
Theorem steady_updates_hold l :
  (0 < d)%Z →
  (∀ x, x ∈ l → x.2 ≠ []) →
  (∀ i x y, l !! i = Some x → l !! S i = Some y → (y.1 < x.1 + d)%Z) →
  polls l SFirst ≠ None.
Proof.
  intros Hd. induction l as [|[now q] l IH] using rev_ind; [done|]. intros Hne Hl.
  assert (polls l SFirst ≠ None) as Hp.
  { apply IH; [intros x Hx; apply Hne, elem_of_app; by left|].
    intros i x y Hx Hy. by apply (Hl i); apply lookup_app_l_Some. }
  destruct (polls l SFirst) as [st|] eqn:Hst; [|done]. intros Hn.
  destruct (lifts_settled l now q st Hd Hst) as [Hs _].
  destruct (Hs Hn) as (t & v & Hlast & _ & Hle).
  destruct l as [|[t1 q1] l _] using rev_ind; [done|].
  rewrite last_read_snoc in Hlast. destruct (last q1) as [w|] eqn:Hw.
  2:{ apply last_None in Hw. subst q1. by destruct (Hne (t1, [])); [set_solver|]. }
  injection Hlast as <- <-.
  specialize (Hl (length l) (t1, q1) (now, q)). simpl in Hl.
  assert (∀ i, ((l ++ [(t1, q1)]) ++ [(now, q)]) !! (length l + i) = [(t1, q1); (now, q)] !! i) as Hi.
  { intros i. rewrite <- app_assoc, lookup_app_r by lia. by replace (length l + i - length l) with i by lia. }
  pose proof (Hi 0) as H0. pose proof (Hi 1) as H1. rewrite Nat.add_0_r in H0. rewrite Nat.add_1_r in H1.
  specialize (Hl H0 H1). lia.
Qed.

(** With a resume delay, a suspension whose source is alive lifts at a poll only if the
    last value read before was GOOD and the delay is over since, and at a poll that finds
    nothing new it does lift then. *)
Theorem lifts_only_settled l now q st :
  (0 < d)%Z → polls l SFirst = Some st →
  (polls (l ++ [(now, q)]) SFirst = None →
     ∃ t v, last_read l = Some (t, v) ∧ bad v = false ∧ (t + d <= now)%Z)
  ∧ (q = [] → (∃ t v, last_read l = Some (t, v) ∧ bad v = false ∧ (t + d <= now)%Z) →
     polls (l ++ [(now, q)]) SFirst = None).
Proof. apply lifts_settled. Qed.
End settling.

(** ** The receivers of a suspender's futures *)

Section receivers.
Context {T : Type} (s : SignalSuspender T).
Implicit Types (w : World T) (f : Fanout T) (L : list nat).

Definition fut_rx (fut : Fut) : list nat := match fut with FTrip rx | FWatch rx _ => [rx] | FNever => [] end.
Definition opt_rx (o : option Fut) : list nat := match o with Some fut => fut_rx fut | None => [] end.
Definition rxs w : list nat := opt_rx (watcher w) ++ (clears w ≫= λ x, fut_rx x.1).

(** Each future has a receiver of its own, which hears the signal. *)
Definition heard_by L f (src : bool) : Prop :=
  fan_ok f ∧ NoDup L ∧ ∀ rx, rx ∈ L → is_Some (queues f !! rx) ∧ (src = true → rx ∈ listeners f).
Definition world_ok w : Prop := heard_by (rxs w) (fan w) (source w).

Lemma heard_by_sub L L' f src : L' ⊆+ L → heard_by L f src → heard_by L' f src.
Proof.
  intros Hs (H1 & H2 & H3). split_and!; [done| |intros rx Hin; apply H3; by eapply elem_of_submseteq].
  apply submseteq_Permutation in Hs as [k Hk]. rewrite Hk in H2. by apply NoDup_app in H2 as [? _].
Qed.

Lemma listen_ok w L :
  heard_by L (fan w) (source w) →
  let '(rx, w') := ss_listen w in
  heard_by (rx :: L) (fan w') (source w') ∧ w' = set_fan (fan w') w
  ∧ ∀ x, x ∈ L → queues (fan w') !! x = queues (fan w) !! x.
Proof.
  intros (H1 & H2 & H3). unfold ss_listen.
  assert (∀ x, x ∈ L → x < fresh_rx (fan w)) as Hlt by (intros x Hx; by apply (fo_queue _ H1), H3).
  assert (fresh_rx (fan w) ∉ L) as Hno by (intros Hin%Hlt; lia).
  assert (∀ x, x ∈ L → x ≠ fresh_rx (fan w)) as Hne by (intros x Hx ->; by apply Hno).
  destruct (source w) eqn:Hs; simpl; rewrite ?Hs; (split_and!; [split_and!|done|]).
  - by apply (fan_op_ok FListen).
  - by constructor.
  - simpl. intros x [->|Hx]%elem_of_cons.
    + rewrite lookup_insert_eq. split; [by eexists|]. intros _. apply elem_of_app. right. by apply list_elem_of_singleton.
    + destruct (H3 x Hx) as [Hq Hl]. rewrite lookup_insert_ne by (by apply not_eq_sym, Hne). split; [done|].
      intros _. apply elem_of_app. left. apply list_elem_of_filter. auto.
  - intros x Hx. by rewrite lookup_insert_ne by (by apply not_eq_sym, Hne).
  - destruct H1 as [H1 H4 H5]. constructor; simpl; [done| |].
    + intros x Hx. specialize (H4 x Hx). lia.
    + intros x. destruct (decide (x = fresh_rx (fan w))) as [->|]; [lia|].
      rewrite lookup_insert_ne by done. intros Hx%H5. lia.
  - by constructor.
  - simpl. intros x [->|Hx]%elem_of_cons.
    + rewrite lookup_insert_eq. by split; [eexists|].
    + destruct (H3 x Hx) as [Hq Hl]. rewrite lookup_insert_ne by (by apply not_eq_sym, Hne). by split.
  - intros x Hx. by rewrite lookup_insert_ne by (by apply not_eq_sym, Hne).
Qed.

Lemma left_ok L f src rx :
  heard_by L f src → rx ∈ L →
  heard_by L (mkFanout (latest f) (listeners f) (<[rx := []]> (queues f)) (fresh_rx f)) src.
Proof.
  intros ([H1 H4 H5] & H2 & H3) Hin. split_and!; [constructor; [done|done|]|done|]; simpl; intros x.
  - destruct (decide (x = rx)) as [->|]; [intros _; by apply H5, H3|]. rewrite lookup_insert_ne by done. apply H5.
  - intros Hx. split; [|by apply H3]. destruct (decide (x = rx)) as [->|]; [by rewrite lookup_insert_eq; eexists|].
    rewrite lookup_insert_ne by done. by apply H3.
Qed.
Lemma drop_ok L f src rx : heard_by (rx :: L) f src → heard_by L (drop_rx rx f) src.
Proof.
  intros (H1 & [Hn H2]%NoDup_cons & H3). split_and!; [by apply (fan_op_ok (FDrop rx))|done|]. intros x Hx.
  destruct (H3 x) as [Hq Hl]; [by right|]. split; [|done]. unfold drop_rx. simpl. rewrite lookup_delete_ne; [done|].
  by intros ->.
Qed.

Lemma poll_ok timer now fut w L :
  heard_by (fut_rx fut ++ L) (fan w) (source w) →
  let '(r, w') := poll_fut s timer now fut w in
  heard_by (opt_rx r ++ L) (fan w') (source w') ∧ w' = set_fan (fan w') w
  ∧ (∀ x, x ∉ fut_rx fut → queues (fan w') !! x = queues (fan w) !! x)
  ∧ (∀ fut', r = Some fut' → fut_rx fut' = fut_rx fut).
Proof.
  intros Hh. assert (w = set_fan (fan w) w) as Hw by (by destruct w).
  destruct fut as [rx|rx st|]; simpl in *.
  - destruct (await_bad _ _); simpl; (split_and!; [|done| |]).
    + by apply drop_ok.
    + intros x Hx. rewrite lookup_delete_ne; [done|]. intros ->. apply Hx. left.
    + done.
    + apply left_ok; [done|left].
    + intros x Hx. rewrite lookup_insert_ne; [done|]. intros ->. apply Hx. left.
    + by intros fut' [= <-].
  - destruct (await_good_stable _ _ _ _ _ _ _); simpl; (split_and!; [|done| |]).
    + apply left_ok; [done|left].
    + intros x Hx. rewrite lookup_insert_ne; [done|]. intros ->. apply Hx. left.
    + by intros fut' [= <-].
    + by apply drop_ok.
    + intros x Hx. rewrite lookup_delete_ne; [done|]. intros ->. apply Hx. left.
    + done.
  - split_and!; [done|done|done|]. by intros fut' [= <-].
Qed.

Lemma watch_ok w L :
  heard_by L (fan w) (source w) →
  let '(fut, w') := watch s w in
  heard_by (fut_rx fut ++ L) (fan w') (source w') ∧ w' = set_fan (fan w') w
  ∧ ∀ x, x ∈ L → queues (fan w') !! x = queues (fan w) !! x.
Proof.
  intros Hh. unfold watch. destruct (auto_resume s); simpl.
  - pose proof (listen_ok w L Hh) as Hl. destruct (ss_listen w). exact Hl.
  - split_and!; [done|by destruct w|done].
Qed.

Definition clear_rx (l : list (Fut * Z)) : list nat := l ≫= λ x, fut_rx x.1.

Lemma clear_rx_at l i x : l !! i = Some x → clear_rx l ≡ₚ fut_rx x.1 ++ clear_rx (delete i l).
Proof.
  intros Hi. unfold clear_rx. rewrite <- (take_drop_middle l i x Hi) at 1. rewrite delete_take_drop.
  rewrite !bind_app, bind_cons, !app_assoc. apply Permutation_app_tail, Permutation_app_comm.
Qed.
Lemma clear_rx_insert l i x y :
  l !! i = Some x → fut_rx y.1 = fut_rx x.1 → clear_rx (<[i := y]> l) = clear_rx l.
Proof.
  intros Hi Hy. unfold clear_rx. rewrite <- (take_drop_middle l i x Hi) at 2.
  rewrite insert_take_drop by (by eapply lookup_lt_Some). rewrite !bind_app, !bind_cons. by rewrite Hy.
Qed.

Lemma heard_by_perm L L' f src : L ≡ₚ L' → heard_by L f src → heard_by L' f src.
Proof. intros Hl. apply heard_by_sub. by rewrite Hl. Qed.

(** A suspension is requested: its future has a receiver of its own. *)
Lemma ask_ok w L :
  heard_by (L ++ clear_rx (clears w)) (fan w) (source w) →
  let w' := ask_suspension s w in
  heard_by (L ++ clear_rx (clears w')) (fan w') (source w') ∧ watcher w' = watcher w.
Proof.
  intros Hh. unfold ask_suspension. destruct (is_running (rc w)); [|done].
  pose proof (watch_ok w _ Hh) as Hw. destruct (watch s w) as [fut w1]. destruct Hw as (Hw & He & _).
  simpl. rewrite He in *. simpl in *. split; [|done].
  eapply heard_by_perm; [|exact Hw]. unfold clear_rx. rewrite bind_app. simpl. rewrite app_nil_r.
  rewrite (app_assoc L). apply Permutation_app_comm.
Qed.

Lemma event_ok e w : world_ok w → world_ok (event s e w).
Proof.
  intros Hw. unfold world_ok, rxs in *. fold (clear_rx (clears w)) in Hw. destruct e as [v| |timer now|i timer now|c|]; simpl.
  - destruct (source w) eqn:Hs; [|by rewrite Hs]. simpl. rewrite Hs. destruct Hw as (H1 & H2 & H3).
    split_and!; [by apply (fan_op_ok (FPost v))|done|]. intros rx Hin. destruct (H3 rx Hin) as [Hq Hl].
    specialize (Hl eq_refl). change (mkFanout _ _ _ _) with (post v (fan w)).2. rewrite post_queue, decide_True by done.
    split; [by apply fmap_is_Some|]. intros _. simpl. by apply list_elem_of_filter.
  - destruct Hw as (H1 & H2 & H3). split_and!; [done|done|]. intros rx Hin. by destruct (H3 rx Hin).
  - unfold watcher_turn. destruct (watcher w) as [fut|] eqn:Hwt; [|by rewrite Hwt]. simpl in Hw.
    pose proof (poll_ok timer now fut w (clear_rx (clears w)) Hw) as Hp.
    destruct (poll_fut s timer now fut w) as [[fut'|] w1]; destruct Hp as (Hp & He & _).
    + rewrite He in *. exact Hp.
    + simpl in Hp. assert (clears w1 = clears w) as Hc by (by rewrite He). rewrite <- Hc in Hp.
      assert (∀ w2, heard_by (clear_rx (clears w2)) (fan w2) (source w2) →
        let '(next, w3) := trip w2 in heard_by (fut_rx next ++ clear_rx (clears w3)) (fan w3) (source w3)) as Htrip.
      { intros w2 H2. unfold trip. pose proof (listen_ok w2 _ H2) as Hl. destruct (ss_listen w2) as [rx w3].
        destruct Hl as (Hl & He3 & _). simpl. by rewrite He3 in *. }
      assert (∀ w2, heard_by (clear_rx (clears w2)) (fan w2) (source w2) →
        let '(next, w3) := watch s w2 in heard_by (fut_rx next ++ clear_rx (clears w3)) (fan w3) (source w3)) as Hwat.
      { intros w2 H2. pose proof (watch_ok w2 _ H2) as Hl. destruct (watch s w2) as [rx w3].
        destruct Hl as (Hl & He3 & _). by rewrite He3 in *. }
      destruct fut as [rx|rx st|].
      * destruct (ask_ok w1 [] Hp) as [Ha _]. specialize (Hwat _ Ha). destruct (watch s _) as [next w3]. exact Hwat.
      * specialize (Htrip _ Hp). destruct (trip w1) as [next w3]. exact Htrip.
      * specialize (Htrip _ Hp). destruct (trip w1) as [next w3]. exact Htrip.
  - unfold clear_turn. destruct (clears w !! i) as [[fut gen]|] eqn:Hi; [|done].
    pose proof (clear_rx_at _ _ _ Hi) as Hat. simpl in Hat.
    assert (heard_by (fut_rx fut ++ opt_rx (watcher w) ++ clear_rx (delete i (clears w))) (fan w) (source w)) as Hw'.
    { eapply heard_by_perm; [|exact Hw]. rewrite Hat, !app_assoc. apply Permutation_app_tail, Permutation_app_comm. }
    destruct (released w).
    { simpl. eapply heard_by_sub; [|exact Hw']. apply submseteq_inserts_l. done. }
    pose proof (poll_ok timer now fut w _ Hw') as Hp.
    destruct (poll_fut s timer now fut w) as [[fut'|] w1]; destruct Hp as (Hp & He & _ & Hr).
    + rewrite He in *. simpl in *. specialize (Hr fut' eq_refl).
      change (heard_by (opt_rx (watcher w) ++ clear_rx (<[i:=(fut', gen)]> (clears w))) (fan w1) (source w)).
      rewrite (clear_rx_insert _ _ _ (fut', gen) Hi) by done. eapply heard_by_perm; [|exact Hp]. rewrite Hr, Hat, !app_assoc.
      apply Permutation_app_tail, Permutation_app_comm.
    + rewrite He in *. exact Hp.
  - exact Hw.
  - eapply heard_by_sub; [|exact Hw]. simpl. apply submseteq_inserts_l. done.
Qed.

Lemma events_ok l w : world_ok w → world_ok (events s l w).
Proof. revert w. induction l as [|e l IH]; intros w Hw; [done|]. apply IH. by apply event_ok. Qed.

Lemma install_ok f c :
  fan_ok f → world_ok (install (mkWorld f true c None [] false)).
Proof.
  intros Hf. set (w := mkWorld _ _ _ _ _ _).
  assert (heard_by [] (fan w) (source w)) as Hh by (split_and!; [done|constructor|by intros ? ?%not_elem_of_nil]).
  pose proof (listen_ok w [] Hh) as Hl. unfold install, trip. destruct (ss_listen w) as [rx w1].
  destruct Hl as (Hl & He & _). rewrite He in *. exact Hl.
Qed.
End receivers.

(** ** What a waiting suspender sees *)

Section armed.
Context {T : Type} (s : SignalSuspender T).
Implicit Types (w : World T) (l : list (Event T)).

(** Nothing of the watcher's task. *)
Definition quiet (e : Event T) : bool :=
  match e with EWatcher _ _ | EDropSource | ERemove => false | _ => true end.
Definition posted l : list T := omap (λ e, match e with EPost v => Some v | _ => None end) l.

Lemma armed_queue l w rx q :
  world_ok w → source w = true → watcher w = Some (FTrip rx) → queues (fan w) !! rx = Some q →
  forallb quiet l →
  let w' := events s l w in
  world_ok w' ∧ source w' = true ∧ watcher w' = Some (FTrip rx)
  ∧ queues (fan w') !! rx = Some (q ++ posted l).
Proof.
  revert w q. induction l as [|e l IH]; intros w q Hw Hs Hwt Hq Hl; [by rewrite app_nil_r|].
  apply andb_prop_elim in Hl as [He Hl]. pose proof (event_ok s e w Hw) as Hw'.
  assert (rx ∈ rxs w) as Hin by (unfold rxs; rewrite Hwt; simpl; left).
  destruct e as [v| |timer now|i timer now|c|]; try done.
  - simpl in *. rewrite Hs in *. replace (q ++ v :: posted l) with ((q ++ [v]) ++ posted l) by (by rewrite <- app_assoc).
    apply IH; try done. destruct Hw as (H1 & _ & H3). destruct (H3 rx Hin) as [_ Hlis].
    change (queues (post v (fan w)).2 !! rx = Some (q ++ [v])). rewrite post_queue, decide_True by auto. by rewrite Hq.
  - simpl in *. unfold posted. simpl. fold (posted l). unfold clear_turn in *.
    destruct (clears w !! i) as [[fut gen]|] eqn:Hi; [|by apply IH].
    destruct (released w); [by apply IH|].
    destruct Hw as (H1 & H2 & H3). unfold rxs in *. fold (clear_rx (clears w)) in *.
    pose proof (clear_rx_at _ _ _ Hi) as Hat. simpl in Hat.
    assert (rx ∉ fut_rx fut) as Hno.
    { rewrite Hwt, Hat in H2. simpl in H2. apply NoDup_cons in H2 as [H2 _]. intros Hx. apply H2, elem_of_app. by left. }
    assert (heard_by (fut_rx fut) (fan w) (source w)) as Hf.
    { eapply heard_by_sub; [|split_and!; [exact H1|exact H2|exact H3]]. rewrite Hat.
      apply submseteq_inserts_l, submseteq_inserts_r. done. }
    rewrite <- (app_nil_r (fut_rx fut)) in Hf.
    pose proof (poll_ok s timer now fut w [] Hf) as Hp.
    destruct (poll_fut s timer now fut w) as [[fut'|] w1]; destruct Hp as (_ & He1 & Hk & _); rewrite He1 in *;
      (apply IH; [exact Hw'|done|done|by simpl in *; rewrite Hk|done]).
  - by apply IH.
Qed.

Lemma await_bad_spec q : await_bad (ss_bad s) q = None ↔ existsb (ss_bad s) q = false.
Proof. induction q as [|v q IH]; simpl; [done|]. destruct (ss_bad s v); simpl; [done|done]. Qed.

(** C30: A suspender that waits for its condition judges every value posted since it began to
    wait, the value current then included, however many are posted before its task runs:
    if one of them is BAD it asks for the suspension of a run in progress, once, and
    waits for the condition to clear; otherwise nothing is asked of the engine. *)
Theorem every_value_is_judged f c l1 l rx q timer now :
  fan_ok f →
  let w := events s l1 (install (mkWorld f true c None [] false)) in
  source w = true → watcher w = Some (FTrip rx) → queues (fan w) !! rx = Some q →
  forallb quiet l →
  let w1 := events s l w in
  let w2 := watcher_turn s timer now w1 in
  if existsb (ss_bad s) (q ++ posted l) then
    (∀ rx', watcher w2 ≠ Some (FTrip rx'))
    ∧ if is_running (rc w1) then
        rc w2 = (request_suspend (suspension s) (rc w1)).1
        ∧ ∃ clear, clears w2 = clears w1 ++ [(clear, run_gen (rc w1))]
      else rc w2 = rc w1 ∧ clears w2 = clears w1
  else watcher w2 = Some (FTrip rx) ∧ rc w2 = rc w1 ∧ clears w2 = clears w1.
Proof.
  intros Hf w Hs Hwt Hq Hl w1 w2. pose proof (events_ok s l1 _ (install_ok f c Hf)) as Hw. fold w in Hw.
  destruct (armed_queue l w rx q Hw Hs Hwt Hq Hl) as (Hw1 & Hs1 & Hwt1 & Hq1). fold w1 in Hw1, Hs1, Hwt1, Hq1.
  unfold w2, watcher_turn. rewrite Hwt1. simpl. rewrite Hq1. simpl. pose proof (await_bad_spec (q ++ posted l)) as Hb.
  destruct (await_bad _ _) as [q'|].
  - destruct (existsb _ _); [|by destruct Hb as [_ Hb]; discriminate Hb].
    set (w3 := set_fan _ w1). assert (∀ w4, let '(next, w5) := watch s w4 in
      (∀ rx', Some next ≠ Some (FTrip rx')) ∧ rc w5 = rc w4 ∧ clears w5 = clears w4) as Hwatch.
    { intros w4. unfold watch, ss_listen. destruct (auto_resume s); [|done]. simpl. by destruct (source w4). }
    unfold ask_suspension. change (rc w3) with (rc w1). destruct (is_running (rc w1)) eqn:Hrun.
    + pose proof (Hwatch w3) as H3. destruct (watch s w3) as [clear w4]. destruct H3 as (_ & Hrc & Hcl).
      cbn [request_suspend]. set (w5 := set_clears _ _). pose proof (Hwatch w5) as H5. destruct (watch s w5) as [next w6].
      destruct H5 as (Hn & Hrc5 & Hcl5). simpl. rewrite Hrc5, Hcl5. split; [done|]. unfold w5. simpl.
      rewrite Hrc, Hcl. split; [done|]. by exists clear.
    + pose proof (Hwatch w3) as H3. destruct (watch s w3) as [next w4]. destruct H3 as (Hn & Hrc & Hcl). done.
  - destruct Hb as [Hb _]. rewrite Hb by done. done.
Qed.

(** Once the suspender is removed every suspension it holds is lifted, at the next turn of
    the task that waits for it. *)
Theorem removal_releases w i fut gen timer now :
  clears w !! i = Some (fut, gen) →
  let w1 := clear_turn s i timer now (remove w) in
  clears w1 = delete i (clears w) ∧ rc w1 = release gen (rc w).
Proof. intros Hi. unfold clear_turn. simpl. by rewrite Hi. Qed.
End armed.

Module SuspendExample.
Definition shutter : SignalSuspender bool := suspend_bool_high "shutter".
Definition closed_shutter : Fanout bool := (post false new_fanout).2.
Definition running : RunControl := rc_set_is_running true control_new.
Definition timer : list bool → bool := λ _, true.
Definition start : World bool := install (mkWorld closed_shutter true running None [] false).

Lemma closed_shutter_ok : fan_ok closed_shutter.
Proof.
  apply (fan_op_ok (FPost false)). constructor; [constructor|by intros rx ?%not_elem_of_nil|].
  intros rx. simpl. rewrite lookup_empty. by intros [].
Qed.

Lemma listener_hears_every_value_witness :
  ∃ q, queues (fan_all [FPost true; FRecv 0; FPost false] (listen closed_shutter).2) !! 0 = Some q
       ∧ heard 0 [FPost true; FRecv 0; FPost false] (listen closed_shutter).2 ++ q = [false; true; false].
Proof.
  apply (listener_hears_every_value [FPost true; FRecv 0; FPost false] closed_shutter closed_shutter_ok). set_solver.
Defined.

(** The shutter opens for an instant before the task runs. *)
Lemma every_value_is_judged_witness :
  let w1 := events shutter [EPost true; EPost false] start in
  let w2 := watcher_turn shutter timer 0 w1 in
  (∀ rx, watcher w2 ≠ Some (FTrip rx))
  ∧ rc w2 = (request_suspend (suspension shutter) (rc w1)).1
  ∧ ∃ clear, clears w2 = clears w1 ++ [(clear, run_gen (rc w1))].
Proof.
  apply (every_value_is_judged shutter closed_shutter running [] [EPost true; EPost false] 0 [false] timer 0
    closed_shutter_ok); [reflexivity|reflexivity|reflexivity|exact I].
Defined.

Lemma lifts_only_settled_witness :
  polls negb 5 timer ([(0, [false]); (3, [true])] ++ [(8, [])])%Z SFirst = None.
Proof.
  eapply (lifts_only_settled negb 5 timer [(0, [false]); (3, [true])]%Z 8 []); [lia|reflexivity|reflexivity|].
  exists 3%Z, true. split_and!; [reflexivity|reflexivity|lia].
Defined.

(** A GOOD value every four seconds holds a suspension with a delay of five. *)
Lemma steady_updates_hold_witness :
  polls negb 5 timer [(0, [true]); (4, [true]); (8, [true]); (12, [true]); (16, [true])]%Z SFirst ≠ None.
Proof.
  apply steady_updates_hold; [lia| |].
  - intros x Hx. repeat (apply elem_of_cons in Hx as [->|Hx]; [done|]). by apply not_elem_of_nil in Hx.
  - intros [|[|[|[|[|i]]]]] x y Hx Hy; simplify_eq/=; lia.
Defined.

Lemma removal_releases_witness :
  let w := events shutter [EPost true; EWatcher timer 0] start in
  let w1 := clear_turn shutter 0 timer 0 (remove w) in
  clears w1 = [] ∧ is_paused (rc w) = true ∧ is_paused (rc w1) = false.
Proof.
  intros w w1. destruct (removal_releases shutter w 0 (FWatch 1 SFirst) 0 timer 0 eq_refl) as [Hc Hr].
  unfold w1. rewrite Hc, Hr. vm_compute. auto.
Defined.

(** While a suspension holds, a BAD value with GOOD ones queued around it goes unseen: the
    suspension lifts at the first GOOD value, what was queued behind it is dropped, and the
    suspender waits again from the latest value on. Two BAD episodes, one suspension. *)
Theorem glitch_behind_good_is_missed :
  let w := events shutter [EPost true; EWatcher timer 0; EPost false; EPost true; EPost false;
                           EWatcher timer 1; EClear 0 timer 1; EWatcher timer 2]%Z start in
  (∃ rx, watcher w = Some (FTrip rx)) ∧ clears w = [] ∧ is_paused (rc w) = false ∧ holds (rc w) = 0%Z
  ∧ map fst (clears (events shutter [EPost true; EWatcher timer 0] start)) = [FWatch 1 SFirst].
Proof. vm_compute. eauto 10. Qed.
End SuspendExample.
