(* ===== verification/Observe.v ===== *)
(** * Waiting for a value, and commands ([devices/observe.rs], [devices/command.rs])

    What a wait hears is the values its subscription queued, in order, and how the wait is
    ended: by the channel, by the timer, or not yet. A command runs its backend under its
    timeout; a mock records what it was called with. *)

From stdpp Require Import pretty.
From S2P Require Import Prelude.
From S2P Require Import Interfaces.
From S2P Require Import Errors.
From S2P Require Import Documents.
From S2P Require Import F64.

Section observe.
Context `{JsonNumber}.

(** ** Python's [==] over JSON

    [is_f64] and [as_f64] of a number. *)
Context (is_float : number → bool) (as_f64 : number → option f64).

Definition opt_eqb {A} (eqb : A → A → bool) (x y : option A) : bool :=
  match x, y with Some x, Some y => eqb x y | None, None => true | _, _ => false end.
Definition number_eq (x y : number) : bool :=
  if is_float x || is_float y then opt_eqb f64_eqb (as_f64 x) (as_f64 y)
  else opt_eqb Z.eqb (num_as_i64 x) (num_as_i64 y) && opt_eqb Z.eqb (num_as_u64 x) (num_as_u64 y).

Fixpoint py_eq (a b : Value) {struct a} : bool :=
  match a, b with
  | VNumber x, VNumber y => number_eq x y
  | VArray x, VArray y =>
      (length x =? length y) &&
      (fix zip_all (x y : list Value) : bool :=
         match x, y with v :: x, w :: y => py_eq v w && zip_all x y | _, _ => true end) x y
  | VObject x, VObject y =>
      (length x =? length y) &&
      (fix all (x : list (string * Value)) : bool :=
         match x with
         | (k, v) :: x => match assoc_get k y with Some w => py_eq v w | None => false end && all x
         | [] => true
         end) x
  | VNull, VNull => true
  | VBool x, VBool y => Bool.eqb x y
  | VString x, VString y => String.eqb x y
  | _, _ => false
  end.

(** ** Waits *)

(** A matcher with a state of its own ([FnMut]) and its name in a timeout. *)
Record Matcher (S : Type) := mkMatcher { matches : S → ReadingValue → bool * S; m_name : string }.
Arguments mkMatcher {_}. Arguments matches {_}. Arguments m_name {_}.
Definition value_matcher (v : Value) (repr : Value → string) : Matcher () :=
  mkMatcher (λ s r, (py_eq (rd_value r) v, s)) (repr v).

(** What ends the wait when no value that was heard did. *)
Inductive Ending := ChannelClosed | TimeIsUp | Pending.

Section waits.
Context {S : Type} (m : Matcher S).
Implicit Types (s : S) (l : list ReadingValue) (last : option ReadingValue).

Definition closed : BsrsError := Backend "subscription channel closed".
Definition value_timeout (key : string) (timeout : Z) last : BsrsError :=
  ValueTimeout key (m_name m) timeout (rd_value <$> last).

(** [next_match] over the values queued: the match with the state and the values left, or
    the state and the last value seen. *)
Fixpoint next_match s last l : (ReadingValue * S * list ReadingValue) + (S * option ReadingValue) :=
  match l with
  | [] => inr (s, last)
  | r :: l => let '(b, s) := matches m s r in if b then inl (r, s, l) else next_match s (Some r) l
  end.

(** [None]: the wait goes on. The timer counts only when there is one. *)
Definition ended_by (key : string) (timeout : option Z) last (e : Ending) : option BsrsError :=
  match e, timeout with
  | ChannelClosed, _ => Some closed
  | TimeIsUp, Some d => Some (value_timeout key d last)
  | _, _ => None
  end.

Definition wait_for_value (key : string) (timeout : option Z) s l (e : Ending) : option (Result ReadingValue BsrsError) :=
  match next_match s None l with
  | inl (r, _, _) => Some (Ok r)
  | inr (_, last) => Err <$> ended_by key timeout last e
  end.

(** [secs]: [as_secs_f64] of the timeout as text. [before]: heard before the set is run;
    [after]: heard since. *)
Definition set_and_wait_for_other_value {R} (key : string) (secs : string) (timeout : Z) s
    (before : list ReadingValue) (e0 : Ending) (set : Result R BsrsError) (after : list ReadingValue) (e : Ending) :
    option (Result R BsrsError) :=
  match before with
  | [] => match e0 with
          | ChannelClosed => Some (Err closed)
          | TimeIsUp => Some (Err (Other (key +:+ " didn't provide an initial value within " +:+ secs +:+ "s, is it connected?")))
          | Pending => None
          end
  | first :: before =>
      match set with
      | Err e => Some (Err e)
      | Ok out =>
          let '(b, s) := matches m s first in
          if b then Some (Ok out)
          else match next_match s (Some first) (before ++ after) with
               | inl _ => Some (Ok out)
               | inr (_, last) => Err <$> ended_by key (Some timeout) last e
               end
      end
  end.
End waits.

(** [observe_signals_value]: each value with the index of its subscription, in the order the
    subscriptions are polled. *)
Definition observe_signals_value (subs : list (list ReadingValue)) (polls : list nat) : list (nat * ReadingValue) :=
  (fix go (subs : list (list ReadingValue)) (polls : list nat) : list (nat * ReadingValue) :=
     match polls with
     | [] => []
     | i :: polls =>
         match subs !! i with
         | Some (r :: q) => (i, r) :: go (<[i := q]> subs) polls
         | _ => go subs polls
         end
     end) subs polls.
End observe.
Arguments mkMatcher {_ _}. Arguments matches {_ _}. Arguments m_name {_ _}. Arguments closed {_}.

(** ** Commands *)

Section command.
Context `{JsonNumber} {A R : Type}.
Variable error_text : BsrsError → string.

(** [within]: what the backend gives, or its end, when it comes in time. *)
Inductive Finish := InTime (r : Result R BsrsError) | TooLate | Never.
Definition default_timeout : Z := 10000000000.
Definition within (timeout : option Z) (f : Finish) : option (Result R BsrsError) :=
  match f, timeout with
  | InTime r, _ => Some r
  | TooLate, Some d => Some (Err (Timeout_ d))
  | _, _ => None
  end.

(** A backend: a soft callback, or one that mocks another. *)
Record MockCommandBackend := mkMock {
  initial_source : string → string;
  fallback : A → Finish;
  callback : option (A → Finish);
  calls : list A;
}.
Implicit Types (b : MockCommandBackend) (args : A).
Definition soft_source (name : string) : string := "softcmd://" +:+ name.
Definition over (source : string → string) (f : A → Finish) : MockCommandBackend := mkMock source f None [].
Definition new_mock (command_cb : A → Finish) : MockCommandBackend := over soft_source command_cb.
Definition wrapping (source : string → string) (default_output : R) : MockCommandBackend :=
  over source (λ _, InTime (Ok default_output)).
Definition set_execute_callback (cb : option (A → Result R BsrsError)) b : MockCommandBackend :=
  mkMock (initial_source b) (fallback b) ((λ f args, InTime (f args)) <$> cb) (calls b).
Definition mock_source (name : string) b : string := "mock+" +:+ initial_source b name.
Definition mock_execute args b : Finish * MockCommandBackend :=
  let b := mkMock (initial_source b) (fallback b) (callback b) (calls b ++ [args]) in
  (default (fallback b) (callback b) args, b).

(** [Command] over a mock. *)
Record Command := mkCommand { c_backend : MockCommandBackend; c_name : string; c_timeout : option Z }.
Definition new_command (b : MockCommandBackend) (name : string) : Command := mkCommand b name (Some default_timeout).
Definition with_timeout (t : option Z) (c : Command) : Command := mkCommand (c_backend c) (c_name c) t.
Definition execute args (c : Command) : option (Result R BsrsError) * Command :=
  let '(f, b) := mock_execute args (c_backend c) in (within (c_timeout c) f, mkCommand b (c_name c) (c_timeout c)).
Definition trigger_with_timeout (timeout : option Z) args (c : Command) : option (Result unit StatusError) * Command :=
  let '(f, b) := mock_execute args (c_backend c) in
  ((λ r, match r with Ok _ => Ok () | Err e => Err (SFailed (error_text e)) end) <$> within timeout f,
   mkCommand b (c_name c) (c_timeout c)).
Definition trigger args (c : Command) : option (Result unit StatusError) * Command := trigger_with_timeout (c_timeout c) args c.
End command.

(** * What a wait answers *)

Section waiting.
Context `{JsonNumber}.
Implicit Types (p : ReadingValue → bool) (l : list ReadingValue).

(** A predicate without a state. *)
Definition predicate p (name : string) : Matcher () := mkMatcher (λ s r, (p r, s)) name.

Lemma last_default {A} (x : A) (l : list A) d d' : List.last (x :: l) d = List.last (x :: l) d'.
Proof. revert x. induction l as [|y l IH]; intros x; [done|]. exact (IH y). Qed.
Lemma next_match_spec p name last l :
  match next_match (predicate p name) () last l with
  | inl (r, _, rest) => ∃ l1, l = l1 ++ r :: rest ∧ Forall (λ x, p x = false) l1 ∧ p r = true
  | inr (_, last') => Forall (λ x, p x = false) l ∧ last' = List.last (Some <$> l) last
  end.
Proof.
  revert last. induction l as [|r l IH]; intros last; cbn; [by split|]. destruct (p r) eqn:Hp; [exists []; by repeat constructor|].
  specialize (IH (Some r)). destruct (next_match _ _ _ l) as [[[r' ?] rest]|[? last']].
  - destruct IH as (l1 & -> & Hl1 & Hr). exists (r :: l1). split_and!; [done| |done]. by constructor.
  - destruct IH as [Hl ->]. split; [by constructor|]. destruct l as [|y l]; [done|]. apply last_default.
Qed.

(** A wait gives the first value that matches, of all those that were queued, with none
    skipped; else it fails when the channel closes, or when its timer rings, with the last
    value it saw. *)
Theorem wait_gives_the_first_match p name key timeout l e :
  (∀ l1 r l2, l = l1 ++ r :: l2 → Forall (λ x, p x = false) l1 → p r = true →
     wait_for_value (predicate p name) key timeout () l e = Some (Ok r))
  ∧ (Forall (λ x, p x = false) l →
     wait_for_value (predicate p name) key timeout () l e =
       match e, timeout with
       | ChannelClosed, _ => Some (Err closed)
       | TimeIsUp, Some d => Some (Err (ValueTimeout key name d (rd_value <$> last l)))
       | _, _ => None
       end).
Proof.
  unfold wait_for_value. pose proof (next_match_spec p name None l) as Hn.
  destruct (next_match _ _ _ l) as [[[r s] rest]|[s last']].
  - destruct Hn as (k1 & -> & Hk & Hr). split.
    + intros l1 r' l2 Heq Hl1 Hr'. do 2 f_equal.
      assert (∀ k1 l1 r r' (l2 rest : list ReadingValue), k1 ++ r :: rest = l1 ++ r' :: l2 → Forall (λ x, p x = false) k1 →
        Forall (λ x, p x = false) l1 → p r = true → p r' = true → r = r') as Hd.
      { clear. induction k1 as [|x k1 IH]; intros [|y l1] r r' l2 rest; cbn; intros Heq Hk Hl Hr Hr'; simplify_eq; try done.
        - apply Forall_cons in Hl as [? _]. congruence.
        - apply Forall_cons in Hk as [? _]. congruence.
        - apply Forall_cons in Hk as [_ Hk], Hl as [_ Hl]. by eapply IH. }
      by eapply Hd.
    + intros Hall. rewrite Forall_app, Forall_cons in Hall. destruct Hall as (_ & ? & _). congruence.
  - destruct Hn as [Hall ->]. split.
    + intros l1 r l2 -> _ Hr. rewrite Forall_app, Forall_cons in Hall. destruct Hall as (_ & ? & _). congruence.
    + intros _. assert (List.last (Some <$> l) None = last l) as ->.
      { clear. induction l as [|x [|y l] IH]; [done..|]. by rewrite last_cons_cons. }
      by destruct e, timeout.
Qed.

(** A set that is waited for runs when the first value is in hand, and what it causes is
    not missed: it is over when the first value, or any value queued since, matches, even
    one that was already undone. *)
Theorem set_is_not_missed {R} p name key secs timeout before after (out : R) e0 e :
  before ≠ [] → Exists (λ r, p r = true) (before ++ after) →
  set_and_wait_for_other_value (predicate p name) key secs timeout () before e0 (Ok out) after e = Some (Ok out).
Proof.
  destruct before as [|first before]; [done|]. intros _ He. cbn. destruct (p first) eqn:Hp; [done|].
  pose proof (next_match_spec p name (Some first) (before ++ after)) as Hn.
  destruct (next_match _ _ _ _) as [[[r s] rest]|[s last']]; [done|]. destruct Hn as [Hall _].
  cbn in He. apply Exists_cons in He as [?|He]; [congruence|].
  rewrite Forall_forall in Hall. apply Exists_exists in He as (x & Hx & Hpx). rewrite (Hall x Hx) in Hpx. done.
Qed.

(** The merged values of one subscription are its own, in order. *)
Theorem merged_values_keep_their_order polls : ∀ (subs : list (list ReadingValue)) i q,
  subs !! i = Some q →
  ∃ rest, q = (filter (λ x, x.1 = i) (observe_signals_value subs polls)).*2 ++ rest.
Proof.
  unfold observe_signals_value. induction polls as [|j polls IH]; intros subs i q Hq; [by exists q|].
  destruct (subs !! j) as [[|r q']|] eqn:Hj; [by apply IH| |by apply IH].
  rewrite filter_cons. case_decide as Hd; cbn in Hd.
  - subst j. assert (q = r :: q') as -> by congruence.
    destruct (IH (<[i:=q']> subs) i q') as [rest Hr].
    { apply list_lookup_insert_eq. apply lookup_lt_Some in Hq. done. }
    exists rest. cbn. f_equal. exact Hr.
  - apply IH. by rewrite list_lookup_insert_ne.
Qed.
End waiting.

Section commands.
Context `{JsonNumber} {A R : Type}.

(** A mock records what it was executed with, in order, and runs the callback that is set,
    else what it mocks. *)
Theorem mock_records_its_calls (b : MockCommandBackend (A := A) (R := R)) (l : list A) :
  calls (foldl (λ b a, (mock_execute a b).2) b l) = calls b ++ l
  ∧ ∀ a, (mock_execute a b).1 = match callback b with Some f => f a | None => fallback b a end.
Proof.
  split; [|intros a; unfold mock_execute; by destruct (callback b)].
  revert b. induction l as [|a l IH]; intros b; cbn; [by rewrite app_nil_r|]. rewrite IH. cbn. by rewrite <-app_assoc.
Qed.
End commands.

(** ** Examples *)

Module ObserveExample.
Import Sample.
Definition at_value (z : Z) : ReadingValue := mkReading (json_Z z) 0%Z None None.
Definition is_one (r : ReadingValue) : bool := match rd_value r with VNumber (Some z) => (z =? 1)%Z | _ => false end.

Lemma wait_gives_the_first_match_witness :
  wait_for_value (predicate is_one "is_one") "m" (Some 5%Z) () [at_value 0; at_value 1; at_value 0] TimeIsUp = Some (Ok (at_value 1)).
Proof.
  apply (wait_gives_the_first_match is_one "is_one" "m" (Some 5%Z) [at_value 0; at_value 1; at_value 0] TimeIsUp)
    with (l1 := [at_value 0]) (l2 := [at_value 0]); [reflexivity|by repeat constructor|reflexivity].
Defined.
Lemma set_is_not_missed_witness :
  set_and_wait_for_other_value (predicate is_one "is_one") "m" "5" 5 () [at_value 0] TimeIsUp (Ok 7) [at_value 1; at_value 0] TimeIsUp
    = Some (Ok 7).
Proof.
  apply (set_is_not_missed is_one "is_one" "m" "5" 5 [at_value 0] [at_value 1; at_value 0] 7 TimeIsUp TimeIsUp); [done|].
  apply Exists_exists. exists (at_value 1). split; [|reflexivity]. right. left.
Defined.

(** The numbers [2^53] and [2^53 + 1] and the double [2^53] (here [None]): an integer is
    compared with a double after it was rounded to one. In Python, which compares their
    values, the last is not equal to the second; here it is equal to both. *)
Definition sample_float (n : number) : bool := match n with None => true | Some _ => false end.
Definition sample_f64 (n : number) : option f64 := Some (f64_of_Z (default 9007199254740992%Z n)).
Lemma py_eq_rounds_integers :
  let eq := py_eq sample_float sample_f64 in
  let int z := json_Z z in let float : Value := VNumber (None : number) in
  eq (int 9007199254740992%Z) float = true ∧ eq float (int 9007199254740993%Z) = true
  ∧ eq (int 9007199254740992%Z) (int 9007199254740993%Z) = false.
Proof. split_and!; vm_compute; reflexivity. Qed.
End ObserveExample.
