(* ===== verification/Paths.v ===== *)
(** * Where detectors write ([devices/path_provider.rs])

    Paths of a host that need not be this one, by the rules of its flavor, the names and
    numbered directories the providers hand out, and the URIs readers resolve. A text is
    its bytes in UTF-8; this host is posix. The mutexes' contents are the providers' states,
    the directory listings, the dates and the UUIDs are arguments. *)

From Stdlib Require Import Ascii String.
From stdpp Require Import pretty strings.
From S2P Require Import Prelude Interfaces Errors.

Definition text : Type := list ascii.
Definition b (s : string) : text := list_ascii_of_string s.
Definition str (t : text) : string := string_of_list_ascii t.

Definition slash : ascii := "/"%char.
Definition bslash : ascii := "\"%char.
Definition dot : ascii := "."%char.
Definition colon : ascii := ":"%char.
Definition underscore : ascii := "_"%char.

(** ** Text functions of the standard library *)

Definition starts_with (c : ascii) (t : text) : bool :=
  match t with x :: _ => bool_decide (x = c) | [] => false end.
Definition ends_with (c : ascii) (t : text) : bool :=
  match last t with Some x => bool_decide (x = c) | None => false end.
Fixpoint strip_prefix (p t : text) : option text :=
  match p, t with
  | [], _ => Some t
  | x :: p, y :: t => if decide (x = y) then strip_prefix p t else None
  | _ :: _, [] => None
  end.
Fixpoint trim_start (c : ascii) (t : text) : text :=
  match t with x :: t' => if decide (x = c) then trim_start c t' else t | [] => [] end.
Definition trim_end (c : ascii) (t : text) : text := rev (trim_start c (rev t)).
Definition trim (c : ascii) (t : text) : text := trim_end c (trim_start c t).
Definition replace (c d : ascii) (t : text) : text := map (λ x, if decide (x = c) then d else x) t.

(** [str::find] of any of some characters. *)
Fixpoint find_any (cs : list ascii) (t : text) : option nat :=
  match t with
  | [] => None
  | x :: t => if decide (x ∈ cs) then Some 0 else S <$> find_any cs t
  end.
Definition find (c : ascii) (t : text) : option nat := find_any [c] t.

(** [str::split]: at least one piece. *)
Fixpoint split (c : ascii) (t : text) : list text :=
  match t with
  | [] => [[]]
  | x :: t =>
      if decide (x = c) then [] :: split c t
      else match split c t with
           | p :: ps => (x :: p) :: ps
           | [] => [[x]]
           end
  end.
Definition split_once (c : ascii) (t : text) : option (text * text) :=
  i ← find c t; Some (take i t, drop (S i) t).
Fixpoint join (sep : ascii) (l : list text) : text :=
  match l with [] => [] | [p] => p | p :: l => p ++ sep :: join sep l end.

(** [str::contains] of a text. *)
Fixpoint contains (t p : text) : bool :=
  match strip_prefix p t with
  | Some _ => true
  | None => match t with [] => false | _ :: t => contains t p end
  end.

Definition is_digit (c : ascii) : bool := let n := nat_of_ascii c in (48 <=? n) && (n <=? 57).
Definition is_alpha (c : ascii) : bool :=
  let n := nat_of_ascii c in ((65 <=? n) && (n <=? 90)) || ((97 <=? n) && (n <=? 122)).
Definition ascii_lower (c : ascii) : ascii :=
  let n := nat_of_ascii c in if (65 <=? n) && (n <=? 90) then ascii_of_nat (n + 32) else c.

(** The bytes of the character that begins with a byte. *)
Definition utf8_len (c : ascii) : nat :=
  let n := nat_of_ascii c in
  if n <? 128 then 1 else if n <? 224 then 2 else if n <? 240 then 3 else 4.

(** [to_string] of an unsigned integer, [{:0width$}], and [parse::<u64>] of digits. *)
Definition dec (n : Z) : text := b (pretty (Z.to_N n)).
Definition pad (width : nat) (n : Z) : text := replicate (width - length (dec n)) "0"%char ++ dec n.
Definition dec_value (t : text) : Z :=
  foldl (λ z c, 10 * z + (Z.of_nat (nat_of_ascii c) - 48))%Z 0%Z t.
Definition parse_u64 (t : text) : option Z :=
  let z := dec_value t in if (z <=? u64_max)%Z then Some z else None.

(** [str::to_lowercase], by the tables of Unicode. *)
Class Unicode := { to_lowercase : text → text }.

(** ** Paths *)

Inductive Flavor := Posix | Windows.
#[global] Instance Flavor_eq_dec : EqDecision Flavor.
Proof. solve_decision. Defined.

Definition sep (f : Flavor) : ascii := match f with Posix => slash | Windows => bslash end.

Record PurePath := mkPath { flavor : Flavor; drive : text; root : text; parts : list text }.

Definition split_posix_root (path : text) : text * text * text :=
  match path with
  | "/"%char :: rest =>
      match rest with
      | "/"%char :: rest2 =>
          if starts_with slash rest2 then ([], [slash], trim_start slash path)
          else ([], [slash; slash], rest2)
      | _ => ([], [slash], trim_start slash path)
      end
  | _ => ([], [], path)
  end.

Definition split_windows_root (path : text) : text * text * text :=
  match path with
  | "\"%char :: "\"%char :: _ =>
      let unc := bool_decide (map ascii_lower (take 8 path) = b "\\?\unc\") in
      let start := if unc then 8 else 2 in
      match (λ i, start + i) <$> find bslash (drop start path) with
      | None => (path, [], [])
      | Some index =>
          match (λ i, index + 1 + i) <$> find bslash (drop (index + 1) path) with
          | None => (path, [], [])
          | Some index2 => (take index2 path, [bslash], drop (index2 + 1) path)
          end
      end
  | "\"%char :: rest => ([], [bslash], rest)
  | c :: _ =>
      if decide (path !! utf8_len c = Some colon) then
        let drive := take (utf8_len c + 1) path in
        match drop (utf8_len c + 1) path with
        | "\"%char :: rest => (drive, [bslash], rest)
        | rest => (drive, [], rest)
        end
      else ([], [], path)
  | [] => ([], [], path)
  end.

Definition windows_root (drive root : text) : text :=
  if negb (bool_decide (root = [])) || negb (starts_with bslash drive) || ends_with bslash drive
  then root
  else let parts := split bslash drive in
       match length parts with
       | 4 => if negb (contains (b "?.") (default [] (parts !! 2))) then [bslash] else root
       | 6 => [bslash]
       | _ => root
       end.

Definition names (f : Flavor) (rest : text) : list text :=
  filter (λ p, p ≠ [] ∧ p ≠ [dot]) (split (sep f) rest).

Definition parse (f : Flavor) (path : text) : PurePath :=
  match f with
  | Posix => let '(d, r, rest) := split_posix_root path in mkPath f d r (names f rest)
  | Windows =>
      let '(d, r, rest) := split_windows_root (replace slash bslash path) in
      mkPath f d (windows_root d r) (names f rest)
  end.
Definition posix : text → PurePath := parse Posix.
Definition windows : text → PurePath := parse Windows.

Definition is_absolute (p : PurePath) : bool :=
  match flavor p with
  | Posix => negb (bool_decide (root p = []))
  | Windows => negb (bool_decide (drive p = [])) && negb (bool_decide (root p = []))
  end.
Definition separator (p : PurePath) : ascii := sep (flavor p).

(** [Display] *)
Definition display (p : PurePath) : text :=
  if bool_decide (drive p = []) && bool_decide (root p = []) && bool_decide (parts p = []) then [dot]
  else drive p ++ root p ++ join (sep (flavor p)) (parts p).

Definition as_posix (p : PurePath) : text := replace bslash slash (display p).

Definition posix_join (path segment : text) : text :=
  if starts_with slash segment then segment
  else if bool_decide (path = []) || ends_with slash path then path ++ segment
  else path ++ slash :: segment.

Section unicode.
Context `{Unicode}.

Definition windows_join (path segment : text) : text :=
  let '(drive, root, rest) := split_windows_root path in
  let '(seg_drive, seg_root, seg_rest) := split_windows_root segment in
  if negb (bool_decide (seg_root = [])) then
    (if bool_decide (seg_drive = []) then drive else seg_drive) ++ seg_root ++ seg_rest
  else if negb (bool_decide (seg_drive = [])) && negb (bool_decide (to_lowercase seg_drive = to_lowercase drive))
  then segment
  else
    let drive := if bool_decide (seg_drive = []) then drive else seg_drive in
    let rest := if negb (bool_decide (rest = [])) && negb (ends_with bslash rest) then rest ++ [bslash] else rest in
    let rest := rest ++ seg_rest in
    let root := if bool_decide (root = []) && negb (bool_decide (rest = []))
                   && negb (bool_decide (drive = [])) && negb (ends_with colon drive) && negb (ends_with bslash drive)
                then [bslash] else root in
    drive ++ root ++ rest.

Definition path_join (p : PurePath) (segment : text) : PurePath :=
  let path := display p in
  parse (flavor p)
    match flavor p with
    | Posix => posix_join path segment
    | Windows => windows_join path (replace slash bslash segment)
    end.

Definition normcase (p : PurePath) : text :=
  match flavor p with Posix => display p | Windows => to_lowercase (display p) end.
Definition path_eqb (p q : PurePath) : bool :=
  bool_decide (flavor p = flavor q) && bool_decide (normcase p = normcase q).
End unicode.

Definition parent (p : PurePath) : PurePath :=
  mkPath (flavor p) (drive p) (root p) (removelast (parts p)).
Definition name (p : PurePath) : text := default [] (last (parts p)).
(** On a posix host. *)
Definition to_path_buf (p : PurePath) : text :=
  match flavor p with Windows => as_posix p | Posix => display p end.

(** ** Splitting and joining *)

Section splitting.
Implicit Types (t u : text) (c : ascii) (l : list text).

Lemma starts_with_cons c x t : starts_with c (x :: t) = bool_decide (x = c).
Proof. done. Qed.
Lemma starts_with_app c t u : t ≠ [] → starts_with c (t ++ u) = starts_with c t.
Proof. by destruct t. Qed.

Lemma split_cons c t : ∃ p ps, split c t = p :: ps.
Proof.
  induction t as [|x t (p & ps & IH)]; simpl; [eauto|]. rewrite IH. case_decide; eauto.
Qed.
Lemma split_app c t u : split c (t ++ c :: u) = split c t ++ split c u.
Proof.
  induction t as [|x t IH]; simpl; [by rewrite decide_True|]. rewrite IH. case_decide; [done|].
  by destruct (split_cons c t) as (p & ps & ->).
Qed.
Lemma split_none c t : c ∉ t → split c t = [t].
Proof.
  induction t as [|x t IH]; simpl; [done|]. intros [Hx Ht]%not_elem_of_cons.
  rewrite decide_False by done. by rewrite IH.
Qed.
Lemma split_pieces c t p : p ∈ split c t → c ∉ p.
Proof.
  revert p. induction t as [|x t IH]; simpl; intros p.
  - intros ->%list_elem_of_singleton. apply not_elem_of_nil.
  - destruct (split_cons c t) as (q & qs & Hs). rewrite Hs in *. case_decide as Hx.
    + intros [->|Hp]%elem_of_cons; [apply not_elem_of_nil|by apply IH].
    + intros [->|Hp]%elem_of_cons; [|apply IH; by right].
      intros [|Hc]%elem_of_cons; [done|]. by apply (IH q); [left|].
Qed.
Lemma split_join c l : l ≠ [] → Forall (λ p, c ∉ p) l → split c (join c l) = l.
Proof.
  induction l as [|p [|q l] IH]; [done| |]; intros _ Hl; apply Forall_cons in Hl as [Hp Hl].
  - by apply split_none.
  - change (join c (p :: q :: l)) with (p ++ c :: join c (q :: l)).
    rewrite split_app, split_none, IH by done. done.
Qed.

(** A name of a path. *)
Definition proper (f : Flavor) (p : text) : Prop := p ≠ [] ∧ p ≠ [dot] ∧ sep f ∉ p.

Lemma names_proper f t : Forall (proper f) (names f t).
Proof.
  apply Forall_forall. intros p [[H1 H2] Hp]%list_elem_of_filter. split_and!; [done|done|].
  by eapply split_pieces.
Qed.
Lemma names_app f t u : names f (t ++ sep f :: u) = names f t ++ names f u.
Proof. unfold names. by rewrite split_app, filter_app. Qed.
Lemma names_nil f : names f [] = [].
Proof. done. Qed.
Lemma names_join f l : Forall (proper f) l → names f (join (sep f) l) = l.
Proof.
  intros Hl. destruct l as [|p l]; [done|]. unfold names. rewrite split_join; [|done|].
  - apply filter_id. intros x Hx. rewrite Forall_forall in Hl. by destruct (Hl x Hx) as (? & ? & _).
  - eapply Forall_impl; [done|]. by intros x (_ & _ & ?).
Qed.

Lemma join_head f p l : proper f p → ∃ x t, join (sep f) (p :: l) = x :: t ∧ x ≠ sep f.
Proof.
  intros (Hne & _ & Hs). destruct p as [|x p]; [done|]. exists x.
  assert (x ≠ sep f) by (intros ->; apply Hs; left). destruct l as [|q l]; simpl; eauto.
Qed.
Lemma join_start f l : Forall (proper f) l → starts_with (sep f) (join (sep f) l) = false.
Proof.
  intros Hl. destruct l as [|p l]; [done|]. apply Forall_cons in Hl as [Hp _].
  destruct (join_head f p l Hp) as (x & t & -> & Hx). simpl. by apply bool_decide_eq_false_2.
Qed.
Lemma join_end f l : Forall (proper f) l → ends_with (sep f) (join (sep f) l) = false.
Proof.
  induction l as [|p [|q l] IH]; intros Hl; [done| |].
  - simpl. apply Forall_cons in Hl as [(Hne & _ & Hs) _]. unfold ends_with. destruct (last p) as [x|] eqn:Hlast; [|done].
    apply bool_decide_eq_false_2. intros ->. apply Hs. by apply last_Some_elem_of.
  - apply Forall_cons in Hl as [Hp Hl]. specialize (IH Hl).
    change (join (sep f) (p :: q :: l)) with (p ++ sep f :: join (sep f) (q :: l)).
    apply Forall_cons in Hl as [Hq Hl]. destruct (join_head f q l Hq) as (x & t & Hj & _). rewrite Hj in *.
    unfold ends_with in *. by rewrite (last_app_cons p (x :: t) (sep f)), last_cons_cons.
Qed.
Lemma join_nil f l : Forall (proper f) l → join (sep f) l = [] → l = [].
Proof.
  intros Hl Hj. destruct l as [|p l]; [done|]. apply Forall_cons in Hl as [Hp _].
  destruct (join_head f p l Hp) as (x & t & He & _). by rewrite He in Hj.
Qed.
End splitting.

(** ** Posix paths *)

Section posix_paths.
Context `{Unicode}.
Implicit Types (t u r : text) (p : PurePath).

Definition posix_root r : Prop := r = [] ∨ r = [slash] ∨ r = [slash; slash].

Lemma split_posix t r :
  posix_root r → starts_with slash t = false → split_posix_root (r ++ t) = ([], r, t).
Proof.
  intros [->|[->| ->]] Ht; destruct t as [|x t]; try done;
    simpl in Ht; apply bool_decide_eq_false in Ht; unfold slash in Ht; simpl.
  - destruct x as [[] [] [] [] [] [] [] []]; try done; by destruct Ht.
  - rewrite decide_False by done. destruct x as [[] [] [] [] [] [] [] []]; try done; by destruct Ht.
  - by rewrite bool_decide_eq_false_2.
Qed.

Lemma trim_start_names f t : names f (trim_start (sep f) t) = names f t.
Proof.
  induction t as [|x t IH]; simpl; [done|]. case_decide as Hx; [|done]. subst x.
  rewrite IH. symmetry. apply (names_app f []).
Qed.
Lemma trim_start_starts c t : starts_with c (trim_start c t) = false.
Proof. induction t as [|x t IH]; simpl; [done|]. case_decide; [done|]. simpl. by apply bool_decide_eq_false_2. Qed.

(** What parsing yields. *)
Record posix_ok p : Prop := {
  po_flavor : flavor p = Posix;
  po_drive : drive p = [];
  po_root : posix_root (root p);
  po_parts : Forall (proper Posix) (parts p);
}.

Lemma posix_parsed t : ∃ r u, posix_root r ∧ starts_with slash u = false ∧ split_posix_root t = ([], r, u).
Proof.
  destruct t as [|x t]; [by exists [], []; repeat split; left|].
  destruct (decide (x = slash)) as [->|Hx].
  - destruct t as [|y t]; [by exists [slash], []; split_and!; [right; left| |]|].
    destruct (decide (y = slash)) as [->|Hy].
    + simpl. destruct (starts_with slash t) eqn:Ht.
      * exists [slash], (trim_start slash t). split_and!; [by right; left|apply trim_start_starts|done].
      * exists [slash; slash], t. split_and!; [by right; right|done|done].
    + exists [slash], (y :: t). split_and!; [by right; left|simpl; by apply bool_decide_eq_false_2|].
      apply (split_posix (y :: t) [slash]); [by right; left|simpl; by apply bool_decide_eq_false_2].
  - exists [], (x :: t). split_and!; [by left|simpl; by apply bool_decide_eq_false_2|].
    apply (split_posix (x :: t) []); [by left|simpl; by apply bool_decide_eq_false_2].
Qed.

Lemma posix_is_ok t : posix_ok (posix t).
Proof.
  destruct (posix_parsed t) as (r & u & Hr & _ & Hs). unfold posix, parse. rewrite Hs.
  constructor; simpl; [done|done|done|apply names_proper].
Qed.

Lemma posix_of_root r t : posix_root r → starts_with slash t = false →
  posix (r ++ t) = mkPath Posix [] r (names Posix t).
Proof. intros Hr Ht. unfold posix, parse. by rewrite split_posix. Qed.

Lemma posix_display p : posix_ok p → posix (display p) = p.
Proof.
  intros [Hf Hd Hr Hp]. destruct p as [f d r l]; simpl in *; subst f d. unfold display. simpl.
  destruct (bool_decide (r = []) && bool_decide (l = [])) eqn:He.
  - apply andb_true_iff in He as [->%bool_decide_eq_true ->%bool_decide_eq_true]. done.
  - rewrite posix_of_root by (done || by apply (join_start Posix)). by rewrite (names_join Posix).
Qed.

(** Printing and parsing: a posix path prints as a text that parses to the same path. *)
Theorem posix_round_trip t : posix (display (posix t)) = posix t.
Proof. apply posix_display, posix_is_ok. Qed.

Lemma posix_joins t segment :
  path_join (posix t) segment =
    if starts_with slash segment then posix segment
    else mkPath Posix [] (root (posix t)) (parts (posix t) ++ parts (posix segment)).
Proof.
  pose proof (posix_is_ok t) as [Hf Hd Hr Hp]. unfold path_join. rewrite Hf.
  change (parse Posix) with posix. unfold posix_join. destruct (starts_with slash segment) eqn:Hs; [done|].
  assert (parts (posix segment) = names Posix segment) as ->.
  { pose proof (posix_of_root [] segment (or_introl eq_refl) Hs) as Hseg. simpl in Hseg. by rewrite Hseg. }
  set (l := parts (posix t)) in *. set (r := root (posix t)) in *.
  unfold display. rewrite Hd, Hf. fold l r. simpl.
  destruct (decide (l = [])) as [Hl|Hl].
  - rewrite Hl. simpl. rewrite app_nil_r. destruct Hr as [Hr|[Hr|Hr]]; rewrite Hr; simpl.
    + pose proof (posix_of_root [] (dot :: slash :: segment) (or_introl eq_refl) eq_refl) as He.
      exact He.
    + change (slash :: segment) with ([slash] ++ segment). by rewrite posix_of_root by (done || by right; left).
    + change (slash :: slash :: segment) with ([slash; slash] ++ segment).
      by rewrite posix_of_root by (done || by right; right).
  - rewrite (bool_decide_eq_false_2 (l = [])), andb_false_r by done.
    assert (join slash l ≠ []) as Hj by (intros Hj; by apply (join_nil Posix) in Hj).
    rewrite bool_decide_eq_false_2 by (by intros [_ ?]%app_eq_nil). simpl.
    assert (ends_with slash (r ++ join slash l) = false) as ->.
    { pose proof (join_end Posix l Hp) as He. unfold ends_with in *. rewrite last_app. simpl in He.
      destruct (last (join slash l)) eqn:Hla; [done|by apply last_None in Hla]. }
    rewrite <- app_assoc. rewrite posix_of_root; [|done|].
    + f_equal. change slash with (sep Posix) at 1 2. rewrite names_app, names_join by done. done.
    + rewrite starts_with_app by done. exact (join_start Posix l Hp).
Qed.

(** Joining: an absolute segment replaces the path, any other adds its names. *)
Theorem posix_join_spec t segment :
  path_join (posix t) segment =
    if starts_with slash segment then posix segment
    else mkPath Posix [] (root (posix t)) (parts (posix t) ++ parts (posix segment)).
Proof. apply posix_joins. Qed.
End posix_paths.

(** ** URIs and [PathInfo] *)

Definition generate_directory_uri (directory_path : PurePath) : text :=
  let path := as_posix directory_path in
  let sl := if starts_with slash path then [] else [slash] in
  b "file://localhost" ++ sl ++ path ++ [slash].

(** The last byte is a slash. *)
Definition slashed (uri : text) : text := if ends_with slash uri then uri else uri ++ [slash].

Definition base_directory_uri (uri : option text) (base_directory_path : PurePath) : text :=
  slashed (default (generate_directory_uri base_directory_path) uri).

Definition scheme_char (c : ascii) : bool :=
  is_alpha c || is_digit c || bool_decide (c ∈ ["+"; "-"; "."]%char).

(** The network location and the path of what follows [://]. *)
Definition netloc_path (rest : text) : nat * text :=
  let netloc_end := default (length rest) (find_any ["/"; "?"; "#"]%char rest) in
  let tail := drop netloc_end rest in
  (netloc_end, take (default (length tail) (find_any ["?"; "#"]%char tail)) tail).

Definition has_scheme_netloc_path (uri : text) : bool :=
  match split_once colon uri with
  | None => false
  | Some (scheme, rest) =>
      let scheme_ok := match scheme with c :: _ => is_alpha c | [] => false end
                       && forallb scheme_char scheme in
      match strip_prefix (b "//") rest with
      | None => false
      | Some rest =>
          let '(netloc_end, path) := netloc_path rest in
          scheme_ok && (0 <? netloc_end) && negb (bool_decide (path = []))
      end
  end.

Record PathInfo := mkPathInfo {
  directory_path : PurePath;
  pi_filename : text;
  create_dir_depth : Z;
  directory_uri : text;
}.

Section providers.
Context `{JsonNumber} `{Unicode}.

Definition path_info_new (directory_path : PurePath) (filename : text) (depth : Z)
    (directory_uri : option text) : Result PathInfo BsrsError :=
  if negb (is_absolute directory_path) then
    Err (InvalidValue ("directory_path must be an absolute path, got " +:+ str (display directory_path)))
  else
    match directory_uri with
    | None => Ok (mkPathInfo directory_path filename depth (generate_directory_uri directory_path))
    | Some uri =>
        let uri := slashed uri in
        if negb (has_scheme_netloc_path uri) then
          Err (InvalidValue ("Directory URI must include a scheme, netlocation, and path. Got: " +:+ str uri))
        else Ok (mkPathInfo directory_path filename depth uri)
    end.

(** ** Names of files *)

(** A [FilenameProvider]: its state and what it answers for a data key. *)
Record FilenameProvider := mkNames {
  fn_state : Type;
  filename : option text → fn_state → Result text BsrsError * fn_state;
}.

Definition static_filename (filename : text) : FilenameProvider :=
  mkNames unit (λ _ s, (Ok filename, s)).

(** [uuid_call n]: what its function returns at its [n]th call. *)
Definition uuid_filename (uuid_call : nat → text) : FilenameProvider :=
  mkNames nat (λ _ n, (Ok (uuid_call n), S n)).

Record AutoIncrement := mkAutoIncrement {
  base_filename : text; max_digits : nat; increment : Z; inc_delimiter : text;
}.
Definition auto_increment_new (base_filename : text) : AutoIncrement * Z :=
  (mkAutoIncrement base_filename 5 1 [underscore], 0%Z).
Definition with_max_digits (n : nat) (p : AutoIncrement * Z) : AutoIncrement * Z :=
  (mkAutoIncrement (base_filename p.1) n (increment p.1) (inc_delimiter p.1), p.2).
Definition with_starting_value (v : Z) (p : AutoIncrement * Z) : AutoIncrement * Z := (p.1, v).
Definition with_increment (i : Z) (p : AutoIncrement * Z) : AutoIncrement * Z :=
  (mkAutoIncrement (base_filename p.1) (max_digits p.1) i (inc_delimiter p.1), p.2).
Definition with_inc_delimiter (d : text) (p : AutoIncrement * Z) : AutoIncrement * Z :=
  (mkAutoIncrement (base_filename p.1) (max_digits p.1) (increment p.1) d, p.2).

Definition auto_increment_filename (a : AutoIncrement) (current : Z) : Result text BsrsError * Z :=
  if max_digits a <? length (dec current) then
    (Err (InvalidValue ("Auto incrementing filename counter exceeded maximum of "
            +:+ pretty (max_digits a) +:+ " digits!")), current)
  else (Ok (base_filename a ++ inc_delimiter a ++ pad (max_digits a) current),
        wrap64 (current + increment a)).
Definition auto_increment (a : AutoIncrement) : FilenameProvider :=
  mkNames Z (λ _ current, auto_increment_filename a current).

(** ** Directories *)

Record StaticPath := mkStatic {
  sp_directory_path : PurePath; sp_directory_uri : option text; sp_create_dir_depth : Z;
}.
(** An empty URI is none. *)
Definition some_uri (uri : text) : option text := if bool_decide (uri = []) then None else Some uri.
Definition static_new (p : PurePath) : StaticPath := mkStatic p None 0.
Definition with_directory_uri (uri : text) (s : StaticPath) : StaticPath :=
  mkStatic (sp_directory_path s) (some_uri uri) (sp_create_dir_depth s).
Definition static_with_create_dir_depth (d : Z) (s : StaticPath) : StaticPath :=
  mkStatic (sp_directory_path s) (sp_directory_uri s) d.

Definition static_path_info (fp : FilenameProvider) (s : StaticPath) (datakey_name : option text)
    (st : fn_state fp) : Result PathInfo BsrsError * fn_state fp :=
  match filename fp datakey_name st with
  | (Err e, st) => (Err e, st)
  | (Ok filename, st) =>
      (path_info_new (sp_directory_path s) filename (sp_create_dir_depth s) (sp_directory_uri s), st)
  end.

Record AutoIncrementingPath := mkIncPath {
  ip_base : PurePath; ip_base_uri : option text; ip_create_dir_depth : Z; ip_max_digits : nat;
  num_calls_per_inc : Z; ip_increment : Z; ip_delimiter : text; ip_base_name : option text;
}.
Record DirCounter := mkCounter { current_value : Z; calls_since_inc : Z }.
Definition auto_incrementing_new (base : PurePath) : AutoIncrementingPath * DirCounter :=
  (mkIncPath base None 0 5 1 1 [underscore] None, mkCounter 0 0).

(** The counter's directory for this call, the counter for the next. *)
Definition count_dir (p : AutoIncrementingPath) (c : DirCounter) : text * DirCounter :=
  let padded := pad (ip_max_digits p) (current_value c) in
  let calls := wrap64 (calls_since_inc c + 1) in
  (padded,
   if (calls =? num_calls_per_inc p)%Z then mkCounter (wrap64 (current_value c + ip_increment p)) 0
   else mkCounter (current_value c) calls).

Definition auto_incrementing_path_info (fp : FilenameProvider) (p : AutoIncrementingPath)
    (datakey_name : option text) (st : fn_state fp * DirCounter)
    : Result PathInfo BsrsError * (fn_state fp * DirCounter) :=
  match filename fp datakey_name st.1 with
  | (Err e, s) => (Err e, (s, st.2))
  | (Ok filename, s) =>
      let '(padded, c) := count_dir p st.2 in
      let dir_name := match ip_base_name p, datakey_name with
                      | Some base, _ => base ++ ip_delimiter p ++ padded
                      | None, Some key => key ++ ip_delimiter p ++ padded
                      | None, None => padded
                      end in
      (path_info_new (path_join (ip_base p) dir_name) filename (ip_create_dir_depth p)
         (Some (base_directory_uri (ip_base_uri p) (ip_base p) ++ dir_name)), (s, c))
  end.

Record YmdPath := mkYmd {
  yp_base : PurePath; yp_base_uri : option text; yp_create_dir_depth : Z;
  datakey_name_as_base_dir : bool;
}.
Definition ymd_new (base : PurePath) : YmdPath := mkYmd base None (-3) false.

(** [local fmt] is the local date in a format. *)
Definition ymd_path_info (local : text → text) (fp : FilenameProvider) (p : YmdPath)
    (datakey_name : option text) (st : fn_state fp) : Result PathInfo BsrsError * fn_state fp :=
  let base := yp_base p in
  let sp := separator base in
  let date := local (b "%Y" ++ sp :: b "%m" ++ sp :: b "%d") in
  let relative := parse (flavor base) in
  let ymd_dir := match datakey_name with
                 | None => date
                 | Some key => if datakey_name_as_base_dir p then display (path_join (relative date) key)
                               else display (path_join (relative key) date)
                 end in
  match filename fp datakey_name st with
  | (Err e, st) => (Err e, st)
  | (Ok filename, st) =>
      (path_info_new (path_join base ymd_dir) filename (yp_create_dir_depth p)
         (Some (base_directory_uri (yp_base_uri p) base ++ ymd_dir)), st)
  end.

(** ** Numbered directories on disk *)

(** A directory entry: its name if that is UTF-8, its path, and whether it is a directory. *)
Record Entry := mkEntry { e_name : option text; e_path : text; e_is_dir : bool }.

(** What the file system answers; an error is its text. *)
Record FileSystem := mkFs {
  read_dir : text → Result (list (Result Entry string)) string;
  path_exists : text → bool;
}.

Definition io_error (path : text) (err : string) : BsrsError := Backend (str path +:+ ": " +:+ err).

Definition dir_number (e : Entry) : option Z :=
  if e_is_dir e then
    '(digits, _) ← e_name e ≫= split_once underscore;
    if negb (bool_decide (digits = [])) && forallb is_digit digits then parse_u64 digits else None
  else None.

(** [Option::max] *)
Definition opt_max (x y : option Z) : option Z :=
  match x, y with Some x, Some y => Some (Z.max x y) | Some x, None => Some x | None, y => y end.

Fixpoint highest_of (path : text) (l : list (Result Entry string)) (highest : option Z)
    : Result (option Z) BsrsError :=
  match l with
  | [] => Ok highest
  | Err e :: _ => Err (io_error path e)
  | Ok e :: l => highest_of path l (if e_is_dir e then opt_max highest (dir_number e) else highest)
  end.
Definition highest_numbered_dir (fs : FileSystem) (path : text) : Result (option Z) BsrsError :=
  match read_dir fs path with
  | Err e => Err (io_error path e)
  | Ok l => highest_of path l None
  end.

Definition is_date_dir_name (name : text) : bool :=
  (length name =? 10)
  && forallb (λ '(i, c), if (i =? 4) || (i =? 7) then bool_decide (c = "-"%char) else is_digit c)
       (zip (seq 0 (length name)) name).

Record AutoMax := mkAutoMax { am_max_digits : nat; dated : bool }.
Definition auto_max_new : AutoMax * Z := (mkAutoMax 4 false, 0%Z).

(** The numbers of the other days' directories. *)
Fixpoint past_days (fs : FileSystem) (base_dir : text) (l : list (Result Entry string)) (next : Z)
    : Result unit BsrsError * Z :=
  match l with
  | [] => (Ok (), next)
  | Err e :: _ => (Err (io_error base_dir e), next)
  | Ok e :: l =>
      if match e_name e with Some n => is_date_dir_name n | None => false end then
        match highest_numbered_dir fs (e_path e) with
        | Err x => (Err x, next)
        | Ok None => past_days fs base_dir l next
        | Ok (Some highest) => past_days fs base_dir l (Z.max next (wrap64 (highest + 1)))
        end
      else past_days fs base_dir l next
  end.

(** The number of the next directory in [path], and the value kept after it. *)
Definition take_number (fs : FileSystem) (path : text) (next : Z) : Result Z BsrsError * Z :=
  let value := if path_exists fs path then
                 match highest_numbered_dir fs path with
                 | Err e => Err e
                 | Ok h => Ok (match h with Some h => wrap64 (h + 1) | None => next end)
                 end
               else Ok next in
  match value with
  | Err e => (Err e, next)
  | Ok value => (Ok value, wrap64 (value + 1))
  end.

Definition auto_max_dir (width : nat) (path : text) (value : Z) (filename : text) : PurePath :=
  path_join (path_join (posix path) (pad width value ++ underscore :: trim underscore filename))
    (trim_end underscore filename).

(** [base] is what the base provider answered. *)
Definition auto_max_path_info (fs : FileSystem) (today : text) (a : AutoMax)
    (base : Result PathInfo BsrsError) (next : Z) : Result PathInfo BsrsError * Z :=
  match base with
  | Err e => (Err e, next)
  | Ok base =>
      let base_dir := to_path_buf (directory_path base) in
      let '(seen, next) :=
        if dated a then match read_dir fs base_dir with
                        | Err e => (Err (io_error base_dir e), next)
                        | Ok l => past_days fs base_dir l next
                        end
        else (Ok (), next) in
      match seen with
      | Err e => (Err e, next)
      | Ok _ =>
          let path := if dated a then posix_join base_dir today else base_dir in
          match take_number fs path next with
          | (Err e, next) => (Err e, next)
          | (Ok value, next) =>
              let full_path := auto_max_dir (am_max_digits a) path value (pi_filename base) in
              (path_info_new (parent full_path) (name full_path) 0 None, next)
          end
      end
  end.
End providers.

(** ** What the providers promise *)

Section promises.
Context `{JsonNumber} `{Unicode}.
Implicit Types (t u : text).

Lemma ends_with_snoc c t : ends_with c (t ++ [c]) = true.
Proof. unfold ends_with. rewrite last_snoc. by apply bool_decide_eq_true. Qed.
Lemma slashed_ends t : ends_with slash (slashed t) = true.
Proof. unfold slashed. destruct (ends_with slash t) eqn:He; [done|apply ends_with_snoc]. Qed.

Lemma find_any_head cs x t : x ∉ cs → find_any cs (x :: t) = S <$> find_any cs t.
Proof. intros Hx. simpl. by rewrite decide_False. Qed.

Lemma generated_uri_ok p : has_scheme_netloc_path (generate_directory_uri p) = true.
Proof.
  unfold generate_directory_uri. set (path := as_posix p).
  assert (∃ t, (if starts_with slash path then [] else [slash]) ++ path ++ [slash] = slash :: t) as [t Ht].
  { destruct (starts_with slash path) eqn:Hs; [|simpl; eauto]. destruct path as [|x t]; [done|].
    simpl in Hs. apply bool_decide_eq_true in Hs as ->. simpl. eauto. }
  rewrite Ht. unfold has_scheme_netloc_path.
  change (split_once colon (b "file://localhost" ++ slash :: t)) with (Some (b "file", b "//localhost" ++ slash :: t)).
  cbv beta iota. change (strip_prefix (b "//") (b "//localhost" ++ slash :: t)) with (Some (b "localhost" ++ slash :: t)).
  cbv beta iota. unfold netloc_path.
  change (find_any ["/"; "?"; "#"]%char (b "localhost" ++ slash :: t)) with (Some 9). cbn [default].
  change (id 9) with 9. change (drop 9 (b "localhost" ++ slash :: t)) with (slash :: t).
  rewrite find_any_head by (unfold slash; set_solver). by destruct (find_any _ t).
Qed.

(** A [PathInfo] is only built for an absolute directory, and its URI ends in a slash and has
    a scheme, a host and a path; it is refused exactly where the directory is relative or the
    URI given lacks one of these. *)
Theorem path_info_checked p filename depth uri :
  match path_info_new p filename depth uri with
  | Ok i => directory_path i = p ∧ pi_filename i = filename ∧ create_dir_depth i = depth
            ∧ is_absolute p = true
            ∧ ends_with slash (directory_uri i) = true ∧ has_scheme_netloc_path (directory_uri i) = true
  | Err _ => is_absolute p = false
             ∨ ∃ u, uri = Some u ∧ has_scheme_netloc_path (slashed u) = false
  end.
Proof.
  unfold path_info_new. destruct (is_absolute p); [|by left]. simpl. destruct uri as [u|].
  - destruct (has_scheme_netloc_path (slashed u)) eqn:Hu; simpl; [|by right; eauto].
    split_and!; try done. apply slashed_ends.
  - split_and!; try done; [|apply generated_uri_ok]. unfold generate_directory_uri. simpl.
    rewrite !app_assoc. unfold ends_with. rewrite !app_comm_cons, last_snoc. by apply bool_decide_eq_true.
Qed.

(** *** Decimal numbers *)

Lemma dec_value_app t u : dec_value (t ++ u) = foldl (λ z c, 10 * z + (Z.of_nat (nat_of_ascii c) - 48))%Z (dec_value t) u.
Proof. unfold dec_value. apply foldl_app. Qed.

Lemma pretty_char x : (x < 10)%N → Z.of_nat (nat_of_ascii (pretty_N_char x)) = (48 + Z.of_N x)%Z
  ∧ is_digit (pretty_N_char x) = true.
Proof.
  intros Hx. assert (x = 0 ∨ x = 1 ∨ x = 2 ∨ x = 3 ∨ x = 4 ∨ x = 5 ∨ x = 6 ∨ x = 7 ∨ x = 8 ∨ x = 9)%N as Hc by lia.
  by repeat destruct Hc as [->|Hc]; [..|subst].
Qed.

Lemma pretty_go x s t :
  b s = t → ∃ p, b (pretty_N_go x s) = p ++ t ∧ dec_value p = Z.of_N x ∧ forallb is_digit p = true.
Proof.
  revert s t. induction (N.lt_wf_0 x) as [x _ IH]. intros s t Hs. destruct (decide (0 < x)%N) as [Hx|Hx].
  - rewrite pretty_N_go_step by done.
    destruct (IH (x `div` 10)%N ltac:(apply N.div_lt; lia) (String (pretty_N_char (x `mod` 10)) s)
                (pretty_N_char (x `mod` 10) :: t)) as (p & Hp & Hv & Hd); [simpl; by rewrite <- Hs|].
    exists (p ++ [pretty_N_char (x `mod` 10)]). rewrite <- app_assoc. split; [done|].
    destruct (pretty_char (x `mod` 10)) as [Hc Hdc]; [by apply N.mod_lt|].
    rewrite dec_value_app, Hv, forallb_app, Hd. simpl. rewrite Hc, Hdc. split; [|done].
    pose proof (N.div_mod x 10 ltac:(done)). lia.
  - assert (x = 0)%N as -> by lia. exists []. by rewrite pretty_N_go_0.
Qed.

Lemma dec_spec n : (0 ≤ n)%Z → dec_value (dec n) = n ∧ forallb is_digit (dec n) = true ∧ dec n ≠ [].
Proof.
  intros Hn. unfold dec. destruct (decide (n = 0)%Z) as [->|Hz]; [done|].
  unfold pretty, pretty_N. rewrite decide_False by lia.
  destruct (pretty_go (Z.to_N n) "" [] eq_refl) as (p & Hp & Hv & Hd). rewrite Hp, app_nil_r.
  rewrite Hv. split_and!; [lia|done|]. intros ->. unfold dec_value in Hv. simpl in Hv. lia.
Qed.

Lemma dec_value_zeros k t : dec_value (replicate k "0"%char ++ t) = dec_value t.
Proof. induction k as [|k IH]; [done|]. exact IH. Qed.
Lemma pad_spec w n : (0 ≤ n)%Z →
  dec_value (pad w n) = n ∧ forallb is_digit (pad w n) = true ∧ pad w n ≠ []
  ∧ length (pad w n) = Nat.max w (length (dec n)).
Proof.
  intros Hn. destruct (dec_spec n Hn) as (Hv & Hd & Hne). unfold pad. split_and!.
  - by rewrite dec_value_zeros.
  - rewrite forallb_app, Hd, andb_true_r. by induction (w - length (dec n)).
  - by intros [_ ?]%app_eq_nil.
  - rewrite length_app, length_replicate. lia.
Qed.
Lemma pad_inj w n m : (0 ≤ n)%Z → (0 ≤ m)%Z → pad w n = pad w m → n = m.
Proof.
  intros Hn Hm Hp. destruct (pad_spec w n Hn) as [<- _]. destruct (pad_spec w m Hm) as [<- _]. by rewrite Hp.
Qed.

(** *** Counters *)

(** The answers of a provider to a sequence of calls. *)
Fixpoint answers (fp : FilenameProvider) (keys : list (option text)) (st : fn_state fp)
    : list (Result text BsrsError) :=
  match keys with
  | [] => []
  | key :: keys => let '(r, st) := filename fp key st in r :: answers fp keys st
  end.

(** The [i]th counter value, its name, and what is said when there are no digits left. *)
Definition nth_value (a : AutoIncrement) (c : Z) (i : nat) : Z := (c + Z.of_nat i * increment a)%Z.
Definition nth_name (a : AutoIncrement) (c : Z) (i : nat) : text :=
  base_filename a ++ inc_delimiter a ++ pad (max_digits a) (nth_value a c i).
Definition exceeded (a : AutoIncrement) : BsrsError :=
  InvalidValue ("Auto incrementing filename counter exceeded maximum of "
    +:+ pretty (max_digits a) +:+ " digits!").

Lemma answers_stuck a keys c :
  max_digits a < length (dec c) →
  answers (auto_increment a) keys c = replicate (length keys) (Err (exceeded a)).
Proof.
  intros Hd. induction keys as [|key keys IH]; [done|]. simpl. unfold auto_increment_filename.
  rewrite (proj2 (Nat.ltb_lt _ _) Hd). simpl. by rewrite IH.
Qed.

Lemma nth_value_next a c i :
  in_u64 (c + increment a) → nth_value a (wrap64 (c + increment a)) i = nth_value a c (S i).
Proof. intros Hc. unfold nth_value. rewrite wrap64_small by done. lia. Qed.

(** An auto-incrementing provider names files [base delimiter number], the numbers
    increasing and padded to one width, so that no two files have a name; where the number
    has outgrown the width every further call is refused. *)
Theorem auto_increment_names a c keys :
  (0 ≤ c)%Z → (0 < increment a)%Z → (c + Z.of_nat (length keys) * increment a ≤ u64_max)%Z →
  ∃ k, k ≤ length keys
    ∧ answers (auto_increment a) keys c
      = (Ok ∘ nth_name a c <$> seq 0 k) ++ replicate (length keys - k) (Err (exceeded a))
    ∧ (k < length keys → max_digits a < length (dec (nth_value a c k)))
    ∧ NoDup (nth_name a c <$> seq 0 k)
    ∧ ∀ i, i < k → length (nth_name a c i) = length (base_filename a) + length (inc_delimiter a) + max_digits a.
Proof.
  intros Hc Hi Hu.
  assert (∃ k, k ≤ length keys
    ∧ answers (auto_increment a) keys c
      = (Ok ∘ nth_name a c <$> seq 0 k) ++ replicate (length keys - k) (Err (exceeded a))
    ∧ (k < length keys → max_digits a < length (dec (nth_value a c k)))
    ∧ ∀ i, i < k → length (dec (nth_value a c i)) ≤ max_digits a) as (k & Hk & Ha & Hend & Hlen).
  { revert c Hc Hu. induction keys as [|key keys IH]; intros c Hc Hu; [exists 0; split_and!; [done|done|simpl; lia|lia]|].
    destruct (decide (max_digits a < length (dec c))) as [Hd|Hd].
    - exists 0. split_and!; [lia| | |lia].
      + by rewrite answers_stuck.
      + intros _. unfold nth_value. by rewrite Z.add_0_r.
    - simpl length in Hu. assert (in_u64 (c + increment a)) as Hin by (split; nia).
      destruct (IH (wrap64 (c + increment a))) as (k & Hk & Ha & Hend & Hlen); [rewrite wrap64_small by done; lia|rewrite wrap64_small by done; nia|].
      exists (S k). split_and!.
      + simpl. lia.
      + simpl answers. unfold auto_increment_filename. rewrite (proj2 (Nat.ltb_ge _ _)) by lia.
        simpl. rewrite Ha. f_equal.
        * unfold nth_name, nth_value. by rewrite Z.add_0_r.
        * f_equal. rewrite <- fmap_S_seq, <- list_fmap_compose. apply list_fmap_ext. intros _ i _. simpl.
          unfold nth_name. by rewrite nth_value_next.
      + intros Hs. rewrite <- nth_value_next by done. apply Hend. simpl in Hs. lia.
      + intros [|i] Hs; [unfold nth_value; rewrite Z.add_0_r; lia|]. rewrite <- nth_value_next by done. apply Hlen. lia. }
  exists k. split_and!; [done|done|done| |].
  - apply NoDup_fmap_2_strong; [|apply NoDup_seq]. intros i j _ _ Hij. unfold nth_name in Hij.
    apply app_inv_head, app_inv_head, pad_inj in Hij; [|unfold nth_value; nia..]. unfold nth_value in Hij. nia.
  - intros i Hik. unfold nth_name. rewrite !length_app.
    destruct (pad_spec (max_digits a) (nth_value a c i)) as (_ & _ & _ & ->); [unfold nth_value; nia|].
    specialize (Hlen i Hik). lia.
Qed.

(** The number of the directory of the [k]th call. *)
Fixpoint dirs (p : AutoIncrementingPath) (c : DirCounter) (k : nat) : list text :=
  match k with 0 => [] | S k => let '(d, c) := count_dir p c in d :: dirs p c k end.

(** Of the numbered directories the first [n] calls share the first, the next [n] the second
    and so on, [n] being the number of calls per increment. *)
Theorem directories_shared p start k i :
  (0 < num_calls_per_inc p)%Z → (num_calls_per_inc p ≤ u64_max)%Z → (0 ≤ ip_increment p)%Z → (0 ≤ start)%Z →
  (start + Z.of_nat k * ip_increment p ≤ u64_max)%Z → i < k →
  dirs p (mkCounter start 0) k !! i
  = Some (pad (ip_max_digits p) (start + Z.of_nat i / num_calls_per_inc p * ip_increment p)).
Proof.
  intros Hn Hnu Hinc Hs Hu Hi. set (n := num_calls_per_inc p) in *.
  assert (∀ m c, (0 ≤ calls_since_inc c < n)%Z → (0 ≤ current_value c)%Z →
    (current_value c + Z.of_nat m * ip_increment p ≤ u64_max)%Z → ∀ j, j < m →
    dirs p c m !! j = Some (pad (ip_max_digits p)
      (current_value c + (calls_since_inc c + Z.of_nat j) / n * ip_increment p))) as Hgen.
  { induction m as [|m IH]; intros c Hc Hv Hm j Hj; [lia|]. simpl. unfold count_dir. fold n.
    rewrite wrap64_small by (unfold in_u64; lia).
    destruct j as [|j].
    { simpl. rewrite Z.add_0_r, Z.div_small by lia. do 2 f_equal. lia. }
    simpl. destruct (Z.eqb_spec (calls_since_inc c + 1) n) as [He|He].
    - rewrite (wrap64_small (current_value c + ip_increment p)) by (split; nia).
      rewrite IH by (simpl; nia). simpl. do 2 f_equal.
      replace (calls_since_inc c + Z.of_nat (S j))%Z with (Z.of_nat j + 1 * n)%Z by lia.
      rewrite Z.div_add, Z.add_0_l by lia. lia.
    - rewrite IH by (simpl; nia). simpl. do 2 f_equal.
      do 2 f_equal. f_equal. lia. }
  rewrite Hgen by (simpl; lia). simpl. by rewrite Z.add_0_l.
Qed.

(** *** Directories on disk *)

Lemma dec_value_nonneg t : forallb is_digit t = true → (0 ≤ dec_value t)%Z.
Proof.
  induction t as [|c t IH] using rev_ind; [done|]. rewrite forallb_app, dec_value_app. simpl.
  rewrite andb_true_r. intros [Ht Hc]%andb_true_iff. specialize (IH Ht).
  unfold is_digit in Hc. apply andb_true_iff in Hc as [Hc _]. apply Nat.leb_le in Hc. lia.
Qed.

Lemma dir_number_nonneg e m : dir_number e = Some m → (0 ≤ m)%Z.
Proof.
  unfold dir_number. destruct (e_is_dir e); [|done]. intros ([digits rest] & _ & Hp)%bind_Some.
  destruct (negb _ && _) eqn:Hd; [|done]. apply andb_true_iff in Hd as [_ Hd].
  unfold parse_u64 in Hp. case_match; [|done]. injection Hp as <-. by apply dec_value_nonneg.
Qed.

Lemma highest_of_spec path l h r :
  highest_of path l h = Ok r →
  (∀ v, h = Some v → ∃ v', r = Some v' ∧ (v ≤ v')%Z)
  ∧ ∀ e v, Ok e ∈ l → dir_number e = Some v → ∃ v', r = Some v' ∧ (v ≤ v')%Z.
Proof.
  revert h. induction l as [|[e|e] l IH]; intros h; simpl; [|intros Hr|done].
  - intros [= <-]. split; [intros v Hv; eauto with lia|by intros e v ?%not_elem_of_nil].
  - destruct (IH _ Hr) as [H1 H2]. split.
    + intros v ->. destruct (e_is_dir e); [|by apply H1]. destruct (dir_number e) as [m|]; simpl in *.
      * destruct (H1 _ eq_refl) as (v' & -> & ?). exists v'. split; [done|lia].
      * by apply H1.
    + intros x v [[= ->]|Hx]%elem_of_cons Hd; [|by eapply H2].
      assert (e_is_dir e = true) as Hdir by (unfold dir_number in Hd; by destruct (e_is_dir e)).
      rewrite Hdir, Hd in *. destruct h as [m|]; simpl in *; destruct (H1 _ eq_refl) as (v' & -> & ?); exists v'; (split; [done|lia]).
Qed.

Lemma dir_number_of e v rest :
  e_is_dir e = true → (0 ≤ v ≤ u64_max)%Z → (∃ w, e_name e = Some (pad w v ++ underscore :: rest)) →
  dir_number e = Some v.
Proof.
  intros Hd Hv (w & Hn). unfold dir_number. rewrite Hd, Hn. simpl.
  destruct (pad_spec w v) as (Hval & Hdig & Hne & _); [lia|].
  assert (find underscore (pad w v ++ underscore :: rest) = Some (length (pad w v))) as Hf.
  { clear -Hdig. unfold find. induction (pad w v) as [|c t IH]; simpl in *; [done|].
    apply andb_true_iff in Hdig as [Hc Ht]. rewrite decide_False; [by rewrite IH|].
    intros ->%list_elem_of_singleton. done. }
  unfold split_once. rewrite Hf. simpl. rewrite take_app_length, Hdig, bool_decide_eq_false_2 by done. simpl.
  unfold parse_u64. rewrite Hval. by rewrite (proj2 (Z.leb_le _ _)) by lia.
Qed.

Lemma posix_proper t : proper Posix t → starts_with slash t = false ∧ parts (posix t) = [t].
Proof.
  intros Hp. pose proof (join_start Posix [t] (Forall_cons_2 _ _ _ Hp (Forall_nil_2 _))) as Hs. simpl in Hs.
  split; [done|]. pose proof (posix_of_root [] t (or_introl eq_refl) Hs) as Ht. simpl in Ht. rewrite Ht. simpl.
  exact (names_join Posix [t] (Forall_cons_2 _ _ _ Hp (Forall_nil_2 _))).
Qed.

(** The directory of a number: a name of its own under the base, and the file's name in it. *)
Lemma auto_max_dir_spec w path v filename :
  (0 ≤ v)%Z → proper Posix (trim_end underscore filename) → slash ∉ filename →
  auto_max_dir w path v filename =
  mkPath Posix [] (root (posix path))
    (parts (posix path) ++ [pad w v ++ underscore :: trim underscore filename; trim_end underscore filename]).
Proof.
  intros Hv Hp Hs. unfold auto_max_dir. set (seg := pad w v ++ underscore :: trim underscore filename).
  destruct (pad_spec w v Hv) as (_ & Hdig & Hne & _).
  assert (∀ t, slash ∉ t → slash ∉ trim_start underscore t) as Htrim.
  { induction t as [|x t IH]; simpl; [done|]. intros Hx. case_decide; [apply IH; by apply not_elem_of_cons in Hx as [_ ?]|done]. }
  assert (∀ t : text, slash ∉ t → slash ∉ rev t) as Hrev.
  { intros t Ht Hin. apply Ht. apply list_elem_of_In. apply in_rev. by apply list_elem_of_In. }
  assert (proper Posix seg) as Hseg.
  { assert (underscore ∈ seg) as Hu by (unfold seg; apply elem_of_app; right; left). split_and!.
    - intros Hn. rewrite Hn in Hu. by apply not_elem_of_nil in Hu.
    - intros Hn. rewrite Hn in Hu. by apply list_elem_of_singleton in Hu.
    - change (sep Posix) with slash. unfold seg. intros [Hin|[?|Hin]%elem_of_cons]%elem_of_app; [|done|].
      + rewrite forallb_forall in Hdig. apply list_elem_of_In, Hdig in Hin. done.
      + revert Hin. unfold trim, trim_end. apply Hrev, Htrim, Hrev, Htrim, Hs. }
  destruct (posix_proper _ Hseg) as [Hss Hsp]. destruct (posix_proper _ Hp) as [Hfs Hfp].
  pose proof (posix_joins path seg) as Hj. rewrite Hss, Hsp in Hj.
  assert (∃ t, path_join (posix path) seg = posix t) as [t Ht].
  { unfold path_join. rewrite (po_flavor _ (posix_is_ok path)). by eexists. }
  rewrite Ht in *. rewrite posix_joins, Hfs, Hfp, Hj. simpl. by rewrite <- app_assoc.
Qed.

Lemma highest_read fs path l r :
  read_dir fs path = Ok l → highest_numbered_dir fs path = Ok r →
  ∀ e m, Ok e ∈ l → dir_number e = Some m → ∃ h, r = Some h ∧ (m ≤ h)%Z.
Proof. unfold highest_numbered_dir. intros ->. intros Hr. by apply (highest_of_spec path l None r). Qed.

(** An auto-max provider numbers the directory it hands out above every numbered directory
    there is in the base directory, and so no directory there has its name. *)
Theorem new_number_is_fresh fs today a i0 next l i next' :
  dated a = false →
  let dir := to_path_buf (directory_path i0) in
  let file := trim_end underscore (pi_filename i0) in
  proper Posix file → slash ∉ pi_filename i0 →
  path_exists fs dir = true → read_dir fs dir = Ok l →
  (∀ e m, Ok e ∈ l → dir_number e = Some m → (m < u64_max)%Z) → in_u64 next →
  auto_max_path_info fs today a (Ok i0) next = (Ok i, next') →
  ∃ v nm,
    directory_path i = mkPath Posix [] (root (posix dir)) (parts (posix dir) ++ [nm])
    ∧ pi_filename i = file
    ∧ nm = pad (am_max_digits a) v ++ underscore :: trim underscore (pi_filename i0)
    ∧ (∀ e m, Ok e ∈ l → dir_number e = Some m → (m < v)%Z)
    ∧ (∀ e, Ok e ∈ l → e_is_dir e = true → e_name e ≠ Some nm).
Proof.
  intros Hd dir file Hp Hs Hex Hl Hm Hn. unfold auto_max_path_info. rewrite Hd. fold dir.
  unfold take_number. rewrite Hex. destruct (highest_numbered_dir fs dir) as [h|e] eqn:Hh; [|done].
  set (v := match h with Some h => wrap64 (h + 1) | None => next end).
  assert (in_u64 v) as Hv by (unfold v; destruct h; [apply wrap64_range|done]).
  pose proof (highest_read fs dir l h Hl Hh) as Hhigh.
  rewrite auto_max_dir_spec by (done || unfold in_u64 in Hv; lia). fold file.
  unfold path_info_new. destruct (is_absolute _); simpl; [|done]. intros [= <- <-].
  set (nm := pad (am_max_digits a) v ++ underscore :: trim underscore (pi_filename i0)).
  assert (∀ e m, Ok e ∈ l → dir_number e = Some m → (m < v)%Z) as Hlt.
  { intros e m Hin He. destruct (Hhigh e m Hin He) as (x & -> & Hx).
    assert (x < u64_max)%Z as Hxm.
    { unfold highest_numbered_dir in Hh. rewrite Hl in Hh.
      assert (∀ l' h' r, highest_of dir l' h' = Ok (Some r) → h' = Some r ∨ ∃ e, Ok e ∈ l' ∧ dir_number e = Some r) as Hfrom.
      { clear. induction l' as [|[y|y] l' IH]; intros h' r; simpl; [intros [= ->]; by left| |done].
        intros [Hr|(z & Hz & Hzn)]%IH; [|right; exists z; split; [by right|done]].
        destruct (e_is_dir y); [|by left]. destruct h' as [m|], (dir_number y) as [k|] eqn:Hk; simpl in Hr; simplify_eq; auto.
        - destruct (Z.max_spec m k) as [[_ ->]|[_ ->]]; [right; exists y; split; [left|done]|by left].
        - right. exists y. split; [left|done]. }
      destruct (Hfrom l None x Hh) as [|(y & Hy & Hyn)]; [done|by eapply Hm]. }
    unfold v. assert (0 ≤ m)%Z.
    { by eapply dir_number_nonneg. }
    rewrite wrap64_small by (split; lia). lia. }
  exists v, nm. simpl. split_and!.
  - unfold parent. simpl. f_equal. change [nm; file] with ([nm] ++ [file]). by rewrite app_assoc, removelast_last.
  - unfold name. simpl. change [nm; file] with ([nm] ++ [file]). by rewrite app_assoc, last_snoc.
  - done.
  - exact Hlt.
  - intros e Hin Hdir Hnm. assert (dir_number e = Some v) as He.
    { eapply dir_number_of; [done|exact Hv|by eexists]. }
    specialize (Hlt e v Hin He). lia.
Qed.
End promises.
(** ** Examples, and where the provider departs from what it says *)

Module UnicodeSample.
#[export] Instance sample_unicode : Unicode := {| to_lowercase := map ascii_lower |}.
End UnicodeSample.

Module PathExample.
Import Sample UnicodeSample.

Definition runs : AutoIncrement := (auto_increment_new (b "run")).1.
Lemma auto_increment_names_witness :
  answers (auto_increment runs) [None; None; None] 9%Z
  = [Ok (b "run_00009"); Ok (b "run_00010"); Ok (b "run_00011")].
Proof.
  destruct (auto_increment_names runs 9%Z [None; None; None]) as (k & Hk & -> & Hend & _); [lia|done|done|].
  destruct k as [|[|[|[|k]]]]; simpl in Hk; try lia; [exfalso..|reflexivity].
  - apply Nat.lt_nge in Hend; [|simpl; lia]. apply Hend. vm_compute. lia.
  - apply Nat.lt_nge in Hend; [|simpl; lia]. apply Hend. vm_compute. lia.
  - apply Nat.lt_nge in Hend; [|simpl; lia]. apply Hend. vm_compute. lia.
Defined.

Definition shared : AutoIncrementingPath :=
  mkIncPath (posix (b "/data")) None 0 3 2 1 [underscore] None.
Lemma directories_shared_witness : dirs shared (mkCounter 7 0) 5 !! 3 = Some (b "008").
Proof. apply (directories_shared shared 7 5 3); (done || simpl; lia). Defined.

Definition dir (n : string) : Result Entry string := Ok (mkEntry (Some (b n)) (b "/data/" ++ b n) true).
Definition fs1 : FileSystem :=
  mkFs (λ _, Ok [dir "0003_scan"; dir "notes"; dir "0012_scan"]) (λ _, true).
Definition base1 : PathInfo := mkPathInfo (posix (b "/data")) (b "scan_") 0 (b "file://localhost/data/").

Definition info1 : PathInfo :=
  mkPathInfo (posix (b "/data/0013_scan")) (b "scan") 0 (b "file://localhost/data/0013_scan/").
Lemma info1_given : auto_max_path_info fs1 [] auto_max_new.1 (Ok base1) 0 = (Ok info1, 14%Z).
Proof. reflexivity. Qed.

Lemma new_number_is_fresh_witness :
  ∃ nm, directory_path info1 = mkPath Posix [] [slash] [b "data"; nm]
    ∧ ∀ e, Ok e ∈ [dir "0003_scan"; dir "notes"; dir "0012_scan"] → e_is_dir e = true → e_name e ≠ Some nm.
Proof.
  destruct (new_number_is_fresh fs1 [] auto_max_new.1 base1 0 [dir "0003_scan"; dir "notes"; dir "0012_scan"] info1 14)
    as (v & nm & Hp & _ & _ & _ & Hfresh).
  - reflexivity.
  - split_and!; [done|done|]. by intros Hin%list_elem_of_In; repeat destruct Hin as [Hin|Hin].
  - by intros Hin%list_elem_of_In; repeat destruct Hin as [Hin|Hin].
  - reflexivity.
  - reflexivity.
  - intros e m Hin. repeat (apply elem_of_cons in Hin as [Hin|Hin]; [injection Hin as ->; intros Hd; vm_compute in Hd; (discriminate Hd || injection Hd as <-; reflexivity)|]).
    by apply not_elem_of_nil in Hin.
  - done.
  - exact info1_given.
  - by exists nm.
Defined.

(** A posix name with a backslash: the URI names another directory. *)
Theorem uri_splits_posix_names :
  let p := posix (b "/data/run\1") in
  parts p = [b "data"; b "run\1"]
  ∧ generate_directory_uri p = b "file://localhost/data/run/1/".
Proof. split; reflexivity. Qed.

(** A relative Windows path whose first name looks like a drive prints as a path on that
    drive, and joining to it leaves the current directory. *)
Theorem windows_name_becomes_drive :
  let p := windows (b ".\C:x") in
  drive p = [] ∧ parts p = [b "C:x"]
  ∧ display p = b "C:x" ∧ drive (windows (display p)) = b "C:"
  ∧ drive (path_join p (b "y")) = b "C:" ∧ parts (path_join p (b "y")) = [b "x"; b "y"].
Proof. split_and!; reflexivity. Qed.

(** The directory of a date on Windows: its URI separates the levels by backslashes. *)
Theorem windows_date_uri_has_backslashes :
  let p := ymd_new (windows (b "C:\data")) in
  let local fmt := if decide (fmt = b "%Y\%m\%d") then b "2026\05\01" else [] in
  directory_uri <$> (match (ymd_path_info local (static_filename (b "f")) p None ()).1 with
                     | Ok i => Some i | Err _ => None end)
  = Some (b "file://localhost/C:/data/2026\05\01/").
Proof. reflexivity. Qed.

(** Dated directories: today's directory is there with a number below another day's, and
    the number handed out is one another day already has. *)
Definition fs2 : FileSystem :=
  mkFs (λ p, if decide (p = b "/data") then Ok [dir "2026-05-01"; dir "2026-05-02"]
             else if decide (p = b "/data/2026-05-01") then Ok [dir "0001_scan"; dir "0002_scan"; dir "0003_scan"]
             else Ok [dir "0001_scan"])
    (λ _, true).
Theorem dated_number_is_reused :
  match auto_max_path_info fs2 (b "2026-05-02") (mkAutoMax 4 true) (Ok base1) 0 with
  | (Ok i, next) => display (directory_path i) = b "/data/2026-05-02/0002_scan" ∧ next = 3%Z
  | _ => False
  end.
Proof. vm_compute. auto. Qed.
End PathExample.
