(* ===== verification/Arrays.v ===== *)
(** * Arrays and tables ([core/ndarray.rs], [core/table.rs])

    Arrays of a numpy dtype in any shape, and tables of named columns of one length. An
    integer element is a [Z] in the range of its dtype, a float its bit pattern. *)

From Stdlib Require Import SpecFloat.
From stdpp Require Import pretty.
From S2P Require Import Prelude Interfaces Errors Documents F64.

(** ** Elements *)

Inductive IntType := TI8 | TU8 | TI16 | TU16 | TI32 | TU32 | TI64 | TU64.
#[global] Instance IntType_eq_dec : EqDecision IntType.
Proof. solve_decision. Defined.

Definition int_range (t : IntType) : Z * Z :=
  match t with
  | TI8 => (-128, 127) | TU8 => (0, 255)
  | TI16 => (-32768, 32767) | TU16 => (0, 65535)
  | TI32 => (-2147483648, 2147483647) | TU32 => (0, 4294967295)
  | TI64 => (-9223372036854775808, 9223372036854775807)
  | TU64 => (0, 18446744073709551615)
  end%Z.
Definition in_range (t : IntType) (z : Z) : Prop := ((int_range t).1 ≤ z ≤ (int_range t).2)%Z.

(** An [f32] is its bit pattern. *)
Definition f32 : Type := Z.

Inductive NdData :=
| NdBool (v : list bool)
| NdInt (t : IntType) (v : list Z)
| NdF32 (v : list f32)
| NdF64 (v : list f64).

Definition nd_len (d : NdData) : nat :=
  match d with NdBool v => length v | NdInt _ v | NdF32 v | NdF64 v => length v end.

Definition nd_dtype (d : NdData) : string :=
  match d with
  | NdBool _ => "|b1"
  | NdInt TI8 _ => "|i1" | NdInt TU8 _ => "|u1" | NdInt TI16 _ => "<i2" | NdInt TU16 _ => "<u2"
  | NdInt TI32 _ => "<i4" | NdInt TU32 _ => "<u4" | NdInt TI64 _ => "<i8" | NdInt TU64 _ => "<u8"
  | NdF32 _ => "<f4" | NdF64 _ => "<f8"
  end.

(** ** Arrays of any shape *)

Record NdArray := mkNdArray { shape : list nat; data : NdData }.

(** [Iterator::product::<usize>], which wraps. *)
Definition usize_product (l : list nat) : Z := foldl (λ z n, wrap64 (z * Z.of_nat n)) 1%Z l.
Definition nat_text (n : nat) : string := pretty n.

Definition nd_new `{JsonNumber} (shape : list nat) (data : NdData) : Result NdArray BsrsError :=
  if negb (usize_product shape =? Z.of_nat (nd_len data))%Z then
    let comma := if length shape =? 1 then "," else "" in
    Err (InvalidValue ("cannot reshape array of size " +:+ nat_text (nd_len data) +:+ " into shape ("
           +:+ String.concat "," (nat_text <$> shape) +:+ comma +:+ ")"))
  else Ok (mkNdArray shape data).
Definition nd_from_vec (d : NdData) : NdArray := mkNdArray [nd_len d] d.
Definition nd_default : NdArray := mkNdArray [0] (NdF64 []).

(** Lists nested as deep as the shape, as [tolist()]. *)
Inductive Nest (E : Type) := NLeaf (e : E) | NList (l : list (Nest E)).
Arguments NLeaf {_}. Arguments NList {_}.

(** A slice of a vector: a panic where it is out of its bounds. *)
Definition slice {E} (i j : Z) (l : list E) : option (list E) :=
  if ((i <=? j) && (j <=? Z.of_nat (length l)))%Z then Some (take (Z.to_nat (j - i)) (drop (Z.to_nat i) l)) else None.

(** [Nested::serialize]: [None] is a panic. *)
Fixpoint nested {E} (shape : list nat) (data : list E) : option (Nest E) :=
  match shape with
  | [] => NLeaf <$> data !! 0
  | n :: inner =>
      let stride := usize_product inner in
      NList <$> mapM (λ i, slice (wrap64 (Z.of_nat i * stride)) (wrap64 (wrap64 (Z.of_nat i + 1) * stride)) data
                             ≫= nested inner) (seq 0 n)
  end.

(** ** Tables *)

Inductive Column := ColArray (d : NdData) | ColStr (v : list string).
Definition col_len (c : Column) : nat := match c with ColArray d => nd_len d | ColStr v => length v end.
Definition col_dtype (c : Column) : string := match c with ColArray d => nd_dtype d | ColStr _ => "|S40" end.

Record Table := mkTable { columns : list (string * Column) }.

(** The names of each length, in the order they are found. *)
Fixpoint add_length (name : string) (len : nat) (l : list (nat * list string)) : list (nat * list string) :=
  match l with
  | [] => [(len, [name])]
  | (k, names) :: l => if k =? len then (k, names ++ [name]) :: l else (k, names) :: add_length name len l
  end.
Definition lengths_of (cols : list (string * nat)) : list (nat * list string) :=
  foldl (λ l '(name, len), add_length name len l) [] cols.

(** ** Casts *)

(** An [f32]: its value, what it is as an [f64], and the [f32] nearest to an [f64]. *)
Definition of_bits32 (b : f32) : spec_float :=
  let s := negb (b <? 2147483648)%Z in
  let e := ((b `div` 8388608) `mod` 256)%Z in
  let m := (b `mod` 8388608)%Z in
  if (e =? 255)%Z then (if (m =? 0)%Z then S754_infinity s else S754_nan)
  else match (if (e =? 0)%Z then m else m + 8388608)%Z with
       | Zpos p => S754_finite s p (if (e =? 0)%Z then -149 else e - 150)%Z
       | _ => S754_zero s
       end.
Definition to_bits32 (x : spec_float) : f32 :=
  let sg (s : bool) b := (if s then 2147483648 + b else b)%Z in
  match x with
  | S754_zero s => sg s 0%Z
  | S754_infinity s => sg s (255 * 8388608)%Z
  | S754_nan => 2143289344%Z
  | S754_finite s m e =>
      sg s (if (Zpos m <? 8388608)%Z then Zpos m else ((e + 150) * 8388608 + (Zpos m - 8388608))%Z)
  end.
Definition round_to (prec emax : Z) (x : spec_float) : spec_float :=
  match x with
  | S754_finite s m e => binary_normalize prec emax (if s then Zneg m else Zpos m) e s
  | x => x
  end.
Definition f32_to_f64 (x : f32) : f64 := to_bits (round_to 53 1024 (of_bits32 x)).
Definition f64_to_f32 (x : f64) : f32 := to_bits32 (round_to 24 128 (of_bits x)).
Definition f32_of_Z (z : Z) : f32 := to_bits32 (binary_normalize 24 128 z 0 false).

(** The integer part of a finite number. *)
Definition int_part (s : bool) (m : positive) (e : Z) : Z :=
  let q := (if 0 <=? e then Zpos m * 2 ^ e else Zpos m `div` 2 ^ (- e))%Z in if s then (- q)%Z else q.
Definition f64_trunc (a : f64) : f64 :=
  match of_bits a with
  | S754_finite s m e => to_bits (binary_normalize 53 1024 (int_part s m e) 0 s)
  | _ => a
  end.
Definition f64_fract (a : f64) : f64 := f64_sub a (f64_trunc a).
(** [as i128]: to the nearest end where it is out of range. *)
Definition i128_max : Z := (2 ^ 127 - 1)%Z.
Definition f64_as_i128 (a : f64) : Z :=
  match of_bits a with
  | S754_nan | S754_zero _ => 0%Z
  | S754_infinity s => if s then (- 2 ^ 127)%Z else i128_max
  | S754_finite s m e => Z.max (- 2 ^ 127) (Z.min i128_max (int_part s m e))
  end.

Inductive Num := NInt (i : Z) | NFloat (f : f64).
Definition nums (d : NdData) : list Num :=
  match d with
  | NdBool v => (λ x : bool, NInt (if x then 1 else 0)) <$> v
  | NdInt _ v => NInt <$> v
  | NdF32 v => (λ x, NFloat (f32_to_f64 x)) <$> v
  | NdF64 v => NFloat <$> v
  end.

Definition exact_int (t : IntType) (n : Num) : option Z :=
  i ← match n with
      | NInt i => Some i
      | NFloat f => if f64_eqb (f64_fract f) 0%Z then Some (f64_as_i128 f) else None
      end;
  if bool_decide (in_range t i) then Some i else None.
Definition exact_bool (n : Num) : option bool :=
  match n with
  | NInt i => if (i =? 0)%Z then Some false else if (i =? 1)%Z then Some true else None
  | NFloat f => if f64_eqb f 0%Z then Some false else if f64_eqb f f64_one then Some true else None
  end.
Definition exact_f64 (n : Num) : option f64 :=
  match n with
  | NInt i => Some (f64_of_Z i)
  | NFloat f => if negb (is_nan f) then Some f else None
  end.
Definition exact_f32 (n : Num) : option f32 :=
  let '(wide, cast) := match n with
                       | NInt i => (f64_of_Z i, f32_of_Z i)
                       | NFloat f => (f, f64_to_f32 f)
                       end in
  if f64_eqb (f32_to_f64 cast) wide then Some cast else None.

(** The element type of a field. *)
Inductive ElemType := EBool | EInt (t : IntType) | EF32 | EF64 | EStr.
Definition elem_name (ty : ElemType) : string :=
  match ty with
  | EBool => "bool" | EF32 => "float32" | EF64 => "float64" | EStr => "str"
  | EInt TI8 => "int8" | EInt TU8 => "uint8" | EInt TI16 => "int16" | EInt TU16 => "uint16"
  | EInt TI32 => "int32" | EInt TU32 => "uint32" | EInt TI64 => "int64" | EInt TU64 => "uint64"
  end.
Definition cast (ty : ElemType) (c : Column) : option Column :=
  match ty, c with
  | EStr, ColStr v => Some (ColStr v)
  | EStr, ColArray _ | _, ColStr _ => None
  | EBool, ColArray d => ColArray ∘ NdBool <$> mapM exact_bool (nums d)
  | EInt t, ColArray d => ColArray ∘ NdInt t <$> mapM (exact_int t) (nums d)
  | EF32, ColArray d => ColArray ∘ NdF32 <$> mapM exact_f32 (nums d)
  | EF64, ColArray d => ColArray ∘ NdF64 <$> mapM exact_f64 (nums d)
  end.
(** [Vec::new] as a column. *)
Definition empty_column (ty : ElemType) : Column :=
  match ty with
  | EStr => ColStr [] | EBool => ColArray (NdBool []) | EInt t => ColArray (NdInt t [])
  | EF32 => ColArray (NdF32 []) | EF64 => ColArray (NdF64 [])
  end.

Section tables.
Context `{JsonNumber}.

Definition check_lengths (cols : list (string * nat)) : Result unit BsrsError :=
  let lengths := lengths_of cols in
  if length lengths <? 2 then Ok ()
  else Err (InvalidValue ("Columns should be same length, got lengths={"
         +:+ String.concat ", " ((λ '(len, names), nat_text len +:+ ": {"
               +:+ String.concat ", " ((λ n, "'" +:+ n +:+ "'") <$> names) +:+ "}") <$> lengths)
         +:+ "}")).

Fixpoint duplicate (seen : list string) (cols : list (string * Column)) : option string :=
  match cols with
  | [] => None
  | (name, _) :: cols => if decide (name ∈ seen) then Some name else duplicate (seen ++ [name]) cols
  end.
Definition table_new (cols : list (string * Column)) : Result Table BsrsError :=
  match duplicate [] cols with
  | Some name => Err (InvalidValue ("duplicate column " +:+ name))
  | None =>
      match check_lengths ((λ c, (c.1, col_len c.2)) <$> cols) with
      | Err e => Err e
      | Ok _ => Ok (mkTable cols)
      end
  end.

Definition column (name : string) (t : Table) : option Column :=
  (λ x, x.2.2) <$> list_find (λ c, c.1 = name) (columns t).
Definition table_len (t : Table) : nat := match columns t with (_, c) :: _ => col_len c | [] => 0 end.

(** [d[2..].parse::<usize>()] of a dtype string. *)
Definition digit_value (c : Ascii.ascii) : option nat :=
  let n := Ascii.nat_of_ascii c in if (48 <=? n) && (n <=? 57) then Some (n - 48) else None.
Definition parse_usize (s : string) : option nat :=
  match String.list_ascii_of_string s with
  | [] => None
  | l => foldl (λ z c, z ← z; d ← digit_value c; Some (10 * z + d)) (Some 0) l
  end.
Definition dtype_size (d : string) : option nat :=
  parse_usize (String.substring 2 (String.length d - 2) d).

Definition table_dtype (t : Table) : DtypeNumpy :=
  let descr := (λ '(n, c), (n, col_dtype c)) <$> columns t in
  if 1 <? length descr then NpStructured descr
  else NpScalar ("|V" +:+ nat_text (sum_list (omap (λ d, dtype_size d.2) descr))).

(** [shown]: a column's JSON as Python writes it. *)
Variable shown : Column → string.

Definition from_column (name : string) (ty : ElemType) (c : Column) : Result Column BsrsError :=
  match cast ty c with
  | Some c => Ok c
  | None =>
      Err (InvalidValue (match ty with
        | EStr => name +:+ ": Input should be a valid string"
        | _ => name +:+ ": Cannot cast " +:+ shown c +:+ " to " +:+ elem_name ty
               +:+ " without losing precision"
        end))
  end.

Record TableFields := mkFields { tf_columns : list (string * Column); tf_lengths : list (string * nat) }.
Definition table_fields (t : Table) : TableFields := mkFields (columns t) [].

Definition take_field (name : string) (ty : ElemType) (f : TableFields) : Result (Column * TableFields) BsrsError :=
  match list_find (λ c, c.1 = name) (tf_columns f) with
  | Some (i, (_, c)) =>
      match from_column name ty c with
      | Err e => Err e
      | Ok v => Ok (v, mkFields (delete i (tf_columns f)) (tf_lengths f ++ [(name, col_len v)]))
      end
  | None => Ok (empty_column ty, mkFields (tf_columns f) (tf_lengths f ++ [(name, 0)]))
  end.
Definition finish_fields (f : TableFields) : Result unit BsrsError :=
  match tf_columns f with
  | (name, _) :: _ => Err (InvalidValue (name +:+ ": Extra inputs are not permitted"))
  | [] => check_lengths (tf_lengths f)
  end.

(** A derived table: the types of its fields, and a struct of it as their columns. *)
Fixpoint take_fields (fields : list (string * ElemType)) (f : TableFields)
    : Result (list (string * Column) * TableFields) BsrsError :=
  match fields with
  | [] => Ok ([], f)
  | (name, ty) :: fields =>
      match take_field name ty f with
      | Err e => Err e
      | Ok (v, f) =>
          match take_fields fields f with
          | Err e => Err e
          | Ok (vs, f) => Ok ((name, v) :: vs, f)
          end
      end
  end.
Definition from_table (fields : list (string * ElemType)) (t : Table) : Result (list (string * Column)) BsrsError :=
  match take_fields fields (table_fields t) with
  | Err e => Err e
  | Ok (vs, f) => match finish_fields f with Err e => Err e | Ok _ => Ok vs end
  end.
Definition into_table (struct : list (string * Column)) : Result Table BsrsError := table_new struct.
End tables.

(** ** Shapes *)

Section shapes.
Context `{JsonNumber} {E : Type}.
Implicit Types (l : list nat) (d : list E).

Definition product l : nat := foldr Nat.mul 1 l.

Lemma usize_product_acc l z :
  (0 ≤ z)%Z → (z * Z.of_nat (product l) ≤ u64_max)%Z → product l ≠ 0 →
  foldl (λ z n, wrap64 (z * Z.of_nat n)) z l = (z * Z.of_nat (product l))%Z.
Proof.
  revert z. induction l as [|n l IH]; intros z Hz Hb Hp; simpl in *; [lia|].
  assert (n ≠ 0 ∧ product l ≠ 0) as [Hn Hpl] by (split; intros He; apply Hp; rewrite He; lia).
  assert (z * Z.of_nat n ≤ u64_max)%Z by nia.
  rewrite wrap64_small by (split; [lia|done]). rewrite IH; [nia|nia|nia|done].
Qed.
Lemma usize_product_zero l : product l = 0 → usize_product l = 0%Z.
Proof.
  unfold usize_product. generalize 1%Z. induction l as [|n l IH]; intros z; simpl; [lia|].
  intros [->|Hl]%Nat.eq_mul_0; [|by apply IH]. rewrite Z.mul_0_r.
  clear IH. change (wrap64 0) with 0%Z. induction l as [|n l IH]; [done|]. exact IH.
Qed.

(** The product is right where it fits. *)
Lemma usize_product_fits l : (Z.of_nat (product l) ≤ u64_max)%Z → usize_product l = Z.of_nat (product l).
Proof.
  intros Hl. destruct (decide (product l = 0)) as [Hz|Hz]; [by rewrite usize_product_zero, Hz|].
  unfold usize_product. rewrite usize_product_acc by (lia || done). lia.
Qed.

Fixpoint flatten (t : Nest E) : list E :=
  match t with NLeaf e => [e] | NList l => l ≫= flatten end.
Fixpoint has_shape l (t : Nest E) : Prop :=
  match l, t with
  | [], NLeaf _ => True
  | n :: l, NList ts => length ts = n ∧ (fix all (ts : list (Nest E)) := match ts with [] => True | t :: ts => has_shape l t ∧ all ts end) ts
  | _, _ => False
  end.

Lemma has_shape_cons n l ts : has_shape (n :: l) (NList ts) ↔ length ts = n ∧ Forall (has_shape l) ts.
Proof.
  simpl. apply and_iff_compat_l. induction ts as [|t ts IH]; simpl; [done|]. by rewrite Forall_cons, IH.
Qed.

Lemma slice_spec d i j :
  i ≤ j → j ≤ length d → slice (Z.of_nat i) (Z.of_nat j) d = Some (take (j - i) (drop i d)).
Proof.
  intros Hi Hj. unfold slice. rewrite (proj2 (Z.leb_le _ _)), (proj2 (Z.leb_le _ _)) by lia. simpl.
  do 2 f_equal; [lia|f_equal; lia].
Qed.

Lemma nested_rows n l d :
  (Z.of_nat (n * product l) ≤ u64_max)%Z → length d = n * product l →
  (∀ d, length d = product l → ∃ t, nested l d = Some t ∧ flatten t = d ∧ has_shape l t) →
  ∀ m k, k + m = n → ∃ ts,
    mapM (λ i, slice (wrap64 (Z.of_nat i * Z.of_nat (product l)))
                 (wrap64 (wrap64 (Z.of_nat i + 1) * Z.of_nat (product l))) d ≫= nested l) (seq k m) = Some ts
    ∧ (ts ≫= flatten) = drop (k * product l) d ∧ length ts = m ∧ Forall (has_shape l) ts.
Proof.
  intros Hn Hd IH. set (P := product l) in *. induction m as [|m IHm]; intros k Hk.
  - exists []. split_and!; [done| |done|constructor]. simpl. rewrite drop_ge; [done|]. rewrite Hd. nia.
  - destruct (IHm (S k) ltac:(lia)) as (ts & Hts & Hf & Hl & Hs).
    assert (k * P + P ≤ n * P) by nia.
    assert ((Z.of_nat k * Z.of_nat P) = Z.of_nat (k * P))%Z as Hk1 by lia.
    assert (wrap64 (Z.of_nat k * Z.of_nat P) = Z.of_nat (k * P)) as Hw1 by (rewrite Hk1; apply wrap64_small; split; lia).
    assert (slice (wrap64 (Z.of_nat k * Z.of_nat P)) (wrap64 (wrap64 (Z.of_nat k + 1) * Z.of_nat P)) d
            = Some (take P (drop (k * P) d))) as Hsl.
    { rewrite Hw1. destruct (decide (P = 0)) as [HP|HP].
      - rewrite HP, Z.mul_0_r. change (wrap64 0) with (Z.of_nat 0). rewrite Nat.mul_0_r. apply (slice_spec d 0 0); lia.
      - rewrite (wrap64_small (Z.of_nat k + 1)) by (split; nia).
        replace ((Z.of_nat k + 1) * Z.of_nat P)%Z with (Z.of_nat (k * P + P)) by lia.
        rewrite wrap64_small by (split; lia). rewrite slice_spec by lia. do 2 f_equal. lia. }
    destruct (IH (take P (drop (k * P) d))) as (t & Ht & Hft & Hst).
    { rewrite length_take, length_drop, Hd. lia. }
    exists (t :: ts). split_and!; [|rewrite bind_cons|simpl; by rewrite Hl|by constructor].
    + simpl. rewrite Hsl. simpl. rewrite Ht. simpl. fold P. by rewrite Hts.
    + rewrite Hft, Hf. replace (S k * P) with (k * P + P) by lia. by rewrite <- drop_drop, take_drop.
Qed.

Lemma nested_spec l d :
  (Z.of_nat (product l) ≤ u64_max)%Z → length d = product l →
  ∃ t, nested l d = Some t ∧ flatten t = d ∧ has_shape l t.
Proof.
  revert d. induction l as [|n l IH]; intros d Hl Hd; simpl in *.
  { destruct d as [|e [|]]; try done. by exists (NLeaf e). }
  destruct (decide (n = 0)) as [->|Hn].
  { destruct d; [|done]. by exists (NList []). }
  assert (Z.of_nat (product l) ≤ u64_max)%Z as Hp by nia.
  destruct (nested_rows n l d Hl Hd (λ d, IH d Hp) n 0 eq_refl) as (ts & Hts & Hf & Hlen & Hs).
  rewrite usize_product_fits by done. exists (NList ts). rewrite Hts. split; [done|]. split; [exact Hf|].
  by apply has_shape_cons.
Qed.

Lemma nd_new_checks shape data a :
  nd_new shape data = Ok a → a = mkNdArray shape data ∧ usize_product shape = Z.of_nat (nd_len data).
Proof.
  unfold nd_new. destruct (usize_product shape =? _)%Z eqn:He; simpl; [|done]. intros [= <-].
  by apply Z.eqb_eq in He.
Qed.
End shapes.

(** ** What arrays and tables hold *)

Inductive Elem := ElBool (b : bool) | ElInt (t : IntType) (z : Z) | ElF32 (x : f32) | ElF64 (x : f64).
Definition elements (d : NdData) : list Elem :=
  match d with
  | NdBool v => ElBool <$> v | NdInt t v => ElInt t <$> v | NdF32 v => ElF32 <$> v | NdF64 v => ElF64 <$> v
  end.
(** [NdArray::serialize], and a column's. *)
Definition nd_serialize (a : NdArray) : option (Nest Elem) := nested (shape a) (elements (data a)).

Section promises.
Context `{JsonNumber}.
Implicit Types (cols : list (string * Column)) (names : list string).

Lemma length_elements d : length (elements d) = nd_len d.
Proof. destruct d; simpl; by rewrite length_fmap. Qed.

(** An array is made exactly when the shape has room for its elements, and what it
    serializes to is nested as the shape says and holds the elements in order. *)
Theorem array_keeps_its_elements shape data :
  (Z.of_nat (product shape) ≤ u64_max)%Z →
  match nd_new shape data with
  | Ok a => nd_len data = product shape
            ∧ ∃ t, nd_serialize a = Some t ∧ flatten t = elements data ∧ has_shape shape t
  | Err _ => nd_len data ≠ product shape
  end.
Proof.
  intros Hp. destruct (nd_new shape data) as [a|e] eqn:Ha.
  - apply nd_new_checks in Ha as [-> Hn]. rewrite usize_product_fits in Hn by done.
    apply Nat2Z.inj in Hn. split; [done|]. apply nested_spec; [done|]. by rewrite length_elements.
  - unfold nd_new in Ha. rewrite usize_product_fits in Ha by done.
    destruct (Z.eqb_spec (Z.of_nat (product shape)) (Z.of_nat (nd_len data))); [done|lia].
Qed.

(** *** Columns of one length *)

Lemma add_length_fst name len l :
  (add_length name len l).*1 = if decide (len ∈ l.*1) then l.*1 else l.*1 ++ [len].
Proof.
  induction l as [|[k ns] l IH]; [done|]. cbn [add_length]. destruct (Nat.eqb_spec k len) as [->|Hn]; rewrite !fmap_cons; cbn [fst].
  - rewrite decide_True by left. done.
  - rewrite IH. destruct (decide (len ∈ l.*1)).
    + by rewrite decide_True by (by right).
    + rewrite decide_False; [done|]. intros [|]%elem_of_cons; congruence.
Qed.

Lemma lengths_of_spec (cols : list (string * nat)) l0 :
  NoDup l0.*1 →
  let l := foldl (λ l '(name, len), add_length name len l) l0 cols in
  NoDup l.*1 ∧ ∀ k, k ∈ l.*1 ↔ k ∈ l0.*1 ∨ k ∈ cols.*2.
Proof.
  revert l0. induction cols as [|[name len] cols IH]; intros l0 Hd; simpl.
  - split; [done|]. intros k. rewrite elem_of_nil. naive_solver.
  - destruct (IH (add_length name len l0)) as [H1 H2].
    { rewrite add_length_fst. case_decide; [done|]. apply NoDup_app. split_and!; [done| |apply NoDup_singleton].
      by intros k Hk ->%list_elem_of_singleton. }
    split; [done|]. intros k. rewrite H2, add_length_fst, elem_of_cons. case_decide; [set_solver|].
    rewrite elem_of_app, list_elem_of_singleton. set_solver.
Qed.

Lemma check_lengths_spec (cols : list (string * nat)) :
  (check_lengths cols = Ok () ∧ ∀ k k', k ∈ cols.*2 → k' ∈ cols.*2 → k = k')
  ∨ (∃ s, check_lengths cols = Err (InvalidValue s)) ∧ ∃ k k', k ∈ cols.*2 ∧ k' ∈ cols.*2 ∧ k ≠ k'.
Proof.
  destruct (lengths_of_spec cols [] (NoDup_nil_2)) as [Hd Hin]. unfold check_lengths.
  fold (lengths_of cols) in *. destruct (lengths_of cols) as [|[k ns] [|[k' ns'] l]] eqn:Hl; simpl.
  - left. split; [done|]. intros x y Hx. exfalso. apply (not_elem_of_nil x). apply Hin. by right.
  - left. split; [done|]. intros x y Hx Hy.
    assert (∀ z, z ∈ cols.*2 → z = k) as He.
    { intros z Hz. apply list_elem_of_singleton. apply Hin. by right. }
    by rewrite (He x), (He y).
  - right. split; [by eexists|]. exists k, k'. simpl in *.
    assert (∀ z, z ∈ [k; k'] → z ∈ cols.*2) as He.
    { intros z Hz. destruct (proj1 (Hin z)) as [?%not_elem_of_nil|]; [|done|done].
      apply elem_of_cons in Hz as [->|Hz]; [left|]. apply list_elem_of_singleton in Hz as ->. right. left. }
    split_and!; [apply He; left|apply He; right; left|]. intros ->. apply NoDup_cons in Hd as [Hd _].
    apply Hd. left.
Qed.

Lemma duplicate_spec names cols :
  NoDup names → duplicate names cols = None ↔ NoDup (names ++ cols.*1).
Proof.
  revert names. induction cols as [|[n c] cols IH]; intros names Hd; simpl.
  - by rewrite app_nil_r.
  - case_decide as Hin.
    + split; [done|]. intros (_ & Hno & _)%NoDup_app. destruct (Hno n Hin). left.
    + rewrite IH; [by rewrite <- app_assoc|]. apply NoDup_app. split_and!; [done| |apply NoDup_singleton].
      by intros x Hx ->%list_elem_of_singleton.
Qed.

(** A table is made of columns with different names and one length, and of no others. *)
Theorem table_is_rectangular cols :
  (table_new cols = Ok (mkTable cols) ∧ NoDup cols.*1
     ∧ ∀ c d, c ∈ cols → d ∈ cols → col_len c.2 = col_len d.2)
  ∨ (∃ s, table_new cols = Err (InvalidValue s))
    ∧ (¬ NoDup cols.*1 ∨ ∃ c d, c ∈ cols ∧ d ∈ cols ∧ col_len c.2 ≠ col_len d.2).
Proof.
  unfold table_new. pose proof (duplicate_spec [] cols (NoDup_nil_2)) as Hdup. simpl in Hdup.
  destruct (duplicate [] cols) as [n|]; [right; split; [by eexists|left; by intros ?%Hdup]|].
  destruct Hdup as [Hdup _]. specialize (Hdup eq_refl).
  assert (∀ k, k ∈ ((λ c : string * Column, (c.1, col_len c.2)) <$> cols).*2 ↔ ∃ c, c ∈ cols ∧ k = col_len c.2) as Hk.
  { intros k. rewrite <- list_fmap_compose, list_elem_of_fmap. simpl. naive_solver. }
  destruct (check_lengths_spec ((λ c, (c.1, col_len c.2)) <$> cols)) as [[Hc Hall]|[[s Hc] (k & k' & H1 & H2 & H3)]]; rewrite Hc.
  - left. split_and!; [done|done|]. intros c d Hcin Hdin. apply Hall; apply Hk; eauto.
  - right. split; [by eexists|right]. apply Hk in H1 as (c & Hcin & ->). apply Hk in H2 as (d & Hdin & ->). eauto.
Qed.
Lemma table_new_ok cols t : table_new cols = Ok t →
  t = mkTable cols ∧ NoDup cols.*1 ∧ ∀ c d, c ∈ cols → d ∈ cols → col_len c.2 = col_len d.2.
Proof.
  intros Ht. unfold table_new in Ht. pose proof (duplicate_spec [] cols (NoDup_nil_2)) as Hdup. simpl in Hdup.
  destruct (duplicate [] cols) as [n|]; [done|]. destruct Hdup as [Hdup _].
  assert (∀ c, c ∈ cols → col_len c.2 ∈ ((λ c : string * Column, (c.1, col_len c.2)) <$> cols).*2) as Hk.
  { intros c Hc. rewrite <- list_fmap_compose, list_elem_of_fmap. by exists c. }
  destruct (check_lengths_spec ((λ c, (c.1, col_len c.2)) <$> cols)) as [[Hc Hall]|[[s Hc] _]]; rewrite Hc in Ht; [|done].
  injection Ht as <-. auto 10.
Qed.

(** *** Casts between integer types *)

Lemma mapM_cons_opt {A B} (f : A → option B) x l :
  mapM f (x :: l) = (y ← f x; ys ← mapM f l; Some (y :: ys)).
Proof. done. Qed.

Lemma mapM_exact_int t v : mapM (exact_int t) (NInt <$> v) = if decide (Forall (in_range t) v) then Some v else None.
Proof.
  induction v as [|z v IH]; [done|]. rewrite fmap_cons, mapM_cons_opt, IH. unfold exact_int. simpl.
  destruct (decide (in_range t z)) as [Hz|Hz].
  - rewrite bool_decide_eq_true_2 by done. simpl. destruct (decide (Forall (in_range t) v)); simpl.
    + rewrite decide_True; [done|by constructor].
    + rewrite decide_False; [done|by intros [_ ?]%Forall_cons].
  - rewrite bool_decide_eq_false_2 by done. simpl. rewrite decide_False; [done|by intros [? _]%Forall_cons].
Qed.

(** Integers are cast to another integer type as they are, and only if all of them are in
    its range. *)
Theorem integer_cast_is_exact shown name t t' v :
  from_column shown name (EInt t) (ColArray (NdInt t' v)) =
    if decide (Forall (in_range t) v) then Ok (ColArray (NdInt t v))
    else Err (InvalidValue (name +:+ ": Cannot cast " +:+ shown (ColArray (NdInt t' v)) +:+ " to "
                +:+ elem_name (EInt t) +:+ " without losing precision")).
Proof. unfold from_column. simpl. rewrite mapM_exact_int. by case_decide. Qed.

(** *** Typed tables *)

(** A vector of the elements of a type that a cast keeps: a NaN casts to nothing. *)
Definition typed (ty : ElemType) (c : Column) : Prop :=
  match ty, c with
  | EStr, ColStr _ => True
  | EBool, ColArray (NdBool _) => True
  | EInt t, ColArray (NdInt t' v) => t = t' ∧ Forall (in_range t) v
  | EF64, ColArray (NdF64 v) => Forall (λ x, is_nan x = false) v
  | EF32, ColArray (NdF32 v) =>
      Forall (λ x, f64_to_f32 (f32_to_f64 x) = x ∧ f64_eqb (f32_to_f64 x) (f32_to_f64 x) = true) v
  | _, _ => False
  end.

Lemma mapM_self {A} (f : Num → option A) (g : A → Num) (v : list A) :
  Forall (λ x, f (g x) = Some x) v → mapM f (g <$> v) = Some v.
Proof. induction 1 as [|x v Hx _ IH]; [done|]. by rewrite fmap_cons, mapM_cons_opt, Hx, IH. Qed.

Lemma cast_typed ty c : typed ty c → cast ty c = Some c.
Proof.
  destruct ty as [|t| | |], c as [[v|t' v|v|v]|v]; simpl; try done.
  - intros _. rewrite mapM_self; [done|]. apply Forall_true. by intros [].
  - intros [<- Hv]. by rewrite mapM_exact_int, decide_True by done.
  - intros Hv. rewrite (mapM_self exact_f32); [done|]. eapply Forall_impl; [exact Hv|]. intros x [Hx He].
    unfold exact_f32. by rewrite Hx, He.
  - intros Hv. rewrite (mapM_self exact_f64); [done|]. eapply Forall_impl; [exact Hv|]. intros x Hx.
    unfold exact_f64. by rewrite Hx.
Qed.

Lemma take_fields_self shown fields struct lens :
  Forall2 (λ f c, f.1 = c.1 ∧ typed f.2 c.2) fields struct →
  take_fields shown fields (mkFields struct lens)
  = Ok (struct, mkFields [] (lens ++ ((λ c, (c.1, col_len c.2)) <$> struct))).
Proof.
  intros Hf. revert lens. induction Hf as [|[n ty] [n' c] fields struct [Hn Ht] _ IH]; intros lens; simpl in *.
  - by rewrite app_nil_r.
  - subst n'. unfold take_field. simpl. rewrite decide_True by done. simpl. unfold from_column.
    rewrite cast_typed by done. simpl. by rewrite IH, <- app_assoc.
Qed.

(** A struct of a typed table, of whatever fields, is read back from its table. *)
Theorem typed_table_round_trip shown fields struct t :
  Forall2 (λ f c, f.1 = c.1 ∧ typed f.2 c.2) fields struct →
  into_table struct = Ok t → from_table shown fields t = Ok struct.
Proof.
  intros Hf Ht. apply table_new_ok in Ht as (-> & _ & Hlen). unfold from_table, table_fields. simpl.
  rewrite (take_fields_self _ _ _ _ Hf). simpl. unfold finish_fields. simpl.
  destruct (check_lengths_spec ((λ c, (c.1, col_len c.2)) <$> struct)) as [[Hc _]|[_ (k & k' & H1 & H2 & H3)]]; [by rewrite Hc|].
  rewrite <- list_fmap_compose, list_elem_of_fmap in H1, H2.
  destruct H1 as (c & -> & Hc), H2 as (d & -> & Hd). destruct H3. by apply Hlen.
Qed.
End promises.

Module ArrayExample.
Import Sample.

Lemma array_keeps_its_elements_witness :
  nd_len (NdInt TU8 [1; 2; 3; 4; 5; 6]%Z) = product [2; 3]
  ∧ ∃ t, nd_serialize (mkNdArray [2; 3] (NdInt TU8 [1; 2; 3; 4; 5; 6]%Z)) = Some t
         ∧ flatten t = ElInt TU8 <$> [1; 2; 3; 4; 5; 6]%Z ∧ has_shape [2; 3] t.
Proof. apply (array_keeps_its_elements [2; 3] (NdInt TU8 [1; 2; 3; 4; 5; 6]%Z)). vm_compute. discriminate. Defined.

Definition fields : list (string * ElemType) := [("x", EInt TI16); ("on", EBool); ("label", EStr)].
Definition struct : list (string * Column) :=
  [("x", ColArray (NdInt TI16 [-5; 7]%Z)); ("on", ColArray (NdBool [true; false])); ("label", ColStr ["a"; "b"])].
Lemma typed_table_round_trip_witness :
  from_table (λ _, "") fields (mkTable struct) = Ok struct.
Proof.
  apply (typed_table_round_trip (λ _, "") fields struct (mkTable struct)); [|reflexivity].
  repeat constructor; simpl; unfold in_range; simpl; lia.
Defined.

(** A shape of more elements than a [usize] counts: the product wraps to zero, so that the
    array is made of no elements at all, and serializing it panics. *)
Theorem vast_shape_is_empty :
  ∃ a, nd_new (replicate 64 2) (NdF64 []) = Ok a ∧ nd_serialize a = None.
Proof. exists (mkNdArray (replicate 64 2) (NdF64 [])). split; reflexivity. Qed.

(** A float column casts to integers where every value is one. *)
Example float_to_int :
  cast (EInt TI8) (ColArray (NdF64 [f64_of_Z 3; f64_of_Z (-7)])) = Some (ColArray (NdInt TI8 [3; -7]%Z))
  ∧ cast (EInt TI8) (ColArray (NdF64 [f64_half])) = None
  ∧ cast (EInt TI8) (ColArray (NdF64 [f64_of_Z 128])) = None.
Proof. split_and!; reflexivity. Qed.
End ArrayExample.
