(* ===== verification/Detector.v ===== *)
(** * Detectors ([devices/detector.rs], [protocols_async/mod.rs])

    [StandardDetector]: a control that arms the hardware and the data logics that write
    its frames or are read with an event. What the control, the writers and the single data
    logics do is an interface; futures that are joined run one after another, and a wait
    for frames goes from one update of an index to the next. *)

From stdpp Require Import pretty.
From S2P Require Import Prelude Interfaces Errors Documents F64.

(** ** Trigger information *)

Inductive DetectorTrigger := Internal | ExternalEdge | ExternalLevel.

(** Durations in nanoseconds, counts of 32 bits. *)
Record TriggerInfo := mkTriggerInfo {
  ti_trigger : DetectorTrigger;
  number_of_events : Z;
  livetime : option Z;
  deadtime : option Z;
  exposures_per_collection : Z;
  collections_per_event : Z;
  exposure_timeout : option Z;
}.
Definition trigger_info_default : TriggerInfo := mkTriggerInfo Internal 1 None None 1 1 None.

Definition wrap32 (z : Z) : Z := z `mod` 4294967296.
Definition in_u32 (z : Z) : Prop := (0 ≤ z ≤ 4294967295)%Z.

Definition exposure_timeout_margin : Z := 10000000000.
Definition effective_exposure_timeout (i : TriggerInfo) : Z :=
  default (default 0 (livetime i) + default 0 (deadtime i) + exposure_timeout_margin)%Z (exposure_timeout i).
Definition number_of_collections (i : TriggerInfo) : Z :=
  wrap32 (number_of_events i * collections_per_event i).
Definition number_of_exposures (i : TriggerInfo) : Z :=
  wrap32 (number_of_collections i * exposures_per_collection i).

(** [FlyMotorInfo] *)
Record FlyMotorInfo := mkFly {
  start_position : f64; end_position : f64; time_for_move : f64; fly_timeout : option Z;
}.
Definition velocity (m : FlyMotorInfo) : f64 :=
  f64_div (f64_sub (end_position m) (start_position m)) (time_for_move m).
Definition ramp_up_start_pos (acceleration_time : Z) (m : FlyMotorInfo) : f64 :=
  f64_sub (start_position m) (f64_div (f64_mul (as_secs_f64 acceleration_time) (velocity m)) f64_two).
Definition ramp_down_end_pos (acceleration_time : Z) (m : FlyMotorInfo) : f64 :=
  f64_add (end_position m) (f64_div (f64_mul (as_secs_f64 acceleration_time) (velocity m)) f64_two).

(** ** What a detector is built of *)

(** What ends a wait for a writer's index. *)
Inductive Change := Changed | WriterClosed | TimedOut.

(** The control, the writers and the single data logics, by number: their state [hw], and
    what each call answers and does to it. *)
Class Hardware `{JsonNumber} (hw : Type) := {
  control_prepare : TriggerInfo → hw → Result unit BsrsError * hw;
  control_arm : hw → Result unit StatusError * hw;
  control_wait_for_idle : hw → Result unit BsrsError * hw;
  control_disarm : hw → Result unit BsrsError * hw;
  control_read_configuration : string → hw → Result (gmap string ReadingValue) BsrsError * hw;
  control_describe_configuration : string → hw → Result (gmap string DataKey) BsrsError * hw;
  writer_open : nat → string → Z → hw → Result (gmap string DataKey) BsrsError * hw;
  writer_close : nat → hw → Result unit BsrsError * hw;
  indices_written : nat → hw → Z;
  next_change : list nat → Z → hw → Change * hw;
  writer_docs : nat → Z → string → hw → list Document * hw;
  writer_suffix : nat → string;
  writer_hints : nat → string → list string;
  prepare_single : nat → string → hw → Result unit BsrsError * hw;
  single_describe : nat → hw → Result (gmap string DataKey) BsrsError * hw;
  single_read : nat → hw → Result (gmap string ReadingValue) BsrsError * hw;
  single_stop : nat → hw → Result unit BsrsError * hw;
  single_suffix : nat → string;
  single_hints : nat → string → list string;
}.

Inductive DataLogic := Unbounded (w : nat) | Single (s : nat).

Record PrepareCtx := mkPrepare {
  trigger_info : TriggerInfo;
  pc_collections_written : Z;
  data_keys : gmap string DataKey;
  singles : list nat;
}.
Record KickoffCtx := mkKickoff {
  kc_collections_written : Z;
  collections_requested : Z;
  kc_exposure_timeout : Z;
  is_last_kickoff : bool;
}.

(** The detector with its hardware, and the writers it has opened. *)
Record StandardDetector (hw : Type) := mkDetector {
  d_name : string;
  data_logics : list DataLogic;
  prepared : option PrepareCtx;
  kicked_off : option KickoffCtx;
  events_to_kickoff : Z;
  hardware : hw;
  opened : list nat;
}.
Arguments mkDetector {_}. Arguments d_name {_}. Arguments data_logics {_}. Arguments prepared {_}.
Arguments kicked_off {_}. Arguments events_to_kickoff {_}. Arguments hardware {_}. Arguments opened {_}.

(** ** Calls

    [Waiting]: the wait did not end within the updates that were looked at. *)
Inductive Polled `{JsonNumber} (A : Type) := Ready (r : Result A BsrsError) | Waiting.
Arguments Ready {_ _}. Arguments Waiting {_ _}.

Section detector.
Context `{JsonNumber} {hw : Type} `{!Hardware hw}.
(** [Display] of an error. *)
Variable error_text : BsrsError → string.

Definition Call (A : Type) : Type := StandardDetector hw → Polled A * StandardDetector hw.
#[global] Instance call_ret : MRet Call := λ A a d, (Ready (Ok a), d).
#[global] Instance call_bind : MBind Call := λ A B f c d,
  match c d with
  | (Ready (Ok a), d) => f a d
  | (Ready (Err e), d) => (Ready (Err e), d)
  | (Waiting, d) => (Waiting, d)
  end.
Definition fail_with {A} (e : BsrsError) : Call A := λ d, (Ready (Err e), d).
Definition get {A} (f : StandardDetector hw → A) : Call A := λ d, (Ready (Ok (f d)), d).
Definition put (f : StandardDetector hw → StandardDetector hw) : Call unit := λ d, (Ready (Ok ()), f d).

Definition set_prepared v (d : StandardDetector hw) : StandardDetector hw :=
  mkDetector (d_name d) (data_logics d) v (kicked_off d) (events_to_kickoff d) (hardware d) (opened d).
Definition set_kicked_off v (d : StandardDetector hw) : StandardDetector hw :=
  mkDetector (d_name d) (data_logics d) (prepared d) v (events_to_kickoff d) (hardware d) (opened d).
Definition set_events_to_kickoff v (d : StandardDetector hw) : StandardDetector hw :=
  mkDetector (d_name d) (data_logics d) (prepared d) (kicked_off d) v (hardware d) (opened d).
Definition set_hardware v (d : StandardDetector hw) : StandardDetector hw :=
  mkDetector (d_name d) (data_logics d) (prepared d) (kicked_off d) (events_to_kickoff d) v (opened d).
Definition set_opened v (d : StandardDetector hw) : StandardDetector hw :=
  mkDetector (d_name d) (data_logics d) (prepared d) (kicked_off d) (events_to_kickoff d) (hardware d) v.

(** A call of the hardware. *)
Definition ask_hw {A} (f : hw → Result A BsrsError * hw) : Call A := λ d,
  let '(r, h) := f (hardware d) in (Ready r, set_hardware h d).
(** One call after another, the first failure told at the end ([join_all] and [collect]). *)
Fixpoint join_all (l : list (Call unit)) : Call unit :=
  match l with
  | [] => mret ()
  | c :: l => λ d,
      match c d with
      | (Ready (Ok _), d) => join_all l d
      | (Ready (Err e), d) => match join_all l d with
                              | (Waiting, d) => (Waiting, d)
                              | (_, d) => (Ready (Err e), d)
                              end
      | (Waiting, d) => (Waiting, d)
      end
  end.
(** The first failure ends it ([try_join_all]). *)
Fixpoint try_join_all {A} (l : list (Call A)) : Call (list A) :=
  match l with
  | [] => mret []
  | c :: l => x ← c; xs ← try_join_all l; mret (x :: xs)
  end.

Definition writers (d : StandardDetector hw) : list nat :=
  omap (λ l, match l with Unbounded w => Some w | Single _ => None end) (data_logics d).
Definition datakey_name (d : StandardDetector hw) (l : DataLogic) : string :=
  d_name d +:+ match l with Unbounded w => writer_suffix w | Single s => single_suffix s end.
Definition hinted_fields (l : DataLogic) (datakey_name : string) : list string :=
  match l with Unbounded w => writer_hints w datakey_name | Single s => single_hints s datakey_name end.
Definition stop_logic (l : DataLogic) : Call unit :=
  match l with Unbounded w => ask_hw (writer_close w) | Single s => ask_hw (single_stop s) end.

Definition new_detector (name : string) (logics : list DataLogic) (h : hw) : StandardDetector hw :=
  mkDetector name logics None None 0 h [].

(** What the writers have written: one number, or none agrees ([BTreeSet]'s order). *)
Definition all_written (d : StandardDetector hw) : list Z := (λ w, indices_written w (hardware d)) <$> writers d.
Definition set_text (l : list Z) : string := "{" +:+ String.concat ", " (pretty <$> l) +:+ "}".
Definition collections_written : Call Z :=
  ws ← get all_written;
  match merge_sort Z.le (remove_dups ws) with
  | [] => mret 0%Z
  | [n] => mret n
  | l => fail_with (StateE ("Detectors have written different numbers of collections: " +:+ set_text l))
  end.
Definition min_list (l : list Z) : option Z :=
  match l with [] => None | x :: l => Some (foldl Z.min x l) end.
Definition min_collections_written (d : StandardDetector hw) : Z := default 0%Z (min_list (all_written d)).

Definition stop_data_logics : Call unit :=
  logics ← get data_logics; join_all (stop_logic <$> logics).

Definition prepare_ctx (not_run : string) : Call PrepareCtx :=
  p ← get prepared;
  match p with Some p => mret p | None => fail_with (StateE not_run) end.

Definition open_writer (w : nat) (name : string) (per_event : Z) : Call (gmap string DataKey) :=
  put (λ d, set_opened (opened d ++ [w]) d);; ask_hw (writer_open w name per_event).

Definition prepare_data_logics (info : TriggerInfo) : Call (gmap string DataKey * list nat) :=
  d ← get id;
  let collections := number_of_collections info in
  let opens := omap (λ l, match l with
                          | Unbounded w => Some (open_writer w (datakey_name d l) (collections_per_event info))
                          | Single _ => None
                          end) (data_logics d) in
  let singles := if (collections =? 1)%Z
                 then omap (λ l, match l with
                                 | Single s => Some (s, ask_hw (prepare_single s (datakey_name d l)))
                                 | Unbounded _ => None
                                 end) (data_logics d)
                 else [] in
  keys ← try_join_all opens;
  try_join_all singles.*2;;
  mret (foldl (λ m k, k ∪ m) ∅ keys, singles.*1).

Definition update_prepare_context (info : TriggerInfo) : Call PrepareCtx :=
  previous ← get prepared;
  put (set_prepared None);;
  logics ← match previous with
           | Some p =>
               if (collections_per_event (trigger_info p) =? collections_per_event info)%Z
               then mret (data_keys p, singles p)
               else stop_data_logics;; prepare_data_logics info
           | None => prepare_data_logics info
           end;
  n ← collections_written;
  let ctx := mkPrepare info n logics.1 logics.2 in
  put (set_prepared (Some ctx));;
  mret ctx.

Definition prepare_for (info : TriggerInfo) : Call PrepareCtx :=
  ask_hw (control_prepare info);;
  ctx ← update_prepare_context info;
  put (set_events_to_kickoff (number_of_events (trigger_info ctx)));;
  mret ctx.

(** The next update of an index. *)
Definition wait_change (timeout : Z) : Call Change := λ d,
  let '(c, h) := next_change (writers d) timeout (hardware d) in (Ready (Ok c), set_hardware h d).
Definition waiting {A} : Call A := λ d, (Waiting, d).

(** The loop of [wait_for_index], looking at [fuel] updates at most. *)
Fixpoint wait_loop (fuel : nat) (target timeout : Z) {struct fuel} : Call unit :=
  mbind (M := Call) (λ w : option Z,
    match w with
    | None => mret ()
    | Some written =>
        if (target <=? written)%Z then mret () else
        match fuel with
        | 0 => waiting
        | S fuel =>
            mbind (M := Call) (λ c,
              match c with
              | Changed => wait_loop fuel target timeout
              | WriterClosed => fail_with (StateE ("writer closed at index " +:+ pretty written +:+ " of " +:+ pretty target))
              | TimedOut => fail_with (Timeout_ timeout)
              end) (wait_change timeout)
        end
    end) (get (λ d, min_list (all_written d))).
Definition wait_for_index (fuel : nat) (initial requested timeout : Z) (wait_for_idle : bool) : Call unit :=
  wait_loop fuel (wrap64 (initial + requested)) timeout;;
  if wait_for_idle then ask_hw control_wait_for_idle else mret ().

(** A status awaited: its failure as the engine's error. *)
Definition arm_done : Call unit := λ d,
  match control_arm (hardware d) with
  | (Ok _, h) => (Ready (Ok ()), set_hardware h d)
  | (Err e, h) => (Ready (Err (StatusE e)), set_hardware h d)
  end.

Definition trigger_one (fuel : nat) : Call unit :=
  p ← get prepared;
  ctx ← match p with
        | None => prepare_for trigger_info_default
        | Some p =>
            if negb (number_of_events (trigger_info p) =? 1)%Z
            then fail_with (PlanE ("trigger() is not supported for multiple events, the detector was prepared with number_of_events="
                                     +:+ pretty (number_of_events (trigger_info p)) +:+ "."))
            else update_prepare_context (trigger_info p)
        end;
  arm_done;;
  wait_for_index fuel (pc_collections_written ctx) (collections_per_event (trigger_info ctx))
    (effective_exposure_timeout (trigger_info ctx)) true.

Definition kickoff_ctx : Call KickoffCtx :=
  ctx ← prepare_ctx "Prepare not called";
  d ← get id;
  match writers d with
  | [] => fail_with (StateE ("Detector " +:+ d_name d +:+ " is not streamable, so cannot kickoff"))
  | _ =>
      written ← collections_written;
      let requested := wrap64 (events_to_kickoff d * collections_per_event (trigger_info ctx)) in
      let last_requested := wrap64 (written + requested) in
      let last_expected := wrap64 (pc_collections_written ctx + number_of_collections (trigger_info ctx)) in
      if (last_expected <? last_requested)%Z then
        fail_with (StateE ("Kickoff requested " +:+ pretty written +:+ ":" +:+ pretty last_requested
          +:+ ", but detector was only prepared up to " +:+ pretty last_expected))
      else
        let kickoff := mkKickoff written requested (effective_exposure_timeout (trigger_info ctx))
                         (last_requested =? last_expected)%Z in
        put (set_kicked_off (Some kickoff));;
        mret kickoff
  end.

(** ** The protocols *)

Definition stage : Call unit :=
  ask_hw control_disarm;;
  put (set_prepared None);;
  put (set_kicked_off None);;
  put (set_events_to_kickoff 0);;
  stop_data_logics.
Definition unstage : Call unit := ask_hw control_disarm;; stop_data_logics.

(** A status that has ended, or is still pending. *)
Definition status_of {A} (what : string) (c : Call A) : StandardDetector hw → option (Result unit StatusError) * StandardDetector hw :=
  λ d, match c d with
       | (Ready (Ok _), d) => (Some (Ok ()), d)
       | (Ready (Err e), d) => (Some (Err (SFailed (what +:+ ": " +:+ error_text e))), d)
       | (Waiting, d) => (None, d)
       end.

Definition trigger (fuel : nat) := status_of "trigger" (trigger_one fuel).
Definition prepare (info : TriggerInfo) := status_of "prepare" (prepare_for info).
Definition kickoff (d : StandardDetector hw) : option (Result unit StatusError) * StandardDetector hw :=
  match kickoff_ctx d with
  | (Ready (Ok _), d) => let '(e, h) := control_arm (hardware d) in (Some e, set_hardware h d)
  | (Ready (Err e), d) => (Some (Err (SFailed ("kickoff: " +:+ error_text e))), d)
  | (Waiting, d) => (None, d)
  end.
Definition complete (fuel : nat) (d : StandardDetector hw) : option (Result unit StatusError) * StandardDetector hw :=
  match kicked_off d with
  | None => (Some (Err (SFailed "complete: Kickoff not called")), d)
  | Some k => status_of "complete" (wait_for_index fuel (kc_collections_written k) (collections_requested k)
                                      (kc_exposure_timeout k) (is_last_kickoff k)) d
  end.

Definition get_index : Call Z :=
  ctx ← prepare_ctx "Prepare not called";
  d ← get id;
  mret (min_collections_written d `div` Z.max 1 (collections_per_event (trigger_info ctx)))%Z.
Fixpoint docs_of (ws : list nat) (up_to : Z) (descriptor : string) (h : hw) : list Document * hw :=
  match ws with
  | [] => ([], h)
  | w :: ws => let '(l, h) := writer_docs w up_to descriptor h in
               let '(ls, h) := docs_of ws up_to descriptor h in (l ++ ls, h)
  end.
Definition writers_docs (up_to : Z) (descriptor : string) : Call (list Document) := λ d,
  let '(l, h) := docs_of (writers d) up_to descriptor (hardware d) in (Ready (Ok l), set_hardware h d).
Definition collect_asset_docs (up_to : Z) (descriptor : string) : Call (list Document) :=
  prepare_ctx "Prepare not called";; writers_docs up_to descriptor.
Definition drain_asset_documents (descriptor : string) : Call (list Document) :=
  up_to ← get_index; collect_asset_docs up_to descriptor.

Definition describe_collect : Call (gmap string (gmap string DataKey)) :=
  ctx ← prepare_ctx "Prepare not run";
  d ← get id;
  mret {[ d_name d := data_keys ctx ]}.
Definition collect : Call (list (string * gmap string Value * gmap string f64)) :=
  up_to ← get_index;
  d ← get id;
  let key := d_name d +:+ "_index" in
  mret [(d_name d, {[ key := json_Z up_to ]}, {[ key := 0%Z ]})].
Definition read : Call (gmap string ReadingValue) :=
  ctx ← prepare_ctx "Prepare not called";
  reads ← try_join_all ((λ s, ask_hw (single_read s)) <$> singles ctx);
  mret (foldl (λ m k, k ∪ m) ∅ reads).
Definition describe : Call (gmap string DataKey) :=
  ctx ← prepare_ctx "Prepare not run";
  keys ← try_join_all ((λ s, ask_hw (single_describe s)) <$> singles ctx);
  mret (data_keys ctx ∪ foldl (λ m k, k ∪ m) ∅ keys).
Definition hint_fields (d : StandardDetector hw) : list string :=
  data_logics d ≫= λ l, hinted_fields l (datakey_name d l).

Definition read_configuration : Call (gmap string ReadingValue) :=
  d ← get id; ask_hw (control_read_configuration (d_name d)).
Definition describe_configuration : Call (gmap string DataKey) :=
  d ← get id; ask_hw (control_describe_configuration (d_name d)).
Definition configure : Call unit :=
  fail_with (StateE "StandardDetector is configured via prepare(TriggerInfo), not configure()").
End detector.

(** ** What the detector promises *)

Section promises.
Context `{JsonNumber} {hw : Type} `{!Hardware hw}.
Implicit Types (d : StandardDetector hw) (l : list Z).

Lemma bind_ok {A B} (c : Call A) (f : A → Call B) d b d' :
  (c ≫= f) d = (Ready (Ok b), d') → ∃ a d1, c d = (Ready (Ok a), d1) ∧ f a d1 = (Ready (Ok b), d').
Proof. unfold mbind, call_bind. destruct (c d) as [[[a|e]|] d1]; [eauto|done|done]. Qed.

Lemma bind_get {A B} (f : StandardDetector hw → A) (k : A → Call B) d : (get f ≫= k) d = k (f d) d.
Proof. done. Qed.
Lemma bind_put {A} f (k : unit → Call A) d : (put f ≫= k) d = k () (f d).
Proof. done. Qed.

Lemma min_list_le l m : min_list l = Some m → ∀ x, x ∈ l → (m ≤ x)%Z.
Proof.
  destruct l as [|x l]; [done|]. simpl. intros [= <-].
  assert (∀ l y, (foldl Z.min y l ≤ y)%Z ∧ ∀ z, z ∈ l → (foldl Z.min y l ≤ z)%Z) as Hf.
  { clear. induction l as [|z l IH]; intros y; simpl; [split; [lia|by intros z ?%not_elem_of_nil]|].
    destruct (IH (Z.min y z)) as [H1 H2]. split; [lia|]. intros w [->|Hw]%elem_of_cons; [lia|auto]. }
  destruct (Hf l x) as [H1 H2]. intros y [->|Hy]%elem_of_cons; auto.
Qed.

Lemma set_hardware_eta h d : hardware (set_hardware h d) = h.
Proof. done. Qed.

(** A wait that ends well ends with the frames there. *)
Lemma wait_loop_ok fuel target timeout d d' :
  wait_loop fuel target timeout d = (Ready (Ok ()), d') →
  d' = set_hardware (hardware d') d ∧ ∀ w, w ∈ writers d → (target ≤ indices_written w (hardware d'))%Z.
Proof.
  revert d. induction fuel as [|fuel IH]; intros d; cbn [wait_loop]; rewrite bind_get;
    destruct (min_list (all_written d)) as [m|] eqn:Hm;
    try (intros [= <-]; split; [by destruct d|]; intros w Hw; unfold min_list, all_written in Hm;
         destruct (writers d); [by apply not_elem_of_nil in Hw|done]).
  - destruct (Z.leb_spec target m); [|done]. intros [= <-]. split; [by destruct d|]. intros w Hw.
    etrans; [done|]. eapply min_list_le; [done|]. apply list_elem_of_fmap. by exists w.
  - destruct (Z.leb_spec target m).
    { intros [= <-]. split; [by destruct d|]. intros w Hw.
      etrans; [done|]. eapply min_list_le; [done|]. apply list_elem_of_fmap. by exists w. }
    unfold mbind, call_bind, wait_change. destruct (next_change _ _ _) as [[| |] h]; [|done|done].
    intros (Hd & Hw)%IH. split; [exact Hd|exact Hw].
Qed.

Lemma wait_for_index_ok fuel initial requested timeout idle d d' :
  wait_for_index fuel initial requested timeout idle d = (Ready (Ok ()), d') →
  d' = set_hardware (hardware d') d ∧
  ∃ h, (∀ w, w ∈ writers d → (wrap64 (initial + requested) ≤ indices_written w h)%Z)
    ∧ if idle then control_wait_for_idle h = (Ok (), hardware d') else hardware d' = h.
Proof.
  intros ([] & d1 & Hl & Hi)%bind_ok. apply wait_loop_ok in Hl as [Hd Hw]. destruct idle.
  - unfold ask_hw in Hi. destruct (control_wait_for_idle (hardware d1)) as [r h] eqn:Hc.
    injection Hi as -> <-. split; [rewrite Hd; done|]. exists (hardware d1). done.
  - injection Hi as <-. split; [done|]. by exists (hardware d1).
Qed.

Lemma complete_spec error_text fuel d d' :
  complete error_text fuel d = (Some (Ok ()), d') →
  ∃ k h, kicked_off d = Some k
    ∧ (∀ w, w ∈ writers d →
        (wrap64 (kc_collections_written k + collections_requested k) ≤ indices_written w h)%Z)
    ∧ (if is_last_kickoff k then control_wait_for_idle h = (Ok (), hardware d') else hardware d' = h)
    ∧ d' = set_hardware (hardware d') d.
Proof.
  unfold complete. destruct (kicked_off d) as [k|]; [|done]. unfold status_of.
  destruct (wait_for_index _ _ _ _ _ d) as [[[[]|e]|] d1] eqn:Hw; [|done|done]. intros [= <-].
  apply wait_for_index_ok in Hw as (Hd & h & Hall & Hi). by exists k, h.
Qed.

(** A complete that succeeds found every writer at the end of the kickoff: as many
    collections past where it started as it asked for. After the last kickoff of the
    prepare the hardware has gone idle as well. *)
Theorem complete_waits_for_frames error_text fuel d d' :
  complete error_text fuel d = (Some (Ok ()), d') →
  ∃ k h, kicked_off d = Some k
    ∧ (∀ w, w ∈ writers d →
        (wrap64 (kc_collections_written k + collections_requested k) ≤ indices_written w h)%Z)
    ∧ (if is_last_kickoff k then control_wait_for_idle h = (Ok (), hardware d') else hardware d' = h)
    ∧ d' = set_hardware (hardware d') d.
Proof. apply complete_spec. Qed.

(** *** What the writers agree on *)

Lemma sorted_set l :
  match merge_sort Z.le (remove_dups l) with
  | [] => l = []
  | [n] => l ≠ [] ∧ ∀ x, x ∈ l → x = n
  | _ => ∃ x y, x ∈ l ∧ y ∈ l ∧ x ≠ y
  end.
Proof.
  pose proof (merge_sort_Permutation Z.le (remove_dups l)) as Hp.
  assert (∀ x, x ∈ merge_sort Z.le (remove_dups l) ↔ x ∈ l) as Hin by (intros x; by rewrite Hp, elem_of_remove_dups).
  assert (NoDup (merge_sort Z.le (remove_dups l))) as Hd by (rewrite Hp; apply NoDup_remove_dups).
  destruct (merge_sort _ _) as [|n [|m s]].
  - destruct l as [|x l]; [done|]. destruct (not_elem_of_nil x). apply Hin. left.
  - split; [intros ->; destruct (not_elem_of_nil n); apply Hin; left|].
    intros x Hx%Hin. by apply list_elem_of_singleton in Hx.
  - exists n, m. split_and!; [apply Hin; left|apply Hin; right; left|].
    intros ->. apply NoDup_cons in Hd as [Hd _]. apply Hd. left.
Qed.

Definition agree d (n : Z) : Prop := ∀ w, w ∈ writers d → indices_written w (hardware d) = n.

(** The refusal of writers at different frames, which it names in order. *)
Definition written_apart d : BsrsError :=
  StateE ("Detectors have written different numbers of collections: " +:+ set_text (merge_sort Z.le (remove_dups (all_written d)))).

Lemma collections_written_spec d :
  (∃ n, collections_written d = (Ready (Ok n), d) ∧ agree d n ∧ (writers d = [] → n = 0%Z))
  ∨ (collections_written d = (Ready (Err (written_apart d)), d) ∧ ∀ n, ¬ agree d n).
Proof.
  assert (∀ x, x ∈ all_written d ↔ ∃ w, w ∈ writers d ∧ indices_written w (hardware d) = x) as Hall.
  { intros x. unfold all_written. rewrite list_elem_of_fmap. naive_solver. }
  pose proof (sorted_set (all_written d)) as Hs. unfold collections_written, written_apart. rewrite bind_get.
  destruct (merge_sort _ _) as [|n [|m s]].
  - left. exists 0%Z. split_and!; [done| |done]. intros w Hw. unfold all_written in Hs.
    destruct (writers d); [by apply not_elem_of_nil in Hw|done].
  - left. destruct Hs as [Hne Hs]. exists n. split_and!; [done| |].
    + intros w Hw. apply Hs, Hall. eauto.
    + intros Hw. destruct Hne. unfold all_written. by rewrite Hw.
  - right. destruct Hs as (x & y & Hx & Hy & Hne). split; [done|]. intros k Hk.
    apply Hall in Hx as (w1 & Hw1 & <-). apply Hall in Hy as (w2 & Hw2 & <-). destruct Hne. by rewrite !Hk.
Qed.

(** *** What a call leaves alone *)

Lemma bind_inv {A B} (c : Call A) (f : A → Call B) d r d' :
  (c ≫= f) d = (r, d') →
  (∃ a d1, c d = (Ready (Ok a), d1) ∧ f a d1 = (r, d'))
  ∨ (∃ e, c d = (Ready (Err e), d') ∧ r = Ready (Err e)) ∨ (c d = (Waiting, d') ∧ r = Waiting).
Proof. unfold mbind, call_bind. destruct (c d) as [[[a|e]|] d1]; naive_solver. Qed.

(** Calls that end, and change nothing but the hardware. *)
Definition same_detector d d' : Prop := d' = set_hardware (hardware d') d.
Definition only_hardware {A} (c : Call A) : Prop := ∀ d r d', c d = (r, d') → r ≠ Waiting ∧ same_detector d d'.

Lemma same_detector_refl d : same_detector d d.
Proof. by destruct d. Qed.
Lemma same_detector_trans d1 d2 d3 : same_detector d1 d2 → same_detector d2 d3 → same_detector d1 d3.
Proof. unfold same_detector. intros -> ->. done. Qed.

Lemma only_hardware_ret {A} (a : A) : only_hardware (mret (M := Call) a).
Proof. intros d r d' [= <- <-]. split; [done|apply same_detector_refl]. Qed.
Lemma only_hardware_get {A} (f : StandardDetector hw → A) : only_hardware (get f).
Proof. intros d r d' [= <- <-]. split; [done|apply same_detector_refl]. Qed.
Lemma only_hardware_ask {A} (f : hw → Result A BsrsError * hw) : only_hardware (ask_hw f).
Proof. intros d r d'. unfold ask_hw. destruct (f (hardware d)). by intros [= <- <-]. Qed.
Lemma only_hardware_bind {A B} (c : Call A) (f : A → Call B) :
  only_hardware c → (∀ a, only_hardware (f a)) → only_hardware (c ≫= f).
Proof.
  intros Hc Hf d r d' [(a & d1 & Ha%Hc & Hb%Hf)|[(e & Ha%Hc & ->)|[Ha%Hc ->]]]%bind_inv; [|naive_solver..].
  destruct Ha, Hb. split; [done|]. by eapply same_detector_trans.
Qed.
Lemma only_hardware_join (l : list (Call unit)) : Forall only_hardware l → only_hardware (join_all l).
Proof.
  induction 1 as [|c l Hc _ IH]; [apply only_hardware_ret|]. intros d r d'. cbn [join_all].
  destruct (c d) as [x d1] eqn:Hd. apply Hc in Hd as [Hx Hs]. destruct x as [[[]|e]|]; [| |done].
  - intros [Hr Hs']%IH. split; [done|by eapply same_detector_trans].
  - destruct (join_all l d1) as [y d2] eqn:Hl. apply IH in Hl as [Hy Hs']. destruct y; [|done].
    intros [= <- <-]. split; [done|by eapply same_detector_trans].
Qed.
Lemma only_hardware_try {A} (l : list (Call A)) : Forall only_hardware l → only_hardware (try_join_all l).
Proof.
  induction 1; [apply only_hardware_ret|]. apply only_hardware_bind; [done|]. intros a.
  apply only_hardware_bind; [done|]. intros l'. apply only_hardware_ret.
Qed.
Lemma only_hardware_stop : only_hardware (stop_data_logics (hw := hw)).
Proof.
  apply only_hardware_bind; [apply only_hardware_get|]. intros l. apply only_hardware_join, Forall_fmap, Forall_true.
  intros []; apply only_hardware_ask.
Qed.

(** *** Opening the writers *)

(** Calls that may open writers as well. *)
Definition same_but_opened d d' : Prop := d' = set_opened (opened d') (set_hardware (hardware d') d).
Lemma same_but_opened_trans d1 d2 d3 : same_but_opened d1 d2 → same_but_opened d2 d3 → same_but_opened d1 d3.
Proof. unfold same_but_opened. intros -> ->. done. Qed.
Lemma same_detector_opened d d' : same_detector d d' → same_but_opened d d' ∧ opened d' = opened d.
Proof. unfold same_detector, same_but_opened. intros ->. by destruct d. Qed.

Lemma open_writer_run w n per_event d r d' :
  open_writer w n per_event d = (r, d') →
  r ≠ Waiting ∧ same_but_opened d d' ∧ opened d' = opened d ++ [w].
Proof.
  unfold open_writer. rewrite bind_put. unfold ask_hw. destruct (writer_open _ _ _ _) as [x h].
  by intros [= <- <-].
Qed.
Lemma opens_run (ws : list (nat * string)) per_event d r d' :
  try_join_all ((λ w, open_writer w.1 w.2 per_event) <$> ws) d = (r, d') →
  r ≠ Waiting ∧ same_but_opened d d'
  ∧ ∃ os, opened d' = opened d ++ os ∧ (os `prefix_of` ws.*1) ∧ (∀ ks, r = Ready (Ok ks) → os = ws.*1).
Proof.
  revert d r d'. induction ws as [|[w n] ws IH]; intros d r d'; cbn [fmap list_fmap try_join_all].
  { intros [= <- <-]. split_and!; [done|by destruct d|]. exists []. by rewrite app_nil_r. }
  intros [(ks & d1 & Ho & Ht)|[(e & Ho & ->)|[Ho ->]]]%bind_inv.
  - apply open_writer_run in Ho as (_ & Hs & Ho).
    apply bind_inv in Ht as [(xs & d2 & Ht & Hr)|[(e & Ht & ->)|[Ht ->]]];
      apply IH in Ht as (Hw & Hs' & os & Ho' & Hp & Hf); try done;
      [injection Hr as <- <-|];
      (split_and!; [done|by eapply same_but_opened_trans|]);
      exists (w :: os); rewrite Ho', Ho, <- app_assoc; (split_and!; [done|by apply prefix_cons|]);
      [|done]. intros _ _. simpl. f_equal. by eapply Hf.
  - apply open_writer_run in Ho as (_ & Hs & Ho). split_and!; [done|done|].
    exists [w]. split_and!; [done|by apply prefix_cons, prefix_nil|done].
  - by apply open_writer_run in Ho as (? & _).
Qed.

Definition single_logics d : list nat :=
  omap (λ g, match g with Single s => Some s | Unbounded _ => None end) (data_logics d).

Lemma opens_are_writers (name : DataLogic → string) per_event (ls : list DataLogic) :
  ∃ ws : list (nat * string),
    ws.*1 = omap (λ g, match g with Unbounded w => Some w | Single _ => None end) ls
    ∧ omap (λ g, match g with
                 | Unbounded w => Some (open_writer w (name g) per_event) | Single _ => None end) ls
      = (λ w, open_writer w.1 w.2 per_event) <$> ws.
Proof.
  induction ls as [|[w|y] ls (ws & Hf & Ho)]; [by exists []| |by exists ws].
  exists ((w, name (Unbounded w)) :: ws). cbn. by rewrite Hf, Ho.
Qed.

Lemma singles_set_up (c : nat → DataLogic → Call unit) (ls : list DataLogic) :
  (∀ x g, only_hardware (c x g)) →
  let l := omap (λ g, match g with Single s => Some (s, c s g) | Unbounded _ => None end) ls in
  only_hardware (try_join_all l.*2)
  ∧ l.*1 = omap (λ g, match g with Single s => Some s | Unbounded _ => None end) ls.
Proof.
  intros Hc l. split.
  - apply only_hardware_try, Forall_fmap, Forall_forall. intros [x y] (l' & _ & Hl)%list_elem_of_omap.
    destruct l'; [done|]. injection Hl as <- <-. apply Hc.
  - subst l. induction ls as [|[w|y] ls IH]; cbn; [done|done|by rewrite IH].
Qed.

Lemma prepare_data_logics_run info d r d' :
  prepare_data_logics info d = (r, d') →
  r ≠ Waiting ∧ same_but_opened d d'
  ∧ ∃ os, opened d' = opened d ++ os ∧ os `prefix_of` writers d
    ∧ ∀ ks ss, r = Ready (Ok (ks, ss)) →
        os = writers d ∧ ss = if (number_of_collections info =? 1)%Z then single_logics d else [].
Proof.
  unfold prepare_data_logics. rewrite bind_get. unfold id. cbv zeta.
  destruct (opens_are_writers (datakey_name d) (collections_per_event info) (data_logics d)) as (ws & Hws & ->).
  destruct (singles_set_up (λ x g, ask_hw (prepare_single x (datakey_name d g))) (data_logics d)) as [Ht Hf].
  { intros. apply only_hardware_ask. }
  intros [(ks & d1 & Ho & Hk)|[(e & Ho & ->)|[Ho ->]]]%bind_inv;
    apply opens_run in Ho as (Hn & Hs & os & Ho & Hp & Hok);
    rewrite Hws in *; fold (writers d) in *;
    [|split_and!; [done|done|]; by exists os..].
  specialize (Hok _ eq_refl) as ->.
  assert (∀ l : list (nat * Call unit), only_hardware (try_join_all l.*2) →
    (try_join_all l.*2;; mret (foldl (λ m k, k ∪ m) ∅ ks, l.*1)) d1 = (r, d') →
    r ≠ Waiting ∧ same_detector d1 d' ∧ ∀ x y, r = Ready (Ok (x, y)) → y = l.*1) as Hl.
  { intros l Hl Hr. apply bind_inv in Hr as [(us & d2 & Hr%Hl & Hu)|[(e & Hr%Hl & ->)|[Hr%Hl ->]]]; [|naive_solver..].
    injection Hu as <- <-. destruct Hr. split_and!; [done|done|]. by intros ? ? [= _ <-]. }
  destruct (number_of_collections info =? 1)%Z.
  all: apply Hl in Hk as (Hr & (Hsd & Hod)%same_detector_opened & Hy);
    [|by first [apply Ht|apply only_hardware_ret]].
  all: split_and!; [done|by eapply same_but_opened_trans|]; exists (writers d).
  all: split_and!; [congruence|done|]; intros x y Hxy; split; [done|]; by rewrite (Hy _ _ Hxy).
Qed.

(** The data logics stay as they are while the collections of an event do. *)
Definition kept info d : Prop :=
  ∃ p, prepared d = Some p ∧ collections_per_event (trigger_info p) = collections_per_event info.

(** What a prepare makes of the detector [d]: in [d'], it has ended with [ctx]. *)
Record Prepares info d d' (ctx : PrepareCtx) : Prop := {
  pr_info : trigger_info ctx = info;
  pr_baseline : agree d' (pc_collections_written ctx);
  pr_prepared : prepared d' = Some ctx;
  pr_opened : (kept info d ∧ opened d' = opened d) ∨ (¬ kept info d ∧ opened d' = opened d ++ writers d);
  pr_keys : ∀ p, prepared d = Some p → kept info d → data_keys ctx = data_keys p ∧ singles ctx = singles p;
  pr_singles : ¬ kept info d →
    singles ctx = if (number_of_collections info =? 1)%Z then single_logics d else [];
}.
(** What it leaves alone. *)
Definition same_but_prepared d d' : Prop :=
  d' = set_prepared (prepared d') (set_opened (opened d') (set_hardware (hardware d') d)).

(** The data logics it ends with, after taking the prepare of [d] away. *)
Record Logics info d d1 (x : Polled (gmap string DataKey * list nat)) : Prop := {
  lg_ends : x ≠ Waiting;
  lg_same : same_but_opened (set_prepared None d) d1;
  lg_kept : kept info d → opened d1 = opened d;
  lg_opened ks ss : x = Ready (Ok (ks, ss)) →
    (kept info d ∧ opened d1 = opened d) ∨ (¬ kept info d ∧ opened d1 = opened d ++ writers d);
  lg_keys ks ss p : x = Ready (Ok (ks, ss)) → prepared d = Some p → kept info d →
    ks = data_keys p ∧ ss = singles p;
  lg_singles ks ss : x = Ready (Ok (ks, ss)) → ¬ kept info d →
    ss = if (number_of_collections info =? 1)%Z then single_logics d else [];
}.

Lemma fresh_logics info d d1 x d2 :
  same_detector (set_prepared None d) d2 → ¬ kept info d → prepare_data_logics info d2 = (x, d1) →
  Logics info d d1 x.
Proof.
  intros Hd2 Hk (Hn & Hs & os & Ho & _ & Hok)%prepare_data_logics_run.
  unfold same_detector in Hd2. split; [done| |done|..].
  - eapply same_but_opened_trans; [by apply same_detector_opened|done].
  - intros ks ss Hx. destruct (Hok ks ss Hx) as [-> _]. right. by rewrite Ho, Hd2.
  - done.
  - intros ks ss Hx _. destruct (Hok ks ss Hx) as [_ ->]. by rewrite Hd2.
Qed.

Lemma logics_run info d d1 x :
  match prepared d with
  | Some p =>
      if (collections_per_event (trigger_info p) =? collections_per_event info)%Z
      then mret (data_keys p, singles p)
      else stop_data_logics;; prepare_data_logics info
  | None => prepare_data_logics info
  end (set_prepared None d) = (x, d1) → Logics info d d1 x.
Proof.
  destruct (prepared d) as [p|] eqn:Hp.
  - destruct (Z.eqb_spec (collections_per_event (trigger_info p)) (collections_per_event info)) as [Hc|Hc].
    + intros [= <- <-]. assert (kept info d) by by exists p.
      split; [done|by destruct d|done|by left| |done]. intros ks ss p' [= <- <-]. by rewrite Hp; intros [= <-].
    + assert (¬ kept info d) as Hk by (intros (p' & Hp' & Hc'); congruence).
      intros [([] & d2 & Hs%only_hardware_stop & Hl)|[(e & Hs%only_hardware_stop & ->)|[Hs%only_hardware_stop ->]]]%bind_inv;
        destruct Hs as [Hn Hs]; [by eapply fresh_logics| |done].
      split; [done|by apply same_detector_opened|done..].
  - apply fresh_logics; [apply same_detector_refl|]. intros (p & Hp' & _). by rewrite Hp' in Hp.
Qed.

Lemma update_run info d r d' :
  update_prepare_context info d = (r, d') →
  r ≠ Waiting ∧ same_but_prepared d d'
  ∧ (∀ ctx, r = Ready (Ok ctx) → Prepares info d d' ctx)
  ∧ (∀ e, r = Ready (Err e) → prepared d' = None ∧ (kept info d → opened d' = opened d)).
Proof.
  unfold update_prepare_context. rewrite bind_get, bind_put.
  intros [([ks ss] & d1 & Hl & Hr)|[(e & Hl & ->)|[Hl ->]]]%bind_inv;
    apply logics_run in Hl as [Hn Hs Hk Ho Hkeys Hss]; unfold same_but_opened in Hs; [| |done].
  - apply bind_inv in Hr. destruct (collections_written_spec d1) as [(n & Hc & Ha & _)|(Hc & _)]; rewrite Hc in Hr.
    + destruct Hr as [(n' & d2 & [= <- <-] & Hr)|[(e & ? & _)|[? _]]]; [|done|done]. rewrite bind_put in Hr.
      injection Hr as <- <-. split_and!; [done|by rewrite Hs|..|done].
      intros ctx [= <-]. split; eauto.
    + destruct Hr as [(n & d2 & ? & _)|[(e & [= <- <-] & ->)|[? _]]]; [done| |done].
      split_and!; [done|by rewrite Hs|done|]. intros ? _. by rewrite Hs.
  - split_and!; [done|by rewrite Hs|done|]. intros ? _. by rewrite Hs.
Qed.

(** A prepare that succeeds has set the hardware up for [info], recorded it with the
    collections every writer has written as where it starts, and lets the next kickoff ask
    for all of its events. The writers are opened again, each once, only when the number of
    collections in an event changes or nothing was prepared since stage; otherwise their data
    keys and the single data logics are those of the previous prepare. A prepare that fails
    keeps the events to kick off: what the hardware refuses also leaves the previous prepare,
    and a failure after it leaves none. *)
Theorem prepare_records_its_info error_text info d :
  match prepare error_text info d with
  | (Some (Ok _), d') =>
      ∃ h ctx, control_prepare info (hardware d) = (Ok (), h)
        ∧ Prepares info (set_hardware h d) d' ctx
        ∧ events_to_kickoff d' = number_of_events info ∧ kicked_off d' = kicked_off d
  | (Some (Err _), d') =>
      events_to_kickoff d' = events_to_kickoff d ∧ kicked_off d' = kicked_off d
      ∧ match (control_prepare info (hardware d)).1 with
        | Err _ => same_detector d d'
        | Ok _ => prepared d' = None ∧ (kept info d → opened d' = opened d)
        end
  | (None, _) => False
  end.
Proof.
  unfold prepare, status_of, prepare_for. unfold mbind at 1, call_bind at 1, ask_hw.
  destruct (control_prepare info (hardware d)) as [[[]|e] h] eqn:Hc; [|done].
  unfold mbind at 1, call_bind at 1.
  destruct (update_prepare_context info (set_hardware h d)) as [r d1] eqn:Hu.
  apply update_run in Hu as (Hn & Hs & Hok & Herr). unfold same_but_prepared in Hs.
  destruct r as [[ctx|e]|]; [| |done].
  - specialize (Hok _ eq_refl). rewrite bind_put. simpl. exists h, ctx. split_and!; [done| |by rewrite (pr_info _ _ _ _ Hok)|by rewrite Hs].
    destruct Hok. by split.
  - destruct (Herr _ eq_refl) as [H1 H2]. simpl. rewrite Hs. by split_and!.
Qed.

(** A trigger that succeeds acquired one event: the detector was prepared for one event, or
    for the default trigger when nothing was prepared since stage; every writer then wrote an
    event's collections past the baseline taken just before it was armed, and after that the
    hardware went idle. A detector prepared for several events refuses it and changes nothing. *)
Theorem trigger_takes_one_event error_text fuel d d' :
  trigger error_text fuel d = (Some (Ok ()), d') →
  ∃ ctx d1 h1 h2, number_of_events (trigger_info ctx) = 1%Z
    ∧ (prepared d = None → trigger_info ctx = trigger_info_default)
    ∧ (∀ p, prepared d = Some p → trigger_info ctx = trigger_info p)
    ∧ agree d1 (pc_collections_written ctx) ∧ control_arm (hardware d1) = (Ok (), h1)
    ∧ (∀ w, w ∈ writers d →
        (wrap64 (pc_collections_written ctx + collections_per_event (trigger_info ctx)) ≤ indices_written w h2)%Z)
    ∧ control_wait_for_idle h2 = (Ok (), hardware d')
    ∧ prepared d' = Some ctx ∧ kicked_off d' = kicked_off d.
Proof.
  unfold trigger, status_of. destruct (trigger_one fuel d) as [[[[]|e]|] d2] eqn:Ht; [|done|done].
  intros [= <-]. unfold trigger_one in Ht. rewrite bind_get in Ht. apply bind_ok in Ht as (ctx & d1 & Hc & Ht).
  assert (number_of_events (trigger_info ctx) = 1%Z
    ∧ (prepared d = None → trigger_info ctx = trigger_info_default)
    ∧ (∀ p, prepared d = Some p → trigger_info ctx = trigger_info p)
    ∧ agree d1 (pc_collections_written ctx) ∧ writers d1 = writers d
    ∧ prepared d1 = Some ctx ∧ kicked_off d1 = kicked_off d) as (H1 & H2 & H3 & H4 & Hw & H5 & H6).
  { destruct (prepared d) as [p|] eqn:Hp.
    - destruct (Z.eqb_spec (number_of_events (trigger_info p)) 1); [|done]. simpl in Hc.
      apply update_run in Hc as (_ & Hs & Hok & _). specialize (Hok _ eq_refl). destruct Hok.
      unfold same_but_prepared in Hs. rewrite pr_info0. split_and!; [done|done|by intros ? [= <-]|done|by rewrite Hs|done|by rewrite Hs].
    - apply bind_ok in Hc as ([] & d3 & Ha & Hc). unfold ask_hw in Ha. destruct (control_prepare _ _) as [x h].
      injection Ha as -> <-. apply bind_ok in Hc as (ctx' & d4 & Hc & Hr). rewrite bind_put in Hr. injection Hr as <- <-.
      apply update_run in Hc as (_ & Hs & Hok & _). specialize (Hok _ eq_refl). destruct Hok.
      unfold same_but_prepared in Hs. rewrite pr_info0. split_and!; [done|done|done|done|by rewrite Hs|done|by rewrite Hs]. }
  apply bind_ok in Ht as ([] & d3 & Ha & Ht). unfold arm_done in Ha.
  destruct (control_arm (hardware d1)) as [[[]|] h1] eqn:Harm; [|done]. injection Ha as <-.
  apply wait_for_index_ok in Ht as (Hd & h2 & Hall & Hi). exists ctx, d1, h1, h2.
  rewrite Hd. split_and!; try done. rewrite <- Hw. exact Hall.
Qed.

(** Where the collections asked for end, and where those prepared do. *)
Definition requested_end d (p : PrepareCtx) (n : Z) : Z :=
  (n + events_to_kickoff d * collections_per_event (trigger_info p))%Z.
Definition prepared_end (p : PrepareCtx) : Z :=
  (pc_collections_written p + number_of_collections (trigger_info p))%Z.

(** The sums of a kickoff fit 64 bits. *)
Definition sums_fit d (p : PrepareCtx) (n : Z) : Prop :=
  in_u64 (requested_end d p n) ∧ in_u64 (prepared_end p) ∧ (0 ≤ n)%Z
  ∧ (0 ≤ events_to_kickoff d * collections_per_event (trigger_info p))%Z.
(** What a kickoff from frame [n] asks for, and the refusal of one that asks for too much. *)
Definition kickoff_from d (p : PrepareCtx) (n : Z) : KickoffCtx :=
  mkKickoff n (events_to_kickoff d * collections_per_event (trigger_info p))
    (effective_exposure_timeout (trigger_info p)) (requested_end d p n =? prepared_end p)%Z.
Definition beyond_prepared d (p : PrepareCtx) (n : Z) : BsrsError :=
  StateE ("Kickoff requested " +:+ pretty n +:+ ":" +:+ pretty (requested_end d p n)
          +:+ ", but detector was only prepared up to " +:+ pretty (prepared_end p)).
Definition not_streamable d : BsrsError := StateE ("Detector " +:+ d_name d +:+ " is not streamable, so cannot kickoff").

Definition kickoff_specified d : Prop :=
  match prepared d with
  | None => kickoff_ctx d = (Ready (Err (StateE "Prepare not called")), d)
  | Some p =>
      (writers d = [] ∧ kickoff_ctx d = (Ready (Err (not_streamable d)), d))
      ∨ (writers d ≠ [] ∧ (∀ n, ¬ agree d n) ∧ kickoff_ctx d = (Ready (Err (written_apart d)), d))
      ∨ (writers d ≠ [] ∧ ∃ n, agree d n ∧
           kickoff_ctx d = if (requested_end d p n <=? prepared_end p)%Z
                           then (Ready (Ok (kickoff_from d p n)), set_kicked_off (Some (kickoff_from d p n)) d)
                           else (Ready (Err (beyond_prepared d p n)), d))
  end.

Lemma kickoff_ctx_spec d :
  (writers d ≠ [] → ∀ p n, prepared d = Some p → agree d n → sums_fit d p n) → kickoff_specified d.
Proof.
  intros Hb. unfold kickoff_specified. remember (kickoff_ctx d) as r eqn:Hr.
  unfold kickoff_ctx, prepare_ctx in Hr. unfold mbind at 1, call_bind at 1 in Hr. rewrite bind_get in Hr.
  destruct (prepared d) as [p|] eqn:Hp; [|done]. unfold mret, call_ret in Hr. rewrite bind_get in Hr. unfold id in Hr.
  destruct (writers d) as [|w ws] eqn:Hw; [by left|]. right. unfold mbind at 1, call_bind at 1 in Hr.
  destruct (collections_written_spec d) as [(n & Hc & Ha & _)|(Hc & Ha)]; rewrite Hc in Hr; [right|by left].
  split; [done|]. exists n. split; [done|]. subst r.
  destruct (Hb ltac:(done) p n eq_refl Ha) as (H1 & H2 & H3 & H4).
  unfold kickoff_from, beyond_prepared, requested_end, prepared_end in *.
  rewrite (wrap64_small (events_to_kickoff d * _)) by (unfold in_u64 in *; lia).
  rewrite (wrap64_small (n + _)), (wrap64_small (pc_collections_written p + _)) by done.
  rewrite Z.leb_antisym. by destruct (_ <? _)%Z.
Qed.

(** C33: A kickoff is refused unless the detector is prepared, has writers, they agree on the
    frames they have written, and the frames asked for from there on are within those
    prepared; each refusal is the error for its reason, in this order, and changes nothing. One
    that is accepted asks for the events set, from the frame reached, and is the last one
    when they end where the prepared ones do. The sums are to fit 64 bits where they are
    computed: with writers that agree. *)
Theorem kickoff_within_prepare d :
  (writers d ≠ [] → ∀ p n, prepared d = Some p → agree d n → sums_fit d p n) → kickoff_specified d.
Proof. apply kickoff_ctx_spec. Qed.

(** A fly scan: when the last kickoff of a prepare completes, every writer has written all
    that was prepared, counted from the baseline of the prepare, and the hardware is idle. *)
Theorem last_kickoff_completes_the_prepare error_text fuel d d1 p k d2 d3 :
  prepared d = Some p →
  (∀ n, agree d n → sums_fit d p n) →
  kickoff_ctx d = (Ready (Ok k), d1) → is_last_kickoff k = true →
  d2 = set_hardware (hardware d2) d1 →
  complete error_text fuel d2 = (Some (Ok ()), d3) →
  ∃ h, (∀ w, w ∈ writers d → (prepared_end p ≤ indices_written w h)%Z)
    ∧ control_wait_for_idle h = (Ok (), hardware d3).
Proof.
  intros Hp Hb Hk Hlast Hd2 Hc. assert (kickoff_specified d) as Hs.
  { apply kickoff_ctx_spec. intros _ p' n Hp' Ha. rewrite Hp in Hp'. injection Hp' as <-. by apply Hb. }
  unfold kickoff_specified in Hs. rewrite Hp, Hk in Hs.
  destruct Hs as [[_ Hs]|[(_ & _ & Hs)|(_ & n & Ha & Hs)]]; [done..|]. destruct (_ <=? _)%Z in Hs; [|done]. injection Hs as -> ->.
  simpl in Hlast. apply Z.eqb_eq in Hlast.
  apply complete_spec in Hc as (k & h & Hk2 & Hall & Hi & Hd). rewrite Hd2 in Hk2. injection Hk2 as <-.
  simpl in Hall, Hi. rewrite Hlast, Z.eqb_refl in Hi. exists h. split; [|done]. intros w Hin.
  rewrite <- Hlast. destruct (Hb n Ha) as (H1 & _). rewrite <- (wrap64_small _ H1). apply Hall. by rewrite Hd2.
Qed.
End promises.

(** ** A detector on the bench *)

Module DetectorExample.
Import Sample.
(** The frames each writer has written, and whether the detector is armed. Armed, every
    update finds one more frame of each writer; idle, none comes. *)
Record Bench := mkBench { frames : list Z; armed : bool }.
Definition set_armed (b : bool) (h : Bench) : Bench := mkBench (frames h) b.
Definition no_names : nat → string → list string := λ _ _, [].

#[export] Instance bench : Hardware Bench := {|
  control_prepare _ h := (Ok (), h);
  control_arm h := (Ok (), set_armed true h);
  control_wait_for_idle h := (Ok (), set_armed false h);
  control_disarm h := (Ok (), set_armed false h);
  control_read_configuration _ h := (Ok ∅, h);
  control_describe_configuration _ h := (Ok ∅, h);
  writer_open _ _ _ h := (Ok ∅, h);
  writer_close _ h := (Ok (), h);
  indices_written w h := default 0%Z (frames h !! w);
  next_change _ _ h := if armed h then (Changed, mkBench (Z.succ <$> frames h) true) else (TimedOut, h);
  writer_docs _ _ _ h := ([], h);
  writer_suffix _ := "";
  writer_hints := no_names;
  prepare_single _ _ h := (Ok (), h);
  single_describe _ h := (Ok ∅, h);
  single_read _ h := (Ok ∅, h);
  single_stop _ h := (Ok (), h);
  single_suffix _ := "-sum";
  single_hints := no_names;
|}.

Definition no_text (e : BsrsError) : string := "".
Definition events_of (n per_event : Z) : TriggerInfo := mkTriggerInfo Internal n None None 1 per_event None.
Definition camera : StandardDetector Bench := new_detector "cam" [Unbounded 0; Unbounded 1] (mkBench [7; 7]%Z false).
Definition prepared_for (n per_event : Z) (d : StandardDetector Bench) : StandardDetector Bench :=
  (prepare no_text (events_of n per_event) d).2.
Definition kicked (d : StandardDetector Bench) : StandardDetector Bench := (kickoff no_text d).2.

Lemma complete_waits_for_frames_witness :
  ∃ k (h : Bench), kicked_off (kicked (prepared_for 2 3 camera)) = Some k
    ∧ (∀ w, w ∈ [0; 1] → (13 ≤ indices_written w h)%Z) ∧ kc_collections_written k = 7%Z.
Proof.
  set (d := kicked (prepared_for 2 3 camera)).
  assert (complete no_text 9 d = (Some (Ok ()), (complete no_text 9 d).2)) as Hc by by vm_compute.
  assert (kicked_off d = Some (mkKickoff 7 6 exposure_timeout_margin true)) as Hd by by vm_compute.
  destruct (complete_waits_for_frames no_text 9 d _ Hc) as (k & h & Hk & Hw & _).
  rewrite Hd in Hk. injection Hk as <-. eauto.
Defined.

Lemma kickoff_within_prepare_witness :
  ∃ k d', kickoff_ctx (prepared_for 2 3 camera) = (Ready (Ok k), d') ∧ collections_requested k = 6%Z
    ∧ is_last_kickoff k = true.
Proof.
  set (d := prepared_for 2 3 camera). set (p := mkPrepare (events_of 2 3) 7 ∅ []).
  assert (prepared d = Some p) as Hp by by vm_compute.
  assert (∀ n, agree d n → n = 7%Z) as H7 by (intros n Hn; specialize (Hn 0 ltac:(left)); by simpl in Hn).
  assert (kickoff_specified d) as Hk.
  { apply (kickoff_within_prepare d). intros _ p' n Hp' ->%H7. rewrite Hp in Hp'. injection Hp' as <-.
    unfold sums_fit, in_u64. vm_compute. repeat split; discriminate. }
  unfold kickoff_specified in Hk. rewrite Hp in Hk.
  destruct Hk as [[Hk _]|[(_ & Hk & _)|(_ & n & Hn & Hk)]].
  - discriminate.
  - destruct (Hk 7%Z). intros w Hw. repeat (apply elem_of_cons in Hw as [->|Hw]; [reflexivity|]). by apply not_elem_of_nil in Hw.
  - apply H7 in Hn as ->. eexists _, _. split; [exact Hk|]. by split; vm_compute.
Defined.
(** Without writers the kickoff is refused, whatever was prepared. *)
Lemma kickoff_without_writers : ∃ d', kickoff_ctx (prepared_for 2 3 (new_detector "cam" [] (mkBench [] false))) =
  (Ready (Err (StateE "Detector cam is not streamable, so cannot kickoff")), d').
Proof. eexists. reflexivity. Qed.

Lemma trigger_takes_one_event_witness :
  ∃ (ctx : PrepareCtx) (h2 : Bench), (∀ w, w ∈ [0; 1] → (8 ≤ indices_written w h2)%Z)
    ∧ prepared (trigger no_text 5 camera).2 = Some ctx.
Proof.
  assert (trigger no_text 5 camera = (Some (Ok ()), (trigger no_text 5 camera).2)) as Ht by by vm_compute.
  assert (prepared (trigger no_text 5 camera).2 = Some (mkPrepare trigger_info_default 7 ∅ [])) as Hd by by vm_compute.
  destruct (trigger_takes_one_event no_text 5 camera _ Ht)
    as (ctx & d1 & h1 & h2 & _ & _ & _ & _ & _ & Hw & _ & Hp & _).
  rewrite Hd in Hp. injection Hp as <-. eauto.
Defined.

Lemma last_kickoff_completes_the_prepare_witness :
  ∃ h : Bench, ∀ w, w ∈ [0; 1] → (13 ≤ indices_written w h)%Z.
Proof.
  set (d := prepared_for 2 3 camera). set (p := mkPrepare (events_of 2 3) 7 ∅ []).
  set (k := mkKickoff 7 6 exposure_timeout_margin true).
  assert (∀ n, agree d n → in_u64 (requested_end d p n) ∧ in_u64 (prepared_end p) ∧ (0 ≤ n)%Z
    ∧ (0 ≤ events_to_kickoff d * collections_per_event (trigger_info p))%Z) as Hb.
  { intros n Hn. specialize (Hn 0 ltac:(left)). simpl in Hn. subst n. unfold in_u64. vm_compute.
    repeat split; discriminate. }
  destruct (last_kickoff_completes_the_prepare no_text 9 d (kickoff_ctx d).2 p k (kicked d)
    (complete no_text 9 (kicked d)).2) as (h & Hw & _);
    [by vm_compute|exact Hb|reflexivity|reflexivity|by vm_compute|by vm_compute|]. exists h. exact Hw.
Defined.

(** A prepare for 65536 events of 65536 collections each counts no collection at all
    (32 bits), so that the kickoff of the events it was prepared for is refused. *)
Lemma prepared_events_are_refused :
  let d := prepared_for 65536 65536 camera in
  (prepare no_text (events_of 65536 65536) camera).1 = Some (Ok ())
  ∧ events_to_kickoff d = 65536%Z ∧ (∃ e d', kickoff_ctx d = (Ready (Err e), d')).
Proof. split_and!; [reflexivity|reflexivity|]. eexists _, _. reflexivity. Qed.

(** A trigger that finds the writers at different frames fails and forgets the prepare,
    though no writer was opened again: when they agree once more the next trigger prepares
    the default instead of what was asked for. *)
Lemma failed_trigger_forgets_the_prepare :
  let d := set_hardware (mkBench [8; 9]%Z false) (prepared_for 1 3 camera) in
  let failed := trigger no_text 5 d in
  let again := trigger no_text 5 (set_hardware (mkBench [9; 9]%Z false) failed.2) in
  (∃ e, failed.1 = Some (Err e)) ∧ again.1 = Some (Ok ())
  ∧ trigger_info <$> prepared d = Some (events_of 1 3)
  ∧ trigger_info <$> prepared again.2 = Some trigger_info_default.
Proof. split_and!; [eexists; reflexivity|reflexivity..]. Qed.

(** The single data logics follow the first prepare of the scan: a later one for several
    collections keeps them, a later one for one collection does not set them up. *)
Lemma singles_follow_the_first_prepare :
  let d : StandardDetector Bench := new_detector "cam" [Unbounded 0; Single 1] (mkBench [7]%Z false) in
  singles <$> prepared (prepared_for 5 1 (prepared_for 1 1 d)) = Some [1]
  ∧ singles <$> prepared (prepared_for 1 1 (prepared_for 5 1 d)) = Some [].
Proof. vm_compute. auto. Qed.
End DetectorExample.
