(* ===== verification/SoftSignal.v ===== *)
(** * The soft signal backend ([backends/soft/signal.rs])

    A value in memory that threads write and subscribe to. Every section of the code under a
    lock is one step, so is every call of a callback; between two steps of a thread the
    others go on. A callback may itself write, subscribe and unsubscribe, or panic. *)

From S2P Require Import Prelude Interfaces Errors Documents F64.

(** ** The state and what each section under a lock does to it *)

Section soft.
Context {T : Type}.
Implicit Types (v : T) (id : nat).

(** A value and its timestamp. *)
Definition Stored : Type := T * f64.
Implicit Types (r : Stored).

Record Mailbox := mkMailbox { pending : list Stored; draining : bool }.
Definition new_mailbox : Mailbox := mkMailbox [] false.

(** [State<T>]; the mailboxes of removed subscribers stay, since the drains that hold them
    do. [polled]: the getter has a poll period; [poll]: a task polls it. *)
Record Soft := mkSoft {
  value : T;
  setpoint : T;
  timestamp : f64;
  subscribers : list nat;
  next_id : nat;
  poll : bool;
  polled : bool;
  mailboxes : gmap nat Mailbox;
}.
Implicit Types (s : Soft).

Definition box id s : Mailbox := default new_mailbox (mailboxes s !! id).
Definition reading s : Stored := (value s, timestamp s).
Definition new_soft (initial : T) (now : f64) (polled : bool) : Soft :=
  mkSoft initial initial now [] 0 false polled ∅.
Definition set_boxes ms s : Soft :=
  mkSoft (value s) (setpoint s) (timestamp s) (subscribers s) (next_id s) (poll s) (polled s) ms.
Definition set_setpoint v s : Soft :=
  mkSoft (value s) v (timestamp s) (subscribers s) (next_id s) (poll s) (polled s) (mailboxes s).

(** Queue a reading; true when the caller must drain the mailbox. *)
Definition enqueue r (m : Mailbox) : bool * Mailbox := (negb (draining m), mkMailbox (pending m ++ [r]) true).
Fixpoint enqueue_all r (ids : list nat) (ms : gmap nat Mailbox) : list nat * gmap nat Mailbox :=
  match ids with
  | [] => ([], ms)
  | id :: ids =>
      let '(mine, m) := enqueue r (default new_mailbox (ms !! id)) in
      let '(l, ms) := enqueue_all r ids (<[id := m]> ms) in
      (if mine then id :: l else l, ms)
  end.

(** The locked part of [store]: what it stores, and whom to deliver to. *)
Definition store v (put : bool) (now : f64) s : list nat * Soft :=
  let '(l, ms) := enqueue_all (v, now) (subscribers s) (mailboxes s) in
  (l, mkSoft v (if put then v else setpoint s) now (subscribers s) (next_id s) (poll s) (polled s) ms).

(** The locked part of [set_callback]: the new subscriber, with the current reading queued. *)
Definition register s : nat * Soft :=
  let id := next_id s in
  let subs := subscribers s ++ [id] in
  (id, mkSoft (value s) (setpoint s) (timestamp s) subs (S id)
         (if length subs =? 1 then polled s else poll s) (polled s)
         (<[id := (enqueue (reading s) new_mailbox).2]> (mailboxes s))).

(** The two locked parts of dropping the token. *)
Definition unregister id s : Soft :=
  let subs := filter (λ x, x ≠ id) (subscribers s) in
  mkSoft (value s) (setpoint s) (timestamp s) subs (next_id s)
    (if decide (subs = []) then false else poll s) (polled s) (mailboxes s).
Definition clear_pending id s : Soft :=
  set_boxes (<[id := mkMailbox [] (draining (box id s))]> (mailboxes s)) s.

(** One turn of the loop of [drain] under the mailbox's lock. *)
Definition pop id s : option Stored * Soft :=
  match pending (box id s) with
  | r :: l => (Some r, set_boxes (<[id := mkMailbox l (draining (box id s))]> (mailboxes s)) s)
  | [] => (None, set_boxes (<[id := mkMailbox [] false]> (mailboxes s)) s)
  end.
Definition release id s : Soft :=
  set_boxes (<[id := mkMailbox (pending (box id s)) false]> (mailboxes s)) s.

(** ** Reads and puts

    [put_start] writes the setpoint and stores the readback: what the setter answers, else
    what the getter does, else the setpoint. *)
Inductive Write := WStore v (put : bool) | WSetpoint v.

Definition refresh `{JsonNumber} (getter : option (Result T BsrsError)) : list Write * Result unit BsrsError :=
  match getter with
  | None => ([], Ok ())
  | Some (Ok v) => ([WStore v false], Ok ())
  | Some (Err e) => ([], Err e)
  end.
Definition put_start `{JsonNumber} (initial : T) (setter : option (Result (option T) BsrsError))
    (getter : option (Result T BsrsError)) (v : option T) : list Write * Result unit BsrsError :=
  let sp := default initial v in
  match setter with
  | None => ([WStore sp true], Ok ())
  | Some (Err e) => ([WSetpoint sp], Err e)
  | Some (Ok (Some readback)) => ([WSetpoint sp; WStore readback false], Ok ())
  | Some (Ok None) =>
      match getter with
      | Some _ => let '(l, r) := refresh getter in (WSetpoint sp :: l, r)
      | None => ([WSetpoint sp; WStore sp false], Ok ())
      end
  end.
Definition write (now : f64) (w : Write) s : Soft :=
  match w with WStore v put => (store v put now s).2 | WSetpoint v => set_setpoint v s end.

(** ** Threads

    [ToDrain]: the loop over the claimed subscribers; [Draining]: [drain], its release on a
    panic included; [Calling]: a reading taken, its callback about to start; [InCallback]:
    in the callback; [Clearing]: unregistered, the queue still to be cleared. *)
Inductive Frame := ToDrain (ids : list nat) | Draining id | Calling id r | InCallback id | Clearing id.

(** [stacks]: every thread's frames, the innermost first. Kept for the theorems: the calls
    made, what was stored, and the place in it of each subscriber's first reading. *)
Record World := mkWorld {
  soft : Soft;
  stacks : list (list Frame);
  calls : list (nat * Stored);
  history : list Stored;
  since : gmap nat nat;
}.
Implicit Types (w : World).

Definition new_world (initial : T) (now : f64) (polled : bool) (threads : nat) : World :=
  mkWorld (new_soft initial now polled) (replicate threads []) [] [(initial, now)] ∅.

Inductive Act :=
| Begin (x : Write) (now : f64)
| Subscribe
| Unsubscribe id
| Go
| Panic.

(** A panic unwinds the thread, the drains on its stack releasing their mailboxes. *)
Fixpoint unwind (k : list Frame) s : Soft :=
  match k with
  | [] => s
  | Draining id :: k => unwind k (release id s)
  | _ :: k => unwind k s
  end.

(** A thread outside of the backend, or in a callback. *)
Definition free (k : list Frame) : bool :=
  match k with [] | InCallback _ :: _ => true | _ => false end.

Definition advance (k : list Frame) w : option (list Frame * World) :=
  let with_soft s := mkWorld s (stacks w) (calls w) (history w) (since w) in
  match k with
  | [] => None
  | ToDrain [] :: k => Some (k, w)
  | ToDrain (id :: ids) :: k => Some (Draining id :: ToDrain ids :: k, w)
  | Draining id :: k =>
      match pop id (soft w) with
      | (Some r, s) => Some (Calling id r :: Draining id :: k, with_soft s)
      | (None, s) => Some (k, with_soft s)
      end
  | Calling id r :: k =>
      Some (InCallback id :: k, mkWorld (soft w) (stacks w) (calls w ++ [(id, r)]) (history w) (since w))
  | InCallback _ :: k => Some (k, w)
  | Clearing id :: k => Some (k, with_soft (clear_pending id (soft w)))
  end.

Definition act (a : Act) (k : list Frame) w : option (list Frame * World) :=
  match a with
  | Begin (WStore v put) now =>
      if free k then
        let '(l, s) := store v put now (soft w) in
        Some (ToDrain l :: k, mkWorld s (stacks w) (calls w) (history w ++ [(v, now)]) (since w))
      else None
  | Begin (WSetpoint v) _ =>
      if free k then Some (k, mkWorld (set_setpoint v (soft w)) (stacks w) (calls w) (history w) (since w)) else None
  | Subscribe =>
      if free k then
        let '(id, s) := register (soft w) in
        Some (Draining id :: k,
              mkWorld s (stacks w) (calls w) (history w) (<[id := pred (length (history w))]> (since w)))
      else None
  | Unsubscribe id =>
      if free k && bool_decide (id ∈ subscribers (soft w)) then
        Some (Clearing id :: k,
              mkWorld (unregister id (soft w)) (stacks w) (calls w) (history w) (since w))
      else None
  | Go => advance k w
  | Panic =>
      match k with
      | InCallback _ :: _ => Some ([], mkWorld (unwind k (soft w)) (stacks w) (calls w) (history w) (since w))
      | _ => None
      end
  end.

(** Thread [t] does [a]. *)
Definition step (t : nat) (a : Act) w : option World :=
  k ← stacks w !! t;
  '(k, w) ← act a k w;
  Some (mkWorld (soft w) (<[t := k]> (stacks w)) (calls w) (history w) (since w)).

Fixpoint run (l : list (nat * Act)) w : option World :=
  match l with
  | [] => Some w
  | (t, a) :: l => w ← step t a w; run l w
  end.

Definition calls_of id w : list Stored := (filter (λ c, c.1 = id) (calls w)).*2.
End soft.
Arguments Soft : clear implicits.
Arguments Mailbox : clear implicits.
Arguments Write : clear implicits.
Arguments Frame : clear implicits.
Arguments World : clear implicits.
Arguments Act : clear implicits.
Arguments Stored : clear implicits.

(** ** Who holds a mailbox *)

Section invariant.
Context {T : Type}.
Implicit Types (id : nat) (r : Stored T) (s : Soft T) (w : World T) (k : list (Frame T)) (ks : list (list (Frame T))).

Definition count id (l : list nat) : nat := length (filter (λ x, x = id) l).
Definition owes id (f : Frame T) : nat :=
  match f with ToDrain ids => count id ids | Draining i => count id [i] | _ => 0 end.
Definition owed id k : nat := sum_list_with (owes id) k.
(** The frames that drain the mailbox of [id] or have claimed to. *)
Definition holders id ks : nat := sum_list_with (owed id) ks.

Definition popped id (f : Frame T) : list (Stored T) :=
  match f with Calling i r => if decide (i = id) then [r] else [] | _ => [] end.
Definition in_hand id k : list (Stored T) := k ≫= popped id.
(** The reading taken from the mailbox and not yet handed to the callback. *)
Definition inflight id ks : list (Stored T) := ks ≫= in_hand id.

Definition not_calling (f : Frame T) : Prop := match f with Calling _ _ => False | _ => True end.
Definition on_drain (f : Frame T) k : Prop :=
  match f with Calling i _ | InCallback i => head k = Some (Draining i) | _ => True end.
Fixpoint shaped k : Prop :=
  match k with [] => True | f :: k => on_drain f k ∧ Forall not_calling k ∧ shaped k end.

Lemma count_app id l1 l2 : count id (l1 ++ l2) = count id l1 + count id l2.
Proof. unfold count. by rewrite filter_app, length_app. Qed.
Lemma count_one id i : count id [i] = if decide (i = id) then 1 else 0.
Proof. unfold count. simpl. unfold filter. simpl. by destruct (decide _). Qed.
Lemma count_cons id i l : count id (i :: l) = count id [i] + count id l.
Proof. apply (count_app id [i]). Qed.

Lemma holders_app id ks1 ks2 : holders id (ks1 ++ ks2) = holders id ks1 + holders id ks2.
Proof. apply sum_list_with_app. Qed.
Lemma inflight_app id ks1 ks2 : inflight id (ks1 ++ ks2) = inflight id ks1 ++ inflight id ks2.
Proof. apply bind_app. Qed.
Lemma holders_cons id k ks : holders id (k :: ks) = owed id k + holders id ks.
Proof. done. Qed.
Lemma inflight_cons id k ks : inflight id (k :: ks) = in_hand id k ++ inflight id ks.
Proof. done. Qed.

Lemma in_hand_none id k : Forall not_calling k → in_hand id k = [].
Proof. induction 1 as [|[] k Hf _ IH]; simpl; done. Qed.

(** What is in hand of a stack is the reading of its top frame, and the stack owes it. *)
Lemma in_hand_owed id k : shaped k → length (in_hand id k) ≤ owed id k.
Proof.
  destruct k as [|f k]; [simpl; lia|]. intros (Ho & Hn & _).
  change (length (popped id f ++ in_hand id k) ≤ owes id f + owed id k).
  rewrite in_hand_none, app_nil_r by done. destruct f as [| |i r| |]; simpl; try lia.
  destruct (decide (i = id)) as [->|]; [|simpl; lia]. destruct k as [|g k]; [done|]. injection Ho as ->.
  unfold owed. simpl. rewrite count_one, decide_True by done. lia.
Qed.
Lemma inflight_held id ks : Forall shaped ks → length (inflight id ks) ≤ holders id ks.
Proof.
  induction 1 as [|k ks Hk _ IH]; [done|]. rewrite inflight_cons, holders_cons, length_app.
  pose proof (in_hand_owed id k Hk). lia.
Qed.

Lemma at_thread ks t k :
  ks !! t = Some k → ∃ ks1 ks2, ks = ks1 ++ k :: ks2 ∧ ∀ k', <[t := k']> ks = ks1 ++ k' :: ks2.
Proof.
  intros Hk. exists (take t ks), (drop (S t) ks). split; [symmetry; by apply take_drop_middle|].
  intros k'. apply insert_take_drop. by apply lookup_lt_Some in Hk.
Qed.

(** ** What each section does to a mailbox *)

Lemma box_set_boxes id i m s : box id (set_boxes (<[i := m]> (mailboxes s)) s) = if decide (i = id) then m else box id s.
Proof.
  unfold box. simpl. destruct (decide (i = id)) as [->|]; [by rewrite lookup_insert_eq|by rewrite lookup_insert_ne].
Qed.

Lemma enqueue_all_box r ids (ms : gmap nat (Mailbox T)) id :
  NoDup ids →
  let old := default new_mailbox (ms !! id) in
  default new_mailbox ((enqueue_all r ids ms).2 !! id)
    = (if decide (id ∈ ids) then mkMailbox (pending old ++ [r]) true else old)
  ∧ count id (enqueue_all r ids ms).1 = (if decide (id ∈ ids) then if draining old then 0 else 1 else 0).
Proof.
  revert ms. induction ids as [|i ids IH]; intros ms Hd; [done|]. apply NoDup_cons in Hd as [Hi Hd].
  cbn [enqueue_all enqueue]. set (m := default new_mailbox (ms !! i)).
  specialize (IH (<[i := mkMailbox (pending m ++ [r]) true]> ms) Hd).
  destruct (enqueue_all _ _ _) as [l ms'] eqn:He. cbn -[count] in IH |- *. destruct IH as [IH1 IH2].
  assert (count id (if negb (draining m) then i :: l else l)
    = (if draining m then 0 else count id [i]) + count id l) as ->.
  { destruct (draining m); simpl; [done|apply count_cons]. }
  rewrite count_one, IH1, IH2. destruct (decide (i = id)) as [->|Hne].
  - rewrite lookup_insert_eq, !(decide_False (P := id ∈ ids)) by done.
    rewrite !(decide_True (P := id ∈ _ :: _)) by (by left). split; [done|].
    subst m. by destruct (draining (default new_mailbox (ms !! id))).
  - rewrite lookup_insert_ne by done. destruct (decide (id ∈ ids)).
    + rewrite !(decide_True (P := id ∈ _ :: _)) by (by right). split; [done|]. destruct (draining m); simpl; lia.
    + rewrite !(decide_False (P := id ∈ _ :: _)) by (by intros [->|]%elem_of_cons).
      split; [done|]. destruct (draining m); simpl; lia.
Qed.

Lemma store_box v put now s id :
  NoDup (subscribers s) →
  box id (store v put now s).2
    = (if decide (id ∈ subscribers s) then mkMailbox (pending (box id s) ++ [(v, now)]) true else box id s)
  ∧ count id (store v put now s).1
    = (if decide (id ∈ subscribers s) then if draining (box id s) then 0 else 1 else 0).
Proof.
  intros Hd. destruct (enqueue_all_box (v, now) _ (mailboxes s) id Hd) as [H1 H2]. unfold store, box.
  destruct (enqueue_all _ _ _) as [l ms]. by split.
Qed.

Definition drains id k : bool :=
  existsb (λ f, match f with Draining i => bool_decide (i = id) | _ => false end) k.
Lemma drains_owed id k : drains id k = true → 1 ≤ owed id k.
Proof.
  induction k as [|f k IH]; [done|]. unfold owed. cbn [drains existsb sum_list_with]. intros [Hf|Hk]%orb_prop.
  - destruct f as [|i| | |]; try done. apply bool_decide_eq_true in Hf as ->. simpl.
    rewrite count_one, decide_True by done. lia.
  - apply IH in Hk. unfold owed in Hk. lia.
Qed.

Lemma unwind_box k s id :
  box id (unwind k s) = mkMailbox (pending (box id s)) (if drains id k then false else draining (box id s)).
Proof.
  revert s. induction k as [|f k IH]; intros s; [simpl; by destruct (box id s)|].
  destruct f as [|i|i r|i|i]; simpl; rewrite IH; try done. unfold release. rewrite box_set_boxes.
  destruct (decide (i = id)) as [->|Hne].
  - rewrite bool_decide_true by done. simpl. by destruct (drains id k).
  - by rewrite bool_decide_false by done.
Qed.
Lemma unwind_same k s :
  subscribers (unwind k s) = subscribers s ∧ next_id (unwind k s) = next_id s
  ∧ reading (unwind k s) = reading s ∧ poll (unwind k s) = poll s ∧ polled (unwind k s) = polled s.
Proof. revert s. induction k as [|[] k IH]; intros s; simpl; auto. apply (IH (release _ s)). Qed.

(** ** The invariant *)

(** The readings subscriber [id] has been given, is being given and has still queued; and
    those stored since it registered, the one current then first. *)
Definition seen id w : list (Stored T) :=
  calls_of id w ++ inflight id (stacks w) ++ pending (box id (soft w)).
Definition due id w : list (Stored T) :=
  if decide (id < next_id (soft w)) then drop (default 0 (since w !! id)) (history w) else [].
Definition holding (m : Mailbox T) : nat := if draining m then 1 else 0.

Record View id w : Prop := {
  vw_holders : holders id (stacks w) ≤ holding (box id (soft w));
  vw_seen : seen id w `prefix_of` due id w;
  vw_all : id ∈ subscribers (soft w) → seen id w = due id w;
  vw_fresh : next_id (soft w) ≤ id → draining (box id (soft w)) = false;
}.
Record Inv w : Prop := {
  iv_once : NoDup (subscribers (soft w));
  iv_known : ∀ id, id ∈ subscribers (soft w) → id < next_id (soft w);
  iv_last : last (history w) = Some (reading (soft w));
  iv_shape : Forall shaped (stacks w);
  iv_since : ∀ id, id < next_id (soft w) → default 0 (since w !! id) < length (history w);
  iv_poll : poll (soft w) = polled (soft w) && negb (bool_decide (subscribers (soft w) = []));
  iv_clear : ∀ k id, k ∈ stacks w → Clearing id ∈ k → id < next_id (soft w) ∧ id ∉ subscribers (soft w);
  iv_view : ∀ id, View id w;
}.

Lemma new_world_inv (initial : T) now p n : Inv (new_world initial now p n).
Proof.
  split; simpl; try done.
  - constructor.
  - by intros id ?%not_elem_of_nil.
  - apply Forall_replicate. done.
  - lia.
  - by destruct p.
  - intros k id [-> _]%elem_of_replicate Hc. by apply not_elem_of_nil in Hc.
  - intros id. assert (holders id (replicate n []) = 0 ∧ inflight id (replicate n ([] : list (Frame T))) = []) as [Hh Hi].
    { induction n as [|n IH]; [done|]. done. }
    split; unfold seen, due; simpl; rewrite ?Hh, ?Hi; [lia|done|by intros ?%not_elem_of_nil|done].
Qed.

(** *** One thread's frames change *)

Definition with_stacks ks w : World T := mkWorld (soft w) ks (calls w) (history w) (since w).

(** What the other threads have in hand and hold. *)
Lemma alone id ks1 ks2 k w :
  Inv w → stacks w = ks1 ++ k :: ks2 → 1 ≤ owed id k →
  holders id ks1 = 0 ∧ holders id ks2 = 0 ∧ owed id k = 1 ∧ draining (box id (soft w)) = true
  ∧ inflight id ks1 = [] ∧ inflight id ks2 = [].
Proof.
  intros Hi Hw Hk. pose proof (vw_holders _ _ (iv_view _ Hi id)) as Hh. pose proof (iv_shape _ Hi) as Hs.
  rewrite Hw in Hh, Hs. rewrite holders_app, holders_cons in Hh. unfold holding in Hh.
  apply Forall_app in Hs as [Hs1 [_ Hs2]%Forall_cons].
  pose proof (inflight_held id ks1 Hs1). pose proof (inflight_held id ks2 Hs2).
  destruct (draining _); [|lia]. split_and!; [lia|lia|lia|done|apply nil_length_inv; lia|apply nil_length_inv; lia].
Qed.

Lemma shape_at ks1 ks2 k w : Inv w → stacks w = ks1 ++ k :: ks2 → shaped k.
Proof. intros Hi Hw. pose proof (iv_shape _ Hi) as Hs. rewrite Hw in Hs. by apply Forall_app in Hs as [_ [? _]%Forall_cons]. Qed.
Lemma shape_put ks1 ks2 k k' w :
  Inv w → stacks w = ks1 ++ k :: ks2 → shaped k' → Forall shaped (ks1 ++ k' :: ks2).
Proof.
  intros Hi Hw Hk. pose proof (iv_shape _ Hi) as Hs. rewrite Hw in Hs.
  apply Forall_app in Hs as [? [_ ?]%Forall_cons]. apply Forall_app. split; [done|]. by constructor.
Qed.
Lemma clear_put ks1 ks2 k k' w :
  Inv w → stacks w = ks1 ++ k :: ks2 →
  ∀ k0 id, k0 ∈ ks1 ++ k' :: ks2 → Clearing id ∈ k0 → (Clearing id ∈ k' → Clearing id ∈ k) →
  id < next_id (soft w) ∧ id ∉ subscribers (soft w).
Proof.
  intros Hi Hw k0 id [Hin|[->|Hin]%elem_of_cons]%elem_of_app Hc Hk.
  - apply (iv_clear _ Hi k0); [|done]. rewrite Hw. set_solver.
  - apply (iv_clear _ Hi k); [|auto]. rewrite Hw. set_solver.
  - apply (iv_clear _ Hi k0); [|done]. rewrite Hw. set_solver.
Qed.

Lemma free_shape k : free k = true → shaped k → Forall not_calling k.
Proof. destruct k as [|[] k]; [done|done|done|done| |done]. intros _ (_ & ? & _). by constructor. Qed.

(** A thread outside of the backend puts a frame that has nothing in hand on its stack. *)
Lemma seen_put id ks1 ks2 k f w w' :
  stacks w = ks1 ++ k :: ks2 → stacks w' = ks1 ++ (f :: k) :: ks2 → popped id f = [] →
  calls w' = calls w →
  seen id w' = calls_of id w ++ inflight id (stacks w) ++ pending (box id (soft w')).
Proof.
  intros Hw Hw' Hf Hc. unfold seen, calls_of. rewrite Hw, Hw', Hc, !inflight_app, !inflight_cons.
  change (in_hand id (f :: k)) with (popped id f ++ in_hand id k). by rewrite Hf.
Qed.
Lemma holders_put id ks1 ks2 k f w w' :
  stacks w = ks1 ++ k :: ks2 → stacks w' = ks1 ++ (f :: k) :: ks2 →
  holders id (stacks w') = owes id f + holders id (stacks w).
Proof.
  intros Hw Hw'. rewrite Hw, Hw', !holders_app, !holders_cons.
  change (owed id (f :: k)) with (owes id f + owed id k). lia.
Qed.

Lemma store_inv w ks1 ks2 k v put now :
  Inv w → stacks w = ks1 ++ k :: ks2 → free k = true →
  Inv (mkWorld (store v put now (soft w)).2 (ks1 ++ (ToDrain (store v put now (soft w)).1 :: k) :: ks2)
         (calls w) (history w ++ [(v, now)]) (since w)).
Proof.
  intros Hi Hw Hfree. pose proof (shape_at _ _ _ _ Hi Hw) as Hk. set (w' := mkWorld _ _ _ _ _).
  assert (subscribers (soft w') = subscribers (soft w) ∧ next_id (soft w') = next_id (soft w)
    ∧ reading (soft w') = (v, now) ∧ poll (soft w') = poll (soft w) ∧ polled (soft w') = polled (soft w))
    as (Hsub & Hnext & Hr & Hp & Hp').
  { simpl. unfold store. by destruct (enqueue_all _ _ _). }
  split; rewrite ?Hsub, ?Hnext, ?Hr, ?Hp, ?Hp'; simpl; try apply Hi.
  - by rewrite last_snoc.
  - eapply shape_put; [done|done|]. split_and!; [done|by apply free_shape|done].
  - intros id Hid%(iv_since _ Hi). rewrite length_app. lia.
  - intros k0 id Hk0 Hc. eapply clear_put; [done|done|exact Hk0|exact Hc|set_solver].
  - intros id. destruct (iv_view _ Hi id) as [H1 H2 H3 H4].
    destruct (store_box v put now (soft w) id (iv_once _ Hi)) as [Hb Hc].
    assert (due id w' = if decide (id < next_id (soft w)) then due id w ++ [(v, now)] else []) as Hdue.
    { unfold due. rewrite Hnext. destruct (decide (id < next_id (soft w))) as [Hid|]; [simpl|reflexivity].
      rewrite drop_app_le; [done|]. specialize (iv_since _ Hi id Hid). lia. }
    pose proof (seen_put id ks1 ks2 k _ w w' Hw eq_refl eq_refl eq_refl) as Hseen.
    pose proof (holders_put id ks1 ks2 k (ToDrain (store v put now (soft w)).1) w w' Hw eq_refl) as Hold. cbn [owes] in Hold.
    simpl in Hseen, Hold. rewrite Hb in Hseen. rewrite Hc in Hold.
    destruct (decide (id ∈ subscribers (soft w))) as [Hin|Hin].
    + pose proof (iv_known _ Hi id Hin) as Hid. rewrite decide_True in Hdue by done.
      assert (seen id w' = seen id w ++ [(v, now)]) as Hs by (rewrite Hseen; unfold seen; by rewrite <- !app_assoc).
      split; rewrite ?Hs, ?Hdue, ?(H3 Hin), ?Hnext; simpl; rewrite ?Hb; [|done|done|lia].
      rewrite Hold. unfold holding in *. simpl. destruct (draining _); lia.
    + assert (seen id w' = seen id w) as Hs by by rewrite Hseen.
      split; rewrite ?Hs, ?Hdue, ?Hnext, ?Hsub; simpl; rewrite ?Hb; [lia| |done|done].
      destruct (decide _) as [|Hid]; [by apply prefix_app_r|]. unfold due in H2. by rewrite decide_False in H2.
Qed.

Lemma setpoint_inv w v ks1 ks2 k :
  Inv w → stacks w = ks1 ++ k :: ks2 →
  Inv (mkWorld (set_setpoint v (soft w)) (ks1 ++ k :: ks2) (calls w) (history w) (since w)).
Proof. intros Hi <-. destruct Hi. split; try done. intros id. destruct (iv_view0 id). by split. Qed.

(** Nothing is known of a subscriber that is not there yet. *)
Lemma fresh_view id w :
  Inv w → next_id (soft w) ≤ id → seen id w = [] ∧ holders id (stacks w) = 0 ∧ id ∉ subscribers (soft w).
Proof.
  intros Hi Hid. destruct (iv_view _ Hi id) as [H1 H2 _ H4]. unfold holding in H1. rewrite (H4 Hid) in H1.
  unfold due in H2. rewrite decide_False in H2 by lia. split_and!; [by apply prefix_nil_inv in H2|lia|].
  intros Hin%(iv_known _ Hi). lia.
Qed.

Lemma subscribe_inv w ks1 ks2 k :
  Inv w → stacks w = ks1 ++ k :: ks2 → free k = true →
  let id := next_id (soft w) in
  Inv (mkWorld (register (soft w)).2 (ks1 ++ (Draining id :: k) :: ks2) (calls w) (history w)
         (<[id := pred (length (history w))]> (since w))).
Proof.
  intros Hi Hw Hfree n. pose proof (shape_at _ _ _ _ Hi Hw) as Hk. set (w' := mkWorld _ _ _ _ _).
  destruct (fresh_view n w Hi ltac:(done)) as (Hsn & Hhn & Hnn).
  assert (0 < length (history w)) as Hl.
  { pose proof (iv_last _ Hi) as Hl. destruct (history w); [done|simpl; lia]. }
  split; simpl.
  - apply NoDup_app. split_and!; [apply Hi| |apply NoDup_singleton]. by intros id Hin ->%list_elem_of_singleton.
  - intros id [Hin%(iv_known _ Hi)| ->%list_elem_of_singleton]%elem_of_app; [lia|subst n; lia].
  - apply Hi.
  - eapply shape_put; [done|done|]. split_and!; [done|by apply free_shape|done].
  - intros id Hid. destruct (decide (n = id)) as [->|]; [rewrite lookup_insert_eq; simpl; lia|].
    rewrite lookup_insert_ne by done. apply Hi. subst n. lia.
  - rewrite (iv_poll _ Hi), length_app, Nat.add_comm.
    destruct (subscribers (soft w)) as [|x l]; simpl; [by rewrite andb_true_r|done].
  - intros k0 id Hk0 Hc. destruct (clear_put ks1 ks2 k (Draining n :: k) w Hi Hw k0 id Hk0 Hc) as [H1 H2]; [set_solver|]. split; [lia|]. intros [| ->%list_elem_of_singleton]%elem_of_app; [done|subst n; lia].
  - intros id. destruct (iv_view _ Hi id) as [H1 H2 H3 H4].
    pose proof (seen_put id ks1 ks2 k (Draining n) w w' Hw eq_refl eq_refl eq_refl) as Hseen.
    pose proof (holders_put id ks1 ks2 k (Draining n) w w' Hw eq_refl) as Hold. cbn [owes] in Hold.
    rewrite count_one in Hold. destruct (decide (n = id)) as [<-|Hne].
    + assert (box n (soft w') = mkMailbox [reading (soft w)] true) as Hb by (unfold box; simpl; by rewrite lookup_insert_eq).
      assert (seen n w' = [reading (soft w)]) as Hs.
      { unfold seen in Hsn. apply app_nil in Hsn as [H5 [H6 _]%app_nil]. by rewrite Hseen, H5, H6, Hb. }
      assert (due n w' = [reading (soft w)]) as Hd.
      { unfold due. rewrite decide_True by (subst n; simpl; lia). simpl. rewrite lookup_insert_eq. simpl.
        destruct (proj1 (last_Some _ _) (iv_last _ Hi)) as [l ->]. rewrite length_app, Nat.add_comm. simpl.
        by rewrite drop_app_length. }
      split; rewrite ?Hs, ?Hd; [|done|done|subst n; simpl; lia].
      rewrite Hold, Hhn, Hb. done.
    + assert (box id (soft w') = box id (soft w)) as Hb by (unfold box; simpl; by rewrite lookup_insert_ne).
      assert (seen id w' = seen id w) as Hs by by rewrite Hseen, Hb.
      assert (due id w' = due id w) as Hd.
      { unfold due. simpl. rewrite lookup_insert_ne by done. unfold n in Hne. destruct (decide (id < next_id (soft w))).
        - by rewrite (decide_True (P := id < S _)) by lia.
        - by rewrite (decide_False (P := id < S _)) by lia. }
      split; rewrite ?Hs, ?Hd, ?Hb; [by rewrite Hold|done| |intros Hid; apply H4; simpl in Hid; lia].
      intros [Hin| ->%list_elem_of_singleton]%elem_of_app; [by apply H3|done].
Qed.

Lemma unsubscribe_inv w ks1 ks2 k id :
  Inv w → stacks w = ks1 ++ k :: ks2 → free k = true → id ∈ subscribers (soft w) →
  Inv (mkWorld (unregister id (soft w)) (ks1 ++ (Clearing id :: k) :: ks2) (calls w) (history w) (since w)).
Proof.
  intros Hi Hw Hfree Hin. pose proof (shape_at _ _ _ _ Hi Hw) as Hk. set (w' := mkWorld _ _ _ _ _).
  split; simpl.
  - apply NoDup_filter, Hi.
  - intros i [_ ?]%list_elem_of_filter. by apply Hi.
  - apply Hi.
  - eapply shape_put; [done|done|]. split_and!; [done|by apply free_shape|done].
  - apply Hi.
  - rewrite (iv_poll _ Hi). destruct (decide (filter _ _ = [])) as [->|Hne].
    + by rewrite andb_false_r.
    + rewrite !bool_decide_false; [done|done|]. intros Hnil. by rewrite Hnil in Hne.
  - intros k0 i Hk0 Hc. destruct (decide (i = id)) as [->|Hne].
    { split; [by apply Hi|]. by intros [? _]%list_elem_of_filter. }
    destruct (clear_put ks1 ks2 k (Clearing id :: k) w Hi Hw k0 i Hk0 Hc) as [H1 H2]; [set_solver|].
    split; [done|]. by intros [_ ?]%list_elem_of_filter.
  - intros i. destruct (iv_view _ Hi i) as [H1 H2 H3 H4].
    pose proof (seen_put i ks1 ks2 k (Clearing id) w w' Hw eq_refl eq_refl eq_refl) as Hseen.
    pose proof (holders_put i ks1 ks2 k (Clearing id) w w' Hw eq_refl) as Hold.
    assert (box i (soft w') = box i (soft w)) as Hb by done.
    assert (seen i w' = seen i w) as Hs by by rewrite Hseen, Hb.
    split; rewrite ?Hs, ?Hb, ?Hold; try done. intros [_ ?]%list_elem_of_filter. by apply H3.
Qed.

(** A step of a thread that leaves the registrations and the history alone: it is enough to
    look at each subscriber's mailbox, holders and readings. *)
Lemma keep_inv w w' ks1 ks2 k k' :
  Inv w → stacks w = ks1 ++ k :: ks2 → stacks w' = ks1 ++ k' :: ks2 → shaped k' →
  (∀ id, Clearing id ∈ k' → Clearing id ∈ k) →
  (∃ ms, soft w' = set_boxes ms (soft w)) → history w' = history w → since w' = since w →
  (∀ id, holders id (stacks w') ≤ holding (box id (soft w'))
     ∧ (seen id w' = seen id w ∨ seen id w' `prefix_of` seen id w ∧ id ∉ subscribers (soft w))
     ∧ (draining (box id (soft w)) = false → draining (box id (soft w')) = false)) →
  Inv w'.
Proof.
  intros Hi Hw Hw' Hs Hc [ms Hsoft] Hh Hsi Hv. pose proof Hi as [].
  split; rewrite ?Hsoft, ?Hh, ?Hsi; try done.
  - rewrite Hw'. by eapply shape_put.
  - intros k0 id Hk0 Hin. rewrite Hw' in Hk0. eapply clear_put; [done|done|exact Hk0|exact Hin|apply Hc].
  - intros id. destruct (iv_view0 id) as [H1 H2 H3 H4]. destruct (Hv id) as (Ho & Hseen & Hd).
    assert (due id w' = due id w) as Hdue by (unfold due; by rewrite Hsoft, Hh, Hsi).
    split; rewrite ?Hdue; [done| | |rewrite Hsoft in Hd |- *; intros Hid; apply Hd, H4, Hid].
    + destruct Hseen as [->|[Hp _]]; [done|]. by etrans.
    + rewrite Hsoft. intros Hin. destruct Hseen as [->|[_ ?]]; [auto|done].
Qed.

Lemma in_hand_drain id i k : in_hand id (Draining i :: k) = in_hand id k.
Proof. done. Qed.
Lemma owed_drain id i k : owed id (Draining i :: k) = (if decide (i = id) then 1 else 0) + owed id k.
Proof. unfold owed. simpl. by rewrite count_one. Qed.

Lemma pop_inv w ks1 ks2 k i r l :
  Inv w → stacks w = ks1 ++ (Draining i :: k) :: ks2 → pending (box i (soft w)) = r :: l →
  Inv (mkWorld (pop i (soft w)).2 (ks1 ++ (Calling i r :: Draining i :: k) :: ks2) (calls w) (history w) (since w)).
Proof.
  intros Hi Hw Hp. pose proof (shape_at _ _ _ _ Hi Hw) as (_ & Hn & Hs).
  assert ((pop i (soft w)).2 = set_boxes (<[i := mkMailbox l (draining (box i (soft w)))]> (mailboxes (soft w))) (soft w)) as Hpop.
  { unfold pop. by rewrite Hp. }
  eapply (keep_inv w _ ks1 ks2 (Draining i :: k)); [done|done|done| |set_solver| |done|done|].
  - split_and!; [done|by constructor|by split_and!].
  - rewrite Hpop. by eexists.
  - intros id. cbn [soft stacks]. rewrite Hpop, box_set_boxes.
    assert (holders id (ks1 ++ (Calling i r :: Draining i :: k) :: ks2) = holders id (stacks w)) as ->.
    { by rewrite Hw, !holders_app, !holders_cons. }
    destruct (iv_view _ Hi id) as [H1 _ _ _]. rewrite Hw in H1. unfold seen. cbn [soft stacks]. rewrite box_set_boxes, Hw.
    rewrite !inflight_app, !inflight_cons.
    change (in_hand id (Calling i r :: Draining i :: k)) with (popped id (Calling i r) ++ in_hand id k).
    rewrite in_hand_drain, (in_hand_none id k Hn). cbn [popped].
    destruct (decide (i = id)) as [->|Hne]; [|by split_and!; [|left|]].
    destruct (alone id ks1 ks2 (Draining id :: k) w Hi Hw) as (_ & _ & _ & _ & -> & ->).
    { rewrite owed_drain, decide_True by done. lia. }
    split_and!; [exact H1|left; by rewrite Hp|done].
Qed.

Lemma empty_inv w ks1 ks2 k i :
  Inv w → stacks w = ks1 ++ (Draining i :: k) :: ks2 → pending (box i (soft w)) = [] →
  Inv (mkWorld (pop i (soft w)).2 (ks1 ++ k :: ks2) (calls w) (history w) (since w)).
Proof.
  intros Hi Hw Hp. pose proof (shape_at _ _ _ _ Hi Hw) as (_ & Hn & Hs).
  assert ((pop i (soft w)).2 = set_boxes (<[i := mkMailbox [] false]> (mailboxes (soft w))) (soft w)) as Hpop.
  { unfold pop. by rewrite Hp. }
  eapply (keep_inv w _ ks1 ks2 (Draining i :: k)); [done|done|done|done|set_solver| |done|done|].
  - rewrite Hpop. by eexists.
  - intros id. cbn [soft stacks]. rewrite Hpop, box_set_boxes. unfold seen. cbn [soft stacks]. rewrite box_set_boxes, Hw.
    destruct (iv_view _ Hi id) as [H1 _ _ _]. rewrite Hw in H1.
    rewrite !inflight_app, !inflight_cons, in_hand_drain, !holders_app, !holders_cons, ?owed_drain in *.
    destruct (decide (i = id)) as [->|Hne]; [|split_and!; [lia|by left|done]].
    destruct (alone id ks1 ks2 (Draining id :: k) w Hi Hw) as (H2 & H3 & H4 & _).
    { rewrite owed_drain, decide_True by done. lia. }
    rewrite owed_drain, decide_True in H4 by done. split_and!; [simpl; lia|left; by rewrite Hp|done].
Qed.

Lemma call_inv w ks1 ks2 k i r :
  Inv w → stacks w = ks1 ++ (Calling i r :: k) :: ks2 →
  Inv (mkWorld (soft w) (ks1 ++ (InCallback i :: k) :: ks2) (calls w ++ [(i, r)]) (history w) (since w)).
Proof.
  intros Hi Hw. pose proof (shape_at _ _ _ _ Hi Hw) as (Ho & Hn & Hs).
  eapply (keep_inv w _ ks1 ks2 (Calling i r :: k)); [done|done|done| |set_solver| |done|done|].
  - by split_and!.
  - exists (mailboxes (soft w)). by destruct (soft w).
  - intros id. simpl. destruct (iv_view _ Hi id) as [H1 _ _ _].
    assert (holders id (ks1 ++ (InCallback i :: k) :: ks2) = holders id (stacks w)) as ->.
    { by rewrite Hw, !holders_app, !holders_cons. }
    split_and!; [done|left|done]. unfold seen, calls_of. simpl. rewrite filter_app, fmap_app, Hw.
    rewrite !inflight_app, !inflight_cons.
    change (in_hand id (Calling i r :: k)) with (popped id (Calling i r) ++ in_hand id k).
    change (in_hand id (InCallback i :: k)) with (in_hand id k). rewrite (in_hand_none id k Hn). cbn [popped].
    unfold filter at 2. simpl. destruct (decide (i = id)) as [->|Hne]; [|by rewrite app_nil_r].
    destruct (alone id ks1 ks2 (Calling id r :: k) w Hi Hw) as (_ & _ & _ & _ & -> & ->).
    { destruct k as [|g k]; [done|]. injection Ho as ->. change (1 ≤ owed id (Draining id :: k)).
      rewrite owed_drain, decide_True by done. lia. }
    simpl. by rewrite <- !app_assoc.
Qed.

Lemma clear_inv w ks1 ks2 k i :
  Inv w → stacks w = ks1 ++ (Clearing i :: k) :: ks2 →
  Inv (mkWorld (clear_pending i (soft w)) (ks1 ++ k :: ks2) (calls w) (history w) (since w)).
Proof.
  intros Hi Hw. pose proof (shape_at _ _ _ _ Hi Hw) as (_ & Hn & Hs).
  destruct (iv_clear _ Hi (Clearing i :: k) i) as [Hl Hin]; [rewrite Hw; set_solver|left|].
  eapply (keep_inv w _ ks1 ks2 (Clearing i :: k)); [done|done|done|done|set_solver|by eexists|done|done|].
  intros id. simpl. unfold clear_pending. rewrite box_set_boxes. destruct (iv_view _ Hi id) as [H1 _ _ _]. rewrite Hw in H1.
  assert (holders id (ks1 ++ k :: ks2) = holders id (stacks w)) as ->.
  { by rewrite Hw, !holders_app, !holders_cons. }
  unfold seen, clear_pending. simpl. rewrite box_set_boxes, Hw, !inflight_app, !inflight_cons.
  change (in_hand id (Clearing i :: k)) with (in_hand id k).
  destruct (decide (i = id)) as [->|Hne]; [|by split_and!; [|left|]].
  split_and!; [exact H1| |done]. right. split; [|done]. simpl. rewrite app_nil_r.
  rewrite (app_assoc _ _ (pending _)). by apply prefix_app_r.
Qed.

Lemma drain_next_inv w ks1 ks2 k i ids :
  Inv w → stacks w = ks1 ++ (ToDrain (i :: ids) :: k) :: ks2 →
  Inv (with_stacks (ks1 ++ (Draining i :: ToDrain ids :: k) :: ks2) w).
Proof.
  intros Hi Hw. pose proof (shape_at _ _ _ _ Hi Hw) as (_ & Hn & Hs).
  eapply (keep_inv w _ ks1 ks2 (ToDrain (i :: ids) :: k)); [done|done|done| |set_solver| |done|done|].
  - split_and!; [done|by constructor|by split_and!].
  - exists (mailboxes (soft w)). unfold with_stacks. simpl. by destruct (soft w).
  - intros id. cbn [with_stacks soft stacks]. destruct (iv_view _ Hi id) as [H1 _ _ _].
    assert (holders id (ks1 ++ (Draining i :: ToDrain ids :: k) :: ks2) = holders id (stacks w)) as ->.
    { rewrite Hw, !holders_app, !holders_cons, owed_drain.
      change (owed id (ToDrain ids :: k)) with (count id ids + owed id k).
      change (owed id (ToDrain (i :: ids) :: k)) with (count id (i :: ids) + owed id k).
      rewrite count_cons, count_one. lia. }
    split_and!; [done|left|done]. unfold seen, with_stacks, calls_of. simpl.
    by rewrite Hw, !inflight_app, !inflight_cons.
Qed.

(** A frame with nothing to hold and nothing in hand is left. *)
Lemma leave_inv w ks1 ks2 k f :
  Inv w → stacks w = ks1 ++ (f :: k) :: ks2 → f = ToDrain [] ∨ (∃ i, f = InCallback i) →
  Inv (with_stacks (ks1 ++ k :: ks2) w).
Proof.
  intros Hi Hw Hf. pose proof (shape_at _ _ _ _ Hi Hw) as (_ & Hn & Hs).
  eapply (keep_inv w _ ks1 ks2 (f :: k)); [done|done|done|done|set_solver| |done|done|].
  - exists (mailboxes (soft w)). unfold with_stacks. simpl. by destruct (soft w).
  - intros id. cbn [with_stacks soft stacks]. destruct (iv_view _ Hi id) as [H1 _ _ _].
    assert (holders id (ks1 ++ k :: ks2) = holders id (stacks w)) as ->.
    { rewrite Hw, !holders_app, !holders_cons. by destruct Hf as [->|[i ->]]. }
    split_and!; [done|left|done]. unfold seen, with_stacks, calls_of. simpl.
    rewrite Hw, !inflight_app, !inflight_cons. by destruct Hf as [->|[i ->]].
Qed.

Lemma panic_inv w ks1 ks2 k i :
  Inv w → stacks w = ks1 ++ (InCallback i :: k) :: ks2 →
  Inv (mkWorld (unwind (InCallback i :: k) (soft w)) (ks1 ++ [] :: ks2) (calls w) (history w) (since w)).
Proof.
  intros Hi Hw. pose proof (shape_at _ _ _ _ Hi Hw) as (_ & Hn & Hs). cbn [unwind].
  eapply (keep_inv w _ ks1 ks2 (InCallback i :: k)); [done|done|done|done|set_solver| |done|done|].
  - exists (mailboxes (unwind k (soft w))). cbn [soft]. clear. generalize (soft w). induction k as [|[] k IH]; intros s;
      simpl; [by destruct s|..]; try apply IH. rewrite (IH (release id s)) at 1. done.
  - intros id. cbn [soft stacks]. rewrite unwind_box. destruct (iv_view _ Hi id) as [H1 _ _ _]. rewrite Hw in H1.
    unfold seen. cbn [soft stacks]. rewrite unwind_box, Hw, !holders_app, !holders_cons, !inflight_app, !inflight_cons in *.
    change (in_hand id (InCallback i :: k)) with (in_hand id k). rewrite (in_hand_none id k Hn).
    change (owed id (InCallback i :: k)) with (owed id k) in H1.
    split_and!; [|by left|by destruct (drains id k)]. unfold holding in *. cbn [draining].
    destruct (drains id k) eqn:Hd; [apply drains_owed in Hd|]; destruct (draining _); simpl; lia.
Qed.

Lemma soft_step_inv t a w w' : Inv w → step t a w = Some w' → Inv w'.
Proof.
  intros Hi Hstep. unfold step in Hstep. apply bind_Some in Hstep as (k & Hk & Hstep).
  apply bind_Some in Hstep as ([k' w1] & Ha & [= <-]). apply at_thread in Hk as (ks1 & ks2 & Hw & Hput).
  destruct a as [x now| |id| |]; simpl in Ha.
  - destruct x as [v put|v]; destruct (free k) eqn:Hf; try done.
    + destruct (store v put now (soft w)) as [l s] eqn:Hs. injection Ha as <- <-. simpl. rewrite Hput.
      pose proof (store_inv w ks1 ks2 k v put now Hi Hw Hf) as Hi'. by rewrite Hs in Hi'.
    + injection Ha as <- <-. simpl. rewrite Hput. by apply setpoint_inv.
  - destruct (free k) eqn:Hf; [|done]. injection Ha as <- <-. simpl. rewrite Hput. by apply subscribe_inv.
  - destruct (free k) eqn:Hf; [|done]. simpl in Ha. destruct (bool_decide_reflect (id ∈ subscribers (soft w))); [|done].
    injection Ha as <- <-. simpl. rewrite Hput. by apply unsubscribe_inv.
  - destruct k as [|[[|i ids]|i|i r|i|i] k]; simpl in Ha; [done|..].
    + injection Ha as <- <-. rewrite Hput. eapply leave_inv; [done|done|by left].
    + injection Ha as <- <-. rewrite Hput. by apply drain_next_inv.
    + destruct (pending (box i (soft w))) as [|r l] eqn:Hp; unfold pop in Ha; rewrite Hp in Ha; injection Ha as <- <-;
        simpl; rewrite Hput; [pose proof (empty_inv w ks1 ks2 k i Hi Hw Hp) as Hi'|
          pose proof (pop_inv w ks1 ks2 k i r l Hi Hw Hp) as Hi']; unfold pop in Hi'; by rewrite Hp in Hi'.
    + injection Ha as <- <-. simpl. rewrite Hput. by apply call_inv.
    + injection Ha as <- <-. rewrite Hput. eapply leave_inv; [done|done|right; by eexists].
    + injection Ha as <- <-. simpl. rewrite Hput. by apply clear_inv.
  - destruct k as [|[] k]; try done. injection Ha as <- <-. simpl. rewrite Hput. by apply (panic_inv _ _ _ _ id).
Qed.

Lemma soft_run_inv l w w' : Inv w → run l w = Some w' → Inv w'.
Proof.
  revert w. induction l as [|[t a] l IH]; intros w Hi; simpl; [by intros [= <-]|].
  intros (w1 & Hs & Hr)%bind_Some. eapply IH; [|done]. by eapply soft_step_inv.
Qed.

(** *** What is owed when nobody panics *)

(** Every claimed mailbox is held by a frame, and none with readings queued is unclaimed. *)
Definition Full w : Prop := ∀ id,
  holding (box id (soft w)) ≤ holders id (stacks w)
  ∧ (draining (box id (soft w)) = false → pending (box id (soft w)) = []).

Lemma full_put w w' ks1 ks2 k k' :
  Full w → stacks w = ks1 ++ k :: ks2 → stacks w' = ks1 ++ k' :: ks2 →
  (∀ id, (holding (box id (soft w')) ≤ holding (box id (soft w)) ∧ owed id k ≤ owed id k'
          ∨ holding (box id (soft w')) ≤ owed id k')
     ∧ (draining (box id (soft w')) = false → pending (box id (soft w')) = [])) →
  Full w'.
Proof.
  intros Hf Hw Hw' Hv id. destruct (Hf id) as [H1 H2]. rewrite Hw in H1. rewrite Hw', holders_app, holders_cons in *.
  destruct (Hv id) as [[[Hb Hk]|Hk] Hp]; (split; [lia|done]).
Qed.

Lemma full_store w ks1 ks2 k v put now :
  Inv w → Full w → stacks w = ks1 ++ k :: ks2 →
  Full (mkWorld (store v put now (soft w)).2 (ks1 ++ (ToDrain (store v put now (soft w)).1 :: k) :: ks2)
         (calls w) (history w ++ [(v, now)]) (since w)).
Proof.
  intros Hi Hf Hw id. destruct (Hf id) as [H1 H2].
  destruct (store_box v put now (soft w) id (iv_once _ Hi)) as [Hb Hc]. simpl.
  pose proof (holders_put id ks1 ks2 k (ToDrain (store v put now (soft w)).1) w
    (with_stacks (ks1 ++ (ToDrain (store v put now (soft w)).1 :: k) :: ks2) w) Hw eq_refl) as Ho.
  cbn [owes with_stacks stacks] in Ho. rewrite Ho, Hb, Hc. destruct (decide _); [|by split; [simpl; lia|]].
  split; [|done]. unfold holding in *. simpl. destruct (draining _); lia.
Qed.

Lemma full_go w w1 ks1 ks2 k k' :
  Full w → stacks w = ks1 ++ k :: ks2 → advance k w = Some (k', w1) →
  Full (mkWorld (soft w1) (ks1 ++ k' :: ks2) (calls w1) (history w1) (since w1)).
Proof.
  intros Hf Hw Ha. destruct k as [|f k]; [done|].
  eapply (full_put w _ ks1 ks2 (f :: k)); [done|done|done|]. intros id. cbn [soft].
  destruct (Hf id) as [_ H2]. destruct f as [[|i ids]|i|i r|i|i]; simpl in Ha.
  - injection Ha as <- <-. split; [by left|done].
  - injection Ha as <- <-. split; [left; split; [done|]|done]. rewrite owed_drain.
    change (count id (i :: ids) + owed id k ≤ (if decide (i = id) then 1 else 0) + (count id ids + owed id k)).
    rewrite count_cons, count_one. lia.
  - destruct (pending (box i (soft w))) as [|r l] eqn:Hp; unfold pop in Ha; rewrite Hp in Ha; injection Ha as <- <-;
      simpl; rewrite box_set_boxes.
    + destruct (decide (i = id)) as [->|Hne]; [split; [right; apply Nat.le_0_l|done]|].
      split; [left; split; [done|]|done]. by rewrite count_one, decide_False.
    + change (owed id (Calling i r :: Draining i :: k)) with (owed id (Draining i :: k)).
      destruct (decide (i = id)) as [->|]; [|split; [by left|done]]. rewrite Hp in H2.
      split; [by left|]. simpl. by intros ?%H2.
  - injection Ha as <- <-. split; [by left|done].
  - injection Ha as <- <-. split; [by left|done].
  - injection Ha as <- <-. simpl. unfold clear_pending. rewrite box_set_boxes.
    destruct (decide (i = id)) as [->|]; (split; [by left|done]).
Qed.

Lemma full_subscribe w ks1 ks2 k :
  Full w → stacks w = ks1 ++ k :: ks2 →
  Full (mkWorld (register (soft w)).2 (ks1 ++ (Draining (next_id (soft w)) :: k) :: ks2) (calls w) (history w)
          (<[next_id (soft w) := pred (length (history w))]> (since w))).
Proof.
  intros Hf Hw. eapply (full_put w _ ks1 ks2 k); [done|done|done|]. intros id. destruct (Hf id) as [_ H2].
  rewrite owed_drain. unfold box in *. simpl. destruct (decide (next_id (soft w) = id)) as [<-|].
  - rewrite lookup_insert_eq. simpl. split; [right; unfold holding; simpl; lia|done].
  - rewrite lookup_insert_ne by done. split; [left; by split|done].
Qed.

Lemma step_full t a w w' : a ≠ Panic → Inv w → Full w → step t a w = Some w' → Full w'.
Proof.
  intros Hnp Hi Hf Hstep. unfold step in Hstep. apply bind_Some in Hstep as (k & Hk & Hstep).
  apply bind_Some in Hstep as ([k' w1] & Ha & [= <-]). apply at_thread in Hk as (ks1 & ks2 & Hw & Hput).
  assert (stacks w1 = stacks w) as Hst.
  { destruct a as [[v put|v] now| |id| |]; simpl in Ha; try (destruct (free k); [|done]).
    - destruct (store v put now (soft w)) as [l s]. by injection Ha as <- <-.
    - by injection Ha as <- <-.
    - by injection Ha as <- <-.
    - simpl in Ha. destruct (bool_decide _); [|done]. by injection Ha as <- <-.
    - destruct k as [|[[|i ids]|i|i r|i|i] k]; simpl in Ha; try (by injection Ha as <- <-); [done|].
      destruct (pop i (soft w)) as [[r|] s]; by injection Ha as <- <-.
    - done. }
  rewrite Hst, Hput. destruct a as [[v put|v] now| |id| |]; simpl in Ha; try (destruct (free k); [|done]).
  - destruct (store v put now (soft w)) as [l s] eqn:Hs. injection Ha as <- <-.
    pose proof (full_store w ks1 ks2 k v put now Hi Hf Hw) as Hf'. by rewrite Hs in Hf'.
  - injection Ha as <- <-. rewrite <- Hw. exact Hf.
  - injection Ha as <- <-. by apply full_subscribe.
  - simpl in Ha. destruct (bool_decide _); [|done]. injection Ha as <- <-.
    eapply (full_put w _ ks1 ks2 k); [done|done|done|]. intros i. destruct (Hf i) as [_ H2]. split; [left; by split|done].
  - by eapply full_go.
  - done.
Qed.

(** ** What subscribers are promised *)

Definition quiet (l : list (nat * Act T)) : bool := forallb (λ x, match x.2 with Panic => false | _ => true end) l.

Lemma run_full l w w' : quiet l = true → Inv w → Full w → run l w = Some w' → Full w'.
Proof.
  revert w. induction l as [|[t a] l IH]; intros w Hq Hi Hf; simpl; [by intros [= <-]|].
  simpl in Hq. apply andb_prop in Hq as [Ha Hq]. intros (w1 & Hs & Hr)%bind_Some.
  eapply (IH w1); [done|by eapply soft_step_inv| |done]. eapply step_full; [|done..]. by intros ->.
Qed.
Lemma new_world_full (initial : T) now p n : Full (new_world initial now p n).
Proof. intros id. split; [apply Nat.le_0_l|done]. Qed.

(** C27: Whatever threads write, subscribe, unsubscribe and panic, a callback is called with the
    readings in the order they were stored, none missing, the first one being the reading
    current when it subscribed; no two threads deliver to one callback at a time, no matter
    that it runs with no lock held; and a stored value is read with its own timestamp. *)
Theorem readings_come_in_order (initial : T) now p threads l w id :
  run l (new_world initial now p threads) = Some w →
  calls_of id w `prefix_of` due id w ∧ holders id (stacks w) ≤ 1
  ∧ last (history w) = Some (reading (soft w)).
Proof.
  intros Hr. apply soft_run_inv in Hr; [|apply new_world_inv]. destruct (iv_view _ Hr id) as [H1 H2 _ _].
  split_and!; [|unfold holding in H1; destruct (draining _); lia|apply Hr].
  etrans; [|exact H2]. by exists (inflight id (stacks w) ++ pending (box id (soft w))).
Qed.

(** When no callback panics and every thread is out of the backend, every subscriber has
    been given every reading since it subscribed. *)
Theorem settled_means_delivered (initial : T) now p threads l w id :
  run l (new_world initial now p threads) = Some w → quiet l = true →
  Forall (λ k, k = []) (stacks w) → id ∈ subscribers (soft w) →
  calls_of id w = due id w.
Proof.
  intros Hr Hq Hidle Hid. pose proof (run_full _ _ _ Hq (new_world_inv _ _ _ _) (new_world_full _ _ _ _) Hr) as Hf.
  apply soft_run_inv in Hr; [|apply new_world_inv]. destruct (iv_view _ Hr id) as [_ _ H3 _].
  assert (holders id (stacks w) = 0 ∧ inflight id (stacks w) = []) as [Hh Hin].
  { clear -Hidle. induction Hidle as [|k ks -> _ [IH1 IH2]]; [done|]. rewrite holders_cons, inflight_cons. by rewrite IH1, IH2. }
  destruct (Hf id) as [H1 H2]. rewrite Hh in H1. unfold holding in H1.
  rewrite <- (H3 Hid). unfold seen. rewrite Hin, H2 by (destruct (draining _); [lia|done]). by rewrite !app_nil_r.
Qed.

(** A task polls the getter exactly while it has a period and anything is subscribed. *)
Theorem polled_while_subscribed (initial : T) now p threads l w :
  run l (new_world initial now p threads) = Some w →
  poll (soft w) = polled (soft w) && negb (bool_decide (subscribers (soft w) = [])).
Proof. intros Hr. apply soft_run_inv in Hr; [|apply new_world_inv]. apply Hr. Qed.

(** *** A claim nobody holds *)

(** Claimed, with no frame of any thread that will drain it. *)
Definition Stranded id w : Prop := draining (box id (soft w)) = true ∧ holders id (stacks w) = 0.

Lemma stranded_put id w w' ks1 ks2 k k' :
  Stranded id w → stacks w = ks1 ++ k :: ks2 → stacks w' = ks1 ++ k' :: ks2 →
  (owed id k = 0 → owed id k' = 0) →
  (owed id k = 0 → draining (box id (soft w)) = true → draining (box id (soft w')) = true) → Stranded id w'.
Proof.
  intros [Hd Hh] Hw Hw' Hk Hb. rewrite Hw, holders_app, holders_cons in Hh.
  split; [apply Hb; [lia|done]|]. rewrite Hw', holders_app, holders_cons, Hk; lia.
Qed.

Lemma stranded_go id w w1 ks1 ks2 k k' :
  Inv w → Stranded id w → stacks w = ks1 ++ k :: ks2 → advance k w = Some (k', w1) →
  let w' := mkWorld (soft w1) (ks1 ++ k' :: ks2) (calls w1) (history w1) (since w1) in
  Stranded id w' ∧ calls_of id w' = calls_of id w.
Proof.
  intros Hi Hs Hw Ha w'. pose proof (shape_at _ _ _ _ Hi Hw) as Hk. pose proof Hs as [_ Hh].
  rewrite Hw, holders_app, holders_cons in Hh.
  assert (∀ i k0, k = Draining i :: k0 ∨ (∃ r, k = Calling i r :: k0) → i ≠ id) as Hne.
  { intros i k0 Hk0 ->. assert (1 ≤ owed id k); [|lia]. destruct Hk0 as [->|[r ->]].
    - rewrite owed_drain, decide_True by done. lia.
    - destruct Hk as [Ho _]. destruct k0 as [|g k0]; [done|]. injection Ho as ->.
      change (1 ≤ owed id (Draining id :: k0)). rewrite owed_drain, decide_True by done. lia. }
  destruct k as [|[[|i ids]|i|i r|i|i] k]; simpl in Ha; [done|..].
  - injection Ha as <- <-. by split; [eapply stranded_put|].
  - injection Ha as <- <-. split; [|done]. eapply stranded_put; [done|done|done| |done]. rewrite owed_drain.
    change (owed id (ToDrain (i :: ids) :: k)) with (count id (i :: ids) + owed id k).
    change (owed id (ToDrain ids :: k)) with (count id ids + owed id k). rewrite count_cons, count_one. lia.
  - specialize (Hne i k ltac:(by left)).
    destruct (pending (box i (soft w))) as [|r l] eqn:Hp; unfold pop in Ha; rewrite Hp in Ha; injection Ha as <- <-;
      (split; [|done]); (eapply stranded_put; [done|done|done| |simpl; by rewrite box_set_boxes, decide_False]); [|done].
    rewrite owed_drain. lia.
  - specialize (Hne i k ltac:(right; by exists r)). injection Ha as <- <-. split; [by eapply stranded_put|].
    unfold calls_of. simpl. rewrite filter_app, fmap_app. unfold filter at 2. simpl.
    by rewrite decide_False, app_nil_r.
  - injection Ha as <- <-. by split; [eapply stranded_put|].
  - injection Ha as <- <-. split; [|done]. eapply stranded_put; [done|done|done|done|]. simpl. unfold clear_pending.
    rewrite box_set_boxes. by destruct (decide (i = id)) as [->|].
Qed.

Lemma stranded_step id t a w w' :
  Inv w → Stranded id w → step t a w = Some w' → Stranded id w' ∧ calls_of id w' = calls_of id w.
Proof.
  intros Hi Hs Hstep. unfold step in Hstep. apply bind_Some in Hstep as (k & Hk & Hstep).
  apply bind_Some in Hstep as ([k' w1] & Ha & [= <-]). apply at_thread in Hk as (ks1 & ks2 & Hw & Hput).
  pose proof Hs as [Hd _]. destruct a as [[v put|v] now| |i| |]; simpl in Ha; try (destruct (free k); [|done]).
  - destruct (store_box v put now (soft w) id (iv_once _ Hi)) as [Hb Hc].
    destruct (store v put now (soft w)) as [l s] eqn:Hst. injection Ha as <- <-. simpl in *. rewrite Hput. split; [|done].
    eapply stranded_put; [done|done|done| |].
    + change (owed id (ToDrain l :: k)) with (count id l + owed id k). rewrite Hc, Hd. destruct (decide _); lia.
    + simpl. rewrite Hb. by destruct (decide _).
  - injection Ha as <- <-. simpl. rewrite Hput. split; [|done]. by eapply stranded_put.
  - injection Ha as <- <-. simpl. rewrite Hput. split; [|done].
    assert (next_id (soft w) ≠ id) as Hne.
    { intros <-. pose proof (vw_fresh _ _ (iv_view _ Hi (next_id (soft w))) ltac:(done)). congruence. }
    eapply stranded_put; [done|done|done| |].
    + rewrite owed_drain, decide_False by done. done.
    + unfold box. simpl. by rewrite lookup_insert_ne.
  - simpl in Ha. destruct (bool_decide _); [|done]. injection Ha as <- <-. simpl. rewrite Hput. split; [|done].
    by eapply stranded_put.
  - assert (stacks w1 = stacks w) as Hst.
    { destruct k as [|[[|j ids]|j|j r|j|j] k]; simpl in Ha; try (by injection Ha as <- <-); [done|].
      destruct (pop j (soft w)) as [[r|] s]; by injection Ha as <- <-. }
    rewrite Hst, Hput. by eapply stranded_go.
  - destruct k as [|[] k]; try done. injection Ha as <- <-. simpl. rewrite Hput. split; [|done].
    eapply stranded_put; [done|done|done|done|]. simpl. rewrite unwind_box. intros Hk _.
    destruct (drains id k) eqn:Hdr; [|done]. apply drains_owed in Hdr.
    change (owed id (InCallback id0 :: k)) with (owed id k) in Hk. lia.
Qed.

(** A mailbox that was claimed and is held by nobody is never drained again: whatever
    happens next, its callback is not called any more. *)
Theorem stranded_for_ever (initial : T) now p threads l1 w1 id l2 w2 :
  run l1 (new_world initial now p threads) = Some w1 → Stranded id w1 → run l2 w1 = Some w2 →
  calls_of id w2 = calls_of id w1.
Proof.
  intros Hr Hs Hr2. apply soft_run_inv in Hr; [|apply new_world_inv]. revert w1 Hr Hs Hr2.
  induction l2 as [|[t a] l2 IH]; intros w1 Hi Hs; simpl; [by intros [= ->]|].
  intros (w & Hst & Hr)%bind_Some. destruct (stranded_step id t a w1 w Hi Hs Hst) as [Hs' <-].
  apply IH; [by eapply soft_step_inv|done|done].
Qed.
End invariant.

(** ** Threads at work *)

Module SoftExample.
Definition start : World Z := new_world 0%Z 100%Z true 2.
(** A drain of one queued reading, from the claim to the mailbox found empty. *)
Definition drain_one (t : nat) : list (nat * Act Z) := [(t, Go); (t, Go); (t, Go); (t, Go)].
Definition subscribe (t : nat) : list (nat * Act Z) := (t, Subscribe) :: drain_one t.
Definition put (t : nat) (v now : Z) : nat * Act Z := (t, Begin (WStore v true) now).

(** Thread 1 writes while thread 0 is in the callback: thread 0 delivers both. *)
Definition overlap : list (nat * Act Z) :=
  subscribe 0 ++ [put 0 5%Z 101%Z; (0, Go); (0, Go); (0, Go); put 1 6%Z 102%Z; (1, Go)]
    ++ [(0, Go); (0, Go); (0, Go); (0, Go); (0, Go); (0, Go)].
Definition after (l : list (nat * Act Z)) : World Z := default start (run l start).

Lemma readings_come_in_order_witness :
  calls_of 0 (after overlap) `prefix_of` [(0, 100); (5, 101); (6, 102)]%Z.
Proof. apply (readings_come_in_order 0%Z 100%Z true 2 overlap (after overlap) 0). by vm_compute. Defined.

Lemma settled_means_delivered_witness : calls_of 0 (after overlap) = [(0, 100); (5, 101); (6, 102)]%Z.
Proof.
  apply (settled_means_delivered 0%Z 100%Z true 2 overlap (after overlap) 0);
    [by vm_compute|reflexivity|vm_compute; by repeat constructor|vm_compute; left].
Defined.

Lemma polled_while_subscribed_witness : poll (soft (after (subscribe 0))) = true.
Proof. apply (polled_while_subscribed 0%Z 100%Z true 2 (subscribe 0)). by vm_compute. Defined.

(** A callback that panics releases its own mailbox, and strands the others the same write
    had claimed: they are never called again. *)
Definition panicked : list (nat * Act Z) :=
  subscribe 0 ++ subscribe 1 ++ [put 0 5%Z 101%Z; (0, Go); (0, Go); (0, Go); (0, Panic)].
Definition next_write : list (nat * Act Z) :=
  [put 1 6%Z 102%Z; (1, Go)] ++ drain_one 1 ++ [(1, Go)].

Lemma stranded_for_ever_witness :
  calls_of 1 (after (panicked ++ next_write)) = calls_of 1 (after panicked).
Proof.
  apply (stranded_for_ever 0%Z 100%Z true 2 panicked (after panicked) 1 next_write);
    [by vm_compute|split; by vm_compute|by vm_compute].
Defined.

Lemma panic_strands_the_others :
  Stranded 1 (after panicked)
  ∧ calls_of 0 (after (panicked ++ next_write)) = [(0, 100); (5, 101); (6, 102)]%Z
  ∧ calls_of 1 (after (panicked ++ next_write)) = [(0, 100)]%Z
  ∧ subscribers (soft (after (panicked ++ next_write))) = [0; 1]
  ∧ stacks (after (panicked ++ next_write)) = [[]; []].
Proof. vm_compute. repeat split. Qed.

(** A delivery starts after the unsubscribe has returned: the reading was taken from the
    mailbox before the queue was cleared. *)
Definition unsubscribed : list (nat * Act Z) :=
  subscribe 1 ++ [put 0 5%Z 101%Z; (0, Go); (0, Go); (1, Unsubscribe 0); (1, Go)].

Lemma delivery_starts_after_unsubscribe :
  subscribers (soft (after unsubscribed)) = [] ∧ stacks (after unsubscribed) !! 1 = Some []
  ∧ calls_of 0 (after unsubscribed) = [(0, 100)]%Z
  ∧ calls_of 0 (after (unsubscribed ++ [(0, Go)])) = [(0, 100); (5, 101)]%Z.
Proof. vm_compute. repeat split. Qed.
End SoftExample.
