(* ===== verification/SignalCache.v ===== *)
(** * Signals and their shared monitor ([devices/signal_cache.rs], [devices/signal.rs])

    One monitor of the backend for all the listeners of a signal. A section under the
    cache's lock is one step, and so is each call the backend makes of a monitor's callback,
    which the backend may make at any time: also after the monitor was closed. *)

From S2P Require Import Prelude Interfaces Errors Documents F64 Control Suspend SoftSignal.

(** ** The cache *)

Section cache.
Context {R : Type}.
Implicit Types (r : R).

(** [token]: the open monitor, [monitors] the number of those opened so far; [handles]: the
    live listeners' receivers, each dropped with its token. *)
Record SignalCache := mkCache {
  staged : bool;
  listeners : nat;
  token : option nat;
  fanout : Fanout R;
  monitors : nat;
  handles : list nat;
}.
Implicit Types (c : SignalCache).

Definition new_cache : SignalCache := mkCache false 0 None new_fanout 0 [].
Definition set_fanout f c : SignalCache := mkCache (staged c) (listeners c) (token c) f (monitors c) (handles c).

(** What a monitor's callback does with a reading. *)
Definition callback r c : SignalCache := set_fanout (post r (fanout c)).2 c.

(** [first]: the readings the backend delivers while it opens a monitor, in that call. *)
Definition ensure_token (first : list R) c : SignalCache :=
  match token c with
  | Some _ => c
  | None =>
      mkCache (staged c) (listeners c) (Some (monitors c))
        (foldl (λ f r, (post r f).2) (fanout c) first) (S (monitors c)) (handles c)
  end.
Definition maybe_teardown c : SignalCache :=
  if negb (staged c) && (listeners c =? 0)
  then mkCache (staged c) (listeners c) None (clear (fanout c)) (monitors c) (handles c)
  else c.

Definition set_staged (first : list R) (b : bool) c : SignalCache :=
  let c := mkCache b (listeners c) (token c) (fanout c) (monitors c) (handles c) in
  if b then ensure_token first c else maybe_teardown c.
Definition add_listener (first : list R) c : nat * SignalCache :=
  let c := mkCache (staged c) (S (listeners c)) (token c) (fanout c) (monitors c) (handles c) in
  let c := ensure_token first c in
  let '(rx, f) := listen (fanout c) in
  (rx, mkCache (staged c) (listeners c) (token c) f (monitors c) (handles c ++ [rx])).
(** A subscription dropped: its token, and its queue. *)
Definition drop_listener (rx : nat) c : SignalCache :=
  let c := maybe_teardown
             (mkCache (staged c) (pred (listeners c)) (token c) (fanout c) (monitors c)
                (filter (λ x, x ≠ rx) (handles c))) in
  set_fanout (drop_rx rx (fanout c)) c.

Definition cached_reading c : option R := latest (fanout c).
Definition is_monitoring c : bool := bool_decide (is_Some (token c)).

(** What happens to a cache; [OReading m r]: monitor [m]'s callback is called. *)
Inductive Op :=
| OStage (first : list R) (b : bool)
| OListen (first : list R)
| ODrop (rx : nat)
| ORecv (rx : nat)
| OReading (m : nat) r.
Definition op (o : Op) c : SignalCache :=
  match o with
  | OStage first b => set_staged first b c
  | OListen first => (add_listener first c).2
  | ODrop rx => if bool_decide (rx ∈ handles c) then drop_listener rx c else c
  | ORecv rx => set_fanout (try_recv rx (fanout c)).2 c
  | OReading m r => if m <? monitors c then callback r c else c
  end.
Definition ops (l : list Op) c : SignalCache := foldl (λ c o, op o c) c l.

(** The callbacks called are those of the monitor open then. *)
Fixpoint timely (l : list Op) c : Prop :=
  match l with
  | [] => True
  | o :: l => match o with OReading m _ => token c = Some m | _ => True end ∧ timely l (op o c)
  end.
End cache.
Arguments SignalCache : clear implicits.
Arguments Op : clear implicits.

(** ** What the cache promises *)

Section promises.
Context {R : Type}.
Implicit Types (r : R) (c : SignalCache R) (o : Op R) (l : list (Op R)).

Definition wanted c : bool := staged c || (0 <? listeners c).

Definition live (f : Fanout R) rx : Prop := rx ∈ Suspend.listeners f ∧ is_Some (queues f !! rx).
Record Inv c : Prop := {
  iv_token : is_monitoring c = wanted c;
  iv_count : listeners c = length (handles c);
  iv_once : NoDup (handles c);
  iv_fan : fan_ok (fanout c);
  iv_live : ∀ rx, rx ∈ handles c → live (fanout c) rx;
}.

Lemma new_cache_inv : Inv new_cache.
Proof.
  split; try done; [constructor| |by intros rx ?%not_elem_of_nil].
  split; simpl; [constructor|by intros rx ?%not_elem_of_nil|intros rx; rewrite lookup_empty; by intros []].
Qed.

Lemma post_live r (f : Fanout R) : fan_ok f → fan_ok (post r f).2 ∧ ∀ rx, live f rx → live (post r f).2 rx.
Proof.
  intros Hf. split; [by apply (fan_op_ok (FPost r))|]. intros rx [Hin Hq].
  split; [by apply list_elem_of_filter|]. rewrite post_queue, decide_True by done. by apply fmap_is_Some.
Qed.
Lemma posts_live (first : list R) (f : Fanout R) :
  fan_ok f →
  fan_ok (foldl (λ f r, (post r f).2) f first)
  ∧ ∀ rx, live f rx → live (foldl (λ f r, (post r f).2) f first) rx.
Proof.
  revert f. induction first as [|r first IH]; intros f Hf; simpl; [by split|].
  destruct (post_live r f Hf) as [H1 H2]. destruct (IH _ H1) as [H3 H4]. split; [done|]. auto.
Qed.
Lemma listen_live (f : Fanout R) :
  fan_ok f → fan_ok (listen f).2 ∧ live (listen f).2 (listen f).1 ∧ ∀ rx, live f rx → live (listen f).2 rx.
Proof.
  intros Hf. split; [by apply (fan_op_ok FListen)|]. split.
  - split; simpl; [set_solver|]. by rewrite lookup_insert_eq.
  - intros rx [Hin Hq]. split; simpl.
    + apply elem_of_app. left. by apply list_elem_of_filter.
    + pose proof (fo_queue _ Hf rx Hq). rewrite lookup_insert_ne by lia. done.
Qed.
Lemma drop_live rx (f : Fanout R) :
  fan_ok f → fan_ok (drop_rx rx f) ∧ ∀ rx', rx' ≠ rx → live f rx' → live (drop_rx rx f) rx'.
Proof.
  intros Hf. split; [by apply (fan_op_ok (FDrop rx))|]. intros rx' Hne [Hin Hq]. split; [done|].
  simpl. by rewrite lookup_delete_ne.
Qed.
Lemma recv_live rx (f : Fanout R) :
  fan_ok f → fan_ok (try_recv rx f).2 ∧ ∀ rx', live f rx' → live (try_recv rx f).2 rx'.
Proof.
  intros Hf. split; [by apply (fan_op_ok (FRecv rx))|]. intros rx' [Hin Hq].
  destruct (try_recv_spec rx f) as [(v & q & Hv & ->)|[-> _]]; [|by split]. split; [done|]. simpl.
  destruct (decide (rx = rx')) as [->|]; [by rewrite lookup_insert_eq|by rewrite lookup_insert_ne].
Qed.

(** The parts of an operation, from a state with the counts right and the token not yet. *)
Lemma ensure_inv first c :
  listeners c = length (handles c) → NoDup (handles c) → fan_ok (fanout c) →
  (∀ rx, rx ∈ handles c → live (fanout c) rx) → wanted c = true → Inv (ensure_token first c).
Proof.
  intros H1 H2 H3 H4 Hw. unfold ensure_token. destruct (token c) as [m|] eqn:Ht.
  - split; try done. unfold is_monitoring. by rewrite Ht, bool_decide_true.
  - destruct (posts_live first _ H3) as [H5 H6]. split; simpl; [|done|done|done|auto]. transitivity true; [by apply bool_decide_eq_true; eexists|by rewrite <- Hw].
Qed.
Lemma teardown_inv c :
  listeners c = length (handles c) → NoDup (handles c) → fan_ok (fanout c) →
  (∀ rx, rx ∈ handles c → live (fanout c) rx) → (wanted c = true → is_monitoring c = true) →
  Inv (maybe_teardown c).
Proof.
  intros H1 H2 H3 H4 Hw. unfold maybe_teardown.
  assert (negb (staged c) && (listeners c =? 0) = negb (wanted c)) as ->.
  { unfold wanted. destruct (staged c); [done|]. by destruct (listeners c). }
  destruct (wanted c) eqn:Hwc; simpl.
  - split; try done. rewrite Hwc. auto.
  - split; simpl; [|done|done|by apply (fan_op_ok FClear)|done]. transitivity false; [by apply bool_decide_eq_false; intros []|by rewrite <- Hwc].
Qed.

Lemma add_listener_inv first c : Inv c → Inv (add_listener first c).2.
Proof.
  intros [Ht Hc Ho Hf Hl]. unfold add_listener. set (c1 := ensure_token first _).
  assert (is_Some (token c1) ∧ staged c1 = staged c ∧ listeners c1 = S (listeners c) ∧ handles c1 = handles c
    ∧ fan_ok (fanout c1) ∧ ∀ rx, rx ∈ handles c → live (fanout c1) rx) as (H1 & H2 & H3 & H4 & H5 & H6).
  { subst c1. unfold ensure_token. simpl. destruct (token c) as [m|]; simpl; [by eauto 10|].
    destruct (posts_live first _ Hf) as [H1 H2]. split_and!; auto. }
  destruct (listen_live _ H5) as (H7 & H8 & H9). destruct (listen (fanout c1)) as [rx f] eqn:Hls.
  split; simpl in *; rewrite ?H3, ?H4.
  - unfold is_monitoring, wanted. simpl. by rewrite bool_decide_true, orb_true_r.
  - rewrite length_app, Hc. simpl. lia.
  - apply NoDup_app. split_and!; [done| |apply NoDup_singleton]. intros x Hx ->%list_elem_of_singleton.
    apply H6 in Hx as [_ Hq]. pose proof (fo_queue _ H5 _ Hq) as Hlt. injection Hls as <- _. lia.
  - done.
  - intros x [Hx| ->%list_elem_of_singleton]%elem_of_app; [by apply H9, H6|done].
Qed.

Lemma length_remove (x : nat) (l : list nat) : NoDup l → x ∈ l → length (filter (λ y, y ≠ x) l) = pred (length l).
Proof.
  induction 1 as [|y l Hy Hd IH]; [by intros ?%not_elem_of_nil|]. intros Hx. rewrite filter_cons.
  destruct (decide (y ≠ x)) as [Hne|Heq].
  - apply elem_of_cons in Hx as [->|Hx]; [done|]. simpl. rewrite IH by done.
    destruct l; [by apply not_elem_of_nil in Hx|simpl; lia].
  - apply dec_stable in Heq as ->. simpl. f_equal. clear -Hy. induction l as [|z l IH]; [done|].
    apply not_elem_of_cons in Hy as [? ?]. rewrite filter_cons, decide_True by done. f_equal. auto.
Qed.

Lemma drop_listener_inv rx c : Inv c → rx ∈ handles c → Inv (drop_listener rx c).
Proof.
  intros [Ht Hc Ho Hf Hl] Hrx. unfold drop_listener. set (c1 := mkCache _ _ _ _ _ _).
  assert (Inv (maybe_teardown c1)) as Hi.
  { apply teardown_inv; simpl.
    - by rewrite Hc, length_remove.
    - by apply NoDup_filter.
    - done.
    - intros x [_ Hx]%list_elem_of_filter. auto.
    - change (is_monitoring c1) with (is_monitoring c). rewrite Ht. unfold wanted. simpl.
      intros [->|Hn]%orb_prop; [done|]. apply orb_true_intro. right. apply Nat.ltb_lt. apply Nat.ltb_lt in Hn. lia. }
  assert (rx ∉ handles (maybe_teardown c1)) as Hn.
  { unfold maybe_teardown. destruct (_ && _); simpl; by intros [? _]%list_elem_of_filter. }
  destruct Hi as [H1 H2 H3 H4 H5]. destruct (drop_live rx _ H4) as [H6 H7]. split; simpl; try done.
  intros x Hx. apply H7; [by intros ->|auto].
Qed.

Lemma op_inv o c : Inv c → Inv (op o c).
Proof.
  intros Hi. pose proof Hi as [Ht Hc Ho Hf Hl]. destruct o as [first b|first|rx|rx|m r]; simpl.
  - unfold set_staged. destruct b; [by apply ensure_inv|]. apply teardown_inv; try done.
    change (is_monitoring _) with (is_monitoring c). rewrite Ht. unfold wanted. simpl. intros ->. by rewrite orb_true_r.
  - by apply add_listener_inv.
  - destruct (bool_decide_reflect (rx ∈ handles c)); [by apply drop_listener_inv|done].
  - destruct (recv_live rx _ Hf) as [H1 H2]. split; simpl; try done. auto.
  - destruct (m <? monitors c); [|done]. destruct (post_live r _ Hf) as [H1 H2]. split; simpl; try done. auto.
Qed.
Lemma ops_inv l c : Inv c → Inv (ops l c).
Proof. revert c. induction l as [|o l IH]; intros c Hi; [done|]. apply IH. by apply op_inv. Qed.

(** Along any sequence of stagings, subscriptions, drops and readings, the monitor of the
    backend is open exactly while the signal is staged or somebody listens, and the count of
    listeners is that of the live subscriptions. *)
Theorem monitor_while_wanted l :
  let c := ops l new_cache in
  is_monitoring c = wanted c ∧ listeners c = length (handles c).
Proof. destruct (ops_inv l _ new_cache_inv). done. Qed.

(** *** What is cached *)

(** The readings the open monitor has delivered since it was opened, given those before. *)
Definition first_of o : list R := match o with OStage first _ | OListen first => first | _ => [] end.
Definition heard_by o c (before : list R) : list R :=
  match token (op o c), token c with
  | None, _ => []
  | Some _, None => first_of o
  | Some _, Some _ => before ++ match o with OReading _ r => [r] | _ => [] end
  end.
Fixpoint delivered l c (before : list R) : list R :=
  match l with [] => before | o :: l => delivered l (op o c) (heard_by o c before) end.

Lemma latest_posts (first : list R) (f : Fanout R) :
  latest (foldl (λ f r, (post r f).2) f first) = default (latest f) (Some <$> last first).
Proof.
  revert f. induction first as [|r first IH]; intros f; [done|]. simpl. rewrite IH. simpl.
  destruct first as [|r' first]; [done|]. rewrite (last_cons_cons r).
  destruct (last (r' :: first)) eqn:He; [done|]. by apply last_None in He.
Qed.

Definition in_step c (heard : list R) : Prop :=
  cached_reading c = last heard ∧ (token c = None → cached_reading c = None).

Lemma ensure_cached first c heard :
  in_step c heard →
  token (ensure_token first c) ≠ None
  ∧ in_step (ensure_token first c) (match token c with None => first | Some _ => heard end).
Proof.
  intros [H1 H2]. unfold ensure_token. destruct (token c) as [m|] eqn:Ht; [split; [by rewrite Ht|split; [exact H1|by rewrite Ht]]|].
  split; [done|]. split; [|done]. unfold cached_reading in *. simpl. rewrite latest_posts, H2 by done.
  by destruct (last first).
Qed.
Lemma teardown_cached c heard :
  in_step c heard → in_step (maybe_teardown c) (match token (maybe_teardown c) with None => [] | Some _ => heard end).
Proof.
  intros [H1 H2]. unfold maybe_teardown. destruct (_ && _); [by split|].
  destruct (token c) as [m|] eqn:Ht; split; rewrite ?Ht; auto.
Qed.

Lemma op_cached o c heard :
  in_step c heard → match o with OReading m _ => token c = Some m ∧ m < monitors c | _ => True end →
  in_step (op o c) (heard_by o c heard).
Proof.
  intros Hs Ho. unfold heard_by. destruct o as [first b|first|rx|rx|m r]; simpl.
  - unfold set_staged. set (c1 := mkCache _ _ _ _ _ _). assert (in_step c1 heard) as Hs1 by exact Hs. destruct b.
    + destruct (ensure_cached first c1 heard Hs1) as [Hn He]. change (token c1) with (token c) in He.
      destruct (token (ensure_token first c1)); [|done]. destruct (token c); [by rewrite app_nil_r|done].
    + pose proof (teardown_cached c1 heard Hs1) as Ht. destruct (token (maybe_teardown c1)) as [m|] eqn:Htk; [|done].
      assert (token c = Some m) as ->; [|by rewrite app_nil_r].
      revert Htk. unfold maybe_teardown. by destruct (_ && _).
  - unfold add_listener.
    set (c1 := mkCache (staged c) (S (listeners c)) (token c) (fanout c) (monitors c) (handles c)). assert (in_step c1 heard) as Hs1 by exact Hs.
    destruct (ensure_cached first c1 heard Hs1) as [Hn [H1 H2]]. change (token c1) with (token c) in H1.
    unfold in_step, cached_reading in *. cbn [token fanout latest].
    destruct (token (ensure_token first c1)) as [m|]; [|done]. split; [|done]. rewrite H1.
    destruct (token c); [by rewrite app_nil_r|done].
  - destruct (bool_decide (rx ∈ handles c)).
    + unfold drop_listener.
      set (c1 := mkCache (staged c) (pred (listeners c)) (token c) (fanout c) (monitors c) (filter (λ x, x ≠ rx) (handles c))). assert (in_step c1 heard) as Hs1 by exact Hs.
      pose proof (teardown_cached c1 heard Hs1) as [H1 H2]. unfold in_step, cached_reading, set_fanout.
      cbn [token fanout drop_rx latest]. unfold cached_reading in H1, H2.
      destruct (token (maybe_teardown c1)) as [m|] eqn:Htk; [|by split].
      assert (token c = Some m) as -> by (revert Htk; unfold maybe_teardown; by destruct (_ && _)).
      by rewrite app_nil_r.
    + destruct (token c) as [m|] eqn:Ht; [by rewrite app_nil_r|]. destruct Hs as [_ H2]. by split; [apply H2|].
  - assert (latest (try_recv rx (fanout c)).2 = latest (fanout c)) as Hl.
    { by destruct (try_recv_spec rx (fanout c)) as [(v & q & _ & ->)|[-> _]]. }
    destruct Hs as [H1 H2]. unfold in_step, cached_reading in *. simpl. rewrite Hl.
    destruct (token c); [by rewrite app_nil_r|]. by split; [apply H2|].
  - destruct Ho as [Ho Hm]. apply Nat.ltb_lt in Hm. rewrite Hm. simpl. rewrite Ho.
    split; [|by simpl; rewrite Ho]. simpl. by rewrite last_snoc.
Qed.

Definition token_known c : Prop := ∀ m, token c = Some m → m < monitors c.
Lemma op_token_known o c : token_known c → token_known (op o c).
Proof.
  assert (∀ first c, token_known c → token_known (ensure_token first c)) as He.
  { intros first c1 H1. unfold ensure_token. destruct (token c1) eqn:Ht; [done|]. intros m [= <-]. simpl. lia. }
  assert (∀ c, token_known c → token_known (maybe_teardown c)) as Hm.
  { intros c1 H1. unfold maybe_teardown. by destruct (_ && _). }
  intros Hc. destruct o as [first b|first|rx|rx|m r]; simpl.
  - unfold set_staged. destruct b; [by apply He|by apply Hm].
  - pose proof (He first (mkCache (staged c) (S (listeners c)) (token c) (fanout c) (monitors c) (handles c)) Hc) as H1.
    exact H1.
  - destruct (bool_decide _); [|done].
    exact (Hm (mkCache (staged c) (pred (listeners c)) (token c) (fanout c) (monitors c) (filter (λ x, x ≠ rx) (handles c))) Hc).
  - done.
  - by destruct (m <? monitors c).
Qed.

(** C31: As long as the backend calls the callback of the open monitor only, what is cached is the
    last reading that monitor has delivered since it was opened, and nothing when it is
    closed: a reading of an earlier monitor is never kept. *)
Theorem cache_follows_its_monitor l :
  timely l new_cache → cached_reading (ops l new_cache) = last (delivered l new_cache []).
Proof.
  assert (∀ c heard, token_known c → in_step c heard → timely l c →
    cached_reading (ops l c) = last (delivered l c heard)) as Hg; [|by apply Hg].
  induction l as [|o l IH]; intros c heard Hk Hs; simpl; [intros _; apply Hs|].
  intros [Ho Hl]. apply IH; [by apply op_token_known| |done]. apply op_cached; [done|].
  destruct o; try done. split; [done|by apply Hk].
Qed.

(** While the cache stays wanted its one monitor serves everybody: no other is opened. *)
Theorem monitor_is_shared l c m :
  Inv c → token c = Some m → (∀ l', l' `prefix_of` l → wanted (ops l' c) = true) →
  token (ops l c) = Some m ∧ monitors (ops l c) = monitors c.
Proof.
  revert c. induction l as [|o l IH]; intros c Hi Ht Hw; [done|].
  assert (wanted (op o c) = true) as Hw1 by (apply (Hw [o]); by apply prefix_cons, prefix_nil).
  assert (token (op o c) = Some m ∧ monitors (op o c) = monitors c) as [H1 H2].
  { assert (∀ c, maybe_teardown c = c ∨ wanted (maybe_teardown c) = false) as Hm.
    { intros c1. unfold maybe_teardown, wanted. destruct (staged c1) eqn:Hs1, (listeners c1) eqn:Hl1; simpl; auto. }
    destruct o as [first b|first|rx|rx|k r]; simpl in *.
    - unfold set_staged in *. destruct b; [unfold ensure_token; simpl; by rewrite Ht|].
      destruct (Hm (mkCache false (listeners c) (token c) (fanout c) (monitors c) (handles c))) as [->|Hf]; [done|congruence].
    - unfold ensure_token. simpl. by rewrite Ht.
    - destruct (bool_decide _); [|done]. unfold drop_listener in *.
      destruct (Hm (mkCache (staged c) (pred (listeners c)) (token c) (fanout c) (monitors c) (filter (λ x, x ≠ rx) (handles c))))
        as [Hc|Hf]; [by rewrite Hc|].
      unfold wanted in Hf. unfold wanted, set_fanout in Hw1. simpl in Hw1. congruence.
    - done.
    - by destruct (k <? monitors c). }
  rewrite <- H2. apply IH; [by apply op_inv|done|]. intros l' Hl'. apply (Hw (o :: l')). by apply prefix_cons.
Qed.
End promises.

(** ** Signals *)

Inductive Kind := KNormal | KConfig | KHinted | KOmitted.
Definition in_event_data (k : Kind) : bool := match k with KNormal | KHinted => true | _ => false end.
Definition in_configuration (k : Kind) : bool := match k with KConfig => true | _ => false end.
Definition is_hinted (k : Kind) : bool := match k with KHinted => true | _ => false end.

Record SignalConfig := mkConfig { source_name : string; kind : Kind; signal_name : string }.

(** [SignalBackend<T>]: its state [b], and what each call answers and does to it; [b_first]:
    the readings a monitor is given while it is being opened. *)
Class SignalBackend `{JsonNumber} (T b : Type) := {
  b_put : option T → b → Result unit BsrsError * b;
  b_get_value : b → Result T BsrsError * b;
  b_get_reading : b → Result ReadingValue BsrsError * b;
  b_get_setpoint : b → Result T BsrsError * b;
  b_get_datakey : string → b → Result DataKey BsrsError;
  b_source : string → bool → string;
  b_first : b → list ReadingValue;
}.

Section signal.
Context `{JsonNumber} {T b : Type} `{!SignalBackend T b}.
(** [Display] of an error. *)
Variable error_text : BsrsError → string.

Record Signal := mkSignal { backend : b; config : SignalConfig; cache : option (SignalCache ReadingValue) }.
Implicit Types (s : Signal).

Definition set_backend x s : Signal := mkSignal x (config s) (cache s).
Definition set_cache c s : Signal := mkSignal (backend s) (config s) (Some c).
Definition the_cache s : SignalCache ReadingValue := default new_cache (cache s).
Definition cache_snapshot s : option ReadingValue := cache s ≫= cached_reading.
Definition source s : string := b_source (source_name (config s)) true.
Definition ask {A} (f : b → Result A BsrsError * b) s : Result A BsrsError * Signal :=
  let '(r, x) := f (backend s) in (r, set_backend x s).

Definition get s : Result T BsrsError * Signal := ask b_get_value s.
Definition get_setpoint s : Result T BsrsError * Signal := ask b_get_setpoint s.
Definition read_cached (cached : option bool) s : Result (gmap string ReadingValue) BsrsError * Signal :=
  let '(r, s) :=
    match cached with
    | Some false => ask b_get_reading s
    | _ => match cache_snapshot s with
           | Some rv => (Ok rv, s)
           | None => ask b_get_reading s
           end
    end in
  (match r with Ok rv => Ok {[ signal_name (config s) := rv ]} | Err e => Err e end, s).
Definition read s := read_cached None s.
Definition describe s : Result (gmap string DataKey) BsrsError :=
  match b_get_datakey (source_name (config s)) (backend s) with
  | Ok dk =>
      Ok {[ signal_name (config s) :=
              mkDataKey (source s) (dk_dtype dk) (dk_shape dk) (dk_dtype_numpy dk) (dk_external dk) (dk_units dk)
                (dk_precision dk) (dk_object_name dk) (dk_dims dk) (dk_limits dk) (dk_choices dk) ]}
  | Err e => Err e
  end.
Definition stage s : Signal := set_cache (set_staged (b_first (backend s)) true (the_cache s)) s.
Definition unstage s : Signal := set_cache (set_staged [] false (the_cache s)) s.
Definition subscribe s : nat * Signal :=
  let '(rx, c) := add_listener (b_first (backend s)) (the_cache s) in (rx, set_cache c s).

Definition put_status (r : Result unit BsrsError) : Result unit StatusError :=
  match r with Ok _ => Ok () | Err e => Err (SFailed (error_text e)) end.
Definition put (v : T) s : Result unit StatusError * Signal :=
  let '(r, s) := ask (b_put (Some v)) s in (put_status r, s).
Definition trigger s : Result unit StatusError * Signal :=
  let '(r, s) := ask (b_put None) s in (put_status r, s).
Definition locate s : Result (T * T) BsrsError * Signal :=
  let '(sp, s) := get_setpoint s in
  let '(rb, s) := get s in
  (match sp, rb with Ok x, Ok y => Ok (x, y) | Err e, _ => Err e | _, Err e => Err e end, s).
Definition hint_fields s : option (list string) :=
  if is_hinted (kind (config s)) then Some [signal_name (config s)] else None.
End signal.
Arguments Signal {_} _.

(** ** Connecting once

    The connect a signal started last: a task that was spawned, its outcome once it has
    ended, and whether one of the callers that wait for it has been told ([Shared::peek]
    knows of an outcome only then). *)

Section connect.
Context {E : Type}.
Implicit Types (r : Result unit E).

Record Task := mkTask { outcome : option (Result unit E); told : bool }.
(** [slot]: the last task, of all those spawned. *)
Record ConnectOnce := mkConnect { slot : option nat; tasks : list Task }.
Implicit Types (c : ConnectOnce).

Definition connect_default : ConnectOnce := mkConnect None [].
Definition peek (t : Task) : option (Result unit E) := if told t then outcome t else None.

(** [join]: the task the caller waits for. *)
Definition join (force : bool) c : nat * ConnectOnce :=
  let spawn := (length (tasks c), mkConnect (Some (length (tasks c))) (tasks c ++ [mkTask None false])) in
  match slot c with
  | Some i =>
      match tasks c !! i ≫= peek with
      | Some (Err _) => spawn
      | _ => if force then spawn else (i, c)
      end
  | None => spawn
  end.
(** A task ends; a caller is woken. *)
Definition ends (i : nat) r c : ConnectOnce :=
  mkConnect (slot c) (alter (λ t, mkTask (default (Some r) (Some <$> outcome t)) (told t)) i (tasks c)).
Definition wait (i : nat) c : option (Result unit E) * ConnectOnce :=
  match tasks c !! i ≫= outcome with
  | Some r => (Some r, mkConnect (slot c) (alter (λ t, mkTask (outcome t) true) i (tasks c)))
  | None => (None, c)
  end.

Inductive ConnectOp := CJoin (force : bool) | CEnds (i : nat) r | CWait (i : nat).
Definition connect_op (o : ConnectOp) c : ConnectOnce :=
  match o with CJoin f => (join f c).2 | CEnds i r => ends i r c | CWait i => (wait i c).2 end.
Definition connect_ops (l : list ConnectOp) c : ConnectOnce := foldl (λ c o, connect_op o c) c l.
Definition forced (l : list ConnectOp) : bool :=
  existsb (λ o, match o with CJoin true => true | _ => false end) l.

(** A task that ended in an error. *)
Definition task_failed (t : Task) : Prop := match outcome t with Some (Err _) => True | _ => False end.
#[local] Instance task_failed_dec t : Decision (task_failed t).
Proof. unfold task_failed. destruct (outcome t) as [[]|]; apply _. Defined.

Definition connect_ok c : Prop :=
  match slot c with
  | None => tasks c = []
  | Some i => S i = length (tasks c) ∧ ∀ j t, tasks c !! j = Some t → j ≠ i → task_failed t
  end.

Lemma alter_other (f : Task → Task) i j (ts : list Task) t :
  alter f i ts !! j = Some t → ∃ t0, ts !! j = Some t0 ∧ (t = t0 ∨ i = j ∧ t = f t0).
Proof.
  destruct (decide (i = j)) as [->|Hne].
  - rewrite list_lookup_alter_eq. intros (t0 & -> & ->)%fmap_Some. eauto.
  - rewrite list_lookup_alter_ne by done. eauto.
Qed.

Lemma connect_op_ok o c :
  match o with CJoin true => False | _ => True end → connect_ok c → connect_ok (connect_op o c).
Proof.
  unfold connect_ok. intros Ho Hc. destruct o as [[]|i r|i]; [done|..]; simpl.
  - unfold join. destruct (slot c) as [k|] eqn:Hs; simpl.
    + destruct Hc as [Hk Hf]. destruct (tasks c !! k) as [t|] eqn:Hk2; simpl; [|rewrite Hs; by split].
      destruct (peek t) as [[|e]|] eqn:Hp; simpl; rewrite ?Hs; try by split.
      rewrite length_app, Nat.add_comm. split; [done|]. intros j t' Hj Hne.
      apply lookup_app_Some in Hj as [Hj|[Hge Hj]].
      * destruct (decide (j = k)) as [->|]; [|by eapply Hf]. rewrite Hk2 in Hj. injection Hj as <-.
        unfold peek in Hp. unfold task_failed. by destruct (told t); rewrite ?Hp.
      * destruct (j - length (tasks c)) eqn:Hd; [lia|done].
    + rewrite Hc. simpl. split; [done|]. intros [|j] t Hj Hne; done.
  - destruct (slot c) as [k|]; [|by rewrite Hc]. rewrite length_alter. destruct Hc as [Hk Hf]. split; [done|].
    intros j t (t0 & Ht0 & [->|[-> ->]])%alter_other Hne; specialize (Hf _ _ Ht0 Hne); [done|].
    unfold task_failed in *. simpl. by destruct (outcome t0) as [[]|].
  - unfold wait. destruct (tasks c !! i ≫= outcome); [|done]. simpl.
    destruct (slot c) as [k|]; [|by rewrite Hc]. rewrite length_alter. destruct Hc as [Hk Hf]. split; [done|].
    intros j t (t0 & Ht0 & [->|[-> ->]])%alter_other Hne; by specialize (Hf _ _ Ht0 Hne).
Qed.

(** Without a forced reconnect a connect is started anew only after the one before has
    failed: every task but the last has ended in an error, so that at most one runs and a
    backend that connected is not connected again. *)
Theorem one_connect_at_a_time l :
  forced l = false →
  let c := connect_ops l connect_default in
  ∀ j t, tasks c !! j = Some t → S j < length (tasks c) → task_failed t.
Proof.
  intros Hl c. assert (connect_ok c) as Hc.
  { subst c. assert (connect_ok connect_default) as H0 by done. revert H0 Hl. generalize connect_default.
    induction l as [|o l IH]; intros c Hc; [done|]. simpl. intros [Ho Hl]%orb_false_elim.
    apply IH; [|done]. apply connect_op_ok; [|done]. by destruct o as [[]| |]. }
  intros j t Hj Hlt. unfold connect_ok in Hc. destruct (slot c) as [k|]; [|by rewrite Hc in Hj].
  destruct Hc as [Hk Hf]. apply (Hf j t Hj). lia.
Qed.
End connect.
Arguments ConnectOnce : clear implicits.
Arguments ConnectOp : clear implicits.

(** ** A signal over a soft backend

    Without getter or setter, its monitors being the cache's; a value's JSON and data key are
    what its type gives, the clock an argument of the state. *)
Section soft_device.
Context `{JsonNumber} {T : Type}.
Variables (to_value : T → Value) (make_datakey : string → T → DataKey).

Record SoftDevice := mkSoftDevice { soft_state : Soft T; soft_initial : T; clock : f64 }.
Definition soft_reading (d : SoftDevice) : ReadingValue :=
  mkReading (to_value (value (soft_state d))) (timestamp (soft_state d)) (Some 0%Z) None.
Definition soft_put (v : option T) (d : SoftDevice) : Result unit BsrsError * SoftDevice :=
  let '(l, r) := put_start (soft_initial d) None None v in
  (r, mkSoftDevice (foldl (λ st x, write (clock d) x st) (soft_state d) l) (soft_initial d) (clock d)).

#[local] Instance soft_backend : SignalBackend T SoftDevice := {|
  b_put := soft_put;
  b_get_value d := (Ok (value (soft_state d)), d);
  b_get_reading d := (Ok (soft_reading d), d);
  b_get_setpoint d := (Ok (setpoint (soft_state d)), d);
  b_get_datakey source d := Ok (make_datakey ("soft://" +:+ source) (value (soft_state d)));
  b_source name _ := "soft://" +:+ name;
  b_first d := [soft_reading d];
|}.

(** [SoftMotor]: its signal's name and its units. *)
Record SoftMotor := mkMotor { motor_name : string; motor_backend : SoftDevice; motor_units : option string }.
Definition motor_read (m : SoftMotor) : Result (gmap string ReadingValue) BsrsError :=
  Ok {[ motor_name m := soft_reading (motor_backend m) ]}.
Definition motor_describe (m : SoftMotor) : Result (gmap string DataKey) BsrsError :=
  match b_get_datakey (motor_name m) (motor_backend m) with
  | Ok dk =>
      Ok {[ motor_name m :=
              mkDataKey (dk_source dk) (dk_dtype dk) (dk_shape dk) (dk_dtype_numpy dk) (dk_external dk) (motor_units m)
                (dk_precision dk) (dk_object_name dk) (dk_dims dk) (dk_limits dk) (dk_choices dk) ]}
  | Err e => Err e
  end.
Definition motor_set (error_text : BsrsError → string) (v : T) (m : SoftMotor) : Result unit StatusError * SoftMotor :=
  let '(r, d) := b_put (Some v) (motor_backend m) in
  (put_status error_text r, mkMotor (motor_name m) d (motor_units m)).
Definition motor_locate (m : SoftMotor) : Result (T * T) BsrsError :=
  Ok (setpoint (soft_state (motor_backend m)), value (soft_state (motor_backend m))).
Definition motor_stop (success : bool) (m : SoftMotor) : Result unit BsrsError * SoftMotor := (Ok (), m).

Lemma soft_put_state v d :
  let v := default (soft_initial d) v in
  soft_put (Some v) d = (Ok (), mkSoftDevice (store v true (clock d) (soft_state d)).2 (soft_initial d) (clock d)).
Proof. done. Qed.
Lemma store_values v put now (s : Soft T) :
  value (store v put now s).2 = v ∧ timestamp (store v put now s).2 = now
  ∧ setpoint (store v put now s).2 = (if put then v else setpoint s).
Proof. unfold store. by destruct (enqueue_all _ _ _). Qed.

(** A soft motor is where it was last told to go as soon as it is told: its readback, its
    setpoint and its reading are the value set, stamped with the time it was set, however
    often it is read or stopped afterwards. *)
Theorem motor_is_where_it_was_sent error_text v m stops :
  let m1 := (motor_set error_text v m).2 in
  let m2 := foldl (λ m s, (motor_stop s m).2) m1 stops in
  (motor_set error_text v m).1 = Ok () ∧ motor_locate m2 = Ok (v, v)
  ∧ motor_read m2 = Ok {[ motor_name m := mkReading (to_value v) (clock (motor_backend m)) (Some 0%Z) None ]}.
Proof.
  intros m1 m2. assert (m2 = m1) as ->. { subst m2. by induction stops. }
  subst m1. unfold motor_set. simpl. unfold soft_put. simpl. unfold motor_locate, motor_read, soft_reading. simpl.
  destruct (store_values v true (clock (motor_backend m)) (soft_state (motor_backend m))) as (-> & -> & ->). done.
Qed.

(** A put read back through the signal: uncached, or with nothing cached, it is the value
    put, stamped with the time of the put. *)
Theorem put_then_read error_text v (s : Signal SoftDevice) cached :
  cached = Some false ∨ cache_snapshot s = None →
  let '(r, s1) := put error_text v s in
  r = Ok () ∧ (read_cached cached s1).1
    = Ok {[ signal_name (config s) := mkReading (to_value v) (clock (backend s)) (Some 0%Z) None ]}.
Proof.
  intros Hc. unfold put, ask. simpl. unfold soft_put. simpl. split; [done|]. unfold read_cached, ask.
  assert (∀ s1 : Signal SoftDevice, cache s1 = cache s → cache_snapshot s1 = cache_snapshot s) as Hs.
  { intros s1 He. unfold cache_snapshot. by rewrite He. }
  destruct (store_values v true (clock (backend s)) (soft_state (backend s))) as (Hv & Ht & _).
  destruct Hc as [->|Hn]; [|rewrite Hs, Hn by done; destruct cached as [[]|]]; simpl;
    unfold soft_reading; simpl; by rewrite Hv, Ht.
Qed.
End soft_device.
Arguments SoftDevice : clear implicits.

(** ** Signals at work *)

Module SignalExample.
Import Sample.
Definition session : list (Op Z) :=
  [OListen [1%Z]; OReading 0 2%Z; OStage [] true; ODrop 0; OReading 0 3%Z; OStage [] false; OListen [7%Z]].

Lemma cache_follows_its_monitor_witness : cached_reading (ops session new_cache) = Some 7%Z.
Proof.
  rewrite (cache_follows_its_monitor session); [by vm_compute|by vm_compute].
Defined.

(** Two listeners and a staging, one monitor. *)
Definition shared : list (Op Z) := [OListen [9%Z]; OStage [9%Z] true; ODrop 0; OReading 0 2%Z].
Lemma monitor_is_shared_witness :
  token (ops shared (op (OListen [1%Z]) new_cache)) = Some 0.
Proof.
  apply (monitor_is_shared shared (op (OListen [1%Z]) new_cache) 0).
  - apply op_inv, new_cache_inv.
  - reflexivity.
  - intros l' [k Hk]. unfold shared in Hk.
    do 4 (destruct l' as [|? l']; [reflexivity|injection Hk as <- Hk]).
    destruct l'; [reflexivity|done].
Defined.

Definition flaky : list (ConnectOp string) :=
  [CJoin false; CJoin false; CEnds 0 (Err "no route"); CWait 0; CJoin false; CEnds 1 (Ok ()); CJoin false].
Lemma one_connect_at_a_time_witness :
  length (tasks (connect_ops flaky connect_default)) = 2
  ∧ ∀ t, tasks (connect_ops flaky connect_default) !! 0 = Some t → task_failed t.
Proof.
  split; [reflexivity|]. intros t Ht.
  apply (one_connect_at_a_time flaky eq_refl 0 t Ht). vm_compute. lia.
Defined.

(** A connect that failed after its only caller had gone is not retried: the next caller is
    given the old failure. *)
Definition abandoned : list (ConnectOp string) := [CJoin false; CEnds 0 (Err "no route")].
Lemma abandoned_failure_is_not_retried :
  let c := connect_ops abandoned connect_default in
  (join false c).1 = 0 ∧ length (tasks (join false c).2) = 1
  ∧ (wait 0 (join false c).2).1 = Some (Err "no route").
Proof. vm_compute. auto. Qed.

(** A reading delivered by a monitor that has been closed is cached by the closed cache, and
    a read of the signal gives it for its value from then on. *)
Definition json_of (z : Z) : Value := json_Z z.
Definition key_of (source : string) (z : Z) : DataKey :=
  mkDataKey source DNumber [] None None None None None None None None.
Definition at_ (v t : Z) : ReadingValue := mkReading (json_Z v) t (Some 0%Z) None.
Definition device (v t : Z) : SoftDevice Z := mkSoftDevice (new_soft v t false) 0%Z t.

#[local] Instance sensor_backend : SignalBackend Z (SoftDevice Z) := soft_backend json_of key_of.
Definition sensor : Signal (SoftDevice Z) := mkSignal (device 1 100) (mkConfig "sensor" KHinted "sensor") None.

Lemma late_reading_is_served :
  let s1 := unstage
              (stage sensor) in
  let late := set_cache (op (OReading 0 (at_ 2 101)) (the_cache s1)) s1 in
  let now := set_backend (device 5 105) late in
  is_monitoring (the_cache now) = false
  ∧ (get now).1 = Ok 5%Z
  ∧ (read now).1 = Ok {[ "sensor" := at_ 2 101 ]}.
Proof. split_and!; reflexivity. Qed.

Lemma put_then_read_witness :
  (read_cached (Some false)
     (put (λ _, "") 3%Z sensor).2).1
  = Ok {[ "sensor" := at_ 3 100 ]}.
Proof.
  pose proof (put_then_read json_of key_of (λ _, "") 3%Z sensor (Some false) ltac:(by left)) as Hp.
  destruct (put _ _ sensor) as [r s1]. apply Hp.
Defined.
End SignalExample.
