(* ===== verification/Staging.v ===== *)
(** * Staged settings and compound devices ([devices/stage_sigs.rs], [devices/standard_readable.rs],
      [devices/device.rs])

    The settings a device writes when it is staged and takes back when it is unstaged, the
    device made of children, and the connecting of several devices. Futures that are joined
    run one after another. *)

From stdpp Require Import pretty.
From S2P Require Import Prelude Interfaces Errors Documents.

(** ** Staged settings *)

(** The signals settings are written to, by number: their state [hw], what a get and a put
    answer and do to it. *)
Class Signals `{JsonNumber} (V hw : Type) := {
  sig_get : nat → hw → Result V BsrsError * hw;
  sig_put : nat → V → hw → Result unit BsrsError * hw;
  sig_source : nat → string;
}.

Section stage_sigs.
Context `{JsonNumber} {V hw : Type} `{!Signals V hw}.

(** [TypedStageSetting] *)
Record Setting := mkSetting { signal : nat; desired : V; original : option V; key : string }.
Record StageSigs := mkStageSigs { settings : list Setting; sigs_staged : bool }.
Implicit Types (s : Setting) (g : StageSigs) (h : hw).

Definition set_original v s : Setting := mkSetting (signal s) (desired s) v (key s).
Definition set_settings l g : StageSigs := mkStageSigs l (sigs_staged g).

Definition apply s h : Result Setting BsrsError * hw :=
  match sig_get (signal s) h with
  | (Err e, h) => (Err e, h)
  | (Ok current, h) =>
      match sig_put (signal s) (desired s) h with
      | (Err e, h) => (Err e, h)
      | (Ok _, h) => (Ok (set_original (Some current) s), h)
      end
  end.
Definition restore s h : Result unit BsrsError * Setting * hw :=
  match original s with
  | None => (Ok (), s, h)
  | Some v => let '(r, h) := sig_put (signal s) v h in (r, set_original None s, h)
  end.

Definition new_sigs : StageSigs := mkStageSigs [] false.
Definition clear_sigs g : StageSigs := set_settings [] g.
(** A setting of the same key is replaced where it stands. *)
Fixpoint replace_or_push (x : Setting) (l : list Setting) : list Setting :=
  match l with
  | [] => [x]
  | y :: l => if String.eqb (key y) (key x) then x :: l else y :: replace_or_push x l
  end.
Definition push (x : Setting) g : StageSigs := set_settings (replace_or_push x (settings g)) g.
Definition set (i : nat) (v : V) g : StageSigs := push (mkSetting i v None (sig_source i)) g.

(** The restores of [applied], the last one first; their errors are dropped. *)
Fixpoint undo (applied : list Setting) h : list Setting * hw :=
  match applied with
  | [] => ([], h)
  | s :: l => let '(l, h) := undo l h in let '(_, s, h) := restore s h in (s :: l, h)
  end.
(** The settings applied one after another: all of them, or an error and how far they went. *)
Fixpoint apply_all (todo applied : list Setting) h : option BsrsError * list Setting * list Setting * hw :=
  match todo with
  | [] => (None, applied, [], h)
  | s :: l =>
      match apply s h with
      | (Ok s, h) => apply_all l (applied ++ [s]) h
      | (Err e, h) => (Some e, applied, s :: l, h)
      end
  end.
Definition already_staged : BsrsError :=
  StatusE (SFailed "StageSigs::stage: already staged; unstage first (RedundantStaging)").
Definition stage g h : Result unit BsrsError * StageSigs * hw :=
  if sigs_staged g then (Err already_staged, g, h) else
  match apply_all (settings g) [] h with
  | (None, applied, _, h) => (Ok (), mkStageSigs applied true, h)
  | (Some e, applied, rest, h) =>
      let '(applied, h) := undo applied h in (Err e, mkStageSigs (applied ++ rest) false, h)
  end.

(** Every setting restored, the last one first, and the first error met. *)
Fixpoint restore_all (l : list Setting) h : option BsrsError * list Setting * hw :=
  match l with
  | [] => (None, [], h)
  | s :: l =>
      let '(e, l, h) := restore_all l h in
      let '(r, s, h) := restore s h in
      (match e with Some _ => e | None => match r with Ok _ => None | Err x => Some x end end, s :: l, h)
  end.
Definition unstage g h : Result unit BsrsError * StageSigs * hw :=
  let '(e, l, h) := restore_all (settings g) h in
  (match e with Some e => Err e | None => Ok () end, mkStageSigs l false, h).

(** ** What staging promises *)

(** Signals that hold what was last written to them; several may be the same cell. *)
Record Memory (cell : nat → nat) (value : nat → hw → V) (accepts : nat → V → bool) : Prop := {
  mem_get i h : sig_get i h = (Ok (value (cell i) h), h);
  mem_put i v h : match sig_put i v h with
                  | (Ok _, h') => accepts i v = true ∧ ∀ c, value c h' = if decide (c = cell i) then v else value c h
                  | (Err _, h') => accepts i v = false ∧ ∀ c, value c h' = value c h
                  end;
  (** What a signal holds can be written to it. *)
  mem_back i h : accepts i (value (cell i) h) = true;
}.

Context (cell : nat → nat) (value : nat → hw → V) (accepts : nat → V → bool).
Hypothesis memory : Memory cell value accepts.

Definition cells (l : list Setting) : list nat := (λ s, cell (signal s)) <$> l.

(** The applied settings hold what their cells held before, each as the ones before it
    left it: restored in reverse they bring back what there was. *)
Inductive Captured : list Setting → (nat → V) → Prop :=
| captured_nil m : Captured [] m
| captured_cons s l m v :
    original s = Some (m (cell (signal s))) → accepts (signal s) (m (cell (signal s))) = true →
    Captured l (λ c, if decide (c = cell (signal s)) then v else m c) →
    Captured (s :: l) m.

Definition consumed (l : list Setting) : Prop := Forall (λ s, original s = None) l.
Definition same_setting s1 s2 : Prop := signal s1 = signal s2 ∧ desired s1 = desired s2 ∧ key s1 = key s2.

Lemma put_accepted i v h :
  accepts i v = true →
  ∃ h', sig_put i v h = (Ok (), h') ∧ ∀ c, value c h' = if decide (c = cell i) then v else value c h.
Proof.
  intros Ha. pose proof (mem_put _ _ _ memory i v h) as Hp. destruct (sig_put i v h) as [[[]|e] h'].
  - exists h'. naive_solver.
  - destruct Hp. congruence.
Qed.

(** Restoring what was captured brings the captured cells back, whatever they hold by now,
    and leaves the others. *)
Lemma restore_all_captured l m h :
  Captured l m →
  ∃ l' h', restore_all l h = (None, l', h') ∧ undo l h = (l', h') ∧ consumed l'
    ∧ Forall2 same_setting l l'
    ∧ ∀ c, value c h' = if decide (c ∈ cells l) then m c else value c h.
Proof.
  induction 1 as [m|s l m v Ho Ha _ (l' & h1 & Hr & Hu & Hc & Hf & Hv)]; simpl.
  { exists [], h. split_and!; [done|done|constructor|constructor|done]. }
  rewrite Hr, Hu. unfold restore. rewrite Ho.
  destruct (put_accepted (signal s) _ h1 Ha) as (h2 & -> & Hv2).
  exists (set_original None s :: l'), h2. split_and!; [done|done|by constructor|by constructor|].
  intros c. rewrite Hv2, Hv. destruct (decide (c = cell (signal s))) as [->|Hne].
  - by rewrite decide_True by (by left).
  - destruct (decide (c ∈ cells l)).
    + by rewrite decide_True by (by right).
    + rewrite decide_False; [done|]. by intros [|]%elem_of_cons.
Qed.

Lemma captured_ext l m m' : Captured l m → (∀ c, m c = m' c) → Captured l m'.
Proof.
  intros Hl. revert m'. induction Hl as [m|s l m v Ho Ha _ IH]; intros m' Hm; [constructor|].
  eapply (captured_cons s l m' v); [by rewrite <- Hm|by rewrite <- Hm|]. apply IH. intros c. by rewrite Hm.
Qed.

Lemma apply_all_acc l a h :
  apply_all l a h = (let '(e, a', rest, h') := apply_all l [] h in (e, a ++ a', rest, h')).
Proof.
  revert a h. induction l as [|s l IH]; intros a h; simpl; [by rewrite app_nil_r|].
  destruct (apply s h) as [[s'|e] h1]; [|by rewrite app_nil_r].
  rewrite IH, (IH [s']). destruct (apply_all l [] h1) as [[[e a'] rest] h']. by rewrite <- app_assoc.
Qed.

Lemma apply_spec s h :
  match apply s h with
  | (Ok s', h') =>
      s' = set_original (Some (value (cell (signal s)) h)) s
      ∧ ∀ c, value c h' = if decide (c = cell (signal s)) then desired s else value c h
  | (Err _, h') => ∀ c, value c h' = value c h
  end.
Proof.
  unfold apply. rewrite (mem_get _ _ _ memory). pose proof (mem_put _ _ _ memory (signal s) (desired s) h) as Hp.
  destruct (sig_put (signal s) (desired s) h) as [[[]|e] h']; [|apply Hp]. split; [done|apply Hp].
Qed.

Lemma apply_all_captured l h e a rest h' :
  apply_all l [] h = (e, a, rest, h') →
  Captured a (λ c, value c h) ∧ (∀ c, c ∉ cells a → value c h' = value c h)
  ∧ (∃ l1, l = l1 ++ rest ∧ Forall2 same_setting l1 a) ∧ (e = None → rest = []).
Proof.
  revert h a. induction l as [|s l IH]; intros h a; simpl.
  { intros [= <- <- <- <-]. split_and!; [constructor|done|by exists []|done]. }
  pose proof (apply_spec s h) as Ha. destruct (apply s h) as [[s'|x] h1].
  - destruct Ha as [-> Hv]. rewrite apply_all_acc. destruct (apply_all l [] h1) as [[[e1 a1] rest1] h2] eqn:Hl.
    intros [= <- <- <- <-]. apply IH in Hl as (Hc & Hu & (l1 & -> & Hf) & He). split_and!; [| | |done].
    + apply (captured_cons _ _ _ (desired s)); [done|apply (mem_back _ _ _ memory)|].
      eapply captured_ext; [exact Hc|]. intros c. simpl. apply Hv.
    + intros c [Hne Hn]%not_elem_of_cons. rewrite Hu, Hv by done. by rewrite decide_False.
    + exists (s :: l1). split; [done|]. by constructor.
  - intros [= <- <- <- <-]. split_and!; [constructor|auto|by exists []|done].
Qed.

Lemma cells_same l1 l2 : Forall2 same_setting l1 l2 → cells l1 = cells l2.
Proof. induction 1 as [|s1 s2 l1 l2 (Hs & _) _ IH]; [done|]. simpl. by rewrite Hs, IH. Qed.

Lemma restore_consumed l h : consumed l → restore_all l h = (None, l, h).
Proof.
  induction 1 as [|s l Hs _ IH]; [done|]. simpl. rewrite IH. unfold restore. by rewrite Hs.
Qed.

(** C32: Where signals are memory cells (reading one never fails, which values one takes does not
    change with time, and what it holds can be written back), staging and unstaging is undone:
    whatever happened in between, and even when several settings write the same cell, every
    signal that was staged holds again what it held before, nothing else has changed, and the
    set can be staged again. A second unstage does nothing. *)
Theorem unstage_brings_back g h :
  match stage g h with
  | (Ok _, g1, h1) => ∀ h2,
      let '(r, g2, h3) := unstage g1 h2 in
      r = Ok () ∧ sigs_staged g1 = true ∧ sigs_staged g2 = false
      ∧ (∀ c, value c h3 = if decide (c ∈ cells (settings g)) then value c h else value c h2)
      ∧ unstage g2 h3 = (Ok (), g2, h3)
  | (Err _, _, _) => True
  end.
Proof.
  unfold stage. destruct (sigs_staged g); [done|].
  destruct (apply_all (settings g) [] h) as [[[[e|] a] rest] h1] eqn:Ha; [by destruct (undo a h1)|].
  apply apply_all_captured in Ha as (Hc & _ & (l1 & Hl & Hf) & He). rewrite He, app_nil_r in Hl by done. subst l1.
  intros h2. unfold unstage. simpl. destruct (restore_all_captured a _ h2 Hc) as (l' & h3 & -> & _ & Hn & Hf' & Hv).
  split_and!; [done|done|done| |].
  - intros c. rewrite Hv. by rewrite (cells_same _ _ Hf).
  - simpl. by rewrite restore_consumed.
Qed.

(** A stage that fails has changed nothing: the settings it had applied are restored, the
    set is not staged and holds the same settings. Staged already, it is refused. *)
Theorem failed_stage_changes_nothing g h :
  match stage g h with
  | (Err e, g1, h1) =>
      if sigs_staged g then e = already_staged ∧ g1 = g ∧ h1 = h
      else (∀ c, value c h1 = value c h) ∧ sigs_staged g1 = false
           ∧ Forall2 same_setting (settings g) (settings g1) ∧ (consumed (settings g) → consumed (settings g1))
  | (Ok _, _, _) => sigs_staged g = false
  end.
Proof.
  unfold stage. destruct (sigs_staged g) eqn:Hs; [by split_and!|].
  destruct (apply_all (settings g) [] h) as [[[[e|] a] rest] h1] eqn:Ha; [|done].
  apply apply_all_captured in Ha as (Hc & Hu & (l1 & Hl & Hf) & _).
  destruct (restore_all_captured a _ h1 Hc) as (l' & h2 & _ & -> & Hn & Hf' & Hv).
  assert (Forall2 same_setting l1 l') as Hsame.
  { clear -Hf Hf'. revert l' Hf'. induction Hf as [|s1 s2 l1 l2 (H1 & H2 & H3) _ IH]; intros l' Hf'.
    - by apply Forall2_nil_inv_l in Hf' as ->.
    - apply Forall2_cons_inv_l in Hf' as (s3 & l3 & (H4 & H5 & H6) & Hf' & ->).
      constructor; [repeat split; congruence|auto]. }
  split_and!; [|done| |].
  - intros c. rewrite Hv. destruct (decide (c ∈ cells a)); [done|auto].
  - rewrite Hl. simpl. apply Forall2_app; [done|]. clear. induction rest; constructor; done.
  - rewrite Hl. simpl. intros [_ Hr]%Forall_app. by apply Forall_app.
Qed.
End stage_sigs.
Arguments StageSigs : clear implicits.
Arguments Setting : clear implicits.

(** ** Devices made of children *)

Inductive StandardReadableFormat := ConfigSignal | HintedSignal | UncachedSignal | HintedUncachedSignal.

(** The children and the signals, by number: their state [ch] and what their calls answer
    and do to it. [child_config]: the configuration view, where there is one. *)
Class Children `{JsonNumber} (ch : Type) := {
  child_read : nat → ch → Result (gmap string ReadingValue) BsrsError * ch;
  child_describe : nat → ch → Result (gmap string DataKey) BsrsError * ch;
  child_hints : nat → option (list string);
  child_stageable : nat → bool;
  child_config : nat → bool;
  child_read_config : nat → ch → Result (gmap string ReadingValue) BsrsError * ch;
  child_describe_config : nat → ch → Result (gmap string DataKey) BsrsError * ch;
  child_stage : nat → ch → Result unit BsrsError * ch;
  child_unstage : nat → ch → Result unit BsrsError * ch;
  signal_read : nat → option bool → ch → Result (gmap string ReadingValue) BsrsError * ch;
  signal_describe : nat → ch → Result (gmap string DataKey) BsrsError * ch;
  signal_label : nat → string;
  signal_stage : nat → ch → Result unit BsrsError * ch;
  signal_unstage : nat → ch → Result unit BsrsError * ch;
}.

Inductive Source := SDevice (d : nat) | SDeviceConfig (d : nat) | SSignal (s : nat) (cached : option bool).
Inductive Stageable := StDevice (d : nat) | StSignal (s : nat).

Section readable.
Context `{JsonNumber} {ch : Type} `{!Children ch}.
Implicit Types (h : ch).

Record StandardReadable := mkReadable {
  r_name : string;
  r_read : list Source;
  r_config : list Source;
  r_stageables : list Stageable;
  r_hints : list string;
}.
Implicit Types (d : StandardReadable).

Definition source_read (x : Source) h : Result (gmap string ReadingValue) BsrsError * ch :=
  match x with
  | SDevice n => child_read n h
  | SDeviceConfig n => if child_config n then child_read_config n h else (Ok ∅, h)
  | SSignal n cached => signal_read n cached h
  end.
Definition source_describe (x : Source) h : Result (gmap string DataKey) BsrsError * ch :=
  match x with
  | SDevice n => child_describe n h
  | SDeviceConfig n => if child_config n then child_describe_config n h else (Ok ∅, h)
  | SSignal n _ => signal_describe n h
  end.

Definition new_readable (name : string) : StandardReadable := mkReadable name [] [] [] [].
Definition add_hints (fields : list string) d : Result unit BsrsError * StandardReadable :=
  match filter (λ f, f ∈ r_hints d) fields with
  | f :: _ => (Err (Other ("Hint fields " +:+ f +:+ " overrides existing hint")), d)
  | [] => (Ok (), mkReadable (r_name d) (r_read d) (r_config d) (r_stageables d) (r_hints d ++ fields))
  end.
Definition push_read x d : StandardReadable :=
  mkReadable (r_name d) (r_read d ++ [x]) (r_config d) (r_stageables d) (r_hints d).
Definition push_config x d : StandardReadable :=
  mkReadable (r_name d) (r_read d) (r_config d ++ [x]) (r_stageables d) (r_hints d).
Definition push_stageable x d : StandardReadable :=
  mkReadable (r_name d) (r_read d) (r_config d) (r_stageables d ++ [x]) (r_hints d).

Definition add_child (n : nat) d : Result unit BsrsError * StandardReadable :=
  match add_hints (default [] (child_hints n)) d with
  | (Err e, d) => (Err e, d)
  | (Ok _, d) =>
      let d := if child_stageable n then push_stageable (StDevice n) d else d in
      let d := if child_config n then push_config (SDeviceConfig n) d else d in
      (Ok (), push_read (SDevice n) d)
  end.
Definition add_signal (n : nat) (format : StandardReadableFormat) d : Result unit BsrsError * StandardReadable :=
  let hint := if String.eqb (signal_label n) "" then [] else [signal_label n] in
  match format with
  | ConfigSignal => (Ok (), push_config (SSignal n None) d)
  | HintedSignal =>
      match add_hints hint d with
      | (Err e, d) => (Err e, d)
      | (Ok _, d) => (Ok (), push_stageable (StSignal n) (push_read (SSignal n None) d))
      end
  | UncachedSignal => (Ok (), push_read (SSignal n (Some false)) d)
  | HintedUncachedSignal =>
      match add_hints hint d with
      | (Err e, d) => (Err e, d)
      | (Ok _, d) => (Ok (), push_read (SSignal n (Some false)) d)
      end
  end.

(** Every call made, in order, with its answer. *)
Fixpoint ask_all {A B} (f : A → ch → B * ch) (l : list A) h : list B * ch :=
  match l with
  | [] => ([], h)
  | x :: l => let '(r, h) := f x h in let '(rs, h) := ask_all f l h in (r :: rs, h)
  end.

(** The loop over the answered parts: the keys so far, and those seen twice. *)
Fixpoint merge_parts {V} (parts : list (Result (gmap string V) BsrsError)) (out : gmap string V)
    (duplicates : gset string) : Result (gmap string V * gset string) BsrsError :=
  match parts with
  | [] => Ok (out, duplicates)
  | Err e :: _ => Err e
  | Ok part :: parts => merge_parts parts (out ∪ part) (duplicates ∪ (dom out ∩ dom part))
  end.
Definition merge_unique_keys {V} (parts : list (Result (gmap string V) BsrsError)) : Result (gmap string V) BsrsError :=
  match merge_parts parts ∅ ∅ with
  | Err e => Err e
  | Ok (out, duplicates) =>
      if decide (duplicates = ∅) then Ok out else
      let keys := String.concat ", " (sort_names (elements duplicates)) in
      Err (Other (if String.eqb keys "" then "Have you remembered to name the Device?"
                  else "Duplicate keys found while merging dictionaries: " +:+ keys))
  end.

Definition read d h : Result (gmap string ReadingValue) BsrsError * ch :=
  let '(l, h) := ask_all source_read (r_read d) h in (merge_unique_keys l, h).
Definition describe d h : Result (gmap string DataKey) BsrsError * ch :=
  let '(l, h) := ask_all source_describe (r_read d) h in (merge_unique_keys l, h).
Definition read_configuration d h : Result (gmap string ReadingValue) BsrsError * ch :=
  let '(l, h) := ask_all source_read (r_config d) h in (merge_unique_keys l, h).
Definition describe_configuration d h : Result (gmap string DataKey) BsrsError * ch :=
  let '(l, h) := ask_all source_describe (r_config d) h in (merge_unique_keys l, h).
Definition configure d h : Result unit BsrsError * ch := (Ok (), h).

Fixpoint first_error (l : list (Result unit BsrsError)) : Result unit BsrsError :=
  match l with [] => Ok () | Ok _ :: l => first_error l | Err e :: _ => Err e end.
Definition stage_readable d h : Result unit BsrsError * ch :=
  let '(l, h) := ask_all (λ x, match x with StDevice n => child_stage n | StSignal n => signal_stage n end)
                   (r_stageables d) h in (first_error l, h).
Definition unstage_readable d h : Result unit BsrsError * ch :=
  let '(l, h) := ask_all (λ x, match x with StDevice n => child_unstage n | StSignal n => signal_unstage n end)
                   (r_stageables d) h in (first_error l, h).
Definition hint_fields d : option (list string) :=
  match r_hints d with [] => None | l => Some l end.

(** *** What a compound device promises *)

Lemma disjoint_step {V} (out a : gmap string V) ms :
  map_disjoint_list (out :: a :: ms) ↔ out ##ₘ a ∧ map_disjoint_list ((out ∪ a) :: ms).
Proof.
  assert (Forall (.##ₘ (out ∪ a)) ms ↔ Forall (.##ₘ out) ms ∧ Forall (.##ₘ a) ms) as Hf.
  { rewrite !Forall_forall. setoid_rewrite map_disjoint_union_r. naive_solver. }
  rewrite !map_disjoint_list_cons, Forall_cons, Hf. split; intros Hd; split_and!; try tauto; symmetry; tauto.
Qed.

Lemma merge_parts_spec {V} (parts : list (Result (gmap string V) BsrsError)) out dup :
  match merge_parts parts out dup with
  | Err e => ∃ (l1 : list (gmap string V)) rest, parts = (Ok <$> l1) ++ Err e :: rest
  | Ok (m, dup') =>
      ∃ ms : list (gmap string V), parts = Ok <$> ms ∧ (dup' = ∅ ↔ dup = ∅ ∧ map_disjoint_list (out :: ms)) ∧ m = ⋃ (out :: ms)
  end.
Proof.
  revert out dup. induction parts as [|[a|e] parts IH]; intros out dup; simpl.
  - exists []. simpl. rewrite (right_id_L ∅ (∪)). split_and!; [done| |done].
    rewrite map_disjoint_list_cons. split; [|tauto]. intros ->. split_and!; [done|by apply Forall_nil|apply map_disjoint_list_nil].
  - specialize (IH (out ∪ a) (dup ∪ (dom out ∩ dom a))). destruct (merge_parts _ _ _) as [[m dup']|e].
    + destruct IH as (ms & -> & Hd & ->). exists (a :: ms). split_and!; [done| |].
      * rewrite Hd, disjoint_step, map_disjoint_dom. set_solver.
      * simpl. by rewrite (assoc_L (∪)).
    + destruct IH as (l1 & rest & ->). by exists (a :: l1), rest.
  - by exists [], parts.
Qed.

(** A device's readings, and its descriptions, are those of all its children together, no key
    in two of them; a child that fails gives the first failure in the order they were added,
    and keys in common are an error, never an overwritten reading. *)
Theorem merge_keeps_every_key {V} (parts : list (Result (gmap string V) BsrsError)) :
  match merge_unique_keys parts with
  | Ok m => ∃ ms : list (gmap string V), parts = Ok <$> ms ∧ map_disjoint_list ms ∧ m = ⋃ ms
  | Err e => (∃ (l1 : list (gmap string V)) rest, parts = (Ok <$> l1) ++ Err e :: rest) ∨ (∃ ms : list (gmap string V), parts = Ok <$> ms ∧ ¬ map_disjoint_list ms)
  end.
Proof.
  unfold merge_unique_keys. pose proof (merge_parts_spec parts ∅ ∅) as Hm.
  destruct (merge_parts parts ∅ ∅) as [[m dup]|e]; [|by left]. destruct Hm as (ms & -> & Hd & ->).
  assert (map_disjoint_list (∅ :: ms) ↔ map_disjoint_list ms) as He.
  { rewrite map_disjoint_list_cons. split; [tauto|]. intros ?. split; [|done]. apply Forall_forall. intros m _. apply map_disjoint_empty_r. }
  rewrite He in Hd. destruct (decide (dup = ∅)) as [Hn|Hn].
  - exists ms. split_and!; [done|tauto|]. simpl. by rewrite (left_id_L ∅ (∪)).
  - right. exists ms. split; [done|]. tauto.
Qed.

Lemma add_hints_spec fields d :
  match add_hints fields d with
  | (Ok _, d') => (∀ f, f ∈ fields → f ∉ r_hints d)
      ∧ d' = mkReadable (r_name d) (r_read d) (r_config d) (r_stageables d) (r_hints d ++ fields)
  | (Err _, d') => d' = d ∧ ∃ f, f ∈ fields ∧ f ∈ r_hints d
  end.
Proof.
  unfold add_hints. destruct (filter _ fields) as [|f l] eqn:Hf.
  - split; [|done]. intros f Hin Hd. apply (not_elem_of_nil f). rewrite <- Hf. by apply list_elem_of_filter.
  - split; [done|]. exists f. assert (f ∈ f :: l) as Hin by left. rewrite <- Hf in Hin.
    by apply list_elem_of_filter in Hin as [? ?].
Qed.

(** Children and signals added one after another, those refused left out. *)
Inductive Addition := AddChild (n : nat) | AddSignal (n : nat) (format : StandardReadableFormat).
Definition add (a : Addition) d : Result unit BsrsError * StandardReadable :=
  match a with AddChild n => add_child n d | AddSignal n f => add_signal n f d end.
Definition built (name : string) (l : list Addition) : StandardReadable :=
  foldl (λ d a, (add a d).2) (new_readable name) l.
(** The hints an addition asks for. *)
Definition hints_of (a : Addition) : list string :=
  match a with
  | AddChild n => default [] (child_hints n)
  | AddSignal n (HintedSignal | HintedUncachedSignal) => if String.eqb (signal_label n) "" then [] else [signal_label n]
  | AddSignal _ _ => []
  end.

Lemma add_spec a d :
  match add a d with
  | (Ok _, d') => (∀ f, f ∈ hints_of a → f ∉ r_hints d) ∧ r_hints d' = r_hints d ++ hints_of a
  | (Err _, d') => d' = d ∧ ∃ f, f ∈ hints_of a ∧ f ∈ r_hints d
  end.
Proof.
  destruct a as [n|n f]; simpl.
  - unfold add_child. pose proof (add_hints_spec (default [] (child_hints n)) d) as Hh.
    destruct (add_hints _ d) as [[[]|e] d1]; [|exact Hh]. destruct Hh as [Hn ->].
    split; [done|]. by destruct (child_stageable n), (child_config n).
  - destruct f; simpl; try (split; [by intros f ?%not_elem_of_nil|by rewrite app_nil_r]);
      (pose proof (add_hints_spec (if String.eqb (signal_label n) "" then [] else [signal_label n]) d) as Hh;
       destruct (add_hints _ d) as [[[]|e] d1]; [destruct Hh as [Hn ->]; by split|exact Hh]).
Qed.

(** A child or a signal is refused exactly when it hints a field that is hinted already, and
    a refused one leaves the device as it was: the hints of a device are those of the
    children and signals it accepted, never one twice from two of them. *)
Theorem hints_are_never_overridden name l a :
  let d := built name l in
  match add a d with
  | (Ok _, d') => (∀ f, f ∈ hints_of a → f ∉ r_hints d) ∧ r_hints d' = r_hints d ++ hints_of a
  | (Err _, d') => d' = d ∧ ∃ f, f ∈ hints_of a ∧ f ∈ r_hints d
  end.
Proof. apply add_spec. Qed.

Lemma ask_all_length {A B} (f : A → ch → B * ch) (l : list A) h : length (ask_all f l h).1 = length l.
Proof.
  revert h. induction l as [|x l IH]; intros h; simpl; [done|]. destruct (f x h) as [r h1].
  specialize (IH h1). destruct (ask_all f l h1). simpl in *. by rewrite IH.
Qed.
End readable.
Arguments StandardReadable : clear implicits.

(** ** Connecting several devices *)

Section connection.
Context `{JsonNumber}.
(** [wait_for_connection] once every connect has ended: the failed ones, in the order given. *)
Definition failed_connects (connects : list (string * Result unit BsrsError)) : list (string * BsrsError) :=
  omap (λ c, match c.2 with Err e => Some (c.1, e) | Ok _ => None end) connects.
Definition wait_for_connection (connects : list (string * Result unit BsrsError)) : Result unit BsrsError :=
  match failed_connects connects with
  | [] => Ok ()
  | failed => Err (NotConnectedE (NcChildren failed))
  end.

(** [DeviceVector<D>]: its children by key, in order. *)
Definition DeviceVector (D : Type) : Type := list (nat * D).
Fixpoint vector_insert {D} (k : nat) (x : D) (v : DeviceVector D) : option D * DeviceVector D :=
  match v with
  | [] => (None, [(k, x)])
  | (k', y) :: v' =>
      if k <? k' then (None, (k, x) :: v)
      else if k =? k' then (Some y, (k, x) :: v')
      else let '(old, v') := vector_insert k x v' in (old, (k', y) :: v')
  end.
Fixpoint vector_get {D} (k : nat) (v : DeviceVector D) : option D :=
  match v with [] => None | (k', y) :: v => if k =? k' then Some y else vector_get k v end.
Definition vector_children {D} (v : DeviceVector D) : list (string * D) := (λ kd, (pretty kd.1, kd.2)) <$> v.
Definition vector_connect_all {D} (connect : D → Result unit BsrsError) (v : DeviceVector D) : Result unit BsrsError :=
  wait_for_connection ((λ c, (c.1, connect c.2)) <$> vector_children v).

Definition in_order {D} (v : DeviceVector D) : Prop := Sorted lt v.*1.

Lemma insert_sorted {D} k (x : D) v : in_order v → in_order (vector_insert k x v).2.
Proof.
  unfold in_order. induction v as [|[k' y] v IH]; simpl; intros Hs; [by repeat constructor|].
  destruct (Nat.ltb_spec k k') as [Hlt|Hge]; [by constructor; [|constructor]|].
  inversion Hs as [|? ? Hv Hh]; subst. destruct (Nat.eqb_spec k k') as [->|Hne]; [by constructor|].
  specialize (IH Hv). destruct (vector_insert k x v) as [old v'] eqn:He. simpl in *. constructor; [done|].
  destruct v as [|[k2 y2] v]; simpl in He; [injection He as <- <-; simpl; constructor; lia|].
  inversion Hh; subst. revert He. destruct (Nat.ltb_spec k k2); [intros [= <- <-]; constructor; simpl; lia|].
  destruct (Nat.eqb_spec k k2); [intros [= <- <-]; constructor; simpl; lia|].
  destruct (vector_insert k x v). intros [= <- <-]. by constructor.
Qed.

(** A device vector gives back what was last inserted at a key, and the others are as they
    were; its children stay in the order of their keys. *)
Theorem vector_keeps_its_children {D} k (x : D) v :
  in_order v →
  let '(old, v') := vector_insert k x v in
  old = vector_get k v ∧ in_order v' ∧ ∀ k', vector_get k' v' = if k' =? k then Some x else vector_get k' v.
Proof.
  intros Hs. pose proof (insert_sorted k x v Hs) as Ho. destruct (vector_insert k x v) as [old v'] eqn:He.
  simpl in Ho. assert (old = vector_get k v ∧ ∀ k', vector_get k' v' = if k' =? k then Some x else vector_get k' v) as [H1 H2];
    [|done]. clear Ho. revert old v' He. induction v as [|[k1 y] v IH]; simpl; intros old v' He.
  - injection He as <- <-. split; [done|]. done.
  - revert He. inversion Hs as [|? ? Hv Hh]; subst. destruct (Nat.ltb_spec k k1) as [Hlt|Hge].
    + intros [= <- <-]. split; [|done]. destruct (Nat.eqb_spec k k1) as [->|_]; [lia|]. symmetry.
      apply Sorted_StronglySorted in Hs; [|intros ? ? ?; lia]. inversion Hs as [|? ? _ Hall]; subst. simpl in Hall.
      clear -Hall Hlt. induction v as [|[k2 y2] v IH]; [done|]. simpl in *. apply Forall_cons in Hall as [H2 Hall].
      destruct (Nat.eqb_spec k k2); [lia|auto].
    + destruct (Nat.eqb_spec k k1) as [->|Hne].
      * intros [= <- <-]. split; [done|]. intros j. simpl. by destruct (j =? k1).
      * destruct (vector_insert k x v) as [o v1] eqn:He. intros [= <- <-]. destruct (IH Hv o v1 eq_refl) as [H1 H2].
        split; [done|]. intros j. simpl. rewrite H2. destruct (Nat.eqb_spec j k1), (Nat.eqb_spec j k); congruence.
Qed.

(** A connection of several devices fails when one of them does, and then names exactly the
    devices that failed, with their errors, in the order they were given. *)
Theorem connection_names_the_failed connects :
  match wait_for_connection connects with
  | Ok _ => ∀ name r, (name, r) ∈ connects → r = Ok ()
  | Err e => ∃ failed, e = NotConnectedE (NcChildren failed) ∧ failed ≠ []
      ∧ failed `sublist_of` ((λ c, (c.1, match c.2 with Err e => e | Ok _ => Cancelled end)) <$> connects)
      ∧ ∀ name x, (name, x) ∈ failed ↔ (name, Err x) ∈ connects
  end.
Proof.
  assert (∀ name x, (name, x) ∈ failed_connects connects ↔ (name, Err x) ∈ connects) as Hin.
  { intros name x. unfold failed_connects. rewrite list_elem_of_omap. split.
    - intros ([n [[]|e]] & Hc & Hm); simpl in Hm; [done|]. by injection Hm as <- <-.
    - intros Hc. by exists (name, Err x). }
  unfold wait_for_connection. destruct (failed_connects connects) as [|f l] eqn:Hf.
  - intros name [[]|e] Hc; [done|]. apply Hin in Hc. by apply not_elem_of_nil in Hc.
  - exists (f :: l). split_and!; [done|done| |done]. rewrite <- Hf. clear. unfold failed_connects.
    induction connects as [|[n [[]|e]] l IH]; simpl; [constructor|by constructor|by constructor].
Qed.
End connection.

(** ** Settings on the bench *)

Module StagingExample.
Import Sample.
(** Signal 4 is another name of cell 1; cell 3 holds 0 and takes nothing else. *)
Definition cell_of (i : nat) : nat := if i =? 4 then 1 else i.
Definition value_of (c : nat) (h : gmap nat nat) : nat := if c =? 3 then 0 else default 0 (h !! c).
Definition takes (i v : nat) : bool := if cell_of i =? 3 then v =? 0 else true.
#[export] Instance bench : Signals nat (gmap nat nat) := {|
  sig_get i h := (Ok (value_of (cell_of i) h), h);
  sig_put i v h := if takes i v then (Ok (), <[cell_of i := v]> h) else (Err (Backend "stuck"), h);
  sig_source i := pretty i;
|}.
Lemma bench_memory : Memory cell_of value_of takes.
Proof.
  split; [done| |].
  - intros i v h. simpl. unfold takes, value_of. destruct (Nat.eqb_spec (cell_of i) 3) as [Hi|Hi].
    + destruct (Nat.eqb_spec v 0) as [->|]; [|done]. split; [done|]. intros c. rewrite Hi.
      destruct (Nat.eqb_spec c 3) as [->|]; [done|]. by rewrite decide_False, lookup_insert_ne by done.
    + split; [done|]. intros c. destruct (Nat.eqb_spec c 3) as [->|]; [by rewrite decide_False|].
      destruct (decide (c = cell_of i)) as [->|]; [by rewrite lookup_insert_eq|by rewrite lookup_insert_ne].
  - intros i h. unfold takes, value_of. by destruct (cell_of i =? 3).
Qed.

Definition aliased : StageSigs nat := set 4 8 (set 1 7 (set 0 5 new_sigs)).
Definition found : gmap nat nat := {[ 0 := 2; 1 := 3 ]}.

Lemma unstage_brings_back_witness :
  let '(_, g1, h1) := stage aliased found in
  let '(_, _, h3) := unstage g1 (<[0 := 9]> h1) in
  value_of 0 h3 = 2 ∧ value_of 1 h3 = 3.
Proof.
  pose proof (unstage_brings_back cell_of value_of takes bench_memory aliased found) as Hu.
  destruct (stage aliased found) as [[r g1] h1] eqn:Hs.
  assert (r = Ok ()) as ->. { change ((r, g1, h1).1.1 = Ok ()). by rewrite <- Hs. }
  specialize (Hu (<[0 := 9]> h1)). destruct (unstage _ _) as [[r2 g2] h3].
  destruct Hu as (_ & _ & _ & Hv & _). rewrite !Hv. vm_compute. auto.
Defined.

Lemma failed_stage_changes_nothing_witness :
  let '(r, _, h1) := stage (set 3 6 aliased) found in
  r = Err (Backend "stuck") ∧ value_of 0 h1 = 2 ∧ value_of 1 h1 = 3.
Proof.
  pose proof (failed_stage_changes_nothing cell_of value_of takes bench_memory (set 3 6 aliased) found) as Hf.
  destruct (stage (set 3 6 aliased) found) as [[r g1] h1] eqn:Hs.
  assert (r = Err (Backend "stuck")) as ->. { change ((r, g1, h1).1.1 = Err (Backend "stuck")). by rewrite <- Hs. }
  destruct Hf as (Hv & _). rewrite !Hv. repeat split.
Defined.

(** A setting given for a signal whose setting is staged takes its place, and with it what it
    had captured: the signal is not brought back. *)
Lemma setting_replaced_while_staged_is_not_restored :
  let staged := stage (set 0 5 new_sigs) found in
  let unstaged := unstage (set 0 7 staged.1.2) staged.2 in
  unstaged.1.1 = Ok () ∧ sigs_staged unstaged.1.2 = false ∧ value_of 0 found = 2 ∧ value_of 0 unstaged.2 = 5.
Proof. repeat split. Qed.

Lemma vector_keeps_its_children_witness :
  vector_get 3 (vector_insert 3 "c" [(1, "a"); (7, "b")]).2 = Some "c".
Proof.
  pose proof (vector_keeps_its_children 3 "c" [(1, "a"); (7, "b")] ltac:(repeat constructor)) as Hv.
  destruct (vector_insert 3 "c" _) as [old v']. destruct Hv as (_ & _ & Hv). apply (Hv 3).
Defined.
End StagingExample.
