(* ===== verification/Motors.v ===== *)
(** * Motor moves ([host/motor_move.rs])

    The check of a move against the axis's limits, its deadline, the task that settles its
    status from the put's completion, the readback's monitor and the stop of the device. One
    poll of the task sees one instant; between two polls anything may happen. *)

From Stdlib Require Import SpecFloat.
From S2P Require Import Prelude Interfaces Errors Documents F64 Statuses.

(** ** Limits and deadlines *)

Definition f64_inf : f64 := 9218868437227405312%Z.
Definition f64_neg_inf : f64 := 18442240474082181120%Z.
Definition f64_ten : f64 := 4621819117588971520%Z.

(** [(low..=high).contains(x)] *)
Definition contains (low high x : f64) : bool := f64_leb low x && f64_leb x high.

Inductive ControlRule := RSignal | RPositioner.

Section limits.
(** [Display] of a double. *)
Variable f64_text : f64 → string.

Definition control_check (rule : ControlRule) (range : option LimitsRange) (target : f64) : Result unit string :=
  match range with
  | None => Ok ()
  | Some range =>
      let low := default f64_neg_inf (Documents.low range) in
      let high := default f64_inf (Documents.high range) in
      let none := match rule with RSignal => f64_leb high low | RPositioner => f64_eqb low high end in
      if none || contains low high target then Ok ()
      else Err (f64_text target +:+ " is outside the limits [" +:+ f64_text low +:+ ", " +:+ f64_text high +:+ "]")
  end.

Definition check_motor_move (llm hlm dllm dhlm from target : f64) : Result unit string :=
  let within x := f64_leb x hlm && f64_leb llm x in
  if (f64_eqb dllm 0%Z && f64_eqb dhlm 0%Z) || (within from && within target) then Ok ()
  else Err ("a move from " +:+ f64_text from +:+ " to " +:+ f64_text target +:+ " is outside the limits ["
              +:+ f64_text llm +:+ ", " +:+ f64_text hlm +:+ "]").
End limits.

Definition move_timeout_margin_secs : f64 := f64_ten.
Definition move_timeout_secs (old new velo accl : f64) : option f64 :=
  if f64_eqb velo 0%Z then None
  else Some (f64_add (f64_add (f64_abs (f64_div (f64_sub new old) velo)) (f64_mul f64_two accl)) move_timeout_margin_secs).

(** [Duration::try_from_secs_f64]: to the nearest nanosecond, ties to even. *)
Definition round_half_even (n d : Z) : Z :=
  let q := (n / d)%Z in
  let r := (2 * (n mod d))%Z in
  if (r <? d)%Z then q else if (d <? r)%Z then (q + 1)%Z else if Z.even q then q else (q + 1)%Z.
Definition duration_limit : Z := (2 ^ 64 * 1000000000)%Z.
Definition try_from_secs_f64 (x : f64) : option Z :=
  match of_bits x with
  | S754_zero _ => Some 0%Z
  | S754_finite false m e =>
      let n := if (0 <=? e)%Z then (Zpos m * 2 ^ e * 1000000000)%Z
               else round_half_even (Zpos m * 1000000000) (2 ^ (- e)) in
      if (n <? duration_limit)%Z then Some n else None
  | _ => None
  end.

(** ** The motor *)

(** The texts of values in messages and the number in a reading's JSON. *)
Class MotorTexts `{JsonNumber} := {
  f64_text : f64 → string;
  millis_text : f64 → string;
  error_text : BsrsError → string;
  reading_as_f64 : Value → option f64;
}.

(** The axis's channels: the state [ax] of the record behind them, and what each call answers
    and does to it. The puts of [ax_put] and [ax_set_use] wait for their completion. *)
Class MotorAxis `{JsonNumber} (ax : Type) := {
  ax_name : string;
  ax_readback : ax → Result f64 BsrsError;
  ax_readback_key : ax → Result DataKey BsrsError;
  ax_setpoint_key : ax → Result DataKey BsrsError;
  ax_limits : ax → Result (f64 * f64 * f64 * f64) BsrsError;
  ax_timing : ax → Result (f64 * f64) BsrsError;
  ax_subscribe : ax → Result unit BsrsError * ax;
  ax_put_start : f64 → ax → Result unit BsrsError * ax;
  ax_dmov : ax → Result Z BsrsError;
  ax_press : ax → Result unit StatusError * ax;
  ax_put : f64 → ax → Result unit StatusError * ax;
  ax_set_use : bool → ax → Result unit StatusError * ax;
}.

(** [Halt]: the stops so far; a receiver has seen those before it. *)
Definition Halt : Type := list bool.
Definition halt_stop (success : bool) (h : Halt) : Halt := h ++ [success].

Section motor.
Context `{JsonNumber} `{!MotorTexts} {ax : Type} `{!MotorAxis ax}.
Implicit Types (a : ax).

(** [MotorChannels]: which of the optional fields are there. *)
Record MotorChannels := mkChannels {
  has_timing : bool; has_button : bool; has_limits : bool; has_set_use : bool; halt : Halt;
}.
Definition ok {A E} (r : Result A E) : bool := match r with Ok _ => true | Err _ => false end.
Definition connect (required velo accl dmov stop set llm hlm dllm dhlm : Result unit BsrsError) :
    Result MotorChannels BsrsError :=
  match required with
  | Err e => Err e
  | Ok _ =>
      Ok (mkChannels (ok velo && ok accl) (ok dmov && ok stop) (ok llm && ok hlm && ok dllm && ok dhlm) (ok set) [])
  end.

(** [Limits::check] on the limits read now. *)
Definition limits_check (m : MotorChannels) (from target : f64) a : Result unit string :=
  if has_limits m then
    match ax_limits a with
    | Err e => Err ("limits: " +:+ error_text e)
    | Ok (llm, hlm, dllm, dhlm) => check_motor_move f64_text llm hlm dllm dhlm from target
    end
  else
    match ax_setpoint_key a with
    | Err e => Err ("limits: " +:+ error_text e)
    | Ok key => control_check f64_text RSignal (dk_limits key ≫= control) target
    end.

Definition deadline (m : MotorChannels) (target : f64) a : Result (option Z) string :=
  if has_timing m then
    match ax_readback a, ax_timing a with
    | Ok old, Ok (velo, accl) =>
        match move_timeout_secs old target velo accl with
        | Some secs => Ok (try_from_secs_f64 secs)
        | None => Err ("motor " +:+ ax_name +:+ " has zero velocity")
        end
    | _, _ => Ok None
    end
  else Ok None.

(** [try_from] of a precision: 32 bits. *)
Definition as_i32 (z : Z) : option Z :=
  if (-2147483648 <=? z)%Z && (z <=? 2147483647)%Z then Some z else None.

(** The part of [move_status] before the task: the checks, the monitor, the put. *)
Definition move_start (m : MotorChannels) (v : f64) a : Result WatcherUpdate string * ax :=
  match ax_readback a, ax_readback_key a with
  | Ok initial, Ok key =>
      match limits_check m initial v a with
      | Err e => (Err e, a)
      | Ok _ =>
          match ax_subscribe a with
          | (Err e, a) => (Err (error_text e), a)
          | (Ok _, a) =>
              match ax_put_start v a with
              | (Err e, a) => (Err (error_text e), a)
              | (Ok _, a) =>
                  (Ok (mkUpdate initial initial v (Some ax_name) (dk_units key) (dk_precision key ≫= as_i32)
                         None None None), a)
              end
          end
      end
  | Err e, _ => (Err (error_text e), a)
  | _, Err e => (Err (error_text e), a)
  end.

(** The task that settles the status: the stops it has seen, its deadline, when the put's
    completion was first waited for, and the update its readings are reported with. *)
Record MoveTask := mkTask {
  what : string; seen : nat; move_deadline : option Z; waiting_since : option Z; template : WatcherUpdate;
}.
Definition move_started (m : MotorChannels) (what : string) (d : option Z) (u : WatcherUpdate) : MoveTask :=
  mkTask what (length (halt m)) d None u.

Definition with_current (u : WatcherUpdate) (current : f64) : WatcherUpdate :=
  mkUpdate current (wu_initial u) (wu_target u) (wu_name u) (wu_unit u) (wu_precision u)
    (wu_fraction u) (wu_time_elapsed u) (wu_time_remaining u).

(** What a poll finds: the stops so far, the readings queued, the put's completion. *)
Record Found := mkFound { stops : Halt; readings : list ReadingValue; put_done : option (Result unit BsrsError); at_ : Z }.

(** [finish]: the put's completion within the deadline. *)
Definition finish_poll (t : MoveTask) (f : Found) : option (Result unit string) * MoveTask :=
  let since := default (at_ f) (waiting_since t) in
  let t := mkTask (what t) (seen t) (move_deadline t) (Some since) (template t) in
  match put_done f with
  | Some (Ok _) => (Some (Ok ()), t)
  | Some (Err e) => (Some (Err (what t +:+ ": " +:+ error_text e)), t)
  | None =>
      match move_deadline t with
      | Some d =>
          if (since + d <=? at_ f)%Z
          then (Some (Err (what t +:+ ": timed out after " +:+ millis_text (as_secs_f64 d) +:+ "s")), t)
          else (None, t)
      | None => (None, t)
      end
  end.

(** One poll of the loop over its three futures, the first that is ready taken. *)
Definition poll_move (t : MoveTask) (f : Found) : list WatcherUpdate * option (Result unit string) * MoveTask :=
  if seen t <? length (stops f) then
    ([], Some (if default false (last (stops f)) then Ok () else Err (what t +:+ ": stopped")), t)
  else
    let updates := omap (λ r, with_current (template t) <$> reading_as_f64 (rd_value r)) (readings f) in
    let '(e, t) := finish_poll t f in (updates, e, t).

(** What a poll does to the status the move returned. *)
Definition report (s : nat) (now : Z) (updates : list WatcherUpdate) (e : option (Result unit string)) (h : Store) : Store :=
  let h := foldl (λ h u, update_watcher s u now h) h updates in
  match e with
  | None => h
  | Some (Ok _) => success s now h
  | Some (Err x) => fail s (SFailed x) h
  end.

(** [move_status]: the status, and the task when the move was sent. *)
Definition move_status (m : MotorChannels) (what : string) (d : option Z) (v : f64) (now : Z) a (h : Store) :
    nat * option MoveTask * ax * Store :=
  let '(s, h) := status_new now h in
  match move_start m v a with
  | (Ok u, a) => (s, Some (move_started m what d u), a, h)
  | (Err e, a) => (s, None, a, fail s (SFailed (what +:+ ": " +:+ e)) h)
  end.
(** [MotorChannels::set] *)
Definition motor_set (m : MotorChannels) (kind : string) (v : f64) (now : Z) a (h : Store) :
    nat * option MoveTask * ax * Store :=
  let what := kind +:+ " set" in
  match deadline m v a with
  | Err e => let '(s, h) := status_fail (SFailed (what +:+ ": " +:+ e)) now h in (s, None, a, h)
  | Ok d => move_status m what d v now a h
  end.

Definition press_if_moving a : Result unit BsrsError * ax :=
  match ax_dmov a with
  | Err e => (Err e, a)
  | Ok dmov =>
      if (dmov =? 0)%Z then
        let '(r, a) := ax_press a in (match r with Ok _ => Ok () | Err e => Err (StatusE e) end, a)
      else (Ok (), a)
  end.
Definition motor_stop (success : bool) (m : MotorChannels) a : Result unit BsrsError * MotorChannels * ax :=
  let '(pressed, a) := if has_button m then press_if_moving a else (Ok (), a) in
  (pressed, mkChannels (has_timing m) (has_button m) (has_limits m) (has_set_use m) (halt_stop success (halt m)), a).

Definition set_current_position (m : MotorChannels) (kind : string) (pos : f64) a : Result unit BsrsError * ax :=
  if has_set_use m then
    match ax_set_use true a with
    | (Err e, a) => (Err (StatusE e), a)
    | (Ok _, a) =>
        let '(put, a) := ax_put pos a in
        let '(restored, a) := ax_set_use false a in
        (match put, restored with
         | Err e, _ => Err (StatusE e)
         | Ok _, Err e => Err (StatusE e)
         | Ok _, Ok _ => Ok ()
         end, a)
    end
  else (Err (Backend (kind +:+ " " +:+ ax_name +:+ ": set_current_position: no .SET")), a).
End motor.

(** ** What a move promises *)

Section promises.
Context `{JsonNumber} `{!MotorTexts} {ax : Type} `{!MotorAxis ax}.
Implicit Types (a : ax) (m : MotorChannels) (t : MoveTask) (f : Found) (l : list Found).

(** A status that has just been made and fails. *)
Lemma fresh_fail x now h :
  let '(s, h1) := status_new now h in end_of (fail s x h1) s = Some (Err x).
Proof.
  unfold status_new, with_timeout. set (h1 := set_inners _ h).
  assert (phase_of h1 (length (inners h)) = Some (Pending [] [])) as Hp.
  { unfold phase_of. simpl. by rewrite lookup_app_r, Nat.sub_diag by done. }
  unfold fail, finish, enter. rewrite Hp. set (h2 := on_inner _ _ h1).
  replace (work [mkFrame (Err x) [] []] h2) with (S (2 * length (all_queued h2))) by (unfold work; simpl; rewrite app_nil_r; lia).
  assert (phase_of h2 (length (inners h)) = Some (Ended (Err x))) as He.
  { unfold phase_of, h2, h1, on_inner. simpl. rewrite list_lookup_alter_eq, lookup_app_r, Nat.sub_diag by done. done. }
  cbn [run step]. set (h3 := set_woken _ h2). assert (run (2 * length (all_queued h2)) [] h3 = h3) as ->.
  { by destruct (2 * length (all_queued h2)). }
  unfold end_of. change (phase_of h3) with (phase_of h2). by rewrite He.
Qed.

(** A move the limits or a zero velocity refuse sends nothing: the axis is as it was, no task
    is left, and the status has failed. *)
Theorem refused_move_sends_nothing m kind v now a h :
  (∃ e, deadline m v a = Err e)
  ∨ (∃ from key e, ax_readback a = Ok from ∧ ax_readback_key a = Ok key ∧ limits_check m from v a = Err e) →
  let '(s, task, a', h') := motor_set m kind v now a h in
  a' = a ∧ task = None ∧ ∃ text, end_of h' s = Some (Err (SFailed text)).
Proof.
  intros Hr. unfold motor_set.
  destruct (deadline m v a) as [d|e] eqn:Hd.
  - destruct Hr as [[e He]|(from & key & e & Hf & Hk & Hl)]; [done|].
    unfold move_status, move_start. rewrite Hf, Hk, Hl.
    pose proof (fresh_fail (SFailed ((kind +:+ " set") +:+ ": " +:+ e)) now h) as He.
    destruct (status_new now h) as [s h1]. eauto.
  - unfold status_fail. pose proof (fresh_fail (SFailed ((kind +:+ " set") +:+ ": " +:+ e)) now h) as He.
    destruct (status_new now h) as [s h1]. eauto.
Qed.

(** A move that was sent had its target and where the axis stood within the limits of the
    motor record, unless its dial limits are both zero; without the record's limits the
    target is within the setpoint's control limits, unless those are no range. *)
Theorem sent_move_is_within_limits m kind v now a h s t a' h' :
  motor_set m kind v now a h = (s, Some t, a', h') →
  ∃ from key, ax_readback a = Ok from ∧ ax_readback_key a = Ok key
    ∧ if has_limits m then
        ∃ llm hlm dllm dhlm, ax_limits a = Ok (llm, hlm, dllm, dhlm)
          ∧ (f64_eqb dllm 0%Z && f64_eqb dhlm 0%Z = true ∨ contains llm hlm from = true ∧ contains llm hlm v = true)
      else
        ∃ sp, ax_setpoint_key a = Ok sp
          ∧ ∀ r, dk_limits sp ≫= control = Some r →
              let low := default f64_neg_inf (Documents.low r) in
              let high := default f64_inf (Documents.high r) in
              f64_leb high low = true ∨ contains low high v = true.
Proof.
  unfold motor_set, move_status, move_start. destruct (deadline m v a) as [d|e]; [|by destruct (status_fail _ _ _)].
  destruct (status_new now h) as [s1 h1]. destruct (ax_readback a) as [from|e]; [|done].
  destruct (ax_readback_key a) as [key|e]; [|done]. destruct (limits_check m from v a) as [[]|e] eqn:Hl; [|done].
  intros _. exists from, key. split_and!; [done|done|]. unfold limits_check in Hl. destruct (has_limits m).
  - destruct (ax_limits a) as [[[[llm hlm] dllm] dhlm]|e]; [|done]. exists llm, hlm, dllm, dhlm. split; [done|].
    unfold check_motor_move in Hl. destruct (f64_eqb dllm 0%Z && f64_eqb dhlm 0%Z); [by left|]. right.
    unfold contains. destruct (f64_leb from hlm), (f64_leb llm from), (f64_leb v hlm), (f64_leb llm v); done.
  - destruct (ax_setpoint_key a) as [sp|e]; [|done]. exists sp. split; [done|]. intros r Hr. rewrite Hr in Hl.
    unfold control_check in Hl. destruct (f64_leb _ _) eqn:Hle in Hl; [left; exact Hle|]. right.
    simpl in Hl. by destruct (contains _ _ v).
Qed.

(** *** The task *)

(** The polls of a task up to the one that settles it: what it reports, and how it ends. *)
Fixpoint run_move t l : list WatcherUpdate * option (Result unit string) :=
  match l with
  | [] => ([], None)
  | f :: l =>
      let '(us, e, t) := poll_move t f in
      match e with
      | Some r => (us, Some r)
      | None => let '(us', r) := run_move t l in (us ++ us', r)
      end
  end.
Definition updates_of t f : list WatcherUpdate :=
  omap (λ r, with_current (template t) <$> reading_as_f64 (rd_value r)) (readings f).

Lemma poll_move_keeps t f us e t' :
  poll_move t f = (us, e, t') →
  seen t' = seen t ∧ template t' = template t ∧ move_deadline t' = move_deadline t ∧ what t' = what t
  ∧ (e = None → us = updates_of t f ∧ length (stops f) ≤ seen t ∧ put_done f = None
       ∧ waiting_since t' = Some (default (at_ f) (waiting_since t))).
Proof.
  unfold poll_move, finish_poll. destruct (Nat.ltb_spec (seen t) (length (stops f))); [by intros [= <- <- <-]|].
  destruct (put_done f) as [[[]|x]|]; [by intros [= <- <- <-]..|]. simpl.
  destruct (move_deadline t) as [d|]; [destruct (_ <=? _)%Z|]; intros [= <- <- <-]; by split_and!.
Qed.

(** A stop of the device settles the move in flight at the next poll: done for a stop that
    says success, failed otherwise, whatever the readback's monitor and the put are doing. *)
Theorem stop_settles_the_move t f success earlier :
  stops f = halt_stop success earlier → seen t ≤ length earlier →
  poll_move t f = ([], Some (if success then Ok () else Err (what t +:+ ": stopped")), t).
Proof.
  intros Hs Hl. unfold poll_move, halt_stop in *. rewrite Hs, length_app. simpl.
  destruct (Nat.ltb_spec (seen t) (length earlier + 1)); [|lia]. by rewrite last_snoc.
Qed.

(** When the put's completion was first waited for, in polls [l] of [t]. *)
Definition waits_from t l : Z := default (default 0%Z (at_ <$> head l)) (waiting_since t).

(** A poll that finds the motor on its way: no stop, no completion, the deadline to come. *)
Definition still_moving t (since : Z) f : Prop :=
  length (stops f) ≤ seen t ∧ put_done f = None ∧ ∀ d, move_deadline t = Some d → (at_ f < since + d)%Z.
(** How the poll [f] that follows the polls [l1] settles a move that waits since [since], and
    the polls whose readings were told. *)
Definition settled_by t (since : Z) (l1 : list Found) f (told : list Found) (r : Result unit string) : Prop :=
  (seen t < length (stops f) ∧ told = l1
   ∧ r = if default false (last (stops f)) then Ok () else Err (what t +:+ ": stopped"))
  ∨ (length (stops f) ≤ seen t ∧ told = l1 ++ [f]
     ∧ match put_done f with
       | Some (Ok _) => r = Ok ()
       | Some (Err e) => r = Err (what t +:+ ": " +:+ error_text e)
       | None => ∃ d, move_deadline t = Some d ∧ (since + d ≤ at_ f)%Z
           ∧ r = Err (what t +:+ ": timed out after " +:+ millis_text (as_secs_f64 d) +:+ "s")
       end).

(** The polls of a task on the status it settles. *)
Fixpoint run_told (s : nat) t l (h : Store) : option (Result unit string) * Store :=
  match l with
  | [] => (None, h)
  | f :: l =>
      let '(us, e, t) := poll_move t f in
      let h := report s (at_ f) us e h in
      match e with Some r => (Some r, h) | None => run_told s t l h end
  end.
(** The updates of the status, each with the time of its poll. *)
Definition timed t (i : Inner) (told : list Found) : list WatcherUpdate :=
  told ≫= λ g, filled (at_ g) i <$> updates_of t g.
Definition end_with (r : Result unit string) : End := match r with Ok _ => Ok () | Err x => Err (SFailed x) end.

Lemma poll_settles t f us r t' : poll_move t f = (us, Some r, t') →
  ∃ told, us = told ≫= updates_of t ∧ settled_by t (default (at_ f) (waiting_since t)) [] f told r.
Proof.
  unfold poll_move, finish_poll, settled_by. simpl.
  destruct (Nat.ltb_spec (seen t) (length (stops f))) as [Hlt|Hge]; [intros [= <- <- <-]; exists []; split; [done|by left]|].
  intros Hp. exists [f]. destruct (put_done f) as [[[]|x]|]; simpl; rewrite app_nil_r.
  1,2: injection Hp as <- <- <-; split; [done|by right].
  simpl in Hp. destruct (move_deadline t) as [d|]; [|done].
  destruct (Z.leb_spec (default (at_ f) (waiting_since t) + d) (at_ f)); [|done]. injection Hp as <- <- <-.
  split; [done|]. right. split_and!; [done|done|]. by exists d.
Qed.
Lemma poll_goes_on t f us t' : poll_move t f = (us, None, t') →
  us = updates_of t f ∧ still_moving t (default (at_ f) (waiting_since t)) f
  ∧ seen t' = seen t ∧ template t' = template t ∧ move_deadline t' = move_deadline t ∧ what t' = what t
  ∧ waiting_since t' = Some (default (at_ f) (waiting_since t)).
Proof.
  intros Hp. destruct (poll_move_keeps _ _ _ _ _ Hp) as (Hs & Ht & Hd & Hw & Hn). destruct (Hn eq_refl) as (Hu & H1 & H2 & H3).
  split_and!; try done. split_and!; [done|done|]. intros d He. unfold poll_move, finish_poll in Hp.
  destruct (Nat.ltb_spec (seen t) (length (stops f))); [lia|]. rewrite H2, He in Hp. simpl in Hp.
  destruct (Z.leb_spec (default (at_ f) (waiting_since t) + d) (at_ f)); [done|lia].
Qed.

(** Readings told to the status: an observer of it is sent each, and it goes on as it was. *)
Lemma told_updates s now i us : ∀ h, inners h !! s = Some i → end_of h s = None → in_settle i = 0%Z →
  let h' := foldl (λ h u, update_watcher s u now h) h us in
  (∀ i0 o us0, observing s o i0 us0 h → observing s o i0 (us0 ++ (filled now i0 <$> us)) h')
  ∧ ∃ i', inners h' !! s = Some i' ∧ end_of h' s = None ∧ in_settle i' = 0%Z.
Proof.
  revert i. induction us as [|u us IH]; intros i h Hi He Hz; cbn [foldl fmap list_fmap].
  { split; [intros; by rewrite app_nil_r|]. by exists i. }
  destruct (update_watcher_inner s u now h i Hi) as (i1 & Hi1 & Hp1 & Hz1).
  destruct (IH i1 (update_watcher s u now h) Hi1) as [Ho Hr].
  { unfold end_of, phase_of in *. rewrite Hi1. rewrite Hi in He. simpl in *. by rewrite Hp1. }
  { by rewrite Hz1. }
  split; [|exact Hr]. intros i0 o us0 Hob.
  apply (observing_all _ _ _ _ [(now, AUpdate s u)]) in Hob. unfold posted in Hob. simpl in Hob. rewrite Nat.eqb_refl in Hob.
  simpl in Hob. apply Ho in Hob. by rewrite <- app_assoc in Hob.
Qed.
Lemma told_end s now i r h : inners h !! s = Some i → end_of h s = None → in_settle i = 0%Z →
  let h' := report s now [] (Some r) h in
  (∀ i0 o us0, observing s o i0 us0 h → observing s o i0 us0 h') ∧ end_of h' s = Some (end_with r).
Proof.
  intros Hi He Hz. unfold report, end_with. simpl. destruct r as [[]|x].
  - split.
    + intros i0 o us0 Hob. apply (observing_all _ _ _ _ [(now, ASuccess s)]) in Hob. unfold posted in Hob. simpl in Hob.
      by rewrite app_nil_r in Hob.
    + unfold success. rewrite Hi, Hz. simpl. by apply finish_pending.
  - split.
    + intros i0 o us0 Hob. apply (observing_all _ _ _ _ [(now, AFail s (SFailed x))]) in Hob. unfold posted in Hob. simpl in Hob.
      by rewrite app_nil_r in Hob.
    + unfold fail. by apply finish_pending.
Qed.
Lemma report_split s now us r h :
  report s now us (Some r) h = report s now [] (Some r) (foldl (λ h u, update_watcher s u now h) h us).
Proof. done. Qed.

Lemma told_polls s l : ∀ t h i, inners h !! s = Some i → end_of h s = None → in_settle i = 0%Z →
  let since := waits_from t l in
  let '(r, h') := run_told s t l h in
  ∃ told, (∀ i0 o us0, observing s o i0 us0 h → observing s o i0 (us0 ++ timed t i0 told) h')
  ∧ match r with
    | None => told = l ∧ Forall (still_moving t since) l ∧ end_of h' s = None
    | Some r => ∃ l1 f l2, l = l1 ++ f :: l2 ∧ Forall (still_moving t since) l1 ∧ settled_by t since l1 f told r
        ∧ end_of h' s = Some (end_with r)
    end.
Proof.
  induction l as [|f l IH]; intros t h i Hi He Hz; cbn [run_told].
  { exists []. split_and!; try done. intros. by rewrite app_nil_r. }
  assert (waits_from t (f :: l) = default (at_ f) (waiting_since t)) as Hsince by (unfold waits_from; by destruct (waiting_since t)).
  rewrite Hsince. destruct (poll_move t f) as [[us [r|]] t1] eqn:Hp.
  - apply poll_settles in Hp as (told & Hus & Hset). rewrite report_split.
    destruct (told_updates s (at_ f) i us h Hi He Hz) as [Ho (i' & Hi' & He' & Hz')].
    destruct (told_end s (at_ f) i' r _ Hi' He' Hz') as [Ho' Hend]. exists told. split.
    + intros i0 o us0 Hob. apply Ho in Hob. apply Ho' in Hob.
      assert (timed t i0 told = filled (at_ f) i0 <$> us) as ->; [|done].
      destruct Hset as [(_ & -> & _)|(_ & -> & _)]; subst us; unfold timed; simpl; [done|by rewrite !app_nil_r].
    + exists [], f, l. split_and!; [done|by constructor|done|done].
  - apply poll_goes_on in Hp as (-> & Hm & Hs & Ht & Hd & Hw & H3). unfold report.
    destruct (told_updates s (at_ f) i (updates_of t f) h Hi He Hz) as [Ho (i' & Hi' & He' & Hz')].
    specialize (IH t1 _ i' Hi' He' Hz'). assert (waits_from t1 l = default (at_ f) (waiting_since t)) as Hs1.
    { unfold waits_from. by rewrite H3. }
    rewrite Hs1 in IH. destruct (run_told s t1 l _) as [r h']. destruct IH as (told & Hot & IH).
    assert (∀ g, still_moving t1 (default (at_ f) (waiting_since t)) g → still_moving t (default (at_ f) (waiting_since t)) g) as Hsm.
    { intros g. unfold still_moving. by rewrite Hs, Hd. }
    exists (f :: told). split.
    + intros i0 o us0 Hob. apply Ho, Hot in Hob. unfold timed in *. cbn [mbind list_bind]. rewrite <- app_assoc in Hob.
      assert (updates_of t1 = updates_of t) as Hu by (unfold updates_of; by rewrite Ht). by rewrite Hu in Hob.
    + destruct r as [r|].
      * destruct IH as (l1 & g & l2 & -> & Hl & Hset & Hend). exists (f :: l1), g, l2. split_and!; [done| | |done].
        -- constructor; [done|]. eapply Forall_impl; [exact Hl|exact Hsm].
        -- unfold settled_by in *. rewrite Hs, Hw, Hd in Hset. destruct Hset as [(? & -> & ?)|(? & -> & ?)]; [by left|by right].
      * destruct IH as (-> & Hl & Hend). split_and!; [done| |done]. constructor; [done|]. eapply Forall_impl; [exact Hl|exact Hsm].
Qed.

(** C34: The task of a move on its pending status, which has no settle time. Until it settles, every poll found no stop
    since the move began, no completion of the put and a time before the deadline, counted
    from the first poll; the first poll that finds otherwise settles the status: done or
    failed by the last stop, else by the put's completion, else failed by the deadline. Every
    observer of the status is sent each reading of the monitor that is a number, once and in
    order, up to those of the poll that settles it, a stop excepted. *)
Theorem move_reports_then_settles s t l h i :
  inners h !! s = Some i → end_of h s = None → in_settle i = 0%Z →
  let since := waits_from t l in
  let '(r, h') := run_told s t l h in
  ∃ told, (∀ i0 o us0, observing s o i0 us0 h → observing s o i0 (us0 ++ timed t i0 told) h')
  ∧ match r with
    | None => told = l ∧ Forall (still_moving t since) l ∧ end_of h' s = None
    | Some r => ∃ l1 f l2, l = l1 ++ f :: l2 ∧ Forall (still_moving t since) l1 ∧ settled_by t since l1 f told r
        ∧ end_of h' s = Some (end_with r)
    end.
Proof. apply told_polls. Qed.

(** A move with a deadline is settled by the first poll that comes the deadline or more after
    the first one, at the latest. *)
Theorem move_ends_by_its_deadline t l d first f :
  waiting_since t = None → move_deadline t = Some d → head l = Some first → f ∈ l → (at_ first + d ≤ at_ f)%Z →
  (run_move t l).2 ≠ None.
Proof.
  intros Hw Hd Hfirst Hf Hle. assert (∀ t since l, default since (waiting_since t) = since → move_deadline t = Some d →
    (waiting_since t = None → at_ <$> head l = Some since) → f ∈ l → (since + d ≤ at_ f)%Z → (run_move t l).2 ≠ None) as Hg.
  { clear. intros t since l. revert t. induction l as [|g l IH]; intros t Hs Hd Hh Hf Hle; [by apply not_elem_of_nil in Hf|].
    simpl. destruct (poll_move t g) as [[us [r|]] t1] eqn:Hp; [done|].
    destruct (poll_move_keeps _ _ _ _ _ Hp) as (_ & _ & Hd1 & _ & Hn). destruct (Hn eq_refl) as (_ & H1 & H2 & H3).
    assert (default (at_ g) (waiting_since t) = since) as Hsince.
    { destruct (waiting_since t) eqn:Hw; [exact Hs|]. simpl in *. specialize (Hh eq_refl). congruence. }
    specialize (IH t1). rewrite H3 in IH. destruct (run_move t1 l) as [us2 r2]. apply IH; try done; [congruence|].
    apply elem_of_cons in Hf as [->|Hf]; [|done]. exfalso. unfold poll_move, finish_poll in Hp.
    destruct (Nat.ltb_spec (seen t) (length (stops g))); [lia|]. rewrite H2 in Hp. simpl in Hp. rewrite Hd, Hsince in Hp.
    destruct (Z.leb_spec (since + d) (at_ g)); [done|lia]. }
  apply (Hg t (at_ first) l); [by rewrite Hw|done| |done|done]. intros _. by rewrite Hfirst.
Qed.

(** *** The calibration *)

(** [set_current_position] leaves the motor in Use, unless putting it back failed: also when
    the put of the position fails. Its success means that the position was put while the
    motor was in Set, with no check of the limits. *)
Theorem calibration_leaves_use m kind pos a (in_set : ax → bool) :
  (∀ b a a', ax_set_use b a = (Ok (), a') → in_set a' = b) →
  (∀ v a, in_set (ax_put v a).2 = in_set a) →
  in_set a = false →
  let '(r, a') := set_current_position m kind pos a in
  in_set a' = true → ∃ a1 a2 e, ax_set_use true a = (Ok (), a1) ∧ ax_set_use false a2 = (Err e, a')
    ∨ ax_set_use true a = (Err e, a').
Proof.
  intros Hset Hput Ha. unfold set_current_position. destruct (has_set_use m); [|simpl; congruence].
  destruct (ax_set_use true a) as [[[]|e] a1] eqn:H1; [|by exists a, a, e; right].
  pose proof (Hput pos a1) as Hp. destruct (ax_put pos a1) as [put a2].
  destruct (ax_set_use false a2) as [[[]|e] a3] eqn:H2.
  - apply Hset in H2. simpl. congruence.
  - intros _. exists a1, a2, e. by left.
Qed.
End promises.

(** ** A motor on the bench *)

Module MotorExample.
Import Sample.
Record Rec := mkRec { rbv : f64; velo : f64; sent : list f64; in_set : bool }.
#[export] Instance texts : MotorTexts :=
  {| f64_text _ := "x"; millis_text _ := "s"; error_text _ := "e"; reading_as_f64 v := match v with VBool true => Some f64_two | _ => None end |}.
Definition key : DataKey := mkDataKey "ca://m" DNumber [] None None (Some "mm") (Some 3%Z) None None None None.
(** Travel from 0 to 10, dial limits 1 and 10. *)
#[export] Instance bench : MotorAxis Rec := {|
  ax_name := "m";
  ax_readback a := Ok (rbv a);
  ax_readback_key _ := Ok key;
  ax_setpoint_key _ := Ok key;
  ax_limits _ := Ok (0%Z, f64_ten, f64_one, f64_ten);
  ax_timing a := Ok (velo a, f64_half);
  ax_subscribe a := (Ok (), a);
  ax_put_start v a := (Ok (), mkRec (rbv a) (velo a) (sent a ++ [v]) (in_set a));
  ax_dmov _ := Ok 0%Z;
  ax_press a := (Ok (), a);
  ax_put v a := (Err (SFailed "stuck"), a);
  ax_set_use b a := (Ok (), mkRec (rbv a) (velo a) (sent a) b);
|}.
Definition rest : Rec := mkRec f64_one f64_two [] false.
Definition channels : MotorChannels := mkChannels true true true true [].

Lemma refused_move_sends_nothing_witness :
  let '(_, task, a', _) := motor_set channels "motor" (f64_mul f64_ten f64_two) 0 rest empty_store in
  a' = rest ∧ task = None.
Proof.
  pose proof (refused_move_sends_nothing channels "motor" (f64_mul f64_ten f64_two) 0%Z rest empty_store) as Hr.
  destruct (motor_set _ _ _ _ _ _) as [[[s task] a'] h'].
  destruct Hr as (Ha & Ht & _); [|by split]. right. eexists _, _, _. split_and!; reflexivity.
Defined.

(** From 1 to 2 at 2 units a second with half a second of acceleration: 11.5 seconds. *)
Definition moving : MoveTask :=
  mkTask "motor set" 0 (Some 11500000000%Z) None (mkUpdate f64_one f64_one f64_two (Some "m") (Some "mm") (Some 3%Z) None None None).
Lemma sent_move : ∃ s a' h',
  motor_set channels "motor" f64_two 0%Z rest empty_store = (s, Some moving, a', h') ∧ sent a' = [f64_two].
Proof. eexists _, _, _. split; vm_compute; reflexivity. Qed.

Lemma sent_move_is_within_limits_witness :
  contains 0%Z f64_ten f64_two = true.
Proof.
  destruct (sent_move_is_within_limits channels "motor" f64_two 0%Z rest empty_store 0 moving
    (motor_set channels "motor" f64_two 0%Z rest empty_store).1.2
    (motor_set channels "motor" f64_two 0%Z rest empty_store).2) as (from & k & _ & _ & Hl); [reflexivity|].
  simpl in Hl. destruct Hl as (llm & hlm & dllm & dhlm & [= <- <- <- <-] & [Hz|[_ Hv]]); [by vm_compute in Hz|exact Hv].
Defined.

Definition quiet_poll (t : Z) (n : nat) : Found :=
  mkFound [] (replicate n (mkReading (VBool true) 0%Z None None)) None t.

Lemma stop_settles_the_move_witness :
  poll_move moving (mkFound [true] [mkReading (VBool true) 0%Z None None] (Some (Ok ())) 5%Z)
  = ([], Some (Ok ()), moving).
Proof. apply (stop_settles_the_move moving _ true []); [reflexivity|apply Nat.le_0_l]. Defined.

Definition polls_of_a_slow_move : list Found := [quiet_poll 1000 2; quiet_poll 5000 0; quiet_poll 11500001000 1].

Lemma move_reports_then_settles_witness :
  let h := (status_new 0 empty_store).2 in
  end_of (run_told 0 moving polls_of_a_slow_move h).2 0 = Some (Err (SFailed "motor set: timed out after ss")).
Proof.
  pose proof (move_reports_then_settles 0 moving polls_of_a_slow_move (status_new 0 empty_store).2 (inner_new 0 0)) as Hm.
  cbv zeta in *. destruct (run_told 0 moving polls_of_a_slow_move (status_new 0 empty_store).2) as [r h'] eqn:Hr.
  assert (r = Some (Err "motor set: timed out after ss")) as ->.
  { change ((r, h').1 = Some (Err "motor set: timed out after ss")). rewrite <- Hr. vm_compute. reflexivity. }
  destruct Hm as (told & _ & l1 & f & l2 & _ & _ & _ & He); [reflexivity|reflexivity|reflexivity|]. exact He.
Defined.

Lemma move_ends_by_its_deadline_witness : (run_move moving polls_of_a_slow_move).2 ≠ None.
Proof.
  apply (move_ends_by_its_deadline moving polls_of_a_slow_move 11500000000%Z (quiet_poll 1000 2) (quiet_poll 11500001000 1));
    [reflexivity|reflexivity|reflexivity|right; right; left|done].
Defined.

Lemma calibration_leaves_use_witness :
  in_set (set_current_position channels "motor" f64_one rest).2 = false.
Proof.
  pose proof (calibration_leaves_use channels "motor" f64_one rest in_set) as Hc.
  destruct (set_current_position channels "motor" f64_one rest) as [r a'] eqn:Hr.
  destruct (in_set a') eqn:Ha; [|exact Ha]. exfalso. destruct Hc as (a1 & a2 & e & [[_ Hf]|Hf]); [| | |reflexivity|done|done].
  - intros b a0 a1. by intros [= <-].
  - done.
  - reflexivity.
  all: done.
Defined.
End MotorExample.
