(* ===== verification/Journal.v ===== *)
(** * The checkpoint journal ([host/checkpoint_store.rs])

    The append-only file of checkpoints with its one backup: what a hook keeps of the
    checkpoints it is told, how the file is rotated, and what a reader finds after any
    number of appends, restarts, failures and a crash in the middle of one. *)

From Stdlib Require Import Ascii.
From stdpp Require Import strings pretty.
From S2P Require Import Prelude.

(** The bytes of a file. *)
Definition text : Type := list ascii.
Definition nl : ascii := "010"%char.
Definition cr : ascii := "013"%char.

(** ** Lines *)

(** [str::lines]: a line feed ends a line, with the carriage return before it. *)
Definition strip_cr (l : text) : text :=
  match rev l with c :: l' => if decide (c = cr) then rev l' else l | [] => [] end.
Fixpoint lines_from (cur t : text) : list text :=
  match t with
  | [] => match cur with [] => [] | _ => [cur] end
  | c :: t => if decide (c = nl) then strip_cr cur :: lines_from [] t else lines_from (cur ++ [c]) t
  end.
Definition lines (t : text) : list text := lines_from [] t.

(** [trim().is_empty()]: only white space, in UTF-8. *)
Definition code (c : ascii) : nat := nat_of_ascii c.
Fixpoint blank (t : text) : bool :=
  match t with
  | [] => true
  | c :: t =>
      if ((9 <=? code c) && (code c <=? 13)) || (code c =? 32) then blank t
      else match t with
           | x :: t =>
               if (code c =? 194) && ((code x =? 133) || (code x =? 160)) then blank t
               else match t with
                    | y :: t =>
                        ((code c =? 225) && (code x =? 154) && (code y =? 128)
                         || (code c =? 226) && (code x =? 128)
                            && ((128 <=? code y) && (code y <=? 138) || (code y =? 168) || (code y =? 169) || (code y =? 175))
                         || (code c =? 226) && (code x =? 129) && (code y =? 159)
                         || (code c =? 227) && (code x =? 128) && (code y =? 128)) && blank t
                    | [] => false
                    end
           | [] => false
           end
  end.

(** ** Records *)

Record CheckpointRecord := mkRecord {
  timestamp_ns : Z;
  run_uid : option string;
  bsrs_version : string;
  exit_status : option string;
}.

#[export] Instance checkpoint_record_eq_dec : EqDecision CheckpointRecord.
Proof. solve_decision. Defined.

(** [serde_json::to_string] of a record, and [serde_json::from_str] of what a line reads as
    in lossy UTF-8. *)
Class RecordText := {
  to_string : CheckpointRecord → text;
  from_str : text → option CheckpointRecord;
}.

(** [CheckpointSnapshot], what the engine tells a hook. *)
Record CheckpointSnapshot := mkSnapshot {
  s_timestamp_ns : Z;
  s_run_uid : option string;
  s_exit_status : option string;
}.

Definition mid_run_append_interval_ns : Z := 1000000000.
Definition tail_scan_bytes : nat := 4 * 128 * 128.
Definition default_max_bytes : Z := 4194304.

(** ** The file and its backup *)

Record Disk := mkDisk { current : option text; backup : option text }.

Inductive DiskOp := Create | Rename | WriteText (t : text).
Definition disk_op (o : DiskOp) (d : Disk) : Disk :=
  match o with
  | Create => mkDisk (Some (default [] (current d))) (backup d)
  | Rename => mkDisk None (current d)
  | WriteText t => mkDisk (Some (default [] (current d) ++ t)) (backup d)
  end.
Definition disk_ops (l : list DiskOp) (d : Disk) : Disk := foldl (λ d o, disk_op o d) d l.

(** A crash in the middle of some operations, of a write maybe. *)
Inductive cut : list DiskOp → Disk → Disk → Prop :=
| cut_here l d : cut l d d
| cut_write t k l d : cut (WriteText t :: l) d (disk_op (WriteText (take k t)) d)
| cut_later o l d d' : cut l (disk_op o d) d' → cut (o :: l) d d'.

(** What the file system answers an append. [failing]: the write fails after some bytes. *)
Inductive Opening := NoDirectory | NotOpened | Opened (length_known : bool).
Record Io := mkIo { opening : Opening; renamed : bool; reopening : Opening; failing : option nat }.

Record Writer := mkWriter { file : bool; bytes : Z }.
Record JsonlCheckpointStore := mkStore {
  max_bytes : Z;
  writer : Writer;
  last_mid_run : option (option string * Z);
}.
Definition with_max_bytes (max : Z) : JsonlCheckpointStore := mkStore (Z.max max 1) (mkWriter false 0) None.
Definition new_store : JsonlCheckpointStore := with_max_bytes default_max_bytes.
Definition set_writer w (s : JsonlCheckpointStore) : JsonlCheckpointStore := mkStore (max_bytes s) w (last_mid_run s).
Definition set_last l (s : JsonlCheckpointStore) : JsonlCheckpointStore := mkStore (max_bytes s) (writer s) l.

Definition size (t : option text) : Z := Z.of_nat (length (default [] t)).

(** [None]: the file could not be opened. *)
Definition ensure_open (o : Opening) (w : Writer) (d : Disk) : option (Writer * list DiskOp) :=
  if file w then Some (w, [])
  else match o with
       | NoDirectory | NotOpened => None
       | Opened known => Some (mkWriter true (if known then size (current d) else 0), [Create])
       end.
Definition rotate (renamed : bool) (w : Writer) : Writer * list DiskOp :=
  (mkWriter false 0, if renamed then [Rename] else []).

Section store.
Context `{RecordText}.

Definition write_line (failing : option nat) (line : text) (w : Writer) : Writer * list DiskOp :=
  match failing with
  | None => (mkWriter (file w) (bytes w + Z.of_nat (length line) + 1), [WriteText (line ++ [nl])])
  | Some k => (w, [WriteText (take k (line ++ [nl]))])
  end.

(** The writer an append leaves, and what it did to the disk, in order. *)
Definition append_ops (r : CheckpointRecord) (io : Io) (max : Z) (w : Writer) (d : Disk) : Writer * list DiskOp :=
  match ensure_open (opening io) w d with
  | None => (w, [])
  | Some (w, opened) =>
      if (max <=? bytes w)%Z then
        let '(w, moved) := rotate (renamed io) w in
        match ensure_open (reopening io) w (disk_ops (opened ++ moved) d) with
        | None => (w, opened ++ moved)
        | Some (w, opened') =>
            let '(w, l) := write_line (failing io) (to_string r) w in (w, opened ++ moved ++ opened' ++ l)
        end
      else let '(w, l) := write_line (failing io) (to_string r) w in (w, opened ++ l)
  end.
Definition append (r : CheckpointRecord) (io : Io) (s : JsonlCheckpointStore) (d : Disk) : JsonlCheckpointStore * Disk :=
  let '(w, l) := append_ops r io (max_bytes s) (writer s) d in (set_writer w s, disk_ops l d).

(** ** The hook *)

Definition record_of (version : string) (x : CheckpointSnapshot) : CheckpointRecord :=
  mkRecord (s_timestamp_ns x) (s_run_uid x) version (s_exit_status x).

(** Whether a snapshot is coalesced with the last appended one, and what is kept for the
    next. *)
Definition coalesce (x : CheckpointSnapshot) (last : option (option string * Z)) : bool * option (option string * Z) :=
  match s_exit_status x with
  | None =>
      match last with
      | Some (uid, ts) =>
          if decide (uid = s_run_uid x) then
            if (sat_sub64 (s_timestamp_ns x) ts <? mid_run_append_interval_ns)%Z then (true, last)
            else (false, Some (s_run_uid x, s_timestamp_ns x))
          else (false, Some (s_run_uid x, s_timestamp_ns x))
      | None => (false, Some (s_run_uid x, s_timestamp_ns x))
      end
  | Some _ => (false, None)
  end.
Definition hook (version : string) (x : CheckpointSnapshot) (io : Io) (s : JsonlCheckpointStore) (d : Disk) :
    JsonlCheckpointStore * Disk :=
  let '(dropped, last) := coalesce x (last_mid_run s) in
  if dropped then (s, d) else append (record_of version x) io (set_last last s) d.

(** ** Readers *)

Definition read_tail (max : nat) (t : text) : text := drop (length t - max) t.
Definition tail_record (t : option text) : option CheckpointRecord :=
  t ← t;
  head (omap from_str (filter (λ l, blank l = false) (rev (lines (read_tail tail_scan_bytes t))))).
Definition latest (d : Disk) : option CheckpointRecord :=
  match tail_record (current d) with Some r => Some r | None => tail_record (backup d) end.
Definition unfinished_run (d : Disk) : option CheckpointRecord :=
  r ← latest d;
  if bool_decide (exit_status r = None) && bool_decide (is_Some (run_uid r)) then Some r else None.
End store.

#[local] Arguments tail_record : simpl never.
#[local] Arguments tail_scan_bytes : simpl never.

(** * What the readers find *)

(** Every line of a text ends with a line feed. *)
Definition settled (t : text) : Prop := t = [] ∨ last t = Some nl.

Lemma lines_from_app cur t u : last t = Some nl → lines_from cur (t ++ u) = lines_from cur t ++ lines u.
Proof.
  revert cur. induction t as [|c t IH]; intros cur Ht; [done|].
  destruct t as [|c' t].
  - injection Ht as ->. cbn [lines_from app]. by rewrite !decide_True by done.
  - assert (last (c' :: t) = Some nl) as Ht' by done.
    change ((c :: c' :: t) ++ u) with (c :: ((c' :: t) ++ u)). remember (c' :: t) as t' eqn:E.
    cbn [lines_from]. destruct (decide (c = nl)); simpl; rewrite IH by done; done.
Qed.
Lemma lines_app t u : settled t → lines (t ++ u) = lines t ++ lines u.
Proof. intros [->|Ht]; [done|]. by apply lines_from_app. Qed.

Lemma lines_from_line cur x : nl ∉ x → lines_from cur (x ++ [nl]) = [strip_cr (cur ++ x)].
Proof.
  revert cur. induction x as [|c x IH]; intros cur Hx; cbn [lines_from app].
  - by rewrite decide_True, app_nil_r by done.
  - apply not_elem_of_cons in Hx as [Hc Hx]. rewrite decide_False by done. rewrite IH by done.
    by rewrite <-app_assoc.
Qed.
Lemma lines_from_torn cur x : nl ∉ x → lines_from cur x = match cur ++ x with [] => [] | l => [l] end.
Proof.
  revert cur. induction x as [|c x IH]; intros cur Hx; cbn [lines_from].
  - rewrite app_nil_r. by destruct cur.
  - apply not_elem_of_cons in Hx as [Hc Hx]. rewrite decide_False by done. rewrite IH by done.
    by rewrite <-app_assoc.
Qed.

Lemma strip_cr_clean l : last l ≠ Some cr → strip_cr l = l.
Proof.
  unfold strip_cr. induction l as [|c l _] using rev_ind; [done|]. intros Hl.
  rewrite rev_unit. rewrite decide_False; [done|]. intros ->. by rewrite last_snoc in Hl.
Qed.

Lemma settled_drop k t : settled t → settled (drop k t).
Proof.
  intros [->|Ht]; [left; apply drop_nil|].
  destruct (decide (k < length t)).
  - right. rewrite <-Ht. rewrite <-(take_drop k t) at 2. rewrite last_app.
    destruct (last (drop k t)) eqn:E; [done|]. apply last_None in E.
    apply (f_equal length) in E. rewrite length_drop in E. simpl in E. lia.
  - left. apply drop_ge. lia.
Qed.
Lemma settled_line t l : settled (t ++ l ++ [nl]).
Proof. right. rewrite app_assoc. apply last_snoc. Qed.

Lemma read_tail_app max t u : length u ≤ max → ∃ k, read_tail max (t ++ u) = drop k t ++ u.
Proof.
  intros Hu. exists (length (t ++ u) - max). unfold read_tail. rewrite length_app, drop_app_le by lia.
  done.
Qed.

Lemma disk_ops_app l1 l2 d : disk_ops (l1 ++ l2) d = disk_ops l2 (disk_ops l1 d).
Proof. apply foldl_app. Qed.

Section readers.
Context `{RecordText}.
Implicit Types (r : CheckpointRecord) (d : Disk) (t : text) (w : Writer).

(** What [serde_json] renders a record as: one line that reads back as the record, no part
    of which does before the last byte. *)
Record WellRendered r : Prop := {
  rendered_line : nl ∉ to_string r;
  rendered_no_cr : last (to_string r) ≠ Some cr;
  rendered_not_blank : blank (to_string r) = false;
  rendered_short : 2 * length (to_string r) + 2 ≤ tail_scan_bytes;
  rendered_read : from_str (to_string r) = Some r;
  rendered_torn k : k < length (to_string r) → from_str (take k (to_string r)) = None;
}.

(** The records of some lines, the last one first. *)
Definition read_lines (l : list text) : list CheckpointRecord :=
  omap from_str (filter (λ l, blank l = false) (rev l)).
Lemma read_lines_app l1 l2 : read_lines (l1 ++ l2) = read_lines l2 ++ read_lines l1.
Proof. unfold read_lines. by rewrite rev_app_distr, filter_app, omap_app. Qed.

Lemma read_line r : WellRendered r → read_lines (lines (to_string r ++ [nl])) = [r].
Proof.
  intros W. unfold lines. rewrite lines_from_line by apply W. rewrite app_nil_l, strip_cr_clean by apply W.
  unfold read_lines. simpl. rewrite filter_cons_True by apply W. simpl. by rewrite (rendered_read r).
Qed.
Lemma read_torn r k :
  WellRendered r → read_lines (lines (take k (to_string r))) = if decide (length (to_string r) ≤ k) then [r] else [].
Proof.
  intros W. assert (nl ∉ take k (to_string r)) as Hnl.
  { intros Hin. apply (rendered_line r W). rewrite <-(take_drop k (to_string r)). apply elem_of_app. by left. }
  unfold lines. rewrite lines_from_torn by done. rewrite app_nil_l.
  case_decide as Hk.
  - rewrite take_ge by lia.
    assert (to_string r ≠ []) as Hne by (intros E; pose proof (rendered_not_blank r W) as B; by rewrite E in B).
    destruct (to_string r) as [|c l] eqn:E; [done|]. rewrite <-E. unfold read_lines. simpl.
    rewrite filter_cons_True by apply W. simpl. by rewrite (rendered_read r).
  - destruct (take k (to_string r)) as [|c l] eqn:E; [done|]. rewrite <-E. unfold read_lines. simpl.
    pose proof (rendered_torn r W k) as Ht. rewrite filter_cons. case_decide; [|done].
    simpl. by rewrite Ht by lia.
Qed.

(** The file ends with the lines of some records. *)
Lemma tail_record_lines t u :
  settled t → length u ≤ tail_scan_bytes → read_lines (lines u) ≠ [] →
  tail_record (Some (t ++ u)) = head (read_lines (lines u)).
Proof.
  intros Ht Hu Hne. unfold tail_record. simpl. destruct (read_tail_app tail_scan_bytes t u Hu) as [k ->].
  rewrite lines_app by by apply settled_drop.
  fold (read_lines (lines (drop k t) ++ lines u)). rewrite read_lines_app.
  by destruct (read_lines (lines u)).
Qed.

(** [r] is the last record of the journal, in its file or, when that is gone or empty, in
    its backup. *)
Definition ends_with r (o : option text) : Prop := ∃ t, settled t ∧ o = Some (t ++ to_string r ++ [nl]).
Definition empty (o : option text) : Prop := o = None ∨ o = Some [].
Definition Ends r d : Prop := ends_with r (current d) ∨ empty (current d) ∧ ends_with r (backup d).

Lemma ends_with_read r o : WellRendered r → ends_with r o → tail_record o = Some r.
Proof.
  intros W (t & Ht & ->). pose proof (rendered_short r W). 
  assert (read_lines (lines (to_string r ++ [nl])) = [r]) as E by by apply read_line.
  rewrite tail_record_lines, E; [done|done| |by rewrite E]. rewrite length_app. simpl. lia.
Qed.
Lemma empty_read o : empty o → tail_record o = None.
Proof. by intros [-> | ->]. Qed.
Lemma ends_latest r d : WellRendered r → Ends r d → latest d = Some r.
Proof.
  intros W [He|[He Hb]]; unfold latest.
  - by rewrite (ends_with_read r).
  - rewrite empty_read by done. by apply ends_with_read.
Qed.

(** A record torn after its last one: what the reader finds. *)
Lemma torn_latest r0 r k d :
  WellRendered r0 → WellRendered r → Ends r0 d →
  latest (disk_op (WriteText (take k (to_string r ++ [nl]))) d) =
    Some (if decide (length (to_string r) ≤ k) then r else r0).
Proof.
  intros W0 W He. pose proof (rendered_short r0 W0). pose proof (rendered_short r W).
  destruct (decide (length (to_string r) < k)) as [Hk|Hk].
  - rewrite decide_True by lia. rewrite take_ge by (rewrite length_app; simpl; lia).
    apply ends_latest; [done|]. left. destruct He as [(t & Ht & E)|[Hm He]]; simpl.
    + rewrite E. simpl. exists (t ++ to_string r0 ++ [nl]). split; [apply settled_line|done].
    + exists []. split; [by left|]. by destruct Hm as [-> | ->].
  - rewrite take_app_le by lia.
    assert (length (take k (to_string r)) ≤ length (to_string r)) by (rewrite length_take; lia).
    destruct He as [(t & Ht & E)|[Hm He]]; unfold latest; simpl.
    + rewrite E. simpl. rewrite <-app_assoc.
      assert (read_lines (lines ((to_string r0 ++ [nl]) ++ take k (to_string r))) =
                (if decide (length (to_string r) ≤ k) then [r] else []) ++ [r0]) as El.
      { rewrite lines_app by apply (settled_line []). by rewrite read_lines_app, read_line, read_torn. }
      rewrite tail_record_lines, El; [by case_decide|done| |rewrite El; by case_decide].
      rewrite !length_app. simpl. lia.
    + assert (default [] (current d) = []) as -> by by destruct Hm as [-> | ->]. simpl.
      change (take k (to_string r)) with ([] ++ take k (to_string r)).
      case_decide as Hle.
      * rewrite tail_record_lines, read_torn, decide_True by (done || by left || lia || (rewrite read_torn, decide_True; done)).
        done.
      * assert (tail_record (Some ([] ++ take k (to_string r))) = None) as ->.
        { unfold tail_record. simpl. unfold read_tail.
          replace (length (take k (to_string r)) - tail_scan_bytes) with 0 by lia. rewrite drop_0.
          fold (read_lines (lines (take k (to_string r)))). by rewrite read_torn, decide_False. }
        by apply ends_with_read.
Qed.
End readers.

(** ** Appends, restarts and a crash *)

Section lives.
Context `{RecordText}.
Implicit Types (r : CheckpointRecord) (d : Disk) (w : Writer) (o : option CheckpointRecord).

(** What a daemon does to its journal: appends, and a new store after a restart. *)
Inductive Life := LAppend r (io : Io) | LRestart.
Definition live_one (x : Life) (max : Z) (sd : Writer * Disk) : Writer * Disk :=
  match x with
  | LAppend r io => let '(w, l) := append_ops r io max sd.1 sd.2 in (w, disk_ops l sd.2)
  | LRestart => (mkWriter false 0, sd.2)
  end.
Definition live (l : list Life) (max : Z) (sd : Writer * Disk) : Writer * Disk :=
  foldl (λ sd x, live_one x max sd) sd l.
Definition fresh : Writer * Disk := (mkWriter false 0, mkDisk None None).

Definition appended (l : list Life) : list CheckpointRecord :=
  omap (λ x, match x with LAppend r _ => Some r | LRestart => None end) l.
(** The files could be opened and written; a rename may have failed. *)
Definition fine (io : Io) : Prop :=
  (∃ b, opening io = Opened b) ∧ (∃ b, reopening io = Opened b) ∧ failing io = None.
Definition all_fine (l : list Life) : Prop :=
  Forall (λ x, match x with LAppend r io => WellRendered r ∧ fine io | LRestart => True end) l.

(** The journal holds its last record where a reader looks, and an open file has at least
    the bytes that were counted. *)
Definition Holds o d : Prop :=
  match o with Some r => Ends r d | None => empty (current d) ∧ backup d = None end.
Definition counted w d : Prop := file w = true → ∃ t, current d = Some t ∧ (bytes w ≤ Z.of_nat (length t))%Z.

Lemma holds_create o d : Holds o d → Holds o (disk_op Create d).
Proof.
  assert (∀ c, empty c → empty (Some (default [] c))) as He by (intros c [-> | ->]; by right).
  destruct o as [r|]; simpl.
  - intros [(t & Ht & E)|[Hm Hb]]; [left|right]; simpl; [rewrite E; by exists t|eauto].
  - intros [Hm Hb]. eauto.
Qed.
Lemma holds_rename o d : Holds o d → default [] (current d) ≠ [] → Holds o (disk_op Rename d).
Proof.
  assert (empty (current d) → default [] (current d) = []) as He by by intros [-> | ->].
  destruct o as [r|]; simpl; [|naive_solver].
  intros [Hc|[Hm Hb]] Hne; [|naive_solver]. right. split; [by left|done].
Qed.

(** What an append does in order, from a disk that holds the last record. *)
Fixpoint moves o r (l : list DiskOp) d : Prop :=
  match l with
  | [] => Holds o d
  | WriteText t :: l => Holds o d ∧ l = [] ∧ ∃ k, t = take k (to_string r ++ [nl])
  | x :: l => Holds o d ∧ moves o r l (disk_op x d)
  end.

Lemma moves_cut o r l d d' :
  moves o r l d → cut l d d' →
  Holds o d' ∨ ∃ d1 k, Holds o d1 ∧ d' = disk_op (WriteText (take k (to_string r ++ [nl]))) d1.
Proof.
  intros Hm Hc. induction Hc as [l d|t k l d|x l d d' Hc IH].
  - left. destruct l as [|[] l]; simpl in Hm; naive_solver.
  - destruct Hm as (Hd & -> & k' & ->). right. exists d, (k `min` k'). by rewrite take_take.
  - destruct x as [| |t]; simpl in Hm.
    + apply IH, Hm.
    + apply IH, Hm.
    + destruct Hm as (Hd & -> & k & ->). right. exists d, k. split; [done|]. by inversion Hc.
Qed.

Lemma write_moves o r failing w d : Holds o d → moves o r (write_line failing (to_string r) w).2 d.
Proof.
  intros Hd. destruct failing as [k|]; simpl; (split; [done|split; [done|]]).
  - by exists k.
  - exists (length (to_string r ++ [nl])). by rewrite take_ge.
Qed.
Lemma open_moves o r a w d w' l l' :
  Holds o d → ensure_open a w d = Some (w', l) → moves o r l' (disk_ops l d) → moves o r (l ++ l') d.
Proof.
  unfold ensure_open. intros Hd E Hl. destruct (file w); [by simplify_eq|].
  destruct a; simplify_eq/=. done.
Qed.
Lemma open_holds o a w d w' l :
  Holds o d → counted w d → ensure_open a w d = Some (w', l) →
  Holds o (disk_ops l d) ∧ counted w' (disk_ops l d) ∧ file w' = true.
Proof.
  unfold ensure_open. intros Hd Hw E. destruct (file w) eqn:Ew; [by simplify_eq|].
  destruct a as [| |known]; simplify_eq/=. split; [by apply holds_create|]. split; [|done].
  intros _. simpl. eexists. split; [done|]. destruct known; unfold size; lia.
Qed.

Lemma moves_holds o r l d : moves o r l d → Holds o d.
Proof. destruct l as [|[] l]; simpl; naive_solver. Qed.

(** Every append goes from a disk that holds the last record through such disks to the one
    write of the new one. *)
Lemma append_moves o r io max w d :
  (1 ≤ max)%Z → Holds o d → counted w d → moves o r (append_ops r io max w d).2 d.
Proof.
  intros Hmax Hd Hw. unfold append_ops. destruct (ensure_open (opening io) w d) as [[w1 l1]|] eqn:E1; [|done].
  destruct (open_holds _ _ _ _ _ _ Hd Hw E1) as (Hd1 & Hw1 & Hf1).
  destruct (Z.leb_spec max (bytes w1)) as [Hfull|_].
  2: { rewrite (surjective_pairing (write_line _ _ _)). simpl. eapply open_moves; [done..|]. by apply write_moves. }
  destruct (Hw1 Hf1) as (t & Et & Hlen).
  assert (default [] (current (disk_ops l1 d)) ≠ []) as Hne.
  { rewrite Et. simpl. intros ->. simpl in Hlen. lia. }
  unfold rotate. simpl.
  set (moved := if renamed io then [Rename] else []).
  assert (∀ l, moves o r l (disk_ops (l1 ++ moved) d) → moves o r (l1 ++ moved ++ l) d) as Hgo.
  { intros l Hl. eapply open_moves; [done..|]. unfold disk_ops in Hl. rewrite foldl_app in Hl.
    subst moved. destruct (renamed io); simpl; [|done]. split; [done|]. done. }
  assert (Holds o (disk_ops (l1 ++ moved) d)) as Hd2.
  { unfold disk_ops. rewrite foldl_app. subst moved. destruct (renamed io); simpl; [by apply holds_rename|done]. }
  destruct (ensure_open (reopening io) (mkWriter false 0) _) as [[w2 l2]|] eqn:E2.
  - rewrite (surjective_pairing (write_line _ _ _)). simpl. apply Hgo.
    assert (Holds o (disk_ops l2 (disk_ops (l1 ++ moved) d))) as Hd3 by (eapply open_holds; [| |done]; done).
    eapply open_moves; [done..|]. by apply write_moves.
  - simpl. rewrite <-(app_nil_r moved). apply Hgo. by simpl.
Qed.

Lemma write_ends o r d : Holds o d → Ends r (disk_op (WriteText (to_string r ++ [nl])) d).
Proof.
  intros Hd. left. exists (default [] (current d)). split; [|done].
  assert (∀ c, empty c → default [] c = []) as He by by intros c [-> | ->].
  destruct o as [r0|].
  - destruct Hd as [(t & Ht & E)|[Hm _]].
    + rewrite E. simpl. apply settled_line.
    + left. by apply He.
  - left. apply He, Hd.
Qed.

(** An append whose files open and whose write succeeds. *)
Lemma append_holds o r io max w d :
  (1 ≤ max)%Z → fine io → Holds o d → counted w d →
  let '(w', l) := append_ops r io max w d in Ends r (disk_ops l d) ∧ counted w' (disk_ops l d).
Proof.
  intros Hmax ([b1 Ho1] & [b2 Ho2] & Hfail) Hd Hw. unfold append_ops. rewrite Hfail.
  assert (∀ b w d, ∃ w' l, ensure_open (Opened b) w d = Some (w', l)) as Hopen.
  { intros b w' d'. unfold ensure_open. destruct (file w'); eauto. }
  assert (∀ w d, Holds o d → counted w d → file w = true →
            Ends r (disk_op (WriteText (to_string r ++ [nl])) d)
            ∧ counted (mkWriter (file w) (bytes w + Z.of_nat (length (to_string r)) + 1))
                (disk_op (WriteText (to_string r ++ [nl])) d)) as Hwrite.
  { intros w' d' Hd' Hw' Hf'. split; [by eapply write_ends|]. intros _.
    destruct (Hw' Hf') as (t & Et & Hlen). simpl. rewrite Et. simpl. eexists. split; [done|].
    rewrite !length_app. simpl. lia. }
  destruct (Hopen b1 w d) as (w1 & l1 & E1). rewrite Ho1, E1.
  destruct (open_holds _ _ _ _ _ _ Hd Hw E1) as (Hd1 & Hw1 & Hf1).
  destruct (Z.leb_spec max (bytes w1)) as [Hfull|_].
  2: { simpl. unfold disk_ops. rewrite foldl_app. by apply Hwrite. }
  destruct (Hw1 Hf1) as (t & Et & Hlen). unfold rotate. simpl.
  set (moved := if renamed io then [Rename] else []).
  destruct (Hopen b2 (mkWriter false 0) (disk_ops (l1 ++ moved) d)) as (w2 & l2 & E2). rewrite Ho2, E2.
  assert (Holds o (disk_ops (l1 ++ moved) d)) as Hd2.
  { unfold disk_ops. rewrite foldl_app. subst moved. destruct (renamed io); simpl; [|done].
    apply holds_rename; [done|]. unfold disk_ops in Et. rewrite Et. simpl. intros ->. simpl in Hlen. lia. }
  assert (counted (mkWriter false 0) (disk_ops (l1 ++ moved) d)) as Hw2 by (intros ?; done).
  destruct (open_holds _ _ _ _ _ _ Hd2 Hw2 E2) as (Hd3 & Hw3 & Hf3).
  simpl. rewrite !app_assoc. unfold disk_ops. rewrite foldl_app. simpl.
  unfold disk_ops in Hd3, Hw3. rewrite <-foldl_app in Hd3, Hw3. by apply Hwrite.
Qed.

Lemma live_holds l max o sd :
  (1 ≤ max)%Z → all_fine l → Holds o sd.2 → counted sd.1 sd.2 →
  Holds (last (option_list o ++ appended l)) (live l max sd).2 ∧ counted (live l max sd).1 (live l max sd).2.
Proof.
  intros Hmax. revert o sd. induction l as [|[r io|] l IH]; intros o [w d] Hl Hd Hw; simpl.
  - rewrite app_nil_r. by destruct o.
  - apply Forall_cons in Hl as [[W Hio] Hl].
    pose proof (append_holds o r io max w d Hmax Hio Hd Hw) as Ha.
    destruct (append_ops r io max w d) as [w' ops] eqn:E. destruct Ha as [He Hc].
    assert (last (option_list o ++ r :: appended l) = last (option_list (Some r) ++ appended l)) as ->.
    { by rewrite last_app_cons. }
    by apply IH.
  - apply Forall_cons in Hl as [_ Hl]. by apply IH.
Qed.

Lemma fresh_holds : Holds None fresh.2 ∧ counted fresh.1 fresh.2.
Proof. split; [|done]. split; [by left|done]. Qed.

Lemma last_rendered l r : all_fine l → last (appended l) = Some r → WellRendered r.
Proof.
  intros Hl Hr. apply last_Some_elem_of in Hr. unfold appended in Hr.
  apply list_elem_of_omap in Hr as ([r' io|] & Hx & E); simplify_eq.
  unfold all_fine in Hl. rewrite Forall_forall in Hl. by apply (Hl _ Hx).
Qed.

(** Whatever a daemon appended over its lives, each record whole, the reader finds the last
    one: however often the file was rotated, and whether the renames succeeded or not. *)
Theorem latest_is_last_appended l max :
  (1 ≤ max)%Z → all_fine l → latest (live l max fresh).2 = last (appended l).
Proof.
  intros Hmax Hl. destruct fresh_holds as [Hf Hc].
  destruct (live_holds l max None fresh Hmax Hl Hf Hc) as [Hh _]. simpl in Hh.
  destruct (last (appended l)) as [r|] eqn:E.
  - apply ends_latest; [|done]. by eapply last_rendered.
  - destruct Hh as [Hm Hb]. unfold latest. rewrite empty_read by done. by rewrite Hb.
Qed.

(** C35: After appends that were written whole, from an empty disk, of records that are one short
    line each (within the reader's scan of the tail) and that no prefix of theirs is mistaken for,
    a crash at any point of an append, between the rename and the new file or in the
    middle of the line, loses at most the record it was appending: the reader finds that one
    or the one before. *)
Theorem crash_loses_one_record_at_most l max r0 r io d' :
  (1 ≤ max)%Z → all_fine l → last (appended l) = Some r0 → WellRendered r →
  (let sd := live l max fresh in cut (append_ops r io max sd.1 sd.2).2 sd.2 d') →
  latest d' = Some r0 ∨ latest d' = Some r.
Proof.
  intros Hmax Hl Hr0 W Hcut. destruct fresh_holds as [Hf Hc].
  destruct (live_holds l max None fresh Hmax Hl Hf Hc) as [Hh Hw]. simpl in Hh, Hcut. rewrite Hr0 in Hh.
  pose proof (last_rendered l r0 Hl Hr0) as W0.
  destruct (moves_cut _ _ _ _ _ (append_moves (Some r0) r io max _ _ Hmax Hh Hw) Hcut) as [He|(d1 & k & He & ->)].
  - left. by apply ends_latest.
  - rewrite (torn_latest r0 r k d1) by done. case_decide; auto.
Qed.

(** ** The size of the journal *)

Definition tidy (io : Io) : Prop :=
  opening io = Opened true ∧ reopening io = Opened true ∧ renamed io = true ∧ failing io = None.
Definition line_size r : Z := (Z.of_nat (length (to_string r)) + 1)%Z.
Definition measured w d : Prop := file w = true → bytes w = size (current d).

Lemma append_bounded r io max size0 w d :
  tidy io → (line_size r ≤ size0)%Z → (1 ≤ max)%Z → measured w d →
  (size (current d) < max + size0 ∧ size (backup d) < max + size0)%Z →
  let '(w', l) := append_ops r io max w d in
  measured w' (disk_ops l d)
  ∧ (size (current (disk_ops l d)) < max + size0 ∧ size (backup (disk_ops l d)) < max + size0)%Z.
Proof.
  intros (Ho1 & Ho2 & Hren & Hfail) Hr Hmax Hw [Hc Hb]. unfold append_ops. rewrite Ho1, Ho2, Hren, Hfail.
  assert (∃ w1 l1, ensure_open (Opened true) w d = Some (w1, l1) ∧ bytes w1 = size (current d)
            ∧ file w1 = true ∧ size (current (disk_ops l1 d)) = size (current d)
            ∧ backup (disk_ops l1 d) = backup d) as (w1 & l1 & E1 & Eb & Ef & Es & Eu).
  { unfold ensure_open. destruct (file w) eqn:E.
    - exists w, []. repeat split; [by apply Hw|done].
    - by eexists _, _. }
  rewrite E1. unfold line_size in Hr.
  assert (∀ t u, size (Some (t ++ u)) = (size (Some t) + Z.of_nat (length u))%Z) as Happ.
  { intros t u. unfold size. simpl. rewrite length_app. lia. }
  destruct (Z.leb_spec max (bytes w1)) as [Hfull|Hroom]; simpl.
  - rewrite !disk_ops_app. unfold measured, size in *. simpl. rewrite !length_app. simpl.
    split; [intros _|split]; lia.
  - rewrite disk_ops_app. unfold measured, size in *. simpl. rewrite Eu, !length_app. simpl.
    split; [intros _|split]; lia.
Qed.

(** C36: On a disk that starts empty, with one maximum throughout, files that open, sizes that can
    be read, renames that succeed, no write that fails and lines of at most [size0] bytes,
    neither the journal nor its backup ever holds as much as the maximum and one line. *)
Theorem journal_stays_bounded l max size0 :
  (1 ≤ max)%Z → (0 < size0)%Z →
  Forall (λ x, match x with LAppend r io => tidy io ∧ (line_size r ≤ size0)%Z | LRestart => True end) l →
  let d := (live l max fresh).2 in
  (size (current d) < max + size0 ∧ size (backup d) < max + size0)%Z.
Proof.
  intros Hmax Hs. simpl.
  assert (measured fresh.1 fresh.2) as Hw by done.
  assert (size (current fresh.2) < max + size0 ∧ size (backup fresh.2) < max + size0)%Z as Hb.
  { unfold size. simpl. lia. }
  revert Hw Hb. generalize fresh. induction l as [|[r io|] l IH]; intros [w d] Hw Hb Hl; simpl; [done| |].
  - apply Forall_cons in Hl as [[Hio Hr] Hl]. pose proof (append_bounded r io max size0 w d Hio Hr Hmax Hw Hb) as Ha.
    destruct (append_ops r io max w d) as [w' ops]. destruct Ha as [Ha1 Ha2]. by apply IH.
  - apply Forall_cons in Hl as [_ Hl]. by apply IH.
Qed.

(** ** What the hook tells the journal *)

Definition hooks (version : string) (l : list (CheckpointSnapshot * Io)) (sd : JsonlCheckpointStore * Disk) :
    JsonlCheckpointStore * Disk :=
  foldl (λ sd x, hook version x.1 x.2 sd.1 sd.2) sd l.

(** What the journal says of the last snapshot told. *)
Definition tells (version : string) (l : list CheckpointSnapshot) (x : CheckpointSnapshot)
    (s : JsonlCheckpointStore) d : Prop :=
  match s_exit_status x with
  | Some _ => last_mid_run s = None ∧ Ends (record_of version x) d
  | None =>
      ∃ y, y ∈ l ∧ s_exit_status y = None ∧ s_run_uid y = s_run_uid x
        ∧ (sat_sub64 (s_timestamp_ns x) (s_timestamp_ns y) < mid_run_append_interval_ns)%Z
        ∧ last_mid_run s = Some (s_run_uid y, s_timestamp_ns y) ∧ Ends (record_of version y) d
  end.
Definition Told version (l : list CheckpointSnapshot) (s : JsonlCheckpointStore) d : Prop :=
  counted (writer s) d ∧ (∃ o, Holds o d)
  ∧ match last l with Some x => tells version l x s d | None => last_mid_run s = None end.

Lemma append_told version l x io s d last :
  (1 ≤ max_bytes s)%Z → fine io → Told version l s d →
  last = (match s_exit_status x with Some _ => None | None => Some (s_run_uid x, s_timestamp_ns x) end) →
  let sd := append (record_of version x) io (set_last last s) d in
  Told version (l ++ [x]) sd.1 sd.2.
Proof.
  intros Hmax Hio (Hw & [o Ho] & _) ->. unfold append. simpl.
  pose proof (append_holds o (record_of version x) io (max_bytes s) (writer s) d Hmax Hio Ho Hw) as Ha.
  destruct (append_ops _ io (max_bytes s) (writer s) d) as [w ops]. destruct Ha as [He Hc]. simpl.
  split; [done|]. split; [by eexists (Some _)|]. rewrite last_snoc. unfold tells. simpl.
  destruct (s_exit_status x) eqn:Ex; [done|]. exists x. split; [apply elem_of_app; right; by left|].
  repeat split; try done. unfold sat_sub64, mid_run_append_interval_ns. lia.
Qed.

Lemma hook_told version l x io s d :
  (1 ≤ max_bytes s)%Z → fine io → Told version l s d →
  let sd := hook version x io s d in Told version (l ++ [x]) sd.1 sd.2 ∧ max_bytes sd.1 = max_bytes s.
Proof.
  intros Hmax Hio Ht. unfold hook.
  destruct (coalesce x (last_mid_run s)) as [dropped kept] eqn:Ec.
  assert (∀ last, max_bytes (append (record_of version x) io (set_last last s) d).1 = max_bytes s) as Hm.
  { intros last'. unfold append. by destruct (append_ops _ _ _ _ _). }
  assert (dropped = false →
    kept = (match s_exit_status x with Some _ => None | None => Some (s_run_uid x, s_timestamp_ns x) end)) as Hk.
  { intros ->. unfold coalesce in Ec. repeat case_match; simplify_eq; done. }
  destruct dropped; [|split; [by apply append_told; auto|apply Hm]]. simpl. split; [|done].
  unfold coalesce in Ec. destruct (s_exit_status x) eqn:Ex; [done|].
  destruct (last_mid_run s) as [[uid ts]|] eqn:El; [|done]. case_decide as Hu; [|done].
  destruct (Z.ltb_spec (sat_sub64 (s_timestamp_ns x) ts) mid_run_append_interval_ns) as [Hlt|]; [|done].
  destruct Ht as (Hw & Ho & Hl). split; [done|]. split; [done|]. rewrite last_snoc.
  destruct (last l) as [x0|]; [|congruence]. unfold tells in Hl. unfold tells. rewrite Ex.
  destruct (s_exit_status x0); [destruct Hl; congruence|].
  destruct Hl as (y & Hy & Hye & Hyu & Hyt & Hkept & He). rewrite Hkept in El. simplify_eq.
  exists y. split; [apply elem_of_app; by left|]. done.
Qed.

Lemma hooks_told version l0 l sd :
  Forall (λ xi, WellRendered (record_of version xi.1) ∧ fine xi.2) l →
  (1 ≤ max_bytes sd.1)%Z → Told version l0 sd.1 sd.2 →
  Told version (l0 ++ l.*1) (hooks version l sd).1 (hooks version l sd).2.
Proof.
  revert l0 sd. induction l as [|[y io] l IH]; intros l0 sd Hf Hm Ht; simpl; [by rewrite app_nil_r|].
  apply Forall_cons in Hf as [[_ Hio] Hf]. destruct (hook_told version l0 y io sd.1 sd.2 Hm Hio Ht) as [Ht' Hm'].
  rewrite (cons_middle y), app_assoc. apply IH; [done| |done]. by rewrite Hm'.
Qed.

(** Coalescing does not change what a restart learns: after any snapshots the journal ends
    in an unfinished run exactly when the last of them was taken in the middle of a run with
    an identifier, and it is that run, as it was less than a second before. *)
Theorem unfinished_run_is_the_last_run version l max x :
  Forall (λ xi, WellRendered (record_of version xi.1) ∧ fine xi.2) l → last l.*1 = Some x →
  let d := (hooks version l (with_max_bytes max, mkDisk None None)).2 in
  match s_exit_status x, s_run_uid x with
  | None, Some u =>
      ∃ y, y ∈ l.*1 ∧ unfinished_run d = Some (record_of version y) ∧ s_run_uid y = Some u
        ∧ s_exit_status y = None
        ∧ (sat_sub64 (s_timestamp_ns x) (s_timestamp_ns y) < mid_run_append_interval_ns)%Z
  | _, _ => unfinished_run d = None
  end.
Proof.
  intros Hl Hx. simpl.
  destruct (hooks_told version [] l (with_max_bytes max, mkDisk None None) Hl) as (_ & _ & Ht).
  { simpl. lia. }
  { split; [done|]. split; [|done]. exists None. split; [by left|done]. }
  rewrite app_nil_l, Hx in Ht. set (d := (hooks _ _ _).2) in *.
  assert (∀ y, y ∈ l.*1 → WellRendered (record_of version y)) as HW.
  { intros y (xi & -> & Hxi)%list_elem_of_fmap. rewrite Forall_forall in Hl. by apply Hl. }
  unfold tells in Ht. unfold unfinished_run.
  destruct (s_exit_status x) eqn:Ex.
  - destruct Ht as [_ He]. rewrite (ends_latest (record_of version x)); [|apply HW; by apply last_Some_elem_of|done].
    simpl. by rewrite Ex.
  - destruct Ht as (y & Hy & Hye & Hyu & Hyt & _ & He). rewrite (ends_latest (record_of version y)) by auto.
    simpl. rewrite Hye. simpl. rewrite Hyu. destruct (s_run_uid x) as [u|]; [|done].
    exists y. rewrite bool_decide_true by by eexists. done.
Qed.
End lives.

(** ** Concrete journals *)

Module JournalExample.
Definition q : text := ["034"%char].
Definition str (s : string) : text := String.list_ascii_of_string s.
Definition quoted (s : string) : text := q ++ str s ++ q.
Definition field (k : string) (v : text) : text := quoted k ++ str ":" ++ v.
Definition rendered (r : CheckpointRecord) : text :=
  str "{" ++ field "timestamp_ns" (str (pretty (Z.to_N (timestamp_ns r))))
  ++ str "," ++ field "run_uid" (match run_uid r with Some u => quoted u | None => str "null" end)
  ++ str "," ++ field "bsrs_version" (quoted (bsrs_version r))
  ++ match exit_status r with Some e => str "," ++ field "exit_status" (quoted e) | None => [] end
  ++ str "}".

Definition at_a (ts : Z) : CheckpointSnapshot := mkSnapshot ts (Some "A"%string) None.
Definition end_a (ts : Z) : CheckpointSnapshot := mkSnapshot ts (Some "A"%string) (Some "success"%string).
Definition at_b (ts : Z) : CheckpointSnapshot := mkSnapshot ts (Some "B"%string) None.
Definition known : list CheckpointRecord :=
  record_of "0.1" <$> [at_a 5; end_a 6; at_b 7; at_b 9; at_a 2000000005; at_b 2000000007].
#[export] Instance journal_text : RecordText := {|
  to_string := rendered;
  from_str t := snd <$> list_find (λ r, rendered r = t) known;
|}.

Definition fine_io : Io := mkIo (Opened true) true (Opened true) None.
Lemma fine_io_ok : fine fine_io.
Proof. split; [by eexists|]. split; [by eexists|done]. Defined.

Definition well_rendered (r : CheckpointRecord) : bool :=
  bool_decide (nl ∉ rendered r) && bool_decide (last (rendered r) ≠ Some cr) && negb (blank (rendered r))
  && (2 * length (rendered r) + 2 <=? tail_scan_bytes) && bool_decide (from_str (rendered r) = Some r)
  && forallb (λ k, bool_decide (from_str (take k (rendered r)) = None)) (seq 0 (length (rendered r))).
Lemma well_rendered_ok r : well_rendered r = true → WellRendered r.
Proof.
  unfold well_rendered. rewrite !andb_true_iff. intros [[[[[H1 H2] H3] H4] H5] H6].
  apply bool_decide_eq_true in H1, H2, H5. apply Nat.leb_le in H4. apply negb_true_iff in H3.
  split; try done. intros k Hk. rewrite forallb_forall in H6.
  eapply bool_decide_eq_true, H6, in_seq. split; [lia|exact Hk].
Qed.

Ltac rendered_fine := split; [apply well_rendered_ok; vm_compute; reflexivity|apply fine_io_ok].

(** Records of two runs; a small file, so that each append rotates it. *)
Definition session : list (Life) :=
  [LAppend (record_of "0.1" (at_a 5)) fine_io; LAppend (record_of "0.1" (end_a 6)) fine_io; LRestart;
   LAppend (record_of "0.1" (at_b 7)) fine_io].
Lemma session_fine : all_fine session.
Proof.
  repeat first [apply Forall_nil_2 | apply Forall_cons; split; [try rendered_fine|]]. done.
Qed.

Lemma latest_is_last_appended_witness :
  latest (live session 10 fresh).2 = Some (record_of "0.1" (at_b 7))
  ∧ backup (live session 10 fresh).2 ≠ None.
Proof.
  split; [|by vm_compute].
  rewrite (latest_is_last_appended session 10); [by vm_compute|lia|apply session_fine].
Defined.

(** The daemon dies in the middle of the line, after the rotation. *)
Lemma crash_loses_one_record_at_most_witness :
  let d := disk_op (WriteText (take 9 (rendered (record_of "0.1" (at_a 2000000005)))))
             (disk_op Create (disk_op Rename (live session 10 fresh).2)) in
  latest d = Some (record_of "0.1" (at_b 7)) ∨ latest d = Some (record_of "0.1" (at_a 2000000005)).
Proof.
  intros d.
  apply (crash_loses_one_record_at_most session 10 (record_of "0.1" (at_b 7)) (record_of "0.1" (at_a 2000000005)) fine_io).
  - lia.
  - apply session_fine.
  - by vm_compute.
  - apply well_rendered_ok. by vm_compute.
  - subst d.
    assert ((append_ops (record_of "0.1" (at_a 2000000005)) fine_io 10 (live session 10 fresh).1 (live session 10 fresh).2).2
              = [Rename; Create; WriteText (rendered (record_of "0.1" (at_a 2000000005)) ++ [nl])]) as E by by vm_compute.
    cbv zeta. rewrite E. apply cut_later, cut_later.
    change (take 9 (rendered (record_of "0.1" (at_a 2000000005))))
      with (take 9 (rendered (record_of "0.1" (at_a 2000000005)) ++ [nl])).
    apply cut_write.
Defined.

Lemma journal_stays_bounded_witness :
  let d := (live session 10 fresh).2 in (size (current d) < 10 + 200 ∧ size (backup d) < 10 + 200)%Z.
Proof.
  apply (journal_stays_bounded session 10 200); [lia|lia|].
  repeat first [apply Forall_nil_2 | apply Forall_cons; split; [|]]; try done; by vm_compute.
Defined.

(** A checkpoint coalesced with the one before: the run is still the one left unfinished. *)
Definition told : list (CheckpointSnapshot * Io) := [(at_a 5, fine_io); (end_a 6, fine_io); (at_b 7, fine_io); (at_b 9, fine_io)].
Lemma unfinished_run_is_the_last_run_witness :
  ∃ y, y ∈ told.*1
    ∧ unfinished_run (hooks "0.1" told (with_max_bytes 100, mkDisk None None)).2 = Some (record_of "0.1" y)
    ∧ s_run_uid y = Some "B"%string ∧ s_exit_status y = None
    ∧ (sat_sub64 9 (s_timestamp_ns y) < mid_run_append_interval_ns)%Z.
Proof.
  apply (unfinished_run_is_the_last_run "0.1" told 100 (at_b 9)); [|done].
  repeat first [apply Forall_nil_2 | apply Forall_cons; split; [rendered_fine|]].
Defined.

(** A torn line is not ended before the next record is written: the first record after the
    crash is lost with it. Here the run that was under way when the daemon died closes, and
    is reported as unfinished all the same. *)
Definition torn_disk : Disk :=
  disk_op (WriteText (take 20 (rendered (record_of "0.1" (at_a 2000000005)))))
    (live [LAppend (record_of "0.1" (at_a 5)) fine_io] default_max_bytes fresh).2.
Lemma torn_line_swallows_the_next :
  cut (append_ops (record_of "0.1" (at_a 2000000005)) fine_io default_max_bytes
         (live [LAppend (record_of "0.1" (at_a 5)) fine_io] default_max_bytes fresh).1
         (live [LAppend (record_of "0.1" (at_a 5)) fine_io] default_max_bytes fresh).2).2
    (live [LAppend (record_of "0.1" (at_a 5)) fine_io] default_max_bytes fresh).2 torn_disk
  ∧ let d := (live [LAppend (record_of "0.1" (at_b 7)) fine_io] default_max_bytes (mkWriter false 0, torn_disk)).2 in
    latest d = Some (record_of "0.1" (at_a 5)) ∧ unfinished_run d = Some (record_of "0.1" (at_a 5)).
Proof.
  split; [|by vm_compute]. unfold torn_disk.
  assert ((append_ops (record_of "0.1" (at_a 2000000005)) fine_io default_max_bytes
             (live [LAppend (record_of "0.1" (at_a 5)) fine_io] default_max_bytes fresh).1
             (live [LAppend (record_of "0.1" (at_a 5)) fine_io] default_max_bytes fresh).2).2
            = [WriteText (rendered (record_of "0.1" (at_a 2000000005)) ++ [nl])]) as E by by vm_compute.
  rewrite E.
  change (take 20 (rendered (record_of "0.1" (at_a 2000000005))))
    with (take 20 (rendered (record_of "0.1" (at_a 2000000005)) ++ [nl])).
  apply cut_write.
Qed.
End JournalExample.
