(* ===== verification/Route.v ===== *)
(** * The order of suggested points ([blop/routing.rs])

    A short open path through the points an optimizer suggests: the nearest unvisited point
    first, then reversals of parts of the path as long as one shortens it. The distances are
    doubles, NaN for a point that lacks a coordinate. *)

From Stdlib Require Import SpecFloat.
From S2P Require Import Prelude Interfaces Documents F64 F64Order.

(** ** Distances *)

Definition f64_zero : f64 := 0%Z.
(** The sum of no doubles is -0.0. *)
Definition f64_neg_zero : f64 := sign_bit.
Definition f64_infinity : f64 := (exp_mask * frac_size)%Z.
(** [1e-12]. *)
Definition shorter_by : f64 := 4427486594234968593%Z.

Definition square_of_difference (x y : f64) : f64 := f64_mul (f64_sub x y) (f64_sub x y).
Definition distance (a b : list f64) : f64 :=
  f64_sqrt (foldl f64_add f64_neg_zero (zip_with square_of_difference a b)).

Section route.
(** The points, and where the path starts if that is known. *)
Context (points : list (list f64)) (start : option (list f64)).
Implicit Types (path rest : list nat) (i j k : nat).

Definition n : nat := length points.
Definition point i : list f64 := default [] (points !! i).

(** Node [n] is the anchor. *)
Definition dist i j : f64 :=
  match i =? n, j =? n with
  | true, true => f64_zero
  | true, false => match start with Some s => distance s (point j) | None => f64_zero end
  | false, true => f64_zero
  | false, false => distance (point i) (point j)
  end.

(** ** The nearest neighbour *)

Fixpoint nearest_from (here k : nat) rest (bk : nat) (bd : f64) : nat :=
  match rest with
  | [] => bk
  | j :: rest =>
      let d := dist here j in
      if f64_ltb d bd then nearest_from here (S k) rest k d else nearest_from here (S k) rest bk bd
  end.
Definition nearest (here : nat) rest : nat := nearest_from here 0 rest 0 f64_infinity.

Definition swap_remove k rest : option (nat * list nat) :=
  x ← rest !! k; y ← last rest;
  Some (x, if decide (S k = length rest) then removelast rest else <[k := y]> (removelast rest)).

(** [todo]: how many points are left. *)
Fixpoint construct (todo : nat) (here : nat) rest : list nat :=
  match todo with
  | 0 => []
  | S todo => match swap_remove (nearest here rest) rest with
              | Some (x, rest) => x :: construct todo x rest
              | None => []
              end
  end.

(** ** Reversals *)

Definition node path i : nat := default 0 (path !! i).
Definition edge path i : f64 := dist (node path i) (node path (S i)).
Definition before path i j : f64 :=
  f64_add (dist (node path (i - 1)) (node path i))
    (if S j <? length path then dist (node path j) (node path (S j)) else f64_zero).
Definition after path i j : f64 :=
  f64_add (dist (node path (i - 1)) (node path j))
    (if S j <? length path then dist (node path i) (node path (S j)) else f64_zero).
Definition shorter path i j : bool := f64_ltb (f64_add (after path i j) shorter_by) (before path i j).

Definition reverse_part i j path : list nat := take i path ++ rev (take (S j - i) (drop i path)) ++ drop (S j) path.
Definition improve (p : list nat * bool) (ij : nat * nat) : list nat * bool :=
  let '(path, improved) := p in
  if shorter path ij.1 ij.2 then (reverse_part ij.1 ij.2 path, true) else (path, improved).
(** The pairs of both loops, in order. *)
Definition pairs (len : nat) : list (nat * nat) :=
  i ← seq 1 (len - 2); pair i <$> seq (S i) (len - S i).
Definition pass path : list nat * bool := foldl improve (path, false) (pairs (length path)).

(** Passes until one improves nothing; [None] when [fuel] passes did not suffice. *)
Fixpoint two_opt (fuel : nat) path : option (list nat) :=
  match fuel with
  | 0 => None
  | S fuel => let '(path, improved) := pass path in if improved then two_opt fuel path else Some path
  end.

Definition route_index (fuel : nat) : option (list nat) :=
  if n <? 2 then Some (seq 0 n) else tail <$> two_opt fuel (n :: construct n n (seq 0 n)).
End route.

(** ** Suggestions *)

Section suggestions.
Context `{JsonNumber}.
(** [Value::as_f64] *)
Context (as_f64 : Value → option f64).

(** A [BTreeMap]: its entries in the order of their names. *)
Definition Params : Type := list (string * Value).
Inductive TrialId := TInt (i : Z) | TStr (s : string).
Record Suggestion := mkSuggestion { id : TrialId; params : Params }.
Implicit Types (s : Suggestion).

Definition is_number (v : Value) : bool := match v with VNumber _ => true | _ => false end.
Definition dims s : list string := (filter (λ kv, is_number kv.2 = true) (params s)).*1.
Definition coords (ds : list string) (p : Params) : list f64 :=
  (λ d, default quiet_nan (assoc_get d p ≫= as_f64)) <$> ds.

(** [None]: a slot that is out of range or has been taken already. *)
Fixpoint take_slots (order : list nat) (slots : list (option Suggestion)) : option (list Suggestion) :=
  match order with
  | [] => Some []
  | i :: order =>
      match slots !! i with
      | Some (Some s) => l ← take_slots order (<[i := None]> slots); Some (s :: l)
      | _ => None
      end
  end.

Definition route_suggestions (fuel : nat) (suggestions : list Suggestion) (starting_position : option Params) :
    option (list Suggestion) :=
  if length suggestions <? 2 then Some suggestions
  else match suggestions with
       | [] => Some []
       | s :: _ =>
           if decide (dims s = []) then Some suggestions
           else order ← route_index (coords (dims s) ∘ params <$> suggestions) (coords (dims s) <$> starting_position) fuel;
                take_slots order (Some <$> suggestions)
       end.
End suggestions.

(** * A permutation *)

Lemma swap_remove_perm k l x l' : swap_remove k l = Some (x, l') → l ≡ₚ x :: l'.
Proof.
  unfold swap_remove. intros Hs. apply bind_Some in Hs as (x' & Hx & Hs). apply bind_Some in Hs as (y & Hy & Hs).
  assert (k < length l) as Hk by by eapply lookup_lt_Some.
  apply last_Some in Hy as [l0 ->]. rewrite removelast_last in Hs. rewrite length_app in *. simpl in *.
  case_decide as Hl; injection Hs as <- <-.
  - rewrite lookup_app_r in Hx by lia. replace (k - length l0) with 0 in Hx by lia. injection Hx as ->.
    by rewrite Permutation_app_comm.
  - rewrite lookup_app_l in Hx by lia. rewrite (insert_take_drop l0 k y) by lia.
    rewrite <-(take_drop_middle l0 k x' Hx) at 1. rewrite <-!app_assoc. simpl. solve_Permutation.
Qed.
Lemma swap_remove_some k l : k < length l → ∃ x l', swap_remove k l = Some (x, l').
Proof.
  intros Hk. unfold swap_remove. destruct (lookup_lt_is_Some_2 l k Hk) as [x ->].
  destruct (last l) as [y|] eqn:E; [|apply last_None in E as ->; simpl in Hk; lia]. by eexists _, _.
Qed.

Section routes.
Context (points : list (list f64)) (start : option (list f64)).
Notation anchor := (n points).
Notation dist := (dist points start).

Lemma nearest_from_bound here k l bk bd :
  bk < k + length l ∨ l = [] → nearest_from points start here k l bk bd < k + length l ∨ nearest_from points start here k l bk bd = bk.
Proof.
  revert k bk bd. induction l as [|j l IH]; intros k bk bd Hb; simpl; [by right|].
  case_match.
  - destruct (IH (S k) k (dist here j)) as [H1|H1]; [destruct l; [by right|left; simpl; lia]|left; lia|left; rewrite H1; lia].
  - destruct (IH (S k) bk bd) as [H1|H1]; [|left; lia|by right].
    destruct l; [by right|left]. destruct Hb as [Hb|]; [simpl in *; lia|done].
Qed.
Lemma nearest_bound here l : l ≠ [] → nearest points start here l < length l.
Proof.
  intros Hl. unfold nearest. assert (0 < length l) by (destruct l; [done|simpl; lia]).
  destruct (nearest_from_bound here 0 l 0 f64_infinity) as [|E]; [by left|done|]. by rewrite E.
Qed.

Lemma construct_perm m here l : length l = m → construct points start m here l ≡ₚ l.
Proof.
  revert here l. induction m as [|m IH]; intros here l Hl; simpl; [by destruct l|].
  assert (l ≠ []) as Hne by by destruct l.
  destruct (swap_remove_some (nearest points start here l) l (nearest_bound here l Hne)) as (x & l' & Hs).
  rewrite Hs. pose proof (swap_remove_perm _ _ _ _ Hs) as Hp. rewrite Hp.
  constructor. apply IH. apply Permutation_length in Hp. simpl in Hp. lia.
Qed.

Lemma reverse_part_perm i j p : i ≤ S j → reverse_part i j p ≡ₚ p.
Proof.
  intros Hij. unfold reverse_part. rewrite <-(Permutation_rev (take (S j - i) (drop i p))).
  rewrite <-(take_drop i p) at 4. apply Permutation_app_head.
  rewrite <-(take_drop (S j - i) (drop i p)) at 2. rewrite drop_drop. by replace (i + (S j - i)) with (S j) by lia.
Qed.

(** ** The length of a path *)

Lemma foldl_add_zip_comm (a b : list f64) x :
  foldl f64_add x (zip_with square_of_difference a b) = foldl f64_add x (zip_with square_of_difference b a).
Proof.
  revert b x. induction a as [|y a IH]; intros [|z b] x; simpl; [done..|].
  assert (square_of_difference y z = square_of_difference z y) as -> by apply sub_square_comm. apply IH.
Qed.
Lemma distance_comm a b : distance a b = distance b a.
Proof. unfold distance. by rewrite foldl_add_zip_comm. Qed.

Lemma dist_kind i j : nonneg_or_nan (of_bits (dist i j)).
Proof.
  assert (nonneg_or_nan (of_bits f64_zero)) by by right.
  unfold Route.dist. repeat case_match; try done; apply f64_sqrt_nonneg.
Qed.

(** A length in units of the smallest positive double. *)
Definition len i j : Z := f64_rank (dist i j).
Fixpoint cost (p : list nat) : Z :=
  match p with
  | i :: ((j :: _) as p') => (len i j + cost p')%Z
  | _ => 0%Z
  end.
Definition link (a b : option nat) : Z := match a, b with Some i, Some j => len i j | _, _ => 0%Z end.

Lemma len_nonneg i j : (0 ≤ len i j)%Z.
Proof.
  unfold len, f64_rank. destruct (dist_kind i j) as [->|Hn]; [done|]. destruct (rank_bounds _ Hn). lia.
Qed.
Lemma cost_nonneg p : (0 ≤ cost p)%Z.
Proof.
  induction p as [|i [|j p] IH]; simpl; [done..|]. pose proof (len_nonneg i j). simpl in IH. lia.
Qed.

Lemma cost_app p q : cost (p ++ q) = (cost p + link (last p) (head q) + cost q)%Z.
Proof.
  induction p as [|i [|j p] IH]; simpl; [done| |].
  - destruct q; simpl; lia.
  - simpl in IH. rewrite IH. lia.
Qed.
Lemma len_comm i j : i ≠ anchor → j ≠ anchor → len i j = len j i.
Proof.
  intros Hi Hj. unfold len, Route.dist. destruct (Nat.eqb_spec i anchor), (Nat.eqb_spec j anchor); try done.
  by rewrite distance_comm.
Qed.
Lemma cost_rev p : anchor ∉ p → cost (rev p) = cost p.
Proof.
  induction p as [|i p IH]; [done|]. intros Hn. apply not_elem_of_cons in Hn as [Hi Hn].
  simpl. rewrite cost_app, IH by done. simpl. destruct p as [|j p]; [done|].
  assert (last (rev (j :: p)) = Some j) as -> by (simpl; by rewrite last_snoc).
  apply not_elem_of_cons in Hn as [Hj _].
  simpl. rewrite (len_comm j i); [lia|by intros ->..].
Qed.

Lemma add_not_nan a b :
  of_bits (f64_add a b) ≠ S754_nan → of_bits a ≠ S754_nan ∧ of_bits b ≠ S754_nan.
Proof.
  unfold f64_add, binop. intros Hn. split; intros E; apply Hn; rewrite E; [by destruct (of_bits b)|].
  by destruct (of_bits a).
Qed.
Lemma ltb_not_nan a b : f64_ltb a b = true → of_bits a ≠ S754_nan ∧ of_bits b ≠ S754_nan.
Proof.
  unfold f64_ltb, SFltb. intros Hlt. split; intros E; rewrite E in Hlt; [done|]. by destruct (of_bits a).
Qed.

(** A reversal that the doubles say shortens the path does shorten it. *)
Lemma shorter_len a b c d :
  nonneg_or_nan (of_bits a) → nonneg_or_nan (of_bits b) → nonneg_or_nan (of_bits c) → nonneg_or_nan (of_bits d) →
  f64_ltb (f64_add (f64_add c d) shorter_by) (f64_add a b) = true →
  (f64_rank c + f64_rank d < f64_rank a + f64_rank b)%Z.
Proof.
  intros Ha Hb Hc Hd Hlt. destruct (ltb_not_nan _ _ Hlt) as [H1 H2].
  apply add_not_nan in H1 as [H1 _]. apply add_not_nan in H1 as [H1c H1d]. apply add_not_nan in H2 as [H2a H2b].
  destruct Ha, Hb, Hc, Hd; try done. apply (f64_sum_decreases a b c d shorter_by); try done.
Qed.

Lemma node_take i p : i < length p → last (take (S i) p) = Some (node p i).
Proof.
  intros Hi. unfold node. destruct (lookup_lt_is_Some_2 p i Hi) as [x Hx]. rewrite Hx.
  rewrite (take_S_r p i x Hx). by rewrite last_snoc.
Qed.
Lemma node_drop i p : i < length p → head (drop i p) = Some (node p i).
Proof.
  intros Hi. unfold node. destruct (lookup_lt_is_Some_2 p i Hi) as [x Hx]. rewrite Hx.
  by rewrite (drop_S p x i Hx).
Qed.

Lemma reversal_shortens p i j :
  1 ≤ i → i < j → j < length p → anchor ∉ drop 1 p →
  shorter points start p i j = true → (cost (reverse_part i j p) < cost p)%Z.
Proof.
  intros Hi Hij Hj Hn Hs. unfold reverse_part. set (mid := take (S j - i) (drop i p)).
  assert (p = take i p ++ mid ++ drop (S j) p) as Ep.
  { subst mid. rewrite <-(take_drop i p) at 1. f_equal. rewrite <-(take_drop (S j - i) (drop i p)) at 1.
    rewrite drop_drop. by replace (i + (S j - i)) with (S j) by lia. }
  assert (anchor ∉ mid) as Hnm.
  { intros Hin. apply Hn. replace (drop i p) with (drop (i - 1) (drop 1 p)) in Hin by (rewrite drop_drop; f_equal; lia).
    rewrite <-(take_drop (i - 1) (drop 1 p)). apply elem_of_app. right. subst mid.
    replace (drop i p) with (drop (i - 1) (drop 1 p)) in Hin by (rewrite drop_drop; f_equal; lia).
    rewrite <-(take_drop (S j - i) (drop (i - 1) (drop 1 p))). apply elem_of_app. by left. }
  assert (last (take i p) = Some (node p (i - 1))) as El.
  { replace i with (S (i - 1)) at 1 by lia. apply node_take. lia. }
  assert (head mid = Some (node p i)) as Eh.
  { subst mid. pose proof (node_drop i p ltac:(lia)) as E. destruct (drop i p) as [|x l]; [done|].
    replace (S j - i) with (S (j - i)) by lia. done. }
  assert (last mid = Some (node p j)) as Em.
  { pose proof (node_take j p Hj) as E. replace (take (S j) p) with (take i p ++ mid) in E.
    - rewrite last_app in E. destruct (last mid) eqn:E2; [done|]. apply last_None in E2. by rewrite E2 in Eh.
    - subst mid. rewrite <-(take_drop i (take (S j) p)). rewrite take_take, skipn_firstn_comm.
      f_equal. f_equal. lia. }
  assert (∀ l : list nat, last (rev l) = head l) as Hlr.
  { intros l. destruct l as [|x l]; [done|]. simpl. apply last_snoc. }
  assert (head (rev mid) = last mid) as Hhr by by rewrite <-Hlr, rev_involutive.
  assert (cost p = cost (take i p ++ mid ++ drop (S j) p)) as -> by by rewrite <-Ep.
  assert (∀ m, m ≠ [] → cost (take i p ++ m ++ drop (S j) p) =
            (cost (take i p) + link (last (take i p)) (head m) + cost m + link (last m) (head (drop (S j) p))
             + cost (drop (S j) p))%Z) as Hcost.
  { intros m Hm. rewrite !cost_app. destruct m; [done|]. simpl. lia. }
  assert (mid ≠ []) as Hne by (intros E; by rewrite E in Eh).
  rewrite !Hcost by (done || (intros E; apply Hne; by apply (f_equal (@rev _)) in E; rewrite rev_involutive in E)).
  rewrite cost_rev, El, Hlr, Hhr, Eh, Em by done.
  unfold shorter, before, after in Hs. 
  assert (nonneg_or_nan (of_bits f64_zero)) as H0 by by right.
  destruct (Nat.ltb_spec (S j) (length p)) as [Hlast|Hlast].
  - rewrite (node_drop (S j)) by lia. apply shorter_len in Hs; [|apply dist_kind..]. simpl. unfold len. lia.
  - rewrite drop_ge by lia. apply shorter_len in Hs; [|done || apply dist_kind..]. simpl. unfold len.
    change (f64_rank f64_zero) with 0%Z in Hs. lia.
Qed.

(** ** Passes *)

Lemma elem_of_pairs l i j : (i, j) ∈ pairs l ↔ 1 ≤ i ∧ i < j ∧ j < l.
Proof.
  unfold pairs. rewrite list_elem_of_bind. split.
  - intros (i' & Hj & Hi). apply list_elem_of_fmap in Hj as (j' & E & Hj). simplify_eq.
    rewrite elem_of_seq in Hi, Hj. lia.
  - intros (Hi & Hij & Hj). exists i. split; [|rewrite elem_of_seq; lia].
    apply list_elem_of_fmap. exists j. split; [done|]. rewrite elem_of_seq. lia.
Qed.

Lemma reverse_part_cons i j a q :
  1 ≤ i → i ≤ S j → ∃ q', reverse_part i j (a :: q) = a :: q' ∧ q' ≡ₚ q.
Proof.
  intros Hi Hij. pose proof (reverse_part_perm i j (a :: q) Hij) as Hp.
  destruct i as [|i]; [lia|]. unfold reverse_part in *. simpl in *. eexists. split; [done|].
  by apply Permutation_cons_inv in Hp.
Qed.

(** Some of the pairs of a pass: the path is left alone, none of them shortening it, or it
    is a shorter one. *)
Lemma improve_all l q b :
  (∀ i j, (i, j) ∈ l → 1 ≤ i ∧ i < j ∧ j < S (length q)) → anchor ∉ q →
  ∃ q', q' ≡ₚ q ∧ (foldl (improve points start) (anchor :: q, b) l).1 = anchor :: q'
    ∧ ((foldl (improve points start) (anchor :: q, b) l).2 = b ∧ q' = q
       ∧ (∀ i j, (i, j) ∈ l → shorter points start (anchor :: q) i j = false)
       ∨ (foldl (improve points start) (anchor :: q, b) l).2 = true ∧ (cost (anchor :: q') < cost (anchor :: q))%Z).
Proof.
  revert q b. induction l as [|[i j] l IH]; intros q b Hl Hn.
  { exists q. split; [done|]. split; [done|]. left. repeat split. by intros ?? ?%not_elem_of_nil. }
  destruct (Hl i j) as (Hi & Hij & Hj); [by left|]. cbn [foldl improve fst snd].
  destruct (shorter points start (anchor :: q) i j) eqn:Es.
  - pose proof (reversal_shortens (anchor :: q) i j Hi Hij ltac:(simpl; lia) Hn Es) as Hlt.
    destruct (reverse_part_cons i j anchor q) as (q1 & E1 & P1); [lia..|]. rewrite E1 in Hlt |- *.
    destruct (IH q1 true) as (q2 & P2 & E2 & H2).
    { intros i' j' Hin. rewrite P1. apply Hl. by right. }
    { by rewrite P1. }
    exists q2. split; [by rewrite P2|]. split; [done|]. right.
    destruct H2 as [(-> & -> & _)|(-> & H2)]; (split; [done|lia]).
  - destruct (IH q b) as (q2 & P2 & E2 & H2); [intros i' j' Hin; apply Hl; by right|done|].
    exists q2. split; [done|]. split; [done|]. destruct H2 as [(H2 & -> & Hno)|H2]; [left|by right].
    split; [done|]. split; [done|]. intros i' j' [?|Hin]%elem_of_cons; [by simplify_eq|by apply Hno].
Qed.

(** A path no reversal shortens. *)
Definition two_optimal (p : list nat) : Prop :=
  ∀ i j, 1 ≤ i → i < j → j < length p → shorter points start p i j = false.

Lemma pass_spec q :
  anchor ∉ q →
  ∃ q', q' ≡ₚ q ∧ (pass points start (anchor :: q)).1 = anchor :: q'
    ∧ ((pass points start (anchor :: q)).2 = false ∧ q' = q ∧ two_optimal (anchor :: q)
       ∨ (pass points start (anchor :: q)).2 = true ∧ (cost (anchor :: q') < cost (anchor :: q))%Z).
Proof.
  intros Hn. destruct (improve_all (pairs (length (anchor :: q))) q false) as (q' & P & E & Hc); [|done|].
  { intros i j Hin. by apply elem_of_pairs in Hin. }
  exists q'. split; [done|]. split; [done|]. destruct Hc as [(H1 & H2 & H3)|Hc]; [left|by right].
  split; [done|]. split; [done|]. intros i j Hi Hij Hj. by apply H3, elem_of_pairs.
Qed.

Lemma two_opt_spec q :
  anchor ∉ q →
  ∃ fuel r, r ≡ₚ q ∧ two_optimal (anchor :: r)
    ∧ ∀ f, fuel ≤ f → two_opt points start f (anchor :: q) = Some (anchor :: r).
Proof.
  remember (Z.to_nat (cost (anchor :: q))) as m eqn:Em. revert q Em.
  induction (lt_wf m) as [m _ IH]. intros q -> Hn.
  destruct (pass_spec q Hn) as (q1 & P1 & E1 & [(F1 & -> & Hopt)|[F1 Hlt]]).
  - exists 1, q. split; [done|]. split; [done|]. intros [|f] Hf; [lia|]. cbn [two_opt].
    rewrite (surjective_pairing (pass points start (anchor :: q))), F1, E1. done.
  - pose proof (cost_nonneg (anchor :: q1)).
    destruct (IH (Z.to_nat (cost (anchor :: q1))) ltac:(lia) q1 eq_refl) as (fuel & r & P & Hopt & Hf); [by rewrite P1|].
    exists (S fuel), r. split; [by rewrite P|]. split; [done|]. intros [|f] Hle; [lia|]. cbn [two_opt].
    rewrite (surjective_pairing (pass points start (anchor :: q))), F1, E1. apply Hf. lia.
Qed.

(** Whatever doubles the coordinates are, the reversals come to an end: from some fuel on
    the route is the same, it visits every point once, and no further reversal would
    shorten it. *)
Theorem route_index_terminates :
  ∃ fuel route, route ≡ₚ seq 0 anchor ∧ (2 ≤ anchor → two_optimal (anchor :: route))
    ∧ ∀ f, fuel ≤ f → route_index points start f = Some route.
Proof.
  unfold route_index. destruct (Nat.ltb_spec anchor 2) as [Hlt|Hge].
  { exists 0, (seq 0 anchor). split; [done|]. split; [lia|done]. }
  pose proof (construct_perm anchor anchor (seq 0 anchor) ltac:(by rewrite length_seq)) as Hp.
  destruct (two_opt_spec (construct points start anchor anchor (seq 0 anchor))) as (fuel & r & P & Hopt & Hf).
  { rewrite Hp, elem_of_seq. lia. }
  exists fuel, r. split; [by rewrite P|]. split; [done|]. intros f Hle. by rewrite Hf.
Qed.
End routes.

(** ** Points that lack a coordinate *)

Definition nan (a : f64) : Prop := of_bits a = S754_nan.
Lemma not_less_than_nan a b : nan a → f64_ltb a b = false.
Proof. unfold nan, f64_ltb, SFltb. by intros ->. Qed.
Lemma nan_add a b : nan a ∨ nan b → nan (f64_add a b).
Proof. unfold nan, f64_add, binop. intros [-> | ->]; [by destruct (of_bits b)|by destruct (of_bits a)]. Qed.
Lemma nan_square a b : nan a ∨ nan b → nan (square_of_difference a b).
Proof.
  intros Hab. assert (nan (f64_sub a b)) as Hd.
  { unfold nan, f64_sub, binop in *. destruct Hab as [-> | ->]; [by destruct (of_bits b)|by destruct (of_bits a)]. }
  unfold square_of_difference, nan, f64_mul, binop in *. by rewrite Hd.
Qed.
Lemma nan_sum l x : nan x ∨ Exists nan l → nan (foldl f64_add x l).
Proof.
  revert x. induction l as [|y l IH]; intros x Hx; simpl; [destruct Hx as [|Hx]; [done|by inversion Hx]|].
  apply IH. destruct Hx as [Hx|Hx]; [left; by apply nan_add; left|].
  inversion Hx; subst; [left; by apply nan_add; right|by right].
Qed.
Lemma nan_distance a b : length a = length b → Exists nan a ∨ Exists nan b → nan (distance a b).
Proof.
  intros Hl Hab. assert (Exists nan (zip_with square_of_difference a b)) as He.
  { revert b Hl Hab. induction a as [|x a IH]; intros [|y b] Hl Hab; simplify_eq/=.
    - destruct Hab as [Hab|Hab]; by inversion Hab.
    - rewrite !Exists_cons in Hab. rewrite Exists_cons.
      destruct Hab as [[Hx|Ha]|[Hy|Hb]]; [left; apply nan_square; by left|right; apply IH; auto|
        left; apply nan_square; by right|right; apply IH; auto]. }
  unfold distance, nan, f64_sqrt, unop. rewrite (nan_sum _ f64_neg_zero); [done|by right].
Qed.

Section incomplete.
Context (points : list (list f64)) (s : list f64).
Notation anchor := (n points).
Notation dist := (dist points (Some s)).
Definition complete i : Prop := ¬ Exists nan (point points i).
#[local] Instance nan_dec a : Decision (nan a).
Proof. unfold nan. destruct (of_bits a); [right|right|left|right]; done. Defined.
#[local] Instance complete_dec i : Decision (complete i) := _.

(** Where the path starts is known, and the points that are complete are at a distance. *)
Hypothesis same_length : ∀ p, p ∈ points → length p = length s.
Hypothesis finite_distances : ∀ i j, i < anchor → j < anchor → complete i → complete j →
  f64_ltb (distance (point points i) (point points j)) f64_infinity = true.
Hypothesis finite_from_start : ∀ j, j < anchor → complete j → f64_ltb (distance s (point points j)) f64_infinity = true.

Definition good i : Prop := i = anchor ∨ i < anchor ∧ complete i.

Lemma point_length i : i < anchor → length (point points i) = length s.
Proof.
  intros Hi. unfold point. destruct (lookup_lt_is_Some_2 points i Hi) as [p Hp]. rewrite Hp.
  by eapply same_length, list_elem_of_lookup_2.
Qed.
Lemma dist_incomplete i j : i ≤ anchor → j < anchor → ¬ complete j → nan (dist i j).
Proof.
  intros Hi Hj Hn. apply dec_stable in Hn. unfold Route.dist.
  destruct (Nat.eqb_spec j anchor); [lia|]. destruct (Nat.eqb_spec i anchor).
  - apply nan_distance; [by rewrite point_length|by right].
  - apply nan_distance; [by rewrite !point_length by lia|by right].
Qed.
Lemma dist_from_incomplete i j : i < anchor → j < anchor → ¬ complete i → nan (dist i j).
Proof.
  intros Hi Hj Hn. apply dec_stable in Hn. unfold Route.dist.
  destruct (Nat.eqb_spec j anchor); [lia|]. destruct (Nat.eqb_spec i anchor); [lia|].
  apply nan_distance; [by rewrite !point_length by lia|by left].
Qed.
Lemma dist_finite i j : good i → j < anchor → complete j → f64_ltb (dist i j) f64_infinity = true.
Proof.
  intros Hi Hj Hc. unfold Route.dist. destruct (Nat.eqb_spec j anchor); [lia|].
  destruct (Nat.eqb_spec i anchor); [by apply finite_from_start|]. destruct Hi as [|[Hi Hci]]; [done|].
  by apply finite_distances.
Qed.

Lemma nearest_from_complete here k l bk bd :
  here ≤ anchor → Forall (λ j, j < anchor) l →
  let r := nearest_from points (Some s) here k l bk bd in
  r = bk ∨ ∃ m j, r = k + m ∧ l !! m = Some j ∧ complete j.
Proof.
  intros Hh. revert k bk bd. induction l as [|j l IH]; intros k bk bd Hl; simpl; [by left|].
  apply Forall_cons in Hl as [Hj Hl]. destruct (f64_ltb (dist here j) bd) eqn:E.
  - destruct (decide (complete j)) as [Hc|Hc].
    2: { by rewrite not_less_than_nan in E by by apply dist_incomplete. }
    right. destruct (IH (S k) k (dist here j) Hl) as [->|(m & j' & -> & ? & ?)].
    + exists 0, j. split; [lia|done].
    + exists (S m), j'. split; [lia|done].
  - destruct (IH (S k) bk bd Hl) as [->|(m & j' & -> & ? & ?)]; [by left|].
    right. exists (S m), j'. split; [lia|done].
Qed.
Lemma nearest_complete here k l bk :
  good here → Forall (λ j, j < anchor) l → Exists complete l →
  ∃ m j, nearest_from points (Some s) here k l bk f64_infinity = k + m ∧ l !! m = Some j ∧ complete j.
Proof.
  intros Hh. assert (here ≤ anchor) as Hle by (destruct Hh; lia).
  revert k. induction l as [|j l IH]; intros k Hl He; [by inversion He|]. simpl.
  apply Forall_cons in Hl as [Hj Hl]. destruct (decide (complete j)) as [Hc|Hc].
  - rewrite dist_finite by done.
    destruct (nearest_from_complete here (S k) l k (dist here j) Hle Hl) as [->|(m & j' & -> & ? & ?)].
    + exists 0, j. split; [lia|done].
    + exists (S m), j'. split; [lia|done].
  - rewrite not_less_than_nan by by apply dist_incomplete. apply Exists_cons in He as [|He]; [done|].
    destruct (IH (S k) Hl He) as (m & j' & -> & ? & ?). exists (S m), j'. split; [lia|done].
Qed.

(** The complete points, then the others. *)
Definition completed_first p : Prop := ∃ a b, p = a ++ b ∧ Forall complete a ∧ Forall (λ j, ¬ complete j) b.

Lemma construct_completed m here l :
  good here → length l = m → Forall (λ j, j < anchor) l → completed_first (construct points (Some s) m here l).
Proof.
  revert here l. induction m as [|m IH]; intros here l Hh Hm Hl.
  { exists [], []. by split. }
  destruct (decide (Exists complete l)) as [He|Hno].
  - destruct (nearest_complete here 0 l 0 Hh Hl He) as (k & x & Hk & Hx & Hc). simpl. unfold nearest.
    rewrite Hk, Nat.add_0_l. destruct (swap_remove_some k l ltac:(by eapply lookup_lt_Some)) as (x' & l' & Hs). rewrite Hs.
    assert (x' = x) as ->.
    { unfold swap_remove in Hs. rewrite Hx in Hs. apply bind_Some in Hs as (y & Hy & Hs). simplify_eq.
      by apply bind_Some in Hs as (z & _ & ?); simplify_eq. }
    pose proof (swap_remove_perm _ _ _ _ Hs) as Hp. rewrite Hp in Hl. apply Forall_cons in Hl as [Hxn Hl'].
    destruct (IH x l') as (a & b & E & Ha & Hb); [by right| |done|].
    { apply Permutation_length in Hp. simpl in Hp. lia. }
    exists (x :: a), b. rewrite E. split; [done|]. split; [by constructor|done].
  - exists [], (construct points (Some s) (S m) here l). split; [done|]. split; [done|].
    rewrite (construct_perm points (Some s) (S m) here l Hm). by apply Forall_Exists_neg.
Qed.

Lemma improve_completed q b ij :
  1 ≤ ij.1 → ij.1 < ij.2 → ij.2 < S (length q) → Forall (λ j, j < anchor) q → completed_first q →
  ∃ q', (improve points (Some s) (anchor :: q, b) ij).1 = anchor :: q' ∧ completed_first q' ∧ q' ≡ₚ q.
Proof.
  destruct ij as [i j]. cbn [fst snd]. intros Hi Hij Hj Hq (u & v & -> & Hu & Hv). cbn [improve fst snd].
  destruct (shorter points (Some s) (anchor :: u ++ v) i j) eqn:Es; [|by exists (u ++ v); repeat split; [by exists u, v|]].
  assert (∀ k, 1 ≤ k → k ≤ j → node (anchor :: u ++ v) k < anchor) as Hlt.
  { intros k Hk Hkj. destruct k as [|k]; [lia|]. unfold node. simpl.
    destruct (lookup_lt_is_Some_2 (u ++ v) k ltac:(simpl in Hj; lia)) as [x Hx]. rewrite Hx. simpl.
    rewrite Forall_lookup in Hq. by eapply Hq. }
  assert (complete (node (anchor :: u ++ v) j)) as Hcj.
  { unfold shorter in Es. apply ltb_not_nan in Es as [Es _]. apply add_not_nan in Es as [Es _].
    unfold after in Es. apply add_not_nan in Es as [Es _].
    destruct (decide (complete (node (anchor :: u ++ v) j))) as [|Hn]; [done|].
    destruct Es. apply dist_incomplete; [|apply Hlt; lia|done].
    destruct (decide (i = 1)) as [->|]; [done|]. apply Nat.lt_le_incl, Hlt; lia. }
  assert (j ≤ length u) as Hju.
  { destruct (decide (j ≤ length u)) as [|Hgt]; [done|]. destruct j as [|j]; [lia|].
    unfold node in Hcj. simpl in Hcj, Hj. rewrite lookup_app_r in Hcj by lia.
    destruct (lookup_lt_is_Some_2 v (j - length u)) as [x Hx]; [rewrite length_app in Hj; lia|]. rewrite Hx in Hcj.
    rewrite Forall_lookup in Hv. by destruct (Hv _ _ Hx). }
  destruct (reverse_part_cons i j anchor u ltac:(lia) ltac:(lia)) as (u' & E & P).
  exists (u' ++ v). split; [|split; [|by rewrite P]].
  - cbn [fst]. change (anchor :: u' ++ v) with ((anchor :: u') ++ v). rewrite <-E. unfold reverse_part. change (anchor :: u ++ v) with ((anchor :: u) ++ v).
    rewrite take_app_le, !drop_app_le by (simpl; lia).
    rewrite take_app_le by (rewrite length_drop; simpl; lia). by rewrite <-!app_assoc.
  - exists u', v. split; [done|]. by rewrite P.
Qed.
Lemma improves_completed l q b :
  (∀ i j, (i, j) ∈ l → 1 ≤ i ∧ i < j ∧ j < S (length q)) → Forall (λ j, j < anchor) q → completed_first q →
  ∃ q', (foldl (improve points (Some s)) (anchor :: q, b) l).1 = anchor :: q' ∧ completed_first q' ∧ q' ≡ₚ q.
Proof.
  revert q b. induction l as [|[i j] l IH]; intros q b Hl Hq Hc; [by exists q|].
  destruct (Hl i j) as (Hi & Hij & Hj); [by left|].
  destruct (improve_completed q b (i, j) Hi Hij Hj Hq Hc) as (q1 & E1 & Hc1 & P1). cbn [foldl].
  destruct (improve points (Some s) (anchor :: q, b) (i, j)) as [p1 b1]. simpl in E1. subst p1.
  destruct (IH q1 b1) as (q2 & E2 & Hc2 & P2).
  - intros i' j' Hin. rewrite P1. apply Hl. by right.
  - by rewrite P1.
  - done.
  - exists q2. split; [done|]. split; [done|]. by rewrite P2.
Qed.

Lemma two_opt_completed f q r :
  Forall (λ j, j < anchor) q → completed_first q → two_opt points (Some s) f (anchor :: q) = Some r →
  completed_first (tail r).
Proof.
  revert q. induction f as [|f IH]; intros q Hq Hc Hr; [done|]. cbn [two_opt] in Hr.
  destruct (improves_completed (pairs (length (anchor :: q))) q false) as (q' & E & Hc' & P); [|done..|].
  { intros i j Hin. by apply elem_of_pairs in Hin. }
  unfold pass in Hr. destruct (foldl _ _ _) as [p1 b1]. simpl in E. subst p1.
  destruct b1; [|by simplify_eq]. apply IH in Hr; [done|by rewrite P|done].
Qed.

(** A suggestion that misses a coordinate is visited last: with a start, and distances that
    do not overflow, the points that have all coordinates come first. *)
Theorem incomplete_points_come_last f route :
  route_index points (Some s) f = Some route → completed_first route.
Proof.
  unfold route_index. destruct (Nat.ltb_spec anchor 2) as [Hlt|Hge].
  - intros ?. simplify_eq. destruct (Nat.eq_dec anchor 0) as [->|]; [by exists [], []|].
    replace anchor with 1 by lia. destruct (decide (complete 0)); [exists [0], []|exists [], [0]]; repeat constructor; done.
  - intros Hr. apply fmap_Some in Hr as (r & Hr & ->).
    assert (Forall (λ j, j < anchor) (seq 0 anchor)) as Hseq.
    { apply Forall_forall. intros j Hj. rewrite elem_of_seq in Hj. lia. }
    eapply two_opt_completed; [| |done].
    + by rewrite (construct_perm points (Some s) anchor anchor (seq 0 anchor)) by by rewrite length_seq.
    + apply construct_completed; [by left|by rewrite length_seq|done].
Qed.
End incomplete.

(** * Suggestions *)

Section suggested.
Context `{JsonNumber} (as_f64 : Value → option f64).
Implicit Types (ss : list Suggestion).

Lemma omap_lookup_seq (ss pre : list Suggestion) :
  omap (λ i, (pre ++ ss) !! i) (seq (length pre) (length ss)) = ss.
Proof.
  revert pre. induction ss as [|s ss IH]; intros pre; [done|]. simpl.
  rewrite list_lookup_middle by done. f_equal.
  specialize (IH (pre ++ [s])). rewrite <-app_assoc, length_app in IH. simpl in IH. by rewrite Nat.add_1_r in IH.
Qed.

Lemma take_slots_all ss order slots :
  NoDup order → (∀ i, i ∈ order → ∃ s, ss !! i = Some s ∧ slots !! i = Some (Some s)) →
  take_slots order slots = Some (omap (λ i, ss !! i) order).
Proof.
  revert slots. induction order as [|i order IH]; intros slots Hnd Hs; [done|]. simpl.
  apply NoDup_cons in Hnd as [Hi Hnd]. destruct (Hs i) as (s & Hss & Hsl); [by left|]. rewrite Hsl, Hss. simpl.
  rewrite IH; [done|done|]. intros j Hj. destruct (Hs j) as (s' & ? & ?); [by right|]. exists s'. split; [done|].
  rewrite list_lookup_insert_ne; [done|]. by intros ->.
Qed.

(** C37: The suggestions come back in another order, none lost and none twice: no slot is taken
    a second time, and the search for the order ends. *)
Theorem route_suggestions_permutes ss (starting_position : option Params) :
  ∃ fuel l, l ≡ₚ ss ∧ ∀ f, fuel ≤ f → route_suggestions as_f64 f ss starting_position = Some l.
Proof.
  unfold route_suggestions. destruct (Nat.ltb_spec (length ss) 2) as [Hlt|Hge]; [by exists 0, ss|].
  destruct ss as [|s ss']; [by exists 0, []|]. set (ss := s :: ss') in *.
  destruct (decide (dims s = [])) as [_|Hd]; [by exists 0, ss|].
  destruct (route_index_terminates (coords as_f64 (dims s) ∘ params <$> ss) (coords as_f64 (dims s) <$> starting_position))
    as (fuel & r & P & _ & Hf).
  unfold n in P. rewrite length_fmap in P.
  assert (∀ i, i ∈ r → i < length ss) as Hr by (intros i Hi; rewrite P, elem_of_seq in Hi; lia).
  exists fuel, (omap (λ i, ss !! i) r). split.
  - rewrite P. pose proof (omap_lookup_seq ss []) as E. cbn [app length] in E. by rewrite E.
  - intros f Hle. rewrite (Hf f Hle). cbn [mbind option_bind]. apply take_slots_all.
    + rewrite P. apply NoDup_seq.
    + intros i Hi. destruct (lookup_lt_is_Some_2 ss i (Hr i Hi)) as [x Hx]. exists x. split; [done|].
      by rewrite list_lookup_fmap, Hx.
Qed.
End suggested.

(** ** Concrete routes *)

Module RouteExample.
Definition on_a_line (l : list Z) : list (list f64) := (λ x, [f64_of_Z x]) <$> l.

(** The path is said to begin at the point nearest the start; a reversal moves another one
    there. *)
Lemma route_does_not_begin_at_the_nearest :
  let points := on_a_line [10; -11; 40]%Z in
  route_index points (Some [f64_of_Z 0]) 10 = Some [1; 0; 2]
  ∧ f64_ltb (distance [f64_of_Z 0] (point points 0)) (distance [f64_of_Z 0] (point points 1)) = true.
Proof. by vm_compute. Qed.

(** A route with a point that lacks a coordinate. *)
Lemma incomplete_points_come_last_witness :
  completed_first [[f64_of_Z 5]; [quiet_nan]; [f64_of_Z 2]] [2; 0; 1].
Proof.
  apply (incomplete_points_come_last _ [f64_of_Z 1]) with (f := 5); [| | |by vm_compute].
  - intros p Hp. rewrite !elem_of_cons in Hp. destruct Hp as [->|[->|[->|Hp]]]; [done..|]. by apply not_elem_of_nil in Hp.
  - intros [|[|[|i]]] [|[|[|j]]] Hi Hj Hci Hcj; try (unfold n in *; simpl in *; lia); try by vm_compute.
    all: exfalso; first [apply Hci; left; reflexivity|apply Hcj; left; reflexivity].
  - intros [|[|[|j]]] Hj Hcj; try (unfold n in *; simpl in *; lia); try by vm_compute.
    exfalso. apply Hcj. left. reflexivity.
Defined.

(** A point without a coordinate is said to be visited last; it comes before a point whose
    distance overflows. *)
Lemma incomplete_point_before_a_distant_one :
  let points := [[f64_of_Z 1]; [f64_of_Z (10 ^ 200)]; [quiet_nan]] in
  route_index points None 10 = Some [0; 2; 1].
Proof. by vm_compute. Qed.
End RouteExample.
