(* ===== verification/Patterns.v ===== *)
(** * Coordinate generators ([plans/patterns.rs])

    The points of the step scans: inner and outer products of linear ranges and of
    lists, with snaked axes, and the spirals. A [usize] is a natural number here: no
    product of lengths the code can hold in memory overflows one. *)

From S2P Require Import Prelude Documents F64.

Module patterns.
#[local] Open Scope nat_scope.

(** [lo + (hi - lo) * t], [t] the [i]-th of [n] equal steps. *)
Definition linspace_t (i n : nat) : f64 :=
  if 1 <? n then (f64_of_nat i / (f64_of_nat n - f64_one))%f64 else 0%Z.

Definition inner_product (num : nat) (axes : list (f64 * f64)) : list (list f64) :=
  match num, axes with
  | 0, _ | _, [] => []
  | _, _ =>
      (λ i, let t := linspace_t i num in
            (λ se, (se.1 + (se.2 - se.1) * t)%f64) <$> axes) <$> seq 0 num
  end.

(** How long each axis holds a value, the last axis being the fastest. *)
Fixpoint suffix_repeats (lengths : list nat) : list nat :=
  match lengths with
  | [] => []
  | _ :: rest =>
      match suffix_repeats rest, rest with
      | r :: rs, l :: _ => r * l :: r :: rs
      | _, _ => [1]
      end
  end.

Definition axis_index (k num_repeats l : nat) (snaked : bool) : nat :=
  let snaked := snaked && (1 <? l) in
  let period := if snaked then 2 * l else l in
  let m := (k / num_repeats) `mod` period in
  if negb snaked || (m <? l) then m else 2 * l - 1 - m.

(** [snaking.get(i).copied().unwrap_or(false)] *)
Definition snaked_at (snaking : list bool) (i : nat) : bool := default false (snaking !! i).

(** The indices of row [k], axis by axis. *)
Definition row_indices (lengths : list nat) (snaking : list bool) (k : nat) : list nat :=
  imap (λ i rl, axis_index k rl.1 rl.2 (snaked_at snaking i))
    (zip (suffix_repeats lengths) lengths).

Definition total (lengths : list nat) : nat := foldr Nat.mul 1 lengths.

Definition outer_product_snake (axes : list (f64 * f64 * nat)) (snaking : list bool)
  : list (list f64) :=
  if decide (axes = [] ∨ Exists (λ a, a.2 = 0) axes) then [] else
  let lengths := axes.*2 in
  (λ k, zip_with (λ a vi, (a.1.1 + (a.1.2 - a.1.1) * linspace_t vi a.2)%f64) axes
          (row_indices lengths snaking k)) <$> seq 0 (total lengths).

Definition outer_product (axes : list (f64 * f64 * nat)) : list (list f64) :=
  outer_product_snake axes [].

Definition inner_list_product (axes : list (list f64)) : list (list f64) :=
  let n := match axes with [] => 0 | v :: _ => length v end in
  if decide (Exists (λ v, length v ≠ n) axes) then [] else
  (λ i, (λ v : list f64, v !!! i) <$> axes) <$> seq 0 n.

Definition outer_list_product_snake (axes : list (list f64)) (snaking : list bool)
  : list (list f64) :=
  if decide (axes = [] ∨ Exists (λ v, v = []) axes) then [] else
  let lengths := length <$> axes in
  (λ k, zip_with (λ (v : list f64) vi, v !!! vi) axes (row_indices lengths snaking k))
    <$> seq 0 (total lengths).

Definition outer_list_product (axes : list (list f64)) : list (list f64) :=
  outer_list_product_snake axes [].

(** ** Spirals *)

Section spirals.
Context `{!Libm}.

Definition aspect (dr : f64) (dr_y : option f64) : f64 :=
  match dr_y with None => f64_one | Some dy => (dy / dr)%f64 end.

(** [lo..hi] *)
Definition range (lo hi : Z) : list Z := (λ i, (lo + Z.of_nat i)%Z) <$> seq 0 (Z.to_nat (hi - lo)).

Definition spiral (x_start y_start x_range y_range dr : f64) (nth : Z) (dr_y : option f64)
  (tilt : f64) : list (f64 * f64) :=
  if (dr <=? 0%Z)%f64 || (nth =? 0)%Z then [] else
  let dr_aspect := aspect dr dr_y in
  let half_x := (x_range / f64_two)%f64 in
  let half_y := (y_range / (f64_two * dr_aspect))%f64 in
  let r_max := f64_sqrt (half_x * half_x + half_y * half_y)%f64 in
  let num_ring := (1 + f64_to_usize (r_max / dr)%f64)%Z in
  let tilt_tan := f64_tan (tilt + f64_pi / f64_two)%f64 in
  i_ring ← range 1 (num_ring + 2);
  let radius := (f64_of_Z i_ring * dr)%f64 in
  let steps := (i_ring * nth)%Z in
  let angle_step := (f64_two * f64_pi / f64_of_Z steps)%f64 in
  i_angle ← range 0 steps;
  let angle := (f64_of_Z i_angle * angle_step)%f64 in
  let x := (radius * f64_cos angle)%f64 in
  let y := (radius * f64_sin angle * dr_aspect)%f64 in
  if (f64_abs (x - (y / dr_aspect) / tilt_tan) <=? half_x)%f64
     && (f64_abs (y / dr_aspect) <=? half_y)%f64
  then [((x_start + x)%f64, (y_start + y)%f64)] else [].

Definition spiral_fermat_pattern (x_start y_start x_range y_range dr factor : f64)
  (dr_y : option f64) (tilt : f64) : list (f64 * f64) :=
  if (dr <=? 0%Z)%f64 || (factor <=? 0%Z)%f64 then [] else
  let dr_aspect := aspect dr dr_y in
  let phi := (f64_dec 137508 3 * f64_pi / f64_of_Z 180)%f64 in
  let half_x := (x_range / f64_two)%f64 in
  let half_y := (y_range / (f64_two * dr_aspect))%f64 in
  let tilt_tan := f64_tan (tilt + f64_pi / f64_two)%f64 in
  let diag := f64_sqrt (half_x * half_x + half_y * half_y)%f64 in
  let base := (f64_dec 15 1 * diag / (dr / factor))%f64 in
  let num_rings := f64_to_usize (base * base)%f64 in
  i_ring ← range 1 num_rings;
  let radius := (f64_sqrt (f64_of_Z i_ring) * dr / factor)%f64 in
  let angle := (phi * f64_of_Z i_ring)%f64 in
  let x := (radius * f64_cos angle)%f64 in
  let y := (radius * f64_sin angle * dr_aspect)%f64 in
  if (f64_abs (x - (y / dr_aspect) / tilt_tan) <=? half_x)%f64 && (f64_abs y <=? half_y)%f64
  then [((x_start + x)%f64, (y_start + y)%f64)] else [].
End spirals.

(** The points of [ns] that are inside, as long as there is room. *)
Definition push_side (room : nat) (inside : f64 → bool) (point : f64 → f64 * f64)
  (ns : list f64) (out : list (f64 * f64)) : list (f64 * f64) :=
  foldl (λ out n, if inside n && (length out <? room) then out ++ [point n] else out) out ns.

Definition when_room (room : nat) (c : bool) (side : list (f64 * f64) → list (f64 * f64))
  (out : list (f64 * f64)) : list (f64 * f64) :=
  if c && (length out <? room) then side out else out.

Definition spiral_square_pattern (x_center y_center x_range y_range : f64) (x_num y_num : nat)
  : list (f64 * f64) :=
  match x_num, y_num with
  | 0, _ | _, 0 => []
  | _, _ =>
      let step (range : f64) (num : nat) :=
        if 1 <? num then (range / (f64_of_nat num - f64_one))%f64 else 0%Z in
      let x_delta := step x_range x_num in
      let y_delta := step y_range y_num in
      let x_offset := if Nat.even x_num then f64_half else 0%Z in
      let y_offset := if Nat.even y_num then (- f64_half)%f64 else 0%Z in
      let x_half := (f64_of_nat x_num / f64_two)%f64 in
      let y_half := (f64_of_nat y_num / f64_two)%f64 in
      let room := x_num * y_num in
      let x_at n := (x_center - x_delta * x_offset + x_delta * n)%f64 in
      let y_at n := (y_center - y_delta * y_offset + y_delta * n)%f64 in
      let x_in n := (f64_abs (n - x_offset) <? x_half)%f64 in
      let y_in n := (f64_abs (n - y_offset) <? y_half)%f64 in
      foldl (λ out i_ring,
        let edge := f64_of_Z (i_ring - 1) in
        let down := f64_of_Z <$> reverse (range (- i_ring + 1) (i_ring - 1)) in
        let up := f64_of_Z <$> range (- i_ring + 2) i_ring in
        let out := when_room room (f64_abs (edge - x_offset) <=? x_half)%f64
          (push_side room y_in (λ n, (x_at edge, y_at n)) down) out in
        let out := when_room room (y_in (- edge)%f64)
          (push_side room x_in (λ n, (x_at n, y_at (- edge)%f64)) down) out in
        let out := when_room room (x_in (- edge)%f64)
          (push_side room y_in (λ n, (x_at (- edge)%f64, y_at n)) up) out in
        when_room room (y_in edge)
          (push_side room x_in (λ n, (x_at n, y_at edge)) up) out)
        [((x_center - x_delta * x_offset)%f64, (y_center - y_delta * y_offset)%f64)]
        (range 2 (Z.of_nat (Nat.max x_num y_num) + 1))
  end.

(** ** The order of a snaked grid

    The reference: the points of pass [p] over the axes, an axis being walked
    backwards in its odd passes if it is snaked. *)
Fixpoint boustrophedon (lengths : list nat) (snaking : list bool) (p : nat) : list (list nat) :=
  match lengths with
  | [] => [[]]
  | l :: rest =>
      let backwards := snaked_at snaking 0 && Nat.odd p in
      i ← seq 0 l;
      ((if backwards then l - 1 - i else i) ::.) <$> boustrophedon rest (tail snaking) (p * l + i)
  end.

(** Every choice of a point per axis, the last axis fastest. *)
Fixpoint cartesian {A} (axes : list (list A)) : list (list A) :=
  match axes with
  | [] => [[]]
  | v :: rest => x ← v; (x ::.) <$> cartesian rest
  end.

(** One coordinate moves, to a neighbour. *)
Definition one_step (r r' : list nat) : Prop :=
  ∃ pre x y post, r = pre ++ x :: post ∧ r' = pre ++ y :: post ∧ (y = S x ∨ x = S y).

Lemma suffix_repeats_cons l rest :
  suffix_repeats (l :: rest) = total rest :: suffix_repeats rest.
Proof.
  revert l. induction rest as [|l' rest IH]; intros l; [done|].
  change (suffix_repeats (l :: l' :: rest)) with
    (match suffix_repeats (l' :: rest) with r :: rs => r * l' :: r :: rs | [] => [1] end).
  rewrite IH. change (total (l' :: rest)) with (l' * total rest). by rewrite Nat.mul_comm.
Qed.

Lemma snaked_at_tail s i : snaked_at s (S i) = snaked_at (tail s) i.
Proof. unfold snaked_at. by destruct s. Qed.

Lemma row_indices_cons l rest s k :
  row_indices (l :: rest) s k =
    axis_index k (total rest) l (snaked_at s 0) :: row_indices rest (tail s) k.
Proof.
  unfold row_indices. rewrite suffix_repeats_cons. cbn [zip zip_with imap]. f_equal.
  apply imap_ext. intros i rl _. unfold compose. by rewrite snaked_at_tail.
Qed.

(** An axis in pass [p] walks up or, in an odd pass of a snaked axis, down. *)
Lemma axis_index_pass k r l p i snaked :
  k / r = p * l + i → i < l →
  axis_index k r l snaked = if snaked && Nat.odd p then l - 1 - i else i.
Proof.
  intros Hk Hi. unfold axis_index. rewrite Hk. destruct snaked; simpl.
  - destruct (Nat.ltb_spec 1 l) as [Hl|Hl]; simpl.
    + destruct (Nat.Even_or_Odd p) as [[c ->]|[c ->]].
      * replace (2 * c * l + i) with (i + c * (2 * l)) by lia.
        rewrite Nat.Div0.mod_add, Nat.mod_small by lia.
        rewrite (proj2 (Nat.ltb_lt i l)) by done. by rewrite Nat.odd_mul.
      * replace ((2 * c + 1) * l + i) with (l + i + c * (2 * l)) by lia.
        rewrite Nat.Div0.mod_add, Nat.mod_small by lia.
        rewrite (proj2 (Nat.ltb_ge (l + i) l)) by lia. rewrite Nat.odd_add, Nat.odd_mul. simpl. lia.
    + assert (l = 1) as -> by lia. rewrite Nat.mod_1_r. destruct (Nat.odd p); lia.
  - by rewrite Nat.add_comm, Nat.Div0.mod_add, Nat.mod_small.
Qed.

Lemma seq_blocks (T n a : nat) :
  seq (a * T) (n * T) = (seq a n) ≫= (λ q, seq (q * T) T).
Proof.
  revert a. induction n as [|n IH]; intros a; [done|].
  cbn [seq mbind list_bind]. rewrite Nat.mul_succ_l, Nat.add_comm, seq_app. f_equal.
  by rewrite <- IH, Nat.mul_succ_l.
Qed.

Lemma bind_ext_elem {A B} (f g : A → list B) (l : list A) :
  (∀ x, x ∈ l → f x = g x) → l ≫= f = l ≫= g.
Proof. intros Hfg. induction l as [|x l IH]; csimpl; [done|]. rewrite Hfg, IH; set_solver. Qed.

Lemma fmap_bind {A B C} (f : A → list B) (g : B → C) (l : list A) :
  g <$> (l ≫= f) = l ≫= λ x, g <$> f x.
Proof. induction l as [|x l IH]; csimpl; [done|]. by rewrite fmap_app, IH. Qed.

(** The digits of the row number walk the grid like the nested loops. *)
Lemma row_indices_pass lengths s p :
  row_indices lengths s <$> seq (p * total lengths) (total lengths) = boustrophedon lengths s p.
Proof.
  revert s p. induction lengths as [|l rest IH]; intros s p; [done|].
  cbn [boustrophedon]. change (total (l :: rest)) with (l * total rest). set (T := total rest).
  rewrite Nat.mul_assoc, seq_blocks, fmap_bind. rewrite <- (Nat.add_0_r (p * l)), <- fmap_add_seq, list_fmap_bind.
  apply bind_ext_elem. intros i [_ Hi]%elem_of_seq. simpl in *.
  rewrite Nat.add_0_r, <- IH, <- list_fmap_compose. apply list_fmap_ext. intros j k Hk. simpl.
  apply lookup_seq in Hk as [-> Hj]. rewrite row_indices_cons. f_equal. fold T in Hj |- *.
  apply axis_index_pass; [|done]. rewrite Nat.div_add_l by lia. rewrite Nat.div_small; lia.
Qed.

Lemma boustrophedon_natural lengths p :
  boustrophedon lengths [] p = cartesian (seq 0 <$> lengths).
Proof.
  revert p. induction lengths as [|l rest IH]; intros p; [done|]. csimpl.
  apply bind_ext_elem. intros i _. by rewrite IH.
Qed.

Lemma bind_perm {A B} (f g : A → list B) (l k : list A) :
  (∀ x, f x ≡ₚ g x) → l ≡ₚ k → l ≫= f ≡ₚ k ≫= g.
Proof.
  intros Hfg ->. induction k as [|x k IH]; csimpl; [done|]. by rewrite Hfg, IH.
Qed.

(** Snaking only changes the order. *)
Lemma boustrophedon_permutes lengths s p :
  boustrophedon lengths s p ≡ₚ cartesian (seq 0 <$> lengths).
Proof.
  revert s p. induction lengths as [|l rest IH]; intros s p; [done|]. csimpl.
  set (b := snaked_at s 0 && Nat.odd p).
  transitivity (((λ i, if b then l - 1 - i else i) <$> seq 0 l)
                  ≫= (λ i, (i ::.) <$> cartesian (seq 0 <$> rest))).
  - rewrite list_fmap_bind. unfold compose. apply bind_perm; [|done]. intros i. by rewrite IH.
  - apply bind_perm; [done|]. destruct b; [|by rewrite list_fmap_id].
    apply NoDup_Permutation.
    + apply NoDup_fmap_2_strong; [|apply NoDup_seq].
      intros x y [_ Hx]%elem_of_seq [_ Hy]%elem_of_seq. lia.
    + apply NoDup_seq.
    + intros x. rewrite list_elem_of_fmap. setoid_rewrite elem_of_seq. split.
      * intros (y & -> & Hy). lia.
      * intros Hx. exists (l - 1 - x). lia.
Qed.

(** ** Neighbours *)

Definition all_snaked (lengths : list nat) (s : list bool) : Prop :=
  ∀ i, i < length lengths → snaked_at s i = true.

Lemma all_snaked_tail l rest s : all_snaked (l :: rest) s → all_snaked rest (tail s).
Proof. intros Hs i Hi. rewrite <- snaked_at_tail. apply Hs. simpl. lia. Qed.

Lemma axis_index_same k k' r l b : k / r = k' / r → axis_index k r l b = axis_index k' r l b.
Proof. unfold axis_index. by intros ->. Qed.

Lemma div_succ k r : 0 < r → S k / r = if decide (S k `mod` r = 0) then S (k / r) else k / r.
Proof.
  intros Hr. pose proof (Nat.div_mod_eq k r). pose proof (Nat.mod_upper_bound k r).
  pose proof (Nat.div_mod_eq (S k) r). pose proof (Nat.mod_upper_bound (S k) r).
  case_decide; nia.
Qed.

(** At the end of a pass over snaked axes nothing moves. *)
Lemma pass_end lengths s k :
  all_snaked lengths s → 0 < total lengths → S k `mod` total lengths = 0 →
  row_indices lengths s (S k) = row_indices lengths s k.
Proof.
  revert s. induction lengths as [|l rest IH]; intros s Hs Ht Hk; [done|].
  change (total (l :: rest)) with (l * total rest) in *. rewrite !row_indices_cons. f_equal.
  - rewrite (Hs 0) by (simpl; lia). set (T := total rest) in *.
    apply Nat.Div0.mod_divides in Hk as [c Hc]. destruct c as [|c]; [lia|].
    assert (S k / T = c * l + l) as HS.
    { replace (S k) with ((c * l + l) * T) by nia. apply Nat.div_mul. lia. }
    assert (k / T = c * l + (l - 1)) as Hp.
    { rewrite div_succ in HS by lia. rewrite decide_True in HS; [lia|].
      rewrite Hc. apply Nat.Div0.mod_divides. exists (l * S c). lia. }
    assert (0 < l) by nia.
    rewrite (axis_index_pass k _ _ c (l - 1)) by lia.
    rewrite (axis_index_pass (S k) _ _ (S c) 0) by (simpl; lia).
    rewrite Nat.odd_succ, <- Nat.negb_odd. simpl. destruct (Nat.odd c); simpl; lia.
  - apply IH; [by eapply all_snaked_tail|nia|].
    apply Nat.Div0.mod_divides in Hk as [c Hc]. apply Nat.Div0.mod_divides. exists (l * c). lia.
Qed.

Lemma row_step lengths s k :
  (∀ i, 0 < i < length lengths → snaked_at s i = true) →
  S k < total lengths →
  one_step (row_indices lengths s k) (row_indices lengths s (S k)).
Proof.
  assert (∀ b lengths s, all_snaked (tail lengths) (tail s) →
    (b = true → snaked_at s 0 = true ∨ lengths = []) → 0 < total lengths →
    (S k `mod` total lengths ≠ 0 ∧ b = true ∨ S k < total lengths) →
    one_step (row_indices lengths s k) (row_indices lengths s (S k))) as Hstep.
  { clear lengths s. intros b lengths. revert b. induction lengths as [|l rest IH]; intros b s Hs Hb Ht Hk.
    { change (total []) with 1 in Hk. rewrite Nat.mod_1_r in Hk. lia. }
    change (total (l :: rest)) with (l * total rest) in *. rewrite !row_indices_cons.
    simpl in Hs. set (T := total rest) in *. assert (0 < T) as HT by nia.
    destruct (decide (S k `mod` T = 0)) as [Hm|Hm].
    - exists [], (axis_index k T l (snaked_at s 0)), (axis_index (S k) T l (snaked_at s 0)),
        (row_indices rest (tail s) k).
      split; [done|]. rewrite (pass_end rest (tail s) k Hs HT Hm). split; [done|].
      pose proof (div_succ k T HT) as Hd. rewrite decide_True in Hd by done.
      pose proof (Nat.div_mod_eq (k / T) l) as Hq. pose proof (Nat.mod_upper_bound (k / T) l ltac:(nia)).
      set (p := k / T / l) in *. set (i := (k / T) `mod` l) in *.
      assert (S i < l) as Hi.
      { destruct (decide (S i = l)) as [Hl|]; [exfalso|lia].
        assert (S k / T = l * S p) as HS by lia.
        pose proof (Nat.div_mod_eq (S k) T) as Hdm. rewrite Hm, HS in Hdm.
        destruct Hk as [[Hk _]|Hk]; [|nia]. apply Hk. apply Nat.Div0.mod_divides. exists (S p). lia. }
      rewrite (axis_index_pass k T l p i) by lia. rewrite (axis_index_pass (S k) T l p (S i)) by lia.
      destruct (_ && _); lia.
    - pose proof (div_succ k T HT) as Hd. rewrite decide_False in Hd by done.
      rewrite (axis_index_same (S k) k) by done.
      destruct (IH true (tail s)) as (pre & x & y & post & -> & -> & Hxy).
      + intros i Hi. rewrite <- snaked_at_tail. apply Hs. destruct rest; simpl in *; lia.
      + intros _. destruct rest; [by right|left]. apply Hs. simpl. lia.
      + done.
      + left. done.
      + eexists (_ :: pre), x, y, post. done. }
  intros Hs Hk. apply (Hstep false); [|done|lia|by right].
  intros i Hi. rewrite <- snaked_at_tail. apply Hs. destruct lengths; simpl in *; lia.
Qed.

(** ** The points of a list grid *)

(** The point at the given indices. *)
Definition point (axes : list (list f64)) (ix : list nat) : list f64 :=
  zip_with (λ (v : list f64) i, v !!! i) axes ix.

Lemma cartesian_points axes : point axes <$> cartesian (seq 0 <$> (length <$> axes)) = cartesian axes.
Proof.
  induction axes as [|v axes IH]; [done|]. csimpl. rewrite fmap_bind.
  assert (v = (λ i, v !!! i) <$> seq 0 (length v)) as Hv.
  { apply list_eq. intros i. rewrite list_lookup_fmap. destruct (decide (i < length v)) as [Hi|Hi].
    - rewrite lookup_seq_lt by done. simpl. destruct (lookup_lt_is_Some_2 v i Hi) as [x Hx].
      rewrite Hx. by rewrite (list_lookup_total_correct v i x Hx).
    - rewrite lookup_seq_ge by lia. by apply lookup_ge_None_2; lia. }
  rewrite Hv at 2. rewrite list_fmap_bind. apply bind_ext_elem. intros i _. unfold compose.
  rewrite <- IH, <- !list_fmap_compose. done.
Qed.

Lemma cartesian_empty {A} (axes : list (list A)) : Exists (λ v, v = []) axes → cartesian axes = [].
Proof.
  induction 1 as [v axes ->|v axes _ IH]; simpl; [done|]. rewrite IH. by induction v.
Qed.

Lemma outer_list_rows axes s :
  axes ≠ [] →
  outer_list_product_snake axes s = point axes <$> boustrophedon (length <$> axes) s 0.
Proof.
  intros Ha. unfold outer_list_product_snake. case_decide as Hd.
  - destruct Hd as [?|Hd]; [done|]. symmetry.
    assert (boustrophedon (length <$> axes) s 0 = []) as ->; [|done]. apply Permutation_nil_r.
    rewrite boustrophedon_permutes. apply reflexive_eq, cartesian_empty.
    clear Ha. induction Hd as [v rest ->|v rest _ IH]; csimpl; [by left|by right].
  - rewrite <- row_indices_pass, <- list_fmap_compose. done.
Qed.

(** ** Theorems *)

(** C25: A snaked list grid visits the points of the nested loops whose snaked axes wind back
    in every other pass: each combination of positions once, whatever is snaked, and
    in the plain order of the loops when nothing is. *)
Theorem snake_is_boustrophedon axes s :
  axes ≠ [] →
  outer_list_product_snake axes s = point axes <$> boustrophedon (length <$> axes) s 0
  ∧ outer_list_product_snake axes s ≡ₚ cartesian axes
  ∧ outer_list_product axes = cartesian axes.
Proof.
  intros Ha. split_and!.
  - by apply outer_list_rows.
  - by rewrite outer_list_rows, boustrophedon_permutes, cartesian_points.
  - unfold outer_list_product. by rewrite outer_list_rows, boustrophedon_natural, cartesian_points.
Qed.

(** With every axis but the slowest snaked, two consecutive points differ in one axis
    only, which moves to a neighbouring position of its list. *)
Theorem snake_moves_one_axis axes s k r r' :
  (∀ i, 0 < i < length axes → snaked_at s i = true) →
  outer_list_product_snake axes s !! k = Some r →
  outer_list_product_snake axes s !! S k = Some r' →
  ∃ ix ix', r = point axes ix ∧ r' = point axes ix' ∧ one_step ix ix'.
Proof.
  intros Hs. unfold outer_list_product_snake. case_decide as Hd; [done|].
  rewrite !list_lookup_fmap. intros (k1 & Hk & Hr)%fmap_Some (k2 & Hk' & Hr')%fmap_Some.
  apply lookup_seq in Hk as [-> _]. apply lookup_seq in Hk' as [-> Hlt].
  exists (row_indices (length <$> axes) s k), (row_indices (length <$> axes) s (S k)).
  split_and!; [done|done|]. apply row_step; [|done]. by rewrite length_fmap.
Qed.

Lemma snake_is_boustrophedon_witness :
  [[1; 2]; [5; 6; 7]]%Z ≠ [] ∧
  outer_list_product_snake [[1; 2]; [5; 6; 7]]%Z [false; true] =
    [[1; 5]; [1; 6]; [1; 7]; [2; 7]; [2; 6]; [2; 5]]%Z ∧
  outer_list_product_snake [[1; 2]; [5; 6; 7]]%Z [false; true] ≡ₚ cartesian [[1; 2]; [5; 6; 7]]%Z.
Proof.
  split; [done|]. split; [reflexivity|].
  by destruct (snake_is_boustrophedon [[1; 2]; [5; 6; 7]]%Z [false; true]) as (_ & Hp & _).
Defined.

Lemma snake_moves_one_axis_witness :
  ∃ ix ix', [1; 7]%Z = point [[1; 2]; [5; 6; 7]]%Z ix ∧ [2; 7]%Z = point [[1; 2]; [5; 6; 7]]%Z ix'
            ∧ one_step ix ix'.
Proof.
  apply (snake_moves_one_axis [[1; 2]; [5; 6; 7]]%Z [false; true] 2); [|reflexivity|reflexivity].
  intros [|[|i]] Hi; simpl in *; [lia|done|lia].
Defined.
End patterns.
