(* ===== verification/Compose.v ===== *)
(** * Composing the documents of one run ([event_model/compose.rs])

    [RunBundle] and the datum composers. A fresh UUID and the time of the call are
    arguments; [u64] counters wrap as [fetch_add] does. *)

From stdpp Require Import pretty.
From S2P Require Import Prelude Interfaces Documents.

Section compose.
Context `{JsonNumber}.

Record StreamState := mkStream {
  st_descriptor : EventDescriptor;
  seq_num : Z;
}.

Record RunBundle := mkBundle {
  start_uid : string;
  streams : gmap string StreamState;
}.

Implicit Types (b : RunBundle) (name u : string) (t : f64).

Definition bundle_open (start : RunStart) : RunBundle := mkBundle (rs_uid start) ∅.

Definition bundle_start u t (scan_id : option Z) (hints : option Hints) : RunStart :=
  mkRunStart u t scan_id hints None [] EmptyString None EmptyString EmptyString EmptyString [] ∅.

Definition descriptor u t name (data_keys : gmap string DataKey)
  (configuration : gmap string Configuration) (hints : option (gmap string PerObjectHint))
  (object_keys : gmap string (list string)) b : (EventDescriptor * bool) * RunBundle :=
  match streams b !! name with
  | Some st => ((st_descriptor st, false), b)
  | None =>
      let d := mkDescriptor u (start_uid b) t data_keys configuration (Some name) hints
                 object_keys in
      ((d, true), mkBundle (start_uid b) (<[name := mkStream d 0]> (streams b)))
  end.

Definition compose_redescribe u t (stream_name object_name : string)
  (configuration : Configuration) b : option EventDescriptor :=
  st ← streams b !! stream_name;
  let d := st_descriptor st in
  if decide (is_Some (ed_configuration d !! object_name)) then
    Some (mkDescriptor u (ed_run_start d) t (ed_data_keys d)
            (<[object_name := configuration]> (ed_configuration d)) (ed_name d) (ed_hints d)
            (ed_object_keys d))
  else None.

Definition install_descriptor (stream_name : string) (d : EventDescriptor) b : RunBundle :=
  mkBundle (start_uid b) (alter (λ st, mkStream d (seq_num st)) stream_name (streams b)).

(** [fetch_add] on a stream's counter. *)
Definition bump_seq name (n : Z) b : RunBundle :=
  mkBundle (start_uid b)
    (alter (λ st, mkStream (st_descriptor st) (wrap64 (seq_num st + n))) name (streams b)).

Definition event u t (stream_name : string) (data : gmap string Value)
  (timestamps : gmap string f64) b : option Event * RunBundle :=
  let? st := streams b !! stream_name else (None, b) in
  let n := wrap64 (seq_num st + 1) in
  (Some (mkEvent u (ed_uid (st_descriptor st)) t n data timestamps ∅), bump_seq stream_name 1 b).

(** A page of [length us] rows, one UUID of [us] each. *)
Definition event_page (us : list string) t (stream_name : string)
  (data : gmap string (list Value)) (timestamps : gmap string (list f64)) b
  : option EventPage * RunBundle :=
  let? st := streams b !! stream_name else (None, b) in
  let n := length us in
  let start := seq_num st in
  (Some (mkEventPage us (ed_uid (st_descriptor st)) (replicate n t)
           ((λ j, wrap64 (start + j)) <$> seqZ 1 (Z.of_nat n)) data timestamps ∅),
   bump_seq stream_name (Z.of_nat n) b).

Definition peek_next_seq (stream_name : string) b : option Z :=
  (λ st, wrap64 (seq_num st + 1)) <$> streams b !! stream_name.

Definition advance_seq (stream_name : string) (n : Z) b : bool * RunBundle :=
  match streams b !! stream_name with
  | Some _ => (true, bump_seq stream_name n b)
  | None => (false, b)
  end.

Definition is_stream_key (k : string * DataKey) : bool :=
  match dk_external k.2 with Some e => String.prefix "STREAM:" e | None => false end.

Definition external_data_keys (stream_name : string) b : option (list string) :=
  st ← streams b !! stream_name;
  Some ((filter (λ k, is_stream_key k = true) (map_to_list (ed_data_keys (st_descriptor st)))).*1).

Definition snapshot_seq_nums b : gmap string Z := seq_num <$> streams b.

Definition restore_seq_nums (snapshot : gmap string Z) b : RunBundle :=
  mkBundle (start_uid b)
    (map_imap (λ name st, Some (mkStream (st_descriptor st) (default 0%Z (snapshot !! name))))
       (streams b)).

(** [None]: the [expect] panics. *)
Definition bundle_stop u t (exit_status : string) (reason : option string) b : option RunStop :=
  e ← exit_from_str exit_status;
  Some (mkRunStop u (start_uid b) t e reason (snapshot_seq_nums b) None ∅).

Definition descriptor_uid_for (stream_name : string) b : option string :=
  (λ st, ed_uid (st_descriptor st)) <$> streams b !! stream_name.

(** ** Resources *)

Record ResourceComposer := mkResourceComposer { rc_resource : Resource; rc_counter : Z }.

Definition bundle_resource u (spec root resource_path : string)
  (path_semantics : option string) (resource_kwargs : gmap string Value) b : ResourceComposer :=
  mkResourceComposer
    (mkResource u spec root resource_path
       (Some (default "posix" path_semantics)) resource_kwargs (Some (start_uid b))) 0.

(** [format!("{}/{}", uid, i)] *)
Definition counted_id (uid : string) (i : Z) : string := uid +:+ "/" +:+ pretty i.

Definition rc_datum (kwargs : gmap string Value) (rc : ResourceComposer)
  : Datum * ResourceComposer :=
  let r := rc_resource rc in
  (mkDatum (counted_id (res_uid r) (rc_counter rc)) (res_uid r) kwargs,
   mkResourceComposer r (wrap64 (rc_counter rc + 1))).

Definition rc_datum_page (kwargs : gmap string (list Value)) (n : nat) (rc : ResourceComposer)
  : DatumPage * ResourceComposer :=
  let r := rc_resource rc in
  let start := rc_counter rc in
  (mkDatumPage ((λ j, counted_id (res_uid r) (wrap64 (start + j))) <$> seqZ 0 (Z.of_nat n)) (res_uid r)
     kwargs,
   mkResourceComposer r (wrap64 (start + Z.of_nat n))).

Record StreamResourceComposer := mkStreamComposer {
  src_resource : StreamResource;
  src_counter : Z;
}.

Definition bundle_stream_resource u (data_key mimetype uri : string)
  (parameters : gmap string Value) b : StreamResourceComposer :=
  mkStreamComposer
    (mkStreamResource _ u data_key mimetype uri parameters (Some (start_uid b))) 0.

Definition src_datum (indices seq_nums : StreamRange) (descriptor_uid : string)
  (c : StreamResourceComposer) : StreamDatum * StreamResourceComposer :=
  let r := src_resource c in
  (mkStreamDatum (counted_id (sr_uid r) (src_counter c)) (sr_uid r) descriptor_uid indices
     seq_nums,
   mkStreamComposer r (wrap64 (src_counter c + 1))).

(** ** Sequences of compositions *)

(** The calls that hand out sequence numbers or leave the counters alone; the
    rewind's [restore_seq_nums] is apart. *)
Inductive bundle_op :=
| BDescriptor u t name (data_keys : gmap string DataKey)
    (configuration : gmap string Configuration) (hints : option (gmap string PerObjectHint))
    (object_keys : gmap string (list string))
| BInstall name (d : EventDescriptor)
| BEvent u t name (data : gmap string Value) (timestamps : gmap string f64)
| BPage (us : list string) t name (data : gmap string (list Value))
    (timestamps : gmap string (list f64))
| BAdvance name (n : nat).

(** The state after a call and the numbers it handed out, with their stream. A
    width [n] advanced hands out the [n] numbers from [peek_next_seq] on. *)
Definition bundle_exec (o : bundle_op) b : RunBundle * list (string * Z) :=
  match o with
  | BDescriptor u t name dk cf hs ok => ((descriptor u t name dk cf hs ok b).2, [])
  | BInstall name d => (install_descriptor name d b, [])
  | BEvent u t name data ts =>
      let '(ev, b') := event u t name data ts b in
      (b', match ev with Some ev => [(name, ev_seq_num ev)] | None => [] end)
  | BPage us t name data ts =>
      let '(pg, b') := event_page us t name data ts b in
      (b', match pg with Some pg => pair name <$> ep_seq_num pg | None => [] end)
  | BAdvance name n =>
      let next := peek_next_seq name b in
      (((advance_seq name (Z.of_nat n) b).2),
       match next with
       | Some next => (λ j, (name, wrap64 (next + j))) <$> seqZ 0 (Z.of_nat n)
       | None => []
       end)
  end.

Fixpoint bundle_run (os : list bundle_op) b : RunBundle * list (string * Z) :=
  match os with
  | [] => (b, [])
  | o :: os =>
      let '(b, out) := bundle_exec o b in
      let '(b, outs) := bundle_run os b in (b, out ++ outs)
  end.

(** The numbers handed out on one stream, in order. *)
Definition issued name (out : list (string * Z)) : list Z :=
  (filter (λ e, e.1 = name) out).*2.

(** The last number handed out on a stream, 0 before the first. *)
Definition last_seq name b : Z := default 0%Z (seq_num <$> streams b !! name).

(** [k] numbers after [c]. *)
Definition following (c : Z) (k : nat) : list Z := (λ j, wrap64 (c + j)) <$> seqZ 1 (Z.of_nat k).

Lemma wrap64_add a n : wrap64 (wrap64 a + n) = wrap64 (a + n).
Proof. unfold wrap64. by rewrite Zplus_mod_idemp_l. Qed.

Lemma following_app c k1 k2 :
  following c k1 ++ following (wrap64 (c + Z.of_nat k1)) k2 = following c (k1 + k2).
Proof.
  unfold following. rewrite Nat2Z.inj_add, seqZ_app by lia. rewrite fmap_app. f_equal.
  replace (1 + Z.of_nat k1)%Z with (Z.of_nat k1 + 1)%Z by lia.
  rewrite <-fmap_add_seqZ, <-list_fmap_compose.
  apply list_fmap_ext. intros _ j _. simpl. rewrite wrap64_add. f_equal. lia.
Qed.

Lemma following_small c k :
  (0 ≤ c)%Z → (c + Z.of_nat k ≤ u64_max)%Z → following c k = seqZ (c + 1) (Z.of_nat k).
Proof.
  intros Hc Hk. unfold following. rewrite <-fmap_add_seqZ. apply list_fmap_ext.
  intros i j Hj. apply lookup_seqZ in Hj. apply wrap64_small. unfold in_u64. lia.
Qed.

Lemma length_following c k : length (following c k) = k.
Proof. unfold following. rewrite length_fmap, length_seqZ. lia. Qed.

(** Counters stay in range. *)
Definition bundle_wf b : Prop :=
  ∀ name st, streams b !! name = Some st → in_u64 (seq_num st).

Lemma last_seq_range name b : bundle_wf b → in_u64 (last_seq name b).
Proof.
  intros Hb. unfold last_seq. destruct (streams b !! name) as [st|] eqn:Hst; simpl; [|done].
  by eapply Hb.
Qed.

Lemma bump_seq_wf name n b : bundle_wf b → bundle_wf (bump_seq name n b).
Proof.
  intros Hb name' st. simpl. rewrite lookup_alter_Some.
  intros [(_ & st' & Hst & ->)|(_ & Hst)]; simpl; [apply wrap64_range|by eapply Hb].
Qed.

Lemma last_seq_bump name name' n b :
  is_Some (streams b !! name) →
  last_seq name' (bump_seq name n b) =
    if decide (name = name') then wrap64 (last_seq name' b + n) else last_seq name' b.
Proof.
  intros [st Hst]. unfold last_seq, bump_seq. simpl. case_decide as Hn.
  - subst. by rewrite lookup_alter_eq, Hst.
  - by rewrite lookup_alter_ne.
Qed.

Lemma issued_pairs name name' l :
  issued name (pair name' <$> l) = if decide (name' = name) then l else [].
Proof.
  unfold issued. case_decide as Hn.
  - subst. induction l as [|x l IH]; [done|].
    rewrite fmap_cons, filter_cons_True, fmap_cons by done. simpl. by f_equal.
  - induction l as [|x l IH]; [done|]. by rewrite fmap_cons, filter_cons_False.
Qed.

Lemma issued_app name l1 l2 : issued name (l1 ++ l2) = issued name l1 ++ issued name l2.
Proof. unfold issued. by rewrite filter_app, fmap_app. Qed.

(** A call's effect on one stream: the next [k] numbers handed out. *)
Definition hands_out name b b' (out : list Z) : Prop :=
  bundle_wf b' ∧ out = following (last_seq name b) (length out)
  ∧ last_seq name b' = wrap64 (last_seq name b + Z.of_nat (length out)).

Lemma hands_out_nothing name b b' :
  bundle_wf b → bundle_wf b' → last_seq name b' = last_seq name b → hands_out name b b' [].
Proof.
  intros Hb Hb' Hl. split_and!; [done|done|]. simpl. rewrite Z.add_0_r, wrap64_small, Hl; [done|].
  by apply last_seq_range.
Qed.

Lemma hands_out_bump name name' b (k : nat) out :
  bundle_wf b → is_Some (streams b !! name') → out = following (last_seq name' b) k →
  hands_out name b (bump_seq name' (Z.of_nat k) b) (issued name (pair name' <$> out)).
Proof.
  intros Hb Hs ->. rewrite issued_pairs. destruct (decide (name' = name)) as [->|Hn].
  - split; [by apply bump_seq_wf|]. rewrite length_following. split; [done|].
    by rewrite last_seq_bump, decide_True.
  - apply hands_out_nothing; [done|by apply bump_seq_wf|].
    by rewrite last_seq_bump, decide_False.
Qed.

Lemma exec_hands_out name o b :
  bundle_wf b → hands_out name b (bundle_exec o b).1 (issued name (bundle_exec o b).2).
Proof.
  intros Hb. destruct o as [u t n dk cf hs ok|n d|u t n data ts|us t n data ts|n k]; simpl.
  - apply hands_out_nothing; [done| |]; unfold descriptor; destruct (streams b !! n) eqn:Hn; try done.
    + intros n' st. simpl. rewrite lookup_insert_Some. intros [[_ <-]|[_ ?]]; [done|by eapply Hb].
    + unfold last_seq. simpl. destruct (decide (n = name)) as [->|]; [by rewrite lookup_insert_eq, Hn|].
      by rewrite lookup_insert_ne by done.
  - apply hands_out_nothing; [done| |].
    + intros n' st. simpl. rewrite lookup_alter_Some.
      intros [(_ & st' & Hst & ->)|(_ & Hst)]; simpl; by eapply Hb.
    + unfold last_seq. simpl. destruct (decide (n = name)) as [->|]; [|by rewrite lookup_alter_ne].
      rewrite lookup_alter_eq. by destruct (streams b !! name).
  - unfold event. destruct (streams b !! n) as [st|] eqn:Hn; simpl; [|by apply hands_out_nothing].
    apply (hands_out_bump name n b 1 [wrap64 (seq_num st + 1)]); [done|by rewrite Hn|].
    unfold following, last_seq. by rewrite Hn.
  - unfold event_page. destruct (streams b !! n) as [st|] eqn:Hn; simpl; [|by apply hands_out_nothing].
    apply hands_out_bump; [done|by rewrite Hn|]. unfold following, last_seq. by rewrite Hn.
  - unfold peek_next_seq, advance_seq.
    destruct (streams b !! n) as [st|] eqn:Hn; simpl; [|by apply hands_out_nothing].
    change (λ j, (n, wrap64 (wrap64 (seq_num st + 1) + j)))
      with (pair n ∘ (λ j, wrap64 (wrap64 (seq_num st + 1) + j))).
    rewrite list_fmap_compose. apply hands_out_bump; [done|by rewrite Hn|].
    unfold following, last_seq. rewrite Hn. simpl.
    replace (seqZ 1 (Z.of_nat k)) with (Z.add 1 <$> seqZ 0 (Z.of_nat k))
      by (rewrite fmap_add_seqZ; done).
    rewrite <-list_fmap_compose. apply list_fmap_ext. intros _ j _. simpl.
    rewrite wrap64_add. f_equal. lia.
Qed.

Lemma run_hands_out name os : ∀ b,
  bundle_wf b → hands_out name b (bundle_run os b).1 (issued name (bundle_run os b).2).
Proof.
  induction os as [|o os IH]; intros b Hb; simpl; [by apply hands_out_nothing|].
  pose proof (exec_hands_out name o b Hb) as H1. destruct (bundle_exec o b) as [b1 out1].
  destruct H1 as (Hb1 & Ho1 & Hl1). simpl in *.
  specialize (IH b1 Hb1). destruct (bundle_run os b1) as [b2 out2].
  destruct IH as (Hb2 & Ho2 & Hl2). simpl in *. split; [done|].
  rewrite issued_app, length_app. split.
  - rewrite <-following_app, <-Hl1, <-Ho1, <-Ho2. done.
  - rewrite Hl2, Hl1, wrap64_add. f_equal. lia.
Qed.

(** ** Theorems *)

(** C20: Events, pages and advanced widths of a stream share one gapless sequence axis:
    in a new run, whatever is composed in whatever order and without a rewind, the numbers
    handed out on a stream, fewer than 2^64, are 1, 2, 3, ... in order, each once, and the
    [RunStop] that closes the run reports exactly their count. *)
Theorem seq_nums_contiguous start os name u t status reason stop :
  let '(b, out) := bundle_run os (bundle_open start) in
  let n := length (issued name out) in
  (Z.of_nat n ≤ u64_max)%Z → bundle_stop u t status reason b = Some stop →
  issued name out = seqZ 1 (Z.of_nat n)
  ∧ default 0%Z (stop_num_events stop !! name) = Z.of_nat n.
Proof.
  pose proof (run_hands_out name os (bundle_open start)) as Hr.
  destruct (bundle_run os (bundle_open start)) as [b out]. simpl in Hr.
  destruct Hr as (_ & Ho & Hl); [by intros ? ?|]. intros n Hn Hstop.
  assert (last_seq name (bundle_open start) = 0%Z) as H0 by done.
  rewrite H0 in Ho, Hl. split.
  - rewrite Ho at 1. by apply following_small.
  - apply bind_Some in Hstop as (e & _ & [= <-]). simpl.
    unfold snapshot_seq_nums. rewrite lookup_fmap. unfold last_seq in Hl. rewrite Hl.
    apply wrap64_small. unfold in_u64. lia.
Qed.
End compose.

(** ** Witness: an event, a page of two, a width of three *)

Module ExC.
Export Sample.
Definition start0 : RunStart := bundle_start "run" 0%Z None None.
Definition ops0 : list bundle_op :=
  [BDescriptor "d" 0%Z "primary" ∅ ∅ None ∅; BEvent "e1" 0%Z "primary" ∅ ∅;
   BPage ["e2"; "e3"] 0%Z "primary" ∅ ∅; BAdvance "primary" 3; BEvent "x" 0%Z "ghost" ∅ ∅].
End ExC.
Import ExC.

Lemma seq_nums_contiguous_witness :
  issued "primary" (bundle_run ops0 (bundle_open start0)).2 = [1; 2; 3; 4; 5; 6]%Z.
Proof.
  pose proof (seq_nums_contiguous start0 ops0 "primary" "u" 0%Z "success" None) as H.
  destruct (bundle_run ops0 (bundle_open start0)) as [b out] eqn:Hr. cbv zeta in H.
  assert (length (issued "primary" out) = 6) as Hn
    by (replace out with (bundle_run ops0 (bundle_open start0)).2 by (rewrite Hr; reflexivity);
        reflexivity).
  rewrite Hn in H. simpl.
  destruct (bundle_stop "u" 0%Z "success" None b) as [st|] eqn:Hs; [|discriminate Hs].
  destruct (H st) as [-> _]; [vm_compute; discriminate|reflexivity|reflexivity].
Defined.
