(* ===== verification/Bundler.v ===== *)
(** * The event bundler of a run ([engine/bundler.rs])

    [RunBundler] over its [RunBundle]. The bundle is shared with the monitor pumps;
    what a pump does to it is a step of its own here ([set_bundle] with
    [Compose.event]). Fresh UUIDs and the time are arguments. *)

From stdpp Require Import pretty.
From S2P Require Import Prelude Interfaces Errors Documents Compose.

Section bundler.
Context `{JsonNumber}.

Record StreamObject := mkStreamObject {
  so_object : option string;
  so_data_keys : gmap string DataKey;
  so_hint_fields : option (list string);
  so_configuration : Configuration;
}.

Definition objectless (data_keys : gmap string DataKey) : StreamObject :=
  mkStreamObject None data_keys None configuration_default.

Record OpenBundle := mkOpen {
  ob_stream : string;
  ob_readings : gmap string ReadingValue;
  ob_objs : list StreamObject;
}.

(** A [DescriptorState] is its UUID. *)
Record RunBundler := mkBundler {
  bundle : RunBundle;
  descriptors : gmap string string;
  opened : option OpenBundle;
  bd_start_uid : string;
  config_cache : gmap string Configuration;
  seq_snapshot : option (gmap string Z);
  stream_resource_data_keys : gmap string string;
  declared_streams : gmap (gset string) (list string);
}.

Implicit Types (b : RunBundler) (u name : string) (t : f64).

Definition set_bundle (v : RunBundle) b : RunBundler :=
  mkBundler v (descriptors b) (opened b) (bd_start_uid b) (config_cache b) (seq_snapshot b)
    (stream_resource_data_keys b) (declared_streams b).
Definition set_descriptors (v : gmap string string) b : RunBundler :=
  mkBundler (bundle b) v (opened b) (bd_start_uid b) (config_cache b) (seq_snapshot b)
    (stream_resource_data_keys b) (declared_streams b).
Definition set_opened (v : option OpenBundle) b : RunBundler :=
  mkBundler (bundle b) (descriptors b) v (bd_start_uid b) (config_cache b) (seq_snapshot b)
    (stream_resource_data_keys b) (declared_streams b).
Definition set_config_cache (v : gmap string Configuration) b : RunBundler :=
  mkBundler (bundle b) (descriptors b) (opened b) (bd_start_uid b) v (seq_snapshot b)
    (stream_resource_data_keys b) (declared_streams b).
Definition set_seq_snapshot (v : option (gmap string Z)) b : RunBundler :=
  mkBundler (bundle b) (descriptors b) (opened b) (bd_start_uid b) (config_cache b) v
    (stream_resource_data_keys b) (declared_streams b).
Definition set_resource_keys (v : gmap string string) b : RunBundler :=
  mkBundler (bundle b) (descriptors b) (opened b) (bd_start_uid b) (config_cache b)
    (seq_snapshot b) v (declared_streams b).
Definition set_declared_streams (v : gmap (gset string) (list string)) b : RunBundler :=
  mkBundler (bundle b) (descriptors b) (opened b) (bd_start_uid b) (config_cache b)
    (seq_snapshot b) (stream_resource_data_keys b) v.

Definition bundler_new (bd : RunBundle) : RunBundler :=
  mkBundler bd ∅ None (start_uid bd) ∅ None ∅ ∅.

Definition record_declared_stream (objs : gset string) (stream_name : string) b : RunBundler :=
  set_declared_streams
    (<[objs := default [] (declared_streams b !! objs) ++ [stream_name]]> (declared_streams b)) b.

Definition declared_stream_names (objs : gset string) b : list string :=
  default [] (declared_streams b !! objs).

Definition cached_configuration (object_name : string) b : option Configuration :=
  config_cache b !! object_name.

Definition cache_configuration (object_name : string) (config : Configuration) b : RunBundler :=
  set_config_cache (<[object_name := config]> (config_cache b)) b.

(** One fresh UUID of [us] per stream of the bundler; the streams are walked in the
    map's order. *)
Definition compose_reconfigure (us : list string) t (object_name : string)
  (configuration : Configuration) b : list EventDescriptor :=
  omap (λ nu, compose_redescribe nu.2 t nu.1 object_name configuration (bundle b))
       (zip (map_to_list (descriptors b)).*1 us).

Definition install_one (d : EventDescriptor) b : RunBundler :=
  match ed_name d with
  | None => b
  | Some name =>
      set_descriptors (<[name := ed_uid d]> (descriptors b))
        (set_bundle (install_descriptor name d (bundle b)) b)
  end.

Definition install_reconfigured (ds : list EventDescriptor) b : RunBundler :=
  foldl (λ b d, install_one d b) b ds.

Definition reset_checkpoint_state b : RunBundler :=
  set_seq_snapshot (Some (snapshot_seq_nums (bundle b))) b.

Definition clear_checkpoint b : RunBundler := set_seq_snapshot None b.

Definition create (stream_name : string) b : Result RunBundler BsrsError :=
  match opened b with
  | Some _ => Err (PlanE "create called while a previous bundle is still open")
  | None => Ok (set_opened (Some (mkOpen stream_name ∅ [])) b)
  end.

(** The colliding key named in the error is the first in the map's order. *)
Definition add_read (obj : StreamObject) (readings : gmap string ReadingValue) b
  : Result RunBundler BsrsError :=
  let! ob := ok_or (opened b) (PlanE "read with no open bundle") in
  match filter (λ k, is_Some (ob_readings ob !! k)) (map_to_list readings).*1 with
  | k :: _ => Err (PlanE ("Data keys (field names) collide in the open event: '" +:+ k +:+ "'"))
  | [] =>
      Ok (set_opened (Some (mkOpen (ob_stream ob) (readings ∪ ob_readings ob)
                              (ob_objs ob ++ [obj]))) b)
  end.

(** ** [prepare_stream]: the parts of a descriptor, folded over its objects *)

Record Parts := mkParts {
  p_data_keys : gmap string DataKey;
  p_object_keys : gmap string (list string);
  p_hints : gmap string PerObjectHint;
  p_configuration : gmap string Configuration;
}.

Definition fold_obj (p : Parts) (obj : StreamObject) : Parts :=
  match so_object obj with
  | None =>
      mkParts (so_data_keys obj ∪ p_data_keys p) (p_object_keys p) (p_hints p)
        (p_configuration p)
  | Some name =>
      let keys := sort_names (map_to_list (so_data_keys obj)).*1 in
      mkParts
        ((set_object_name (Some name) <$> so_data_keys obj) ∪ p_data_keys p)
        (<[name := keys]> (p_object_keys p))
        (match so_hint_fields obj with
         | Some fields =>
             let h := default (mkHint None None) (p_hints p !! name) in
             <[name := mkHint (Some fields) (NX_class h)]> (p_hints p)
         | None => p_hints p
         end)
        (<[name := so_configuration obj]> (p_configuration p))
  end.

Definition stream_parts (objs : list StreamObject) : Parts :=
  foldl fold_obj (mkParts ∅ ∅ ∅ ∅) objs.

Definition prepare_stream u t (stream_name : string) (objs : list StreamObject) b
  : EventDescriptor * RunBundler :=
  let p := stream_parts objs in
  let hints := if decide (p_hints p = ∅) then None else Some (p_hints p) in
  let '((d, _), bd) :=
    descriptor u t stream_name (p_data_keys p) (p_configuration p) hints (p_object_keys p)
      (bundle b) in
  (d, set_descriptors (<[stream_name := ed_uid d]> (descriptors b)) (set_bundle bd b)).

(** [save] with the UUIDs of the descriptor and of the event. An error after the
    bundle was taken keeps what was done. *)
Definition save ud ue t b : Result (list Document) BsrsError * RunBundler :=
  match opened b with
  | None => (Err (PlanE "save with no open bundle"), b)
  | Some ob =>
      let b := set_opened None b in
      match ob_objs ob with
      | [] => (Ok [], b)
      | objs =>
          let stream_name := ob_stream ob in
          let needs_descriptor :=
            match descriptors b !! stream_name with
            | Some uid => String.eqb uid EmptyString
            | None => true
            end in
          let '(out, b) :=
            if needs_descriptor : bool then
              let '(d, b) := prepare_stream ud t stream_name objs b in ([DocDescriptor d], b)
            else ([], b) in
          let data := rd_value <$> ob_readings ob in
          let timestamps := rd_timestamp <$> ob_readings ob in
          let '(ev, bd) := event ue t stream_name data timestamps (bundle b) in
          match ev with
          | None => (Err (PlanE "event for unknown stream"), set_bundle bd b)
          | Some ev => (Ok (out ++ [DocEvent ev]), set_bundle bd b)
          end
      end
  end.

Definition is_bundling b : bool := match opened b with Some _ => true | None => false end.

Definition open_stream_name b : option string := ob_stream <$> opened b.

Definition drop_bundle b : Result RunBundler BsrsError :=
  match opened b with
  | None => Err (PlanE "drop with no open bundle")
  | Some _ => Ok (set_opened None b)
  end.

Definition rewind b : RunBundler :=
  let b := set_opened None b in
  match seq_snapshot b with
  | Some snap => set_bundle (restore_seq_nums snap (bundle b)) b
  | None => b
  end.

Definition declare_stream u t (stream_name : string) (objs : list StreamObject) b
  : EventDescriptor * RunBundler := prepare_stream u t stream_name objs b.

Definition descriptor_uid (stream_name : string) b : option string :=
  match descriptors b !! stream_name with
  | Some uid => if String.eqb uid EmptyString then None else Some uid
  | None => None
  end.

(** ** A run on the wire

    What the engine broadcasts for a run, interleaved with the monitor pumps. A
    [Configure] is three kinds of step, as in the engine: the new descriptors are
    composed, broadcast one by one, then installed; pumps run in between, the
    messages of the plan do not. An operation that fails changes what the failing
    call changes and broadcasts nothing. *)

Record Wire := mkWire {
  w_bundler : RunBundler;
  w_docs : list Document;
  w_pending : list EventDescriptor;
  w_sent : list EventDescriptor;
}.

Implicit Types (w : Wire) (docs : list Document).

Definition wire_new (start : RunStart) : Wire :=
  mkWire (bundler_new (bundle_open start)) [DocStart start] [] [].

Inductive wire_op :=
| WCreate name
| WRead (obj : StreamObject) (readings : gmap string ReadingValue)
| WSave (ud ue : string) t
| WDrop
| WDeclare (ud : string) t name (objs : list StreamObject)
| WMonitor (ue : string) t name (data : gmap string Value) (timestamps : gmap string f64)
| WCompose (us : list string) t (object_name : string) (config : Configuration)
| WBroadcast
| WInstall
| WCheckpoint
| WClearCheckpoint
| WRewind.

Definition with_bundler (b : RunBundler) w : Wire := mkWire b (w_docs w) (w_pending w) (w_sent w).
Definition emit (ds : list Document) w : Wire :=
  mkWire (w_bundler w) (w_docs w ++ ds) (w_pending w) (w_sent w).
Definition attempt (r : Result RunBundler BsrsError) w : Wire :=
  match r with Ok b => with_bundler b w | Err _ => w end.

(** A [Configure] is under way. *)
Definition configuring w : bool :=
  match w_pending w, w_sent w with [], [] => false | _, _ => true end.

Definition plan_step (o : wire_op) w : Wire :=
  let b := w_bundler w in
  match o with
  | WCreate name => attempt (create name b) w
  | WRead obj readings => attempt (add_read obj readings b) w
  | WSave ud ue t =>
      let '(r, b) := save ud ue t b in
      match r with Ok ds => emit ds (with_bundler b w) | Err _ => with_bundler b w end
  | WDrop => attempt (drop_bundle b) w
  | WDeclare ud t name objs =>
      let '(d, b) := declare_stream ud t name objs b in emit [DocDescriptor d] (with_bundler b w)
  | WCompose us t object_name config =>
      mkWire (cache_configuration object_name config b) (w_docs w)
        (compose_reconfigure us t object_name config b) []
  | WCheckpoint => with_bundler (reset_checkpoint_state b) w
  | WClearCheckpoint => with_bundler (clear_checkpoint b) w
  | WRewind => with_bundler (rewind b) w
  | _ => w
  end.

Definition wire_step (o : wire_op) w : Wire :=
  match o with
  | WMonitor ue t name data timestamps =>
      let '(ev, bd) := event ue t name data timestamps (bundle (w_bundler w)) in
      let w := with_bundler (set_bundle bd (w_bundler w)) w in
      match ev with Some ev => emit [DocEvent ev] w | None => w end
  | WBroadcast =>
      match w_pending w with
      | d :: pending =>
          mkWire (w_bundler w) (w_docs w ++ [DocDescriptor d]) pending (w_sent w ++ [d])
      | [] => w
      end
  | WInstall =>
      match w_pending w with
      | [] => mkWire (install_reconfigured (w_sent w) (w_bundler w)) (w_docs w) [] []
      | _ => w
      end
  | _ => if configuring w then w else plan_step o w
  end.

Definition wire_run (os : list wire_op) w : Wire := foldl (λ w o, wire_step o w) w os.

(** ** Lemmas *)

(** [d] is on the wire before the event that needs it. *)
Definition referenced (run : string) docs (ev : Event) : Prop :=
  ∃ d, DocDescriptor d ∈ docs ∧ ed_uid d = ev_descriptor ev ∧ ed_run_start d = run.

Definition ordered (run : string) docs : Prop :=
  ∀ l1 ev l2, docs = l1 ++ DocEvent ev :: l2 → referenced run l1 ev.

Lemma ordered_snoc run docs d :
  ordered run docs → (∀ ev, d = DocEvent ev → referenced run docs ev) →
  ordered run (docs ++ [d]).
Proof.
  intros Ho Hd l1 ev l2. destruct l2 as [|x l2 _] using rev_ind; intros Heq.
  - apply app_inj_tail in Heq as [<- ->]. by apply Hd.
  - rewrite app_comm_cons, app_assoc in Heq. apply app_inj_tail in Heq as [-> _].
    by eapply Ho.
Qed.

(** The two descriptor caches agree, and every current descriptor is on the wire. *)
Record on_wire (b : RunBundler) docs : Prop := {
  ow_sync : ∀ name uid, descriptors b !! name = Some uid →
    ∃ st, streams (bundle b) !! name = Some st ∧ ed_uid (st_descriptor st) = uid;
  ow_sent : ∀ name st, streams (bundle b) !! name = Some st →
    DocDescriptor (st_descriptor st) ∈ docs
    ∧ ed_run_start (st_descriptor st) = start_uid (bundle b)
    ∧ ed_name (st_descriptor st) = Some name;
}.

Definition same_descriptors (bd bd' : RunBundle) : Prop :=
  start_uid bd' = start_uid bd
  ∧ ∀ name, st_descriptor <$> streams bd' !! name = st_descriptor <$> streams bd !! name.

Lemma same_descriptors_bump name n bd : same_descriptors bd (bump_seq name n bd).
Proof.
  split; [done|]. intros name'. simpl. destruct (decide (name = name')) as [->|].
  - rewrite lookup_alter_eq. by destruct (streams bd !! name').
  - by rewrite lookup_alter_ne.
Qed.

Lemma same_descriptors_restore snap bd : same_descriptors bd (restore_seq_nums snap bd).
Proof.
  split; [done|]. intros name. simpl. rewrite map_lookup_imap.
  by destruct (streams bd !! name).
Qed.

Lemma same_descriptors_lookup bd bd' name st :
  same_descriptors bd bd' → streams bd !! name = Some st →
  ∃ st', streams bd' !! name = Some st' ∧ st_descriptor st' = st_descriptor st.
Proof.
  intros [_ Hs] Hst. specialize (Hs name). rewrite Hst in Hs.
  apply fmap_Some in Hs as (st' & ? & ?). eauto.
Qed.

Lemma same_descriptors_sym bd bd' : same_descriptors bd bd' → same_descriptors bd' bd.
Proof. intros [? Hs]. split; [done|]. intros name. by rewrite Hs. Qed.

Lemma event_spec ue t name data ts bd :
  let '(ev, bd') := event ue t name data ts bd in
  same_descriptors bd bd'
  ∧ match ev with
    | Some ev => ∃ st, streams bd !! name = Some st ∧ ev_descriptor ev = ed_uid (st_descriptor st)
    | None => streams bd !! name = None
    end.
Proof.
  unfold event. destruct (streams bd !! name) as [st|] eqn:Hst; [|done].
  split; [apply same_descriptors_bump|]. by exists st.
Qed.

Lemma on_wire_same b b' docs docs' :
  on_wire b docs → same_descriptors (bundle b) (bundle b') → descriptors b' = descriptors b →
  docs ⊆ docs' → on_wire b' docs'.
Proof.
  intros [Hy Hs] Hsame Hd Hsub. split.
  - intros name uid. rewrite Hd. intros (st & Hst & <-)%Hy.
    apply (same_descriptors_lookup _ _ _ _ Hsame) in Hst as (st' & ? & <-). eauto.
  - intros name st Hst.
    apply (same_descriptors_lookup _ _ _ _ (same_descriptors_sym _ _ Hsame)) in Hst
      as (st' & Hst & <-).
    destruct Hsame as [-> _]. apply Hs in Hst as (? & ? & ?). split_and!; try done. by apply Hsub.
Qed.

(** A failed or bundle-free operation. *)
Lemma on_wire_opened v b docs : on_wire b docs → on_wire (set_opened v b) docs.
Proof. intros Hw. by eapply on_wire_same. Qed.

Lemma prepare_stream_on_wire u t name objs b docs :
  on_wire b docs →
  let '(d, b') := prepare_stream u t name objs b in
  on_wire b' (docs ++ [DocDescriptor d])
  ∧ start_uid (bundle b') = start_uid (bundle b)
  ∧ ∃ st, streams (bundle b') !! name = Some st ∧ st_descriptor st = d.
Proof.
  intros [Hy Hs]. unfold prepare_stream, descriptor.
  destruct (streams (bundle b) !! name) as [st|] eqn:Hst; simpl.
  - split; [|split; [done|by exists st]]. split; simpl.
    + intros name' uid. rewrite lookup_insert_Some.
      intros [[-> <-]|[_ Hd]]; [by exists st|by apply Hy].
    + intros name' st' (? & ? & ?)%Hs. split_and!; try done. apply elem_of_app. by left.
  - split; [|split; [done|eexists; by rewrite lookup_insert_eq]]. split; simpl.
    + intros name' uid. rewrite lookup_insert_Some. intros [[-> <-]|[Hne (st' & Hst' & <-)%Hy]].
      * eexists. by rewrite lookup_insert_eq.
      * exists st'. by rewrite lookup_insert_ne.
    + intros name' st'. rewrite lookup_insert_Some. intros [[-> <-]|[Hne (? & ? & ?)%Hs]].
      * split_and!; try done. apply elem_of_app. right. by apply list_elem_of_singleton.
      * split_and!; try done. apply elem_of_app. by left.
Qed.

Lemma start_uid_set_bundle v b : start_uid (bundle (set_bundle v b)) = start_uid v.
Proof. done. Qed.

(** The current descriptor of a stream on the wire: what an event of it needs. *)
Lemma on_wire_event ue t name data ts b docs :
  on_wire b docs → is_Some (streams (bundle b) !! name) →
  ∃ ev bd, event ue t name data ts (bundle b) = (Some ev, bd)
    ∧ start_uid bd = start_uid (bundle b)
    ∧ on_wire (set_bundle bd b) (docs ++ [DocEvent ev])
    ∧ referenced (start_uid (bundle b)) docs ev.
Proof.
  intros Hw [st Hst]. pose proof (event_spec ue t name data ts (bundle b)) as He.
  destruct (event ue t name data ts (bundle b)) as [[ev|] bd]; destruct He as [Hsame He];
    [|congruence].
  destruct He as (st' & Hst' & Hev). exists ev, bd. split_and!; [done|by destruct Hsame| |].
  - eapply on_wire_same; [exact Hw|done|done|]. intros x Hx. apply elem_of_app. by left.
  - destruct Hw as [_ Hs]. apply Hs in Hst' as (? & ? & _). by exists (st_descriptor st').
Qed.

(** The descriptors cache misses a stream only when it was never described (its UUIDs
    are not empty strings, or the cached descriptor is sent again). *)
Lemma save_on_wire ud ue t b docs :
  on_wire b docs → ordered (start_uid (bundle b)) docs →
  let '(r, b') := save ud ue t b in
  start_uid (bundle b') = start_uid (bundle b)
  ∧ match r with
    | Ok ds => on_wire b' (docs ++ ds) ∧ ordered (start_uid (bundle b)) (docs ++ ds)
    | Err _ => b' = b
    end.
Proof.
  intros Hw Ho. unfold save. destruct (opened b) as [ob|]; [|done].
  destruct (ob_objs ob) as [|obj objs] eqn:Hobjs; [rewrite app_nil_r; split_and!; [done|by apply on_wire_opened|done]|].
  set (b0 := set_opened None b). assert (on_wire b0 docs) as Hw0 by by apply on_wire_opened.
  change (start_uid (bundle b)) with (start_uid (bundle b0)) in *.
  set (data := rd_value <$> _). set (ts := rd_timestamp <$> _).
  destruct (match descriptors b0 !! _ with Some _ => _ | None => _ end) eqn:Hneeds.
  - pose proof (prepare_stream_on_wire ud t (ob_stream ob) (obj :: objs) b0 docs Hw0) as Hp.
    destruct (prepare_stream _ _ _ _ b0) as [d b1]. destruct Hp as (Hw1 & Hu1 & st & Hst & _).
    rewrite <-Hu1 in Ho |- *.
    destruct (on_wire_event ue t (ob_stream ob) data ts b1 _ Hw1) as (ev & bd & -> & Hu & Hw2 & Hr);
      [by rewrite Hst|].
    split; [done|]. replace (docs ++ [DocDescriptor d] ++ [DocEvent ev])
      with ((docs ++ [DocDescriptor d]) ++ [DocEvent ev]) by by rewrite <-app_assoc.
    split; [done|]. apply ordered_snoc; [by apply ordered_snoc|]. by intros ? [= <-].
  - assert (is_Some (streams (bundle b0) !! ob_stream ob)) as Hs.
    { destruct (descriptors b0 !! ob_stream ob) as [uid|] eqn:Hd; [|done].
      destruct Hw0 as [Hy _]. apply Hy in Hd as (st & -> & _). done. }
    destruct (on_wire_event ue t _ data ts b0 _ Hw0 Hs) as (ev & bd & -> & Hu & Hw2 & Hr).
    split; [done|]. split; [done|]. apply ordered_snoc; [done|]. by intros ? [= <-].
Qed.

(** A composed descriptor: of a stream of the bundler, with that stream's name. *)
Definition composed (bd : RunBundle) (d : EventDescriptor) : Prop :=
  ed_run_start d = start_uid bd
  ∧ ∃ name, ed_name d = Some name ∧ is_Some (streams bd !! name).

Lemma composed_same bd bd' d : same_descriptors bd bd' → composed bd d → composed bd' d.
Proof.
  intros [Hu Hs] [Hr (name & Hn & st & Hst)]. split; [by rewrite Hu|].
  exists name. split; [done|]. specialize (Hs name). rewrite Hst in Hs.
  apply fmap_Some in Hs as (st' & ? & _). eauto.
Qed.

Lemma compose_reconfigure_composed us t obj cf b docs :
  on_wire b docs → Forall (composed (bundle b)) (compose_reconfigure us t obj cf b).
Proof.
  intros [_ Hs]. apply Forall_forall. intros d ([name u] & _ & Hd)%list_elem_of_omap.
  unfold compose_redescribe in Hd. simpl in Hd. apply bind_Some in Hd as (st & Hst & Hd).
  case_decide; simplify_eq/=. apply Hs in Hst as Hst'. destruct Hst' as (_ & Hr & Hn).
  split; [done|]. exists name. by rewrite Hst.
Qed.

Lemma install_on_wire d b docs :
  on_wire b docs → composed (bundle b) d → DocDescriptor d ∈ docs →
  on_wire (install_one d b) docs ∧ start_uid (bundle (install_one d b)) = start_uid (bundle b)
  ∧ ∀ name, is_Some (streams (bundle (install_one d b)) !! name)
            ↔ is_Some (streams (bundle b) !! name).
Proof.
  intros [Hy Hs] [Hr (name & Hn & st & Hst)] Hd. unfold install_one. rewrite Hn. simpl.
  split_and!; [split|done|].
  - intros name' uid. simpl. rewrite lookup_insert_Some. intros [[-> <-]|[Hne (st' & ? & <-)%Hy]].
    + eexists. by rewrite lookup_alter_eq, Hst.
    + exists st'. by rewrite lookup_alter_ne.
  - intros name' st'. simpl. rewrite lookup_alter_Some. intros [(-> & st0 & _ & ->)|[_ ?]].
    + done.
    + by apply Hs.
  - intros name'. destruct (decide (name = name')) as [->|].
    + rewrite lookup_alter_eq, Hst. simpl. split; eauto.
    + by rewrite lookup_alter_ne.
Qed.

Lemma install_all_on_wire ds : ∀ b docs,
  on_wire b docs → Forall (composed (bundle b)) ds → Forall (λ d, DocDescriptor d ∈ docs) ds →
  on_wire (install_reconfigured ds b) docs
  ∧ start_uid (bundle (install_reconfigured ds b)) = start_uid (bundle b).
Proof.
  induction ds as [|d ds IH]; intros b docs Hw Hc Hd; [done|].
  apply Forall_cons in Hc as [Hc Hcs]. apply Forall_cons in Hd as [Hd Hds].
  destruct (install_on_wire d b docs Hw Hc Hd) as (Hw' & Hu & Hdom). simpl.
  rewrite <-Hu. apply IH; [done| |done].
  eapply Forall_impl; [exact Hcs|]. intros d' [Hr (name & Hn & Hst)].
  split; [by rewrite Hu|]. exists name. split; [done|]. by apply Hdom.
Qed.

(** ** The invariant of a run on the wire *)

Record wire_ok (run : string) w : Prop := {
  wo_run : start_uid (bundle (w_bundler w)) = run;
  wo_on_wire : on_wire (w_bundler w) (w_docs w);
  wo_ordered : ordered run (w_docs w);
  wo_composed : Forall (composed (bundle (w_bundler w))) (w_pending w ++ w_sent w);
  wo_sent : Forall (λ d, DocDescriptor d ∈ w_docs w) (w_sent w);
}.

Lemma idle_lists w : configuring w = false → w_pending w = [] ∧ w_sent w = [].
Proof. unfold configuring. by destruct (w_pending w), (w_sent w). Qed.

(** Between configures only the bundler and the documents matter. *)
Lemma wire_ok_idle run b docs :
  start_uid (bundle b) = run → on_wire b docs → ordered run docs → wire_ok run (mkWire b docs [] []).
Proof. intros ???. by split. Qed.

Lemma attempt_ok run r w :
  configuring w = false → wire_ok run w →
  (∀ b, r = Ok b → bundle b = bundle (w_bundler w) ∧ descriptors b = descriptors (w_bundler w)) →
  wire_ok run (attempt r w).
Proof.
  intros [Hp Hs]%idle_lists [Hr Hw Ho _ _] Hb. destruct r as [b|e]; simpl.
  - destruct (Hb b eq_refl) as [Hbd Hd]. unfold with_bundler. rewrite Hp, Hs.
    apply wire_ok_idle; [by rewrite Hbd| |done]. eapply on_wire_same; [exact Hw| |done|done].
    by rewrite Hbd.
  - destruct w. simpl in *. subst. by apply wire_ok_idle.
Qed.

Lemma plan_step_ok run o w : configuring w = false → wire_ok run w → wire_ok run (plan_step o w).
Proof.
  intros Hc Hok. pose proof (idle_lists w Hc) as [Hp Hs]. pose proof Hok as [Hr Hw Ho _ _].
  destruct o as [name|obj readings|ud ue t| |ud t name objs|ue t name data ts|us t obj cf| | | | |];
    simpl; try done.
  - apply attempt_ok; [done..|]. intros b. unfold create. destruct (opened _); by intros [= <-].
  - apply attempt_ok; [done..|]. intros b. unfold add_read, ok_or.
    destruct (opened _); [|done]. case_match; [|done]. by intros [= <-].
  - pose proof (save_on_wire ud ue t (w_bundler w) (w_docs w) Hw) as Hsv. rewrite Hr in Hsv.
    specialize (Hsv Ho). destruct (save ud ue t (w_bundler w)) as [[ds|e] b].
    + destruct Hsv as (Hu & Hw' & Ho'). unfold emit, with_bundler. simpl. rewrite Hp, Hs.
      by apply wire_ok_idle.
    + destruct Hsv as [_ ->]. by destruct w.
  - apply attempt_ok; [done..|]. intros b. unfold drop_bundle. destruct (opened _); by intros [= <-].
  - unfold declare_stream.
    pose proof (prepare_stream_on_wire ud t name objs (w_bundler w) (w_docs w) Hw) as Hps.
    destruct (prepare_stream _ _ _ _ _) as [d b]. destruct Hps as (Hw' & Hu & _).
    unfold emit, with_bundler. simpl. rewrite Hp, Hs. apply wire_ok_idle; [by rewrite Hu|done|].
    by apply ordered_snoc.
  - split; simpl; [done|by eapply on_wire_same|done| |done].
    rewrite app_nil_r. by eapply compose_reconfigure_composed.
  - unfold with_bundler. rewrite Hp, Hs. by apply wire_ok_idle; [|eapply on_wire_same|].
  - unfold with_bundler. rewrite Hp, Hs. by apply wire_ok_idle; [|eapply on_wire_same|].
  - unfold with_bundler. rewrite Hp, Hs. unfold rewind.
    destruct (seq_snapshot _) as [snap|]; apply wire_ok_idle; try done.
    + eapply on_wire_same; [exact Hw|apply same_descriptors_restore|done|done].
    + by apply on_wire_opened.
Qed.

Lemma wire_step_ok run o w : wire_ok run w → wire_ok run (wire_step o w).
Proof.
  intros Hok. pose proof Hok as [Hr Hw Ho Hc Hs].
  assert (wire_ok run (if configuring w then w else plan_step o w)) as Hplan.
  { destruct (configuring w) eqn:?; [done|by apply plan_step_ok]. }
  destruct o as [name|obj readings|ud ue t| |ud t name objs|ue t name data ts|us t obj cf| | | | |];
    simpl wire_step; try exact Hplan.
  - pose proof (event_spec ue t name data ts (bundle (w_bundler w))) as He.
    destruct (streams (bundle (w_bundler w)) !! name) as [st|] eqn:Hst.
    + destruct (on_wire_event ue t name data ts (w_bundler w) (w_docs w) Hw) as
        (ev & bd & Heq & Hu & Hw' & Href); [by rewrite Hst|].
      rewrite Heq in He |- *. destruct He as [Hsame _]. rewrite Hr in Href.
      split; simpl; [by rewrite Hu|done| | |].
      * apply ordered_snoc; [done|]. by intros ? [= <-].
      * eapply Forall_impl; [exact Hc|]. intros d. by apply composed_same.
      * eapply Forall_impl; [exact Hs|]. intros d Hd. apply elem_of_app. by left.
    + unfold event. rewrite Hst. simpl. by destruct w as [[] ? ? ?].
  - destruct (w_pending w) as [|d pending] eqn:Hp; [done|].
    split; simpl; [done| | | |].
    + eapply on_wire_same; [exact Hw|done|done|]. intros x Hx. apply elem_of_app. by left.
    + by apply ordered_snoc.
    + rewrite app_assoc. apply Forall_app. split; [|].
      * apply Forall_cons in Hc as [_ Hc]. done.
      * apply Forall_cons in Hc as [Hd _]. by constructor.
    + apply Forall_app. split.
      * eapply Forall_impl; [exact Hs|]. intros d' Hd. apply elem_of_app. by left.
      * constructor; [|done]. apply elem_of_app. right. by apply list_elem_of_singleton.
  - destruct (w_pending w) as [|d pending] eqn:Hp; [|done]. simpl in Hc.
    destruct (install_all_on_wire (w_sent w) (w_bundler w) (w_docs w) Hw Hc Hs) as [Hw' Hu].
    apply wire_ok_idle; [by rewrite Hu|done|done].
Qed.

Lemma wire_run_ok run os : ∀ w, wire_ok run w → wire_ok run (wire_run os w).
Proof.
  induction os as [|o os IH]; intros w Hok; [done|]. apply IH. by apply wire_step_ok.
Qed.

Lemma wire_new_ok start : wire_ok (rs_uid start) (wire_new start).
Proof.
  split; simpl; try done. intros l1 ev l2 Heq.
  destruct l1 as [|x l1]; [discriminate|]. by destruct l1.
Qed.

(** C21: Descriptor before event: whatever the plan creates, reads, saves, drops, declares,
    reconfigures, checkpoints and rewinds, and whatever the monitor pumps emit in
    between, every event on the wire comes after a descriptor of the same run that
    it names. *)
Theorem descriptor_before_event start os l1 ev l2 :
  w_docs (wire_run os (wire_new start)) = l1 ++ DocEvent ev :: l2 →
  ∃ d, DocDescriptor d ∈ l1 ∧ ed_uid d = ev_descriptor ev ∧ ed_run_start d = rs_uid start.
Proof.
  pose proof (wire_run_ok _ os _ (wire_new_ok start)) as [_ _ Ho _ _]. apply Ho.
Qed.

(** ** Rewind and replay *)

(** The messages a rewind replays, without the UUIDs and times they consume: the
    [n]-th of a sequence takes [f n], [g n] and [t n]. *)
Inductive verb :=
| VCreate name
| VRead (obj : StreamObject) (readings : gmap string ReadingValue)
| VSave
| VDrop
| VDeclare name (objs : list StreamObject).

Record Fresh := mkFresh { f_desc : nat → string; f_event : nat → string; f_time : nat → f64 }.

Definition verb_op (fr : Fresh) (n : nat) (v : verb) : wire_op :=
  match v with
  | VCreate name => WCreate name
  | VRead obj readings => WRead obj readings
  | VSave => WSave (f_desc fr n) (f_event fr n) (f_time fr n)
  | VDrop => WDrop
  | VDeclare name objs => WDeclare (f_desc fr n) (f_time fr n) name objs
  end.

(** What an event says, its UUID, time and descriptor generation aside. *)
Definition event_obs (d : Document) : option (Z * gmap string Value * gmap string f64) :=
  match d with DocEvent ev => Some (ev_seq_num ev, ev_data ev, ev_timestamps ev) | _ => None end.

(** The events a sequence of messages emits from a bundler. *)
Definition replayed (fr : Fresh) (vs : list verb) b : list (Z * gmap string Value * gmap string f64) :=
  omap event_obs (w_docs (wire_run (imap (verb_op fr) vs) (mkWire b [] [] []))).

(** Two bundlers the same messages cannot tell apart. *)
Record alike b b' : Prop := {
  al_opened : opened b' = opened b;
  al_seq : ∀ name, last_seq name (bundle b') = last_seq name (bundle b);
}.

Definition synced b : Prop := ∀ name uid, descriptors b !! name = Some uid →
  is_Some (streams (bundle b) !! name).

Lemma on_wire_synced b docs : on_wire b docs → synced b.
Proof. intros [Hy _] name uid (st & -> & _)%Hy. done. Qed.

Lemma last_seq_prepare u t name objs b name' :
  let '(_, b') := prepare_stream u t name objs b in
  last_seq name' (bundle b') = last_seq name' (bundle b) ∧ opened b' = opened b
  ∧ is_Some (streams (bundle b') !! name) ∧ (synced b → synced b').
Proof.
  unfold prepare_stream, descriptor, last_seq.
  destruct (streams (bundle b) !! name) as [st|] eqn:Hst; simpl.
  - split_and!; [done|done|by rewrite Hst|]. intros Hs n uid. simpl.
    rewrite lookup_insert_Some. intros [[-> _]|[_ Hd]]; [by rewrite Hst|by eapply Hs].
  - split_and!; [|done|by rewrite lookup_insert_eq|].
    + destruct (decide (name = name')) as [->|]; [by rewrite lookup_insert_eq, Hst|].
      by rewrite lookup_insert_ne.
    + intros Hs n uid. simpl. rewrite lookup_insert_Some. intros [[-> _]|[Hne Hd]].
      * by rewrite lookup_insert_eq.
      * rewrite lookup_insert_ne by done. by eapply Hs.
Qed.

(** [save], as far as its observations go. *)
Lemma save_obs ud ue t b :
  synced b →
  let '(r, b') := save ud ue t b in
  synced b' ∧ opened b' = None
  ∧ match r, opened b with
    | Ok ds, Some ob =>
        if decide (ob_objs ob = []) then
          omap event_obs ds = [] ∧ ∀ name, last_seq name (bundle b') = last_seq name (bundle b)
        else
          let n := wrap64 (last_seq (ob_stream ob) (bundle b) + 1) in
          omap event_obs ds = [(n, rd_value <$> ob_readings ob, rd_timestamp <$> ob_readings ob)]
          ∧ ∀ name, last_seq name (bundle b') =
                    if decide (ob_stream ob = name) then n else last_seq name (bundle b)
    | Err _, None => b' = b
    | _, _ => False
    end.
Proof.
  intros Hs. unfold save. destruct (opened b) as [ob|] eqn:Hob; [|done].
  destruct (ob_objs ob) as [|obj objs] eqn:Hobjs; [done|].
  assert (∀ b1, synced b1 → opened b1 = None → is_Some (streams (bundle b1) !! ob_stream ob) →
    (∀ name, last_seq name (bundle b1) = last_seq name (bundle b)) →
    let '(ev, bd) := event ue t (ob_stream ob) (rd_value <$> ob_readings ob)
                       (rd_timestamp <$> ob_readings ob) (bundle b1) in
    let n := wrap64 (last_seq (ob_stream ob) (bundle b) + 1) in
    synced (set_bundle bd b1) ∧ opened b1 = None
    ∧ ∃ ev', ev = Some ev' ∧ event_obs (DocEvent ev') =
        Some (n, rd_value <$> ob_readings ob, rd_timestamp <$> ob_readings ob)
    ∧ ∀ name, last_seq name bd =
              if decide (ob_stream ob = name) then n else last_seq name (bundle b)) as Hev.
  { intros b1 Hs1 Ho1 [st Hst] Hl. unfold event. rewrite Hst. split; [|split; [done|]].
    - intros name uid Hd. simpl in *. apply Hs1 in Hd as [st' Hst'].
      apply lookup_alter_is_Some. by rewrite Hst'.
    - eexists. split; [done|]. rewrite <-!Hl. unfold last_seq at 1. rewrite Hst. split; [done|].
      intros name. rewrite last_seq_bump, <-Hl by (by rewrite Hst).
      repeat case_decide; try done. subst. unfold last_seq. by rewrite Hst. }
  destruct (match descriptors (set_opened None b) !! _ with Some _ => _ | None => _ end) eqn:Hneeds.
  - pose proof (last_seq_prepare ud t (ob_stream ob) (obj :: objs) (set_opened None b)) as Hp.
    destruct (prepare_stream _ _ _ _ _) as [d b1]. simpl in Hp.
    destruct (Hp EmptyString) as (_ & Ho1 & Hst1 & Hs1).
    specialize (Hev b1 (Hs1 Hs) Ho1 Hst1 (λ name, proj1 (Hp name))).
    destruct (event _ _ _ _ _ (bundle b1)) as [ev bd]. destruct Hev as (? & ? & ev' & -> & He & Hl).
    split; [done|]. split; [done|]. rewrite decide_False by congruence.
    split; [|done]. simpl in He |- *. by injection He as -> -> ->.
  - assert (is_Some (streams (bundle b) !! ob_stream ob)) as Hst.
    { simpl in Hneeds. destruct (descriptors b !! ob_stream ob) as [uid|] eqn:Hd; [|done].
      by eapply Hs. }
    specialize (Hev (set_opened None b) Hs eq_refl Hst (λ _, eq_refl)).
    change (bundle (set_opened None b)) with (bundle b) in *.
    destruct (event _ _ _ _ _ (bundle b)) as [ev bd]. destruct Hev as (? & ? & ev' & -> & He & Hl).
    split; [done|]. split; [done|]. rewrite decide_False by congruence.
    split; [|done]. simpl in He |- *. by injection He as -> -> ->.
Qed.

(** Two wires the same messages drive alike. *)
Record sim w w' : Prop := {
  sim_idle : configuring w = false ∧ configuring w' = false;
  sim_synced : synced (w_bundler w) ∧ synced (w_bundler w');
  sim_alike : alike (w_bundler w) (w_bundler w');
  sim_docs : omap event_obs (w_docs w') = omap event_obs (w_docs w);
}.

Definition same_verb (o o' : wire_op) : Prop :=
  ∃ fr fr' n n' v, o = verb_op fr n v ∧ o' = verb_op fr' n' v.

Lemma sim_attempt (f : RunBundler → Result RunBundler BsrsError) w w' :
  sim w w' →
  (∀ b b', alike b b' →
     (∃ ob, f b = Ok (set_opened ob b) ∧ f b' = Ok (set_opened ob b'))
     ∨ (∃ e, f b = Err e ∧ f b' = Err e)) →
  sim (attempt (f (w_bundler w)) w) (attempt (f (w_bundler w')) w').
Proof.
  intros [Hi Hs Ha Hd] Hf. destruct (Hf _ _ Ha) as [(ob & -> & ->)|(e & -> & ->)]; [|by split].
  split; simpl; [done|done| |done]. by split; [|apply Ha].
Qed.

Lemma sim_emit b b' ds ds' w w' :
  sim w w' → synced b → synced b' → alike b b' → omap event_obs ds' = omap event_obs ds →
  sim (emit ds (with_bundler b w)) (emit ds' (with_bundler b' w')).
Proof.
  intros [Hi _ _ Hd] Hs Hs' Ha He. split; simpl; [done|done|done|].
  by rewrite !omap_app, Hd, He.
Qed.

Lemma sim_step o o' w w' : same_verb o o' → sim w w' → sim (wire_step o w) (wire_step o' w').
Proof.
  intros (fr & fr' & n & n' & v & -> & ->) Hsim. pose proof Hsim as [[Hi Hi'] [Hs Hs'] [Ho Hl] Hd].
  destruct v as [name|obj readings| | |name objs]; simpl wire_step; rewrite Hi, Hi';
    simpl plan_step.
  - apply sim_attempt; [done|]. intros b b' [Heq _]. unfold create. rewrite Heq.
    destruct (opened b); [right|left]; eauto.
  - apply sim_attempt; [done|]. intros b b' [Heq _]. unfold add_read. rewrite Heq.
    destruct (opened b); simpl; [|right; eauto]. case_match; [left|right]; eauto.
  - pose proof (save_obs (f_desc fr n) (f_event fr n) (f_time fr n) (w_bundler w) Hs) as H1.
    pose proof (save_obs (f_desc fr' n') (f_event fr' n') (f_time fr' n') (w_bundler w') Hs') as H2.
    destruct (save _ _ _ (w_bundler w)) as [r b1], (save _ _ _ (w_bundler w')) as [r' b1'].
    destruct H1 as (Hs1 & Ho1 & H1), H2 as (Hs2 & Ho2 & H2). rewrite Ho in H2.
    destruct (opened (w_bundler w)) as [ob|], r as [ds|e], r' as [ds'|e']; try done.
    + apply sim_emit; [done..| |]; [split; [congruence|]|]; case_decide;
        destruct H1 as [He1 Hl1], H2 as [He2 Hl2].
      * intros name. by rewrite Hl1, Hl2, Hl.
      * intros name. rewrite Hl1, Hl2, !Hl. done.
      * by rewrite He1, He2.
      * by rewrite He1, He2, Hl.
    + subst. destruct w, w'. simpl in *. done.
  - apply sim_attempt; [done|]. intros b b' [Heq _]. unfold drop_bundle. rewrite Heq.
    destruct (opened b); [left|right]; eauto.
  - unfold declare_stream.
    pose proof (last_seq_prepare (f_desc fr n) (f_time fr n) name objs (w_bundler w)) as H1.
    pose proof (last_seq_prepare (f_desc fr' n') (f_time fr' n') name objs (w_bundler w')) as H2.
    destruct (prepare_stream _ _ _ _ (w_bundler w)) as [d b1].
    destruct (prepare_stream _ _ _ _ (w_bundler w')) as [d' b1'].
    destruct (H1 EmptyString) as (_ & Ho1 & _ & Hs1), (H2 EmptyString) as (_ & Ho2 & _ & Hs2).
    apply sim_emit; [done|by apply Hs1|by apply Hs2| |done].
    split; [congruence|]. intros name'. destruct (H1 name') as [-> _], (H2 name') as [-> _]. done.
Qed.

Lemma sim_run os : ∀ os' w w', Forall2 same_verb os os' → sim w w' →
  sim (wire_run os w) (wire_run os' w').
Proof.
  induction os as [|o os IH]; intros os' w w' Hv Hsim.
  - by apply Forall2_nil_inv_l in Hv as ->.
  - apply Forall2_cons_inv_l in Hv as (o' & os1 & Hv & Hvs & ->). simpl.
    apply IH; [done|]. by apply sim_step.
Qed.

Lemma same_verbs fr fr' vs k k' :
  Forall2 same_verb (imap (λ n, verb_op fr (k + n)) vs) (imap (λ n, verb_op fr' (k' + n)) vs).
Proof.
  revert k k'. induction vs as [|v vs IH]; intros k k'; [constructor|].
  rewrite !imap_cons. constructor; [by eexists fr, fr', _, _, v|].
  specialize (IH (S k) (S k')).
  assert (∀ fr j, imap ((λ n, verb_op fr (j + n)) ∘ S) vs = imap (λ n, verb_op fr (S j + n)) vs)
    as Hs by (intros; apply imap_ext; intros; simpl; f_equal; lia).
  by rewrite !Hs.
Qed.

Lemma replayed_alike fr fr' vs b b' :
  synced b → synced b' → alike b b' → replayed fr' vs b' = replayed fr vs b.
Proof.
  intros Hs Hs' Ha. unfold replayed. apply sim_docs. apply sim_run; [|by split].
  apply (same_verbs fr fr' vs 0 0).
Qed.

(** What happens between a checkpoint and the rewind keeps the snapshot and the
    streams. *)
Definition no_checkpoint (o : wire_op) : Prop :=
  match o with WCheckpoint | WClearCheckpoint => False | _ => True end.

Record kept b b' : Prop := {
  kept_snapshot : seq_snapshot b' = seq_snapshot b;
  kept_streams : ∀ name, is_Some (streams (bundle b) !! name) → is_Some (streams (bundle b') !! name);
}.

Lemma kept_refl b : kept b b.
Proof. done. Qed.

Lemma kept_trans b1 b2 b3 : kept b1 b2 → kept b2 b3 → kept b1 b3.
Proof. intros [H1 H2] [H3 H4]. split; [congruence|eauto]. Qed.

Lemma kept_same b b' :
  seq_snapshot b' = seq_snapshot b → same_descriptors (bundle b) (bundle b') → kept b b'.
Proof.
  intros Hq Hs. split; [done|]. intros name [st Hst].
  by apply (same_descriptors_lookup _ _ _ _ Hs) in Hst as (st' & -> & _).
Qed.

Lemma kept_prepare u t name objs b : kept b (prepare_stream u t name objs b).2.
Proof.
  unfold prepare_stream, descriptor. destruct (streams (bundle b) !! name); simpl; [done|].
  split; [done|]. intros name' Hn. simpl. apply lookup_insert_is_Some'. by right.
Qed.

Lemma kept_save ud ue t b : kept b (save ud ue t b).2.
Proof.
  unfold save. destruct (opened b) as [ob|]; [|done]. destruct (ob_objs ob); [done|].
  assert (∀ out b1 data ts, kept b b1 → kept b
    (let '(ev, bd) := event ue t (ob_stream ob) data ts (bundle b1) in
     match ev with
     | None => (@Err (list Document) _ (PlanE "event for unknown stream"), set_bundle bd b1)
     | Some ev => (Ok (out ++ [DocEvent ev]), set_bundle bd b1)
     end).2) as Hev.
  { intros out b1 data ts Hk. pose proof (event_spec ue t (ob_stream ob) data ts (bundle b1)) as He.
    destruct (event _ _ _ _ _ _) as [[ev|] bd]; destruct He as [Hsame _];
      (eapply kept_trans; [exact Hk|by apply kept_same]). }
  destruct (match descriptors (set_opened None b) !! _ with Some _ => _ | None => _ end).
  - pose proof (kept_prepare ud t (ob_stream ob) (s :: l) (set_opened None b)) as Hk.
    destruct (prepare_stream _ _ _ _ _) as [d b1]. apply Hev. by destruct Hk.
  - by apply (Hev [] (set_opened None b)).
Qed.

Lemma kept_install ds : ∀ b, kept b (install_reconfigured ds b).
Proof.
  induction ds as [|d ds IH]; intros b; [done|]. simpl. eapply kept_trans; [|apply IH].
  unfold install_one. destruct (ed_name d) as [name|]; [|done].
  split; [done|]. intros name' [st Hst]. simpl. destruct (decide (name = name')) as [->|].
  - rewrite lookup_alter_eq, Hst. by eexists.
  - rewrite lookup_alter_ne by done. by eexists.
Qed.

Lemma kept_attempt (r : Result RunBundler BsrsError) w :
  (∀ b, r = Ok b → kept (w_bundler w) b) → kept (w_bundler w) (w_bundler (attempt r w)).
Proof. intros Hr. destruct r; simpl; [by apply Hr|done]. Qed.

Lemma kept_step o w : no_checkpoint o → kept (w_bundler w) (w_bundler (wire_step o w)).
Proof.
  intros Ho. assert (kept (w_bundler w) (w_bundler (if configuring w then w else plan_step o w)))
    as Hplan.
  { destruct (configuring w); [done|].
    destruct o as [name|obj readings|ud ue t| |ud t name objs|ue t name data ts|us t obj cf| | | | |];
      simpl; try done.
    - apply kept_attempt. intros b. unfold create. destruct (opened _); by intros [= <-].
    - apply kept_attempt. intros b. unfold add_read, ok_or.
      destruct (opened _); [|done]. case_match; [|done]. by intros [= <-].
    - pose proof (kept_save ud ue t (w_bundler w)) as Hk.
      by destruct (save ud ue t (w_bundler w)) as [[] b].
    - apply kept_attempt. intros b. unfold drop_bundle. destruct (opened _); by intros [= <-].
    - pose proof (kept_prepare ud t name objs (w_bundler w)) as Hk. unfold declare_stream.
      by destruct (prepare_stream _ _ _ _ _).
    - unfold rewind. destruct (seq_snapshot _) as [snap|] eqn:Hq; [|done].
      apply kept_same; [done|]. apply same_descriptors_restore. }
  destruct o as [name|obj readings|ud ue t| |ud t name objs|ue t name data ts|us t obj cf| | | | |];
    simpl wire_step; try exact Hplan; try done.
  - pose proof (event_spec ue t name data ts (bundle (w_bundler w))) as He.
    destruct (event _ _ _ _ _ _) as [[ev|] bd]; destruct He as [Hs _]; by apply kept_same.
  - by destruct (w_pending w).
  - destruct (w_pending w); [|done]. apply kept_install.
Qed.

Lemma kept_run os : ∀ w, Forall no_checkpoint os → kept (w_bundler w) (w_bundler (wire_run os w)).
Proof.
  induction os as [|o os IH]; intros w Hn; [done|]. apply Forall_cons in Hn as [Ho Hn]. simpl.
  eapply kept_trans; [by apply kept_step|by apply IH].
Qed.

Lemma rewind_alike b b1 :
  opened b = None → seq_snapshot b = Some (snapshot_seq_nums (bundle b)) → kept b b1 →
  alike b (rewind b1).
Proof.
  intros Ho Hq [Hq1 Hs1]. unfold rewind. rewrite Hq in Hq1. simpl. rewrite Hq1.
  split; [by rewrite Ho|]. intros name. unfold last_seq. simpl. rewrite map_lookup_imap.
  destruct (streams (bundle b1) !! name) as [st|] eqn:Hst; simpl.
  - unfold snapshot_seq_nums. by rewrite lookup_fmap.
  - destruct (streams (bundle b) !! name) eqn:Hb; [|done].
    destruct (Hs1 name) as [? Hc]; [by rewrite Hb|]. congruence.
Qed.

Lemma rewind_synced b : synced b → synced (rewind b).
Proof.
  intros Hs. unfold rewind. destruct (seq_snapshot _) as [snap|]; [|done].
  intros name uid Hd. simpl. rewrite map_lookup_imap.
  apply (Hs name uid) in Hd as [st Hst]. simpl. by rewrite Hst.
Qed.

(** C22: A rewind replays faithfully: after a checkpoint outside a bundle, whatever the run
    did since (saves, new streams, half a bundle, monitor events), the messages
    replayed after the rewind emit the events the same messages would have emitted
    from the checkpoint: the same numbers, data and timestamps, in order. *)
Theorem rewind_replays start os mid vs fr fr' :
  let w := wire_run os (wire_new start) in
  configuring w = false → opened (w_bundler w) = None → Forall no_checkpoint mid →
  let w1 := wire_run (WCheckpoint :: mid) w in
  replayed fr' vs (rewind (w_bundler w1)) = replayed fr vs (w_bundler (wire_step WCheckpoint w)).
Proof.
  intros w Hc Ho Hmid w1. pose proof (wire_run_ok _ os _ (wire_new_ok start)) as Hok. fold w in Hok.
  pose proof (wire_step_ok _ WCheckpoint w Hok) as Hok0.
  pose proof (wire_run_ok _ mid _ Hok0) as Hok1.
  set (w0 := wire_step WCheckpoint w) in *.
  change (wire_run mid w0) with w1 in Hok1.
  apply replayed_alike.
  - eapply on_wire_synced, wo_on_wire. exact Hok0.
  - apply rewind_synced. eapply on_wire_synced, wo_on_wire. exact Hok1.
  - apply rewind_alike; [| |exact (kept_run mid w0 Hmid)]; unfold w0; simpl; by rewrite Hc.
Qed.

Lemma monitor_step ue t name data ts b docs st :
  streams (bundle b) !! name = Some st →
  wire_step (WMonitor ue t name data ts) (mkWire b docs [] [])
  = mkWire (set_bundle (bump_seq name 1 (bundle b)) b)
      (docs ++ [DocEvent (mkEvent ue (ed_uid (st_descriptor st)) t
                            (wrap64 (seq_num st + 1)) data ts ∅)]) [] [].
Proof. intros Hst. simpl. unfold event. by rewrite Hst. Qed.

(** A rewind takes numbers back that it does not replay: an event a monitor emitted
    after the checkpoint stays on the wire, and the monitor's next event after the
    rewind carries the same number of the same descriptor. *)
Theorem rewind_repeats_monitor_numbers start os name st e1 e2 t1 t2 data1 data2 ts1 ts2 :
  let w := wire_run os (wire_new start) in
  configuring w = false → streams (bundle (w_bundler w)) !! name = Some st →
  ∃ ev1 ev2, w_docs (wire_run [WCheckpoint; WMonitor e1 t1 name data1 ts1; WRewind;
                               WMonitor e2 t2 name data2 ts2] w)
      = w_docs w ++ [DocEvent ev1; DocEvent ev2]
    ∧ ev_seq_num ev1 = ev_seq_num ev2 ∧ ev_descriptor ev1 = ev_descriptor ev2
    ∧ ev_data ev1 = data1 ∧ ev_data ev2 = data2.
Proof.
  intros w Hc Hst. destruct (idle_lists w Hc) as [Hp Hs]. clearbody w.
  destruct w as [b docs pending sent]. simpl in Hst, Hp, Hs. subst.
  unfold wire_run. cbn [foldl].
  change (wire_step WCheckpoint (mkWire b docs [] []))
    with (mkWire (reset_checkpoint_state b) docs [] []).
  rewrite (monitor_step _ _ _ _ _ _ _ st) by done.
  set (b1 := set_bundle _ _). set (docs1 := docs ++ _).
  change (wire_step WRewind (mkWire b1 docs1 [] [])) with (mkWire (rewind b1) docs1 [] []).
  assert (streams (bundle (rewind b1)) !! name = Some (mkStream (st_descriptor st) (seq_num st)))
    as Hst1.
  { unfold b1, rewind. simpl. rewrite map_lookup_imap, lookup_alter_eq, Hst. simpl.
    unfold snapshot_seq_nums. by rewrite lookup_fmap, Hst. }
  rewrite (monitor_step _ _ _ _ _ _ _ _ Hst1). unfold docs1. simpl.
  eexists _, _. rewrite <-app_assoc. split; [done|]. done.
Qed.

(** An event may carry data keys its descriptor does not declare: a later bundle of a
    stream is saved against the stream's first descriptor whatever it read. *)
Theorem save_accepts_undeclared_keys ud ue t b ob uid st obj objs key rd :
  opened b = Some ob → ob_objs ob = obj :: objs →
  descriptors b !! ob_stream ob = Some uid → uid ≠ EmptyString →
  streams (bundle b) !! ob_stream ob = Some st →
  ob_readings ob !! key = Some rd → ed_data_keys (st_descriptor st) !! key = None →
  ∃ ev, (save ud ue t b).1 = Ok [DocEvent ev] ∧ ev_descriptor ev = ed_uid (st_descriptor st)
    ∧ ev_data ev !! key = Some (rd_value rd).
Proof.
  intros Ho Hobjs Hd Hu Hst Hr Hk. unfold save. rewrite Ho, Hobjs. simpl. rewrite Hd.
  apply String.eqb_neq in Hu. rewrite Hu. unfold event. simpl. rewrite Hst. simpl.
  eexists. split_and!; [done|done|]. simpl. by rewrite lookup_fmap, Hr.
Qed.
End bundler.

(** ** Witnesses *)

Module ExB.
Export Compose.ExC.
Definition det (n k : string) : StreamObject :=
  mkStreamObject (Some n) {[k := make_datakey "src" DNumber [] None
                                  (mkSignalMetadata None None None None)]} None
    configuration_default.
Definition reading (k : string) (v : bool) : gmap string ReadingValue :=
  {[k := mkReading (VBool v) 7%Z None None]}.
Definition shot (i : nat) : list wire_op :=
  [WCreate "primary"; WRead (det "det" "x") (reading "x" true);
   WSave ("d" +:+ pretty i) ("e" +:+ pretty i) 1%Z].
Definition shot_verbs : list verb :=
  [VCreate "primary"; VRead (det "det" "x") (reading "x" true); VSave].
Definition fresh1 : Fresh := mkFresh (λ n, "f" +:+ pretty n) (λ n, "g" +:+ pretty n) (λ _, 5%Z).
Definition w_shot : Wire := wire_run (shot 1) (wire_new start0).
End ExB.
Import ExB.

Lemma descriptor_before_event_witness : ∃ d ev,
  w_docs w_shot = [DocStart start0; DocDescriptor d; DocEvent ev]
  ∧ ed_uid d = ev_descriptor ev.
Proof.
  eexists _, _. split; [reflexivity|].
  edestruct (descriptor_before_event start0 (shot 1)) as (d & Hd & Hu & _).
  - change (w_docs (wire_run (shot 1) (wire_new start0))) with (w_docs w_shot).
    instantiate (3 := [_; _]). reflexivity.
  - apply elem_of_cons in Hd as [Hd|Hd]; [discriminate|].
    apply list_elem_of_singleton in Hd. injection Hd as ->. exact Hu.
Defined.

(** Half a second shot after the checkpoint, a pause, and the shot replayed. *)
Lemma rewind_replays_witness :
  replayed fresh1 shot_verbs
    (rewind (w_bundler (wire_run (WCheckpoint :: take 2 (shot 2)) w_shot)))
  = [(2%Z, {["x" := VBool true]}, {["x" := 7%Z]})].
Proof.
  pose proof (rewind_replays start0 (shot 1) (take 2 (shot 2)) shot_verbs fresh1 fresh1) as H.
  cbv zeta in H. fold w_shot in H. rewrite H; [reflexivity|reflexivity|reflexivity|].
  repeat constructor.
Defined.

Lemma rewind_repeats_monitor_numbers_witness : ∃ ev1 ev2,
  w_docs (wire_run [WCheckpoint; WMonitor "m1" 2%Z "primary" ∅ ∅; WRewind;
                    WMonitor "m2" 3%Z "primary" ∅ ∅] w_shot)
    = w_docs w_shot ++ [DocEvent ev1; DocEvent ev2]
  ∧ ev_seq_num ev1 = ev_seq_num ev2.
Proof.
  edestruct (rewind_repeats_monitor_numbers start0 (shot 1) "primary") as (ev1 & ev2 & H1 & H2 & _);
    [reflexivity|reflexivity|]. exists ev1, ev2. split; [exact H1|exact H2].
Defined.

Lemma save_accepts_undeclared_keys_witness :
  let b := w_bundler (wire_run [WCreate "primary"; WRead (det "cam" "y") (reading "y" false)] w_shot) in
  ∃ ev, (save "u" "v" 0%Z b).1 = Ok [DocEvent ev] ∧ ev_data ev !! "y" = Some (VBool false).
Proof.
  intros b. edestruct save_accepts_undeclared_keys with (ud := "u") (ue := "v") (t := 0%Z) (b := b)
    (key := "y") (rd := mkReading (VBool false) 7%Z None None) as (ev & H1 & _ & H2);
    [reflexivity|reflexivity|reflexivity|discriminate|reflexivity|reflexivity|reflexivity|].
  exists ev. split; [exact H1|exact H2].
Defined.
