(* ===== verification/Device.v ===== *)
(** * Messages and devices ([core/msg.rs], [core/plan.rs], [core/suspender.rs])

    The messages a plan sends to the engine and the devices they carry. A device
    is known by what it answers: an asynchronous method is a function of the
    instant it is awaited, so a device may answer every call differently, and the
    engine is proved for all of them. A [Status] is such an answer that may also be
    still pending. The object traits of the code are one record here: a message
    uses the methods of the trait it takes. *)

From S2P Require Import Prelude Interfaces Errors Control Documents Bundler.

Section device.
Context `{JsonNumber}.

(** The instants of a run: one per point at which the engine awaits. *)
Definition Instant := nat.

(** A future the engine waits for: what it holds at an instant, if it is done. *)
Definition Status := Instant → option (Result unit StatusError).
Definition Awaitable := Instant → option (Result unit BsrsError).

(** [ConfigureArgs] *)
Definition ConfigureArgs := gmap string Value.

Record Configurable := mkConfigurable {
  read_configuration_dyn : Instant → Result (gmap string ReadingValue) BsrsError;
  describe_configuration_dyn : Instant → Result (gmap string DataKey) BsrsError;
}.

(** [d_ptr] is the identity [Arc::ptr_eq] compares. *)
Record Device := mkDevice {
  d_ptr : nat;
  d_name : string;
  read_dyn : Instant → Result (gmap string ReadingValue) BsrsError;
  describe_dyn : Instant → Result (gmap string DataKey) BsrsError;
  hint_fields : option (list string);
  as_stageable : bool;
  writes_external_assets : bool;
  collect_asset_docs_dyn : string → Instant → Result (list Document) BsrsError;
  as_configurable : bool;
  configurable : Configurable;
  set_dyn : f64 → Instant → Status;
  stop_on_pause : bool → Instant → Result unit BsrsError;
  locate_dyn : Instant → Result (f64 * f64) BsrsError;
  stop_dyn : bool → Instant → Result unit BsrsError;
  trigger_dyn : Instant → Status;
  stage_dyn : Instant → Result unit BsrsError;
  unstage_dyn : Instant → Result unit BsrsError;
  kickoff_dyn : Instant → Status;
  complete_dyn : Instant → Status;
  as_collectable : bool;
  prepare_dyn : Value → Instant → Status;
  pause_dyn : Instant → Result unit BsrsError;
  resume_dyn : Instant → Result unit BsrsError;
  describe_collect_dyn : Instant → Result (gmap string (gmap string DataKey)) BsrsError;
  collect_dyn : Instant →
    Result (list (string * gmap string Value * gmap string f64)) BsrsError;
  collect_stream_docs_dyn : string → Instant → Result (list Document) BsrsError;
  subscribe_dyn : Instant → Result string BsrsError;
  configure_dyn : ConfigureArgs → Instant → Result unit BsrsError;
}.

Record Suspender := mkSuspender {
  sus_name : string;
  sus_tripped : Instant → bool;
  sus_justification : string;
  sus_pre_plan : option SuspendCallback;
  sus_post_plan : option SuspendCallback;
}.

(** What the engine throws into a plan. *)
Inductive Thrown :=
| ThError (e : BsrsError)
| ThInterrupt (kind : Interrupt) (reason : option string).

Record RunMetadata := mkMeta {
  meta_scan_id : option Z;
  meta_extra : gmap string Value;
  meta_plan_name : option string;
}.

Inductive StreamObjs :=
| Readable (objs : list Device)
| Collectable (objs : list Device).

(** Durations are nanoseconds; a sink, a subscriber's callback and a custom
    command's payload are identities; a suspender message may carry something
    that is no suspender. *)
Inductive Msg :=
| OpenRun (meta : RunMetadata)
| CloseRun (exit_status : string) (reason : option string)
| InRun (run : string) (inner : Msg)
| Create (stream_name : string)
| Save
| Drop
| DeclareStream (stream_name : string) (objs : StreamObjs)
| Read (obj : Device)
| Set_ (obj : Device) (value : f64) (group : option string)
| Trigger (obj : Device) (group : option string)
| Stage (obj : Device)
| Unstage (obj : Device)
| Stop (obj : Device) (success : bool)
| Kickoff (obj : Device) (group : option string)
| Complete (obj : Device) (group : option string)
| Collect (obj : Device) (stream_name : option string)
| Locate (obj : Device)
| Monitor (obj : Device) (name : option string)
| Unmonitor (obj : Device)
| Wait (group : string) (error_on_timeout : bool) (timeout : option Z)
| Sleep (d : Z)
| Checkpoint
| ClearCheckpoint
| Pause (defer : bool)
| Configure (obj : Device) (args : ConfigureArgs)
| Prepare (obj : Device) (value : Value) (group : option string)
| WaitFor (factories : list Awaitable) (timeout : option Z)
| RegisterPausable (obj : Device)
| UnregisterPausable (obj : Device)
| Input (prompt : string)
| ReClass
| Subscribe (cb : nat) (filter : DocFilter)
| Unsubscribe (id : Z)
| Fail (reason : string)
| Raise (thrown : Thrown)
| Resume
| InstallSuspender (id : Z) (suspender : option Suspender)
| RemoveSuspender (id : Z)
| Rewindable (b : bool)
| Custom (name : string) (payload : nat)
| Publish (doc : Document)
| PushContingency (sink : nat)
| PopContingency
| Null.

Implicit Types (m : Msg).

Fixpoint is_cacheable m : bool :=
  match m with
  | InRun _ inner => is_cacheable inner
  | OpenRun _ | CloseRun _ _ | Pause _ | Resume | Checkpoint | ClearCheckpoint
  | Monitor _ _ | Unmonitor _ | InstallSuspender _ _ | RemoveSuspender _
  | RegisterPausable _ | UnregisterPausable _ | Rewindable _ | Custom _ _ | Publish _
  | Locate _ | Input _ | ReClass | Subscribe _ _ | Unsubscribe _ | Fail _ | Raise _
  | PushContingency _ | PopContingency | Null => false
  | _ => true
  end.

Fixpoint obj_name m : option string :=
  match m with
  | InRun _ inner => obj_name inner
  | Read o | Set_ o _ _ | Trigger o _ | Locate o | Stage o | Unstage o | Stop o _
  | Kickoff o _ | Complete o _ | Collect o _ | Monitor o _ | Unmonitor o
  | Configure o _ | Prepare o _ _ | RegisterPausable o | UnregisterPausable o =>
      Some (d_name o)
  | _ => None
  end.

(** [Msg::clone]: a custom command's payload cannot be cloned. *)
Fixpoint msg_clone m : Msg :=
  match m with
  | InRun run inner => InRun run (msg_clone inner)
  | Custom _ _ => Null
  | m => m
  end.

(** [MsgResult] *)
Inductive MsgResult :=
| RNone
| ROpenRun (uid : string)
| RStatus (group : string)
| RWaitComplete (done : bool)
| RReading (data : gmap string ReadingValue)
| RLocation (setpoint readback : f64)
| RCloseRun (exit_status : string)
| RInput (text : string)
| REngineClass (name : string)
| RSubscriptionId (id : Z).

(** [Respond] carries a channel on which the engine answers. *)
Inductive PlanItem := Bare (m : Msg) | Respond (m : Msg).

Definition item_msg (i : PlanItem) : Msg := match i with Bare m | Respond m => m end.

Definition map_msg (f : Msg → Msg) (i : PlanItem) : PlanItem :=
  match i with Bare m => Bare (f m) | Respond m => Respond (f m) end.

(** What is cached for a rewind is what the plan sent: cloning loses nothing a
    replay would miss. *)
Lemma clone_cacheable m : is_cacheable m = true → msg_clone m = m.
Proof. induction m; simpl; intros Hc; try done. by rewrite IHm. Qed.

(** ** Plans

    What a plan shares with the engine: the sinks of its contingency regions, the
    answer to its last [Respond], the last message's result. And what its parts share
    with one another: the cells in which a wrapper keeps what its last part needs,
    each known by a number of its own, as a sink is. *)
Record Channel := mkChannel {
  sinks : gmap nat Thrown;
  answer : option MsgResult;
  last_msg_result : MsgResult;
  next_cell : nat;
  moved : gmap nat (list (Device * f64));
  staging : gmap nat (list Device);
}.

Definition set_sinks (v : gmap nat Thrown) (c : Channel) : Channel :=
  mkChannel v (answer c) (last_msg_result c) (next_cell c) (moved c) (staging c).
Definition set_answer (v : option MsgResult) (c : Channel) : Channel :=
  mkChannel (sinks c) v (last_msg_result c) (next_cell c) (moved c) (staging c).
Definition set_last_msg_result (v : MsgResult) (c : Channel) : Channel :=
  mkChannel (sinks c) (answer c) v (next_cell c) (moved c) (staging c).
Definition set_next_cell (v : nat) (c : Channel) : Channel :=
  mkChannel (sinks c) (answer c) (last_msg_result c) v (moved c) (staging c).
Definition set_moved (v : gmap nat (list (Device * f64))) (c : Channel) : Channel :=
  mkChannel (sinks c) (answer c) (last_msg_result c) (next_cell c) v (staging c).
Definition set_staging (v : gmap nat (list Device)) (c : Channel) : Channel :=
  mkChannel (sinks c) (answer c) (last_msg_result c) (next_cell c) (moved c) v.
End device.

(** A plan is a stream of items: a process that, polled, ends or yields the next
    item, having read and emptied its sinks and results as it likes. *)
Class PlanSource `{JsonNumber} := {
  Plan : Type;
  plan_next : Plan → Instant → Channel → option PlanItem * Plan * Channel;
  suspend_plan : SuspendCallback → Plan;
}.
