(* ===== verification/Machine.v ===== *)
(** * The run engine's state and effects ([engine/run_engine.rs])

    What a running plan changes ([RunEngine], its [EngineState], one [RunSlot] per
    open run), the world it runs in and the monad its code is written in.

    The engine is one task among others: wherever it awaits, monitor pumps emit,
    users pause and abort, suspensions lift. A [Schedule] fixes, for every instant,
    what happens while the engine awaits there and how a race at that instant is
    decided; the theorems hold for every schedule. A pump composes an event and
    delivers it at two points, as the code does. *)

From stdpp Require Import pretty.
From S2P Require Import Prelude Interfaces Errors Control Documents Compose Bundler Device.

(** Who sent a document: the engine for a run, a monitor pump, or somebody else
    through the engine (a device's asset documents, [Msg::Publish]). *)
Inductive Origin := Own | Pump | Foreign.

#[global] Instance Origin_eq_dec : EqDecision Origin.
Proof. solve_decision. Defined.

Section machine.
Context `{JsonNumber}.

(** ** Data *)

(** The pump of one monitored object of one run. *)
Definition PumpId : Type := option string * string.
Record PumpTask := mkPump { pump_stream : string; pump_key : string }.

(** Calls of the device methods that act on hardware. *)
Inductive Call :=
| CSet (name : string) (value : f64)
| CTrigger (name : string)
| CStage (ptr : nat)
| CUnstage (ptr : nat)
| CStop (name : string) (success : bool)
| CStopOnPause (name : string)
| CKickoff (name : string)
| CComplete (name : string)
| CPrepare (name : string)
| CConfigure (name : string)
| CPause (name : string)
| CResume (name : string).

Record CheckpointSnapshot := mkSnapshot {
  timestamp_ns : f64;
  run_uid : option string;
  snap_exit_status : option string;
}.

Record RunSlot := mkRunSlot {
  sl_bundler : RunBundler;
  sl_asset_objs : list Device;
  sl_monitor_tasks : gmap string PumpTask;
  sl_monitored : gmap string (Device * string);
  sl_uncollected : gmap string Device;
}.

Definition set_sl_bundler (v : RunBundler) (s : RunSlot) : RunSlot :=
  mkRunSlot v (sl_asset_objs s) (sl_monitor_tasks s) (sl_monitored s) (sl_uncollected
    s).
Definition set_sl_asset_objs (v : list Device) (s : RunSlot) : RunSlot :=
  mkRunSlot (sl_bundler s) v (sl_monitor_tasks s) (sl_monitored s) (sl_uncollected s).
Definition set_sl_monitor_tasks (v : gmap string PumpTask) (s : RunSlot) : RunSlot :=
  mkRunSlot (sl_bundler s) (sl_asset_objs s) v (sl_monitored s) (sl_uncollected s).
Definition set_sl_monitored (v : gmap string (Device * string)) (s : RunSlot) : RunSlot :=
  mkRunSlot (sl_bundler s) (sl_asset_objs s) (sl_monitor_tasks s) v (sl_uncollected s).
Definition set_sl_uncollected (v : gmap string Device) (s : RunSlot) : RunSlot :=
  mkRunSlot (sl_bundler s) (sl_asset_objs s) (sl_monitor_tasks s) (sl_monitored s) v.

Record EngineState := mkState {
  runs : gmap (option string) RunSlot;
  groups : gmap string (list Status);
  staged : list Device;
  movable_objs_touched : gmap string Device;
  flyable_objs_touched : gmap string Device;
  pausables : gmap string Device;
  temp_subscribers : list Z;
  contingency_stack : list nat;
  msg_cache : list Msg;
  replay_queue : list Msg;
  rewindable : bool;
  suspenders : gmap Z Suspender;
}.

Definition set_runs (v : gmap (option string) RunSlot) (s : EngineState) : EngineState :=
  mkState v (groups s) (staged s) (movable_objs_touched s) (flyable_objs_touched s)
    (pausables s) (temp_subscribers s) (contingency_stack s) (msg_cache s) (replay_queue
    s) (rewindable s) (suspenders s).
Definition set_groups (v : gmap string (list Status)) (s : EngineState) : EngineState :=
  mkState (runs s) v (staged s) (movable_objs_touched s) (flyable_objs_touched s)
    (pausables s) (temp_subscribers s) (contingency_stack s) (msg_cache s) (replay_queue
    s) (rewindable s) (suspenders s).
Definition set_staged (v : list Device) (s : EngineState) : EngineState :=
  mkState (runs s) (groups s) v (movable_objs_touched s) (flyable_objs_touched s)
    (pausables s) (temp_subscribers s) (contingency_stack s) (msg_cache s) (replay_queue
    s) (rewindable s) (suspenders s).
Definition set_movable_objs_touched (v : gmap string Device) (s : EngineState) : EngineState :=
  mkState (runs s) (groups s) (staged s) v (flyable_objs_touched s) (pausables s)
    (temp_subscribers s) (contingency_stack s) (msg_cache s) (replay_queue s) (rewindable
    s) (suspenders s).
Definition set_flyable_objs_touched (v : gmap string Device) (s : EngineState) : EngineState :=
  mkState (runs s) (groups s) (staged s) (movable_objs_touched s) v (pausables s)
    (temp_subscribers s) (contingency_stack s) (msg_cache s) (replay_queue s) (rewindable
    s) (suspenders s).
Definition set_pausables (v : gmap string Device) (s : EngineState) : EngineState :=
  mkState (runs s) (groups s) (staged s) (movable_objs_touched s) (flyable_objs_touched
    s) v (temp_subscribers s) (contingency_stack s) (msg_cache s) (replay_queue s)
    (rewindable s) (suspenders s).
Definition set_temp_subscribers (v : list Z) (s : EngineState) : EngineState :=
  mkState (runs s) (groups s) (staged s) (movable_objs_touched s) (flyable_objs_touched
    s) (pausables s) v (contingency_stack s) (msg_cache s) (replay_queue s) (rewindable s)
    (suspenders s).
Definition set_contingency_stack (v : list nat) (s : EngineState) : EngineState :=
  mkState (runs s) (groups s) (staged s) (movable_objs_touched s) (flyable_objs_touched
    s) (pausables s) (temp_subscribers s) v (msg_cache s) (replay_queue s) (rewindable s)
    (suspenders s).
Definition set_msg_cache (v : list Msg) (s : EngineState) : EngineState :=
  mkState (runs s) (groups s) (staged s) (movable_objs_touched s) (flyable_objs_touched
    s) (pausables s) (temp_subscribers s) (contingency_stack s) v (replay_queue s)
    (rewindable s) (suspenders s).
Definition set_replay_queue (v : list Msg) (s : EngineState) : EngineState :=
  mkState (runs s) (groups s) (staged s) (movable_objs_touched s) (flyable_objs_touched
    s) (pausables s) (temp_subscribers s) (contingency_stack s) (msg_cache s) v
    (rewindable s) (suspenders s).
Definition set_rewindable (v : bool) (s : EngineState) : EngineState :=
  mkState (runs s) (groups s) (staged s) (movable_objs_touched s) (flyable_objs_touched
    s) (pausables s) (temp_subscribers s) (contingency_stack s) (msg_cache s)
    (replay_queue s) v (suspenders s).
Definition set_suspenders (v : gmap Z Suspender) (s : EngineState) : EngineState :=
  mkState (runs s) (groups s) (staged s) (movable_objs_touched s) (flyable_objs_touched
    s) (pausables s) (temp_subscribers s) (contingency_stack s) (msg_cache s)
    (replay_queue s) (rewindable s) v.

Record RunEngine := mkRunEngine {
  control : Control;
  state : EngineState;
  md : gmap string Value;
  scan_id : Z;
  subscribers : list (Z * DocFilter * nat);
  sub_counter : Z;
  per_call_md : gmap string Value;
  staged_temp_subs : list Z;
  channel : Channel;
  record_interruptions : bool;
  monitor_counter : Z;
  inflight : list (PumpId * Document);
  bounded : bool;
  emitted : list (Origin * Document);
  delivered : list (Z * Document);
  calls : list Call;
  snapshots : list CheckpointSnapshot;
  tick : nat;
  uuids : nat;
}.

Definition set_control (v : Control) (e : RunEngine) : RunEngine :=
  mkRunEngine v (state e) (md e) (scan_id e) (subscribers e) (sub_counter e)
    (per_call_md e) (staged_temp_subs e) (channel e) (record_interruptions e)
    (monitor_counter e) (inflight e) (bounded e) (emitted e) (delivered e) (calls e)
    (snapshots e) (tick e) (uuids e).
Definition set_state (v : EngineState) (e : RunEngine) : RunEngine :=
  mkRunEngine (control e) v (md e) (scan_id e) (subscribers e) (sub_counter e)
    (per_call_md e) (staged_temp_subs e) (channel e) (record_interruptions e)
    (monitor_counter e) (inflight e) (bounded e) (emitted e) (delivered e) (calls e)
    (snapshots e) (tick e) (uuids e).
Definition set_md (v : gmap string Value) (e : RunEngine) : RunEngine :=
  mkRunEngine (control e) (state e) v (scan_id e) (subscribers e) (sub_counter e)
    (per_call_md e) (staged_temp_subs e) (channel e) (record_interruptions e)
    (monitor_counter e) (inflight e) (bounded e) (emitted e) (delivered e) (calls e)
    (snapshots e) (tick e) (uuids e).
Definition set_scan_id (v : Z) (e : RunEngine) : RunEngine :=
  mkRunEngine (control e) (state e) (md e) v (subscribers e) (sub_counter e)
    (per_call_md e) (staged_temp_subs e) (channel e) (record_interruptions e)
    (monitor_counter e) (inflight e) (bounded e) (emitted e) (delivered e) (calls e)
    (snapshots e) (tick e) (uuids e).
Definition set_subscribers (v : list (Z * DocFilter * nat)) (e : RunEngine) : RunEngine :=
  mkRunEngine (control e) (state e) (md e) (scan_id e) v (sub_counter e) (per_call_md e)
    (staged_temp_subs e) (channel e) (record_interruptions e) (monitor_counter e)
    (inflight e) (bounded e) (emitted e) (delivered e) (calls e) (snapshots e) (tick e)
    (uuids e).
Definition set_sub_counter (v : Z) (e : RunEngine) : RunEngine :=
  mkRunEngine (control e) (state e) (md e) (scan_id e) (subscribers e) v (per_call_md e)
    (staged_temp_subs e) (channel e) (record_interruptions e) (monitor_counter e)
    (inflight e) (bounded e) (emitted e) (delivered e) (calls e) (snapshots e) (tick e)
    (uuids e).
Definition set_per_call_md (v : gmap string Value) (e : RunEngine) : RunEngine :=
  mkRunEngine (control e) (state e) (md e) (scan_id e) (subscribers e) (sub_counter e) v
    (staged_temp_subs e) (channel e) (record_interruptions e) (monitor_counter e)
    (inflight e) (bounded e) (emitted e) (delivered e) (calls e) (snapshots e) (tick e)
    (uuids e).
Definition set_staged_temp_subs (v : list Z) (e : RunEngine) : RunEngine :=
  mkRunEngine (control e) (state e) (md e) (scan_id e) (subscribers e) (sub_counter e)
    (per_call_md e) v (channel e) (record_interruptions e) (monitor_counter e) (inflight
    e) (bounded e) (emitted e) (delivered e) (calls e) (snapshots e) (tick e) (uuids e).
Definition set_channel (v : Channel) (e : RunEngine) : RunEngine :=
  mkRunEngine (control e) (state e) (md e) (scan_id e) (subscribers e) (sub_counter e)
    (per_call_md e) (staged_temp_subs e) v (record_interruptions e) (monitor_counter e)
    (inflight e) (bounded e) (emitted e) (delivered e) (calls e) (snapshots e) (tick e)
    (uuids e).
Definition set_record_interruptions (v : bool) (e : RunEngine) : RunEngine :=
  mkRunEngine (control e) (state e) (md e) (scan_id e) (subscribers e) (sub_counter e)
    (per_call_md e) (staged_temp_subs e) (channel e) v (monitor_counter e) (inflight e)
    (bounded e) (emitted e) (delivered e) (calls e) (snapshots e) (tick e) (uuids e).
Definition set_monitor_counter (v : Z) (e : RunEngine) : RunEngine :=
  mkRunEngine (control e) (state e) (md e) (scan_id e) (subscribers e) (sub_counter e)
    (per_call_md e) (staged_temp_subs e) (channel e) (record_interruptions e) v (inflight
    e) (bounded e) (emitted e) (delivered e) (calls e) (snapshots e) (tick e) (uuids e).
Definition set_inflight (v : list (PumpId * Document)) (e : RunEngine) : RunEngine :=
  mkRunEngine (control e) (state e) (md e) (scan_id e) (subscribers e) (sub_counter e)
    (per_call_md e) (staged_temp_subs e) (channel e) (record_interruptions e)
    (monitor_counter e) v (bounded e) (emitted e) (delivered e) (calls e) (snapshots e)
    (tick e) (uuids e).
Definition set_bounded (v : bool) (e : RunEngine) : RunEngine :=
  mkRunEngine (control e) (state e) (md e) (scan_id e) (subscribers e) (sub_counter e)
    (per_call_md e) (staged_temp_subs e) (channel e) (record_interruptions e)
    (monitor_counter e) (inflight e) v (emitted e) (delivered e) (calls e) (snapshots e)
    (tick e) (uuids e).
Definition set_emitted (v : list (Origin * Document)) (e : RunEngine) : RunEngine :=
  mkRunEngine (control e) (state e) (md e) (scan_id e) (subscribers e) (sub_counter e)
    (per_call_md e) (staged_temp_subs e) (channel e) (record_interruptions e)
    (monitor_counter e) (inflight e) (bounded e) v (delivered e) (calls e) (snapshots e)
    (tick e) (uuids e).
Definition set_delivered (v : list (Z * Document)) (e : RunEngine) : RunEngine :=
  mkRunEngine (control e) (state e) (md e) (scan_id e) (subscribers e) (sub_counter e)
    (per_call_md e) (staged_temp_subs e) (channel e) (record_interruptions e)
    (monitor_counter e) (inflight e) (bounded e) (emitted e) v (calls e) (snapshots e)
    (tick e) (uuids e).
Definition set_calls (v : list Call) (e : RunEngine) : RunEngine :=
  mkRunEngine (control e) (state e) (md e) (scan_id e) (subscribers e) (sub_counter e)
    (per_call_md e) (staged_temp_subs e) (channel e) (record_interruptions e)
    (monitor_counter e) (inflight e) (bounded e) (emitted e) (delivered e) v (snapshots e)
    (tick e) (uuids e).
Definition set_snapshots (v : list CheckpointSnapshot) (e : RunEngine) : RunEngine :=
  mkRunEngine (control e) (state e) (md e) (scan_id e) (subscribers e) (sub_counter e)
    (per_call_md e) (staged_temp_subs e) (channel e) (record_interruptions e)
    (monitor_counter e) (inflight e) (bounded e) (emitted e) (delivered e) (calls e) v
    (tick e) (uuids e).
Definition set_tick (v : nat) (e : RunEngine) : RunEngine :=
  mkRunEngine (control e) (state e) (md e) (scan_id e) (subscribers e) (sub_counter e)
    (per_call_md e) (staged_temp_subs e) (channel e) (record_interruptions e)
    (monitor_counter e) (inflight e) (bounded e) (emitted e) (delivered e) (calls e)
    (snapshots e) v (uuids e).
Definition set_uuids (v : nat) (e : RunEngine) : RunEngine :=
  mkRunEngine (control e) (state e) (md e) (scan_id e) (subscribers e) (sub_counter e)
    (per_call_md e) (staged_temp_subs e) (channel e) (record_interruptions e)
    (monitor_counter e) (inflight e) (bounded e) (emitted e) (delivered e) (calls e)
    (snapshots e) (tick e) v.

Definition slot_new (b : RunBundler) : RunSlot := mkRunSlot b [] ∅ ∅ ∅.

Definition state_default : EngineState := mkState ∅ ∅ [] ∅ ∅ ∅ [] [] [] [] false ∅.

Implicit Types (e : RunEngine) (s : EngineState) (key : option string).

Definition bundler_of key s : option RunBundler := sl_bundler <$> runs s !! key.
Definition run_open key s : bool := bool_decide (is_Some (runs s !! key)).
Definition any_run_open s : bool := bool_decide (runs s ≠ ∅).
Definition any_bundling s : bool :=
  existsb (λ ks, is_bundling (sl_bundler ks.2)) (map_to_list (runs s)).

(** The run a snapshot or a plan means: the default run, else any. *)
Definition current_run_uid s : option string :=
  bd_start_uid <$>
    match bundler_of None s with
    | Some b => Some b
    | None => sl_bundler <$> (snd <$> head (map_to_list (runs s)))
    end.

(** ** The world *)

(** What other tasks do. An aborted pump may lose the event it was sending. *)
Inductive Noise :=
| NPause (defer : bool)
| NResume
| NAbort (reason : string)
| NHalt (reason : string)
| NStop
| NSigint
| NSuspend (s : Suspension)
| NRelease (gen : Z)
| NPump (key : option string) (obj : string) (reading : ReadingValue)
| NDeliver (i : nat)
| NLose (i : nat)
| NSubscribe (filter : DocFilter) (cb : nat)
| NUnsubscribe (id : Z)
| NSetMd (k : string) (v : Value)
| NRecord (on : bool).

(** [noise t] happens while the engine awaits at [t]; [pick t] says that a
    cancellation wins a race against a result that is there too; [deadline t] that
    the plan's overall timeout has elapsed at [t]. *)
Class Schedule := {
  noise : Instant → list Noise;
  pick : Instant → bool;
  deadline : Instant → bool;
  now : Instant → f64;
}.

(** The embedder's callbacks, and the texts of errors ([thiserror]). *)
Class Hooks := {
  md_validator : option (gmap string Value → Result unit BsrsError);
  md_normalizer : option (gmap string Value → Result (gmap string Value) BsrsError);
  scan_id_source : option (gmap string Value → Result Z BsrsError);
  input_handler : option (string → Instant → Result string BsrsError);
  commands : string → option (nat → Instant → Result unit BsrsError);
  checkpoint_hook : bool;
  loop_timeout : option Z;
  error_text : BsrsError → string;
}.

(** ** Effects on the whole engine *)

Definition on_state (f : EngineState → EngineState) e : RunEngine :=
  set_state (f (state e)) e.
Definition on_control (f : Control → Control) e : RunEngine :=
  set_control (f (control e)) e.
Definition on_slot key (f : RunSlot → RunSlot) e : RunEngine :=
  on_state (λ s, set_runs (alter f key (runs s)) s) e.
Definition on_bundler key (f : RunBundler → RunBundler) e : RunEngine :=
  on_slot key (λ sl, set_sl_bundler (f (sl_bundler sl)) sl) e.

Definition log_doc (o : Origin) (d : Document) e : RunEngine :=
  set_emitted (emitted e ++ [(o, d)]) e.
Definition log_call (c : Call) e : RunEngine := set_calls (calls e ++ [c]) e.

(** [dispatch_subscribers] *)
Definition dispatch_subscribers (d : Document) e : RunEngine :=
  let matched := filter (λ x, filter_matches x.1.2 d = true) (subscribers e) in
  set_delivered (delivered e ++ ((λ x, (x.1.1, d)) <$> matched)) e.

Definition subscribe_filtered (f : DocFilter) (cb : nat) e : Z * RunEngine :=
  let id := wrap64 (sub_counter e + 1) in
  let e := set_sub_counter (wrap64 (sub_counter e + 1)) e in
  (id, set_subscribers (subscribers e ++ [(id, f, cb)]) e).

Definition unsubscribe (id : Z) e : RunEngine :=
  set_subscribers (filter (λ x, x.1.1 ≠ id) (subscribers e)) e.

Context `{!UuidSource, !Schedule}.

Definition take_uuid e : string * RunEngine :=
  (uuid_v4 (uuids e), set_uuids (S (uuids e)) e).

(** A pump's turn: it composes the event of one reading, once its previous event
    has gone out. *)
Definition pump_compose key (obj : string) (rd : ReadingValue) e : RunEngine :=
  let? sl := runs (state e) !! key else e in
  let? task := sl_monitor_tasks sl !! obj else e in
  if bool_decide ((key, obj) ∈ (inflight e).*1) then e else
  let '(u, e) := take_uuid e in
  let '(ev, bd) := event u (now (tick e)) (pump_stream task)
                     {[pump_key task := rd_value rd]} {[pump_key task := rd_timestamp rd]}
                     (bundle (sl_bundler sl)) in
  let e := on_bundler key (set_bundle bd) e in
  match ev with
  | Some ev => set_inflight (inflight e ++ [((key, obj), DocEvent ev)]) e
  | None => e
  end.

(** A composed event reaches the sinks and the subscribers. *)
Definition pump_deliver (i : nat) e : RunEngine :=
  let? p := inflight e !! i else e in
  let e := set_inflight (delete i (inflight e)) e in
  dispatch_subscribers p.2 (log_doc Pump p.2 e).

Definition noise_step (n : Noise) e : RunEngine :=
  match n with
  | NPause defer => on_control (pause defer) e
  | NResume => on_control resume e
  | NAbort r => on_control (abort r) e
  | NHalt r => on_control (halt r) e
  | NStop => on_control stop e
  | NSigint => on_control sigint e
  | NSuspend s => on_control (λ c, set_ctl (request_suspend s (ctl c)).1 c) e
  | NRelease gen => on_control (λ c, set_ctl (release gen (ctl c)) c) e
  | NPump key obj rd => pump_compose key obj rd e
  | NDeliver i => pump_deliver i e
  | NLose i => set_inflight (delete i (inflight e)) e
  | NSubscribe f cb => (subscribe_filtered f cb e).2
  | NUnsubscribe id => unsubscribe id e
  | NSetMd k v => set_md (<[k := v]> (md e)) e
  | NRecord on => set_record_interruptions on e
  end.

Definition noise_steps (ns : list Noise) e : RunEngine := foldl (λ e n, noise_step n e) e ns.

(** ** The monad

    A computation returns, fails with an error, waits forever, panics, or is
    dropped by the overall timeout. *)
Inductive Out (A : Type) : Type :=
| Ret (a : A)
| Threw (err : BsrsError)
| Hung
| Panicked
| TimedOut
| OutOfFuel.

Definition M (A : Type) : Type := RunEngine → Out A * RunEngine.
End machine.

Arguments Ret {_ _} _.
Arguments Threw {_ _} _.
Arguments Hung {_ _}.
Arguments Panicked {_ _}.
Arguments TimedOut {_ _}.
Arguments OutOfFuel {_ _}.

Section monad.
Context `{JsonNumber}.

#[global] Instance M_ret : MRet M := λ A a e, (Ret a, e).
#[global] Instance M_bind : MBind M := λ A B f m e,
  match m e with
  | (Ret a, e) => f a e
  | (Threw x, e) => (Threw x, e)
  | (Hung, e) => (Hung, e)
  | (Panicked, e) => (Panicked, e)
  | (TimedOut, e) => (TimedOut, e)
  | (OutOfFuel, e) => (OutOfFuel, e)
  end.

Definition throw {A} (x : BsrsError) : M A := λ e, (Threw x, e).
Definition hang {A} : M A := λ e, (Hung, e).
Definition panic {A} : M A := λ e, (Panicked, e).
Definition out_of_fuel {A} : M A := λ e, (OutOfFuel, e).
Definition gets {A} (f : RunEngine → A) : M A := λ e, (Ret (f e), e).
Definition modify (f : RunEngine → RunEngine) : M unit := λ e, (Ret (), f e).
Definition atomic {A} (f : RunEngine → A * RunEngine) : M A :=
  λ e, let '(a, e) := f e in (Ret a, e).
(** [?] *)
Definition lift {A} (r : Result A BsrsError) : M A :=
  match r with Ok a => mret a | Err x => throw x end.
Definition expect {A} (o : option A) (x : BsrsError) : M A := lift (ok_or o x).
(** A [match] on the result of a call. *)
Definition attempt {A} (m : M A) : M (Result A BsrsError) := λ e,
  match m e with
  | (Ret a, e) => (Ret (Ok a), e)
  | (Threw x, e) => (Ret (Err x), e)
  | (Hung, e) => (Hung, e)
  | (Panicked, e) => (Panicked, e)
  | (TimedOut, e) => (TimedOut, e)
  | (OutOfFuel, e) => (OutOfFuel, e)
  end.
(** Errors that are logged only. *)
Definition ignore {A} (m : M A) : M unit := attempt m;; mret ().
Definition when (c : bool) (m : M unit) : M unit := if c then m else mret ().

Fixpoint for_each {A} (f : A → M unit) (l : list A) : M unit :=
  match l with [] => mret () | x :: l => f x;; for_each f l end.
Fixpoint map_each {A B} (f : A → M B) (l : list A) : M (list B) :=
  match l with
  | [] => mret []
  | x :: l => y ← f x; ys ← map_each f l; mret (y :: ys)
  end.

Context `{!UuidSource, !Schedule}.

(** An await: the instant it ends at. *)
Definition await : M Instant := λ e,
  let t := tick e in
  let e := set_tick (S t) (noise_steps (noise t) e) in
  (if bounded e && deadline t then TimedOut else Ret t, e).

(** The answer of an asynchronous device method. *)
Definition ask {A} (f : Instant → A) : M A := t ← await; mret (f t).
Definition ask_ok {A} (f : Instant → Result A BsrsError) : M A := r ← ask f; lift r.

Definition fresh : M string := atomic take_uuid.
Fixpoint freshes (n : nat) : M (list string) :=
  match n with 0 => mret [] | S n => u ← fresh; us ← freshes n; mret (u :: us) end.
Definition clock : M f64 := gets (λ e, now (tick e)).

(** [broadcast]: the sinks, then the subscribers. *)
Definition broadcast (o : Origin) (d : Document) : M unit :=
  modify (log_doc o d);; await;; modify (dispatch_subscribers d).

Definition set_result (r : MsgResult) : M unit :=
  modify (λ e, set_channel (set_last_msg_result r (channel e)) e).

(** ** Races

    [tokio::select!] between a result and the run's cancellation token: with both
    ready either may win. *)
Definition cancelled : M bool := gets (λ e, tok_cancelled (cancel (ctl (control e)))).

Definition race {A} (r : Instant → option (Result A BsrsError))
  : M (option (Result A BsrsError)) :=
  t ← await;
  c ← cancelled;
  mret (if c && (pick t || bool_decide (r t = None)) then Some (Err Cancelled) else r t).

(** [try_join_all]: the first error there is, or all results. *)
Fixpoint try_join_all {E} (rs : list (option (Result unit E))) : option (Result unit E) :=
  match rs with
  | [] => Some (Ok ())
  | Some (Err x) :: _ => Some (Err x)
  | Some (Ok _) :: rs => try_join_all rs
  | None :: rs => match try_join_all rs with Some (Err x) => Some (Err x) | _ => None end
  end.

(** The engine's own view of a status that is done. *)
Definition settled (r : Result unit StatusError) : Result unit BsrsError :=
  match r with Ok u => Ok u | Err x => Err (status_error x) end.
End monad.
