(* ===== verification/Logic.v ===== *)
(** * Reasoning about engine computations

    A specification language for the monad of [Machine]: what a computation
    guarantees when it returns, when it fails with an error, and when it ends
    abnormally (waits forever, panics, is dropped). *)

From S2P Require Import Prelude Interfaces Errors Control Documents Compose Bundler Device Machine.

(** A property that neither other tasks nor the passing of time disturb. *)
Class Steady `{JsonNumber, !UuidSource, !Schedule} (P : RunEngine → Prop) := {
  steady_noise n e : P e → P (noise_step n e);
  steady_tick t e : P e → P (set_tick t e);
}.

(** What happens while the engine awaits. *)
Definition await_step `{JsonNumber, !UuidSource, !Schedule} (e : RunEngine) : RunEngine :=
  set_tick (S (tick e)) (noise_steps (noise (tick e)) e).

(** A property that an await does not disturb. *)
Class Awaits `{JsonNumber, !UuidSource, !Schedule} (P : RunEngine → Prop) :=
  awaits e : P e → P (await_step e).

#[global] Instance steady_awaits `{JsonNumber, !UuidSource, !Schedule} P `{!Steady P} : Awaits P.
Proof.
  intros e He. unfold await_step. apply steady_tick. unfold noise_steps.
  generalize (noise (tick e)) as ns. intros ns. revert e He.
  induction ns as [|n ns IH]; intros e He; [done|]. apply IH. by apply steady_noise.
Qed.

Section logic.
Context `{JsonNumber, !UuidSource, !Schedule}.
Context (I J : RunEngine → Prop).
Implicit Types (P R : RunEngine → Prop) (e : RunEngine).

(** [m] run in [e] ends in [Q] with its result, in [I] with an error, in [J]
    otherwise. *)
Definition wp {A} (m : M A) (Q : A → RunEngine → Prop) e : Prop :=
  match m e with
  | (Ret a, e') => Q a e'
  | (Threw _, e') => I e'
  | (_, e') => J e'
  end.

Definition spec {A} P (m : M A) (Q : A → RunEngine → Prop) : Prop := ∀ e, P e → wp m Q e.

(** [m] preserves the invariant. *)
Definition keeps {A} (m : M A) : Prop := spec I m (λ _, I).

Lemma spec_weaken {A} P P' (m : M A) (Q Q' : A → RunEngine → Prop) :
  spec P m Q → (∀ e, P' e → P e) → (∀ a e, Q a e → Q' a e) → spec P' m Q'.
Proof.
  intros Hm HP HQ e He. specialize (Hm e (HP e He)). unfold wp in *.
  destruct (m e) as [[a| | | | |] e']; try done. by apply HQ.
Qed.

Lemma spec_ret {A} P (a : A) (Q : A → RunEngine → Prop) :
  (∀ e, P e → Q a e) → spec P (mret a) Q.
Proof. intros HQ e He. by apply HQ. Qed.

Lemma spec_bind {A B} P (m : M A) (f : A → M B) (R : A → RunEngine → Prop)
  (Q : B → RunEngine → Prop) :
  spec P m R → (∀ a, spec (R a) (f a) Q) → spec P (m ≫= f) Q.
Proof.
  intros Hm Hf e He. specialize (Hm e He). unfold wp, mbind, M_bind in *.
  destruct (m e) as [[a| | | | |] e']; try done. by apply Hf.
Qed.

Lemma spec_gets {A} P (f : RunEngine → A) (Q : A → RunEngine → Prop) :
  (∀ e, P e → Q (f e) e) → spec P (gets f) Q.
Proof. intros HQ e He. by apply HQ. Qed.

Lemma spec_modify P (f : RunEngine → RunEngine) (Q : unit → RunEngine → Prop) :
  (∀ e, P e → Q () (f e)) → spec P (modify f) Q.
Proof. intros HQ e He. by apply HQ. Qed.

Lemma spec_atomic {A} P (f : RunEngine → A * RunEngine) (Q : A → RunEngine → Prop) :
  (∀ e, P e → Q (f e).1 (f e).2) → spec P (atomic f) Q.
Proof.
  intros HQ e He. specialize (HQ e He). unfold wp, atomic. by destruct (f e).
Qed.

Lemma spec_throw {A} P x (Q : A → RunEngine → Prop) :
  (∀ e, P e → I e) → spec P (throw x) Q.
Proof. intros HI e He. by apply HI. Qed.

Lemma spec_hang {A} P (Q : A → RunEngine → Prop) : (∀ e, P e → J e) → spec P hang Q.
Proof. intros HJ e He. by apply HJ. Qed.
Lemma spec_panic {A} P (Q : A → RunEngine → Prop) : (∀ e, P e → J e) → spec P panic Q.
Proof. intros HJ e He. by apply HJ. Qed.
Lemma spec_fuel {A} P (Q : A → RunEngine → Prop) : (∀ e, P e → J e) → spec P out_of_fuel Q.
Proof. intros HJ e He. by apply HJ. Qed.

Lemma spec_lift {A} P (r : Result A BsrsError) (Q : A → RunEngine → Prop) :
  (∀ a e, r = Ok a → P e → Q a e) → (∀ e, P e → I e) → spec P (lift r) Q.
Proof.
  intros HQ HI. destruct r as [a|x]; [apply spec_ret|apply spec_throw]; eauto.
Qed.

Lemma spec_attempt {A} P (m : M A) (Q : A → RunEngine → Prop) :
  spec P m Q →
  spec P (attempt m) (λ r e, match r with Ok a => Q a e | Err _ => I e end).
Proof.
  intros Hm e He. specialize (Hm e He). unfold wp, attempt in *.
  by destruct (m e) as [[a| | | | |] e'].
Qed.

Lemma spec_for_each {A} P (f : A → M unit) l :
  (∀ x, x ∈ l → spec P (f x) (λ _, P)) → spec P (for_each f l) (λ _, P).
Proof.
  induction l as [|x l IH]; intros Hf; simpl; [by apply spec_ret|].
  eapply spec_bind; [apply Hf; left|]. intros ?. apply IH. intros y Hy. apply Hf. by right.
Qed.

Lemma spec_await P : Awaits P → (∀ e, P e → J e) → spec P await (λ _, P).
Proof.
  intros HP HJ e He%awaits. unfold wp, await. destruct (_ && _); [by apply HJ|done].
Qed.

Lemma spec_pure {A} P (φ : Prop) (m : M A) Q :
  (φ → spec P m Q) → spec (λ e, φ ∧ P e) m Q.
Proof. intros Hm e [Hφ He]. by apply Hm. Qed.

Lemma spec_pure_r {A} P (φ : Prop) (m : M A) Q :
  (φ → spec P m Q) → spec (λ e, P e ∧ φ) m Q.
Proof. intros Hm e [He Hφ]. by apply Hm. Qed.

Lemma spec_exists {A B} (P : B → RunEngine → Prop) (m : M A) Q :
  (∀ b, spec (P b) m Q) → spec (λ e, ∃ b, P b e) m Q.
Proof. intros Hm e [b He]. by eapply Hm. Qed.

(** ** Invariants *)

Lemma keeps_ret {A} (a : A) : keeps (mret a).
Proof. by apply spec_ret. Qed.
Lemma keeps_bind {A B} (m : M A) (f : A → M B) :
  keeps m → (∀ a, keeps (f a)) → keeps (m ≫= f).
Proof. intros. by eapply spec_bind. Qed.
Lemma keeps_gets {A} (f : RunEngine → A) : keeps (gets f).
Proof. by apply spec_gets. Qed.
Lemma keeps_modify f : (∀ e, I e → I (f e)) → keeps (modify f).
Proof. intros. by apply spec_modify. Qed.
Lemma keeps_atomic {A} (f : RunEngine → A * RunEngine) :
  (∀ e, I e → I (f e).2) → keeps (atomic f).
Proof. intros. by apply spec_atomic. Qed.
Lemma keeps_throw {A} x : keeps (A := A) (throw x).
Proof. by apply spec_throw. Qed.
Lemma keeps_lift {A} (r : Result A BsrsError) : keeps (lift r).
Proof. by apply spec_lift. Qed.
Lemma keeps_expect {A} (o : option A) x : keeps (expect o x).
Proof. apply keeps_lift. Qed.
Lemma keeps_attempt {A} (m : M A) : keeps m → keeps (attempt m).
Proof.
  intros Hm. eapply spec_weaken; [by apply spec_attempt|done|]. by intros [] ?.
Qed.
Lemma keeps_ignore {A} (m : M A) : keeps m → keeps (ignore m).
Proof. intros. apply keeps_bind; [by apply keeps_attempt|]. intros ?. apply keeps_ret. Qed.
Lemma keeps_when c (m : M unit) : keeps m → keeps (when c m).
Proof. intros. destruct c; [done|apply keeps_ret]. Qed.
Lemma keeps_for_each {A} (f : A → M unit) l : (∀ x, keeps (f x)) → keeps (for_each f l).
Proof. intros Hf. apply spec_for_each. intros x _. apply Hf. Qed.

Context (HIJ : ∀ e, I e → J e) `{!Awaits I}.

Lemma keeps_hang {A} : keeps (A := A) hang.
Proof. by apply spec_hang. Qed.
Lemma keeps_panic {A} : keeps (A := A) panic.
Proof. by apply spec_panic. Qed.
Lemma keeps_fuel {A} : keeps (A := A) out_of_fuel.
Proof. by apply spec_fuel. Qed.
Lemma keeps_await : keeps await.
Proof. by apply spec_await. Qed.
Lemma keeps_ask {A} (f : Instant → A) : keeps (ask f).
Proof. apply keeps_bind; [apply keeps_await|]. intros. apply keeps_ret. Qed.
Lemma keeps_ask_ok {A} (f : Instant → Result A BsrsError) : keeps (ask_ok f).
Proof. apply keeps_bind; [apply keeps_ask|]. intros. apply keeps_lift. Qed.
Lemma keeps_clock : keeps clock.
Proof. apply keeps_gets. Qed.
Lemma keeps_race {A} (r : Instant → option (Result A BsrsError)) : keeps (race r).
Proof.
  apply keeps_bind; [apply keeps_await|]. intros t. apply keeps_bind; [apply keeps_gets|].
  intros c. apply keeps_ret.
Qed.
End logic.

Create HintDb keeps.
#[export] Hint Resolve keeps_ret keeps_gets keeps_throw keeps_lift keeps_expect
  keeps_hang keeps_panic keeps_fuel keeps_await keeps_ask keeps_ask_ok keeps_clock keeps_race
  : keeps.

(** One structural step of a [keeps] goal; what a [modify] does to the invariant is
    left open unless it changes nothing the invariant speaks of. *)
Ltac keeps_step :=
  lazymatch goal with
  | |- keeps _ _ (_ ≫= _) => apply keeps_bind; [|intros ?]
  | |- keeps _ _ (mbind _ _) => apply keeps_bind; [|intros ?]
  | |- keeps _ _ (match ?x with _ => _ end) => destruct x
  | |- keeps _ _ (when _ _) => apply keeps_when
  | |- keeps _ _ (ignore _) => apply keeps_ignore
  | |- keeps _ _ (attempt _) => apply keeps_attempt
  | |- keeps _ _ (for_each _ _) => apply keeps_for_each; intros ?
  | |- keeps _ _ (modify _) => apply keeps_modify; intros ? ?; try assumption
  | |- keeps _ _ (atomic _) => apply keeps_atomic; intros ? ?; try assumption
  end.
(** A specification that asks for no more than the invariant. *)
Ltac as_keeps := lazymatch goal with |- spec ?I ?J _ ?m _ => change (keeps I J m) end.
Ltac keeps_auto := repeat first [solve [eauto with keeps] | keeps_step].
Lemma spec_errors `{JsonNumber, !UuidSource, !Schedule} {A} (I J I' J' P : RunEngine → Prop)
  (m : M A) (Q : A → RunEngine → Prop) :
  spec I J P m Q → (∀ e, I e → I' e) → (∀ e, J e → J' e) → spec I' J' P m Q.
Proof.
  intros Hm HI HJ e He. specialize (Hm e He). unfold wp in *.
  destruct (m e) as [[a| | | | |] e']; auto.
Qed.

(** Two specifications of one computation. *)
Lemma spec_conj `{JsonNumber, !UuidSource, !Schedule} {A} (I J I' J' P P' : RunEngine → Prop)
  (m : M A) (Q Q' : A → RunEngine → Prop) :
  spec I J P m Q → spec I' J' P' m Q' → spec I J (λ e, P e ∧ P' e) m (λ a e, Q a e ∧ Q' a e).
Proof.
  intros Hm Hm' e [He He']. specialize (Hm e He). specialize (Hm' e He'). unfold wp in *.
  by destruct (m e) as [[a| | | | |] e'].
Qed.

#[export] Hint Extern 1 (Steady _) => apply _ : keeps.
#[export] Hint Extern 1 (Awaits _) => apply _ : keeps.
