(* ===== verification/Assets.v ===== *)
(** * External assets ([pack_external_assets] of [engine/run_engine.rs])

    Validation and stamping of one drain of [StreamResource]/[StreamDatum]
    documents, and the block of [collect_object] that numbers a drain on the
    stream's sequence axis. *)

From stdpp Require Import pretty.
From S2P Require Import Prelude Interfaces Errors Documents Compose Bundler.

Section assets.
Context `{JsonNumber, !TextFormat}.
Implicit Types (docs : list Document) (ext : list string) (reg : gmap string string).

(** [{:?}] of a list and of a set of strings, the set in the order of its elements. *)
Definition debug_list (l : list string) : string :=
  "[" +:+ String.concat ", " (debug_str <$> l) +:+ "]".
Definition debug_set (s : gset string) : string :=
  "{" +:+ String.concat ", " (debug_str <$> elements s) +:+ "}".

Definition range_width (r : StreamRange) : Z := sat_sub64 (r_stop r) (r_start r).

(** The loop's variables; the registry is the run's. *)
Record Drain := mkDrain {
  dr_width : option Z;
  dr_received : gset string;
  dr_registry : gmap string string;
}.

Implicit Types (dr : Drain).

Definition pack_resource (run_start : string) ext (r : StreamResource) dr
  : Result (Document * Drain) BsrsError :=
  if decide (is_Some (dr_registry dr !! sr_uid r)) then
    Err (PlanE ("Received `stream_resource` with uid " +:+ sr_uid r +:+ " twice"))
  else if negb (bool_decide (sr_data_key r ∈ ext)) then
    Err (PlanE ("Received a `stream_resource` with data_key " +:+ sr_data_key r
                +:+ " that is not in the descriptor 'STREAM:' data_keys " +:+ debug_list ext))
  else
    Ok (DocStreamResource
          (mkStreamResource _ (sr_uid r) (sr_data_key r) (sr_mimetype r) (sr_uri r)
             (sr_parameters r) (Some (default run_start (sr_run_start r)))),
        mkDrain (dr_width dr) (dr_received dr)
          (<[sr_uid r := sr_data_key r]> (dr_registry dr))).

Definition pack_datum (next_seq : Z) (d : StreamDatum) dr
  : Result (Document * Drain) BsrsError :=
  let s := sd_seq_nums d in
  if negb (r_start s =? 0)%Z || negb (r_stop s =? 0)%Z then
    Err (PlanE ("StreamDatum " +:+ sd_uid d +:+ " arrived with pre-filled seq_nums ["
                +:+ pretty (r_start s) +:+ ", " +:+ pretty (r_stop s)
                +:+ "); the run engine owns the sequence counter and writers must emit seq_nums {0, 0}"))
  else
    let! data_key := ok_or (dr_registry dr !! sd_stream_resource d)
      (PlanE ("Received a `stream_datum` referring to an unknown stream resource "
              +:+ sd_stream_resource d)) in
    let received := {[data_key]} ∪ dr_received dr in
    let w := range_width (sd_indices d) in
    let stamped := DocStreamDatum
      (mkStreamDatum (sd_uid d) (sd_stream_resource d) (sd_descriptor d) (sd_indices d)
         (mkRange next_seq (wrap64 (next_seq + w)))) in
    match dr_width dr with
    | None => Ok (stamped, mkDrain (Some w) received (dr_registry dr))
    | Some prev =>
        if negb (prev =? w)%Z then
          Err (PlanE ("StreamDatum " +:+ sd_uid d +:+ " spans " +:+ pretty w
                      +:+ " indices but another datum in the same drain spans " +:+ pretty prev
                      +:+ "; every detector in a stream must advance by the same number of indices"))
        else Ok (stamped, mkDrain (Some prev) received (dr_registry dr))
    end.

Definition pack_doc (run_start : string) (next_seq : Z) ext (doc : Document) dr
  : Result (Document * Drain) BsrsError :=
  match doc with
  | DocStreamResource r => pack_resource run_start ext r dr
  | DocStreamDatum d => pack_datum next_seq d dr
  | _ => Ok (doc, dr)
  end.

(** The registry is the caller's: what was registered before an error stays. *)
Fixpoint pack_docs (run_start : string) (next_seq : Z) ext docs dr
  : Result (list Document) BsrsError * Drain :=
  match docs with
  | [] => (Ok [], dr)
  | doc :: docs =>
      match pack_doc run_start next_seq ext doc dr with
      | Err e => (Err e, dr)
      | Ok (doc, dr) =>
          let '(r, dr) := pack_docs run_start next_seq ext docs dr in
          (match r with Ok packed => Ok (doc :: packed) | Err e => Err e end, dr)
      end
  end.

Definition uncovered ext (received : gset string) : bool :=
  negb (bool_decide (received = ∅))
  && (negb (bool_decide (length ext = size received))
      || negb (forallb (λ k, bool_decide (k ∈ received)) ext)).

Definition pack_external_assets docs (run_start : string) (next_seq : Z) ext reg
  : Result (list Document * Z) BsrsError * gmap string string :=
  let '(r, dr) := pack_docs run_start next_seq ext docs (mkDrain None ∅ reg) in
  (let! packed := r in
   if uncovered ext (dr_received dr) then
     Err (PlanE ("Received `stream_datum` for the data keys " +:+ debug_set (dr_received dr)
                 +:+ ", but the descriptor's 'STREAM:' data keys are " +:+ debug_list ext
                 +:+ "; every external data key must receive a `stream_datum` in the same drain"))
   else Ok (packed, default 0%Z (dr_width dr)),
   dr_registry dr).

(** The drain of [collect_object]: number the datums from the stream's next number,
    then advance its counter by the width. *)
Definition drain_assets (stream : string) docs (b : RunBundler)
  : Result (list Document) BsrsError * RunBundler :=
  match peek_next_seq stream (bundle b) with
  | None => (Err (PlanE ("Collect stream `" +:+ stream
                         +:+ "` has a descriptor but no sequence counter")), b)
  | Some next_seq =>
      let external_keys := default [] (external_data_keys stream (bundle b)) in
      let '(r, reg) := pack_external_assets docs (bd_start_uid b) next_seq external_keys
                         (stream_resource_data_keys b) in
      let b := set_resource_keys reg b in
      match r with
      | Err e => (Err e, b)
      | Ok (packed, width) =>
          (Ok packed,
           if (0 <? width)%Z then set_bundle (advance_seq stream width (bundle b)).2 b else b)
      end
  end.

(** ** Specification *)

Definition resources docs : list StreamResource :=
  omap (λ d, match d with DocStreamResource r => Some r | _ => None end) docs.
Definition datums docs : list StreamDatum :=
  omap (λ d, match d with DocStreamDatum d => Some d | _ => None end) docs.

(** The registry after the resources of [docs]. *)
Definition registered docs reg : gmap string string :=
  foldl (λ m r, <[sr_uid r := sr_data_key r]> m) reg (resources docs).

(** A resource is new and of an external key; a datum comes unnumbered, after its
    resource. *)
Definition admissible ext reg (doc : Document) : Prop :=
  match doc with
  | DocStreamResource r => reg !! sr_uid r = None ∧ sr_data_key r ∈ ext
  | DocStreamDatum d => sd_seq_nums d = mkRange 0 0 ∧ is_Some (reg !! sd_stream_resource d)
  | _ => True
  end.

(** The keys the datums of a drain belong to. *)
Definition received_keys docs reg : gset string :=
  list_to_set (omap (λ d, registered docs reg !! sd_stream_resource d) (datums docs)).

(** A drain to accept: every document admissible after the ones before it, the datums
    of one width, and, if there are any, covering the external keys. *)
Record acceptable ext reg docs : Prop := {
  ac_each : ∀ l1 doc l2, docs = l1 ++ doc :: l2 → admissible ext (registered l1 reg) doc;
  ac_width : ∀ d d', d ∈ datums docs → d' ∈ datums docs →
    range_width (sd_indices d) = range_width (sd_indices d');
  ac_covers : datums docs ≠ [] →
    length ext = size (received_keys docs reg) ∧ ∀ k, k ∈ ext → k ∈ received_keys docs reg;
}.

(** What an accepted document becomes. *)
Definition stamp (run_start : string) (next_seq : Z) (doc : Document) : Document :=
  match doc with
  | DocStreamResource r =>
      DocStreamResource
        (mkStreamResource _ (sr_uid r) (sr_data_key r) (sr_mimetype r) (sr_uri r)
           (sr_parameters r) (Some (default run_start (sr_run_start r))))
  | DocStreamDatum d =>
      DocStreamDatum
        (mkStreamDatum (sd_uid d) (sd_stream_resource d) (sd_descriptor d) (sd_indices d)
           (mkRange next_seq (wrap64 (next_seq + range_width (sd_indices d)))))
  | _ => doc
  end.

(** ** Lemmas *)

Lemma registered_cons doc docs reg :
  registered (doc :: docs) reg = registered docs (registered [doc] reg).
Proof. unfold registered, resources. by destruct doc. Qed.

Definition each ext reg docs : Prop :=
  ∀ l1 doc l2, docs = l1 ++ doc :: l2 → admissible ext (registered l1 reg) doc.

Lemma each_cons ext reg doc docs :
  each ext reg (doc :: docs) ↔ admissible ext reg doc ∧ each ext (registered [doc] reg) docs.
Proof.
  split.
  - intros He. split; [by apply (He [] doc docs)|]. intros l1 x l2 ->.
    rewrite <-registered_cons. by apply (He (doc :: l1) x l2).
  - intros [Hd He] [|y l1] x l2 Heq; simplify_eq/=; [done|].
    rewrite registered_cons. by apply (He l1 x l2).
Qed.

(** Registered once, a resource keeps its key. *)
Lemma registered_kept ext docs : ∀ reg u k,
  each ext reg docs → reg !! u = Some k → registered docs reg !! u = Some k.
Proof.
  induction docs as [|doc docs IH]; intros reg u k He Hu; [done|].
  apply each_cons in He as [Hd He]. rewrite registered_cons. apply IH; [done|].
  destruct doc; try done. unfold registered. simpl. destruct Hd as [Hn _].
  rewrite lookup_insert_ne; congruence.
Qed.

(** The widths a drain must agree on, from the width [w] seen so far. *)
Definition one_width (w : option Z) docs : Prop :=
  ∃ v, (∀ d, d ∈ datums docs → range_width (sd_indices d) = v) ∧ (∀ w', w = Some w' → w' = v).

Lemma one_width_cons_other w doc docs :
  datums [doc] = [] → one_width w (doc :: docs) ↔ one_width w docs.
Proof. by destruct doc. Qed.

Lemma one_width_cons_datum w d docs :
  one_width w (DocStreamDatum d :: docs) ↔
  (∀ w', w = Some w' → w' = range_width (sd_indices d))
  ∧ one_width (Some (range_width (sd_indices d))) docs.
Proof.
  unfold one_width. simpl. split.
  - intros (v & Hv & Hw). pose proof (Hv d (list_elem_of_here _ _)) as <-.
    split; [done|]. eexists. split; [|by intros ? [= <-]].
    intros d' Hd'. apply Hv. by right.
  - intros [Hw (v & Hv & Hv')]. rewrite <-(Hv' _ eq_refl) in Hv. eexists. split; [|done].
    intros d' [->|Hd']%elem_of_cons; [done|by apply Hv].
Qed.

Definition accepted run_start next_seq ext docs dr (r : Result (list Document) BsrsError)
  (dr' : Drain) : Prop :=
  match r with
  | Ok out =>
      each ext (dr_registry dr) docs ∧ one_width (dr_width dr) docs
      ∧ out = stamp run_start next_seq <$> docs
      ∧ dr_registry dr' = registered docs (dr_registry dr)
      ∧ dr_received dr' = received_keys docs (dr_registry dr) ∪ dr_received dr
      ∧ dr_width dr' = match dr_width dr with
                       | Some w => Some w
                       | None => range_width ∘ sd_indices <$> head (datums docs)
                       end
  | Err _ => ¬ (each ext (dr_registry dr) docs ∧ one_width (dr_width dr) docs)
  end.

Lemma pack_resource_spec run_start ext r dr :
  match pack_resource run_start ext r dr with
  | Ok (doc, dr') =>
      admissible ext (dr_registry dr) (DocStreamResource r)
      ∧ doc = stamp run_start 0 (DocStreamResource r) ∧ dr_width dr' = dr_width dr
      ∧ dr_received dr' = dr_received dr
      ∧ dr_registry dr' = registered [DocStreamResource r] (dr_registry dr)
  | Err _ => ¬ admissible ext (dr_registry dr) (DocStreamResource r)
  end.
Proof.
  unfold pack_resource. destruct (decide _) as [Hs|Hn].
  - intros [Hn _]. rewrite Hn in Hs. by destruct Hs.
  - apply eq_None_not_Some in Hn. case_bool_decide; simpl; [done|]. by intros [_ ?].
Qed.

Lemma pack_datum_spec next_seq d dr :
  match pack_datum next_seq d dr with
  | Ok (doc, dr') =>
      admissible [] (dr_registry dr) (DocStreamDatum d)
      ∧ (∀ w, dr_width dr = Some w → w = range_width (sd_indices d))
      ∧ doc = stamp EmptyString next_seq (DocStreamDatum d)
      ∧ dr_width dr' = Some (range_width (sd_indices d))
      ∧ (∃ k, dr_registry dr !! sd_stream_resource d = Some k
              ∧ dr_received dr' = {[k]} ∪ dr_received dr)
      ∧ dr_registry dr' = dr_registry dr
  | Err _ => ¬ (admissible [] (dr_registry dr) (DocStreamDatum d)
                ∧ ∀ w, dr_width dr = Some w → w = range_width (sd_indices d))
  end.
Proof.
  unfold pack_datum. destruct (sd_seq_nums d) as [a c] eqn:Hseq. simpl.
  destruct (negb (a =? 0)%Z || negb (c =? 0)%Z) eqn:Hz.
  { rewrite ?Hseq. intros [[[= -> ->] _] _]. done. }
  apply orb_false_iff in Hz as [Ha Hc]. bools. apply Z.eqb_eq in Ha, Hc. subst.
  destruct (dr_registry dr !! sd_stream_resource d) as [k|] eqn:Hk; simpl.
  - destruct (dr_width dr) as [prev|] eqn:Hw; simpl.
    + destruct (prev =? range_width (sd_indices d))%Z eqn:He; simpl.
      * apply Z.eqb_eq in He. subst prev. rewrite ?Hseq, ?Hk. split_and!; try done; [by intros ? [= <-]|].
        by exists k.
      * apply Z.eqb_neq in He. intros [_ Hall]. by apply He, Hall.
    + rewrite ?Hseq, ?Hk. split_and!; try done. by exists k.
  - rewrite ?Hk. intros [[_ [? ?]] _]. done.
Qed.

Lemma received_keys_datum ext d docs reg k :
  each ext reg docs → reg !! sd_stream_resource d = Some k →
  received_keys (DocStreamDatum d :: docs) reg = {[k]} ∪ received_keys docs reg.
Proof.
  intros He Hk. unfold received_keys. simpl.
  change (registered (DocStreamDatum d :: docs) reg) with (registered docs reg).
  by rewrite (registered_kept ext docs reg _ k He Hk).
Qed.

Lemma pack_docs_spec run_start next_seq ext docs : ∀ dr,
  let '(r, dr') := pack_docs run_start next_seq ext docs dr in
  accepted run_start next_seq ext docs dr r dr'.
Proof.
  induction docs as [|doc docs IH]; intros dr.
  { simpl. split; [by intros [|? ?] ? ?|]. split.
    { destruct (dr_width dr) as [w|]; [exists w|exists 0%Z]; (split; [by intros ? ?%elem_of_nil|]);
        [by intros ? [= <-]|done]. }
    split_and!; [done|done| |by destruct (dr_width dr)].
    unfold received_keys. simpl. by rewrite (left_id_L ∅ (∪)). }
  assert (datums [doc] = [] → pack_doc run_start next_seq ext doc dr = Ok (doc, dr) →
    resources [doc] = [] → stamp run_start next_seq doc = doc → admissible ext (dr_registry dr) doc →
    let '(r, dr') := pack_docs run_start next_seq ext (doc :: docs) dr in
    accepted run_start next_seq ext (doc :: docs) dr r dr') as Hother.
  { intros Hd Hp Hr Hst Ha. simpl. rewrite Hp. specialize (IH dr).
    destruct (pack_docs _ _ _ docs dr) as [[out|e] dr']; unfold accepted in *;
      rewrite each_cons; (replace (registered [doc] (dr_registry dr)) with (dr_registry dr)
        by (unfold registered; by rewrite Hr)); rewrite one_width_cons_other by done.
    - destruct IH as (? & ? & -> & -> & -> & ->). simpl. rewrite Hst.
      destruct doc; try done.
    - intros [[_ ?] ?]. by apply IH. }
  destruct doc as [| | | | | | |r|d|]; try (by apply Hother).
  - clear Hother. simpl. pose proof (pack_resource_spec run_start ext r dr) as Hp.
    destruct (pack_resource run_start ext r dr) as [[doc dr1]|e].
    + destruct Hp as (Ha & -> & Hw & Hrc & Hrg). specialize (IH dr1).
      destruct (pack_docs _ _ _ docs dr1) as [[out|e] dr']; unfold accepted in *;
        rewrite each_cons; rewrite Hw, Hrg in IH.
      * destruct IH as (? & ? & -> & -> & -> & ->). rewrite Hrc. done.
      * intros [[_ ?] ?]. by apply IH.
    + unfold accepted. rewrite each_cons. by intros [[? _] _].
  - clear Hother. simpl. pose proof (pack_datum_spec next_seq d dr) as Hp.
    destruct (pack_datum next_seq d dr) as [[doc dr1]|e].
    + destruct Hp as (Ha & Hw & -> & Hw1 & (k & Hk & Hrc) & Hrg). specialize (IH dr1).
      destruct (pack_docs _ _ _ docs dr1) as [[out|e] dr']; unfold accepted in *;
        rewrite each_cons, one_width_cons_datum; rewrite Hw1, Hrg in IH;
        change (registered [DocStreamDatum d] (dr_registry dr)) with (dr_registry dr).
      * destruct IH as (He & ? & -> & -> & -> & ->).
        rewrite (received_keys_datum ext d docs _ k) by done. rewrite Hrc.
        split_and!; try done; [set_solver|].
        simpl. destruct (dr_width dr) as [w|]; [|done]. by rewrite <-(Hw w).
      * intros [[_ ?] [_ ?]]. by apply IH.
    + unfold accepted. rewrite each_cons, one_width_cons_datum. intros [[? _] [? _]]. by apply Hp.
Qed.

Lemma datums_stamp run_start next_seq docs :
  datums (stamp run_start next_seq <$> docs)
  = (λ d, mkStreamDatum (sd_uid d) (sd_stream_resource d) (sd_descriptor d) (sd_indices d)
       (mkRange next_seq (wrap64 (next_seq + range_width (sd_indices d))))) <$> datums docs.
Proof. induction docs as [|[] docs IH]; simpl; try done. by f_equal. Qed.

Lemma one_width_None docs :
  one_width None docs ↔
  ∀ d d', d ∈ datums docs → d' ∈ datums docs → range_width (sd_indices d) = range_width (sd_indices d').
Proof.
  split.
  - intros (v & Hv & _) d d' ?%Hv ?%Hv. congruence.
  - intros Hd. destruct (datums docs) as [|d ds] eqn:Hds.
    + exists 0%Z. rewrite Hds. split; [by intros ? ?%elem_of_nil|done].
    + exists (range_width (sd_indices d)). rewrite Hds. split; [|done]. intros d' Hd'.
      apply Hd; [done|]. left.
Qed.

Lemma received_empty ext docs reg :
  each ext reg docs → received_keys docs reg = ∅ ↔ datums docs = [].
Proof.
  intros He. split; [|intros Hd; unfold received_keys; by rewrite Hd].
  intros Hr. destruct (datums docs) as [|d ds] eqn:Hd; [done|exfalso].
  assert (∃ k, registered docs reg !! sd_stream_resource d = Some k) as [k Hk].
  { assert (d ∈ datums docs) as Hin by (rewrite Hd; left).
    unfold datums in Hin. apply list_elem_of_omap in Hin as (doc & Hdoc & Heq).
    destruct doc; simplify_eq. apply list_elem_of_split in Hdoc as (l1 & l2 & ->).
    destruct (He l1 _ l2 eq_refl) as [_ [k Hk]]. exists k.
    unfold registered, resources. rewrite omap_app, foldl_app. simpl.
    assert (each ext (registered l1 reg) l2) as He2.
    { intros m1 x m2 ->. specialize (He (l1 ++ DocStreamDatum d :: m1) x m2).
      rewrite <-app_assoc in He. specialize (He eq_refl). unfold registered, resources in He.
      by rewrite omap_app, foldl_app in He. }
    by apply (registered_kept ext l2 _ _ _ He2). }
  unfold received_keys in Hr. rewrite Hd in Hr. simpl in Hr. rewrite Hk in Hr. set_solver.
Qed.

Lemma uncovered_false ext (rc : gset string) :
  uncovered ext rc = false ↔ (rc ≠ ∅ → length ext = size rc ∧ ∀ k, k ∈ ext → k ∈ rc).
Proof.
  unfold uncovered. case_bool_decide as Hr; simpl; [by split|].
  rewrite orb_false_iff, !negb_false_iff, bool_decide_eq_true.
  rewrite <-(Is_true_true (forallb _ _)), forallb_True, Forall_forall.
  setoid_rewrite bool_decide_spec. tauto.
Qed.

Lemma pack_ok run_start next_seq ext reg docs out width reg' :
  pack_external_assets docs run_start next_seq ext reg = (Ok (out, width), reg') →
  out = stamp run_start next_seq <$> docs ∧ reg' = registered docs reg
  ∧ (∀ d, d ∈ datums out → sd_seq_nums d = mkRange next_seq (wrap64 (next_seq + width)))
  ∧ (datums docs = [] → width = 0%Z) ∧ (0 ≤ width)%Z.
Proof.
  unfold pack_external_assets.
  pose proof (pack_docs_spec run_start next_seq ext docs (mkDrain None ∅ reg)) as Hp.
  destruct (pack_docs _ _ _ _ _) as [[o|e] dr]; unfold accepted in Hp; simpl in *; [|done].
  destruct Hp as (_ & Hw & -> & -> & _ & Hdw). destruct (uncovered _ _); [done|].
  intros [= <- <- <-]. rewrite Hdw. split_and!; [done|done| |by intros ->|].
  - rewrite datums_stamp. intros d' (d & -> & Hd)%list_elem_of_fmap. simpl. do 3 f_equal.
    rewrite one_width_None in Hw. destruct (datums docs) as [|d0 ds] eqn:Hds;
      [by apply elem_of_nil in Hd|]. simpl. apply Hw; [done|left].
  - destruct (datums docs); simpl; [done|]. unfold range_width, sat_sub64. lia.
Qed.

Lemma pack_accepts run_start next_seq ext reg docs :
  is_ok (pack_external_assets docs run_start next_seq ext reg).1 = true ↔ acceptable ext reg docs.
Proof.
  unfold pack_external_assets.
  pose proof (pack_docs_spec run_start next_seq ext docs (mkDrain None ∅ reg)) as Hp.
  destruct (pack_docs _ _ _ _ _) as [[out|e] dr]; unfold accepted in Hp; simpl in *.
  - destruct Hp as (He & Hw & -> & Hrg & Hrc & _). rewrite (right_id_L ∅ (∪)) in Hrc.
    rewrite one_width_None in Hw. rewrite Hrc.
    transitivity (uncovered ext (received_keys docs reg) = false);
      [by destruct (uncovered _ _)|].
    rewrite uncovered_false, (received_empty ext) by done. split; [by split|]. by intros [_ _ ?].
  - split; [done|]. intros [He Hw _]. exfalso. apply Hp. split; [done|]. by apply one_width_None.
Qed.

(** ** Theorems *)

(** C23: A drain of asset documents is accepted exactly when every resource is new to the
    run and of an external key of the stream, every datum comes unnumbered after its
    resource, all datums span one width, and they leave no external key out. *)
Theorem pack_assets_accepts run_start next_seq ext reg docs :
  is_ok (pack_external_assets docs run_start next_seq ext reg).1 = true ↔ acceptable ext reg docs.
Proof. apply pack_accepts. Qed.

(** An accepted drain: the documents come back in order, each resource stamped with the
    run and registered under its key, each datum numbered from the stream's next
    number over the common width, which is the width returned (0 without datums). *)
Theorem pack_assets_stamps run_start next_seq ext reg docs out width reg' :
  pack_external_assets docs run_start next_seq ext reg = (Ok (out, width), reg') →
  out = stamp run_start next_seq <$> docs ∧ reg' = registered docs reg
  ∧ (∀ d, d ∈ datums out → sd_seq_nums d = mkRange next_seq (wrap64 (next_seq + width)))
  ∧ (datums docs = [] → width = 0%Z).
Proof. intros (? & ? & ? & ? & _)%pack_ok. done. Qed.

(** Collected datums and events share the stream's axis: an accepted drain numbers its
    datums from the stream's next number [n] over one width [w], and the stream's next
    number after it, an event's or another drain's, is [n + w]; other streams keep
    their place, and a rejected drain moves no counter. *)
Theorem collect_drain_advances_axis stream docs b n :
  peek_next_seq stream (bundle b) = Some n →
  let '(r, b') := drain_assets stream docs b in
  match r with
  | Ok out => ∃ w,
      (∀ d, d ∈ datums out → sd_seq_nums d = mkRange n (wrap64 (n + w)))
      ∧ peek_next_seq stream (bundle b') = Some (wrap64 (n + w))
      ∧ ∀ name, name ≠ stream → peek_next_seq name (bundle b') = peek_next_seq name (bundle b)
  | Err _ => bundle b' = bundle b
  end.
Proof.
  intros Hn. unfold drain_assets. rewrite Hn.
  destruct (pack_external_assets _ _ _ _ _) as [[[out w]|e] reg] eqn:Hp; [|done].
  apply pack_ok in Hp as (_ & _ & Hd & _ & Hw). exists w. split; [done|].
  unfold peek_next_seq in *. apply fmap_Some in Hn as (st & Hst & ->).
  destruct (0 <? w)%Z eqn:Hw0; [unfold advance_seq; simpl; rewrite Hst; simpl|]; split.
  - rewrite lookup_alter_eq, Hst. simpl. rewrite !wrap64_add. do 2 f_equal. lia.
  - intros name Hname. by rewrite lookup_alter_ne.
  - simpl. rewrite Hst. simpl. apply Z.ltb_ge in Hw0. replace w with 0%Z by lia.
    by rewrite wrap64_add, Z.add_0_r.
  - done.
Qed.
End assets.

(** ** Witnesses: two drains of two frames each into a declared stream *)

Module ExA.
Export Bundler.ExB.
Definition img_key : DataKey :=
  mkDataKey "src" DArray [Some 2%Z] None (Some "STREAM:hdf5") None None None None None None.
Definition res (u : string) : Document :=
  DocStreamResource (mkStreamResource _ u "img" "application/x-hdf5" "file:///x" ∅ None).
Definition dat (u r : string) (i : Z) : Document :=
  DocStreamDatum (mkStreamDatum u r "d" (mkRange i (i + 2)) (mkRange 0 0)).
Definition b_img : RunBundler :=
  (declare_stream "d" 0%Z "img" [mkStreamObject (Some "cam") {["img" := img_key]} None
     configuration_default] (bundler_new (bundle_open start0))).2.
Definition drain1 : list Document := [res "r"; dat "r/0" "r" 0].
End ExA.
Import ExA.

Lemma pack_assets_stamps_witness : ∃ out reg,
  pack_external_assets drain1 "run" 4 ["img"] ∅ = (Ok (out, 2%Z), reg)
  ∧ sd_seq_nums <$> datums out = [mkRange 4 6] ∧ reg !! "r" = Some "img".
Proof.
  assert (∃ out reg, pack_external_assets drain1 "run" 4 ["img"] ∅ = (Ok (out, 2%Z), reg))
    as (out & reg & Hp) by (eexists _, _; reflexivity).
  exists out, reg. destruct (pack_assets_stamps _ _ _ _ _ _ _ _ Hp) as (Ho & Hr & _ & _).
  split; [exact Hp|]. split; [rewrite Ho; reflexivity|rewrite Hr; reflexivity].
Defined.

Lemma collect_drain_advances_axis_witness :
  let b1 := (drain_assets "img" drain1 b_img).2 in
  peek_next_seq "img" (bundle b1) = Some 3%Z.
Proof.
  assert (peek_next_seq "img" (bundle b_img) = Some 1%Z) as Hn by reflexivity.
  pose proof (collect_drain_advances_axis "img" drain1 b_img 1%Z Hn) as H.
  assert (match (drain_assets "img" drain1 b_img).1 with
          | Ok out => datums out = [mkStreamDatum "r/0" "r" "d" (mkRange 0 2) (mkRange 1 3)]
          | Err _ => False
          end) as Hout by (vm_compute; reflexivity).
  destruct (drain_assets "img" drain1 b_img) as [[out|e] b']; [|destruct Hout].
  destruct H as (w & Hw & Hp & _). cbn [fst snd] in *.
  rewrite Hout in Hw. specialize (Hw _ (list_elem_of_here _ _)). injection Hw as Hw.
  cbv zeta. rewrite Hp, <-Hw. reflexivity.
Defined.
