(* ===== verification/Frames.v ===== *)
(** * Frame sinks and the documents of what they wrote ([backends/soft/detector.rs],
      [stream/pipe.rs], [stream/sinks], [stream/sources/vec.rs], [file_uri] of
      [event_model/mod.rs])

    The writers of a detector: the soft one, the file of length-prefixed frames and the
    HDF5 file, with the resource and the datums each announces, and the pipe that feeds
    them. [rust-hdf5] is a parameter: it answers the opening of the file and every append.
    A writer and its control, with the frames that come while the detector waits, are the
    hardware of a [StandardDetector] ([Detector]). *)

From Stdlib Require Import Ascii Strings.Byte.
From stdpp Require Import strings gmap pretty.
From coqutil Require Word.LittleEndianList.
From S2P Require Import Prelude.
From S2P Require Import Interfaces.
From S2P Require Import Errors.
From S2P Require Import Documents.
From S2P Require Import F64.
From S2P Require Import Bundler.
From S2P Require Import Assets.
From S2P Require Import Detector.
From S2P Require Import Suspend.

(** ** Frames *)

Record Frame := mkFrame { payload : list byte; ts_ns : Z; channel : Z; flags : Z; f_seq : Z }.

(** [try_into::<u32>] and [u32::to_le_bytes]. *)
Definition len_u32 (l : list byte) : option Z :=
  let n := Z.of_nat (length l) in if (n <=? 4294967295)%Z then Some n else None.
Definition to_le_bytes (n : Z) : list byte := LittleEndianList.le_split 4 n.

#[export] Instance byte_eq_decision : EqDecision byte := Byte.byte_eq_dec.

Definition MAGIC : list byte := String.list_byte_of_string "CIRBIN1" ++ [x0a].

Definition file_uri (path : string) : string :=
  match path with
  | String "/"%char _ => "file://localhost" +:+ path
  | _ => "file://" +:+ path
  end.

(** ** The documents of a writer *)

Section frames.
Context `{JsonNumber, !UuidSource}.

(** What a writer remembers of what it announced: its data key, the resource, and the
    frames its datums name. *)
Record Emitter := mkEmitter { data_key : option string; resource_uid : option string; last_emitted : Z }.
Definition new_emitter : Emitter := mkEmitter None None 0.
Definition set_data_key (k : string) e : Emitter := mkEmitter (Some k) (resource_uid e) (last_emitted e).

(** What the resource says of the file. *)
Record Label := mkLabel { mimetype : string; uri : string; parameters : gmap string Value }.

Definition resource_of (l : Label) (key uid : string) : StreamResource :=
  mkStreamResource _ uid key (mimetype l) (uri l) (parameters l) None.
Definition datum_of (uid resource descriptor : string) (start stop : Z) : StreamDatum :=
  mkStreamDatum uid resource descriptor (mkRange start stop) (mkRange 0 0).

(** [load], and [store] when the index is later; [swap]. *)
Definition store_later (last up_to : Z) : Z := if (last <? up_to)%Z then up_to else last.
Definition swap_last (last up_to : Z) : Z := up_to.

(** [collect_stream_docs]; [uids]: the UUIDs drawn so far. *)
Definition collect_stream_docs (keep : Z → Z → Z) (l : Label) (up_to : Z) (descriptor : string) (x : Emitter * nat) :
    list Document * (Emitter * nat) :=
  let '(e, uids) := x in
  match data_key e with
  | None => ([], (e, uids))
  | Some key =>
      let '(docs, resource, uids) :=
        match resource_uid e with
        | Some u => ([], u, uids)
        | None => ([DocStreamResource (resource_of l key (uuid_v4 uids))], uuid_v4 uids, S uids)
        end in
      let last := last_emitted e in
      let e := mkEmitter (data_key e) (Some resource) (keep last up_to) in
      if (last <? up_to)%Z
      then (docs ++ [DocStreamDatum (datum_of (uuid_v4 uids) resource descriptor last up_to)], (e, S uids))
      else (docs, (e, uids))
  end.

(** ** Sinks and writers *)

(** [FrameSink]; [sink_io]: what the system answers one frame. *)
Class FrameSink (w : Type) := {
  sink_io : Type;
  accept : Frame → sink_io → w → Result unit BsrsError * w;
}.

(** [DetectorControl] and [DetectorWriter], the writer with what its control shares. *)
Class DetectorControl (c : Type) := {
  ctl_prepare : TriggerInfo → c → Result unit BsrsError * c;
  ctl_arm : c → Result unit StatusError * c;
  ctl_wait_for_idle : c → Result unit BsrsError * c;
  ctl_disarm : c → Result unit BsrsError * c;
}.
Class DetectorWriter (c w : Type) := {
  dw_io : Type;
  dw_open : string → Z → dw_io → w → Result (gmap string DataKey) BsrsError * w;
  dw_close : w → Result unit BsrsError * w;
  dw_indices : c → w → Z;
  dw_docs : Z → string → w * nat → list Document * (w * nat);
  dw_hints : string → list string;
}.

(** What comes to a writer while its detector waits: the frames of a sink, with what the
    system answers each; a failure is the source's to see. *)
Class Fed (w : Type) := { event : Type; fed : w → event → w }.
#[export] Instance sink_fed {w} `{!FrameSink w} : Fed w :=
  {| event := Frame * sink_io; fed x p := (accept p.1 p.2 x).2 |}.

(** The data key of frames of bytes in a file. *)
Definition bytes_key (path : string) (payload_size : Z) : DataKey :=
  mkDataKey (file_uri path) DNumber (if (0 <? payload_size)%Z then [Some payload_size] else [])
    (Some (NpScalar "|u1")) (Some "STREAM:") None None None (Some ["byte"]) None None.

(** *** Length-prefixed frames in a file ([BinaryFrameSink]) *)

(** [f_open]: the handle; [f_disk]: the bytes of the file. *)
Record BinaryFrameSink := mkBinary {
  b_path : string;
  b_payload_size : Z;
  f_open : bool;
  f_disk : option (list byte);
  b_counter : Z;
  b_emitter : Emitter;
}.
Implicit Types (b : BinaryFrameSink).
Definition new_binary (path : string) (payload_size : Z) : BinaryFrameSink :=
  mkBinary path payload_size false None 0 new_emitter.
Definition set_file open disk b : BinaryFrameSink :=
  mkBinary (b_path b) (b_payload_size b) open disk (b_counter b) (b_emitter b).
Definition set_b_emitter e b : BinaryFrameSink :=
  mkBinary (b_path b) (b_payload_size b) (f_open b) (f_disk b) (b_counter b) e.
Definition count_frame b : BinaryFrameSink :=
  mkBinary (b_path b) (b_payload_size b) (f_open b) (f_disk b) (wrap64 (b_counter b + 1)) (b_emitter b).

(** What [write_all] answers: [Only k] fails after [k] bytes. *)
Inductive Write := Whole | Only (k : nat).
Record BinaryIo := mkBinaryIo { opens : bool; magic : Write; len : Write; body : Write; io_error : string }.
Definition no_failure : BinaryIo := mkBinaryIo true Whole Whole Whole "".

Definition write_all (answer : Write) (t : list byte) b : bool * BinaryFrameSink :=
  match answer with
  | Whole => (true, set_file (f_open b) (Some (default [] (f_disk b) ++ t)) b)
  | Only k => (false, set_file (f_open b) (Some (default [] (f_disk b) ++ take k t)) b)
  end.

Definition ensure_open (io : BinaryIo) b : Result unit BsrsError * BinaryFrameSink :=
  if f_open b then (Ok (), b)
  else if negb (opens io) then (Err (Backend ("binary sink open: " +:+ io_error io)), b)
  else
    let b := set_file false (Some []) b in
    match write_all (magic io) MAGIC b with
    | (true, b) => (Ok (), set_file true (f_disk b) b)
    | (false, b) => (Err (Backend ("binary sink write magic: " +:+ io_error io)), b)
    end.

Definition too_large (n : nat) : BsrsError :=
  Backend ("binary sink: frame too large for u32 length prefix (" +:+ pretty n +:+ " bytes; CIRBIN1 max = 4294967295)").

Definition binary_accept (f : Frame) (io : BinaryIo) b : Result unit BsrsError * BinaryFrameSink :=
  match ensure_open io b with
  | (Err e, b) => (Err e, b)
  | (Ok _, b) =>
      match len_u32 (payload f) with
      | None => (Err (too_large (length (payload f))), b)
      | Some n =>
          match write_all (len io) (to_le_bytes n) b with
          | (false, b) => (Err (Backend ("binary sink write len: " +:+ io_error io)), b)
          | (true, b) =>
              match write_all (body io) (payload f) b with
              | (false, b) => (Err (Backend ("binary sink write payload: " +:+ io_error io)), b)
              | (true, b) => (Ok (), count_frame b)
              end
          end
      end
  end.

Definition binary_open (name : string) (io : BinaryIo) b : Result (gmap string DataKey) BsrsError * BinaryFrameSink :=
  match ensure_open io b with
  | (Err e, b) => (Err e, b)
  | (Ok _, b) => (Ok {[ name := bytes_key (b_path b) (b_payload_size b) ]}, set_b_emitter (set_data_key name (b_emitter b)) b)
  end.
Definition binary_label b : Label := mkLabel "application/x-cirbin1" (file_uri (b_path b)) ∅.
Definition binary_docs (up_to : Z) (descriptor : string) (x : BinaryFrameSink * nat) : list Document * (BinaryFrameSink * nat) :=
  let '(docs, (e, uids)) := collect_stream_docs store_later (binary_label x.1) up_to descriptor (b_emitter x.1, x.2) in
  (docs, (set_b_emitter e x.1, uids)).
(** The flush of [close] answers nothing else: the bytes are in the file. *)
Definition binary_close b : Result unit BsrsError * BinaryFrameSink := (Ok (), set_file false (f_disk b) b).

#[export] Instance binary_sink : FrameSink BinaryFrameSink := {| sink_io := BinaryIo; accept := binary_accept |}.
#[export] Instance binary_writer c : DetectorWriter c BinaryFrameSink := {|
  dw_io := BinaryIo;
  dw_open name _ := binary_open name;
  dw_close := binary_close;
  dw_indices _ b := b_counter b;
  dw_docs := binary_docs;
  dw_hints _ := [];
|}.

(** *** Frames in an HDF5 file ([Hdf5FrameSink]) *)

Record Hdf5SinkConfig := mkHdf5Config {
  c_name : string;
  c_path : string;
  c_payload_size : Z;
  c_chunk_size_bytes : Z;
  c_compress : bool;
}.
Definition new_config (name path : string) (payload_size : Z) : Hdf5SinkConfig :=
  mkHdf5Config name path payload_size 1048576 false.
Definition chunk_size_bytes (n : Z) (c : Hdf5SinkConfig) : Hdf5SinkConfig :=
  mkHdf5Config (c_name c) (c_path c) (c_payload_size c) (Z.max n 1) (c_compress c).
Definition compression (on : bool) (c : Hdf5SinkConfig) : Hdf5SinkConfig :=
  mkHdf5Config (c_name c) (c_path c) (c_payload_size c) (c_chunk_size_bytes c) on.

(** [tx]: the channel to the thread that owns the file; [dataset]: what it holds, once a
    file is open. *)
Record Hdf5FrameSink := mkHdf5 {
  h_config : Hdf5SinkConfig;
  tx : bool;
  was_opened : bool;
  dataset : option (list byte);
  h_counter : Z;
  h_emitter : Emitter;
}.
Implicit Types (h : Hdf5FrameSink).
Definition with_config (c : Hdf5SinkConfig) : Hdf5FrameSink := mkHdf5 c true false None 0 new_emitter.
Definition set_dataset d h : Hdf5FrameSink := mkHdf5 (h_config h) (tx h) (was_opened h) d (h_counter h) (h_emitter h).
Definition set_was_opened h : Hdf5FrameSink := mkHdf5 (h_config h) (tx h) true (dataset h) (h_counter h) (h_emitter h).
Definition set_h_emitter e h : Hdf5FrameSink := mkHdf5 (h_config h) (tx h) (was_opened h) (dataset h) (h_counter h) e.

(** What [rust-hdf5] answers: the failure of the file, of the append. *)
Record Hdf5Io := mkHdf5Io { file_error : option string; append_error : option string }.
Inductive Cmd := CmdOpen | CmdAppend (payload : list byte).

(** One command of [worker_loop]. *)
Definition work (io : Hdf5Io) (c : Cmd) h : Result unit BsrsError * Hdf5FrameSink :=
  match c with
  | CmdOpen => match file_error io with
               | None => (Ok (), set_dataset (Some []) h)
               | Some e => (Err (Backend e), h)
               end
  | CmdAppend t => match dataset h with
                   | None => (Err (StateE "hdf5 sink not open"), h)
                   | Some d => match append_error io with
                               | None => (Ok (), set_dataset (Some (d ++ t)) h)
                               | Some e => (Err (Backend ("hdf5 append: " +:+ e)), h)
                               end
                   end
  end.
Definition send_cmd (io : Hdf5Io) (c : Cmd) h : Result unit BsrsError * Hdf5FrameSink :=
  if tx h then work io c h else (Err (Backend "hdf5 worker shut down"), h).
Definition hdf5_ensure_open (io : Hdf5Io) h : Result unit BsrsError * Hdf5FrameSink :=
  if was_opened h then (Ok (), h)
  else match send_cmd io CmdOpen h with
       | (Ok _, h) => (Ok (), set_was_opened h)
       | (Err e, h) => (Err e, h)
       end.
Definition hdf5_accept (f : Frame) (io : Hdf5Io) h : Result unit BsrsError * Hdf5FrameSink :=
  match hdf5_ensure_open io h with
  | (Err e, h) => (Err e, h)
  | (Ok _, h) =>
      match send_cmd io (CmdAppend (payload f)) h with
      | (Err e, h) => (Err e, h)
      | (Ok _, h) => (Ok (), mkHdf5 (h_config h) (tx h) (was_opened h) (dataset h) (wrap64 (h_counter h + 1)) (h_emitter h))
      end
  end.
Definition hdf5_open (name : string) (io : Hdf5Io) h : Result (gmap string DataKey) BsrsError * Hdf5FrameSink :=
  match hdf5_ensure_open io h with
  | (Err e, h) => (Err e, h)
  | (Ok _, h) => (Ok {[ name := bytes_key (c_path (h_config h)) (c_payload_size (h_config h)) ]},
                  set_h_emitter (set_data_key name (h_emitter h)) h)
  end.
Definition hdf5_close h : Result unit BsrsError * Hdf5FrameSink :=
  (Ok (), mkHdf5 (h_config h) false (was_opened h) (dataset h) (h_counter h) (h_emitter h)).
Definition hdf5_label h : Label :=
  mkLabel "application/x-hdf5" (file_uri (c_path (h_config h)))
    {[ "path" := VString ("/entry/instrument/" +:+ c_name (h_config h) +:+ "/data") ]}.
Definition hdf5_docs (up_to : Z) (descriptor : string) (x : Hdf5FrameSink * nat) : list Document * (Hdf5FrameSink * nat) :=
  let '(docs, (e, uids)) := collect_stream_docs swap_last (hdf5_label x.1) up_to descriptor (h_emitter x.1, x.2) in
  (docs, (set_h_emitter e x.1, uids)).

#[export] Instance hdf5_sink : FrameSink Hdf5FrameSink := {| sink_io := Hdf5Io; accept := hdf5_accept |}.
#[export] Instance hdf5_writer c : DetectorWriter c Hdf5FrameSink := {|
  dw_io := Hdf5Io;
  dw_open name _ := hdf5_open name;
  dw_close := hdf5_close;
  dw_indices _ h := h_counter h;
  dw_docs := hdf5_docs;
  dw_hints _ := [];
|}.

(** *** The soft detector's parts *)

Record SoftDetectorControl := mkSoftControl { c_deadtime : Z; arm_count : Z; target : Z }.
Definition new_soft_control (deadtime : Z) : SoftDetectorControl := mkSoftControl deadtime 0 1.
Definition trigger_name (t : DetectorTrigger) : string :=
  match t with Internal => "Internal" | ExternalEdge => "ExternalEdge" | ExternalLevel => "ExternalLevel" end.
Definition soft_prepare (i : TriggerInfo) (c : SoftDetectorControl) : Result unit BsrsError * SoftDetectorControl :=
  match ti_trigger i with
  | Internal => (Ok (), mkSoftControl (c_deadtime c) (arm_count c) (number_of_events i))
  | t => (Err (Backend ("soft detector supports only DetectorTrigger::Internal, got " +:+ trigger_name t)), c)
  end.
Definition soft_arm (c : SoftDetectorControl) : Result unit StatusError * SoftDetectorControl :=
  (Ok (), mkSoftControl (c_deadtime c) (wrap64 (arm_count c + 1)) (target c)).

#[export] Instance soft_control : DetectorControl SoftDetectorControl := {|
  ctl_prepare := soft_prepare;
  ctl_arm := soft_arm;
  ctl_wait_for_idle c := (Ok (), c);
  ctl_disarm c := (Ok (), c);
|}.

(** Its counter is the control's [arm_count]. *)
Record SoftDetectorWriter := mkSoftWriter { w_mimetype : string; w_uri : string; w_emitter : Emitter }.
Definition new_soft_writer : SoftDetectorWriter :=
  mkSoftWriter "application/x-bsrs-soft-frames" "memory://soft-frames" new_emitter.
Definition soft_key (name : string) : DataKey :=
  mkDataKey ("soft://" +:+ name +:+ "/image") DNumber [Some 1%Z] (Some (NpScalar "<f4")) (Some "STREAM:") None None None
    (Some ["pixel"]) None None.
Definition soft_open (name : string) (io : ()) (w : SoftDetectorWriter) : Result (gmap string DataKey) BsrsError * SoftDetectorWriter :=
  (Ok {[ name := soft_key name ]}, mkSoftWriter (w_mimetype w) (w_uri w) (set_data_key name (w_emitter w))).
Definition soft_docs (up_to : Z) (descriptor : string) (x : SoftDetectorWriter * nat) : list Document * (SoftDetectorWriter * nat) :=
  let w := x.1 in
  let '(docs, (e, uids)) := collect_stream_docs store_later (mkLabel (w_mimetype w) (w_uri w) ∅) up_to descriptor (w_emitter w, x.2) in
  (docs, (mkSoftWriter (w_mimetype w) (w_uri w) e, uids)).

(** No frame comes to it: it counts what its control armed. *)
#[export] Instance soft_sink : FrameSink SoftDetectorWriter :=
  {| sink_io := Empty_set; accept _ io _ := match io with end |}.
#[export] Instance soft_writer : DetectorWriter SoftDetectorControl SoftDetectorWriter := {|
  dw_io := ();
  dw_open name _ := soft_open name;
  dw_close w := (Ok (), w);
  dw_indices c _ := arm_count c;
  dw_docs := soft_docs;
  dw_hints _ := [];
|}.
End frames.

(** ** A detector over a control and a writer *)

Section rig.
Context `{JsonNumber, !UuidSource} {c w : Type} `{!DetectorControl c, !Fed w, !DetectorWriter c w}.

(** While the detector waits for an index, something comes and the index is updated, or the
    wait runs out. *)
Inductive Meanwhile := Updates (l : list event) | Silence.
Record Rig := mkRig {
  control : c;
  writer : w;
  uids : nat;
  openings : list (dw_io (c := c) (w := w));
  opening : dw_io (c := c) (w := w);
  world : list Meanwhile;
}.
Implicit Types (r : Rig).
Definition set_control x r : Rig := mkRig x (writer r) (uids r) (openings r) (opening r) (world r).
Definition set_writer x r : Rig := mkRig (control r) x (uids r) (openings r) (opening r) (world r).
Definition set_world x r : Rig := mkRig (control r) (writer r) (uids r) (openings r) (opening r) x.

Definition on_control {A} (f : c → A * c) r : A * Rig := let '(a, x) := f (control r) in (a, set_control x r).
Definition on_writer {A} (f : w → A * w) r : A * Rig := let '(a, x) := f (writer r) in (a, set_writer x r).
Definition rig_open (name : string) (per_event : Z) r : Result (gmap string DataKey) BsrsError * Rig :=
  match openings r with
  | [] => on_writer (dw_open name per_event (opening r)) r
  | io :: l => on_writer (dw_open name per_event io) (mkRig (control r) (writer r) (uids r) l (opening r) (world r))
  end.
Definition rig_change r : Change * Rig :=
  match world r with
  | Updates l :: rest => (Changed, set_world rest (set_writer (foldl fed (writer r) l) r))
  | Silence :: rest => (TimedOut, set_world rest r)
  | [] => (TimedOut, r)
  end.
Definition rig_docs (up_to : Z) (descriptor : string) r : list Document * Rig :=
  let '(docs, (x, n)) := dw_docs (c := c) up_to descriptor (writer r, uids r) in
  (docs, mkRig (control r) x n (openings r) (opening r) (world r)).

(** One writer, which has no suffix; no single data logic. *)
#[export] Instance rig_hardware : Hardware Rig := {|
  control_prepare i := on_control (ctl_prepare i);
  control_arm := on_control ctl_arm;
  control_wait_for_idle := on_control ctl_wait_for_idle;
  control_disarm := on_control ctl_disarm;
  control_read_configuration _ r := (Ok ∅, r);
  control_describe_configuration _ r := (Ok ∅, r);
  writer_open _ := rig_open;
  writer_close _ := on_writer (dw_close (c := c));
  indices_written _ r := dw_indices (control r) (writer r);
  next_change _ _ := rig_change;
  writer_docs _ := rig_docs;
  writer_suffix _ := "";
  writer_hints _ := dw_hints (c := c) (w := w);
  prepare_single _ _ r := (Ok (), r);
  single_describe _ r := (Ok ∅, r);
  single_read _ r := (Ok ∅, r);
  single_stop _ r := (Ok (), r);
  single_suffix _ := "";
  single_hints _ _ := [];
|}.

(** [StandardDetector::new]. *)
Definition detector_over (name : string) r : StandardDetector Rig := new_detector name [Unbounded 0] r.
End rig.
Arguments Rig {_} c w {_ _}. Arguments Meanwhile w {_}.

Section soft.
Context `{JsonNumber, !UuidSource}.
Definition soft_rig (world : list (Meanwhile SoftDetectorWriter)) : Rig SoftDetectorControl SoftDetectorWriter :=
  mkRig (new_soft_control 0) new_soft_writer 0 [] () world.
Definition soft_detector (name : string) world : StandardDetector (Rig SoftDetectorControl SoftDetectorWriter) :=
  detector_over name (soft_rig world).

(** ** The soft counter that is read ([SoftDetector]) *)

Record SoftDetector := mkSoftDetector { sd_name : string; counts : Z; monitor : Fanout ReadingValue }.
Implicit Types (s : SoftDetector).
Definition reading (now : f64) s : ReadingValue := mkReading (json_Z (counts s)) now None None.
Definition publish (now : f64) s : ReadingValue * SoftDetector :=
  let v := reading now s in (v, mkSoftDetector (sd_name s) (counts s) (post v (monitor s)).2).
Definition new_soft_detector (name : string) (now : f64) : SoftDetector :=
  (publish now (mkSoftDetector name 0 new_fanout)).2.
Definition tick (now : f64) s : ReadingValue * SoftDetector :=
  publish now (mkSoftDetector (sd_name s) (wrap64 (counts s + 1)) (monitor s)).
Definition counts_key s : string := sd_name s +:+ "_counts".
Definition sd_read (now : f64) s : gmap string ReadingValue * SoftDetector :=
  let '(v, s) := tick now s in ({[ counts_key s := v ]}, s).
Definition sd_describe s : gmap string DataKey :=
  {[ counts_key s := mkDataKey ("soft://" +:+ sd_name s +:+ "/counts") DInteger [] (Some (NpScalar "<i8")) None
       (Some "counts") None (Some (sd_name s)) None None None ]}.
Definition sd_hint_fields s : option (list string) := Some [counts_key s].
(** The queue of the subscription, by its number. *)
Definition sd_subscribe s : nat * SoftDetector :=
  let '(rx, f) := listen (monitor s) in (rx, mkSoftDetector (sd_name s) (counts s) f).
End soft.

(** ** The pipe *)

(** [CountingSink]. *)
Definition CountingSink : Type := Z.
#[export] Instance counting_sink `{JsonNumber} : FrameSink CountingSink :=
  {| sink_io := (); accept _ _ n := (Ok (), wrap64 (n + 1)) |}.

Section pipe.
Context `{JsonNumber} {w : Type} `{!FrameSink w}.

Record FramePipe := mkPipe { primary : w; secondaries : list w; overflow : Z; cancelled : bool }.
Record FramePipeBuilder := mkBuilder { to_primary : option w; to_secondaries : list w }.
Definition builder : FramePipeBuilder := mkBuilder None [].
Definition with_primary (x : w) (b : FramePipeBuilder) : FramePipeBuilder := mkBuilder (Some x) (to_secondaries b).
Definition with_secondary (x : w) (b : FramePipeBuilder) : FramePipeBuilder := mkBuilder (to_primary b) (to_secondaries b ++ [x]).
Definition start (b : FramePipeBuilder) : Result FramePipe BsrsError :=
  match to_primary b with
  | Some p => Ok (mkPipe p (to_secondaries b) 0 false)
  | None => Err (StateE "missing primary sink")
  end.
Definition cancel (p : FramePipe) : FramePipe := mkPipe (primary p) (secondaries p) (overflow p) true.

(** Every secondary in turn, a failure counted; [io]: what the system answers each. *)
Fixpoint send_all (f : Frame) (io : nat → sink_io) (l : list w) (n : Z) : list w * Z :=
  match l with
  | [] => ([], n)
  | x :: l =>
      let '(r, x) := accept f (io 0) x in
      let '(l, n) := send_all f (io ∘ S) l (match r with Ok _ => n | Err _ => wrap64 (n + 1) end) in
      (x :: l, n)
  end.
Definition send (f : Frame) (first : sink_io) (io : nat → sink_io) (p : FramePipe) : FramePipe :=
  let '(l, n) := send_all f io (secondaries p) (overflow p) in
  mkPipe (accept f first (primary p)).2 l n (cancelled p).
End pipe.
Arguments FramePipe w : clear implicits. Arguments FramePipeBuilder w : clear implicits.

(** ** A source of given frames ([VecFrameSource]) *)

Record VecFrameSource := mkVecSource { source_frames : list Frame; next_seq : Z }.
Definition new_vec_source (now : nat → Z) (payloads : list (list byte)) : VecFrameSource :=
  mkVecSource (imap (λ i t, mkFrame t (now i) 0 0 (wrap64 (Z.of_nat i))) payloads) (wrap64 (Z.of_nat (length payloads))).
Definition take_frames (s : VecFrameSource) : list Frame * VecFrameSource := (source_frames s, mkVecSource [] (next_seq s)).

(** * What the documents say *)

Section emission.
Context `{JsonNumber, !UuidSource}.
Implicit Types (e : Emitter) (docs : list Document).

(** The collections of a stream, one after another. *)
Fixpoint collects (keep : Z → Z → Z) (l : Label) (ups : list (Z * string)) (x : Emitter * nat) : list Document * (Emitter * nat) :=
  match ups with
  | [] => ([], x)
  | (up_to, descriptor) :: ups =>
      let '(docs, x) := collect_stream_docs keep l up_to descriptor x in
      let '(docs', x) := collects keep l ups x in (docs ++ docs', x)
  end.

Definition datum (d : Document) : option StreamDatum := match d with DocStreamDatum d => Some d | _ => None end.
Definition resource (d : Document) : option StreamResource := match d with DocStreamResource r => Some r | _ => None end.

(** Ranges that are not empty and follow each other. *)
Fixpoint tiles (a : Z) (l : list StreamRange) (b : Z) : Prop :=
  match l with
  | [] => a = b
  | r :: l => r_start r = a ∧ (a < r_stop r)%Z ∧ tiles (r_stop r) l b
  end.
Lemma tiles_app a l l' b c : tiles a l b → tiles b l' c → tiles a (l ++ l') c.
Proof. revert a. induction l as [|r l IH]; simpl; [by intros a ->|]. intros a (-> & Hr & Hl) Hl'. eauto. Qed.

Definition announcement (l : Label) (key : string) e (n : nat) : list Document :=
  match resource_uid e with None => [DocStreamResource (resource_of l key (uuid_v4 n))] | Some _ => [] end.
Definition named_resource e (n : nat) : string := default (uuid_v4 n) (resource_uid e).
Definition drawn e (n : nat) : nat := match resource_uid e with None => S n | Some _ => n end.

Lemma collect_spec keep l up_to descriptor e n key :
  data_key e = Some key →
  collect_stream_docs keep l up_to descriptor (e, n) =
    (announcement l key e n ++
       (if (last_emitted e <? up_to)%Z
        then [DocStreamDatum (datum_of (uuid_v4 (drawn e n)) (named_resource e n) descriptor (last_emitted e) up_to)] else []),
     (mkEmitter (Some key) (Some (named_resource e n)) (keep (last_emitted e) up_to),
      if (last_emitted e <? up_to)%Z then S (drawn e n) else drawn e n)).
Proof.
  intros Hk. unfold collect_stream_docs, announcement, named_resource, drawn. rewrite Hk.
  destruct (resource_uid e); simpl; by case_match.
Qed.

(** The indices a writer keeps follow what it was asked for: it keeps the later one, or is
    never asked for less. *)
Definition keeps_later (keep : Z → Z → Z) (last : Z) (ups : list (Z * string)) : Prop :=
  keep = store_later ∨ keep = swap_last ∧ Sorted Z.le (last :: ups.*1).
Lemma keeps_later_step keep last up_to descriptor ups :
  keeps_later keep last ((up_to, descriptor) :: ups) →
  keep last up_to = Z.max last up_to ∧ keeps_later keep (keep last up_to) ups.
Proof.
  unfold keeps_later, store_later, swap_last. intros [->|[-> Hs]].
  - split; [case_match; lia|by left].
  - apply Sorted_inv in Hs as [Hs Hle]. apply HdRel_inv in Hle. simpl in *. split; [lia|]. right. done.
Qed.

(** The datums of a stream: one resource, whose ranges tile what was asked for. *)
Lemma collects_tile keep l ups : ∀ e n key u, data_key e = Some key → resource_uid e = Some u →
  keeps_later keep (last_emitted e) ups →
  let '(docs, (e', _)) := collects keep l ups (e, n) in
  omap resource docs = [] ∧ data_key e' = Some key ∧ resource_uid e' = Some u
  ∧ Forall (λ d, sd_stream_resource d = u) (omap datum docs)
  ∧ tiles (last_emitted e) (sd_indices <$> omap datum docs) (last_emitted e')
  ∧ last_emitted e' = foldl Z.max (last_emitted e) ups.*1.
Proof.
  induction ups as [|[up_to descriptor] ups IH]; intros e n key u Hk Hu Hkeep; cbn [collects].
  { by split_and!. }
  apply keeps_later_step in Hkeep as [Hlast Hkeep].
  rewrite (collect_spec _ _ _ _ _ _ key Hk). unfold announcement, named_resource. rewrite Hu. simpl app. cbn [from_option default].
  match goal with |- context [collects keep l ups (?e1, ?n1)] => set (e1' := e1); specialize (IH e1' n1 key u eq_refl eq_refl Hkeep) end.
  destruct (collects keep l ups _) as [docs [e' n']] eqn:Hc. destruct IH as (H1 & H2 & H3 & H4 & H5 & H6).
  rewrite !omap_app, fmap_app. simpl in H5, H6. rewrite Hlast in H5, H6.
  assert (∀ x, (if (last_emitted e <? up_to)%Z then x else []) = x ∨ (up_to ≤ last_emitted e)%Z
               ∧ (if (last_emitted e <? up_to)%Z then x else @nil Document) = []) as Hif.
  { intros x. destruct (Z.ltb_spec (last_emitted e) up_to); [by left|right; by split; [lia|]]. }
  split_and!; try done.
  - rewrite H1. by case_match.
  - apply Forall_app. split; [|done]. case_match; [|constructor]. by repeat constructor.
  - eapply tiles_app; [|exact H5]. destruct (Z.ltb_spec (last_emitted e) up_to); simpl; lia.
Qed.

(** Documents a writer gives from a registry of resources that does not hold its own: the
    drain of a later run. *)
Lemma stale_datum_refused `{!TextFormat} keep l up_to descriptor e n key u run_start next_seq ext reg :
  data_key e = Some key → resource_uid e = Some u → (last_emitted e < up_to)%Z → reg !! u = None →
  pack_external_assets (collect_stream_docs keep l up_to descriptor (e, n)).1 run_start next_seq ext reg =
    (Err (PlanE ("Received a `stream_datum` referring to an unknown stream resource " +:+ u)), reg).
Proof.
  intros Hk Hu Hlt Hreg. rewrite (collect_spec _ _ _ _ _ _ key Hk).
  unfold announcement, named_resource. rewrite Hu. apply Z.ltb_lt in Hlt. rewrite Hlt. cbn.
  unfold pack_external_assets, pack_docs, pack_doc, pack_datum. cbn. by rewrite Hreg.
Qed.

(** C38: What a writer announces of a stream from its opening and its first collection on: its
    resource once and first, then datums that name this resource and whose ranges are not
    empty, follow one another and reach the latest index that was asked for. For the writers
    that keep the later index in whatever order the indices come; for the HDF5 sink, which
    keeps the last one, when they never decrease. *)
Theorem stream_datums_tile keep l key n last ups docs e' n' :
  ups ≠ [] → keeps_later keep last ups →
  collects keep l ups (mkEmitter (Some key) None last, n) = (docs, (e', n')) →
  ∃ rest, docs = DocStreamResource (resource_of l key (uuid_v4 n)) :: rest ∧ omap resource rest = []
    ∧ Forall (λ d, sd_stream_resource d = uuid_v4 n) (omap datum rest)
    ∧ tiles last (sd_indices <$> omap datum rest) (last_emitted e')
    ∧ last_emitted e' = foldl Z.max last ups.*1.
Proof.
  destruct ups as [|[up_to descriptor] ups]; [done|]. intros _ Hkeep. cbn [collects].
  apply keeps_later_step in Hkeep as [Hlast Hkeep].
  rewrite (collect_spec keep l up_to descriptor (mkEmitter (Some key) None last) n key eq_refl). unfold announcement, named_resource. cbn [resource_uid default from_option].
  match goal with |- context [collects keep l ups (?e1, ?n1)] =>
    pose proof (collects_tile keep l ups e1 n1 key (uuid_v4 n) eq_refl eq_refl Hkeep) as IH end.
  destruct (collects keep l ups _) as [docs1 [e1 n1]]. destruct IH as (H1 & _ & _ & H4 & H5 & H6).
  intros [= <- <- <-]. cbn [app last_emitted fmap list_fmap foldl] in *. rewrite Hlast in H5, H6.
  eexists. split; [reflexivity|]. rewrite !omap_app, fmap_app. split_and!; [|apply Forall_app; split; [|done]| |done].
  - rewrite H1. by case_match.
  - case_match; repeat constructor.
  - eapply tiles_app; [|exact H5]. destruct (Z.ltb_spec last up_to); simpl; lia.
Qed.

(** A writer announces its resource once in its life and a run knows the resources that
    were announced to it: the first frames of a stream in a later run are refused and its
    collection fails. *)
Theorem later_run_is_refused `{!TextFormat} keep l up_to descriptor e n key u stream next (b : RunBundler) :
  data_key e = Some key → resource_uid e = Some u → (last_emitted e < up_to)%Z →
  stream_resource_data_keys b = ∅ → Compose.peek_next_seq stream (bundle b) = Some next →
  (drain_assets stream (collect_stream_docs keep l up_to descriptor (e, n)).1 b).1 =
    Err (PlanE ("Received a `stream_datum` referring to an unknown stream resource " +:+ u)).
Proof.
  intros Hk Hu Hlt Hb Hn. unfold drain_assets. rewrite Hn.
  erewrite (stale_datum_refused keep l up_to descriptor e n key u); try done. by rewrite Hb.
Qed.
End emission.

(** * The file of frames *)

Section files.
Context `{JsonNumber, !UuidSource}.
Implicit Types (b : BinaryFrameSink) (t : list byte).

(** The frames of a file: the magic, then each length and its bytes. *)
Fixpoint decode_frames (fuel : nat) t : option (list (list byte)) :=
  match t, fuel with
  | [], _ => Some []
  | _, 0 => None
  | _, S fuel =>
      if length t <? 4 then None
      else
        let n := Z.to_nat (LittleEndianList.le_combine (take 4 t)) in
        let t := drop 4 t in
        if length t <? n then None else cons (take n t) <$> decode_frames fuel (drop n t)
  end.
Definition decode t : option (list (list byte)) :=
  if decide (take 8 t = MAGIC) then decode_frames (length t) (drop 8 t) else None.

Definition encoded (p : list byte) : list byte := to_le_bytes (Z.of_nat (length p)) ++ p.
Definition fits (p : list byte) : bool := (Z.of_nat (length p) <=? 4294967295)%Z.

Lemma to_le_bytes_length n : length (to_le_bytes n) = 4.
Proof. apply LittleEndianList.length_le_split. Qed.
Lemma decode_frames_encoded l : ∀ fuel, Forall (λ p, fits p = true) l →
  length (concat (encoded <$> l)) ≤ fuel → decode_frames fuel (concat (encoded <$> l)) = Some l.
Proof.
  induction l as [|p l IH]; intros fuel Hl Hf; [by destruct fuel|].
  apply Forall_cons in Hl as [Hp Hl]. unfold fits in Hp. apply Z.leb_le in Hp.
  cbn [fmap list_fmap concat] in *. set (rest := concat (encoded <$> l)) in *.
  unfold encoded in *. rewrite <-!app_assoc in *. rewrite !length_app, to_le_bytes_length in Hf.
  destruct fuel as [|fuel]; [lia|].
  assert (take 4 (to_le_bytes (Z.of_nat (length p)) ++ p ++ rest) = to_le_bytes (Z.of_nat (length p))) as Ht.
  { rewrite take_app_le by (rewrite to_le_bytes_length; lia). apply take_ge. rewrite to_le_bytes_length. lia. }
  assert (drop 4 (to_le_bytes (Z.of_nat (length p)) ++ p ++ rest) = p ++ rest) as Hd.
  { rewrite drop_app_ge by (rewrite to_le_bytes_length; lia). by rewrite to_le_bytes_length. }
  assert (∀ t, length t = 4 → decode_frames (S fuel) (t ++ p ++ rest) =
    (if length (t ++ p ++ rest) <? 4 then None
     else let n := Z.to_nat (LittleEndianList.le_combine (take 4 (t ++ p ++ rest))) in
          let t := drop 4 (t ++ p ++ rest) in
          if length t <? n then None else cons (take n t) <$> decode_frames fuel (drop n t))) as ->.
  { intros t Htl. by destruct t. }
  2: apply to_le_bytes_length.
  rewrite Ht, Hd. destruct (Nat.ltb_spec (length (to_le_bytes (Z.of_nat (length p)) ++ p ++ rest)) 4) as [Hlt|_].
  { rewrite length_app, to_le_bytes_length in Hlt. lia. }
  unfold to_le_bytes. rewrite LittleEndianList.le_combine_split. cbv zeta.
  rewrite Z.mod_small by (simpl; lia). rewrite Nat2Z.id.
  destruct (Nat.ltb_spec (length (p ++ rest)) (length p)) as [Hlt|_]; [rewrite length_app in Hlt; lia|].
  rewrite take_app_length, drop_app_length. by rewrite IH by (done || lia).
Qed.

Lemma binary_accept_open b f t :
  f_open b = true → f_disk b = Some t →
  binary_accept f no_failure b =
    if fits (payload f)
    then (Ok (), mkBinary (b_path b) (b_payload_size b) true (Some (t ++ encoded (payload f))) (wrap64 (b_counter b + 1)) (b_emitter b))
    else (Err (too_large (length (payload f))), b).
Proof.
  intros Ho Hd. unfold binary_accept, ensure_open, len_u32, fits. rewrite Ho. destruct (_ <=? _)%Z; [|done].
  unfold write_all, no_failure, set_file, count_frame. cbn. rewrite Ho, Hd. cbn. unfold encoded. by rewrite <-app_assoc.
Qed.

(** The frames a file was given, with what each call answered. *)
Fixpoint accepts (fs : list Frame) b : list (Result unit BsrsError) * BinaryFrameSink :=
  match fs with
  | [] => ([], b)
  | f :: fs => let '(r, b) := binary_accept f no_failure b in
               let '(rs, b) := accepts fs b in (r :: rs, b)
  end.
Definition kept (fs : list Frame) : list (list byte) := List.filter fits (payload <$> fs).
Definition answer (f : Frame) : Result unit BsrsError :=
  if fits (payload f) then Ok () else Err (too_large (length (payload f))).

Lemma accepts_spec fs : ∀ b t, f_open b = true → f_disk b = Some t →
  let '(rs, b') := accepts fs b in
  rs = answer <$> fs ∧ f_open b' = true ∧ f_disk b' = Some (t ++ concat (encoded <$> kept fs))
  ∧ b_counter b' = foldl (λ n _, wrap64 (n + 1)) (b_counter b) (kept fs) ∧ b_emitter b' = b_emitter b ∧ b_path b' = b_path b.
Proof.
  induction fs as [|f fs IH]; intros b t Ho Hd; cbn [accepts].
  { unfold kept. cbn. rewrite app_nil_r. by split_and!. }
  rewrite (binary_accept_open b f t Ho Hd). unfold kept, answer in *. cbn [fmap list_fmap List.filter].
  destruct (fits (payload f)) eqn:Hf.
  - match goal with |- context [accepts fs ?b1] => specialize (IH b1 _ eq_refl eq_refl) end.
    destruct (accepts fs _) as [rs b']. destruct IH as (-> & H2 & H3 & H4 & H5 & H6). cbn in *.
    rewrite H3, app_assoc. by split_and!.
  - specialize (IH b t Ho Hd). destruct (accepts fs b) as [rs b'].
    destruct IH as (-> & IH). by split_and!; [|apply IH..].
Qed.

Lemma count_wraps {A} (l : list A) n : in_u64 n → foldl (λ n _, wrap64 (n + 1)) n l = wrap64 (n + Z.of_nat (length l)).
Proof.
  revert n. induction l as [|x l IH]; intros n Hn; cbn [foldl length].
  - rewrite Z.add_0_r. by rewrite wrap64_small.
  - rewrite IH by apply wrap64_range.
    unfold wrap64. rewrite Zplus_mod_idemp_l. f_equal. lia.
Qed.

End files.

(** * A sink that was closed *)

Section closed.
Context `{JsonNumber, !UuidSource}.
Implicit Types (h : Hdf5FrameSink).

Lemma closed_sink_takes_no_frame h f io :
  tx h = false → hdf5_accept f io h = (Err (Backend "hdf5 worker shut down"), h).
Proof. intros Ht. unfold hdf5_accept, hdf5_ensure_open, send_cmd. destruct (was_opened h); by rewrite ?Ht. Qed.

Context {c : Type} `{!DetectorControl c}.
Variable error_text : BsrsError → string.
Implicit Types (d : StandardDetector (Rig c Hdf5FrameSink)).

Lemma closed_never_opens name per_event (r : Rig c Hdf5FrameSink) :
  tx (writer r) = false → was_opened (writer r) = false →
  ∃ r', rig_open name per_event r = (Err (Backend "hdf5 worker shut down"), r').
Proof.
  intros Ht Ho. destruct r as [ct h n ios io wd]. cbn in Ht, Ho. unfold rig_open. cbn.
  destruct ios as [|io' ios]; cbn; unfold on_writer; cbn; unfold hdf5_open, hdf5_ensure_open, send_cmd;
    rewrite Ht, Ho; cbn; by eexists.
Qed.

(** Staging a detector closes its writers, and an HDF5 sink that is closed before its
    file was opened never opens it: after a stage every prepare fails. *)
Theorem staged_hdf5_detector_is_never_prepared info d d1 :
  data_logics d = [Unbounded 0] → was_opened (writer (hardware d)) = false →
  stage d = (Ready (Ok ()), d1) →
  ∃ e d2, prepare error_text info d1 = (Some (Err e), d2) ∧ prepared d2 = None.
Proof.
  intros Hl Ho Hs.
  assert (data_logics d1 = [Unbounded 0] ∧ prepared d1 = None
    ∧ tx (writer (hardware d1)) = false ∧ was_opened (writer (hardware d1)) = false) as (Hl1 & Hp1 & Ht1 & Ho1).
  { destruct d as [nm ls p k ev [ct h n ios io wd] op]. cbn in Hl, Ho. subst ls. revert Hs.
    unfold stage, stop_data_logics, mbind, call_bind, ask_hw, put, get. cbn. unfold on_control. cbn.
    destruct (ctl_disarm ct) as [[?|?] ?]; cbn; [|done]. by intros [= <-]. }
  clear Hs Hl Ho. destruct d1 as [nm ls p k ev [ct h n ios io wd] op]. cbn in Hl1, Hp1, Ht1, Ho1. subst ls p.
  unfold prepare, status_of, prepare_for, mbind, call_bind, ask_hw. cbn. unfold on_control. cbn.
  destruct (ctl_prepare info _) as [[?|?] x]; cbn; [|by do 2 eexists].
  unfold update_prepare_context, prepare_data_logics, open_writer, ask_hw, put, get, mbind, call_bind, set_hardware, set_control. cbn. cbv beta iota zeta.
  unfold put, mbind, call_bind. cbn.
  match goal with |- context [rig_open ?nm ?pe ?r0] => edestruct (closed_never_opens nm pe r0) as [r' Hr]; [exact Ht1|exact Ho1|] end.
  rewrite Hr. cbn. by do 2 eexists.
Qed.
End closed.

(** * The soft detector *)

Section soft_shots.
Context `{JsonNumber, !UuidSource}.
Variable error_text : BsrsError → string.

Lemma bind_step `{!Hardware hw} {A B} (c : Call A) (f : A → Call B) (d : StandardDetector hw) a d1 :
  c d = (Ready (Ok a), d1) → (c ≫= f) d = f a d1.
Proof. unfold mbind, call_bind. by intros ->. Qed.
Lemma one_writer_written `{!Hardware hw} (d : StandardDetector hw) w :
  data_logics d = [Unbounded w] → collections_written d = (Ready (Ok (indices_written w (hardware d))), d).
Proof.
  intros Hl. assert (writers d = [w]) as Hw by by unfold writers; rewrite Hl.
  assert (agree d (indices_written w (hardware d))) as Ha.
  { intros w'. rewrite Hw. by intros ->%list_elem_of_singleton. }
  destruct (collections_written_spec d) as [(n & -> & Hn & _)|(_ & Hn)]; [|by destruct (Hn _ Ha)].
  by rewrite (Hn w) by (rewrite Hw; left).
Qed.

Definition SoftStandard : Type := StandardDetector (Rig SoftDetectorControl SoftDetectorWriter).
Implicit Types (d : SoftStandard).

(** A soft detector after [n] shots of a step scan: prepared for single shots or not at all,
    and its datums name the frames so far. *)
Definition emitter d : Emitter := w_emitter (writer (hardware d)).
Definition label d : Label := mkLabel (w_mimetype (writer (hardware d))) (w_uri (writer (hardware d))) ∅.
Definition single_shot (i : TriggerInfo) : Prop :=
  ti_trigger i = Internal ∧ number_of_events i = 1%Z ∧ collections_per_event i = 1%Z.
Record Shots (n : Z) d : Prop := {
  so_logics : data_logics d = [Unbounded 0];
  so_prepared : ∀ p, prepared d = Some p → single_shot (trigger_info p) ∧ data_key (emitter d) = Some (d_name d +:+ "");
  so_armed : arm_count (control (hardware d)) = n;
  so_last : last_emitted (emitter d) = n;
}.

(** One point of a step scan: the trigger, then the drain of what it wrote. *)
Definition shot (fuel : nat) (descriptor : string) d :
    option (Result unit StatusError) * Polled (list Document) * SoftStandard :=
  let '(s, d) := trigger error_text fuel d in
  let '(docs, d) := drain_asset_documents descriptor d in (s, docs, d).

Lemma soft_prepares d : data_logics d = [Unbounded 0] → prepared d = None →
  ∃ keys, prepare_for trigger_info_default d =
    (let h := hardware d in
     let w := writer h in
     let c := control h in
     let e := w_emitter w in
     let p := mkPrepare trigger_info_default (arm_count c) keys [] in
     (Ready (Ok p), mkDetector (d_name d) [Unbounded 0] (Some p) (kicked_off d) 1
        (mkRig (mkSoftControl (c_deadtime c) (arm_count c) 1)
           (mkSoftWriter (w_mimetype w) (w_uri w) (set_data_key (d_name d +:+ "") e)) (uids h) (tail (openings h)) (opening h) (world h))
        (opened d ++ [0]))).
Proof.
  destruct d as [nm ls p k ev [[dt ac tg] [mt ur e] n ios io wd] op]. cbn. intros -> ->.
  eexists. destruct ios; reflexivity.
Qed.

Definition armed d : SoftStandard :=
  let c := control (hardware d) in
  set_hardware (set_control (mkSoftControl (c_deadtime c) (arm_count c + 1) (target c)) (hardware d)) d.
Lemma soft_arms fuel n timeout d :
  data_logics d = [Unbounded 0] → arm_count (control (hardware d)) = n → (0 ≤ n < u64_max)%Z →
  (arm_done;; wait_for_index fuel n 1 timeout true) d = (Ready (Ok ()), armed d).
Proof.
  destruct d as [nm ls p k ev [[dt ac tg] [mt ur e] u ios io wd] op]. cbn. intros -> -> Hn.
  assert (wrap64 (n + 1) = n + 1)%Z as Hw by (apply wrap64_small; unfold in_u64; lia).
  set (d := mkDetector nm [Unbounded 0] p k ev _ op).
  rewrite (bind_step _ _ _ () (armed d)) by (unfold arm_done, armed; cbn; by rewrite Hw).
  unfold wait_for_index. rewrite Hw.
  rewrite (bind_step _ _ _ () (armed d)); [reflexivity|].
  destruct fuel; cbn [wait_loop]; rewrite bind_get; cbn; by rewrite Z.leb_refl.
Qed.

Lemma soft_context n d : Shots n d → prepared d ≠ None →
  ∃ p, prepared d = Some p ∧ single_shot (trigger_info p)
    ∧ update_prepare_context (trigger_info p) d =
        let ctx := mkPrepare (trigger_info p) n (data_keys p) (singles p) in (Ready (Ok ctx), set_prepared (Some ctx) d).
Proof.
  intros [Hl Hp Ha _] Hs. destruct (prepared d) as [p|] eqn:Hpd; [|done]. clear Hs.
  exists p. destruct (Hp p eq_refl) as [Hsingle _]. split_and!; [done..|].
  destruct d as [nm ls ? k ev [[dt ac tg] [mt ur e] u ios io wd] op]. cbn in Hl, Ha, Hpd. subst.
  unfold update_prepare_context. rewrite bind_get, bind_put. cbn [prepared]. rewrite Z.eqb_refl. reflexivity.
Qed.

Lemma soft_trigger fuel n d : Shots n d → (0 ≤ n < u64_max)%Z →
  ∃ d' p, trigger error_text fuel d = (Some (Ok ()), d') ∧ data_logics d' = [Unbounded 0] ∧ prepared d' = Some p
    ∧ single_shot (trigger_info p) ∧ arm_count (control (hardware d')) = (n + 1)%Z
    ∧ d_name d' = d_name d ∧ label d' = label d ∧ uids (hardware d') = uids (hardware d)
    ∧ emitter d' = mkEmitter (Some (d_name d +:+ "")) (resource_uid (emitter d)) n.
Proof.
  intros Hs Hn. destruct (prepared d) as [p|] eqn:Hp.
  - destruct (soft_context n d Hs ltac:(congruence)) as (p' & Hp' & Hsingle & Hc). simplify_eq/=.
    eexists _, _. split.
    { unfold trigger, status_of, trigger_one. rewrite bind_get, Hp. destruct Hsingle as (_ & Hne & Hpe). rewrite Hne. cbn [Z.eqb negb Pos.eqb].
      erewrite bind_step; [|exact Hc]. cbn [pc_collections_written trigger_info]. rewrite Hpe.
      rewrite (soft_arms fuel n); [reflexivity|apply Hs|apply Hs|done]. }
    destruct Hs as [Hl Hkey Ha Hlast]. cbn. rewrite Ha. destruct (Hkey p Hp) as [_ Hk]. split_and!; try done.
    unfold emitter in *. cbn. rewrite <-Hk, <-Hlast. by destruct (w_emitter _).
  - destruct Hs as [Hl _ Ha Hlast]. destruct (soft_prepares d Hl Hp) as [keys Hc].
    eexists _, _. split.
    { unfold trigger, status_of, trigger_one. rewrite bind_get, Hp.
      erewrite bind_step; [|exact Hc]. cbn [pc_collections_written trigger_info]. rewrite Ha.
      rewrite (soft_arms fuel n); [reflexivity|done..]. }
    cbn. split_and!; try done. unfold emitter in *. cbn. unfold set_data_key. by rewrite Hlast.
Qed.

Lemma soft_drain descriptor n d p :
  data_logics d = [Unbounded 0] → prepared d = Some p → single_shot (trigger_info p) →
  arm_count (control (hardware d)) = (n + 1)%Z → emitter d = mkEmitter (Some (d_name d +:+ "")) (resource_uid (emitter d)) n →
  ∃ d', drain_asset_documents descriptor d =
      (Ready (Ok (announcement (label d) (d_name d +:+ "") (emitter d) (uids (hardware d)) ++
         [DocStreamDatum (datum_of (uuid_v4 (drawn (emitter d) (uids (hardware d))))
            (named_resource (emitter d) (uids (hardware d))) descriptor n (n + 1))])), d')
    ∧ Shots (n + 1) d' ∧ d_name d' = d_name d ∧ label d' = label d
    ∧ emitter d' = mkEmitter (Some (d_name d +:+ "")) (Some (named_resource (emitter d) (uids (hardware d)))) (n + 1)
    ∧ uids (hardware d') = S (drawn (emitter d) (uids (hardware d))).
Proof.
  destruct d as [nm ls ? k ev [[dt ac tg] [mt ur e] u ios io wd] op].
  unfold emitter, label. cbn. intros -> -> Hs -> He.
  unfold drain_asset_documents, get_index. set (d := mkDetector nm _ _ _ _ _ _).
  rewrite (bind_step _ _ _ (n + 1)%Z d).
  2: { destruct Hs as (_ & _ & Hpe). unfold prepare_ctx, get, mbind, call_bind. cbn. rewrite Hpe. cbn. by rewrite Z.div_1_r. }
  unfold collect_asset_docs. rewrite (bind_step _ _ _ p d) by done.
  assert (last_emitted e = n) as Hlast by by rewrite He.
  pose proof (collect_spec store_later (mkLabel mt ur ∅) (n + 1) descriptor e u (nm +:+ "") ltac:(by rewrite He)) as Hc.
  unfold store_later in Hc. rewrite Hlast in Hc. destruct (Z.ltb_spec n (n + 1)) as [_|]; [|lia].
  unfold writers_docs. cbn -[collect_stream_docs]. unfold rig_docs. cbn -[collect_stream_docs].
  unfold soft_docs. cbn -[collect_stream_docs]. unfold store_later in *. rewrite Hc, app_nil_r.
  eexists. split; [reflexivity|]. cbn. split_and!; try done. constructor; try done. by intros ? [= <-].
Qed.

Fixpoint scan (fuel : nat) (descriptors : list string) d :
    list (option (Result unit StatusError) * Polled (list Document)) * SoftStandard :=
  match descriptors with
  | [] => ([], d)
  | x :: l => let '(s, docs, d) := shot fuel x d in let '(r, d) := scan fuel l d in ((s, docs) :: r, d)
  end.

Definition soft_label : Label := mkLabel "application/x-bsrs-soft-frames" "memory://soft-frames" ∅.
(** What the [i]-th point of a scan gives. *)
Definition point_docs (name : string) (i : nat) (descriptor : string) : list Document :=
  (if i =? 0 then [DocStreamResource (resource_of soft_label (name +:+ "") (uuid_v4 0))] else []) ++
  [DocStreamDatum (datum_of (uuid_v4 (S i)) (uuid_v4 0) descriptor (Z.of_nat i) (Z.of_nat (S i)))].

Record After (name : string) (i : nat) d : Prop := {
  af_shots : Shots (Z.of_nat i) d;
  af_name : d_name d = name;
  af_label : label d = soft_label;
  af_uids : uids (hardware d) = if i =? 0 then 0 else S i;
  af_resource : resource_uid (emitter d) = if i =? 0 then None else Some (uuid_v4 0);
}.

Lemma shot_spec fuel descriptor name i d :
  After name i d → (Z.of_nat i < u64_max)%Z →
  ∃ d', shot fuel descriptor d = (Some (Ok ()), Ready (Ok (point_docs name i descriptor)), d') ∧ After name (S i) d'.
Proof.
  intros [Hs Hname Hlabel Hu Hr] Hi.
  destruct (soft_trigger fuel (Z.of_nat i) d Hs ltac:(lia)) as (d1 & p & Ht & Hl1 & Hp1 & Hsingle & Ha1 & Hn1 & Hlb1 & Hu1 & He1).
  destruct (soft_drain descriptor (Z.of_nat i) d1 p Hl1 Hp1 Hsingle Ha1) as (d2 & Hd & Hs2 & Hn2 & Hlb2 & He2 & Hu2).
  { rewrite He1, Hn1. done. }
  exists d2. unfold shot. rewrite Ht, Hd.
  assert (resource_uid (emitter d1) = if i =? 0 then None else Some (uuid_v4 0)) as Hr1 by by rewrite He1.
  unfold announcement, named_resource, drawn in *. rewrite Hr1, Hu1, Hu in *. rewrite Hn1, Hlb1, Hname, Hlabel in *.
  assert (Z.of_nat i + 1 = Z.of_nat (S i))%Z as Hsuc by lia. rewrite Hsuc in *.
  split; [unfold point_docs; by destruct i|]. split; try done; [by destruct i|]. rewrite He2. by destruct i.
Qed.

Lemma scan_spec fuel descriptors : ∀ name i d, After name i d → (Z.of_nat (i + length descriptors) ≤ u64_max)%Z →
  ∃ d', scan fuel descriptors d =
      (imap (λ j x, (Some (Ok ()), Ready (Ok (point_docs name (i + j) x)))) descriptors, d')
    ∧ After name (i + length descriptors) d'.
Proof.
  induction descriptors as [|x l IH]; intros name i d Ha Hi; cbn [scan length imap] in *.
  { exists d. by rewrite Nat.add_0_r. }
  destruct (shot_spec fuel x name i d Ha ltac:(lia)) as (d1 & -> & Ha1).
  destruct (IH name (S i) d1 Ha1 ltac:(lia)) as (d' & -> & Ha'). exists d'.
  rewrite Nat.add_0_r. split; [|by replace (i + S (length l)) with (S i + length l) by lia].
  do 2 f_equal. apply imap_ext. intros j y _. cbn [compose]. by rewrite Nat.add_succ_r.
Qed.

(** Every point of a step scan over a soft detector succeeds: its trigger is done with
    one frame more, and its drain announces this one frame, the first one after the
    resource; nothing the detector waits for keeps it. *)
Theorem soft_step_scan fuel name world descriptors :
  (Z.of_nat (length descriptors) ≤ u64_max)%Z →
  (scan fuel descriptors (soft_detector name world)).1 =
    imap (λ i x, (Some (Ok ()), Ready (Ok (point_docs name i x)))) descriptors.
Proof.
  intros Hn. destruct (scan_spec fuel descriptors name 0 (soft_detector name world)) as (d' & -> & _); [|done..].
  by split.
Qed.

Lemma wait_keeps_control fuel end_at timeout : ∀ d r d',
  wait_loop fuel end_at timeout d = (r, d') → control (hardware d') = control (hardware d) ∧ data_logics d' = data_logics d.
Proof.
  induction fuel as [|fuel IH]; intros d r d'; cbn [wait_loop]; rewrite bind_get;
    (destruct (min_list (all_written d)) as [m|]; [|by intros [= _ <-]]);
    (destruct (end_at <=? m)%Z; [by intros [= _ <-]|]); [by intros [= _ <-]|].
  intros Hw. assert (∃ ch rg, wait_change timeout d = (Ready (Ok ch), set_hardware rg d)
    ∧ control rg = control (hardware d)) as (ch & rg & Hc & Hrg).
  { unfold wait_change. cbn. unfold rig_change. destruct (world (hardware d)) as [|[l|] ws]; cbn; by do 2 eexists. }
  rewrite (bind_step _ _ _ ch (set_hardware rg d) Hc) in Hw. destruct ch.
  - apply IH in Hw as [-> ->]. done.
  - injection Hw as _ <-. done.
  - injection Hw as _ <-. done.
Qed.

(** A soft detector counts one frame an arm, whatever it was prepared for: when the
    kickoff of a fly scan asks for two frames or more its complete never succeeds, however
    long it waits and whatever else happens. *)
Theorem soft_fly_scan_never_completes fuel n d d1 d2 p :
  data_logics d = [Unbounded 0] → prepared d = Some p → arm_count (control (hardware d)) = n → (0 ≤ n)%Z →
  (2 ≤ events_to_kickoff d * collections_per_event (trigger_info p))%Z → in_u64 (requested_end d p n) →
  in_u64 (prepared_end p) →
  kickoff error_text d = (Some (Ok ()), d1) → ¬ complete error_text fuel d1 = (Some (Ok ()), d2).
Proof.
  intros Hl Hp Ha Hn Hr Hb Hpe Hk Hc.
  assert (∀ m, agree d m → m = n) as Hagree.
  { intros m Hm. specialize (Hm 0). unfold writers in Hm. rewrite Hl in Hm. rewrite <-(Hm ltac:(left)). done. }
  assert (kickoff_specified d) as Hs.
  { apply kickoff_ctx_spec. intros _ p' m Hp' Hm. rewrite Hp in Hp'. injection Hp' as <-. rewrite (Hagree m Hm).
    unfold sums_fit, in_u64, requested_end, prepared_end in *. lia. }
  unfold kickoff_specified in Hs. rewrite Hp in Hs.
  unfold kickoff in Hk. destruct (kickoff_ctx d) as [[[k|e]|] d0] eqn:Hkc; [|done|done].
  destruct Hs as [[_ Hs]|[(_ & _ & Hs)|(_ & m & Hm & Hs)]]; [done..|].
  destruct (_ <=? _)%Z in Hs; [|done]. injection Hs as -> ->.
  rewrite (Hagree m Hm) in *. clear m Hm Hagree. injection Hk as <-.
  set (d1 := set_hardware _ _) in Hc.
  assert (∃ d3, wait_loop fuel (wrap64 (requested_end d p n)) (effective_exposure_timeout (trigger_info p)) d1 = (Ready (Ok ()), d3))
    as (d3 & Hw3).
  { unfold complete in Hc. cbn [kicked_off set_hardware set_kicked_off d1] in Hc. unfold status_of in Hc.
    destruct (wait_for_index _ _ _ _ _ _) as [[[[]|e]|] d3] eqn:Hwi; [|done|done].
    apply bind_ok in Hwi as ([] & d4 & Hwl & _). exists d4. exact Hwl. }
  pose proof (wait_keeps_control _ _ _ _ _ _ Hw3) as [Hct Hl3]. apply wait_loop_ok in Hw3 as [_ Hall].
  assert (data_logics d1 = [Unbounded 0]) as Hl1 by done.
  specialize (Hall 0). unfold writers in Hall. rewrite Hl1 in Hall. specialize (Hall ltac:(left)).
  change (indices_written 0 (hardware d3)) with (arm_count (control (hardware d3))) in Hall.
  rewrite Hct in Hall. cbn in Hall. rewrite Ha in Hall.
  rewrite (wrap64_small (requested_end d p n)) in Hall by done.
  unfold requested_end, in_u64 in *. rewrite wrap64_small in Hall by (unfold in_u64; lia). lia.
Qed.
End soft_shots.

(** * The pipe *)

Section pipes.
Context `{JsonNumber} {w : Type} `{!FrameSink w}.

Definition failed (x : Result unit BsrsError) : bool := match x with Ok _ => false | Err _ => true end.
Lemma send_all_spec f : ∀ (l : list w) io n, in_u64 n →
  send_all f io l n = (imap (λ i x, (accept f (io i) x).2) l,
    wrap64 (n + Z.of_nat (length (List.filter failed (imap (λ i x, (accept f (io i) x).1) l))))).
Proof.
  induction l as [|x l IH]; intros io n Hn; cbn [send_all imap].
  { cbn. by rewrite Z.add_0_r, wrap64_small. }
  destruct (accept f (io 0) x) as [r x'] eqn:Ha. rewrite IH by (destruct r; auto using wrap64_range).
  cbn [fst snd]. f_equal. cbn [List.filter]. destruct r; cbn [failed]; [done|].
  cbn [length]. unfold wrap64. rewrite Zplus_mod_idemp_l. f_equal. rewrite Nat2Z.inj_succ, <-Z.add_1_l, Z.add_assoc. done.
Qed.

(** A frame reaches every sink of a pipe once, with its own answer, the primary as well when
    a secondary fails; the overflow counts the failures of the secondaries. *)
Theorem send_reaches_every_sink f first io (p : FramePipe w) :
  in_u64 (overflow p) →
  send f first io p =
    mkPipe (accept f first (primary p)).2 (imap (λ i x, (accept f (io i) x).2) (secondaries p))
      (wrap64 (overflow p + Z.of_nat (length (List.filter failed (imap (λ i x, (accept f (io i) x).1) (secondaries p))))))
      (cancelled p).
Proof. intros Hn. unfold send. by rewrite send_all_spec. Qed.
End pipes.

(** * Examples *)

Module FrameExample.
Import Sample.
Definition no_text (e : BsrsError) : string := "".
Definition frame (t : list byte) : Frame := mkFrame t 0 0 0 0.
Definition emitter_of (k : string) : Emitter := mkEmitter (Some k) None 0.

Lemma stream_datums_tile_witness :
  let x := collects store_later (mkLabel "m" "u" ∅) [(2, "d"); (1, "d"); (5, "e")]%Z (emitter_of "k", 0) in
  last_emitted x.2.1 = 5%Z ∧ ∃ rest, x.1 = DocStreamResource (resource_of (mkLabel "m" "u" ∅) "k" "u0") :: rest
    ∧ (sd_indices <$> omap datum rest) = [mkRange 0 2; mkRange 2 5].
Proof.
  destruct (stream_datums_tile store_later (mkLabel "m" "u" ∅) "k" 0 0 [(2, "d"); (1, "d"); (5, "e")]%Z
    (collects store_later (mkLabel "m" "u" ∅) [(2, "d"); (1, "d"); (5, "e")]%Z (emitter_of "k", 0)).1
    (collects store_later (mkLabel "m" "u" ∅) [(2, "d"); (1, "d"); (5, "e")]%Z (emitter_of "k", 0)).2.1
    (collects store_later (mkLabel "m" "u" ∅) [(2, "d"); (1, "d"); (5, "e")]%Z (emitter_of "k", 0)).2.2
    ltac:(done) ltac:(by left) ltac:(reflexivity)) as (rest & Hd & _ & _ & _ & Hl).
  split; [exact Hl|]. exists rest. split; [exact Hd|].
  injection Hd as Hd. rewrite <-Hd. reflexivity.
Defined.

(** The second run of a soft detector: the frame of its first point is refused. *)
Definition first_run : StandardDetector (Rig SoftDetectorControl SoftDetectorWriter) :=
  (scan no_text 0 ["d1"; "d1"] (soft_detector "cam" [])).2.
Definition soft_bundler : RunBundler :=
  (declare_stream "d" 0%Z "primary" [mkStreamObject (Some "cam") {["cam" := soft_key "cam"]} None configuration_default]
    (bundler_new (Compose.bundle_open Compose.ExC.start0))).2.
Lemma second_run_of_a_soft_detector :
  let second := shot no_text 0 "d2" first_run in
  second.1.1 = Some (Ok ())
  ∧ second.1.2 = Ready (Ok [DocStreamDatum (datum_of "u3" "u0" "d2" 2 3)])
  ∧ (drain_assets "primary" [DocStreamDatum (datum_of "u3" "u0" "d2" 2 3)] soft_bundler).1
    = Err (PlanE "Received a `stream_datum` referring to an unknown stream resource u0").
Proof. split_and!; reflexivity. Qed.

Lemma later_run_is_refused_witness :
  (drain_assets "primary" (collect_stream_docs store_later soft_label 3 "d2" (emitter first_run, 4)).1 soft_bundler).1
    = Err (PlanE "Received a `stream_datum` referring to an unknown stream resource u0").
Proof.
  apply (later_run_is_refused store_later soft_label 3 "d2" (emitter first_run) 4 "cam" "u0" "primary" 1 soft_bundler);
    try reflexivity.
Defined.

Definition frame_file : BinaryFrameSink := new_binary "/data/x.cir" 4.
Definition two_frames : list Frame := [frame [x00; x01]; frame [x02]].

(** A file that was closed is made anew by the next frame, which the index and the datums
    go on counting: the frames they name are not there. *)
Lemma reopened_file_loses_its_frames :
  let b1 := (accepts two_frames (binary_open "cam" no_failure frame_file).2).2 in
  let x := binary_docs 2 "d" (b1, 0) in
  let b2 := (accepts [frame [x03]] (binary_open "cam" no_failure (binary_close x.2.1).2).2).2 in
  let y := binary_docs 3 "d" (b2, x.2.2) in
  omap datum x.1 = [datum_of "u1" "u0" "d" 0 2] ∧ omap datum y.1 = [datum_of "u2" "u0" "d" 2 3]
  ∧ b_counter b2 = 3%Z ∧ f_disk b2 ≫= decode = Some [[x03]].
Proof. split_and!; reflexivity. Qed.

(** A write that fails in the middle of a frame leaves its bytes there: the index does not
    count it, and the frames after it cannot be read. *)
Lemma failed_write_misframes_the_file :
  let b1 := (binary_open "cam" no_failure frame_file).2 in
  let b2 := (binary_accept (frame [x00; x01; x02]) (mkBinaryIo true Whole Whole (Only 1) "disk full") b1).2 in
  let b3 := (accepts two_frames b2).2 in
  b_counter b3 = 2%Z ∧ f_disk b3 ≫= decode ≠ Some [[x00; x01]; [x02]]
  ∧ f_disk b3 ≫= decode ≠ Some [[x00; x01; x02]; [x00; x01]; [x02]].
Proof. split_and!; [reflexivity|vm_compute; discriminate..]. Qed.

Definition hdf5_detector : StandardDetector (Rig SoftDetectorControl Hdf5FrameSink) :=
  detector_over (w := Hdf5FrameSink) "cam" (mkRig (new_soft_control 0) (with_config (new_config "cam" "/data/x.h5" 0)) 0 [] (mkHdf5Io None None) []).
Lemma staged_hdf5_detector_is_never_prepared_witness :
  ∃ e d2, prepare no_text trigger_info_default (stage hdf5_detector).2 = (Some (Err e), d2).
Proof.
  destruct (staged_hdf5_detector_is_never_prepared no_text trigger_info_default hdf5_detector (stage hdf5_detector).2)
    as (e & d2 & Hp & _); [reflexivity..|]. eauto.
Defined.

Lemma soft_step_scan_witness :
  (scan no_text 0 ["d"; "d"] (soft_detector "cam" [])).1 = imap (λ i x, (Some (Ok ()), Ready (Ok (point_docs "cam" i x)))) ["d"; "d"].
Proof. apply (soft_step_scan no_text 0 "cam" [] ["d"; "d"]). vm_compute. discriminate. Defined.

Definition two_events : TriggerInfo := mkTriggerInfo Internal 2 None None 1 1 None.
Definition fly_of (n : Z) : StandardDetector (Rig SoftDetectorControl SoftDetectorWriter) :=
  (prepare no_text (mkTriggerInfo Internal n None None 1 1 None) (soft_detector "cam" [Updates []; Updates []])).2.
Lemma soft_fly_scan_never_completes_witness :
  let d1 := (kickoff no_text (fly_of 2)).2 in
  (kickoff no_text (fly_of 2)).1 = Some (Ok ()) ∧ (complete no_text 9 d1).1 ≠ Some (Ok ()).
Proof.
  assert ((kickoff no_text (fly_of 2)).1 = Some (Ok ())) as Hk by reflexivity.
  assert (trigger_info <$> prepared (fly_of 2) = Some two_events) as Hp by reflexivity.
  assert (pc_collections_written <$> prepared (fly_of 2) = Some 0%Z) as Hw by reflexivity.
  assert (arm_count (control (hardware (fly_of 2))) = 0%Z) as Ha by reflexivity.
  assert (events_to_kickoff (fly_of 2) = 2%Z) as He by reflexivity.
  assert (data_logics (fly_of 2) = [Unbounded 0]) as Hl by reflexivity.
  split; [exact Hk|]. generalize dependent (fly_of 2). intros d Hk Hp Hw Ha He Hl Hc.
  destruct (prepared d) as [p|] eqn:Hpd; [|discriminate]. cbn in Hp, Hw. injection Hp as Hp. injection Hw as Hw.
  refine (soft_fly_scan_never_completes no_text 9 0 d (kickoff no_text d).2 (complete no_text 9 (kickoff no_text d).2).2 p
    Hl Hpd Ha _ _ _ _ _ _); unfold requested_end, prepared_end; rewrite ?He, ?Hp, ?Hw.
  - apply Z.le_refl.
  - vm_compute. discriminate.
  - vm_compute. split; discriminate.
  - vm_compute. split; discriminate.
  - rewrite <-Hk. apply surjective_pairing.
  - rewrite <-Hc. apply surjective_pairing.
Defined.
(** One frame is enough for one event. *)
Lemma soft_fly_scan_of_one : (complete no_text 0 (kickoff no_text (fly_of 1)).2).1 = Some (Ok ()).
Proof. reflexivity. Qed.
End FrameExample.
