(* ===== verification/AreaDetector.v ===== *)
(** * areaDetector writers ([host/areadetector.rs])

    What a writer of an areaDetector file plugin asks of the IOC, and the documents that
    point at the files the IOC writes: the HDF5 writer with its NDAttribute datasets, the
    one-file-per-frame writers, the exposure a trigger asks for and the puts of the camera
    and the file plugin. The IOC answers every call as a parameter; [roxmltree] gives the
    elements of an XML text. *)

From stdpp Require Import strings gmap pretty.
From S2P Require Import Prelude.
From S2P Require Import Interfaces.
From S2P Require Import Errors.
From S2P Require Import Documents.
From S2P Require Import F64.
From S2P Require Paths.
From S2P Require Import Detector.
From S2P Require Import Observe.
From S2P Require Import Assets.
From S2P Require Import Frames.

(** ** Calls in order, the first failure the last *)

Section asked.
Context `{JsonNumber}.
Definition Asked (C A : Type) : Type := list C → Result A BsrsError * list C.
#[export] Instance asked_ret C : MRet (Asked C) := λ A a l, (Ok a, l).
#[export] Instance asked_bind C : MBind (Asked C) := λ A B f m l,
  match m l with (Ok a, l) => f a l | (Err e, l) => (Err e, l) end.
Definition ask {C A} (c : C) (r : Result A BsrsError) : Asked C A := λ l, (r, l ++ [c]).
Definition given {C A} (r : Result A BsrsError) : Asked C A := λ l, (r, l).
End asked.

(** ** Frames *)

Section areadetector.
Context `{JsonNumber, !UuidSource, !TextFormat}.

Definition ad_datatype_to_numpy (dt : string) : option string :=
  assoc_get dt
    [("Int8", "|i1"); ("UInt8", "|u1"); ("Int16", "<i2"); ("UInt16", "<u2"); ("Int32", "<i4"); ("UInt32", "<u4");
     ("Int64", "<i8"); ("UInt64", "<u8"); ("Float32", "<f4"); ("Float64", "<f8")]%string.

(** The dims slowest first, without those that are not positive. *)
Definition ndarray_frame_info (dims : list Z) (data_type color_mode data_type_source : string) :
    Result (list Z * string) BsrsError :=
  let shape := List.filter (λ d, 0 <? d)%Z dims in
  if String.eqb data_type "" then Err (Other (data_type_source +:+ " is blank, this is not supported"))
  else
    let! shape :=
      if String.eqb color_mode "Mono" then Ok shape
      else if String.eqb color_mode "RGB1" then Ok (3%Z :: shape)
      else Err (Other ("Unsupported ColorMode " +:+ color_mode +:+ "! Only Mono and RGB1 are supported.")) in
    match ad_datatype_to_numpy data_type with
    | Some dtype => Ok (shape, dtype)
    | None => Err (Backend (data_type_source +:+ "=" +:+ debug_str data_type +:+ " is not a known ADBaseDataType"))
    end.

(** ** NDAttributes *)

Record NdAttributeDataset := mkAttribute { na_name : string; na_dtype_numpy : string; na_source : string }.

Definition ndattr_dbrtype_to_numpy (dbrtype : string) : option string :=
  assoc_get dbrtype
    [("DBR_SHORT", "<i2"); ("DBR_ENUM", "<i2"); ("DBR_INT", "<i4"); ("DBR_LONG", "<i4"); ("DBR_FLOAT", "<f4");
     ("DBR_DOUBLE", "<f8"); ("DBR_STRING", "S40"); ("DBR_CHAR", "|i1")]%string.
Definition ndattr_datatype_to_numpy (datatype : string) : option string :=
  assoc_get datatype [("INT", "<i4"); ("INT64", "<i8"); ("DOUBLE", "<f8"); ("STRING", "S40")]%string.

(** The elements under the root of a document, by their attributes. *)
Context (parse_xml : string → Result (list (list (string * string))) string).

Definition parse_ndattribute (child : list (string * string)) : Result NdAttributeDataset BsrsError :=
  match assoc_get "name"%string child with
  | None => Err (Backend "NDAttributesFile XML: <Attribute> without a name")
  | Some name =>
      if String.eqb (default "EPICS_PV"%string (assoc_get "type"%string child)) "EPICS_PV" then
        let dbrtype := default "DBR_NATIVE"%string (assoc_get "dbrtype"%string child) in
        match ndattr_dbrtype_to_numpy dbrtype with
        | None => Err (Backend ("NDAttribute " +:+ name +:+ " has dbrtype " +:+ dbrtype +:+ ", which is not supported"))
        | Some dtype =>
            match assoc_get "source"%string child with
            | None => Err (Backend ("NDAttribute " +:+ name +:+ " (EPICS_PV) has no source"))
            | Some pv => Ok (mkAttribute name dtype ("ca://" +:+ pv))
            end
        end
      else
        let datatype := default "INT"%string (assoc_get "datatype"%string child) in
        match ndattr_datatype_to_numpy datatype with
        | None => Err (Backend ("NDAttribute " +:+ name +:+ " has datatype " +:+ datatype +:+ ", which is not supported"))
        | Some dtype => Ok (mkAttribute name dtype "")
        end
  end.
Fixpoint parse_elements (l : list (list (string * string))) : Result (list NdAttributeDataset) BsrsError :=
  match l with
  | [] => Ok []
  | child :: l => let! a := parse_ndattribute child in let! rest := parse_elements l in Ok (a :: rest)
  end.
Definition parse_ndattributes_xml (xml : string) : Result (list NdAttributeDataset) BsrsError :=
  match parse_xml xml with
  | Ok l => parse_elements l
  | Err e => Err (Backend ("NDAttributesFile XML parse error: " +:+ e))
  end.

(** A later attribute replaces an earlier one of its name in place. *)
Fixpoint merge_one (a : NdAttributeDataset) (acc : list NdAttributeDataset) : list NdAttributeDataset :=
  match acc with
  | [] => [a]
  | x :: acc => if String.eqb (na_name x) (na_name a) then a :: acc else x :: merge_one a acc
  end.
Definition merge_ndattributes (acc new : list NdAttributeDataset) : list NdAttributeDataset :=
  foldl (λ acc a, merge_one a acc) acc new.

(** ** Calls of the IOC *)

Inductive AdCall :=
| CallFramesPerChunk | CallChunkSizeAuto | CallSetupHdf | CallEnableCallbacks
| CallConfigure (p : Paths.PathInfo) (template : string) (num_capture : Z)
| CallStartCapture | CallStopCapture | CallFlush | CallFrameInfo | CallAttributes (source : nat).

(** What an opening is answered, call by call. *)
Record Opening := mkOpening {
  o_path : Result Paths.PathInfo BsrsError;
  o_frames_per_chunk : Result Z BsrsError;
  o_chunk_size_auto : Result unit BsrsError;
  o_setup : Result unit BsrsError;
  o_callbacks : Result unit BsrsError;
  o_configure : Result unit BsrsError;
  o_start : Result unit BsrsError;
  o_frame : Result (list Z * string) BsrsError;
  o_attributes : list (Result string BsrsError);
}.

Definition is_inline (t : string) : bool := Paths.contains (Paths.b t) (Paths.b "<Attributes>").
Fixpoint discover_from (i : nat) (texts : list (Result string BsrsError)) (acc : list NdAttributeDataset) :
    Asked AdCall (list NdAttributeDataset) :=
  match texts with
  | [] => mret acc
  | t :: texts =>
      t ← ask (CallAttributes i) t;
      if is_inline t then new ← given (parse_ndattributes_xml t); discover_from (S i) texts (merge_ndattributes acc new)
      else discover_from (S i) texts acc
  end.
Definition discover_ndattributes (declared : list NdAttributeDataset) (texts : list (Result string BsrsError)) :
    Asked AdCall (list NdAttributeDataset) :=
  attrs ← discover_from 0 texts []; mret (merge_ndattributes attrs declared).

(** ** Documents *)

Definition ad_hdf_dataset : string := "/entry/data/data".
Definition ad_hdf_attr_chunk : Z := 16384.
Definition ad_hdf_template : string := "%s%s.h5".
Definition ad_multipart_template : string := "%s%s_%6.6d".

Definition shape_value (l : list Z) : Value := VArray (json_Z <$> l).
Definition ad_stream_resource (uid data_key uri dataset : string) (chunk_shape : list Z) : StreamResource :=
  mkStreamResource _ uid data_key "application/x-hdf5" uri
    {["dataset"%string := VString dataset; "chunk_shape"%string := shape_value chunk_shape]} None.
(** The same as the soft writer's ([datum_of]). *)
Definition ad_stream_datum (uid resource descriptor : string) (start stop : Z) : StreamDatum :=
  mkStreamDatum uid resource descriptor (mkRange start stop) (mkRange 0 0).

Definition stream_datakey_dtype (multiplier : Z) (shape_len : nat) : Dtype :=
  if (1 <? multiplier)%Z || (1 <? shape_len) then DArray else DNumber.
Definition external_key (source : string) (multiplier : Z) (shape : list Z) (dtype_numpy : string) : DataKey :=
  mkDataKey source (stream_datakey_dtype multiplier (S (length shape))) (Some <$> (multiplier :: shape))
    (Some (NpScalar dtype_numpy)) (Some "STREAM:"%string) None None None None None None.

(** ** The HDF5 writer *)

Record AdEmitState := mkAdEmit {
  e_data_key : string;
  e_uri : string;
  e_attrs : list NdAttributeDataset;
  main_resource_uid : option string;
  attr_resource_uids : gmap string string;
  e_last_emitted : Z;
  frame_shape : list Z;
  frames_per_chunk : Z;
}.
(** [now]: what the IOC answers about its captured frames and a stop of the capture. *)
Record AdNow := mkNow { num_captured : option Z; stopping : Result unit BsrsError }.
Record AdHdfWriter := mkHdfWriter {
  datakey_suffix : string;
  ndattributes : list NdAttributeDataset;
  emit : option AdEmitState;
  calls : list AdCall;
  now : AdNow;
}.
Implicit Types (w : AdHdfWriter) (st : AdEmitState).
Definition new_hdf_writer (n : AdNow) : AdHdfWriter := mkHdfWriter "" [] None [] n.
Definition with_datakey_suffix (s : string) w : AdHdfWriter := mkHdfWriter s (ndattributes w) (emit w) (calls w) (now w).
Definition with_ndattributes (l : list NdAttributeDataset) w : AdHdfWriter :=
  mkHdfWriter (datakey_suffix w) l (emit w) (calls w) (now w).
Definition set_emit e l w : AdHdfWriter := mkHdfWriter (datakey_suffix w) (ndattributes w) e l (now w).
Definition set_now n w : AdHdfWriter := mkHdfWriter (datakey_suffix w) (ndattributes w) (emit w) (calls w) n.

Definition hdf_uri (p : Paths.PathInfo) : string :=
  Paths.str (Paths.directory_uri p) +:+ Paths.str (Paths.pi_filename p) +:+ ".h5".
(** The image's key, then the attributes', each replacing one of its name. *)
Definition hdf_keys (name uri : string) (multiplier : Z) (shape : list Z) (dtype_numpy : string) (attrs : list NdAttributeDataset) :
    gmap string DataKey :=
  foldl (λ m a, <[na_name a := external_key (if String.eqb (na_source a) "" then uri else na_source a) multiplier []
                                 (na_dtype_numpy a)]> m)
    {[name := external_key uri multiplier shape dtype_numpy]} attrs.

Definition hdf_prepare (name : string) (multiplier : Z) (o : Opening) (declared : list NdAttributeDataset) :
    Asked AdCall (AdEmitState * gmap string DataKey) :=
  p ← given (o_path o);
  chunks ← ask CallFramesPerChunk (o_frames_per_chunk o);
  ask CallChunkSizeAuto (o_chunk_size_auto o);;
  ask CallSetupHdf (o_setup o);;
  ask CallEnableCallbacks (o_callbacks o);;
  ask (CallConfigure p ad_hdf_template 0) (o_configure o);;
  ask CallStartCapture (o_start o);;
  frame ← ask CallFrameInfo (o_frame o);
  attrs ← discover_ndattributes declared (o_attributes o);
  mret (mkAdEmit name (hdf_uri p) attrs None ∅ 0 frame.1 chunks,
        hdf_keys name (hdf_uri p) multiplier frame.1 frame.2 attrs).
Definition hdf_open (name : string) (multiplier : Z) (o : Opening) w : Result (gmap string DataKey) BsrsError * AdHdfWriter :=
  match hdf_prepare name (Z.max multiplier 1) o (ndattributes w) (calls w) with
  | (Ok (st, keys), l) => (Ok keys, set_emit (Some st) l w)
  | (Err e, l) => (Err e, set_emit (emit w) l w)
  end.

(** The resources of the attributes that have none yet. *)
Fixpoint announce_attrs (uri : string) (attrs : list NdAttributeDataset) (x : gmap string string * nat) :
    list Document * (gmap string string * nat) :=
  match attrs with
  | [] => ([], x)
  | a :: attrs =>
      let '(uids, n) := x in
      match uids !! na_name a with
      | Some _ => announce_attrs uri attrs x
      | None =>
          let doc := DocStreamResource (ad_stream_resource (uuid_v4 n) (na_name a) uri
                       ("/entry/instrument/NDAttributes/" +:+ na_name a) [ad_hdf_attr_chunk]) in
          let '(docs, x) := announce_attrs uri attrs (<[na_name a := uuid_v4 n]> uids, S n) in (doc :: docs, x)
      end
  end.
(** One datum for each of the resources. *)
Fixpoint datums_of (resources : list string) (descriptor : string) (start stop : Z) (n : nat) : list Document :=
  match resources with
  | [] => []
  | u :: resources => DocStreamDatum (ad_stream_datum (uuid_v4 n) u descriptor start stop)
                        :: datums_of resources descriptor start stop (S n)
  end.
Definition hdf_docs (up_to : Z) (descriptor : string) (x : AdHdfWriter * nat) : list Document * (AdHdfWriter * nat) :=
  let '(w, n) := x in
  match emit w with
  | None => ([], (w, n))
  | Some st =>
      let '(main_docs, main, n) :=
        match main_resource_uid st with
        | Some u => ([], u, n)
        | None => ([DocStreamResource (ad_stream_resource (uuid_v4 n) (e_data_key st) (e_uri st) ad_hdf_dataset
                      (Z.max (frames_per_chunk st) 1 :: frame_shape st))], uuid_v4 n, S n)
        end in
      let '(attr_docs, (uids, n)) := announce_attrs (e_uri st) (e_attrs st) (attr_resource_uids st, n) in
      let start := e_last_emitted st in
      let resources := main :: ((λ a, default ""%string (uids !! na_name a)) <$> e_attrs st) in
      let later := (start <? up_to)%Z in
      let st := mkAdEmit (e_data_key st) (e_uri st) (e_attrs st) (Some main) uids (if later then up_to else start)
                  (frame_shape st) (frames_per_chunk st) in
      (main_docs ++ attr_docs ++ (if later then datums_of resources descriptor start up_to n else []),
       (set_emit (Some st) (calls w ++ [CallFlush]) w, if later then length resources + n else n))
  end.
Definition hdf_close w : Result unit BsrsError * AdHdfWriter :=
  (stopping (now w), set_emit (emit w) (calls w ++ [CallStopCapture]) w).
(** A reading that fails is no frame. *)
Definition hdf_indices w : Z := match num_captured (now w) with Some n => Z.max n 0 | None => 0 end.

#[export] Instance hdf_fed : Fed AdHdfWriter := {| event := AdNow; fed w n := set_now n w |}.
#[export] Instance ad_hdf_writer c : DetectorWriter c AdHdfWriter := {|
  dw_io := Opening;
  dw_open := hdf_open;
  dw_close := hdf_close;
  dw_indices _ := hdf_indices;
  dw_docs := hdf_docs;
  dw_hints name := [name];
|}.

(** ** One file per frame *)

Record AdMultipartWriter := mkMultipart {
  m_datakey_suffix : string;
  extension : string;
  m_mimetype : string;
  (* the emitter with the resource's URI, its template and the frame's shape *)
  m_emit : option (Emitter * (string * string * list Z));
  m_calls : list AdCall;
  m_now : AdNow;
}.
Implicit Types m : AdMultipartWriter.
Definition new_multipart (extension mimetype : string) (n : AdNow) : AdMultipartWriter := mkMultipart "" extension mimetype None [] n.
Definition jpeg : AdNow → AdMultipartWriter := new_multipart ".jpg" "multipart/related;type=image/jpeg".
Definition tiff : AdNow → AdMultipartWriter := new_multipart ".tiff" "multipart/related;type=image/tiff".
Definition multipart_with_suffix (s : string) m : AdMultipartWriter :=
  mkMultipart s (extension m) (m_mimetype m) (m_emit m) (m_calls m) (m_now m).
Definition set_m_emit e l m : AdMultipartWriter := mkMultipart (m_datakey_suffix m) (extension m) (m_mimetype m) e l (m_now m).
Definition set_m_now n m : AdMultipartWriter := mkMultipart (m_datakey_suffix m) (extension m) (m_mimetype m) (m_emit m) (m_calls m) n.

Definition multipart_prepare (name : string) (multiplier : Z) (o : Opening) (extension : string) :
    Asked AdCall (Emitter * (string * string * list Z) * gmap string DataKey) :=
  p ← given (o_path o);
  ask CallEnableCallbacks (o_callbacks o);;
  ask (CallConfigure p (ad_multipart_template +:+ extension) 0) (o_configure o);;
  ask CallStartCapture (o_start o);;
  frame ← ask CallFrameInfo (o_frame o);
  let uri := Paths.str (Paths.directory_uri p) in
  let template := Paths.str (Paths.pi_filename p) +:+ "_{:06d}" +:+ extension in
  mret (mkEmitter (Some name) None 0, (uri, template, frame.1),
        {[name := external_key uri multiplier frame.1 frame.2]}).
Definition multipart_open (name : string) (multiplier : Z) (o : Opening) m : Result (gmap string DataKey) BsrsError * AdMultipartWriter :=
  match multipart_prepare name (Z.max multiplier 1) o (extension m) (m_calls m) with
  | (Ok (e, keys), l) => (Ok keys, set_m_emit (Some e) l m)
  | (Err e, l) => (Err e, set_m_emit (m_emit m) l m)
  end.
Definition multipart_label (template : string) (frame_shape : list Z) (uri : string) m : Label :=
  mkLabel (m_mimetype m) uri {["template"%string := VString template; "chunk_shape"%string := shape_value (1%Z :: frame_shape)]}.
Definition multipart_docs (up_to : Z) (descriptor : string) (x : AdMultipartWriter * nat) : list Document * (AdMultipartWriter * nat) :=
  let '(m, n) := x in
  match m_emit m with
  | None => ([], (m, n))
  | Some (e, (uri, template, frame_shape)) =>
      let '(docs, (e, n)) :=
        Frames.collect_stream_docs store_later (multipart_label template frame_shape uri m) up_to descriptor (e, n) in
      (docs, (set_m_emit (Some (e, (uri, template, frame_shape))) (m_calls m) m, n))
  end.
Definition multipart_close m : Result unit BsrsError * AdMultipartWriter :=
  (stopping (m_now m), set_m_emit (m_emit m) (m_calls m ++ [CallStopCapture]) m).
Definition multipart_indices m : Z := match num_captured (m_now m) with Some n => Z.max n 0 | None => 0 end.

#[export] Instance multipart_fed : Fed AdMultipartWriter := {| event := AdNow; fed m n := set_m_now n m |}.
#[export] Instance ad_multipart_writer c : DetectorWriter c AdMultipartWriter := {|
  dw_io := Opening;
  dw_open := multipart_open;
  dw_close := multipart_close;
  dw_indices _ := multipart_indices;
  dw_docs := multipart_docs;
  dw_hints name := [name];
|}.
End areadetector.

(** ** Puts of the camera and of a file plugin *)

(** A put by its record and value; [wait_state]: the wait for a good detector state. *)
Inductive Put :=
| PutImageMode (mode : string) | PutNumImages (n : Z) | PutAcquireTime (t : f64) | PutAcquirePeriod (t : f64)
| PutAcquire (on : bool) | WaitState
| PutCreateDirectory (depth : Z) | PutFilePath (path : string) | PutFileName (name : string) | PutFileTemplate (t : string)
| PutAutoIncrement (on : bool) | PutFileNumber (n : Z) | PutFileWriteMode (mode : string) | ReadFilePathExists
| PutNumCapture (n : Z) | ReadNumFramesChunks | PutNumFramesChunks (n : Z).

(** What a put ends in within ten seconds: its completion, its failure, or neither. *)
Inductive PutEnd := Done | Failed (e : StatusError) | TooLate.
Definition status_text (e : StatusError) : string :=
  match e with SCancelled => "cancelled" | STimeout => "timed out" | SFailed s => s end.
Definition await_put `{JsonNumber, !TextFormat} (what : string) (r : PutEnd) : Result unit BsrsError :=
  match r with
  | Done => Ok ()
  | Failed e => Err (Backend (what +:+ ": " +:+ status_text e))
  | TooLate => Err (Backend (what +:+ ": put timed out after 10s"))
  end.

(** [ends]: how the IOC ends the [n]th call. *)
Section puts.
Context `{JsonNumber, !TextFormat} (ends : nat → PutEnd).
Definition put (c : Put) (what : string) : Asked Put unit := λ l, (await_put what (ends (length l)), l ++ [c]).

(** The exposure a trigger asks for: [None] leaves a record as it is; the outer [None] is
    the panic of a sum of durations. *)
Record ExposurePlan := mkExposure {
  image_mode : string; num_images : Z; acquire_time : option f64; acquire_period : option f64;
}.
Definition max_duration : Z := 18446744073709551615999999999.
Definition from_trigger_info (info : TriggerInfo) : option (Result ExposurePlan BsrsError) :=
  match ti_trigger info with
  | Internal =>
      let num := number_of_exposures info in
      let mode := if (num =? 0)%Z then "Continuous"%string else "Multiple"%string in
      match livetime info, deadtime info with
      | Some lt, Some dt =>
          if (max_duration <? lt + dt)%Z then None
          else Some (Ok (mkExposure mode num (Some (as_secs_f64 lt)) (Some (as_secs_f64 (lt + dt)))))
      | lt, _ => Some (Ok (mkExposure mode num (as_secs_f64 <$> lt) None))
      end
  | t => Some (Err (Backend ("AreaDetectorCam supports only DetectorTrigger::Internal, got " +:+ trigger_name t)))
  end.
Definition put_some (c : f64 → Put) (v : option f64) (what : string) : Asked Put unit :=
  match v with Some t => put (c t) what | None => mret () end.
Definition cam_prepare (info : TriggerInfo) : option (Asked Put unit) :=
  (λ r, plan ← given r;
        put (PutImageMode (image_mode plan)) "prepare: ImageMode";;
        put (PutNumImages (num_images plan)) "prepare: NumImages";;
        put_some PutAcquireTime (acquire_time plan) "prepare: AcquireTime";;
        put_some PutAcquirePeriod (acquire_period plan) "prepare: AcquirePeriod") <$> from_trigger_info info.

(** [mode], [images]: the readings that come first; [good]: what the wait for a good state
    ends in. *)
Definition warmup (mode : Result string BsrsError) (images : Result Z BsrsError) (good : Result unit BsrsError) : Asked Put unit :=
  prev_image_mode ← given mode;
  prev_num_images ← given images;
  put (PutImageMode "Single") "warmup: set ImageMode=Single";;
  put (PutNumImages 1) "warmup: set NumImages=1";;
  put (PutAcquire true) "warmup: trigger Acquire";;
  ask WaitState good;;
  put (PutImageMode prev_image_mode) "warmup: restore ImageMode";;
  put (PutNumImages prev_num_images) "warmup: restore NumImages".

Definition file_path_pv (directory : Paths.PurePath) : string :=
  Paths.str (Paths.display directory) +:+ String (Paths.separator directory) "".
Definition configure (prefix : string) (exist : Result bool BsrsError) (p : Paths.PathInfo) (template : string) (num_capture : Z) :
    Asked Put unit :=
  let directory := file_path_pv (Paths.directory_path p) in
  put (PutCreateDirectory (Paths.create_dir_depth p)) "NdFile::set_create_directory";;
  put (PutFilePath directory) "NdFile::set_path";;
  put (PutFileName (Paths.str (Paths.pi_filename p))) "NdFile::set_name";;
  put (PutFileTemplate template) "NdFile::set_template";;
  put (PutAutoIncrement true) "NdFile::set_auto_increment";;
  put (PutFileNumber 0) "NdFile::set_file_number";;
  put (PutFileWriteMode "Stream") "NdFile::set_write_mode";;
  there ← ask ReadFilePathExists exist;
  if negb there
  then given (Err (Backend (prefix +:+ "FilePath " +:+ directory +:+ " doesn't exist on the IOC host or is not writable")))
  else put (PutNumCapture num_capture) "NdFile::set_num_capture".

Definition read_frames_per_chunk (n : Result Z BsrsError) : Asked Put Z :=
  n ← ask ReadNumFramesChunks n;
  if (n <=? 0)%Z then put (PutNumFramesChunks 1) "NdFileHdf5::frames_per_chunk: NumFramesChunks=1";; mret 1%Z
  else mret n.
End puts.

(** * What a run accepts *)

Section accepted.
Context `{JsonNumber, !UuidSource, !TextFormat} (run_start : string) (ext : list string).
Implicit Types (reg uids : gmap string string) (rc : gset string) (st : AdEmitState).

Definition fresh_from (n : nat) reg : Prop := ∀ i, n ≤ i → reg !! uuid_v4 i = None.
(** The run knows the resources of the names. *)
Definition known uids reg : Prop := ∀ k u, uids !! k = Some u → reg !! u = Some k.

Lemma fresh_insert n reg k : fresh_from n reg → fresh_from (S n) (<[uuid_v4 n := k]> reg).
Proof.
  intros Hf i Hi. rewrite lookup_insert_ne; [apply Hf; lia|]. intros E%(inj uuid_v4). lia.
Qed.
Lemma insert_fresh_subseteq n reg k : fresh_from n reg → reg ⊆ <[uuid_v4 n := k]> reg.
Proof. intros Hf. apply insert_subseteq, Hf. lia. Qed.
Lemma known_weaken uids reg reg' : known uids reg → reg ⊆ reg' → known uids reg'.
Proof. intros Hk Hs k u Hu. eapply lookup_weaken; eauto. Qed.
Lemma known_insert uids reg n k : known uids reg → fresh_from n reg → known (<[k := uuid_v4 n]> uids) (<[uuid_v4 n := k]> reg).
Proof.
  intros Hk Hf k' u. rewrite lookup_insert_Some. intros [[-> <-]|[_ Hu]]; [by rewrite lookup_insert_eq|].
  apply (known_weaken _ reg _ Hk (insert_fresh_subseteq n reg k Hf) _ _ Hu).
Qed.

Lemma pack_docs_app seq docs docs' dr out dr' :
  pack_docs run_start seq ext docs dr = (Ok out, dr') →
  pack_docs run_start seq ext (docs ++ docs') dr =
    let '(r, dr'') := pack_docs run_start seq ext docs' dr' in
    (match r with Ok out' => Ok (out ++ out') | Err e => Err e end, dr'').
Proof.
  revert dr out. induction docs as [|d docs IH]; intros dr out; simpl.
  { intros [= <- <-]. destruct (pack_docs _ _ _ docs' dr) as [[?|?] ?]; done. }
  destruct (pack_doc run_start seq ext d dr) as [[d' dr1]|e]; [|done].
  destruct (pack_docs run_start seq ext docs dr1) as [[o|e] dr2] eqn:E; [|done].
  intros [= <- ->]. rewrite (IH _ _ E). by destruct (pack_docs _ _ _ docs' dr') as [[?|?] ?].
Qed.

Lemma pack_fresh_resource seq r w rc reg : reg !! sr_uid r = None → sr_data_key r ∈ ext →
  ∃ out, pack_docs run_start seq ext [DocStreamResource r] (mkDrain w rc reg) =
           (Ok out, mkDrain w rc (<[sr_uid r := sr_data_key r]> reg)).
Proof.
  intros Hr Hk. cbn [pack_docs pack_doc]. unfold pack_resource. cbn [dr_registry dr_width dr_received].
  rewrite decide_False by (rewrite Hr; by intros [? ?]). rewrite bool_decide_eq_true_2 by done. simpl. eauto.
Qed.

(** The attributes' resources, of which the run hears once. *)
Lemma announce_packs seq uri attrs : ∀ uids n reg w rc,
  known uids reg → fresh_from n reg → Forall (λ a, na_name a ∈ ext) attrs →
  let '(docs, (uids', n')) := announce_attrs uri attrs (uids, n) in
  ∃ out reg', pack_docs run_start seq ext docs (mkDrain w rc reg) = (Ok out, mkDrain w rc reg')
    ∧ reg ⊆ reg' ∧ known uids' reg' ∧ fresh_from n' reg' ∧ uids ⊆ uids' ∧ Forall (λ a, is_Some (uids' !! na_name a)) attrs.
Proof.
  induction attrs as [|a attrs IH]; intros uids n reg w rc Hk Hf Hext; simpl.
  { exists [], reg. by split_and!. }
  apply Forall_cons in Hext as [Ha Hext]. destruct (uids !! na_name a) as [u|] eqn:Hu.
  - specialize (IH uids n reg w rc Hk Hf Hext). destruct (announce_attrs uri attrs (uids, n)) as [docs [uids' n']].
    destruct IH as (out & reg' & ? & ? & ? & ? & Hsub & ?). exists out, reg'. split_and!; try done.
    constructor; [|done]. exists u. by eapply lookup_weaken.
  - specialize (IH _ (S n) _ w rc (known_insert uids reg n (na_name a) Hk Hf) (fresh_insert n reg (na_name a) Hf) Hext).
    destruct (announce_attrs uri attrs _) as [docs [uids' n']]. destruct IH as (out & reg' & Hp & Hsub & ? & ? & Hu' & ?).
    match goal with |- ∃ out reg', pack_docs _ _ _ (DocStreamResource ?r :: _) _ = _ ∧ _ =>
      destruct (pack_fresh_resource seq r w rc reg) as [o Ho]; [by apply Hf|done|] end.
    exists (o ++ out), reg'. split_and!; try done.
    + change (DocStreamResource ?r :: docs) with ([DocStreamResource r] ++ docs).
      rewrite (pack_docs_app _ _ _ _ _ _ Ho). cbn [sr_uid sr_data_key ad_stream_resource]. by rewrite Hp.
    + etrans; [by apply insert_fresh_subseteq|done].
    + etrans; [|done]. by apply insert_subseteq.
    + constructor; [|done]. exists (uuid_v4 n). eapply lookup_weaken; [apply lookup_insert_eq|done].
Qed.

(** The datums of one range over resources the run knows. *)
Lemma datums_pack seq descriptor start stop reg res keys : ∀ n w rc,
  Forall2 (λ u k, reg !! u = Some k) res keys → (∀ x, w = Some x → x = range_width (mkRange start stop)) →
  ∃ out, pack_docs run_start seq ext (datums_of res descriptor start stop n) (mkDrain w rc reg) =
           (Ok out, mkDrain (match res with [] => w | _ => Some (range_width (mkRange start stop)) end)
                      (list_to_set keys ∪ rc) reg).
Proof.
  intros n w rc Hl. revert n w rc. induction Hl as [|u k res keys Hu Hl IH]; intros n w rc Hw.
  { exists []. simpl. by rewrite (left_id_L ∅ (∪)). }
  cbn [datums_of pack_docs pack_doc]. unfold pack_datum. cbn [ad_stream_datum sd_seq_nums r_start r_stop sd_stream_resource dr_registry sd_indices dr_width dr_received].
  rewrite Hu. cbn.
  destruct (IH (S n) (Some (range_width (mkRange start stop))) ({[k]} ∪ rc) ltac:(by intros x [= <-])) as [out Ho].
  assert (list_to_set keys ∪ ({[k]} ∪ rc) = ({[k]} ∪ list_to_set keys) ∪ rc) as E by set_solver.
  rewrite E in Ho.
  destruct w as [x|]; [rewrite (Hw x eq_refl), Z.eqb_refl; cbn|]; rewrite Ho; destruct res; eauto.
Qed.

(** A writer's state of which the run [reg] knows every resource. *)
Record tracked (n : nat) reg st : Prop := {
  tr_main : ∀ u, main_resource_uid st = Some u → reg !! u = Some (e_data_key st);
  tr_attrs : known (attr_resource_uids st) reg;
  tr_fresh : fresh_from n reg;
}.
Definition keys_of st : list string := e_data_key st :: (na_name <$> e_attrs st).

Lemma covered_by keys : NoDup ext → (∀ k, k ∈ keys ↔ k ∈ ext) → uncovered ext (list_to_set keys ∪ ∅) = false.
Proof.
  intros Hnd Hk. rewrite (right_id_L ∅ (∪)). assert (list_to_set keys =@{gset string} list_to_set ext) as -> by set_solver.
  apply uncovered_false. intros _. split; [by rewrite size_list_to_set|set_solver].
Qed.

Lemma drain_step seq up_to descriptor w st n reg :
  emit w = Some st → tracked n reg st → NoDup ext → (∀ k, k ∈ keys_of st ↔ k ∈ ext) → (0 ≤ e_last_emitted st)%Z →
  let '(docs, (w', n')) := hdf_docs up_to descriptor (w, n) in
  ∃ out reg' st',
    pack_external_assets docs run_start seq ext reg = (Ok (out, (Z.max up_to (e_last_emitted st) - e_last_emitted st)%Z), reg')
    ∧ emit w' = Some st' ∧ tracked n' reg' st' ∧ keys_of st' = keys_of st
    ∧ e_last_emitted st' = Z.max up_to (e_last_emitted st).
Proof.
  intros Hw [Hm Ha Hf] Hnd Hext Hpos.
  (* the main resource *)
  assert (∃ main_docs main n1 reg1 out1,
    match main_resource_uid st with
    | Some u => ([], u, n)
    | None => ([DocStreamResource (ad_stream_resource (uuid_v4 n) (e_data_key st) (e_uri st) ad_hdf_dataset
                  (Z.max (frames_per_chunk st) 1 :: frame_shape st))], uuid_v4 n, S n)
    end = (main_docs, main, n1)
    ∧ pack_docs run_start seq ext main_docs (mkDrain None ∅ reg) = (Ok out1, mkDrain None ∅ reg1)
    ∧ reg1 !! main = Some (e_data_key st) ∧ reg ⊆ reg1 ∧ fresh_from n1 reg1) as (main_docs & main & n1 & reg1 & out1 & Emain & Hp1 & Hreg1 & Hsub1 & Hf1).
  { destruct (main_resource_uid st) as [u|] eqn:Eu.
    - exists [], u, n, reg, []. split_and!; eauto.
    - edestruct pack_fresh_resource as [o Ho]; cycle 2.
      + eexists _, _, _, _, o. split_and!; [reflexivity|apply Ho|apply lookup_insert_eq|by apply insert_fresh_subseteq|by apply fresh_insert].
      + by apply Hf.
      + apply Hext. set_solver. }
  unfold hdf_docs. rewrite Hw, Emain.
  pose proof (announce_packs seq (e_uri st) (e_attrs st) (attr_resource_uids st) n1 reg1 None ∅
    (known_weaken _ _ _ Ha Hsub1) Hf1) as Han.
  destruct (announce_attrs _ _ _) as [attr_docs [uids n2]].
  destruct Han as (out2 & reg2 & Hp2 & Hsub2 & Hk2 & Hf2 & _ & Hin).
  { apply Forall_forall. intros a Hin. apply Hext. unfold keys_of. set_solver. }
  assert (reg2 !! main = Some (e_data_key st)) as Hmain2 by (by eapply lookup_weaken).
  set (res := main :: _). assert (Forall2 (λ u k, reg2 !! u = Some k) res (keys_of st)) as Hres.
  { constructor; [done|]. apply Forall2_fmap. apply Forall_Forall2_diag. eapply Forall_impl; [exact Hin|].
    intros a [u Hu]. simpl. rewrite Hu. by apply Hk2. }
  unfold pack_external_assets. rewrite (pack_docs_app _ _ _ _ _ _ Hp1), (pack_docs_app _ _ _ _ _ _ Hp2).
  destruct (Z.ltb_spec (e_last_emitted st) up_to) as [Hlt|Hge].
  - destruct (datums_pack seq descriptor (e_last_emitted st) up_to reg2 res (keys_of st) n2 None ∅ Hres ltac:(done)) as [out3 Ho].
    rewrite Ho. cbn [dr_received dr_width dr_registry]. rewrite (covered_by _ Hnd Hext).
    eexists _, reg2, _. split_and!; [|reflexivity| |reflexivity|cbn; lia].
    + cbn. unfold range_width, sat_sub64. cbn. repeat f_equal; lia.
    + split; cbn; [by intros u [= <-]|done|]. intros i Hi. apply Hf2. simpl in Hi. lia.
  - cbn. eexists _, reg2, _. split_and!; [|reflexivity| |reflexivity|cbn; lia].
    + repeat f_equal. lia.
    + split; cbn; [by intros u [= <-]|done|done].
Qed.

(** A run's drains of one writer: [next], the stream's next number. *)
Fixpoint drains (ups : list (Z * string)) (x : AdHdfWriter * nat) reg (next : Z) : list (Result (list Document * Z) BsrsError) :=
  match ups with
  | [] => []
  | (up_to, descriptor) :: ups =>
      let '(docs, x) := hdf_docs up_to descriptor x in
      let '(r, reg) := pack_external_assets docs run_start next ext reg in
      r :: drains ups x reg (match r with Ok (_, width) => next + width | Err _ => next end)%Z
  end.
Definition width_of (r : Result (list Document * Z) BsrsError) : option Z := match r with Ok (_, n) => Some n | Err _ => None end.
(** The widths of drains from [last] on. *)
Fixpoint widths (last : Z) (ups : list Z) : list Z :=
  match ups with [] => [] | u :: ups => (Z.max u last - last)%Z :: widths (Z.max u last) ups end.

Lemma drains_accepted ups : ∀ w st n reg next,
  emit w = Some st → tracked n reg st → NoDup ext → (∀ k, k ∈ keys_of st ↔ k ∈ ext) → (0 ≤ e_last_emitted st)%Z →
  width_of <$> drains ups (w, n) reg next = Some <$> widths (e_last_emitted st) ups.*1.
Proof.
  induction ups as [|[up_to descriptor] ups IH]; intros w st n reg next Hw Ht Hnd Hext Hpos; [done|].
  cbn [drains]. pose proof (drain_step next up_to descriptor w st n reg Hw Ht Hnd Hext Hpos) as Hs.
  destruct (hdf_docs up_to descriptor (w, n)) as [docs [w' n']]. destruct Hs as (out & reg' & st' & -> & Hw' & Ht' & Hk & Hl).
  cbn [fmap list_fmap width_of widths fst]. f_equal. rewrite <-Hl. apply IH; try done; [by rewrite Hk|lia].
Qed.
End accepted.

(** ** The attributes *)

Lemma merge_one_names a acc : na_name <$> merge_one a acc =
  if bool_decide (na_name a ∈ na_name <$> acc) then na_name <$> acc else (na_name <$> acc) ++ [na_name a].
Proof.
  induction acc as [|x acc IH]; [by rewrite bool_decide_eq_false_2 by set_solver|]. cbn [merge_one].
  destruct (String.eqb_spec (na_name x) (na_name a)) as [E|E]; cbn [fmap list_fmap].
  - rewrite E, bool_decide_eq_true_2 by set_solver. done.
  - rewrite IH. destruct (decide (na_name a ∈ na_name <$> acc)).
    + rewrite !bool_decide_eq_true_2 by set_solver. done.
    + rewrite !bool_decide_eq_false_2 by set_solver. done.
Qed.
Definition attribute (k : string) (l : list NdAttributeDataset) : option NdAttributeDataset :=
  List.find (λ a, String.eqb (na_name a) k) l.
Lemma attribute_app k l l' : attribute k (l ++ l') = match attribute k l with Some a => Some a | None => attribute k l' end.
Proof. unfold attribute. induction l as [|a l IH]; simpl; [done|]. by destruct (String.eqb _ k). Qed.
Lemma attribute_merge_one k a acc :
  attribute k (merge_one a acc) = if String.eqb (na_name a) k then Some a else attribute k acc.
Proof.
  unfold attribute. induction acc as [|x acc IH]; simpl; [done|].
  destruct (String.eqb_spec (na_name x) (na_name a)) as [E|E]; simpl.
  - rewrite E. by destruct (String.eqb_spec (na_name a) k).
  - rewrite IH. destruct (String.eqb_spec (na_name x) k), (String.eqb_spec (na_name a) k); congruence.
Qed.
Lemma merge_names_nodup new : ∀ acc, NoDup (na_name <$> acc) → NoDup (na_name <$> merge_ndattributes acc new).
Proof.
  induction new as [|a new IH]; intros acc Hacc; [done|]. apply (IH (merge_one a acc)). rewrite merge_one_names.
  case_bool_decide as E; [done|]. apply NoDup_app. split_and!; [done|set_solver|apply NoDup_singleton].
Qed.

(** Merged attributes are a dict's: a name once, where it was first seen, with what was
    said of it last. *)
Theorem merged_attributes_are_a_dict acc new k :
  NoDup (na_name <$> acc) →
  NoDup (na_name <$> merge_ndattributes acc new)
  ∧ attribute k (merge_ndattributes acc new) =
      match attribute k (rev new) with Some a => Some a | None => attribute k acc end
  ∧ ∃ later, na_name <$> merge_ndattributes acc new = (na_name <$> acc) ++ later.
Proof.
  intros Hacc. split; [by apply merge_names_nodup|]. clear Hacc. revert acc.
  induction new as [|a new IH]; intros acc; [by split; [|exists []; rewrite app_nil_r]|].
  destruct (IH (merge_one a acc)) as [Hk [later Hl]]. change (merge_ndattributes acc (a :: new)) with (merge_ndattributes (merge_one a acc) new).
  split.
  - rewrite Hk, attribute_merge_one. simpl rev. rewrite attribute_app.
    destruct (attribute k (rev new)); [done|]. cbn. by destruct (String.eqb _ k).
  - rewrite Hl, merge_one_names. case_bool_decide; [by eexists|]. rewrite <-app_assoc. by eexists.
Qed.

(** ** From the opening to a run's collections *)

Section opened.
Context `{JsonNumber, !UuidSource, !TextFormat} (parse_xml : string → Result (list (list (string * string))) string).

Lemma asked_bind_ok {C A B} (m : Asked C A) (f : A → Asked C B) l b l' :
  (m ≫= f) l = (Ok b, l') → ∃ a l1, m l = (Ok a, l1) ∧ f a l1 = (Ok b, l').
Proof. cbv [mbind asked_bind]. destruct (m l) as [[a|e] l1]; [|done]. eauto. Qed.
Lemma asked_ok {C A} (c : C) (r : Result A BsrsError) l a l' : ask c r l = (Ok a, l') → r = Ok a ∧ l' = l ++ [c].
Proof. unfold ask. by intros [= -> <-]. Qed.
Lemma discover_nodup texts : ∀ i acc l attrs l', NoDup (na_name <$> acc) →
  discover_from parse_xml i texts acc l = (Ok attrs, l') → NoDup (na_name <$> attrs).
Proof.
  induction texts as [|t texts IH]; intros i acc l attrs l' Hacc Hd; cbn [discover_from] in Hd.
  { cbv [mret asked_ret] in Hd. by simplify_eq. }
  apply asked_bind_ok in Hd as (text & l1 & _ & Hd). destruct (is_inline text); [|by eapply IH].
  apply asked_bind_ok in Hd as (new & l2 & _ & Hd). eapply IH, Hd. by apply merge_names_nodup.
Qed.
Lemma hdf_keys_dom name uri multiplier shape numpy attrs k :
  k ∈ dom (hdf_keys name uri multiplier shape numpy attrs) ↔ k ∈ name :: (na_name <$> attrs).
Proof.
  unfold hdf_keys. set (f := λ (m : gmap string DataKey) (a : NdAttributeDataset), _).
  assert (∀ attrs m, dom (foldl f m attrs) = list_to_set (na_name <$> attrs) ∪ dom m) as E.
  { clear. intros attrs. induction attrs as [|a attrs IH]; intros m; simpl; [by rewrite (left_id_L ∅ (∪))|].
    rewrite IH. unfold f. rewrite dom_insert_L. set_solver. }
  rewrite E, dom_singleton_L. set_solver.
Qed.

(** What an opening that succeeds leaves: no resource announced and no frame emitted, and
    a description of the writer's keys. *)
Lemma hdf_open_ok name multiplier o w keys w' :
  hdf_open parse_xml name multiplier o w = (Ok keys, w') →
  ∃ st, emit w' = Some st ∧ main_resource_uid st = None ∧ attr_resource_uids st = ∅ ∧ e_last_emitted st = 0%Z
    ∧ NoDup (na_name <$> e_attrs st) ∧ ∀ k, k ∈ keys_of st ↔ k ∈ dom keys.
Proof.
  unfold hdf_open. destruct (hdf_prepare _ _ _ _ _ _) as [[[st keys']|e] l] eqn:Hp; [|done]. intros [= <- <-].
  unfold hdf_prepare in Hp. do 8 (apply asked_bind_ok in Hp as (? & ? & _ & Hp)).
  apply asked_bind_ok in Hp as (attrs & l1 & Hd & Hp). cbv [mret asked_ret] in Hp. simplify_eq.
  unfold discover_ndattributes in Hd. apply asked_bind_ok in Hd as (found & l2 & Hd & Hm). cbv [mret asked_ret] in Hm. simplify_eq.
  eexists. split_and!; [reflexivity..| |].
  - apply merge_names_nodup. eapply discover_nodup; [|exact Hd]. apply NoDup_nil_2.
  - intros k. by rewrite hdf_keys_dom.
Qed.

(** C39: An HDF5 writer and the run that collects it agree: after an opening that succeeded, a
    run that declared the keys it was given takes every collection, however many frames
    each finds and whatever attributes the camera, the plugin and the configuration name;
    each collection advances the stream by the frames that are new in it. *)
Theorem opened_writer_is_accepted name multiplier o w keys w' ext ups run_start reg n next :
  hdf_open parse_xml name multiplier o w = (Ok keys, w') →
  NoDup ext → (∀ k, k ∈ ext ↔ k ∈ dom keys) → fresh_from n reg →
  width_of <$> drains run_start ext ups (w', n) reg next = Some <$> widths 0 ups.*1.
Proof.
  intros (st & Hw & Hm & Ha & Hl & _ & Hk)%hdf_open_ok Hnd Hext Hf. rewrite <-Hl.
  apply drains_accepted; try done; [|intros k; by rewrite Hk, Hext|lia].
  split; [by rewrite Hm|intros k u; by rewrite Ha|done].
Qed.

(** An opening that fails leaves the writer's documents where they were; what the IOC had
    been asked for stays asked. *)
Theorem failed_opening_keeps_the_documents name multiplier o w e w' :
  hdf_open parse_xml name multiplier o w = (Err e, w') →
  emit w' = emit w ∧ ∀ up_to descriptor n, (hdf_docs up_to descriptor (w', n)).1 = (hdf_docs up_to descriptor (w, n)).1.
Proof.
  unfold hdf_open. destruct (hdf_prepare _ _ _ _ _ _) as [[[st keys']|e'] l] eqn:Hp; [done|]. intros [= <- <-].
  split; [done|]. intros up_to descriptor n. unfold hdf_docs. cbn. destruct (emit w) as [st|]; [|done].
  destruct (main_resource_uid st); cbn; by destruct (announce_attrs _ _ _) as [? [? ?]].
Qed.
End opened.

(** ** The exposure *)

(** The three counts of a trigger are multiplied in 32 bits: a request whose product is a
    multiple of 2^32 asks the camera to acquire without end, as one for no event does. *)
Theorem exposure_of_a_trigger `{JsonNumber} info plan :
  from_trigger_info info = Some (Ok plan) →
  in_u32 (number_of_events info) → in_u32 (collections_per_event info) → in_u32 (exposures_per_collection info) →
  let total := (number_of_events info * collections_per_event info * exposures_per_collection info)%Z in
  num_images plan = (total `mod` 4294967296)%Z
  ∧ (image_mode plan = "Continuous" ↔ (4294967296 | total)%Z)
  ∧ ((total < 4294967296)%Z → num_images plan = total ∧ (image_mode plan = "Continuous" ↔ total = 0%Z))
  ∧ (is_Some (acquire_time plan) ↔ is_Some (livetime info))
  ∧ (is_Some (acquire_period plan) ↔ is_Some (livetime info) ∧ is_Some (deadtime info)).
Proof.
  intros Hp Hn Hc He total. unfold from_trigger_info in Hp. destruct (ti_trigger info); [|done..].
  assert (number_of_exposures info = total `mod` 4294967296)%Z as Hnum.
  { unfold number_of_exposures, number_of_collections, wrap32, total. by rewrite Z.mul_mod_idemp_l. }
  rewrite Hnum in Hp.
  assert (num_images plan = total `mod` 4294967296
    ∧ image_mode plan = (if total `mod` 4294967296 =? 0 then "Continuous" else "Multiple"))%Z as [Hi Hmode].
  { destruct (livetime info), (deadtime info); try (case_match; [done|]); by simplify_eq. }
  assert (image_mode plan = "Continuous" ↔ (4294967296 | total)%Z) as Hcont.
  { rewrite Hmode, <-Z.mod_divide by done. destruct (Z.eqb_spec (total `mod` 4294967296) 0); split; done. }
  split_and!; [done|done| | |].
  - intros Hlt. unfold in_u32 in *. assert (0 ≤ total)%Z by (unfold total; nia).
    assert (num_images plan = total) as E by (rewrite Hi; apply Z.mod_small; lia). split; [done|].
    rewrite Hmode, <-Hi, E. destruct (Z.eqb_spec total 0); split; done.
  - destruct (livetime info), (deadtime info); try (destruct (max_duration <? _)%Z; [done|]); simplify_eq/=; rewrite !is_Some_alt; tauto.
  - destruct (livetime info), (deadtime info); try (destruct (max_duration <? _)%Z; [done|]); simplify_eq/=; rewrite !is_Some_alt; tauto.
Qed.

(** ** Puts *)

Section put_order.
Context `{JsonNumber, !TextFormat} (ends : nat → PutEnd).

Lemma put_bind {A} c what (k : () → Asked Put A) l :
  (put ends c what ≫= k) l =
    match await_put what (ends (length l)) with Ok u => k u (l ++ [c]) | Err e => (Err e, l ++ [c]) end.
Proof. done. Qed.
Lemma ask_bind {A B} c (x : Result A BsrsError) (k : A → Asked Put B) l :
  (ask c x ≫= k) l = match x with Ok a => k a (l ++ [c]) | Err e => (Err e, l ++ [c]) end.
Proof. by destruct x. Qed.
Lemma given_bind {A B} (a : A) (k : A → Asked Put B) l : (given (Ok a) ≫= k) l = k a l.
Proof. done. Qed.
Lemma await_put_ok what r u : await_put what r = Ok u ↔ r = Done.
Proof. destruct r, u; simpl; split; done. Qed.
Lemma await_put_err what r e : await_put what r = Err e → r ≠ Done.
Proof. by destruct r. Qed.

(** A call that ended the sequence: what was put so far. *)
Ltac not_there Hin := repeat (apply elem_of_cons in Hin as [Hin|Hin]; [discriminate Hin|]); inversion Hin.
Ltac early := simplify_eq; split; [repeat first [apply prefix_nil|apply prefix_cons]|];
  split; [let Hin := fresh in intros Hin; exfalso; not_there Hin|split; [done|intros (? & ? & ?); destruct_and?; congruence]].
Ltac step_of Hc :=
  match type of Hc with
  | context [await_put ?w ?r] =>
      let E := fresh "E" in destruct (await_put w r) eqn:E; [apply await_put_ok in E|apply await_put_err in E; early]
  end.

(** However the puts end, the depth of the directories to create is set before the path,
    and the capture's length only after the path was seen to exist. *)
Theorem paths_are_put_in_order prefix exist p template num_capture r l :
  configure ends prefix exist p template num_capture [] = (r, l) →
  let all := [PutCreateDirectory (Paths.create_dir_depth p); PutFilePath (file_path_pv (Paths.directory_path p));
              PutFileName (Paths.str (Paths.pi_filename p)); PutFileTemplate template; PutAutoIncrement true;
              PutFileNumber 0; PutFileWriteMode "Stream"; ReadFilePathExists; PutNumCapture num_capture] in
  l `prefix_of` all ∧ (PutNumCapture num_capture ∈ l → exist = Ok true)
  ∧ (r = Ok () ↔ exist = Ok true ∧ ends 8 = Done ∧ Forall (λ i, ends i = Done) (seq 0 7)).
Proof.
  unfold configure. intros Hc. cbn [seq]. rewrite !Forall_cons.
  do 7 (rewrite put_bind in Hc; cbn [length app] in Hc; step_of Hc).
  rewrite ask_bind in Hc. unfold given in Hc. destruct exist as [[|]|e]; cbn [negb app] in Hc; [|early..].
  unfold put in Hc. cbn [length app] in Hc. simplify_eq. split; [done|]. split; [done|].
  rewrite await_put_ok. naive_solver.
Qed.

Ltac ended_in Hw :=
  match type of Hw with
  | context [await_put ?w ?r] =>
      destruct (await_put w r) in Hw;
      [|simplify_eq; split; [done|]; intros ? _; split; [done|]; repeat first [apply prefix_nil|apply prefix_cons]]
  end.

(** A warmup puts back the mode and the count it found only when all before went well: one
    whose wait for the detector fails leaves it in the warmup's. *)
Theorem failed_warmup_is_not_undone mode images good r l :
  warmup ends (Ok mode) (Ok images) good [] = (r, l) →
  let begun := [PutImageMode "Single"; PutNumImages 1; PutAcquire true; WaitState] in
  (r = Ok () → l = begun ++ [PutImageMode mode; PutNumImages images])
  ∧ ∀ e, good = Err e → is_ok r = false ∧ l `prefix_of` begun.
Proof.
  unfold warmup. rewrite !given_bind, put_bind. intros Hw. cbn [length app] in Hw.
  do 2 (ended_in Hw; rewrite put_bind in Hw; cbn [length app] in Hw). ended_in Hw. rewrite ask_bind in Hw.
  destruct good as [[]|e]; cbn [app] in Hw; [|by simplify_eq].
  rewrite put_bind in Hw. cbn [length app] in Hw.
  destruct (await_put _ _) in Hw; [|by simplify_eq]. unfold put in Hw. cbn [length app] in Hw. by simplify_eq.
Qed.
End put_order.

Module AdExample.
Import Sample.
Open Scope Z_scope.
Definition no_xml (s : string) : Result (list (list (string * string))) string := Ok [].
Definition info : Paths.PathInfo :=
  Paths.mkPathInfo (Paths.posix (Paths.b "/data")) (Paths.b "cam_00") 0 (Paths.b "file://localhost/data/").
(** An opening the IOC answers well: frames of 3 by 4, and no file of attributes. *)
Definition good_opening : Opening :=
  mkOpening (Ok info) (Ok 1) (Ok ()) (Ok ()) (Ok ()) (Ok ()) (Ok ()) (Ok ([3; 4], "|u1"%string)) [].
Definition temperature : NdAttributeDataset := mkAttribute "temp" "<f8" "ca://T".
Definition writer : AdHdfWriter := with_ndattributes [temperature] (new_hdf_writer (mkNow (Some 0) (Ok ()))).
Definition opened := hdf_open no_xml "cam" 1 good_opening writer.
Definition keys : gmap string DataKey := match opened.1 with Ok m => m | Err _ => ∅ end.

Lemma opened_writer_is_accepted_witness :
  width_of <$> drains "run" ["cam"; "temp"]%string [(2, "d"%string); (2, "d"%string); (5, "d"%string)] (opened.2, 0%nat) ∅ 1
    = [Some 2; Some 0; Some 3].
Proof.
  apply (opened_writer_is_accepted no_xml "cam" 1 good_opening writer keys opened.2 ["cam"; "temp"]%string
           [(2, "d"%string); (2, "d"%string); (5, "d"%string)] "run" ∅ 0%nat 1).
  - reflexivity.
  - repeat constructor; set_solver.
  - assert (dom keys = {["cam"; "temp"]}%string) as -> by reflexivity. set_solver.
  - intros i _. apply lookup_empty.
Defined.

(** Two attributes of a name: the later says it. *)
Lemma merged_attributes_are_a_dict_witness :
  attribute "temp" (merge_ndattributes [temperature] [mkAttribute "gain" "<i4" ""; mkAttribute "temp" "<f4" ""])
    = Some (mkAttribute "temp" "<f4" "").
Proof.
  destruct (merged_attributes_are_a_dict [temperature] [mkAttribute "gain" "<i4" ""; mkAttribute "temp" "<f4" ""] "temp") as (_ & -> & _);
    [apply NoDup_singleton|reflexivity].
Defined.

(** Where the path does not exist on the IOC's host the capture was not started. *)
Lemma failed_opening_keeps_the_documents_witness :
  emit (hdf_open no_xml "cam" 1 (mkOpening (Ok info) (Ok 1) (Ok ()) (Ok ()) (Ok ()) (Err (Backend "no path")) (Ok ()) (Ok ([], ""%string)) []) writer).2
    = emit writer.
Proof.
  apply (failed_opening_keeps_the_documents no_xml "cam" 1
    (mkOpening (Ok info) (Ok 1) (Ok ()) (Ok ()) (Ok ()) (Err (Backend "no path")) (Ok ()) (Ok ([], ""%string)) []) writer (Backend "no path")).
  reflexivity.
Defined.

(** 65536 events of 65536 collections ask for frames without end. *)
Definition wrapping_trigger : TriggerInfo := mkTriggerInfo Internal 65536 None None 1 65536 None.
Definition endless : ExposurePlan := mkExposure "Continuous" 0 None None.
Lemma exposure_of_a_trigger_witness : from_trigger_info wrapping_trigger = Some (Ok endless) ∧ num_images endless = 0.
Proof.
  split; [reflexivity|].
  apply (exposure_of_a_trigger wrapping_trigger endless); [reflexivity|unfold in_u32; cbn; lia..].
Defined.

Definition all_done (n : nat) : PutEnd := Done.
Definition configured := configure all_done "13SIM1:" (Ok true) info ad_hdf_template 0 [].
Lemma paths_are_put_in_order_witness :
  (PutNumCapture 0 ∈ configured.2 → Ok true = Ok true :> Result bool BsrsError) ∧ configured.1 = Ok ().
Proof.
  destruct (paths_are_put_in_order all_done "13SIM1:" (Ok true) info ad_hdf_template 0 configured.1 configured.2) as (_ & H1 & H2);
    [reflexivity|]. split; [exact H1|]. apply H2. split_and!; [done|done|]. repeat constructor.
Defined.

(** The detector does not become idle: the camera is left to take one frame. *)
Definition stuck := warmup all_done (Ok "Multiple"%string) (Ok 100) (Err (Other "cam not in a good state")) [].
Lemma failed_warmup_is_not_undone_witness :
  is_ok stuck.1 = false ∧ stuck.2 = [PutImageMode "Single"; PutNumImages 1; PutAcquire true; WaitState].
Proof.
  destruct (failed_warmup_is_not_undone all_done "Multiple" 100 (Err (Other "cam not in a good state")) stuck.1 stuck.2) as [_ Hf];
    [reflexivity|]. destruct (Hf (Other "cam not in a good state")) as [He _]; [reflexivity|]. split; [exact He|reflexivity].
Defined.

(** A reading of the frames captured that fails is no frame: what was written is not
    collected then. *)
Lemma failed_reading_is_no_frame : hdf_indices (set_now (mkNow None (Ok ())) opened.2) = 0.
Proof. reflexivity. Qed.
End AdExample.
