(* ===== verification/Handle.v ===== *)
(** * The engine's message handlers ([RunEngine::handle], [engine/run_engine.rs])

    One definition per message that has a body of its own, and [handle], the
    dispatch. Every [await] of the code is one [await] here (two in a row without a
    change in between are one). A failed handler leaves the state as the code
    leaves it when it returns its error. *)

From stdpp Require Import pretty.
From S2P Require Import Prelude Interfaces Errors Control Documents Compose Bundler Assets.
From S2P Require Import Device Machine.

Section handle.
Context `{JsonNumber, !TextFormat, !UuidSource, !Schedule, !Hooks}.
Implicit Types (e : RunEngine) (key : option string) (obj : Device) (group : option string).

(** ** Helpers on the run's slot *)

Definition get_slot key (why : string) : M RunSlot :=
  sl ← gets (λ e, runs (state e) !! key); expect sl (PlanE why).

Definition require_run key (why : string) : M unit :=
  open ← gets (λ e, run_open key (state e));
  if open : bool then mret () else throw (PlanE why).

Definition put_bundler key (b : RunBundler) : M unit := modify (on_bundler key (λ _, b)).

(** [Self::reset_checkpoint_state]: of the engine, then of every open run. *)
Definition reset_checkpoint (s : EngineState) : EngineState :=
  set_runs ((λ sl, set_sl_bundler (reset_checkpoint_state (sl_bundler sl)) sl) <$> runs s)
    (set_msg_cache [] s).

(** ** Configurations *)

Definition read_object_configuration (c : Configurable) : M Configuration :=
  t ← await;
  readings ← lift (read_configuration_dyn c t);
  data_keys ← lift (describe_configuration_dyn c t);
  mret (mkConfiguration (rd_value <$> readings) data_keys (rd_timestamp <$> readings)).

Definition ensure_object_configuration key obj : M Configuration :=
  cached ← gets (λ e, b ← bundler_of key (state e); cached_configuration (d_name obj) b);
  match cached with
  | Some config => mret config
  | None =>
      config ← (if as_configurable obj then read_object_configuration (configurable obj)
                else mret configuration_default);
      modify (on_bundler key (cache_configuration (d_name obj) config));;
      mret config
  end.

Definition stream_object key obj (data_keys : gmap string DataKey) : M StreamObject :=
  configuration ← ensure_object_configuration key obj;
  mret (mkStreamObject (Some (d_name obj)) data_keys (hint_fields obj) configuration).

(** ** Opening and closing runs *)

(** The metadata of a run, lowest precedence first. *)
Definition merge_md (persistent : gmap string Value) (meta : RunMetadata)
  (per_call : gmap string Value) : gmap string Value :=
  let m := <["plan_type" := VString "generator"]> persistent in
  let m := match meta_plan_name meta with
           | Some pn => <["plan_name" := VString pn]> m
           | None => m
           end in
  per_call ∪ (meta_extra meta ∪ m).

Definition resolve_scan_id (meta : RunMetadata) (merged : gmap string Value) : M Z :=
  match meta_scan_id meta with
  | Some s => modify (set_scan_id s);; mret s
  | None =>
      match scan_id_source with
      | Some src => lift (src merged)
      | None =>
          s ← gets scan_id;
          modify (set_scan_id (wrap64 (s + 1)));;
          mret (wrap64 (s + 1))
      end
  end.

Definition with_extra (extra : gmap string Value) (d : RunStart) : RunStart :=
  mkRunStart (rs_uid d) (rs_time d) (rs_scan_id d) (rs_hints d) (rs_sample d)
    (rs_data_groups d) (rs_data_session d) (rs_data_type d) (rs_group d) (rs_owner d)
    (rs_project d) (rs_projections d) (extra ∪ rs_extra d).

Definition interruption_keys : gmap string DataKey :=
  {["interruption" :=
      mkDataKey "RunEngine" DString [] None None None None None None None None]}.

(** [or_insert]: a key that is there keeps its value. *)
Definition or_insert {A} (k : string) (v : A) (m : gmap string A) : gmap string A :=
  match m !! k with Some _ => m | None => <[k := v]> m end.

Definition start_document (meta : RunMetadata) : M RunStart :=
  merged ← gets (λ e, merge_md (md e) meta (per_call_md e));
  scan ← resolve_scan_id meta merged;
  let merged := or_insert "scan_id" (json_Z scan) merged in
  modify (λ e, set_md (<["scan_id" := json_Z scan]> (md e)) e);;
  u ← fresh;
  t ← clock;
  let start := bundle_start u t (Some scan) None in
  match md_validator with Some v => lift (v merged) | None => mret () end;;
  merged ← match md_normalizer with Some n => lift (n merged) | None => mret merged end;
  mret (with_extra merged start).

Definition open_run key (meta : RunMetadata) : M string :=
  open ← gets (λ e, run_open key (state e));
  if open : bool then throw (PlanE "OpenRun while a previous run is still open") else
  start ← start_document meta;
  broadcast Own (DocStart start);;
  record ← gets record_interruptions;
  u ← fresh;
  t ← clock;
  let b := bundler_new (bundle_open start) in
  let '(ds, b) :=
    if record : bool then
      let '(d, b) := declare_stream u t "interruptions" [objectless interruption_keys] b in
      ([d], b)
    else ([], b) in
  modify (on_state (λ s, set_runs (<[key := slot_new b]> (runs s)) s));;
  for_each (λ d, broadcast Own (DocDescriptor d)) ds;;
  mret (rs_uid start).

Definition snapshot (uid status : option string) : M unit :=
  when checkpoint_hook
    (t ← clock; modify (λ e, set_snapshots (snapshots e ++ [mkSnapshot t uid status]) e)).

Definition close_run_if_open key (exit_status : string) (reason : option string) : M unit :=
  let exit_status := if String.eqb exit_status "halt" then "abort" else exit_status in
  sl ← gets (λ e, runs (state e) !! key);
  match sl with
  | None => mret ()
  | Some sl =>
      modify (on_state (λ s, set_runs (delete key (runs s)) s));;
      u ← fresh;
      t ← clock;
      match bundle_stop u t exit_status reason (bundle (sl_bundler sl)) with
      | None => panic
      | Some stop =>
          broadcast Own (DocStop stop);;
          snapshot (Some (stop_run_start stop)) (Some exit_status)
      end
  end.

(** ** Statuses *)

Definition handle_status (status : Status) group : M unit :=
  match group with
  | Some g =>
      modify (on_state (λ s,
        set_groups (<[g := default [] (groups s !! g) ++ [status]]> (groups s)) s))
  | None =>
      r ← race (λ t, settled <$> status t);
      match r with Some r => lift r | None => hang end
  end.

(** A device method that starts something: its status goes to the group or is
    awaited. *)
Definition start_status (st : Instant → Status) group : M unit :=
  status ← ask st;
  match group with Some g => set_result (RStatus g) | None => mret () end;;
  handle_status status group.

Definition wait_group (group : string) (error_on_timeout : bool) (timeout : option Z)
  : M bool :=
  members ← gets (λ e, default [] (groups (state e) !! group));
  modify (on_state (λ s, set_groups (delete group (groups s)) s));;
  match members with
  | [] => mret true
  | _ =>
      r ← race (λ t, settled <$> try_join_all ((λ m : Status, m t) <$> members));
      match r, timeout with
      | Some r, _ => lift r;; mret true
      | None, None => hang
      | None, Some d =>
          if error_on_timeout then throw (Timeout_ d)
          else
            modify (on_state (λ s,
              set_groups (<[group := default [] (groups s !! group) ++ members]> (groups s)) s));;
            mret false
      end
  end.

(** [WaitFor] *)
Definition wait_for (factories : list Awaitable) (timeout : option Z) : M unit :=
  r ← race (λ t,
        match try_join_all ((λ f : Awaitable, f t) <$> factories), timeout with
        | Some r, _ => Some r
        | None, Some d => Some (Err (Timeout_ d))
        | None, None => None
        end);
  match r with Some r => lift r | None => hang end.

Definition sleep : M unit :=
  r ← race (λ _, Some (Ok ()));
  match r with Some r => lift r | None => hang end.

(** ** Streams *)

Fixpoint describe_objs key (objs : list Device)
  (describe : Device → M (gmap string DataKey)) : M (list StreamObject) :=
  match objs with
  | [] => mret []
  | obj :: objs =>
      data_keys ← describe obj;
      so ← stream_object key obj data_keys;
      sos ← describe_objs key objs describe;
      mret (so :: sos)
  end.

(** The one stream of a collectable, which must be the declared one. *)
Definition collect_keys (stream_name : string) obj : M (gmap string DataKey) :=
  descs ← ask_ok (describe_collect_dyn obj);
  let rest := delete stream_name descs in
  match descs !! stream_name with
  | Some dks =>
      if decide (rest = ∅) then mret dks
      else throw (PlanE ("declare_stream: expected " +:+ d_name obj +:+
             " to collect into the single stream " +:+ debug_str stream_name +:+ ", got " +:+
             debug_list (sort_names (map_to_list rest).*1)))
  | None => throw (PlanE ("declare_stream: expected " +:+ d_name obj +:+
              " to collect into the single stream " +:+ debug_str stream_name +:+ ", got " +:+
              debug_list (sort_names (map_to_list descs).*1)))
  end.

Definition describe_stream_objs key (stream_name : string) (objs : StreamObjs)
  : M (list StreamObject) :=
  match objs with
  | Readable objs => describe_objs key objs (λ obj, ask_ok (describe_dyn obj))
  | Collectable objs => describe_objs key objs (collect_keys stream_name)
  end.

Definition declare_in key (why : string) (stream_name : string) (objs : list StreamObject)
  : M EventDescriptor :=
  sl ← get_slot key why;
  u ← fresh;
  t ← clock;
  let '(d, b) := declare_stream u t stream_name objs (sl_bundler sl) in
  put_bundler key b;;
  mret d.

Definition handle_declare_stream key (stream_name : string) (objs : StreamObjs) : M unit :=
  require_run key "DeclareStream with no open run";;
  sos ← describe_stream_objs key stream_name objs;
  let declared_for : gset string := list_to_set (omap so_object sos) in
  modify (on_bundler key (record_declared_stream declared_for stream_name));;
  d ← declare_in key "DeclareStream with no open run" stream_name sos;
  broadcast Own (DocDescriptor d).

(** ** Events *)

Definition handle_create key (stream_name : string) : M unit :=
  sl ← get_slot key "Create with no open run";
  b ← lift (create stream_name (sl_bundler sl));
  modify (on_slot key (λ sl, set_sl_asset_objs [] (set_sl_bundler b sl))).

Definition handle_drop key : M unit :=
  sl ← get_slot key "Drop with no open run";
  b ← lift (drop_bundle (sl_bundler sl));
  modify (on_slot key (λ sl, set_sl_asset_objs [] (set_sl_bundler b sl))).

Definition handle_read key obj : M unit :=
  readings ← ask_ok (read_dyn obj);
  bundling ← gets (λ e, match bundler_of key (state e) with
                        | Some b => is_bundling b | None => false end);
  when bundling
    (data_keys ← ask_ok (describe_dyn obj);
     read_obj ← stream_object key obj data_keys;
     sl ← gets (λ e, runs (state e) !! key);
     match sl with
     | None => mret ()
     | Some sl =>
         b ← lift (add_read read_obj readings (sl_bundler sl));
         put_bundler key b;;
         when (writes_external_assets obj)
           (modify (on_slot key (λ sl, set_sl_asset_objs (sl_asset_objs sl ++ [obj]) sl)))
     end);;
  set_result (RReading readings).

(** The documents a save composed: the descriptors go out before the asset documents,
    the event after them. *)
Definition is_descriptor (d : Document) : bool :=
  match d with DocDescriptor _ => true | _ => false end.
Definition is_stream_datum (d : Document) : bool :=
  match d with DocStreamDatum _ => true | _ => false end.
Definition event_seq (docs : list Document) : option Z :=
  head (omap (λ d, match d with DocEvent ev => Some (ev_seq_num ev) | _ => None end) docs).

Fixpoint drain_objs (descriptor : string) (objs : list Device) : M (list Document) :=
  match objs with
  | [] => mret []
  | obj :: objs =>
      docs ← ask_ok (collect_asset_docs_dyn obj descriptor);
      more ← drain_objs descriptor objs;
      mret (docs ++ more)
  end.

Definition pack_save_assets key (stream_name : option string) (docs assets : list Document)
  : M (list Document) :=
  match assets with
  | [] => mret []
  | _ =>
      if bool_decide (event_seq docs = None) && existsb is_stream_datum assets then
        throw (PlanE "Save drained StreamDatum documents but composed no Event to anchor their seq_nums")
      else
        sl ← get_slot key "Save lost open run before stream docs";
        let b := sl_bundler sl in
        let ext := default [] (s ← stream_name; external_data_keys s (bundle b)) in
        let '(r, reg) := pack_external_assets assets (bd_start_uid b)
                           (default 0%Z (event_seq docs)) ext (stream_resource_data_keys b) in
        modify (on_bundler key (set_resource_keys reg));;
        out ← lift r;
        mret out.1
  end.

Definition handle_save key : M unit :=
  sl ← get_slot key "Save with no open run";
  let stream_name := open_stream_name (sl_bundler sl) in
  ud ← fresh; ue ← fresh; t ← clock;
  let '(r, b) := save ud ue t (sl_bundler sl) in
  put_bundler key b;;
  docs ← lift r;
  let asset_objs := sl_asset_objs sl in
  modify (on_slot key (set_sl_asset_objs []));;
  descriptor ← gets (λ e, b ← bundler_of key (state e); s ← stream_name; descriptor_uid s b);
  assets ← match descriptor with Some uid => drain_objs uid asset_objs | None => mret [] end;
  assets ← pack_save_assets key stream_name docs assets;
  for_each (broadcast Own) (filter (λ d, is_descriptor d = true) docs);;
  for_each (broadcast Foreign) assets;;
  for_each (broadcast Own) (filter (λ d, is_descriptor d = false) docs).

(** ** Collecting *)

Definition collect_target obj (stream_name : option string) (b : RunBundler)
  : Result (option string) BsrsError :=
  let declared := declared_stream_names {[d_name obj]} b in
  match stream_name with
  | Some name =>
      if bool_decide (name ∈ declared) then Ok (Some name)
      else Err (PlanE ("collect: stream " +:+ debug_str name +:+ " was given for " +:+ d_name obj
                       +:+ " but declare_stream was not called for it first"))
  | None =>
      let distinct : gset string := list_to_set declared in
      if 1 <? size distinct then
        Err (PlanE ("collect: " +:+ d_name obj +:+ " has several declared streams "
                    +:+ debug_set distinct +:+ "; pass the stream name"))
      else Ok (head declared)
  end.

(** Declare the streams an object describes that are not declared yet. *)
Fixpoint declare_missing key obj (config : Configuration)
  (descs : list (string * gmap string DataKey)) : M (list EventDescriptor) :=
  match descs with
  | [] => mret []
  | (name, dks) :: descs =>
      sl ← get_slot key "Collect with no open run";
      ds ← match descriptor_uid name (sl_bundler sl) with
           | Some _ => mret []
           | None =>
               d ← declare_in key "Collect with no open run" name
                     [mkStreamObject (Some (d_name obj)) dks (hint_fields obj) config];
               mret [d]
           end;
      more ← declare_missing key obj config descs;
      mret (ds ++ more)
  end.

Definition describe_collect key obj : M (option string) :=
  descs ← ask_ok (describe_collect_dyn obj);
  config ← ensure_object_configuration key obj;
  get_slot key "Collect with no open run";;
  ds ← declare_missing key obj config (map_to_list descs);
  for_each (λ d, broadcast Own (DocDescriptor d)) ds;;
  mret (head (map_to_list descs).*1).

(** The writer's asset documents, numbered on the stream's axis ([drain_assets]). *)
Definition collect_assets key obj (stream : option string) : M unit :=
  sl ← get_slot key "Collect lost open run before stream docs";
  match (s ← stream; uid ← descriptor_uid s (sl_bundler sl); Some (s, uid)) with
  | None => mret ()
  | Some (s, uid) =>
      docs ← ask_ok (collect_stream_docs_dyn obj uid);
      match docs with
      | [] => mret ()
      | _ =>
          sl ← get_slot key "Collect lost open run before stream docs";
          let '(r, b) := drain_assets s docs (sl_bundler sl) in
          put_bundler key b;;
          docs ← lift r;
          for_each (broadcast Foreign) docs
      end
  end.

Definition collect_event key (stream : string) (data : gmap string Value)
  (timestamps : gmap string f64) : M unit :=
  sl ← get_slot key "Collect lost open run mid-process (bundler cleared while collect_dyn was awaiting)";
  u ← fresh;
  t ← clock;
  let '(ev, bd) := event u t stream data timestamps (bundle (sl_bundler sl)) in
  modify (on_bundler key (set_bundle bd));;
  match ev with
  | None => throw (PlanE "event for unknown stream")
  | Some ev => broadcast Own (DocEvent ev)
  end.

Definition collect_object key obj (stream_name : option string) : M unit :=
  require_run key "A 'collect' message was sent but no run is open";;
  sl ← get_slot key "A 'collect' message was sent but no run is open";
  declared ← lift (collect_target obj stream_name (sl_bundler sl));
  stream ← match declared with
           | Some s => mret (Some s)
           | None => describe_collect key obj
           end;
  collect_assets key obj stream;;
  events ← ask_ok (collect_dyn obj);
  for_each (λ ev, collect_event key (default ev.1.1 declared) ev.1.2 ev.2) events;;
  modify (on_slot key (λ sl,
    set_sl_uncollected (delete (d_name obj) (sl_uncollected sl)) sl)).

(** ** Monitors *)

Definition start_monitor key (stream : string) obj : M unit :=
  data_keys ← ask_ok (describe_dyn obj);
  so ← stream_object key obj data_keys;
  sl ← get_slot key "Monitor with no open run";
  match descriptor_uid stream (sl_bundler sl) with
  | Some _ => mret ()
  | None =>
      d ← declare_in key "Monitor with no open run" stream [so];
      broadcast Own (DocDescriptor d)
  end;;
  event_key ← ask_ok (subscribe_dyn obj);
  match data_keys !! event_key with
  | None => throw (PlanE ("Monitor: " +:+ d_name obj +:+ " streams data key "
                          +:+ debug_str event_key +:+ ", which its describe() does not declare"))
  | Some _ =>
      modify (on_slot key (λ sl, set_sl_monitor_tasks
        (<[d_name obj := mkPump stream event_key]> (sl_monitor_tasks sl)) sl))
  end.

Definition monitored key obj : M bool :=
  gets (λ e, match runs (state e) !! key with
             | Some sl => bool_decide (is_Some (sl_monitored sl !! d_name obj))
             | None => false
             end).

Definition default_monitor_stream_name : M string :=
  n ← gets monitor_counter;
  modify (set_monitor_counter (wrap64 (n + 1)));;
  mret ("monitor-" +:+ pretty n).

Definition handle_monitor key obj (name : option string) : M unit :=
  require_run key "A 'monitor' message was sent but no run is open";;
  dup ← monitored key obj;
  if dup : bool then
    throw (PlanE ("A 'monitor' message was sent for " +:+ d_name obj
                  +:+ " which is already monitored"))
  else
    stream ← match name with Some n => mret n | None => default_monitor_stream_name end;
    start_monitor key stream obj;;
    modify (on_slot key (λ sl,
      set_sl_monitored (<[d_name obj := (obj, stream)]> (sl_monitored sl)) sl));;
    modify (on_state reset_checkpoint).

(** The events a stopped pump still had in flight. *)
Definition flush_pump (p : PumpId) e : RunEngine :=
  let out := filter (λ x, x.1 = p) (inflight e) in
  let e := set_inflight (filter (λ x, x.1 ≠ p) (inflight e)) e in
  foldl (λ e x, dispatch_subscribers x.2 (log_doc Pump x.2 e)) e out.

(** The pump is asked to stop and awaited: it drains its subscription meanwhile. *)
Definition stop_pump key obj : M unit :=
  task ← gets (λ e, sl ← runs (state e) !! key; sl_monitor_tasks sl !! d_name obj);
  match task with
  | None => mret ()
  | Some _ =>
      await;;
      modify (on_slot key (λ sl,
        set_sl_monitor_tasks (delete (d_name obj) (sl_monitor_tasks sl)) sl));;
      modify (flush_pump (key, d_name obj))
  end.

Definition handle_unmonitor key obj : M unit :=
  on ← monitored key obj;
  if on : bool then
    modify (on_slot key (λ sl,
      set_sl_monitored (delete (d_name obj) (sl_monitored sl)) sl));;
    modify (on_state reset_checkpoint);;
    stop_pump key obj
  else throw (PlanE ("Cannot 'unmonitor' " +:+ d_name obj +:+ "; it is not being monitored")).

(** ** Staging, flying, configuring *)

Definition stage_obj obj (s : EngineState) : EngineState :=
  set_staged (if existsb (λ o, Nat.eqb (d_ptr o) (d_ptr obj)) (staged s)
              then staged s else staged s ++ [obj]) s.
Definition unstage_obj obj (s : EngineState) : EngineState :=
  set_staged (filter (λ o, d_ptr o ≠ d_ptr obj) (staged s)) s.
Definition touch_movable obj (s : EngineState) : EngineState :=
  set_movable_objs_touched (<[d_name obj := obj]> (movable_objs_touched s)) s.
Definition touch_flyable obj (s : EngineState) : EngineState :=
  set_flyable_objs_touched (<[d_name obj := obj]> (flyable_objs_touched s)) s.

(** The log has the staging calls of a plan that succeeded, the other calls as they
    are made. *)
Definition handle_stage obj : M unit :=
  ask_ok (stage_dyn obj);;
  modify (λ e, on_state (λ s, reset_checkpoint (stage_obj obj s)) (log_call (CStage (d_ptr obj)) e)).

Definition handle_unstage obj : M unit :=
  ask_ok (unstage_dyn obj);;
  modify (λ e, on_state (λ s, reset_checkpoint (unstage_obj obj s)) (log_call (CUnstage (d_ptr obj)) e)).

Definition handle_set obj (value : f64) group : M unit :=
  modify (λ e, log_call (CSet (d_name obj) value) (on_state (touch_movable obj) e));;
  start_status (set_dyn obj value) group.

Definition handle_kickoff key obj group : M unit :=
  require_run key "Kickoff sent but no run is open";;
  modify (λ e, log_call (CKickoff (d_name obj)) (on_state (touch_flyable obj) e));;
  when (as_collectable obj)
    (modify (on_slot key (λ sl,
      set_sl_uncollected (<[d_name obj := obj]> (sl_uncollected sl)) sl)));;
  start_status (kickoff_dyn obj) group.

(** New descriptors are composed, sent, then installed. *)
Definition reconfigure key obj (config : Configuration) : M unit :=
  sl ← gets (λ e, runs (state e) !! key);
  match sl with
  | None => mret ()
  | Some sl =>
      us ← freshes (size (descriptors (sl_bundler sl)));
      t ← clock;
      let b := cache_configuration (d_name obj) config (sl_bundler sl) in
      put_bundler key b;;
      let ds := compose_reconfigure us t (d_name obj) config b in
      for_each (λ d, broadcast Own (DocDescriptor d)) ds;;
      modify (on_bundler key (install_reconfigured ds))
  end.

Definition handle_configure key obj (args : ConfigureArgs) : M unit :=
  bundling ← gets (λ e, match bundler_of key (state e) with
                        | Some b => is_bundling b | None => false end);
  if bundling : bool then throw (PlanE "Cannot configure after 'create' but before 'save'") else
  modify (log_call (CConfigure (d_name obj)));;
  ask_ok (configure_dyn obj args);;
  open ← gets (λ e, run_open key (state e));
  when open
    (config ← read_object_configuration (configurable obj);
     reconfigure key obj config).

(** ** Checkpoints *)

Definition handle_checkpoint : M unit :=
  bundling ← gets (λ e, any_bundling (state e));
  if bundling : bool then
    throw (PlanE "Cannot 'checkpoint' after 'create' and before 'save'")
  else
    modify (on_state (λ s, set_rewindable true (reset_checkpoint s)));;
    uid ← gets (λ e, current_run_uid (state e));
    snapshot uid None;;
    modify (on_control apply_deferred).

Definition handle_clear_checkpoint (s : EngineState) : EngineState :=
  let s := set_msg_cache [] (set_rewindable false s) in
  set_runs ((λ sl, set_sl_bundler (clear_checkpoint (sl_bundler sl)) sl) <$> runs s) s.

Definition handle_rewindable (b : bool) (s : EngineState) : EngineState :=
  if Bool.eqb (rewindable s) b then s else reset_checkpoint (set_rewindable b s).

(** ** The dispatch *)

(** [InRun] routes a message to a named run and does not nest. *)
Definition route (m : Msg) : Result (option string * Msg) BsrsError :=
  match m with
  | InRun _ (InRun _ _) => Err (PlanE "InRun cannot be nested")
  | InRun run inner => Ok (Some run, inner)
  | m => Ok (None, m)
  end.

Definition pop_contingency (s : EngineState) : EngineState :=
  set_contingency_stack (take (pred (length (contingency_stack s))) (contingency_stack s)) s.

Definition handle_in key (m : Msg) : M (option string) :=
  match m with
  | InRun _ _ => panic
  | OpenRun meta =>
      uid ← open_run key meta;
      set_result (ROpenRun uid);;
      mret (Some uid)
  | m =>
      match m with
      | CloseRun exit_status reason =>
          require_run key "CloseRun without an open run";;
          close_run_if_open key exit_status reason;;
          set_result (RCloseRun exit_status)
      | Create stream_name => handle_create key stream_name
      | Save => handle_save key
      | Drop => handle_drop key
      | DeclareStream stream_name objs => handle_declare_stream key stream_name objs
      | Read obj => handle_read key obj
      | Locate obj =>
          loc ← ask_ok (locate_dyn obj);
          set_result (RLocation loc.1 loc.2)
      | Set_ obj value group => handle_set obj value group
      | Trigger obj group =>
          modify (log_call (CTrigger (d_name obj)));;
          start_status (trigger_dyn obj) group
      | Stage obj => handle_stage obj
      | Unstage obj => handle_unstage obj
      | Stop obj success =>
          modify (log_call (CStop (d_name obj) success));;
          ask_ok (stop_dyn obj success)
      | Kickoff obj group => handle_kickoff key obj group
      | Complete obj group =>
          modify (log_call (CComplete (d_name obj)));;
          start_status (complete_dyn obj) group
      | Collect obj stream_name => collect_object key obj stream_name
      | Monitor obj name => handle_monitor key obj name
      | Unmonitor obj => handle_unmonitor key obj
      | Wait group error_on_timeout timeout =>
          done ← wait_group group error_on_timeout timeout;
          set_result (RWaitComplete done)
      | Sleep _ => sleep
      | Checkpoint => handle_checkpoint
      | ClearCheckpoint => modify (on_state handle_clear_checkpoint)
      | Pause defer => modify (on_control (pause defer))
      | Resume => modify (on_control resume)
      | Rewindable b => modify (on_state (handle_rewindable b))
      | InstallSuspender id suspender =>
          su ← expect suspender (PlanE "InstallSuspender payload was not Arc<dyn Suspender>");
          modify (on_state (λ s, set_suspenders (<[id := su]> (suspenders s)) s))
      | RemoveSuspender id =>
          modify (on_state (λ s, set_suspenders (delete id (suspenders s)) s))
      | RegisterPausable obj =>
          modify (on_state (λ s, set_pausables (<[d_name obj := obj]> (pausables s)) s))
      | UnregisterPausable obj =>
          modify (on_state (λ s, set_pausables (delete (d_name obj) (pausables s)) s))
      | Input prompt =>
          h ← expect input_handler (PlanE "Msg::Input issued but no input handler installed");
          text ← ask_ok (h prompt);
          set_result (RInput text)
      | ReClass => set_result (REngineClass "bsrs.RunEngine")
      | Subscribe cb filter =>
          id ← atomic (subscribe_filtered filter cb);
          modify (on_state (λ s,
            reset_checkpoint (set_temp_subscribers (temp_subscribers s ++ [id]) s)));;
          set_result (RSubscriptionId id)
      | Unsubscribe id =>
          modify (unsubscribe id);;
          modify (on_state (λ s,
            reset_checkpoint (set_temp_subscribers (filter (λ i, i ≠ id) (temp_subscribers s)) s)))
      | Configure obj args => handle_configure key obj args
      | Prepare obj value group =>
          modify (log_call (CPrepare (d_name obj)));;
          start_status (prepare_dyn obj value) group
      | WaitFor factories timeout => wait_for factories timeout
      | Custom name payload =>
          h ← expect (commands name) (PlanE ("unknown custom command: " +:+ name));
          ask_ok (h payload)
      | Publish doc => broadcast Foreign doc
      | Fail reason => throw (PlanE reason)
      | Raise _ => throw (PlanE "Raise cannot be routed to a run")
      | PushContingency sink =>
          modify (λ e, set_channel (set_sinks (delete sink (sinks (channel e))) (channel e)) e);;
          modify (on_state (λ s, set_contingency_stack (contingency_stack s ++ [sink]) s))
      | PopContingency => modify (on_state pop_contingency)
      | _ => mret ()
      end;;
      mret None
  end.

Definition handle (m : Msg) : M (option string) :=
  km ← lift (route m);
  handle_in km.1 km.2.
End handle.
