(* ===== verification/RunLoop.v ===== *)
(** * The run loop ([RunEngine::run_async], [engine/run_engine.rs])

    [run_async] from the claim to the clean-up, and the loop between: the pause
    gate, the interrupt requests, the rewind replay, the plan's messages and what
    is thrown back into the plan. A plan is a process ([PlanSource]); a plan may
    never end, so the loops take fuel. The callbacks without access to the engine
    ([before_plan], [after_plan], [msg_hook]) have no effect here. *)

From stdpp Require Import pretty.
From S2P Require Import Prelude Interfaces Errors Control Documents Compose Bundler Assets.
From S2P Require Import Device Machine Handle.

Section run_loop.
Context `{JsonNumber, !TextFormat, !UuidSource, !Schedule, !Hooks, !PlanSource}.
Implicit Types (e : RunEngine) (key : option string) (obj : Device) (p : Plan).
Implicit Types (thrown_seq pause_seen : Z) (uids : list string).

(** ** Interruptions and monitors *)

Definition record_in (content : string) key : M unit :=
  sl ← get_slot key "";
  u ← fresh;
  t ← clock;
  let '(ev, bd) := event u t "interruptions" {["interruption" := VString content]}
                     {["interruption" := t]} (bundle (sl_bundler sl)) in
  modify (on_bundler key (set_bundle bd));;
  match ev with Some ev => broadcast Own (DocEvent ev) | None => mret () end.

Definition record_interruption (content : string) : M unit :=
  on ← gets record_interruptions;
  when on
    (keys ← gets (λ e, (filter (λ ks, is_Some (descriptor_uid "interruptions" (sl_bundler ks.2)))
                          (map_to_list (runs (state e)))).*1);
     for_each (λ key, ignore (record_in content key)) keys).

Definition monitor_specs (s : EngineState) : list (option string * (Device * string)) :=
  ks ← map_to_list (runs s);
  (λ spec, (ks.1, spec)) <$> (map_to_list (sl_monitored ks.2)).*2.

Definition restore_monitors : M unit :=
  specs ← gets (λ e, monitor_specs (state e));
  for_each (λ ks, ignore (start_monitor ks.1 ks.2.2 ks.2.1)) specs.

(** ** Pausing *)

Definition stop_on_pause_all (objs : list Device) : M unit :=
  for_each (λ obj, modify (log_call (CStopOnPause (d_name obj)));;
                   ignore (ask_ok (stop_on_pause obj true))) objs.

Definition values {A} (m : gmap string A) : list A := (map_to_list m).*2.

Definition on_pause_enter (interruption : string) : M unit :=
  modify (on_state (λ s, set_runs (set_sl_monitor_tasks ∅ <$> runs s) s));;
  s ← gets state;
  stop_on_pause_all (values (movable_objs_touched s));;
  stop_on_pause_all (values (flyable_objs_touched s));;
  for_each (λ obj, modify (log_call (CPause (d_name obj)));; ignore (ask_ok (pause_dyn obj)))
    (values (pausables s));;
  record_interruption interruption.

(** The rewind: every open run goes back to its checkpoint, the cached messages wait
    to be handled again. *)
Definition arm_replay (s : EngineState) : EngineState :=
  let cache := msg_cache s in
  let s := set_msg_cache [] s in
  let s := match cache with
           | [] => s
           | _ => set_runs ((λ sl, set_sl_asset_objs []
                                     (set_sl_bundler (rewind (sl_bundler sl)) sl)) <$> runs s) s
           end in
  set_replay_queue (replay_queue s ++ cache) s.

Definition on_resume : M unit :=
  modify (on_state arm_replay);;
  s ← gets state;
  for_each (λ obj, modify (log_call (CResume (d_name obj)));; ignore (ask_ok (resume_dyn obj)))
    (values (pausables s));;
  restore_monitors;;
  record_interruption "resume".

(** ** Taking items from a plan *)

Definition next_item p : M (option PlanItem * Plan) :=
  t ← await;
  atomic (λ e, let '(i, p, c) := plan_next p t (channel e) in ((i, p), set_channel c e)).

(** [take_msg_result], sent to a plan that asked for it. *)
Definition answer_plan : M unit :=
  modify (λ e, let c := channel e in
    set_channel (set_answer (Some (last_msg_result c)) (set_last_msg_result RNone c)) e).

Fixpoint run_injected_plan (fuel : nat) p : M unit :=
  match fuel with
  | 0 => out_of_fuel
  | S fuel =>
      aborting ← gets (λ e, is_aborting (control e));
      if aborting : bool then mret () else
      ip ← next_item p;
      match ip.1 with
      | None => mret ()
      | Some i =>
          match item_msg i with
          | Raise _ => mret ()
          | m =>
              r ← attempt (handle m);
              match r with
              | Err _ => mret ()
              | Ok _ =>
                  match i with Respond _ => answer_plan | Bare _ => mret () end;;
                  run_injected_plan fuel ip.2
              end
          end
      end
  end.

Definition run_injected (fuel : nat) (callback : option SuspendCallback) : M unit :=
  match callback with
  | Some f => run_injected_plan fuel (suspend_plan f)
  | None => mret ()
  end.

(** ** The pause gate *)

Definition ack pause_seen : M Z :=
  atomic (λ e, let '(seen, c) := ack_pause pause_seen (control e) in (seen, set_control c e)).

Definition take_suspension : M (option Suspension) :=
  su ← gets (λ e, pending_suspend (ctl (control e)));
  modify (on_control (λ c, set_ctl (rc_set_pending_suspend None (ctl c)) c));;
  mret su.

(** [resumed.await], the waiter registered when the permit stood at [n]. *)
Definition park (n : nat) : M unit :=
  k ← gets (λ e, permit (ctl (control e)));
  if decide (k ≠ n) then mret () else
  await;;
  k ← gets (λ e, permit (ctl (control e)));
  if decide (k ≠ n) then mret () else hang.

Fixpoint pause_gate (fuel : nat) thrown_seq pause_seen : M Z :=
  match fuel with
  | 0 => out_of_fuel
  | S fuel =>
      pending ← gets (λ e, pause_pending pause_seen (control e));
      if negb pending then mret pause_seen else
      n ← gets (λ e, permit (ctl (control e)));
      seen ← ack pause_seen;
      su ← take_suspension;
      on_pause_enter (match su with Some su => justification su | None => "pause" end);;
      run_injected fuel (su ← su; susp_pre_plan su);;
      paused ← gets (λ e, is_paused (ctl (control e)));
      when paused (park n);;
      seen ← ack seen;
      interrupted ← gets (λ e, interrupt_pending thrown_seq (control e));
      if interrupted : bool then restore_monitors;; mret seen else
      on_resume;;
      run_injected fuel (su ← su; susp_post_plan su);;
      pause_gate fuel thrown_seq seen
  end.

(** ** The plan's messages *)

(** The message and whether the plan awaits an answer. *)
Definition pull_msg p : M (option (Msg * bool) * Plan) :=
  q ← gets (λ e, replay_queue (state e));
  match q with
  | m :: q => modify (on_state (set_replay_queue q));; mret (Some (m, false), p)
  | [] =>
      ip ← next_item p;
      match ip.1 with
      | None => mret (None, ip.2)
      | Some (Respond m) => mret (Some (m, true), ip.2)
      | Some (Bare m) =>
          modify (on_state (λ s,
            if rewindable s && is_cacheable m then set_msg_cache (msg_cache s ++ [msg_clone m]) s
            else s));;
          mret (Some (m, false), ip.2)
      end
  end.

Definition take thrown_seq : M (option InterruptRequest * Z) :=
  atomic (λ e, let '(r, seq, c) := take_interrupt thrown_seq (control e) in
               ((r, seq), set_control c e)).

(** [false]: no region of the plan is active. *)
Definition throw_into_plan (thrown : Thrown) : M bool :=
  top ← gets (λ e, last (contingency_stack (state e)));
  match top with
  | None => mret false
  | Some sink =>
      modify (λ e, set_channel (set_sinks (<[sink := thrown]> (sinks (channel e))) (channel e)) e);;
      modify (on_state (set_replay_queue []));;
      mret true
  end.

(** ** Ending *)

Definition pending_flyers (s : EngineState) : list (option string * Device) :=
  ks ← map_to_list (runs s); (λ obj, (ks.1, obj)) <$> values (sl_uncollected ks.2).

Definition backstop_collect : M unit :=
  pending ← gets (λ e, pending_flyers (state e));
  for_each (λ ko, ignore (collect_object ko.1 ko.2 None)) pending.

Definition drain_and_close (status : string) (reason : option string) : M unit :=
  backstop_collect;;
  keys ← gets (λ e, (map_to_list (runs (state e))).*1);
  for_each (λ key, close_run_if_open key status reason) keys.

Definition build_result uids (status : string) (exc : option BsrsError) : M RunResult :=
  c ← gets control;
  mret (mkResult uids status
    (String.eqb status "fail" || is_halting c || is_stopping c || is_aborting c)
    (match exc with Some x => error_text x | None => default EmptyString (stop_reason c) end)
    exc).

Definition end_interrupted uids (status : string) : M RunResult :=
  c ← gets control;
  drain_and_close status (stop_reason c);;
  build_result uids status None.

Definition end_failed uids (x : BsrsError) : M RunResult :=
  drain_and_close "fail" (Some (error_text x));;
  build_result uids "fail" (Some x).

Definition end_of_plan uids : M RunResult :=
  open ← gets (λ e, any_run_open (state e));
  if open : bool then drain_and_close "success" None;; build_result uids "success" None
  else build_result uids (match uids with [] => "no-run" | _ => "success" end) None.

(** ** The loop *)

(** What a handled message means to the loop. *)
Inductive Handled :=
| HDone (uid : option string)
| HPausing
| HHalt
| HThrown (thrown : Thrown).

Definition throw_kind (kind : Interrupt) : M Thrown :=
  c ← gets control; mret (ThInterrupt kind (stop_reason c)).

Definition handle_msg thrown_seq pause_seen (m : Msg) : M (Handled * Z) :=
  match m with
  | Raise thrown => mret (HThrown thrown, thrown_seq)
  | m =>
      r ← attempt (handle m);
      match r with
      | Ok uid => mret (HDone uid, thrown_seq)
      | Err Cancelled =>
          rs ← take thrown_seq;
          match rs.1 with
          | None =>
              pending ← gets (λ e, pause_pending pause_seen (control e));
              mret (if pending : bool then HPausing else HThrown (ThError Cancelled), rs.2)
          | Some Halt => mret (HHalt, rs.2)
          | Some (Throw kind) => th ← throw_kind kind; mret (HThrown th, rs.2)
          end
      | Err x => mret (HThrown (ThError x), thrown_seq)
      end
  end.

(** A value nothing in the plan catches ends the run. *)
Definition end_thrown uids (thrown : Thrown) : M RunResult :=
  match thrown with
  | ThInterrupt kind _ => end_interrupted uids (interrupt_exit_status kind)
  | ThError x => end_failed uids x
  end.

Fixpoint run_loop (fuel : nat) p thrown_seq pause_seen uids : M RunResult :=
  match fuel with
  | 0 => out_of_fuel
  | S fuel =>
      pause_seen ← pause_gate fuel thrown_seq pause_seen;
      rs ← take thrown_seq;
      match rs with
      | (Some Halt, _) => end_interrupted uids "halt"
      | (Some (Throw kind), thrown_seq) =>
          th ← throw_kind kind;
          caught ← throw_into_plan th;
          if caught : bool then run_loop fuel p thrown_seq pause_seen uids
          else end_interrupted uids (interrupt_exit_status kind)
      | (None, thrown_seq) =>
          mp ← pull_msg p;
          match mp with
          | (None, _) => end_of_plan uids
          | (Some (m, responder), p) =>
              hs ← handle_msg thrown_seq pause_seen m;
              match hs with
              | (HHalt, _) => end_interrupted uids "halt"
              | (HPausing, thrown_seq) => run_loop fuel p thrown_seq pause_seen uids
              | (HThrown thrown, thrown_seq) =>
                  caught ← throw_into_plan thrown;
                  if caught : bool then run_loop fuel p thrown_seq pause_seen uids
                  else end_thrown uids thrown
              | (HDone uid, thrown_seq) =>
                  when responder answer_plan;;
                  run_loop fuel p thrown_seq pause_seen (uids ++ option_list uid)
              end
          end
      end
  end.

(** ** [run_async] *)

Definition claim (c : Control) : Control :=
  let c := set_ctl (rc_set_is_running true (ctl c)) c in
  let c := set_is_stopping false (set_is_halting false (set_is_aborting false c)) in
  set_interrupt_reason EmptyString c.

Definition start_up (c : Control) : Control :=
  let c := set_ctl (reset_for_run (ctl c)) c in
  set_sigint_count 0 (set_deferred_pause false c).

(** The end of the loop, or of the overall timeout. *)
Definition bounded_loop (fuel : nat) p thrown_seq pause_seen
  : M (Result RunResult BsrsError) := λ e,
  match loop_timeout with
  | None => attempt (run_loop fuel p thrown_seq pause_seen []) e
  | Some d =>
      match attempt (run_loop fuel p thrown_seq pause_seen []) (set_bounded true e) with
      | (TimedOut, e) | (Hung, e) =>
          (Ret (Err (Timeout_ d)),
           on_control (λ c, set_ctl (rc_set_cancel (cancelled_token (cancel (ctl c))) (ctl c)) c)
             (set_bounded false e))
      | (r, e) => (r, set_bounded false e)
      end
  end.

(** What the run leaves behind is taken out of the state, then undone. *)
Definition forget (s : EngineState) : EngineState :=
  set_staged [] (set_movable_objs_touched ∅ (set_flyable_objs_touched ∅ (set_runs ∅
    (set_contingency_stack [] (set_temp_subscribers [] (set_pausables ∅ s)))))).

Definition undo (s : EngineState) : M unit :=
  for_each (λ id, modify (unsubscribe id)) (temp_subscribers s);;
  stop_on_pause_all (values (movable_objs_touched s));;
  stop_on_pause_all (values (flyable_objs_touched s));;
  for_each (λ obj, modify (log_call (CUnstage (d_ptr obj)));; ignore (ask_ok (unstage_dyn obj)))
    (staged s);;
  modify (on_control (λ c, set_ctl (rc_set_is_running false (ctl c)) c));;
  modify (set_per_call_md ∅).

Definition clean_up : M unit :=
  s ← gets state;
  modify (on_state forget);;
  undo s.

Definition wait_for_suspenders : M unit :=
  tripped ← gets (λ e, filter (λ su, sus_tripped su (tick e) = true)
                         (map_to_list (suspenders (state e))).*2);
  match tripped with [] => mret () | _ => await;; mret () end.

Definition run_async (fuel : nat) (preprocessors : list (Plan → Plan)) p : M RunResult :=
  running ← gets (λ e, is_running (ctl (control e)));
  if running : bool then throw (StateE "a plan is already running on this RunEngine") else
  modify (on_control claim);;
  thrown_seq ← gets (λ e, interrupt_seq (control e));
  modify (on_control start_up);;
  pause_seen ← gets (λ e, pause_seq (ctl (control e)));
  modify (λ e, on_state (λ s, set_temp_subscribers (temp_subscribers s ++ staged_temp_subs e) s)
                 (set_staged_temp_subs [] e));;
  let p := foldl (λ p pp, pp p) p preprocessors in
  wait_for_suspenders;;
  outcome ← bounded_loop fuel p thrown_seq pause_seen;
  clean_up;;
  lift outcome.

Record RunOptions := mkOptions { opt_md : gmap string Value; opt_subs : list nat }.

Definition stage_subs (subs : list nat) e : RunEngine :=
  let '(ids, e) := foldl (λ ie cb, let '(id, e) := subscribe_filtered FAll cb ie.2 in (ie.1 ++ [id], e))
                     ([], e) subs in
  set_staged_temp_subs ids e.

Definition run_async_with (fuel : nat) (preprocessors : list (Plan → Plan)) p (opts : RunOptions)
  : M RunResult :=
  modify (set_per_call_md (opt_md opts));;
  modify (stage_subs (opt_subs opts));;
  run_async fuel preprocessors p.

(** [RunEngine::new], whatever its sinks and hooks. *)
Record new_engine e : Prop := {
  ne_control : control e = engine_new;
  ne_state : state e = state_default;
  ne_emitted : emitted e = [];
  ne_calls : calls e = [];
  ne_bounded : bounded e = false;
}.

(** An engine with a past: calls of [run_async_with], finished or not, and what other
    tasks did in between. *)
Inductive reached : RunEngine → Prop :=
| reached_new e : new_engine e → reached e
| reached_noise e n : reached e → reached (noise_step n e)
| reached_run e fuel pps p opts : reached e → reached (run_async_with fuel pps p opts e).2.
End run_loop.

(** ** A concrete world

    No other task interferes, the devices answer at once, a plan is a list. *)
Module World.
Import Sample.

#[export] Instance quiet : Schedule :=
  {| noise _ := []; pick _ := false; deadline _ := false; now t := Z.of_nat t |}.
#[export] Instance no_hooks : Hooks :=
  {| md_validator := None; md_normalizer := None; scan_id_source := None;
     input_handler := None; commands _ := None; checkpoint_hook := true;
     loop_timeout := None; error_text _ := "error" |}.
#[export] Instance list_plan : PlanSource :=
  {| Plan := list PlanItem;
     plan_next p _ c := match p with [] => (None, [], c) | i :: p => (Some i, p, c) end;
     suspend_plan _ := [] |}.

Definition at_once {A} (a : A) : Instant → Result A BsrsError := λ _, Ok a.
Definition succeeds : Instant → Status := λ _ _, Some (Ok ()).

Definition device (k : nat) (n : string) : Device :=
  let key := mkDataKey "sim" DNumber [] None None None None None None None None in
  mkDevice k n (at_once {[n := mkReading (VBool true) 1%Z None None]}) (at_once {[n := key]})
    None false false (λ _, at_once []) false (mkConfigurable (at_once ∅) (at_once ∅))
    (λ _, succeeds) (λ _, at_once ()) (at_once (0%Z, 0%Z)) (λ _, at_once ()) succeeds
    (at_once ()) (at_once ()) succeeds succeeds false (λ _, succeeds) (at_once ())
    (at_once ()) (at_once ∅) (at_once []) (λ _, at_once []) (at_once n) (λ _, at_once ()).

Definition fresh_engine : RunEngine :=
  mkRunEngine engine_new state_default ∅ 0 [] 0 ∅ [] (mkChannel ∅ None RNone 0 ∅ ∅) false 0 []
    false [] [] [] [] 0 0.

Lemma fresh_reached : reached fresh_engine.
Proof. by apply reached_new. Qed.

Definition count_plan : Plan :=
  Bare <$> [OpenRun (mkMeta None ∅ None); Checkpoint; Create "primary";
            Read (device 0 "det"); Save; CloseRun "success" None].
End World.
