(* ===== verification/LifeCycle.v ===== *)
(** * The life cycle of runs on the wire

    An observer of the documents the engine itself sends ([Origin] [Own]): it accepts
    a [RunStart] of a new run, a descriptor or a [RunStop] of a run that is open,
    and nothing else of these kinds. Whatever plan runs, whatever the devices answer
    and whenever users, suspensions and monitors interfere, the engine's documents are
    accepted; and a call of [run_async] that returns a result has closed every run it
    opened. *)

From S2P Require Import Prelude Interfaces Errors Control Documents Compose Bundler Assets.
From S2P Require Import Device Machine Handle RunLoop Logic.

(** ** The observer *)

Record Observer := mkObserver { ob_open : gset string; ob_closed : gset string }.

Section observer.
Context `{JsonNumber}.
Implicit Types (o : Observer) (docs : list Document) (d : Document).

Definition observe o d : option Observer :=
  match d with
  | DocStart s =>
      if decide (rs_uid s ∈ ob_open o ∪ ob_closed o) then None
      else Some (mkObserver ({[rs_uid s]} ∪ ob_open o) (ob_closed o))
  | DocDescriptor d => if decide (ed_run_start d ∈ ob_open o) then Some o else None
  | DocStop s =>
      if decide (stop_run_start s ∈ ob_open o)
      then Some (mkObserver (ob_open o ∖ {[stop_run_start s]}) ({[stop_run_start s]} ∪ ob_closed o))
      else None
  | _ => Some o
  end.

Definition observe_all docs : option Observer :=
  foldl (λ r d, o ← r; observe o d) (Some (mkObserver ∅ ∅)) docs.

Lemma observe_snoc docs d : observe_all (docs ++ [d]) = o ← observe_all docs; observe o d.
Proof. unfold observe_all. by rewrite foldl_app. Qed.
End observer.

(** ** The bundlers *)

Section bundlers.
Context `{JsonNumber}.
Implicit Types (b : RunBundler) (bd : RunBundle) (sl : RunSlot).

(** The descriptors of a bundle are its run's. *)
Definition sane bd : Prop :=
  ∀ name st, streams bd !! name = Some st → ed_run_start (st_descriptor st) = start_uid bd.

(** [b'] is [b] later on. *)
Definition follows b b' : Prop :=
  start_uid (bundle b') = start_uid (bundle b) ∧ (sane (bundle b) → sane (bundle b')).

#[global] Instance follows_preorder : PreOrder follows.
Proof.
  split; [done|]. intros b1 b2 b3 [H1 H2] [H3 H4]. split; [congruence|auto].
Qed.

Lemma follows_same_bundle b b' : bundle b' = bundle b → follows b b'.
Proof. unfold follows. by intros ->. Qed.

Lemma same_descriptors_sane bd bd' : same_descriptors bd bd' → sane bd → sane bd'.
Proof.
  intros Hs Hb name st Hst.
  apply (same_descriptors_lookup _ _ _ _ (same_descriptors_sym _ _ Hs)) in Hst as (st' & Hst & <-).
  destruct Hs as [-> _]. by eapply Hb.
Qed.

Lemma follows_set_bundle bd b : same_descriptors (bundle b) bd → follows b (set_bundle bd b).
Proof. intros Hs. split; [by destruct Hs|by apply same_descriptors_sane]. Qed.

Lemma follows_event u t name data ts b :
  follows b (set_bundle (event u t name data ts (bundle b)).2 b).
Proof.
  apply follows_set_bundle. pose proof (event_spec u t name data ts (bundle b)) as He.
  destruct (event _ _ _ _ _ _). apply He.
Qed.

Lemma follows_advance name n b : follows b (set_bundle (advance_seq name n (bundle b)).2 b).
Proof.
  apply follows_set_bundle. unfold advance_seq.
  destruct (streams (bundle b) !! name); [apply same_descriptors_bump|done].
Qed.

Lemma follows_rewind b : follows b (rewind b).
Proof.
  unfold rewind. destruct (seq_snapshot _); [|by apply follows_same_bundle].
  apply (follows_set_bundle _ (set_opened None b)), same_descriptors_restore.
Qed.

(** Declaring a stream: the descriptor, new or not, is the run's. *)
Lemma prepare_stream_follows u t name objs b :
  let '(d, b') := prepare_stream u t name objs b in
  follows b b' ∧ (sane (bundle b) → ed_run_start d = start_uid (bundle b)).
Proof.
  unfold prepare_stream, descriptor. destruct (streams (bundle b) !! name) as [st|] eqn:Hst.
  - split; [by apply follows_same_bundle|]. intros Hs. by eapply Hs.
  - split; [|done]. split; [done|]. intros Hs name' st'. simpl. rewrite lookup_insert_Some.
    intros [[<- <-]|[_ ?]]; [done|by eapply Hs].
Qed.

Definition of_run (run : string) (d : Document) : Prop :=
  match d with
  | DocDescriptor d => ed_run_start d = run
  | DocEvent _ => True
  | _ => False
  end.

Lemma save_follows ud ue t b :
  let '(r, b') := save ud ue t b in
  follows b b'
  ∧ (sane (bundle b) → ∀ docs, r = Ok docs → Forall (of_run (start_uid (bundle b))) docs).
Proof.
  unfold save. destruct (opened b) as [ob|]; [|done].
  set (b0 := set_opened None b). assert (follows b b0) as H0 by by apply follows_same_bundle.
  change (bundle b) with (bundle b0). destruct (ob_objs ob) as [|obj objs].
  { split; [done|]. by intros _ ? [= <-]. }
  set (data := rd_value <$> _). set (ts := rd_timestamp <$> _).
  assert (∀ b1 out, follows b0 b1 →
    (sane (bundle b0) → Forall (of_run (start_uid (bundle b0))) out) →
    let '(ev, bd) := event ue t (ob_stream ob) data ts (bundle b1) in
    let '(r, b') := match ev with
      | None => (Err (PlanE "event for unknown stream"), set_bundle bd b1)
      | Some ev => (Ok (out ++ [DocEvent ev]), set_bundle bd b1)
      end in
    follows b b' ∧ (sane (bundle b0) → ∀ docs, r = Ok docs →
      Forall (of_run (start_uid (bundle b0))) docs)) as Hev.
  { intros b1 out H1 Hout. pose proof (follows_event ue t (ob_stream ob) data ts b1) as H2.
    destruct (event _ _ _ _ _ _) as [[ev|] bd]; (split; [by do 2 (etrans; [eassumption|])|]);
      [|by intros _ ? [=]].
    intros Hs ? [= <-]. apply Forall_app. split; [auto|]. by constructor. }
  destruct (match descriptors b0 !! _ with Some _ => _ | None => _ end).
  - pose proof (prepare_stream_follows ud t (ob_stream ob) (obj :: objs) b0) as Hp.
    destruct (prepare_stream _ _ _ _ b0) as [d b1]. destruct Hp as [H1 Hd].
    specialize (Hev b1 [DocDescriptor d] H1).
    destruct (event _ _ _ _ _ _) as [[ev|] bd]; apply Hev; intros Hs;
      (constructor; [by apply Hd|done]).
  - specialize (Hev b0 [] (reflexivity b0)).
    destruct (event _ _ _ _ _ _) as [[ev|] bd]; apply Hev; constructor.
Qed.

Lemma compose_reconfigure_run us t obj cf b :
  sane (bundle b) →
  Forall (λ d, ed_run_start d = start_uid (bundle b)) (compose_reconfigure us t obj cf b).
Proof.
  intros Hs. apply Forall_forall. intros d ([name u] & _ & Hd)%list_elem_of_omap.
  unfold compose_redescribe in Hd. simpl in Hd. apply bind_Some in Hd as (st & Hst & Hd).
  case_decide; simplify_eq/=. by eapply Hs.
Qed.

Lemma install_follows d b :
  ed_run_start d = start_uid (bundle b) → follows b (install_one d b).
Proof.
  intros Hd. unfold install_one. destruct (ed_name d) as [name|]; [|done].
  split; [done|]. intros Hs name' st. simpl. rewrite lookup_alter_Some.
  intros [(_ & st0 & Hst & ->)|[_ Hst]]; simpl; [done|by eapply Hs].
Qed.

Lemma install_all_follows ds b :
  Forall (λ d, ed_run_start d = start_uid (bundle b)) ds → follows b (install_reconfigured ds b).
Proof.
  revert b. induction ds as [|d ds IH]; intros b Hf; [done|].
  apply Forall_cons in Hf as [Hd Hds]. unfold install_reconfigured. simpl.
  pose proof (install_follows d b Hd) as H1. etrans; [exact H1|]. apply IH.
  destruct H1 as [-> _]. done.
Qed.

Context `{!TextFormat}.

Lemma drain_assets_follows s docs b : follows b (drain_assets s docs b).2.
Proof.
  unfold drain_assets. destruct (peek_next_seq _ _); [|done].
  destruct (pack_external_assets _ _ _ _ _) as [[[packed width]|x] reg]; simpl;
    [|by apply follows_same_bundle].
  destruct (0 <? width)%Z; [|by apply follows_same_bundle].
  apply (follows_advance s width (set_resource_keys reg b)).
Qed.
End bundlers.

(** ** The invariant *)

Section life.
Context `{JsonNumber, !TextFormat, !UuidSource, !Schedule, !Hooks}.
Implicit Types (e : RunEngine) (key : option string) (O : gset string) (s : EngineState).

Definition own_docs e : list Document := (filter (λ d, d.1 = Own) (emitted e)).*2.

Definition slot_uid (sl : RunSlot) : string := start_uid (bundle (sl_bundler sl)).

(** The runs open on the wire are those in the engine's slots and the orphans [O] of
    earlier calls that ended abnormally. *)
Record life O e : Prop := {
  lf_observed : ∃ o, observe_all (own_docs e) = Some o
    ∧ (∀ u, u ∈ ob_open o ↔ u ∈ O ∨ ∃ key sl, runs (state e) !! key = Some sl ∧ slot_uid sl = u)
    ∧ (∀ u, u ∈ ob_open o ∪ ob_closed o → ∃ n, n < uuids e ∧ u = uuid_v4 n);
  lf_orphan : ∀ key sl, runs (state e) !! key = Some sl → slot_uid sl ∉ O;
  lf_inj : ∀ k1 k2 sl1 sl2, runs (state e) !! k1 = Some sl1 → runs (state e) !! k2 = Some sl2 →
    slot_uid sl1 = slot_uid sl2 → k1 = k2;
  lf_sane : ∀ key sl, runs (state e) !! key = Some sl → sane (bundle (sl_bundler sl));
}.

Definition ended e : Prop := ∃ O, life O e.

(** The slots of [rs'] are those of [rs], later on. *)
Definition later (rs rs' : gmap (option string) RunSlot) : Prop :=
  ∀ key, option_Forall2 (λ sl sl', follows (sl_bundler sl) (sl_bundler sl')) (rs !! key) (rs' !! key).

Lemma later_refl rs : later rs rs.
Proof. intros key. destruct (rs !! key); by constructor. Qed.

Lemma later_alter key f rs :
  (∀ sl, rs !! key = Some sl → follows (sl_bundler sl) (sl_bundler (f sl))) →
  later rs (alter f key rs).
Proof.
  intros Hf k. destruct (decide (key = k)) as [<-|].
  - rewrite lookup_alter_eq. destruct (rs !! key) eqn:Hs; simpl; constructor. by apply Hf.
  - rewrite lookup_alter_ne by done. apply later_refl.
Qed.

Lemma later_fmap f rs :
  (∀ sl, follows (sl_bundler sl) (sl_bundler (f sl))) → later rs (f <$> rs).
Proof.
  intros Hf key. rewrite lookup_fmap. destruct (rs !! key); simpl; constructor. apply Hf.
Qed.

(** What the invariant sees of an engine. *)
Lemma life_frame O e e' :
  life O e → own_docs e' = own_docs e → uuids e ≤ uuids e' →
  later (runs (state e)) (runs (state e')) → life O e'.
Proof.
  intros [(o & Ho & Hopen & Hfresh) Horph Hinj Hsane] Hd Hu Hl.
  assert (∀ key sl', runs (state e') !! key = Some sl' → ∃ sl, runs (state e) !! key = Some sl
    ∧ follows (sl_bundler sl) (sl_bundler sl')) as Hback.
  { intros key sl' Hs. specialize (Hl key). rewrite Hs in Hl. inversion Hl. eauto. }
  assert (∀ key sl, runs (state e) !! key = Some sl → ∃ sl', runs (state e') !! key = Some sl'
    ∧ follows (sl_bundler sl) (sl_bundler sl')) as Hforth.
  { intros key sl Hs. specialize (Hl key). rewrite Hs in Hl. inversion Hl. eauto. }
  split.
  - exists o. rewrite Hd. split_and!; [done| |].
    + intros u. rewrite Hopen. f_equiv. unfold slot_uid. split.
      * intros (key & sl & Hs & <-). apply Hforth in Hs as (sl' & ? & ? & _). eauto.
      * intros (key & sl' & Hs & <-). apply Hback in Hs as (sl & ? & ? & _). eauto.
    + intros u (n & ? & ?)%Hfresh. exists n. split; [lia|done].
  - intros key sl' (sl & Hs & Hf & _)%Hback. unfold slot_uid. rewrite Hf. by eapply Horph.
  - intros k1 k2 sl1 sl2 (? & Hs1 & Hf1 & _)%Hback (? & Hs2 & Hf2 & _)%Hback.
    unfold slot_uid. rewrite Hf1, Hf2. by apply Hinj.
  - intros key sl' (sl & Hs & _ & Hf)%Hback. eapply Hf, Hsane, Hs.
Qed.

Lemma own_docs_foreign o d e : o ≠ Own → own_docs (log_doc o d e) = own_docs e.
Proof.
  intros Ho. unfold own_docs. simpl. rewrite filter_app, filter_cons_False by done.
  by rewrite app_nil_r.
Qed.

Lemma own_docs_own d e : own_docs (log_doc Own d e) = own_docs e ++ [d].
Proof. unfold own_docs. simpl. by rewrite filter_app, filter_cons_True, fmap_app. Qed.

(** *** Other tasks *)

Lemma pump_compose_frame key obj rd e :
  let e' := pump_compose key obj rd e in
  emitted e' = emitted e ∧ uuids e ≤ uuids e' ∧ later (runs (state e)) (runs (state e')).
Proof.
  unfold pump_compose. destruct (runs (state e) !! key) as [sl|] eqn:Hs;
    [|split_and!; [done|done|apply later_refl]].
  destruct (sl_monitor_tasks sl !! obj) as [task|]; [|split_and!; [done|done|apply later_refl]].
  case_match; [split_and!; [done|done|apply later_refl]|]. simpl.
  set (data := {[_ := _]}). set (ts := {[_ := rd_timestamp _]}).
  match goal with |- context [event ?u ?t ?n data ts ?b] =>
    pose proof (follows_event u t n data ts (sl_bundler sl)) as Hf;
    destruct (event u t n data ts b) as [[ev|] bd] end;
  simpl in *; (split_and!; [done|lia|]);
  (apply later_alter; intros sl'; rewrite Hs; by intros [= <-]).
Qed.

Lemma noise_frame n e :
  let e' := noise_step n e in
  own_docs e' = own_docs e ∧ uuids e ≤ uuids e' ∧ later (runs (state e)) (runs (state e')).
Proof.
  destruct n as [| | | | | | | |key obj rd|i|i|f cb|id|k v|on];
    try (split_and!; [done|simpl; lia|apply later_refl]).
  - pose proof (pump_compose_frame key obj rd e) as (Hd & Hu & Hl). simpl in *.
    split_and!; [|done|done]. unfold own_docs. by rewrite Hd.
  - simpl. unfold pump_deliver. destruct (inflight e !! i) as [p|];
      [|split_and!; [done|lia|apply later_refl]].
    split_and!; [|simpl; lia|apply later_refl].
    by rewrite <-(own_docs_foreign Pump p.2 (set_inflight (delete i (inflight e)) e)).
Qed.

#[global] Instance life_steady O : Steady (life O).
Proof.
  split.
  - intros n e He. destruct (noise_frame n e) as (Hd & Hu & Hl). by eapply life_frame.
  - intros t e He. eapply life_frame; [exact He|done|done|apply later_refl].
Qed.

Lemma life_ended O e : life O e → ended e.
Proof. intros He. by exists O. Qed.

(** ** The handlers *)

Ltac later_tac :=
  first [ apply later_refl
        | apply later_alter; intros; by apply follows_same_bundle
        | apply later_fmap; intros; by apply follows_same_bundle ].
Ltac life_tac :=
  eapply life_frame; [eassumption|reflexivity|simpl; lia|later_tac].
#[local] Hint Extern 1 (life _ _) => solve [life_tac] : keeps.
#[local] Hint Extern 1 (∀ e, life _ e → ended e) => exact (life_ended _) : keeps.
#[local] Hint Resolve life_ended : keeps.

(** Slot [key] is [sl] now; run [run] is open in slot [key]. *)
Definition at_slot O key sl e : Prop := life O e ∧ runs (state e) !! key = Some sl.
Definition live O key (run : string) e : Prop :=
  life O e ∧ ∃ sl, runs (state e) !! key = Some sl ∧ slot_uid sl = run.

Lemma live_life O key run e : live O key run e → life O e.
Proof. by intros []. Qed.

Lemma live_frame O key run e e' :
  live O key run e → own_docs e' = own_docs e → uuids e ≤ uuids e' →
  later (runs (state e)) (runs (state e')) → live O key run e'.
Proof.
  intros [He (sl & Hs & Hu)] Hd Hn Hl. split; [by eapply life_frame|].
  specialize (Hl key). rewrite Hs in Hl. inversion Hl as [? sl' Hf|]; subst.
  exists sl'. split; [done|]. apply Hf.
Qed.

#[local] Instance live_steady O key run : Steady (live O key run).
Proof.
  split.
  - intros n e He. destruct (noise_frame n e) as (Hd & Hu & Hl). by eapply live_frame.
  - intros t e He. eapply live_frame; [exact He|done|done|apply later_refl].
Qed.

Section handlers.
Context (O : gset string).
Notation keeps := (Logic.keeps (life O) ended).
Notation spec := (Logic.spec (life O) ended).

Lemma get_slot_spec key why : spec (life O) (get_slot key why) (at_slot O key).
Proof.
  eapply spec_bind; [apply (spec_gets _ _ _ _ (λ sl e, life O e ∧ sl = runs (state e) !! key)); done|].
  intros sl. apply spec_lift; [|by intros e []].
  intros a e Ha [He ->]. split; [done|]. destruct (runs (state e) !! key); by simplify_eq/=.
Qed.

Lemma fresh_frame P : (∀ e, P e → P (set_uuids (S (uuids e)) e)) → spec P fresh (λ _, P).
Proof. intros HP. apply spec_atomic. exact HP. Qed.

Lemma fresh_frame_any I J P :
  (∀ e, P e → P (set_uuids (S (uuids e)) e)) → Logic.spec I J P fresh (λ _, P).
Proof. intros HP. apply spec_atomic. exact HP. Qed.

Lemma fresh_keeps : keeps fresh.
Proof. apply keeps_atomic. intros e He. simpl. life_tac. Qed.

Lemma fresh_at key sl : spec (at_slot O key sl) fresh (λ _, at_slot O key sl).
Proof. apply fresh_frame. intros e [He Hs]. split; [life_tac|done]. Qed.

Lemma clock_at key sl : spec (at_slot O key sl) clock (λ _, at_slot O key sl).
Proof. by apply spec_gets. Qed.

Lemma put_bundler_spec key sl b :
  follows (sl_bundler sl) b →
  spec (at_slot O key sl) (put_bundler key b) (λ _, live O key (slot_uid sl)).
Proof.
  intros Hb. apply spec_modify. intros e [He Hs]. split.
  - eapply life_frame; [exact He|done|done|]. apply later_alter. intros sl'. rewrite Hs.
    by intros [= <-].
  - eexists. simpl. rewrite lookup_alter_eq, Hs. split; [done|]. apply Hb.
Qed.

Lemma put_bundler_keeps key sl b :
  follows (sl_bundler sl) b → spec (at_slot O key sl) (put_bundler key b) (λ _, life O).
Proof.
  intros Hb. eapply spec_weaken; [by apply put_bundler_spec|done|]. by intros _ e [].
Qed.

(** *** Documents *)

Lemma dispatch_live key run d : spec (live O key run) (modify (dispatch_subscribers d)) (λ _, live O key run).
Proof.
  apply spec_modify. intros e He. eapply live_frame; [exact He|done|done|apply later_refl].
Qed.

Lemma broadcast_foreign_keeps d : keeps (broadcast Foreign d).
Proof.
  apply keeps_bind.
  - apply keeps_modify. intros e He. eapply life_frame;
      [exact He|by apply own_docs_foreign|done|apply later_refl].
  - intros _. apply keeps_bind; [apply keeps_await; [apply life_ended|apply _]|].
    intros t. apply keeps_modify. intros e He. life_tac.
Qed.

(** Sending what the observer does not count. *)
Lemma life_log_silent d e :
  (∀ o, observe o d = Some o) → life O e → life O (log_doc Own d e).
Proof.
  intros Hd [(o & Ho & Hopen & Hfresh) ? ? ?]. split; [|done..]. exists o.
  rewrite own_docs_own, observe_snoc, Ho. simpl. by rewrite Hd.
Qed.

Lemma broadcast_event_keeps ev : keeps (broadcast Own (DocEvent ev)).
Proof.
  apply keeps_bind; [apply keeps_modify; intros e He; by apply life_log_silent|].
  intros _. apply keeps_bind; [apply keeps_await; [apply life_ended|apply _]|].
  intros t. apply keeps_modify. intros e He. life_tac.
Qed.

Lemma live_log_descriptor key d e :
  live O key (ed_run_start d) e → live O key (ed_run_start d) (log_doc Own (DocDescriptor d) e).
Proof.
  intros [[(o & Ho & Hopen & Hfresh) ? ? ?] Hs]. split; [|done]. split; [|done..]. exists o.
  rewrite own_docs_own, observe_snoc, Ho. simpl. rewrite decide_True; [done|].
  apply Hopen. right. destruct Hs as (sl & ? & ?). eauto.
Qed.

Lemma broadcast_of_run_spec key run d :
  of_run run d → spec (live O key run) (broadcast Own d) (λ _, live O key run).
Proof.
  intros Hd. eapply (spec_bind _ _ _ _ _ (λ _, live O key run)).
  - apply spec_modify. intros e He. destruct d; try done; simpl in Hd.
    + subst. by apply live_log_descriptor.
    + destruct He as [He Hs]. split; [by apply life_log_silent|done].
  - intros []. eapply spec_bind; [apply spec_await; [apply _|intros e He; eapply life_ended, live_life, He]|].
    intros t. apply dispatch_live.
Qed.

Lemma broadcast_all_spec key run ds :
  Forall (of_run run) ds → spec (live O key run) (for_each (broadcast Own) ds) (λ _, live O key run).
Proof.
  intros Hds. apply spec_for_each. intros d Hd. apply broadcast_of_run_spec.
  by eapply Forall_forall in Hds.
Qed.

(** *** Parts of handlers *)

#[local] Hint Resolve fresh_keeps broadcast_foreign_keeps broadcast_event_keeps : keeps.

Lemma require_run_keeps key why : keeps (require_run key why).
Proof. unfold require_run. keeps_auto. Qed.

Lemma get_slot_keeps key why : keeps (get_slot key why).
Proof. unfold get_slot. keeps_auto. Qed.
#[local] Hint Resolve require_run_keeps get_slot_keeps : keeps.

Lemma read_configuration_keeps c : keeps (read_object_configuration c).
Proof. unfold read_object_configuration. keeps_auto. Qed.
#[local] Hint Resolve read_configuration_keeps : keeps.

Lemma ensure_configuration_keeps key obj : keeps (ensure_object_configuration key obj).
Proof. unfold ensure_object_configuration. keeps_auto. Qed.
#[local] Hint Resolve ensure_configuration_keeps : keeps.

Lemma stream_object_keeps key obj dks : keeps (stream_object key obj dks).
Proof. unfold stream_object. keeps_auto. Qed.
#[local] Hint Resolve stream_object_keeps : keeps.

Lemma set_result_keeps r : keeps (set_result r).
Proof. unfold set_result. keeps_auto. Qed.
#[local] Hint Resolve set_result_keeps : keeps.

Lemma handle_status_keeps st g : keeps (handle_status st g).
Proof. unfold handle_status. keeps_auto. Qed.
#[local] Hint Resolve handle_status_keeps : keeps.

Lemma start_status_keeps st g : keeps (start_status st g).
Proof. unfold start_status. keeps_auto. Qed.
#[local] Hint Resolve start_status_keeps : keeps.

Lemma wait_group_keeps g b t : keeps (wait_group g b t).
Proof. unfold wait_group. keeps_auto. Qed.

Lemma describe_objs_keeps key objs describe :
  (∀ obj, keeps (describe obj)) → keeps (describe_objs key objs describe).
Proof. intros Hd. induction objs; simpl; keeps_auto. Qed.

Lemma collect_keys_keeps name obj : keeps (collect_keys name obj).
Proof. unfold collect_keys. keeps_auto. Qed.
#[local] Hint Resolve wait_group_keeps describe_objs_keeps collect_keys_keeps : keeps.

Lemma describe_stream_objs_keeps key name objs : keeps (describe_stream_objs key name objs).
Proof. destruct objs; apply describe_objs_keeps; keeps_auto. Qed.
#[local] Hint Resolve describe_stream_objs_keeps : keeps.

(** A stream declared: its descriptor may go out. *)
Lemma declare_in_spec key why name objs :
  spec (life O) (declare_in key why name objs) (λ d, live O key (ed_run_start d)).
Proof.
  unfold declare_in. eapply spec_bind; [apply get_slot_spec|]. intros sl.
  eapply spec_bind; [apply fresh_at|]. intros u.
  eapply spec_bind; [apply clock_at|]. intros t.
  unfold declare_stream. pose proof (prepare_stream_follows u t name objs (sl_bundler sl)) as Hp.
  destruct (prepare_stream _ _ _ _ _) as [d b]. destruct Hp as [Hf Hd].
  eapply (spec_bind _ _ _ _ _ (λ _, live O key (ed_run_start d))).
  - intros e He. rewrite Hd by (destruct He as [He Hs]; by eapply lf_sane).
    by apply (put_bundler_spec key sl b).
  - intros []. by apply spec_ret.
Qed.

Lemma declare_keeps key why name objs :
  keeps (d ← declare_in key why name objs; broadcast Own (DocDescriptor d)).
Proof.
  eapply spec_bind; [apply declare_in_spec|]. intros d.
  eapply spec_weaken; [by apply (broadcast_of_run_spec key (ed_run_start d))|done|].
  by intros _ e [].
Qed.

Lemma handle_declare_stream_keeps key name objs : keeps (handle_declare_stream key name objs).
Proof.
  unfold handle_declare_stream. do 3 (keeps_step; [keeps_auto|]). apply declare_keeps.
Qed.

(** *** Events *)

(** The rest of an operation on the slot that was just read. *)
Lemma at_slot_update key sl f g :
  follows (sl_bundler sl) (sl_bundler (f sl)) → f = g →
  spec (at_slot O key sl) (modify (on_slot key g)) (λ _, life O).
Proof.
  intros Hf <-. apply spec_modify. intros e [He Hs].
  eapply life_frame; [exact He|done|done|]. apply later_alter. intros sl'. rewrite Hs.
  by intros [= <-].
Qed.

Lemma at_slot_lift {A} key sl (r : Result A BsrsError) :
  spec (at_slot O key sl) (lift r) (λ a e, at_slot O key sl e ∧ r = Ok a).
Proof. apply spec_lift; [done|]. by intros e []. Qed.

Lemma create_bundle name b b' : create name b = Ok b' → bundle b' = bundle b.
Proof. unfold create. destruct (opened b); by intros [= <-]. Qed.
Lemma drop_bundle_bundle b b' : drop_bundle b = Ok b' → bundle b' = bundle b.
Proof. unfold drop_bundle. destruct (opened b); by intros [= <-]. Qed.
Lemma add_read_bundle obj rs b b' : add_read obj rs b = Ok b' → bundle b' = bundle b.
Proof.
  unfold add_read, ok_or. destruct (opened b); [|done]. case_match; [|done]. by intros [= <-].
Qed.

Lemma handle_create_keeps key name : keeps (handle_create key name).
Proof.
  unfold handle_create. eapply spec_bind; [apply get_slot_spec|]. intros sl.
  eapply spec_bind; [apply at_slot_lift|]. intros b.
  apply spec_pure_r. intros Hb%create_bundle. eapply at_slot_update; [|reflexivity].
  by apply follows_same_bundle.
Qed.

Lemma handle_drop_keeps key : keeps (handle_drop key).
Proof.
  unfold handle_drop. eapply spec_bind; [apply get_slot_spec|]. intros sl.
  eapply spec_bind; [apply at_slot_lift|]. intros b.
  apply spec_pure_r. intros Hb%drop_bundle_bundle. eapply at_slot_update; [|reflexivity].
  by apply follows_same_bundle.
Qed.

Lemma handle_read_keeps key obj : keeps (handle_read key obj).
Proof.
  unfold handle_read. keeps_step; [keeps_auto|]. keeps_step; [keeps_auto|].
  keeps_step; [|keeps_auto]. keeps_step. do 2 (keeps_step; [keeps_auto|]).
  eapply spec_bind; [by apply (spec_gets _ _ _ _ (λ r e, life O e ∧ r = runs (state e) !! key))|].
  intros [sl|]; [|apply spec_ret; by intros e []].
  eapply (spec_bind _ _ _ _ _ (λ b e, at_slot O key sl e ∧ bundle b = bundle (sl_bundler sl))).
  - apply spec_lift; [|by intros e []]. intros b e Hb [He Hs].
    split; [done|]. by eapply add_read_bundle.
  - intros b. eapply (spec_bind _ _ _ _ _ (λ _, life O)); [|intros []; as_keeps; keeps_auto].
    apply spec_pure_r. intros Hb. apply (put_bundler_keeps key sl). by apply follows_same_bundle.
Qed.

Lemma drain_objs_keeps uid objs : keeps (drain_objs uid objs).
Proof. induction objs; simpl; keeps_auto. Qed.

Lemma pack_save_assets_keeps key name docs assets : keeps (pack_save_assets key name docs assets).
Proof.
  unfold pack_save_assets. destruct assets as [|a assets]; [keeps_auto|].
  case_match; [keeps_auto|]. keeps_step; [keeps_auto|].
  destruct (pack_external_assets _ _ _ _ _) as [r reg]. keeps_auto.
Qed.


(** A computation that keeps the invariant keeps a run open where it was. *)
Lemma steady_gets {A} P (f : RunEngine → A) : spec P (gets f) (λ _, P).
Proof. by apply spec_gets. Qed.

Lemma live_slot_update key run f :
  (∀ sl, follows (sl_bundler sl) (sl_bundler (f sl))) →
  spec (live O key run) (modify (on_slot key f)) (λ _, live O key run).
Proof.
  intros Hf. apply spec_modify. intros e He. eapply live_frame; [exact He|done|done|].
  apply later_alter. intros sl _. apply Hf.
Qed.

Lemma live_ask key run {A} (f : Instant → Result A BsrsError) :
  spec (live O key run) (ask_ok f) (λ _, live O key run).
Proof.
  eapply (spec_bind _ _ _ _ _ (λ _, live O key run)).
  - eapply spec_bind; [apply spec_await; [apply _|intros e He; eapply life_ended, live_life, He]|].
    intros t. by apply spec_ret.
  - intros r. apply spec_lift; [done|]. by intros e [].
Qed.

Lemma live_drain_objs key run uid objs :
  spec (live O key run) (drain_objs uid objs) (λ _, live O key run).
Proof.
  induction objs as [|obj objs IH]; simpl; [by apply spec_ret|].
  eapply spec_bind; [apply live_ask|]. intros docs. eapply spec_bind; [apply IH|].
  intros more. by apply spec_ret.
Qed.

Lemma live_get_slot key run why :
  spec (live O key run) (get_slot key why) (λ _, live O key run).
Proof.
  eapply spec_bind; [apply steady_gets|]. intros sl. apply spec_lift; [done|by intros e []].
Qed.

Lemma live_pack_save key run name docs assets :
  spec (live O key run) (pack_save_assets key name docs assets) (λ _, live O key run).
Proof.
  unfold pack_save_assets. destruct assets as [|a assets]; [by apply spec_ret|].
  case_match; [apply spec_throw; by intros e []|].
  eapply spec_bind; [apply live_get_slot|]. intros sl.
  destruct (pack_external_assets _ _ _ _ _) as [r reg].
  eapply spec_bind; [apply live_slot_update; intros sl'; by apply follows_same_bundle|].
  intros []. eapply (spec_bind _ _ _ _ _ (λ _, live O key run)).
  - apply spec_lift; [done|by intros e []].
  - intros out. by apply spec_ret.
Qed.

Lemma live_foreign key run d :
  spec (live O key run) (broadcast Foreign d) (λ _, live O key run).
Proof.
  eapply (spec_bind _ _ _ _ _ (λ _, live O key run)).
  - apply spec_modify. intros e He. eapply live_frame; [exact He|by apply own_docs_foreign|done|apply later_refl].
  - intros []. eapply spec_bind; [apply spec_await; [apply _|intros e He; eapply life_ended, live_life, He]|].
    intros t. apply dispatch_live.
Qed.

Lemma handle_save_keeps key : keeps (handle_save key).
Proof.
  unfold handle_save. eapply spec_bind; [apply get_slot_spec|]. intros sl.
  eapply spec_bind; [apply fresh_at|]. intros ud. eapply spec_bind; [apply fresh_at|]. intros ue.
  eapply spec_bind; [apply clock_at|]. intros t.
  pose proof (save_follows ud ue t (sl_bundler sl)) as Hsave.
  destruct (save ud ue t (sl_bundler sl)) as [r b]. destruct Hsave as [Hf Hdocs].
  eapply (spec_bind _ _ _ _ _ (λ _ e, live O key (slot_uid sl) e ∧ sane (bundle (sl_bundler sl)))).
  { intros e He. pose proof (put_bundler_spec key sl b Hf e He) as Hp. unfold wp in *. simpl in *.
    split; [exact Hp|]. destruct He as [He Hs]. by eapply lf_sane. }
  intros []. apply spec_pure_r. intros Hsane. specialize (Hdocs Hsane).
  eapply (spec_bind _ _ _ _ _ (λ docs e, live O key (slot_uid sl) e ∧ r = Ok docs)).
  { apply spec_lift; [done|]. by intros e []. }
  intros docs. apply spec_pure_r. intros Hr. specialize (Hdocs docs Hr).
  eapply spec_bind; [apply live_slot_update; intros sl'; by apply follows_same_bundle|]. intros [].
  eapply spec_bind; [apply steady_gets|]. intros descriptor.
  eapply (spec_bind _ _ _ _ _ (λ _, live O key (slot_uid sl))).
  { destruct descriptor; [apply live_drain_objs|by apply spec_ret]. }
  intros assets. eapply spec_bind; [apply live_pack_save|]. intros packed.
  assert (∀ P `{∀ d, Decision (P d)}, Forall (of_run (slot_uid sl)) (filter P docs)) as Hfilter.
  { intros. apply Forall_forall. intros d [_ Hd]%list_elem_of_filter.
    by eapply (proj1 (Forall_forall _ _)) in Hd. }
  eapply spec_bind; [by apply broadcast_all_spec|]. intros [].
  eapply spec_bind; [apply spec_for_each; intros; apply live_foreign|]. intros [].
  eapply spec_weaken; [by apply broadcast_all_spec|done|]. by intros _ e [].
Qed.

(** *** Collecting *)

Lemma declare_all_keeps key run ds :
  Forall (λ d, ed_run_start d = run) ds →
  spec (live O key run) (for_each (λ d, broadcast Own (DocDescriptor d)) ds) (λ _, live O key run).
Proof.
  intros Hds. apply spec_for_each. intros d Hd. apply broadcast_of_run_spec. simpl.
  by eapply (proj1 (Forall_forall _ _)) in Hds.
Qed.

(** [declare_in] when the run is known. *)
Lemma live_declare_in key run why name objs :
  spec (live O key run) (declare_in key why name objs)
    (λ d e, live O key run e ∧ ed_run_start d = run).
Proof.
  intros e [He (sl & Hs & <-)]. pose proof (declare_in_spec key why name objs e He) as Hd.
  unfold wp in *. destruct (declare_in key why name objs e) as [[d| | | | |] e'] eqn:Heq; try done.
  cut (ed_run_start d = slot_uid sl).
  { intros Hu. by rewrite <-Hu. }
  unfold declare_in, get_slot, mbind, M_bind, gets, expect, lift, fresh, atomic, clock in Heq.
  rewrite Hs in Heq. simpl in Heq. unfold declare_stream in Heq.
  match type of Heq with context [prepare_stream ?u ?t ?n ?os ?b] =>
    pose proof (prepare_stream_follows u t n os b) as Hp;
    destruct (prepare_stream u t n os b) as [d' b'] end.
  unfold mret, M_ret in Heq. simpl in Heq. simplify_eq/=. apply Hp. by eapply lf_sane.
Qed.

Lemma live_declare_missing key run obj config descs :
  spec (live O key run) (declare_missing key obj config descs)
    (λ ds e, live O key run e ∧ Forall (λ d, ed_run_start d = run) ds).
Proof.
  induction descs as [|[name dks] descs IH]; simpl; [by apply spec_ret|].
  eapply spec_bind; [apply live_get_slot|]. intros sl.
  eapply (spec_bind _ _ _ _ _ (λ ds e, live O key run e ∧ Forall (λ d, ed_run_start d = run) ds)).
  { destruct (descriptor_uid name _); [by apply spec_ret|].
    eapply spec_bind; [apply live_declare_in|]. intros d. apply spec_pure_r. intros Hd.
    apply spec_ret. intros e He. split; [done|]. by constructor. }
  intros ds. apply spec_pure_r. intros Hds. eapply spec_bind; [apply IH|].
  intros more. apply spec_pure_r. intros Hmore. apply spec_ret. intros e He.
  split; [done|]. by apply Forall_app.
Qed.

Lemma get_slot_live key why :
  spec (life O) (get_slot key why) (λ sl, live O key (slot_uid sl)).
Proof.
  eapply spec_weaken; [apply get_slot_spec|done|]. intros sl e [He Hs]. split; [done|]. by exists sl.
Qed.

Lemma describe_collect_keeps key obj : keeps (describe_collect key obj).
Proof.
  unfold describe_collect. do 2 (keeps_step; [keeps_auto|]).
  eapply spec_bind; [apply get_slot_live|]. intros sl.
  eapply spec_bind; [apply live_declare_missing|]. intros ds. apply spec_pure_r. intros Hds.
  eapply spec_bind; [by apply declare_all_keeps|]. intros []. apply spec_ret. by intros e [].
Qed.

Lemma collect_assets_keeps key obj stream : keeps (collect_assets key obj stream).
Proof.
  unfold collect_assets. keeps_step; [keeps_auto|]. case_match; [|keeps_auto].
  case_match. keeps_step; [keeps_auto|]. case_match; [keeps_auto|].
  eapply spec_bind; [apply get_slot_spec|]. intros sl.
  match goal with |- context [drain_assets ?s ?ds ?b] =>
    pose proof (drain_assets_follows s ds b) as Hf; destruct (drain_assets s ds b) as [r b'] end.
  eapply spec_bind; [by apply (put_bundler_keeps key sl)|]. intros []. as_keeps. keeps_auto.
Qed.

Lemma compose_event_keeps key why n (data : gmap string Value) (ts : f64 → gmap string f64)
  (k : option Event → M unit) :
  (∀ ev, keeps (k ev)) →
  keeps (sl ← get_slot key why; u ← fresh; t ← clock;
         let '(ev, bd) := event u t n data (ts t) (bundle (sl_bundler sl)) in
         modify (on_bundler key (set_bundle bd));; k ev).
Proof.
  intros Hk. eapply spec_bind; [apply get_slot_spec|]. intros sl.
  eapply spec_bind; [apply fresh_at|]. intros u. eapply spec_bind; [apply clock_at|]. intros t.
  pose proof (follows_event u t n data (ts t) (sl_bundler sl)) as Hf.
  destruct (event _ _ _ _ _ _) as [ev bd].
  eapply (spec_bind _ _ _ _ _ (λ _, life O)); [|intros []; apply Hk].
  by apply (at_slot_update key sl (λ x, set_sl_bundler (set_bundle bd (sl_bundler x)) x)).
Qed.

Lemma collect_event_keeps key stream data ts : keeps (collect_event key stream data ts).
Proof.
  unfold collect_event. apply (compose_event_keeps _ _ _ _ (λ _, ts)
    (λ ev, match ev with
           | None => throw (PlanE "event for unknown stream")
           | Some ev => broadcast Own (DocEvent ev)
           end)).
  intros []; keeps_auto.
Qed.
#[local] Hint Resolve describe_collect_keeps collect_assets_keeps collect_event_keeps : keeps.

Lemma collect_object_keeps key obj name : keeps (collect_object key obj name).
Proof. unfold collect_object. keeps_auto. Qed.

(** *** Monitors *)

Lemma start_monitor_keeps key stream obj : keeps (start_monitor key stream obj).
Proof.
  unfold start_monitor. do 3 (keeps_step; [keeps_auto|]). keeps_step; [|keeps_auto].
  case_match; [keeps_auto|]. apply declare_keeps.
Qed.

Lemma monitored_keeps key obj : keeps (monitored key obj).
Proof. unfold monitored. keeps_auto. Qed.
Lemma default_name_keeps : keeps default_monitor_stream_name.
Proof. unfold default_monitor_stream_name. keeps_auto. Qed.
#[local] Hint Resolve collect_object_keeps start_monitor_keeps monitored_keeps default_name_keeps
  : keeps.

Lemma reset_checkpoint_life e : life O e → life O (on_state reset_checkpoint e).
Proof.
  intros He. eapply life_frame; [exact He|done|done|]. apply later_fmap. intros sl.
  by apply follows_same_bundle.
Qed.
#[local] Hint Resolve reset_checkpoint_life : keeps.

Lemma handle_monitor_keeps key obj name : keeps (handle_monitor key obj name).
Proof. unfold handle_monitor. keeps_auto. Qed.

Lemma flush_all_life (l : list (PumpId * Document)) e :
  life O e → life O (foldl (λ e x, dispatch_subscribers x.2 (log_doc Pump x.2 e)) e l).
Proof.
  revert e. induction l as [|x l IH]; intros e He; [done|]. apply IH.
  eapply life_frame; [exact He| |done|apply later_refl]. by apply (own_docs_foreign Pump x.2 e).
Qed.

Lemma flush_pump_life p e : life O e → life O (flush_pump p e).
Proof. intros He. apply flush_all_life. life_tac. Qed.
#[local] Hint Resolve flush_pump_life : keeps.

Lemma stop_pump_keeps key obj : keeps (stop_pump key obj).
Proof. unfold stop_pump. keeps_auto. Qed.
#[local] Hint Resolve stop_pump_keeps : keeps.

Lemma handle_unmonitor_keeps key obj : keeps (handle_unmonitor key obj).
Proof. unfold handle_unmonitor. keeps_auto. Qed.

(** *** Staging, flying, configuring, checkpoints *)

Lemma handle_stage_keeps obj : keeps (handle_stage obj).
Proof. unfold handle_stage. keeps_auto. Qed.
Lemma handle_unstage_keeps obj : keeps (handle_unstage obj).
Proof. unfold handle_unstage. keeps_auto. Qed.
Lemma handle_set_keeps obj v g : keeps (handle_set obj v g).
Proof. unfold handle_set. keeps_auto. Qed.
Lemma handle_kickoff_keeps key obj g : keeps (handle_kickoff key obj g).
Proof. unfold handle_kickoff. keeps_auto. Qed.

Lemma freshes_at key sl n : spec (at_slot O key sl) (freshes n) (λ _, at_slot O key sl).
Proof.
  induction n as [|n IH]; simpl; [by apply spec_ret|].
  eapply spec_bind; [apply fresh_at|]. intros u. eapply spec_bind; [apply IH|].
  intros us. by apply spec_ret.
Qed.

Lemma reconfigure_keeps key obj config : keeps (reconfigure key obj config).
Proof.
  unfold reconfigure.
  eapply spec_bind; [by apply (spec_gets _ _ _ _ (λ r e, life O e ∧ r = runs (state e) !! key))|].
  intros [sl|]; [|apply spec_ret; by intros e []].
  eapply (spec_weaken _ _ (at_slot O key sl) _ _ (λ _, life O));
    [|intros e [He Hs]; by split|done].
  eapply spec_bind; [apply freshes_at|]. intros us. eapply spec_bind; [apply clock_at|]. intros t.
  set (b := cache_configuration _ _ _).
  assert (follows (sl_bundler sl) b) as Hf by by apply follows_same_bundle.
  eapply (spec_bind _ _ _ _ _ (λ _ e, live O key (slot_uid sl) e ∧ sane (bundle (sl_bundler sl)))).
  { intros e He. pose proof (put_bundler_spec key sl b Hf e He) as Hp. unfold wp in *. simpl in *.
    split; [exact Hp|]. destruct He as [He Hs]. by eapply lf_sane. }
  intros []. apply spec_pure_r. intros Hsane.
  pose proof (compose_reconfigure_run us t (d_name obj) config b Hsane) as Hds.
  eapply spec_bind; [by apply declare_all_keeps|]. intros [].
  apply spec_modify. intros e [He (sl' & Hs' & Hu)].
  eapply life_frame; [exact He|done|done|]. apply later_alter. rewrite Hs'. intros ? [= <-].
  apply install_all_follows. eapply Forall_impl; [exact Hds|]. intros d ->. symmetry. exact Hu.
Qed.
#[local] Hint Resolve reconfigure_keeps : keeps.

Lemma handle_configure_keeps key obj args : keeps (handle_configure key obj args).
Proof. unfold handle_configure. keeps_auto. Qed.

Lemma snapshot_keeps uid st : keeps (snapshot uid st).
Proof. unfold snapshot. keeps_auto. Qed.
#[local] Hint Resolve snapshot_keeps : keeps.

Lemma handle_checkpoint_keeps : keeps handle_checkpoint.
Proof.
  unfold handle_checkpoint. keeps_auto.
Qed.

(** *** Opening and closing *)

Lemma resolve_scan_id_keeps meta m : keeps (resolve_scan_id meta m).
Proof. unfold resolve_scan_id. keeps_auto. Qed.
#[local] Hint Resolve resolve_scan_id_keeps : keeps.

(** The run of a new start document is new. *)
Lemma life_new O' u e :
  life O' e → u = uuid_v4 (uuids e) →
  ∃ o, observe_all (own_docs e) = Some o ∧ u ∉ ob_open o ∪ ob_closed o.
Proof.
  intros [(o & Ho & _ & Hfresh) _ _ _] ->. exists o. split; [done|].
  intros (n & Hn & Heq)%Hfresh. apply (inj uuid_v4) in Heq. lia.
Qed.

Definition unseen (u : string) e : Prop :=
  life O e ∧ (∃ n, n < uuids e ∧ u = uuid_v4 n)
  ∧ ∃ o, observe_all (own_docs e) = Some o ∧ u ∉ ob_open o ∪ ob_closed o.

Lemma fresh_unseen : spec (life O) fresh unseen.
Proof.
  apply spec_atomic. intros e He. simpl.
  split; [life_tac|].
  split; [exists (uuids e); simpl; split; [lia|done]|]. exact (life_new O _ e He eq_refl).
Qed.

Lemma start_document_spec meta :
  spec (life O) (start_document meta) (λ d, unseen (rs_uid d)).
Proof.
  unfold start_document. eapply spec_bind; [apply keeps_gets|]. intros merged.
  eapply spec_bind; [apply resolve_scan_id_keeps|]. intros scan.
  eapply spec_bind; [apply keeps_modify; intros e He; life_tac|]. intros [].
  eapply spec_bind; [apply fresh_unseen|]. intros u.
  eapply spec_bind; [by apply (spec_gets _ _ _ _ (λ _, unseen u))|]. intros t.
  eapply (spec_bind _ _ _ _ _ (λ _, unseen u)).
  { case_match; [apply spec_lift; [done|by intros e []]|by apply spec_ret]. }
  intros []. eapply (spec_bind _ _ _ _ _ (λ _, unseen u)).
  { case_match; [apply spec_lift; [done|by intros e []]|by apply spec_ret]. }
  intros m. by apply spec_ret.
Qed.
End handlers.

Section run_ends.
Context (O : gset string).

(** After the [RunStart] the run is open on the wire and has no slot yet. *)
Lemma life_log_start d e :
  unseen O (rs_uid d) e → life ({[rs_uid d]} ∪ O) (log_doc Own (DocStart d) e).
Proof.
  intros ([(o & Ho & Hopen & Hfresh) Horph Hinj Hsane] & Hn & o' & Ho' & Hu).
  rewrite Ho in Ho'. injection Ho' as <-. split; [|intros key sl Hs|done|done].
  - eexists. rewrite own_docs_own, observe_snoc, Ho. simpl. rewrite decide_False by done.
    split; [done|]. simpl. split.
    + intros u. rewrite elem_of_union, elem_of_singleton, Hopen. set_solver.
    + intros u. rewrite <-(assoc_L (∪)), elem_of_union, elem_of_singleton.
      intros [->|?]; [done|by apply Hfresh].
  - intros [Heq%elem_of_singleton|Ho'']%elem_of_union; [|by eapply Horph].
    apply Hu, elem_of_union. left. apply Hopen. right. eauto.
Qed.

(** The slot adopts it. *)
Lemma life_adopt key d b e :
  runs (state e) !! key = None → rs_uid d ∉ O → start_uid (bundle b) = rs_uid d → sane (bundle b) →
  life ({[rs_uid d]} ∪ O) e →
  life O (on_state (λ s, set_runs (<[key := slot_new b]> (runs s)) s) e).
Proof.
  intros Hk Hd Hb Hsb [(o & Ho & Hopen & Hfresh) Horph Hinj Hsane].
  assert (∀ k sl, runs (state e) !! k = Some sl → slot_uid sl ≠ rs_uid d) as Hne.
  { intros k sl Hs Heq. apply (Horph k sl Hs). rewrite Heq. set_solver. }
  assert (slot_uid (slot_new b) = rs_uid d) as Hnew by done.
  split.
  - exists o. split_and!; [done| |done]. intros u. rewrite Hopen, elem_of_union, elem_of_singleton.
    simpl. split.
    + intros [[->|?]|(k & sl & Hs & <-)]; [right|by left|right].
      * exists key, (slot_new b). by rewrite lookup_insert_eq.
      * exists k, sl. rewrite lookup_insert_ne; [done|congruence].
    + intros [?|(k & sl & Hs & <-)]; [by left; right|].
      apply lookup_insert_Some in Hs as [[_ <-]|[_ Hs]]; [left; left; done|right; eauto].
  - intros k sl. simpl. rewrite lookup_insert_Some. intros [[_ <-]|[_ Hs]]; [by rewrite Hnew|].
    intros Hin. apply (Horph k sl Hs). set_solver.
  - intros k1 k2 sl1 sl2. simpl. rewrite !lookup_insert_Some.
    intros [[<- <-]|[? Hs1]] [[<- <-]|[? Hs2]] Heq; [done| | |by eapply Hinj].
    + exfalso. apply (Hne k2 sl2 Hs2). by rewrite <-Heq.
    + exfalso. apply (Hne k1 sl1 Hs1). by rewrite Heq.
  - intros k sl. simpl. rewrite lookup_insert_Some. intros [[_ <-]|[_ Hs]]; [done|by eapply Hsane].
Qed.

(** Composing the start document touches no run. *)
Lemma start_document_keeps meta st :
  Logic.keeps (λ e, state e = st) (λ e, state e = st) (start_document meta).
Proof. unfold start_document, resolve_scan_id, fresh, clock. keeps_auto. Qed.

Lemma start_document_runs meta e : state (start_document meta e).2 = state e.
Proof.
  pose proof (start_document_keeps meta (state e) e eq_refl) as Hk. unfold wp in Hk.
  by destruct (start_document meta e) as [[]].
Qed.

Definition vacant key e : Prop := runs (state e) !! key = None.

Lemma later_vacant key e e' :
  vacant key e → later (runs (state e)) (runs (state e')) → vacant key e'.
Proof. intros Hk Hl. specialize (Hl key). unfold vacant in *. rewrite Hk in Hl. by inversion Hl. Qed.

Definition opening key (d : RunStart) e : Prop :=
  life ({[rs_uid d]} ∪ O) e ∧ vacant key e.

#[local] Instance opening_steady key d : Steady (opening key d).
Proof.
  split.
  - intros n e [He Hk]. split; [by apply steady_noise|]. destruct (noise_frame n e) as (_ & _ & Hl).
    by eapply later_vacant.
  - intros t e [He Hk]. split; [by apply steady_tick|done].
Qed.

Lemma open_run_keeps key meta : Logic.keeps (life O) ended (open_run key meta).
Proof.
  unfold open_run.
  eapply spec_bind; [by apply (spec_gets _ _ _ _ (λ b e, life O e ∧ b = run_open key (state e)))|].
  intros [|]; [apply spec_throw; by intros e []|].
  eapply (spec_bind _ _ _ _ _ (λ d e, (unseen O (rs_uid d) e ∧ vacant key e) ∧ rs_uid d ∉ O)).
  { intros e [He Hk]. pose proof (start_document_spec O meta e He) as Hd.
    pose proof (start_document_runs meta e) as Hr. unfold wp in *.
    destruct (start_document meta e) as [[d| | | | |] e']; try done. simpl in Hr.
    split; [split; [done|]|].
    - unfold vacant. rewrite Hr. symmetry in Hk. unfold run_open in Hk. bools.
      by apply eq_None_not_Some.
    - destruct Hd as ([(o & Ho & Hopen & _) _ _ _] & _ & o' & Ho' & Hu). simplify_eq.
      intros HO. apply Hu, elem_of_union. left. apply Hopen. by left. }
  intros d. apply spec_pure_r. intros HdO.
  eapply (spec_bind _ _ _ _ _ (λ _, opening key d)).
  { eapply (spec_bind _ _ _ _ _ (λ _, opening key d)).
    - apply spec_modify. intros e [Hu Hk]. split; [by apply life_log_start|done].
    - intros []. eapply spec_bind; [apply spec_await; [apply _|intros e [He _]; by eapply life_ended]|].
      intros t. apply spec_modify. intros e [He Hk]. split; [|done]. life_tac. }
  intros []. eapply spec_bind; [by apply (spec_gets _ _ _ _ (λ _, opening key d))|]. intros record.
  eapply (spec_bind _ _ _ _ _ (λ _, opening key d)).
  { apply spec_atomic. intros e [He Hk]. split; [|done]. simpl. life_tac. }
  intros u. eapply spec_bind; [by apply (spec_gets _ _ _ _ (λ _, opening key d))|]. intros t.
  set (b0 := bundler_new (bundle_open d)).
  assert (sane (bundle b0)) as Hsane by done.
  assert (let '(ds, b) := if record then
            let '(x, b) := declare_stream u t "interruptions" [objectless interruption_keys] b0
            in ([x], b) else ([], b0) in
          follows b0 b ∧ Forall (λ x, ed_run_start x = rs_uid d) ds) as Hb.
  { destruct record; [|done]. unfold declare_stream.
    pose proof (prepare_stream_follows u t "interruptions" [objectless interruption_keys] b0) as Hp.
    destruct (prepare_stream _ _ _ _ b0) as [x b]. destruct Hp as [Hf Hx]. split; [done|].
    constructor; [by apply Hx|done]. }
  destruct (if record then _ else _) as [ds b]. destruct Hb as [Hf Hds].
  eapply (spec_bind _ _ _ _ _ (λ _, live O key (rs_uid d))).
  { apply spec_modify. intros e [He Hk]. split.
    - apply (life_adopt key d); [done|done|by destruct Hf|by apply Hf|done].
    - exists (slot_new b). simpl. rewrite lookup_insert_eq. split; [done|]. by destruct Hf. }
  intros []. eapply spec_bind; [by apply declare_all_keeps|]. intros [].
  apply spec_ret. by intros e [].
Qed.

(** Closing: the slot's run becomes an orphan, then its [RunStop] goes out. *)
Lemma life_remove key sl e :
  life O e → runs (state e) !! key = Some sl →
  life ({[slot_uid sl]} ∪ O) (on_state (λ s, set_runs (delete key (runs s)) s) e).
Proof.
  intros [(o & Ho & Hopen & Hfresh) Horph Hinj Hsane] Hk.
  assert (∀ k sl', delete key (runs (state e)) !! k = Some sl' →
            runs (state e) !! k = Some sl' ∧ slot_uid sl' ≠ slot_uid sl) as Hdel.
  { intros k sl' [Hne Hs]%lookup_delete_Some. split; [done|]. intros Heq. apply Hne.
    symmetry. by eapply Hinj. }
  split; simpl.
  - exists o. split_and!; [done| |done]. intros u.
    rewrite Hopen, elem_of_union, elem_of_singleton. simpl. split.
    + intros [?|(k & sl' & Hs & <-)]; [by left; right|].
      destruct (decide (key = k)) as [<-|Hne].
      * left; left. congruence.
      * right. exists k, sl'. by rewrite lookup_delete_ne.
    + intros [[->|?]|(k & sl' & [Hs _]%Hdel & <-)]; [right|by left|right]; eauto.
  - intros k sl' [Hs Hne]%Hdel. rewrite elem_of_union, elem_of_singleton.
    intros [?|?]; [done|by eapply Horph].
  - intros k1 k2 sl1 sl2 [Hs1 _]%Hdel [Hs2 _]%Hdel. by apply Hinj.
  - intros k sl' [Hs _]%Hdel. by eapply Hsane.
Qed.

Lemma life_log_stop stop e :
  stop_run_start stop ∉ O → life ({[stop_run_start stop]} ∪ O) e →
  life O (log_doc Own (DocStop stop) e).
Proof.
  intros HO [(o & Ho & Hopen & Hfresh) Horph Hinj Hsane]. split; [|intros k sl Hs|done|done].
  - eexists. rewrite own_docs_own, observe_snoc, Ho. simpl.
    rewrite decide_True by (apply Hopen; left; set_solver). split; [done|]. simpl. split.
    + intros u. rewrite elem_of_difference, elem_of_singleton, Hopen, elem_of_union,
        elem_of_singleton. split; [naive_solver|].
      intros [Hu|(k & sl & Hs & <-)].
      * split; [by left; right|]. intros ->. done.
      * split; [eauto|]. intros Heq. apply (Horph k sl Hs). rewrite Heq. set_solver.
    + intros u Hu. apply Hfresh. destruct (decide (u = stop_run_start stop)) as [->|].
      * apply elem_of_union. left. apply Hopen. left. set_solver.
      * set_solver.
  - intros Hin. apply (Horph k sl Hs). set_solver.
Qed.

Lemma close_run_keeps key status why : Logic.keeps (life O) ended (close_run_if_open key status why).
Proof.
  unfold close_run_if_open.
  eapply spec_bind; [by apply (spec_gets _ _ _ _ (λ r e, life O e ∧ r = runs (state e) !! key))|].
  intros [sl|]; [|apply spec_ret; by intros e []].
  eapply (spec_bind _ _ _ _ _ (λ _ e, life ({[slot_uid sl]} ∪ O) e ∧ slot_uid sl ∉ O)).
  { apply spec_modify. intros e [He Hs]. split; [by apply life_remove|]. by eapply lf_orphan. }
  intros []. apply spec_pure_r. intros HO.
  eapply (spec_bind _ _ _ _ _ (λ _, life ({[slot_uid sl]} ∪ O))).
  { apply spec_atomic. intros e He. simpl. life_tac. }
  intros u. eapply spec_bind; [by apply (spec_gets _ _ _ _ (λ _, life ({[slot_uid sl]} ∪ O)))|].
  intros t. destruct (bundle_stop _ _ _ _ _) as [stop|] eqn:Hstop; [|apply spec_panic; apply life_ended].
  assert (stop_run_start stop = slot_uid sl) as Hrun.
  { unfold bundle_stop in Hstop. apply bind_Some in Hstop as (? & _ & [= <-]). done. }
  rewrite <-Hrun in HO |- *.
  eapply (spec_bind _ _ _ _ _ (λ _, life O)); [|intros []; apply snapshot_keeps].
  eapply (spec_bind _ _ _ _ _ (λ _, life O)).
  { apply spec_modify. intros e. by apply life_log_stop. }
  intros []. eapply spec_bind; [apply spec_await; [apply _|apply life_ended]|].
  intros t'. apply spec_modify. intros e He. life_tac.
Qed.
End run_ends.

(** ** Messages and the loop *)

Section loop.
Context `{!PlanSource} (O : gset string).
Notation keeps := (Logic.keeps (life O) ended).
Notation spec := (Logic.spec (life O) ended).

#[local] Hint Resolve fresh_keeps broadcast_foreign_keeps broadcast_event_keeps
  require_run_keeps get_slot_keeps set_result_keeps start_status_keeps wait_group_keeps
  handle_declare_stream_keeps handle_create_keeps handle_drop_keeps handle_read_keeps
  handle_save_keeps collect_object_keeps start_monitor_keeps handle_monitor_keeps
  handle_unmonitor_keeps handle_stage_keeps handle_unstage_keeps handle_set_keeps
  handle_kickoff_keeps handle_configure_keeps handle_checkpoint_keeps open_run_keeps
  close_run_keeps : keeps.

Lemma wait_for_keeps fs t : keeps (wait_for fs t).
Proof. unfold wait_for. keeps_auto. Qed.
Lemma sleep_keeps : keeps sleep.
Proof. unfold sleep. keeps_auto. Qed.
#[local] Hint Resolve wait_for_keeps sleep_keeps : keeps.

Lemma subscribe_life f cb e : life O e → life O (subscribe_filtered f cb e).2.
Proof. intros He. life_tac. Qed.
#[local] Hint Resolve subscribe_life : keeps.

Lemma rewindable_life b e : life O e → life O (on_state (handle_rewindable b) e).
Proof.
  intros He. unfold on_state, handle_rewindable. destruct (Bool.eqb _ _); life_tac.
Qed.
#[local] Hint Resolve rewindable_life : keeps.

Lemma handle_keeps m : keeps (handle m).
Proof.
  unfold handle. keeps_step; [keeps_auto|]. unfold handle_in. destruct a as [key m']; simpl.
  destruct m'; simpl; keeps_auto.
Qed.
#[local] Hint Resolve handle_keeps : keeps.

Lemma record_interruption_keeps content : keeps (record_interruption content).
Proof.
  unfold record_interruption. keeps_auto. unfold record_in.
  apply (compose_event_keeps _ _ _ _ _ (λ t, {["interruption" := t]})
    (λ ev, match ev with Some ev => broadcast Own (DocEvent ev) | None => mret () end)).
  intros []; keeps_auto.
Qed.

Lemma restore_monitors_keeps : keeps restore_monitors.
Proof. unfold restore_monitors. keeps_auto. Qed.

Lemma stop_all_keeps objs : keeps (stop_on_pause_all objs).
Proof. unfold stop_on_pause_all. keeps_auto. Qed.
#[local] Hint Resolve record_interruption_keeps restore_monitors_keeps stop_all_keeps : keeps.

Lemma on_pause_enter_keeps content : keeps (on_pause_enter content).
Proof. unfold on_pause_enter. keeps_auto. Qed.

Lemma arm_replay_life e : life O e → life O (on_state arm_replay e).
Proof.
  intros He. unfold on_state, arm_replay. destruct (msg_cache (state e)) as [|m cache]; [life_tac|].
  eapply life_frame; [exact He|done|done|]. apply later_fmap. intros sl. apply follows_rewind.
Qed.
#[local] Hint Resolve on_pause_enter_keeps arm_replay_life : keeps.

Lemma on_resume_keeps : keeps on_resume.
Proof. unfold on_resume. keeps_auto. Qed.

Lemma next_item_keeps p : keeps (next_item p).
Proof.
  unfold next_item. keeps_step; [keeps_auto|]. keeps_step.
  destruct (plan_next p _ (channel e)) as [[i p'] c]. simpl. life_tac.
Qed.

Lemma answer_plan_keeps : keeps answer_plan.
Proof. unfold answer_plan. keeps_auto. Qed.
#[local] Hint Resolve on_resume_keeps next_item_keeps answer_plan_keeps : keeps.

Lemma run_injected_plan_keeps fuel p : keeps (run_injected_plan fuel p).
Proof. revert p. induction fuel; intros p; simpl; keeps_auto. Qed.
#[local] Hint Resolve run_injected_plan_keeps : keeps.

Lemma run_injected_keeps fuel cb : keeps (run_injected fuel cb).
Proof. destruct cb; simpl; keeps_auto. Qed.

Lemma ack_keeps seen : keeps (ack seen).
Proof.
  unfold ack. keeps_step. destruct (ack_pause seen (control e)). simpl. life_tac.
Qed.

Lemma take_suspension_keeps : keeps take_suspension.
Proof. unfold take_suspension. keeps_auto. Qed.
Lemma park_keeps n : keeps (park n).
Proof. unfold park. keeps_auto. Qed.
#[local] Hint Resolve run_injected_keeps ack_keeps take_suspension_keeps park_keeps : keeps.

Lemma pause_gate_keeps fuel thrown seen : keeps (pause_gate fuel thrown seen).
Proof. revert seen. induction fuel; intros seen; simpl; keeps_auto. Qed.

Lemma take_keeps thrown : keeps (take thrown).
Proof.
  unfold take. keeps_step. destruct (take_interrupt thrown (control e)) as [[r q] c]. simpl. life_tac.
Qed.

Lemma pull_msg_keeps p : keeps (pull_msg p).
Proof.
  unfold pull_msg. keeps_auto. eapply life_frame; [eassumption|done|done|]. simpl.
  destruct (_ && _); apply later_refl.
Qed.

Lemma throw_into_plan_keeps t : keeps (throw_into_plan t).
Proof. unfold throw_into_plan. keeps_auto. Qed.

Lemma backstop_keeps : keeps backstop_collect.
Proof. unfold backstop_collect. keeps_auto. Qed.
#[local] Hint Resolve pause_gate_keeps take_keeps pull_msg_keeps throw_into_plan_keeps
  backstop_keeps : keeps.

Lemma drain_and_close_keeps status why : keeps (drain_and_close status why).
Proof. unfold drain_and_close. keeps_auto. Qed.

Lemma build_result_keeps uids status x : keeps (build_result uids status x).
Proof. unfold build_result. keeps_auto. Qed.
#[local] Hint Resolve drain_and_close_keeps build_result_keeps : keeps.

Lemma handle_msg_keeps thrown seen m : keeps (handle_msg thrown seen m).
Proof.
  unfold handle_msg, throw_kind. destruct m; keeps_auto.
Qed.

(** *** Closing every run *)

Definition slots_in (X : gset (option string)) e : Prop := dom (runs (state e)) ⊆ X.

Lemma later_dom rs rs' : later rs rs' → dom rs' = dom rs.
Proof.
  intros Hl. apply set_eq. intros key. rewrite !elem_of_dom. specialize (Hl key).
  by destruct Hl.
Qed.

#[local] Instance slots_steady X : Steady (slots_in X).
Proof.
  split; [|done]. intros n e He. destruct (noise_frame n e) as (_ & _ & Hl%later_dom).
  unfold slots_in. by rewrite Hl.
Qed.

#[local] Instance true_steady : Steady (λ _, True).
Proof. done. Qed.

Lemma close_run_slots key status why X :
  Logic.spec (λ _, True) (λ _, True) (slots_in ({[key]} ∪ X)) (close_run_if_open key status why)
    (λ _, slots_in X).
Proof.
  unfold close_run_if_open.
  eapply spec_bind; [by apply (spec_gets _ _ _ _ (λ r e, slots_in ({[key]} ∪ X) e ∧ r = runs (state e) !! key))|].
  intros [sl|].
  - eapply (spec_bind _ _ _ _ _ (λ _, slots_in X)).
    { apply spec_modify. intros e [He _]. unfold slots_in in *. simpl. rewrite dom_delete_L. set_solver. }
    intros []. eapply spec_bind; [by apply (fresh_frame_any _ _ (slots_in X))|]. intros u.
    eapply spec_bind; [by apply (spec_gets _ _ _ _ (λ _, slots_in X))|]. intros t.
    destruct (bundle_stop _ _ _ _ _); [|by apply spec_panic].
    eapply (spec_bind _ _ _ _ _ (λ _, slots_in X)).
    { eapply spec_bind; [by apply (spec_modify _ _ _ _ (λ _, slots_in X))|]. intros [].
      eapply spec_bind; [by apply spec_await; [apply _|]|]. intros ?. by apply spec_modify. }
    intros []. unfold snapshot, when. destruct checkpoint_hook; [|by apply spec_ret].
    eapply spec_bind; [by apply (spec_gets _ _ _ _ (λ _, slots_in X))|]. intros t'. by apply spec_modify.
  - apply spec_ret. intros e [He Hk]. unfold slots_in in *. intros k Hin. pose proof (He k Hin).
    apply elem_of_dom in Hin as [sl Hs]. destruct (decide (k = key)) as [->|]; [congruence|set_solver].
Qed.

Lemma close_all keys status why :
  spec (λ e, life O e ∧ slots_in (list_to_set keys) e)
    (for_each (λ key, close_run_if_open key status why) keys) (λ _ e, life O e ∧ runs (state e) = ∅).
Proof.
  induction keys as [|key keys IH]; simpl.
  - apply spec_ret. intros e [He Hd]. split; [done|]. unfold slots_in in Hd.
    apply dom_empty_inv_L. set_solver.
  - eapply (spec_bind _ _ _ _ _ (λ _ e, life O e ∧ slots_in (list_to_set keys) e)); [|intros []; apply IH].
    eapply spec_conj; [apply close_run_keeps|apply close_run_slots].
Qed.

Definition no_runs e : Prop := life O e ∧ runs (state e) = ∅.

Lemma drain_and_close_spec status why :
  spec (life O) (drain_and_close status why) (λ _, no_runs).
Proof.
  unfold drain_and_close. eapply spec_bind; [apply backstop_keeps|]. intros [].
  eapply (spec_bind _ _ _ _ _ (λ keys e, life O e ∧ slots_in (list_to_set keys) e));
    [|intros keys; apply close_all].
  apply spec_gets. intros e He. split; [done|]. unfold slots_in. intros key [sl Hs]%elem_of_dom.
  apply elem_of_list_to_set, list_elem_of_fmap. exists (key, sl). split; [done|].
  by apply elem_of_map_to_list.
Qed.

Lemma build_result_spec uids status x : spec no_runs (build_result uids status x) (λ _, no_runs).
Proof.
  unfold build_result. eapply spec_bind; [by apply (spec_gets _ _ _ _ (λ _, no_runs))|].
  intros c. by apply spec_ret.
Qed.

Lemma end_interrupted_spec uids status :
  spec (life O) (end_interrupted uids status) (λ _, no_runs).
Proof.
  unfold end_interrupted. eapply spec_bind; [apply keeps_gets|]. intros c.
  eapply spec_bind; [apply drain_and_close_spec|]. intros []. apply build_result_spec.
Qed.

Lemma end_thrown_spec uids t : spec (life O) (end_thrown uids t) (λ _, no_runs).
Proof.
  destruct t; simpl; [|apply end_interrupted_spec]. unfold end_failed.
  eapply spec_bind; [apply drain_and_close_spec|]. intros []. apply build_result_spec.
Qed.

Lemma end_of_plan_spec uids : spec (life O) (end_of_plan uids) (λ _, no_runs).
Proof.
  unfold end_of_plan.
  eapply spec_bind; [by apply (spec_gets _ _ _ _ (λ b e, life O e ∧ b = any_run_open (state e)))|].
  intros [|].
  - eapply (spec_bind _ _ _ _ _ (λ _, no_runs)); [|intros []; apply build_result_spec].
    eapply spec_weaken; [apply drain_and_close_spec|by intros e []|done].
  - eapply spec_weaken; [apply build_result_spec| |done]. intros e [He Ha]. split; [done|].
    unfold any_run_open in Ha. symmetry in Ha. bools. by apply dec_stable.
Qed.

Lemma run_loop_spec fuel : ∀ p thrown seen uids,
  spec (life O) (run_loop fuel p thrown seen uids) (λ _, no_runs).
Proof.
  induction fuel as [|fuel IH]; intros p thrown seen uids; simpl; [apply spec_fuel, life_ended|].
  eapply spec_bind; [apply pause_gate_keeps|]. intros seen'.
  eapply spec_bind; [apply take_keeps|]. intros [[[|kind]|] thrown'].
  - apply end_interrupted_spec.
  - eapply spec_bind; [unfold throw_kind; eapply spec_bind; [apply keeps_gets|intros ?; apply keeps_ret]|].
    intros th. eapply spec_bind; [apply throw_into_plan_keeps|].
    intros [|]; [apply IH|apply end_interrupted_spec].
  - eapply spec_bind; [apply pull_msg_keeps|]. intros [[[m responder]|] p']; [|apply end_of_plan_spec].
    eapply spec_bind; [apply handle_msg_keeps|]. intros [[uid| | |t] thrown''].
    + eapply (spec_bind _ _ _ _ _ (λ _, life O)); [|intros []; apply IH].
      apply keeps_when, answer_plan_keeps.
    + apply IH.
    + apply end_interrupted_spec.
    + eapply spec_bind; [apply throw_into_plan_keeps|]. intros [|]; [apply IH|apply end_thrown_spec].
Qed.

(** *** A call of [run_async] *)

Lemma on_control_life f e : life O e → life O (on_control f e).
Proof. intros He. life_tac. Qed.

Lemma bounded_loop_spec fuel p thrown seen :
  Logic.spec ended ended (life O) (bounded_loop fuel p thrown seen)
    (λ r e, match r with Ok _ => no_runs e | Err _ => ended e end).
Proof.
  assert (∀ e, life O e → life O (set_bounded true e)) as Hon by (intros e He; life_tac).
  assert (∀ O' e, life O' e → life O' (set_bounded false e)) as Hoff by (intros O' e He; life_tac).
  intros e He. unfold wp, bounded_loop. destruct loop_timeout as [d|].
  - pose proof (run_loop_spec fuel p thrown seen [] _ (Hon e He)) as Hl. unfold wp in Hl.
    unfold attempt. destruct (run_loop _ _ _ _ _ _) as [[r| | | | |] e'];
      try (destruct Hl as [O' Hl]; exists O'; by apply Hoff).
    + destruct Hl as [Hl Hr]. split; [by apply Hoff|done].
    + exists O. by apply Hoff.
    + destruct Hl as [O' Hl]. exists O'. eapply life_frame; [exact Hl|done|done|apply later_refl].
    + destruct Hl as [O' Hl]. exists O'. eapply life_frame; [exact Hl|done|done|apply later_refl].
  - pose proof (run_loop_spec fuel p thrown seen [] e He) as Hl. unfold wp, attempt in *.
    destruct (run_loop _ _ _ _ _ _) as [[r| | | | |] e']; try done. by eapply life_ended.
Qed.

Definition uids_of e : gset string := list_to_set (slot_uid <$> (map_to_list (runs (state e))).*2).

Lemma elem_of_uids_of u e :
  u ∈ uids_of e ↔ ∃ key sl, runs (state e) !! key = Some sl ∧ slot_uid sl = u.
Proof.
  unfold uids_of. rewrite elem_of_list_to_set, list_elem_of_fmap. split.
  - intros (sl & -> & ([key sl'] & -> & Hs%elem_of_map_to_list)%list_elem_of_fmap). eauto.
  - intros (key & sl & Hs & <-). exists sl. split; [done|]. apply list_elem_of_fmap.
    exists (key, sl). split; [done|]. by apply elem_of_map_to_list.
Qed.

(** Dropping the slots leaves their runs open on the wire. *)
Lemma life_drop O' e e' :
  life O' e → own_docs e' = own_docs e → uuids e' = uuids e → runs (state e') = ∅ →
  life (O' ∪ uids_of e) e'.
Proof.
  intros [(o & Ho & Hopen & Hfresh) _ _ _] Hd Hu Hr. split.
  - exists o. rewrite Hd, Hu. split_and!; [done| |done]. intros u.
    rewrite Hopen, elem_of_union, elem_of_uids_of. split; [tauto|].
    intros [?|(k & sl & Hs & _)]; [done|]. rewrite Hr in Hs. done.
  - intros k sl Hs. by rewrite Hr in Hs.
  - intros k1 k2 sl1 sl2 Hs. by rewrite Hr in Hs.
  - intros k sl Hs. by rewrite Hr in Hs.
Qed.

Lemma undo_keeps s : keeps (undo s).
Proof. unfold undo. keeps_auto. Qed.
End loop.

Section async.
Context `{!PlanSource}.

Lemma clean_up_ended : Logic.spec ended ended ended clean_up (λ _, ended).
Proof.
  intros e [O He].
  pose proof (life_drop O e (on_state forget e) He eq_refl eq_refl eq_refl) as He'.
  pose proof (undo_keeps _ (state e) _ He') as Hr. unfold wp in *.
  change (clean_up e) with (undo (state e) (on_state forget e)).
  destruct (undo _ _) as [[[]| | | | |] e']; try done; by eapply life_ended.
Qed.

(** No slot appears. *)
Lemma undo_slots s X :
  Logic.spec (λ _, True) (λ _, True) (slots_in X) (undo s) (λ _, slots_in X).
Proof.
  eapply (spec_errors (slots_in X) (slots_in X)); [|done..]. as_keeps. unfold undo, stop_on_pause_all.
  assert (Steady (slots_in X)) by apply slots_steady. keeps_auto.
Qed.

Lemma clean_up_no_runs O : Logic.spec ended ended (no_runs O) clean_up (λ _, no_runs O).
Proof.
  intros e [He Hr].
  assert (life O (on_state forget e)) as He'.
  { eapply life_frame; [exact He|done|done|]. simpl. rewrite Hr. apply later_refl. }
  pose proof (spec_conj _ _ _ _ _ _ _ _ _ (undo_keeps O (state e)) (undo_slots (state e) ∅) _
    (conj He' (reflexivity ∅ : slots_in ∅ (on_state forget e)))) as Hk. unfold wp in *.
  change (clean_up e) with (undo (state e) (on_state forget e)).
  destruct (undo _ _) as [[[]| | | | |] e']; try done; try (by eapply life_ended).
  destruct Hk as [Hk Hs]. split; [done|]. apply dom_empty_inv_L. unfold slots_in in Hs. set_solver.
Qed.

Lemma run_async_spec O fuel pps p :
  Logic.spec ended ended (life O) (run_async fuel pps p) (λ _, no_runs O).
Proof.
  assert (∀ {A} (m : M A), Logic.keeps (life O) ended m →
    Logic.spec ended ended (life O) m (λ _, life O)) as Hk.
  { intros A m Hm. eapply spec_errors; [exact Hm|apply life_ended|done]. }
  unfold run_async. eapply spec_bind; [apply Hk, keeps_gets|]. intros [|].
  { apply spec_throw. apply life_ended. }
  eapply spec_bind; [apply Hk, keeps_modify; intros; by apply on_control_life|]. intros [].
  eapply spec_bind; [apply Hk, keeps_gets|]. intros thrown.
  eapply spec_bind; [apply Hk, keeps_modify; intros; by apply on_control_life|]. intros [].
  eapply spec_bind; [apply Hk, keeps_gets|]. intros seen.
  eapply spec_bind; [apply Hk, keeps_modify; intros; life_tac|]. intros [].
  eapply spec_bind; [apply Hk; unfold wait_for_suspenders; keeps_auto|]. intros [].
  eapply spec_bind; [apply bounded_loop_spec|]. intros [r|x].
  - eapply spec_bind; [apply clean_up_no_runs|]. intros []. by apply spec_ret.
  - eapply spec_bind; [apply clean_up_ended|]. intros []. by apply spec_throw.
Qed.

Lemma stage_subs_life O subs e : life O e → life O (stage_subs subs e).
Proof.
  intros He. unfold stage_subs.
  assert (∀ ie : list Z * RunEngine, life O ie.2 →
    life O (foldl (λ ie cb, let '(id, e) := subscribe_filtered FAll cb ie.2 in (ie.1 ++ [id], e))
      ie subs).2) as Hs.
  { induction subs as [|cb subs IH]; intros ie Hie; [done|]. apply IH. simpl. life_tac. }
  specialize (Hs ([], e) He). destruct (foldl _ _ _) as [ids e']. simpl in *. life_tac.
Qed.

Lemma run_async_with_spec O fuel pps p opts :
  Logic.spec ended ended (life O) (run_async_with fuel pps p opts) (λ _, no_runs O).
Proof.
  unfold run_async_with. eapply spec_bind; [by apply (spec_modify _ _ _ _ (λ _, life O)); intros e He; life_tac|].
  intros []. eapply spec_bind; [by apply (spec_modify _ _ _ _ (λ _, life O)), stage_subs_life|].
  intros []. apply run_async_spec.
Qed.

(** ** Theorems *)

Lemma reached_ended e : reached e → ended e.
Proof.
  induction 1 as [e [_ Hst Hd _ _]|e n _ [O He]|e fuel pps p opts _ [O He]].
  - assert (runs (state e) = ∅) as Hr by by rewrite Hst.
    exists ∅. split; [|intros ??; by rewrite Hr|intros ????; by rewrite Hr|intros ??; by rewrite Hr].
    exists (mkObserver ∅ ∅). unfold own_docs. rewrite Hd. split; [done|]. simpl.
    split; [|set_solver]. intros u. split; [set_solver|]. intros [?|(k & sl & Hs & _)]; [set_solver|].
    by rewrite Hr in Hs.
  - exists O. by apply steady_noise.
  - pose proof (run_async_with_spec O fuel pps p opts e He) as Hw. unfold wp in Hw.
    destruct (run_async_with _ _ _ _ _) as [[r| | | | |] e']; try done.
    destruct Hw as [Hw _]. by eapply life_ended.
Qed.

(** C8: Whatever plans an engine runs, whatever its devices answer and however users,
    suspensions and monitors interfere, its documents follow the life cycle of runs:
    every [RunStart] is of a new run, every descriptor and [RunStop] of a run that is
    open, no run is stopped twice. *)
Theorem wire_life_cycle e : reached e → is_Some (observe_all (own_docs e)).
Proof. intros [O [(o & -> & _) _ _ _]]%reached_ended. done. Qed.

(** C9: A call of [run_async] that returns a result leaves no run of its own open: a run
    still open on the wire after it was open before. *)
Theorem finished_call_closes_runs e fuel pps p opts r e' :
  reached e → run_async_with fuel pps p opts e = (Ret r, e') →
  ∃ o o', observe_all (own_docs e) = Some o ∧ observe_all (own_docs e') = Some o'
    ∧ ob_open o' ⊆ ob_open o ∧ runs (state e') = ∅.
Proof.
  intros [O He]%reached_ended Hrun. pose proof (run_async_with_spec O fuel pps p opts e He) as Hw.
  unfold wp in Hw. rewrite Hrun in Hw. destruct Hw as [[(o' & Ho' & Hopen' & _) _ _ _] Hr].
  destruct He as [(o & Ho & Hopen & _) _ _ _]. exists o, o'. split_and!; [done|done| |done].
  intros u [Hu|(k & sl & Hs & _)]%Hopen'; [apply Hopen; by left|]. by rewrite Hr in Hs.
Qed.
End async.
End life.

Module LifeCycleExamples.
Import Sample World.

Definition counted := run_async_with 50 [] count_plan (mkOptions ∅ []) fresh_engine.

Lemma wire_life_cycle_witness :
  length (own_docs counted.2) = 4 ∧ is_Some (observe_all (own_docs counted.2)).
Proof.
  split; [by vm_compute|]. apply wire_life_cycle. apply reached_run. exact fresh_reached.
Defined.

(** The exit status of a finished call. *)
Definition ended_with (o : Out RunResult) : string :=
  match o with Ret r => exit_status r | _ => "" end.

Lemma ended_with_ret o status : ended_with o = status → status ≠ "" → ∃ r, o = Ret r.
Proof. destruct o as [r| | | | |]; simpl; intros <- Hne; try done. by exists r. Qed.

Lemma counted_success : ended_with counted.1 = "success".
Proof. by vm_compute. Qed.

Lemma finished_call_closes_runs_witness :
  ended_with counted.1 = "success" ∧
  ∃ o', observe_all (own_docs counted.2) = Some o' ∧ ob_open o' ⊆ ∅ ∧ runs (state counted.2) = ∅.
Proof.
  split; [exact counted_success|].
  destruct (ended_with_ret _ _ counted_success ltac:(done)) as [r Hr].
  destruct (finished_call_closes_runs fresh_engine 50 [] count_plan (mkOptions ∅ []) r counted.2
    fresh_reached) as (o & o' & Ho & Ho' & Hsub & Hruns).
  - rewrite <- Hr. exact (surjective_pairing counted).
  - exists o'. split_and!; [done| |done]. change (Some (mkObserver ∅ ∅) = Some o) in Ho.
    by injection Ho as <-.
Defined.
End LifeCycleExamples.
