(* ===== verification/Steps.v ===== *)
(** * The steps of the message handlers

    Every handler, however it ends, is a sequence of primitive steps. An invariant
    of the steps is an invariant of [handle], so a property of the whole engine that
    is one needs no walk through the message table. *)

From S2P Require Import Prelude Interfaces Errors Control Documents Compose Bundler Assets.
From S2P Require Import Device Machine Logic Handle RunLoop.

Section steps.
Context `{JsonNumber, !TextFormat, !UuidSource, !Schedule, !Hooks}.
Implicit Types (e : RunEngine) (key : option string) (obj : Device).

(** A step that touches neither the control plane, the devices, the register of
    staged and moved devices, the rewind cache nor the clock. *)
Record same_core e e' : Prop := {
  sc_control : control e' = control e;
  sc_calls : calls e' = calls e;
  sc_tick : tick e' = tick e;
  sc_bounded : bounded e' = bounded e;
  sc_staged : staged (state e') = staged (state e);
  sc_movable : movable_objs_touched (state e') = movable_objs_touched (state e);
  sc_flyable : flyable_objs_touched (state e') = flyable_objs_touched (state e);
  sc_cache : msg_cache (state e') = msg_cache (state e);
  sc_replay : replay_queue (state e') = replay_queue (state e);
  sc_rewindable : rewindable (state e') = rewindable (state e);
  sc_per_call : per_call_md e' = per_call_md e;
  sc_temp : staged_temp_subs e' = staged_temp_subs e;
}.

(** Calls that start nothing the engine has to undo. *)
Definition plain_call (c : Call) : bool :=
  match c with CSet _ _ | CStage _ | CUnstage _ | CKickoff _ => false | _ => true end.

(** Which of the steps that pause are included: [Checkpoints], those of a checkpoint, which
    pauses when a pause was deferred to it; [Defers], those of a message that defers one;
    [Pauses], all. *)
Inductive Level := Checkpoints | Defers | Pauses.

(** A message whose handler takes no other steps. *)
Fixpoint allowed (p : Level) (m : Msg) : bool :=
  match m with
  | InRun _ inner => allowed p inner
  | Checkpoint => match p with Defers => false | _ => true end
  | Pause true => match p with Checkpoints => false | _ => true end
  | Pause false => match p with Pauses => true | _ => false end
  | _ => true
  end.

Lemma all_allowed m : allowed Pauses m = true.
Proof. induction m; try done. by destruct defer. Qed.

Inductive hstep (pausing : Level) : RunEngine → RunEngine → Prop :=
| hs_core e e' : same_core e e' → hstep pausing e e'
| hs_await e : hstep pausing e (await_step e)
| hs_call c e : plain_call c = true → hstep pausing e (log_call c e)
| hs_stage obj e :
    hstep pausing e (on_state (λ s, reset_checkpoint (stage_obj obj s)) (log_call (CStage (d_ptr obj)) e))
| hs_unstage obj e :
    hstep pausing e (on_state (λ s, reset_checkpoint (unstage_obj obj s)) (log_call (CUnstage (d_ptr obj)) e))
| hs_set obj v e : hstep pausing e (log_call (CSet (d_name obj) v) (on_state (touch_movable obj) e))
| hs_kickoff obj e : hstep pausing e (log_call (CKickoff (d_name obj)) (on_state (touch_flyable obj) e))
| hs_reset e e' : same_core (on_state (set_msg_cache []) e) e' → hstep pausing e e'
| hs_checkpoint e e' :
    same_core (on_state (λ s, set_rewindable true (set_msg_cache [] s)) e) e' → hstep pausing e e'
| hs_clear e e' :
    same_core (on_state (λ s, set_rewindable false (set_msg_cache [] s)) e) e' → hstep pausing e e'
| hs_resume e : hstep pausing e (on_control resume e)
| hs_defer e : allowed pausing (Pause true) = true → hstep pausing e (on_control (pause true) e)
| hs_pause e : allowed pausing (Pause false) = true → hstep pausing e (on_control (pause false) e)
| hs_deferred e : allowed pausing Checkpoint = true → hstep pausing e (on_control apply_deferred e).

Definition hsteps (pausing : Level) : RunEngine → RunEngine → Prop := rtc (hstep pausing).

Lemma hsteps_core p e0 e e' : hsteps p e0 e → same_core e e' → hsteps p e0 e'.
Proof. intros He Hs. eapply rtc_r; [exact He|by apply hs_core]. Qed.

Lemma hsteps_call p e0 c e : plain_call c = true → hsteps p e0 e → hsteps p e0 (log_call c e).
Proof. intros Hc He. eapply rtc_r; [exact He|by apply hs_call]. Qed.

#[global] Instance hsteps_awaits p e0 : Awaits (hsteps p e0).
Proof. intros e He. eapply rtc_r; [exact He|apply hs_await]. Qed.

Section handlers.
Context (p : Level) (e0 : RunEngine).
Notation keeps := (Logic.keeps (hsteps p e0) (hsteps p e0)).

Ltac core_tac := eapply hsteps_core; [eassumption|by split].
#[local] Hint Extern 2 (hsteps _ _ _) => solve [core_tac] : keeps.
Ltac step_tac :=
  eapply rtc_r; [eassumption|];
  first [ by apply hs_core | by apply hs_stage | by apply hs_unstage | by apply hs_set
        | by apply hs_kickoff | by apply hs_reset | by apply hs_checkpoint | by apply hs_clear
        | by apply hs_resume | by apply hs_defer | by apply hs_pause | by apply hs_deferred ].
#[local] Hint Extern 2 (hsteps _ _ _) => solve [step_tac] : keeps.
#[local] Hint Extern 2 (hsteps _ _ _) => apply hsteps_call; [done|] : keeps.
#[local] Hint Extern 1 (∀ e, hsteps _ _ e → hsteps _ _ e) => (intros ??; assumption) : keeps.

Lemma fresh_steps : keeps fresh.
Proof. unfold fresh. keeps_auto. Qed.
Lemma freshes_steps n : keeps (freshes n).
Proof. induction n; simpl; keeps_auto; apply fresh_steps. Qed.
Lemma broadcast_steps o d : keeps (broadcast o d).
Proof. unfold broadcast. keeps_auto. Qed.
Lemma set_result_steps r : keeps (set_result r).
Proof. unfold set_result. keeps_auto. Qed.
Lemma get_slot_steps key why : keeps (get_slot key why).
Proof. unfold get_slot. keeps_auto. Qed.
Lemma require_run_steps key why : keeps (require_run key why).
Proof. unfold require_run. keeps_auto. Qed.
Lemma put_bundler_steps key b : keeps (put_bundler key b).
Proof. unfold put_bundler. keeps_auto. Qed.
#[local] Hint Resolve fresh_steps freshes_steps broadcast_steps set_result_steps get_slot_steps
  require_run_steps put_bundler_steps : keeps.

Lemma configuration_steps c : keeps (read_object_configuration c).
Proof. unfold read_object_configuration. keeps_auto. Qed.
#[local] Hint Resolve configuration_steps : keeps.
Lemma ensure_configuration_steps key obj : keeps (ensure_object_configuration key obj).
Proof. unfold ensure_object_configuration. keeps_auto. Qed.
#[local] Hint Resolve ensure_configuration_steps : keeps.
Lemma stream_object_steps key obj dks : keeps (stream_object key obj dks).
Proof. unfold stream_object. keeps_auto. Qed.
#[local] Hint Resolve stream_object_steps : keeps.
Lemma handle_status_steps st g : keeps (handle_status st g).
Proof. unfold handle_status. keeps_auto. Qed.
#[local] Hint Resolve handle_status_steps : keeps.
Lemma start_status_steps st g : keeps (start_status st g).
Proof. unfold start_status. keeps_auto. Qed.
#[local] Hint Resolve start_status_steps : keeps.
Lemma wait_group_steps g b t : keeps (wait_group g b t).
Proof. unfold wait_group. keeps_auto. Qed.
#[local] Hint Resolve wait_group_steps : keeps.
Lemma wait_for_steps fs t : keeps (wait_for fs t).
Proof. unfold wait_for. keeps_auto. Qed.
#[local] Hint Resolve wait_for_steps : keeps.
Lemma sleep_steps : keeps (sleep).
Proof. unfold sleep. keeps_auto. Qed.
#[local] Hint Resolve sleep_steps : keeps.
Lemma collect_keys_steps name obj : keeps (collect_keys name obj).
Proof. unfold collect_keys. keeps_auto. Qed.
#[local] Hint Resolve collect_keys_steps : keeps.
Lemma describe_objs_steps key objs d : (∀ obj, keeps (d obj)) → keeps (describe_objs key objs d).
Proof. intros Hd. induction objs; simpl; keeps_auto. Qed.
#[local] Hint Resolve describe_objs_steps : keeps.
Lemma describe_stream_objs_steps key name objs : keeps (describe_stream_objs key name objs).
Proof. destruct objs; apply describe_objs_steps; keeps_auto. Qed.
#[local] Hint Resolve describe_stream_objs_steps : keeps.
Lemma declare_in_steps key why name objs : keeps (declare_in key why name objs).
Proof. unfold declare_in. keeps_auto. Qed.
#[local] Hint Resolve declare_in_steps : keeps.
Lemma handle_declare_stream_steps key name objs : keeps (handle_declare_stream key name objs).
Proof. unfold handle_declare_stream. keeps_auto. Qed.
#[local] Hint Resolve handle_declare_stream_steps : keeps.
Lemma handle_create_steps key name : keeps (handle_create key name).
Proof. unfold handle_create. keeps_auto. Qed.
#[local] Hint Resolve handle_create_steps : keeps.
Lemma handle_drop_steps key : keeps (handle_drop key).
Proof. unfold handle_drop. keeps_auto. Qed.
#[local] Hint Resolve handle_drop_steps : keeps.
Lemma handle_read_steps key obj : keeps (handle_read key obj).
Proof. unfold handle_read. keeps_auto. Qed.
#[local] Hint Resolve handle_read_steps : keeps.
Lemma drain_objs_steps uid objs : keeps (drain_objs uid objs).
Proof. induction objs; simpl; keeps_auto. Qed.
#[local] Hint Resolve drain_objs_steps : keeps.
Lemma pack_save_steps key name docs assets : keeps (pack_save_assets key name docs assets).
Proof. unfold pack_save_assets. keeps_auto. Qed.
#[local] Hint Resolve pack_save_steps : keeps.
Lemma handle_save_steps key : keeps (handle_save key).
Proof. unfold handle_save. keeps_auto. Qed.
#[local] Hint Resolve handle_save_steps : keeps.
Lemma declare_missing_steps key obj config descs : keeps (declare_missing key obj config descs).
Proof. revert config. induction descs as [|[name dks] descs]; intros config; simpl; keeps_auto. Qed.
#[local] Hint Resolve declare_missing_steps : keeps.
Lemma describe_collect_steps key obj : keeps (describe_collect key obj).
Proof. unfold describe_collect. keeps_auto. Qed.
#[local] Hint Resolve describe_collect_steps : keeps.
Lemma collect_assets_steps key obj stream : keeps (collect_assets key obj stream).
Proof. unfold collect_assets. keeps_auto. Qed.
#[local] Hint Resolve collect_assets_steps : keeps.
Lemma collect_event_steps key stream data ts : keeps (collect_event key stream data ts).
Proof. unfold collect_event. keeps_auto. Qed.
#[local] Hint Resolve collect_event_steps : keeps.
Lemma collect_object_steps key obj name : keeps (collect_object key obj name).
Proof. unfold collect_object. keeps_auto. Qed.
#[local] Hint Resolve collect_object_steps : keeps.
Lemma start_monitor_steps key stream obj : keeps (start_monitor key stream obj).
Proof. unfold start_monitor. keeps_auto. Qed.
#[local] Hint Resolve start_monitor_steps : keeps.
Lemma monitored_steps key obj : keeps (monitored key obj).
Proof. unfold monitored. keeps_auto. Qed.
#[local] Hint Resolve monitored_steps : keeps.
Lemma monitor_name_steps : keeps (default_monitor_stream_name).
Proof. unfold default_monitor_stream_name. keeps_auto. Qed.
#[local] Hint Resolve monitor_name_steps : keeps.
Lemma handle_monitor_steps key obj name : keeps (handle_monitor key obj name).
Proof. unfold handle_monitor. keeps_auto. Qed.
#[local] Hint Resolve handle_monitor_steps : keeps.

(** The events a stopped pump had in flight. *)
Lemma flush_pump_core pid e : same_core e (flush_pump pid e).
Proof.
  unfold flush_pump. set (e1 := set_inflight _ e). assert (same_core e e1) as Hs by by split.
  clearbody e1. revert e1 Hs. induction (filter _ (inflight e)) as [|x l IH]; intros e2 Hs; simpl; [done|].
  apply IH. destruct Hs. by split.
Qed.
Lemma stop_pump_steps key obj : keeps (stop_pump key obj).
Proof.
  unfold stop_pump. keeps_auto. eapply hsteps_core; [eassumption|apply flush_pump_core].
Qed.
#[local] Hint Resolve stop_pump_steps : keeps.
Lemma handle_unmonitor_steps key obj : keeps (handle_unmonitor key obj).
Proof. unfold handle_unmonitor. keeps_auto. Qed.
Lemma handle_stage_steps obj : keeps (handle_stage obj).
Proof. unfold handle_stage. keeps_auto. Qed.
Lemma handle_unstage_steps obj : keeps (handle_unstage obj).
Proof. unfold handle_unstage. keeps_auto. Qed.
Lemma handle_set_steps obj v g : keeps (handle_set obj v g).
Proof. unfold handle_set. keeps_auto. Qed.
Lemma handle_kickoff_steps key obj g : keeps (handle_kickoff key obj g).
Proof. unfold handle_kickoff. keeps_auto. Qed.
Lemma reconfigure_steps key obj config : keeps (reconfigure key obj config).
Proof. unfold reconfigure. keeps_auto. Qed.
#[local] Hint Resolve reconfigure_steps : keeps.
Lemma handle_configure_steps key obj args : keeps (handle_configure key obj args).
Proof. unfold handle_configure. keeps_auto. Qed.
Lemma snapshot_steps uid st : keeps (snapshot uid st).
Proof. unfold snapshot. keeps_auto. Qed.
#[local] Hint Resolve snapshot_steps : keeps.
Lemma handle_checkpoint_steps : allowed p Checkpoint = true → keeps handle_checkpoint.
Proof. intros Hp. unfold handle_checkpoint. keeps_auto. Qed.
Lemma resolve_scan_id_steps meta m : keeps (resolve_scan_id meta m).
Proof. unfold resolve_scan_id. keeps_auto. Qed.
#[local] Hint Resolve resolve_scan_id_steps : keeps.
Lemma start_document_steps meta : keeps (start_document meta).
Proof. unfold start_document. keeps_auto. Qed.
#[local] Hint Resolve start_document_steps : keeps.
Lemma open_run_steps key meta : keeps (open_run key meta).
Proof. unfold open_run. keeps_auto. Qed.
Lemma close_run_steps key status why : keeps (close_run_if_open key status why).
Proof. unfold close_run_if_open. keeps_auto. Qed.
#[local] Hint Resolve handle_unmonitor_steps handle_stage_steps handle_unstage_steps
  handle_set_steps handle_kickoff_steps handle_configure_steps open_run_steps
  close_run_steps : keeps.

Lemma subscribe_core f cb e : same_core e (subscribe_filtered f cb e).2.
Proof. by split. Qed.
Lemma rewindable_steps b e : hsteps p e0 e → hsteps p e0 (on_state (handle_rewindable b) e).
Proof.
  intros He. eapply rtc_r; [exact He|]. unfold on_state, handle_rewindable.
  destruct (Bool.eqb _ _) eqn:Hb; [by apply hs_core|].
  destruct b; [by apply hs_checkpoint|by apply hs_clear].
Qed.
#[local] Hint Resolve rewindable_steps : keeps.

(** A handler is a sequence of the steps its message is allowed. *)
Lemma handle_steps m : allowed p m = true → keeps (handle m).
Proof.
  intros Hp. unfold handle. destruct (route m) as [[key m']|x] eqn:Hr; [|apply keeps_throw].
  assert (allowed p m' = true) as Hp'.
  { destruct m; try (injection Hr as <- <-; exact Hp). destruct m; try discriminate Hr;
      injection Hr as <- <-; exact Hp. }
  clear m Hr Hp. change (keeps (handle_in key m')). unfold handle_in.
  destruct m'; try destruct defer; keeps_auto. by apply handle_checkpoint_steps.
Qed.
#[local] Hint Resolve all_allowed handle_steps : keeps.

(** *** The parts of the loop that are handlers' steps too *)

Lemma record_interruption_steps content : keeps (record_interruption content).
Proof. unfold record_interruption, record_in. keeps_auto. Qed.
Lemma restore_monitors_steps : keeps restore_monitors.
Proof. unfold restore_monitors. keeps_auto. Qed.
Lemma stop_all_steps objs : keeps (stop_on_pause_all objs).
Proof. unfold stop_on_pause_all. keeps_auto. Qed.
#[local] Hint Resolve record_interruption_steps restore_monitors_steps stop_all_steps : keeps.
Lemma on_pause_enter_steps content : keeps (on_pause_enter content).
Proof. unfold on_pause_enter. keeps_auto. Qed.
(** What a resume does after the rewind. *)
Lemma resume_steps : keeps
  (s ← gets state;
   for_each (λ obj, modify (log_call (CResume (d_name obj)));; ignore (ask_ok (resume_dyn obj)))
     (values (pausables s));;
   restore_monitors;;
   record_interruption "resume").
Proof. keeps_auto. Qed.
Lemma backstop_steps : keeps backstop_collect.
Proof. unfold backstop_collect. keeps_auto. Qed.
#[local] Hint Resolve backstop_steps : keeps.
Lemma drain_and_close_steps status why : keeps (drain_and_close status why).
Proof. unfold drain_and_close. keeps_auto. Qed.
Lemma build_result_steps uids status x : keeps (build_result uids status x).
Proof. unfold build_result. keeps_auto. Qed.
#[local] Hint Resolve drain_and_close_steps build_result_steps : keeps.
Lemma end_of_plan_steps uids : keeps (end_of_plan uids).
Proof. unfold end_of_plan. keeps_auto. Qed.
Lemma end_interrupted_steps uids status : keeps (end_interrupted uids status).
Proof. unfold end_interrupted. keeps_auto. Qed.
Lemma end_thrown_steps uids t : keeps (end_thrown uids t).
Proof. unfold end_thrown, end_interrupted, end_failed. destruct t; keeps_auto. Qed.
Lemma answer_plan_steps : keeps answer_plan.
Proof. unfold answer_plan. keeps_auto. Qed.
Context `{!PlanSource}.
Lemma next_item_steps q : keeps (next_item q).
Proof.
  unfold next_item. keeps_step; [keeps_auto|]. keeps_step.
  destruct (plan_next q _ (channel e)) as [[i q'] c]. simpl. core_tac.
Qed.
End handlers.

(** An invariant of the steps is an invariant of what they are the steps of. *)
Lemma steps_keep p (I : RunEngine → Prop) {A} (m : M A) :
  (∀ e e', I e → hstep p e e' → I e') →
  (∀ e0, Logic.keeps (hsteps p e0) (hsteps p e0) m) → Logic.keeps I I m.
Proof.
  intros HI Hm e He.
  assert (∀ e', hsteps p e e' → I e') as Hc.
  { intros e' Hs. revert He. induction Hs as [|e1 e2 e3 Hs _ IH]; intros He; [done|]. by eapply IH, HI. }
  specialize (Hm e e ltac:(constructor)). unfold wp in *.
  destruct (m e) as [[a| | | | |] e']; by apply Hc.
Qed.

(** What other tasks leave alone. *)
Definition unattended e e' : Prop :=
  calls e' = calls e ∧ bounded e' = bounded e ∧ staged (state e') = staged (state e)
  ∧ movable_objs_touched (state e') = movable_objs_touched (state e)
  ∧ flyable_objs_touched (state e') = flyable_objs_touched (state e)
  ∧ msg_cache (state e') = msg_cache (state e) ∧ replay_queue (state e') = replay_queue (state e)
  ∧ rewindable (state e') = rewindable (state e)
  ∧ is_running (ctl (control e')) = is_running (ctl (control e)).

Lemma noise_state n e : unattended e (noise_step n e).
Proof.
  unfold unattended. destruct n; try by split_and!.
  - destruct defer; by split_and!.
  - simpl. unfold sigint. repeat case_match; by split_and!.
  - simpl. unfold release. repeat case_match; by split_and!.
  - simpl. unfold pump_compose. destruct (runs (state e) !! key) as [sl|]; [|by split_and!].
    destruct (sl_monitor_tasks sl !! obj) as [task|]; [|by split_and!].
    case_match; [by split_and!|]. simpl.
    destruct (event _ _ _ _ _ _) as [[ev|] bd]; by split_and!.
  - simpl. unfold pump_deliver. case_match; by split_and!.
Qed.

Lemma await_state e : unattended e (await_step e).
Proof.
  unfold await_step. change (unattended e (noise_steps (noise (tick e)) e)).
  generalize (noise (tick e)) as ns. intros ns. revert e.
  induction ns as [|n ns IH]; intros e; [by split_and!|].
  change (unattended e (noise_steps ns (noise_step n e))).
  destruct (IH (noise_step n e)) as (Hc&Hb&Hs&Hm&Hf&Hq&Hr&Hw&Hi). unfold unattended.
  rewrite Hc, Hb, Hs, Hm, Hf, Hq, Hr, Hw, Hi. apply noise_state.
Qed.

(** The options of a call: its subscribers are there, the rest is as it was. *)
Lemma stage_subs_spec subs e :
  let e' := stage_subs subs e in
  (calls e' = calls e ∧ bounded e' = bounded e ∧ state e' = state e ∧ control e' = control e
   ∧ tick e' = tick e ∧ per_call_md e' = per_call_md e)
  ∧ subscribers e ⊆ subscribers e'
  ∧ (∀ cb, cb ∈ subs → ∃ id, (id, FAll, cb) ∈ subscribers e').
Proof.
  unfold stage_subs.
  assert (∀ ids e0, let e' := (foldl (λ ie cb, let '(id, e) := subscribe_filtered FAll cb ie.2 in
                      (ie.1 ++ [id], e)) (ids, e0) subs).2 in
    (calls e' = calls e0 ∧ bounded e' = bounded e0 ∧ state e' = state e0 ∧ control e' = control e0
     ∧ tick e' = tick e0 ∧ per_call_md e' = per_call_md e0)
    ∧ subscribers e0 ⊆ subscribers e'
    ∧ (∀ cb, cb ∈ subs → ∃ id, (id, FAll, cb) ∈ subscribers e')) as Hf.
  { induction subs as [|cb subs IH]; intros ids e0; simpl; [split_and!; [done..|set_solver]|].
    set (id := wrap64 (sub_counter e0 + 1)).
    destruct (IH (ids ++ [id]) (subscribe_filtered FAll cb e0).2) as (Hsame & Hsub & Hin). simpl in *.
    split; [exact Hsame|]. split; [set_solver|].
    intros c [->|Hc]%elem_of_cons; [exists id; apply Hsub; set_solver|by apply Hin]. }
  specialize (Hf [] e). by destruct (foldl _ _ _).
Qed.

(** ** Invariants of the run loop *)

Lemma hstep_bounded p e e' : hstep p e e' → bounded e' = bounded e.
Proof.
  destruct 1 as [e e' []|e|c e Hc|obj e|obj e|obj v e|obj e|e e' []|e e' []|e e' []|e|e|e|e];
    try done.
  by destruct (await_state e) as (_ & -> & _).
Qed.

(** What the loop does besides its handlers' steps: the rewind cache, the replay queue,
    the control plane. *)
Class LoopInv (I : RunEngine → Prop) := {
  li_step e e' : I e → hstep Pauses e e' → I e';
  li_push m e : is_cacheable m = true → I e →
    I (on_state (λ s, set_msg_cache (msg_cache s ++ [m]) s) e);
  li_pop m q e : replay_queue (state e) = m :: q → I e → I (on_state (set_replay_queue q) e);
  li_arm e : I e → I (on_state arm_replay e);
  li_clear e : I e → I (on_state (set_replay_queue []) e);
  li_control f e : I e → I (on_control f e);
}.

Section loop.
Context `{!PlanSource} (I : RunEngine → Prop) `{!LoopInv I}.
Notation keeps := (Logic.keeps I I).

Lemma inv_steps {A} (m : M A) :
  (∀ e0, Logic.keeps (hsteps Pauses e0) (hsteps Pauses e0) m) → keeps m.
Proof. apply steps_keep, li_step. Qed.

#[local] Instance inv_awaits : Awaits I.
Proof. intros e He. eapply li_step; [exact He|apply hs_await]. Qed.

Lemma inv_core e e' : I e → same_core e e' → I e'.
Proof. intros He Hs. eapply li_step; [exact He|by apply hs_core]. Qed.
Lemma inv_call c e : plain_call c = true → I e → I (log_call c e).
Proof. intros Hc He. eapply li_step; [exact He|by apply hs_call]. Qed.

#[local] Hint Resolve all_allowed handle_steps record_interruption_steps restore_monitors_steps
  stop_all_steps on_pause_enter_steps drain_and_close_steps build_result_steps
  end_of_plan_steps end_interrupted_steps end_thrown_steps answer_plan_steps
  next_item_steps : keeps.
#[local] Hint Extern 3 (Logic.keeps I I _) =>
  (apply inv_steps; intros ?; solve [eauto with keeps]) : keeps.
#[local] Hint Extern 1 (∀ e, I e → I e) => (intros ??; assumption) : keeps.
#[local] Hint Extern 2 (I (log_call _ _)) => (apply inv_call; [done|assumption]) : keeps.
#[local] Hint Extern 3 (I _) => (eapply inv_core; [eassumption|by split]) : keeps.
Lemma inv_control f e : I e → I (on_control f e).
Proof. apply li_control. Qed.
Lemma inv_arm e : I e → I (on_state arm_replay e).
Proof. apply li_arm. Qed.
Lemma inv_clear e : I e → I (on_state (set_replay_queue []) e).
Proof. apply li_clear. Qed.
#[local] Hint Resolve inv_control inv_arm inv_clear : keeps.

Lemma run_injected_plan_inv fuel p : keeps (run_injected_plan fuel p).
Proof. revert p. induction fuel; intros p; simpl; keeps_auto. Qed.
#[local] Hint Resolve run_injected_plan_inv : keeps.

Lemma run_injected_inv fuel cb : keeps (run_injected fuel cb).
Proof. destruct cb; simpl; keeps_auto. Qed.

Lemma ack_inv seen : keeps (ack seen).
Proof.
  unfold ack. keeps_step. destruct (ack_pause seen (control e)) as [s c]. by apply (li_control (λ _, c)).
Qed.

Lemma take_suspension_inv : keeps take_suspension.
Proof. unfold take_suspension. keeps_auto. Qed.
Lemma park_inv n : keeps (park n).
Proof. unfold park. keeps_auto. Qed.

Lemma on_resume_inv : keeps on_resume.
Proof. unfold on_resume. keeps_auto. Qed.
#[local] Hint Resolve run_injected_inv ack_inv take_suspension_inv park_inv
  on_resume_inv : keeps.

Lemma pause_gate_inv fuel thrown seen : keeps (pause_gate fuel thrown seen).
Proof. revert seen. induction fuel; intros seen; simpl; keeps_auto. Qed.

Lemma take_inv thrown : keeps (take thrown).
Proof.
  unfold take. keeps_step. destruct (take_interrupt thrown (control e)) as [[r q] c].
  by apply (li_control (λ _, c)).
Qed.

Lemma pull_msg_inv p : keeps (pull_msg p).
Proof.
  unfold pull_msg. eapply (spec_bind _ _ _ _ _ (λ q e, replay_queue (state e) = q ∧ I e)).
  { by apply spec_gets. }
  intros [|m q].
  - eapply (spec_weaken _ _ I _ _ (λ _, I)); [|by intros e []|done]. as_keeps. keeps_auto. unfold on_state.
    destruct (rewindable (state e)); [|eapply li_step; [eassumption|by apply hs_core]]. simpl.
    destruct (is_cacheable m) eqn:Hc; [|eapply li_step; [eassumption|by apply hs_core]].
    apply li_push; [by rewrite clone_cacheable|done].
  - eapply (spec_bind _ _ _ _ _ (λ _, I)); [|intros ?; by apply spec_ret].
    apply spec_modify. intros e [Hq He]. by eapply li_pop.
Qed.

Lemma throw_into_plan_inv t : keeps (throw_into_plan t).
Proof. unfold throw_into_plan. keeps_auto. Qed.
#[local] Hint Resolve pause_gate_inv take_inv pull_msg_inv throw_into_plan_inv : keeps.

Lemma handle_msg_inv thrown seen m : keeps (handle_msg thrown seen m).
Proof. unfold handle_msg, throw_kind. destruct m; keeps_auto. Qed.
#[local] Hint Resolve handle_msg_inv : keeps.

Lemma run_loop_inv fuel p thrown seen uids : keeps (run_loop fuel p thrown seen uids).
Proof. revert p thrown seen uids. induction fuel; intros; simpl; unfold throw_kind; keeps_auto. Qed.
#[local] Hint Resolve run_loop_inv : keeps.

End loop.
End steps.

#[export] Hint Resolve all_allowed handle_steps record_interruption_steps restore_monitors_steps
  stop_all_steps on_pause_enter_steps drain_and_close_steps build_result_steps
  end_of_plan_steps end_interrupted_steps end_thrown_steps answer_plan_steps
  next_item_steps close_run_steps : keeps.
