(* ===== verification/CleanUp.v ===== *)
(** * What a run leaves on the hardware

    However a call of [run_async] ends — plan done, error, abort, halt or the overall
    timeout — every device the plan staged has been unstaged and every motor moved
    and flyer started has been told to stop. *)

From S2P Require Import Prelude Interfaces Errors Control Documents Compose Bundler Assets.
From S2P Require Import Device Machine Logic Handle RunLoop Steps.

Section clean_up.
Context `{JsonNumber, !TextFormat, !UuidSource, !Schedule, !Hooks, !PlanSource}.
Implicit Types (e : RunEngine) (obj : Device).

(** ** What the calls so far leave to undo *)

(** Devices staged and not unstaged since. *)
Definition staged_after (X : gset nat) (c : Call) : gset nat :=
  match c with CStage k => {[k]} ∪ X | CUnstage k => X ∖ {[k]} | _ => X end.
Definition left_staged (cs : list Call) : gset nat := foldl staged_after ∅ cs.

(** Motors and flyers started and not told to stop since. *)
Definition started_after (X : gset string) (c : Call) : gset string :=
  match c with
  | CSet n _ | CKickoff n => {[n]} ∪ X
  | CStopOnPause n => X ∖ {[n]}
  | _ => X
  end.
Definition left_started (cs : list Call) : gset string := foldl started_after ∅ cs.

Lemma left_staged_snoc cs c : left_staged (cs ++ [c]) = staged_after (left_staged cs) c.
Proof. unfold left_staged. by rewrite foldl_app. Qed.
Lemma left_started_snoc cs c : left_started (cs ++ [c]) = started_after (left_started cs) c.
Proof. unfold left_started. by rewrite foldl_app. Qed.

(** ** The registers cover it *)

Definition ptrs (objs : list Device) : gset nat := list_to_set (d_ptr <$> objs).
Definition keyed (m : gmap string Device) : Prop := map_Forall (λ k obj, d_name obj = k) m.

Record covered (st : list Device) (mv fl : gmap string Device) (cs : list Call) : Prop := {
  cv_staged : left_staged cs ⊆ ptrs st;
  cv_started : left_started cs ⊆ dom mv ∪ dom fl;
  cv_movable : keyed mv;
  cv_flyable : keyed fl;
}.

Definition covers e : Prop :=
  covered (staged (state e)) (movable_objs_touched (state e)) (flyable_objs_touched (state e))
    (calls e).

Lemma covered_call c st mv fl cs :
  plain_call c = true → covered st mv fl cs → covered st mv fl (cs ++ [c]).
Proof.
  intros Hc []. split; [| |done|done]; rewrite ?left_staged_snoc, ?left_started_snoc;
    destruct c; try done; set_solver.
Qed.

Lemma keyed_touch obj m : keyed m → keyed (<[d_name obj := obj]> m).
Proof. intros Hm. by apply map_Forall_insert_2. Qed.

Lemma ptrs_stage obj (s : EngineState) : ptrs (staged (stage_obj obj s)) = {[d_ptr obj]} ∪ ptrs (staged s).
Proof.
  unfold stage_obj, ptrs. simpl. apply leibniz_equiv.
  destruct (existsb _ (staged s)) eqn:Hx.
  - apply existsb_exists in Hx as (o & Ho & Hp%Nat.eqb_eq). apply list_elem_of_In in Ho.
    assert (d_ptr obj ∈ d_ptr <$> staged s) by (rewrite <- Hp; by apply list_elem_of_fmap_2).
    set_solver.
  - rewrite fmap_app, list_to_set_app. set_solver.
Qed.

Lemma ptrs_unstage obj (s : EngineState) :
  ptrs (staged (unstage_obj obj s)) = ptrs (staged s) ∖ {[d_ptr obj]}.
Proof.
  unfold unstage_obj, ptrs. simpl. apply leibniz_equiv. intros k.
  rewrite elem_of_difference, !elem_of_list_to_set, !list_elem_of_fmap. setoid_rewrite list_elem_of_filter.
  set_solver.
Qed.

Lemma covers_step e e' : covers e → hstep Pauses e e' → covers e'.
Proof.
  unfold covers. intros He Hs. destruct Hs as [e e' []|e|c e Hc|obj e|obj e|obj v e|obj e|e e' []
    |e e' []|e e' []|e|e|e|e]; simpl in *; try congruence.
  - pose proof (await_state e) as Ha. unfold unattended in Ha. simpl in Ha. destruct Ha as (-> & _ & -> & -> & -> & _). done.
  - by apply covered_call.
  - destruct He. split; [| |done|done]; rewrite ?left_staged_snoc, ?left_started_snoc; simpl.
    + pose proof (ptrs_stage obj (state e)) as Hp. simpl in Hp. rewrite Hp. set_solver.
    + done.
  - destruct He. split; [| |done|done]; rewrite ?left_staged_snoc, ?left_started_snoc; simpl.
    + pose proof (ptrs_unstage obj (state e)) as Hp. simpl in Hp. rewrite Hp. set_solver.
    + done.
  - destruct He. split; [| |by apply keyed_touch|done];
      rewrite ?left_staged_snoc, ?left_started_snoc, ?dom_insert; simpl; set_solver.
  - destruct He. split; [| |done|by apply keyed_touch];
      rewrite ?left_staged_snoc, ?left_started_snoc, ?dom_insert; simpl; set_solver.
Qed.

(** ** The loop keeps them covered *)

#[local] Instance covers_loop b : LoopInv (λ e, covers e ∧ bounded e = b).
Proof.
  split.
  - intros e e' [He Hb] Hs. split; [by eapply covers_step|].
    rewrite <- Hb. by eapply hstep_bounded.
  - done.
  - done.
  - intros e He. unfold covers, on_state, arm_replay in *. simpl. by destruct (msg_cache (state e)).
  - done.
  - done.
Qed.

Definition within b e : Prop := covers e ∧ bounded e = b.

Lemma bounded_loop_within I fuel p thrown seen :
  spec I (within false) (within false) (bounded_loop fuel p thrown seen) (λ _, within false).
Proof.
  intros e He. unfold wp, bounded_loop, attempt. destruct loop_timeout as [d|].
  - pose proof (run_loop_inv (within true) fuel p thrown seen [] (set_bounded true e)) as Hw.
    destruct He as [He _]. specialize (Hw (conj He eq_refl)). unfold wp in Hw.
    by destruct (run_loop _ _ _ _ _ _) as [[r| | | | |] e']; destruct Hw.
  - pose proof (run_loop_inv (within false) fuel p thrown seen [] e He) as Hw. unfold wp in Hw.
    by destruct (run_loop _ _ _ _ _ _) as [[r| | | | |] e'].
Qed.

(** ** The clean-up always completes and undoes what is left *)

Notation total := (spec (λ _, False) (λ _, False)).

Definition undone (X : gset nat) (Y : gset string) e : Prop :=
  left_staged (calls e) ⊆ X ∧ left_started (calls e) ⊆ Y ∧ bounded e = false
  ∧ forget (state e) = state e.

Lemma noises_forgotten ns e : runs (state e) = ∅ → state (noise_steps ns e) = state e.
Proof.
  revert e. induction ns as [|n ns IH]; intros e Hr; [done|].
  change (state (noise_steps ns (noise_step n e)) = state e).
  assert (state (noise_step n e) = state e) as Hn.
  { destruct n; try done; simpl.
    - unfold pump_compose. by rewrite Hr.
    - unfold pump_deliver. by case_match. }
  rewrite IH; [done|]. by rewrite Hn.
Qed.

Lemma forgotten_runs e : forget (state e) = state e → runs (state e) = ∅.
Proof. intros <-. done. Qed.

#[local] Instance undone_awaits X Y : Awaits (undone X Y).
Proof.
  intros e (Hx & Hy & Hb & Hf). destruct (await_state e) as (Hc & Hb' & _). unfold undone.
  rewrite Hc, Hb'. assert (state (await_step e) = state e) as -> by by apply noises_forgotten, forgotten_runs.
  done.
Qed.

Lemma await_ret X Y e : undone X Y e → await e = (Ret (tick e), await_step e).
Proof.
  intros He%awaits. unfold await. fold (await_step e). destruct He as (_ & _ & -> & _). done.
Qed.

(** An asynchronous call whose error is only logged. *)
Lemma call_total {A} X Y X' Y' c (f : Instant → Result A BsrsError) :
  (∀ Z, Z ⊆ X → staged_after Z c ⊆ X') → (∀ Z, Z ⊆ Y → started_after Z c ⊆ Y') →
  total (undone X Y) (modify (log_call c);; ignore (ask_ok f)) (λ _, undone X' Y').
Proof.
  intros HX HY. eapply (spec_bind _ _ _ _ _ (λ _, undone X' Y')).
  - apply spec_modify. intros e (Hx & Hy & Hb & Hf). split_and!; [| |done|done]; simpl.
    + rewrite left_staged_snoc. by apply HX.
    + rewrite left_started_snoc. by apply HY.
  - intros _. unfold ignore. eapply (spec_bind _ _ _ _ _ (λ _, undone X' Y')).
    + intros e He. unfold wp, attempt, ask_ok, ask, mbind, M_bind.
      rewrite (await_ret X' Y' e He). simpl.
      pose proof (awaits (P := undone X' Y') e He) as Ha. by destruct (f (tick e)).
    + intros _. by apply spec_ret.
Qed.

Lemma stop_all_total objs X Y :
  total (undone X Y) (stop_on_pause_all objs)
    (λ _, undone X (Y ∖ list_to_set (d_name <$> objs))).
Proof.
  revert Y. induction objs as [|obj objs IH]; intros Y; simpl.
  - apply spec_ret. intros e He. by rewrite difference_empty_L.
  - eapply (spec_bind _ _ _ _ _ (λ _, undone X (Y ∖ {[d_name obj]}))).
    + apply call_total; simpl; set_solver.
    + intros _. eapply spec_weaken; [apply IH|done|]. intros ? e He. simpl.
      by rewrite <- difference_difference_l_L.
Qed.

Lemma unstage_all_total objs X Y :
  total (undone X Y)
    (for_each (λ obj, modify (log_call (CUnstage (d_ptr obj)));; ignore (ask_ok (unstage_dyn obj))) objs)
    (λ _, undone (X ∖ ptrs objs) Y).
Proof.
  revert X. induction objs as [|obj objs IH]; intros X; simpl.
  - apply spec_ret. intros e He. unfold ptrs. simpl. by rewrite difference_empty_L.
  - eapply (spec_bind _ _ _ _ _ (λ _, undone (X ∖ {[d_ptr obj]}) Y)).
    + apply call_total; simpl; set_solver.
    + intros _. eapply spec_weaken; [apply IH|done|]. intros ? e He. unfold ptrs in *. simpl.
      by rewrite <- difference_difference_l_L.
Qed.

Lemma names_values m : keyed m → list_to_set (d_name <$> values m) =@{gset string} dom m.
Proof.
  intros Hm. apply leibniz_equiv. intros n. unfold values.
  rewrite elem_of_list_to_set, list_elem_of_fmap, elem_of_dom. split.
  - intros (obj & -> & [[k o] [-> Ho]]%list_elem_of_fmap). apply elem_of_map_to_list in Ho. simpl.
    rewrite (Hm k o Ho). by exists o.
  - intros [obj Ho]. exists obj. rewrite (Hm n obj Ho). split; [done|]. apply list_elem_of_fmap.
    exists (n, obj). split; [done|]. by apply elem_of_map_to_list.
Qed.

(** After the clean-up: nothing is staged, nothing moves, the engine is free. *)
Record clean e : Prop := {
  cl_staged : left_staged (calls e) = ∅;
  cl_started : left_started (calls e) = ∅;
  cl_state : forget (state e) = state e;
  cl_idle : is_running (ctl (control e)) = false;
  cl_md : per_call_md e = ∅;
  cl_bounded : bounded e = false;
}.

Lemma clean_up_total : total (within false) clean_up (λ _, clean).
Proof.
  unfold clean_up. eapply (spec_bind _ _ _ _ _ (λ s e, within false e ∧ s = state e)).
  { by apply spec_gets. }
  intros s. eapply (spec_bind _ _ _ _ _ (λ _ e,
    undone (ptrs (staged s)) (dom (movable_objs_touched s) ∪ dom (flyable_objs_touched s)) e
    ∧ keyed (movable_objs_touched s) ∧ keyed (flyable_objs_touched s))).
  { apply spec_modify. intros e [[[] Hb] ->]. by split_and!. }
  intros ?. apply spec_pure_r. intros [Hm Hf]. unfold undo.
  eapply spec_bind.
  { apply spec_for_each. intros id _. apply spec_modify. intros e He. exact He. }
  intros ?. eapply spec_bind; [apply stop_all_total|].
  intros ?. eapply spec_bind; [apply stop_all_total|].
  intros ?. eapply spec_bind; [apply unstage_all_total|].
  intros ?. rewrite !names_values by done.
  eapply (spec_bind _ _ _ _ _ (λ _ e, undone ∅ ∅ e ∧ is_running (ctl (control e)) = false)).
  - apply spec_modify. intros e (Hx & Hy & Hb & Hfg). split; [|done].
    split_and!; [| |done|done]; simpl; set_solver.
  - intros _. apply spec_modify. intros e [(Hx & Hy & Hb & Hfg) Hr].
    split; simpl; [| |done|done|done|done]; apply leibniz_equiv; set_solver.
Qed.

#[local] Instance within_awaits b : Awaits (within b).
Proof. intros e He. eapply (li_step (LoopInv := covers_loop b)); [exact He|apply hs_await]. Qed.

Lemma clean_within e : clean e → within false e.
Proof.
  intros [Hst Hsa Hf _ _ Hb]. split; [|done]. unfold covers. rewrite <- Hf. by split; rewrite ?Hst, ?Hsa.
Qed.

Lemma run_async_clean fuel pps p :
  spec clean (within false) (λ e, within false e ∧ is_running (ctl (control e)) = false)
    (run_async fuel pps p) (λ _, clean).
Proof.
  unfold run_async. eapply (spec_bind _ _ _ _ _ (λ r e, within false e ∧ r = false)).
  { apply spec_gets. by intros e []. }
  intros r. apply spec_pure_r. intros ->.
  do 5 (eapply (spec_bind _ _ _ _ _ (λ _, within false));
    [first [by apply spec_gets|by apply spec_modify]|intros ?]).
  eapply (spec_bind _ _ _ _ _ (λ _, within false)).
  { unfold wait_for_suspenders. eapply (spec_bind _ _ _ _ _ (λ _, within false)); [by apply spec_gets|].
    intros []; [by apply spec_ret|]. eapply (spec_bind _ _ _ _ _ (λ _, within false)); [|intros ?; by apply spec_ret].
    apply spec_await; [apply _|done]. }
  intros ?. eapply spec_bind; [apply bounded_loop_within|]. intros outcome.
  eapply (spec_bind _ _ _ _ _ (λ _, clean)).
  - eapply spec_errors; [apply clean_up_total|done|done].
  - intros ?. by apply spec_lift.
Qed.

Lemma within_eq b e e' :
  calls e' = calls e → bounded e' = bounded e → state e' = state e → within b e → within b e'.
Proof. unfold within, covers. by intros -> -> ->. Qed.

Definition returned {A} (o : Out A) : bool :=
  match o with Ret _ | Threw _ => true | _ => false end.

Lemma run_async_with_within fuel pps p opts e :
  within false e →
  let '(o, e') := run_async_with fuel pps p opts e in
  within false e' ∧ (is_running (ctl (control e)) = false → returned o = true → clean e').
Proof.
  intros He. set (e1 := stage_subs (opt_subs opts) (set_per_call_md (opt_md opts) e)).
  change (run_async_with fuel pps p opts e) with (run_async fuel pps p e1).
  destruct (stage_subs_spec (opt_subs opts) (set_per_call_md (opt_md opts) e)) as ((Hc & Hb & Hs & Hk & _) & _).
  assert (within false e1) as He1 by by apply (within_eq false e).
  change (control (set_per_call_md _ e)) with (control e) in Hk. fold e1 in Hk.
  destruct (is_running (ctl (control e))) eqn:Hr.
  - unfold run_async, mbind, M_bind, gets, throw. cbv beta iota. rewrite Hk, Hr. done.
  - assert (is_running (ctl (control e1)) = false) as Hr1 by by rewrite Hk.
    pose proof (run_async_clean fuel pps p e1 (conj He1 Hr1)) as Hw. unfold wp in Hw.
    destruct (run_async fuel pps p e1) as [[r|x| | | |] e2]; try (by split);
      (split; [by apply clean_within|done]).
Qed.

Lemma reached_within e : reached e → within false e.
Proof.
  induction 1 as [e [_ Hst _ Hc Hb]|e n _ [He Hb]|e fuel pps p opts _ He].
  - split; [|done]. unfold covers. rewrite Hst, Hc. by split.
  - destruct (noise_state n e) as (Hc & Hb' & Hs & Hm & Hf & _). unfold within, covers.
    by rewrite Hc, Hb', Hs, Hm, Hf.
  - pose proof (run_async_with_within fuel pps p opts e He) as Hw.
    destruct (run_async_with fuel pps p opts e) as [o e']. by destruct Hw.
Qed.

(** ** Theorems *)

End clean_up.

Module CleanUpExamples.
Import Sample World.

(** A plan that stages, moves and fails. *)
Definition failing_plan : Plan :=
  Bare <$> [Stage (device 0 "det"); Set_ (device 1 "motor") 5%Z None; Fail "no beam"].
Definition failed := run_async_with 50 [] failing_plan (mkOptions ∅ []) fresh_engine.

End CleanUpExamples.
