(* ===== verification/Termination.v ===== *)
(** * The run loop does not spin

    Fuel bounds what only the plan and the users bound: the items of a plan and the
    requests of other tasks. Handlers use none. With finitely many of both, every call
    of [run_async] comes to an outcome within a bound computed from them, however often it
    is paused, rewound and interrupted on the way; and more fuel changes nothing. The
    outcome may be to wait for good for a status or a resume, where there is no overall
    timeout. *)

From S2P Require Import Prelude Interfaces Errors Control Documents Compose Bundler Assets.
From S2P Require Import Device Machine Logic Handle RunLoop Steps.

Section fueled.
Context `{JsonNumber, !TextFormat, !UuidSource, !Schedule, !Hooks}.
Implicit Types (e : RunEngine) (key : option string) (obj : Device).

(** ** Computations that use no fuel *)

Definition no_fuel {A} (m : M A) : Prop := ∀ e, (m e).1 ≠ OutOfFuel.

Lemma no_fuel_ret {A} (a : A) : no_fuel (mret a).
Proof. done. Qed.
Lemma no_fuel_throw {A} x : no_fuel (A := A) (throw x).
Proof. done. Qed.
Lemma no_fuel_hang {A} : no_fuel (A := A) hang.
Proof. done. Qed.
Lemma no_fuel_panic {A} : no_fuel (A := A) panic.
Proof. done. Qed.
Lemma no_fuel_gets {A} (f : RunEngine → A) : no_fuel (gets f).
Proof. done. Qed.
Lemma no_fuel_modify f : no_fuel (modify f).
Proof. done. Qed.
Lemma no_fuel_atomic {A} (f : RunEngine → A * RunEngine) : no_fuel (atomic f).
Proof. intros e. unfold atomic. by destruct (f e). Qed.
Lemma no_fuel_lift {A} (r : Result A BsrsError) : no_fuel (lift r).
Proof. by destruct r. Qed.
Lemma no_fuel_expect {A} (o : option A) x : no_fuel (expect o x).
Proof. apply no_fuel_lift. Qed.
Lemma no_fuel_await : no_fuel await.
Proof. intros e. unfold await. by destruct (_ && _). Qed.
Lemma no_fuel_bind {A B} (m : M A) (f : A → M B) :
  no_fuel m → (∀ a, no_fuel (f a)) → no_fuel (m ≫= f).
Proof.
  intros Hm Hf e. specialize (Hm e). unfold mbind, M_bind.
  destruct (m e) as [[a| | | | |] e']; try done. apply Hf.
Qed.
Lemma no_fuel_attempt {A} (m : M A) : no_fuel m → no_fuel (attempt m).
Proof. intros Hm e. specialize (Hm e). unfold attempt. by destruct (m e) as [[a| | | | |] e']. Qed.
Lemma no_fuel_when c (m : M unit) : no_fuel m → no_fuel (when c m).
Proof. by destruct c. Qed.
Lemma no_fuel_for_each {A} (f : A → M unit) l : (∀ x, no_fuel (f x)) → no_fuel (for_each f l).
Proof. intros Hf. induction l; simpl; [done|]. by apply no_fuel_bind. Qed.

Ltac fuel_step :=
  lazymatch goal with
  | |- no_fuel (_ ≫= _) => apply no_fuel_bind; [|intros ?]
  | |- no_fuel (match ?x with _ => _ end) => destruct x
  | |- no_fuel (when _ _) => apply no_fuel_when
  | |- no_fuel (attempt _) => apply no_fuel_attempt
  | |- no_fuel (for_each _ _) => apply no_fuel_for_each; intros ?
  end.
Create HintDb fuel.
#[local] Hint Resolve no_fuel_ret no_fuel_throw no_fuel_hang no_fuel_panic no_fuel_gets
  no_fuel_modify no_fuel_atomic no_fuel_lift no_fuel_expect no_fuel_await : fuel.
Ltac fuel_auto := repeat first [solve [auto with fuel] | fuel_step].

Lemma no_fuel_ask {A} (f : Instant → A) : no_fuel (ask f).
Proof. unfold ask. fuel_auto. Qed.
#[local] Hint Resolve no_fuel_ask : fuel.
Lemma no_fuel_ask_ok {A} (f : Instant → Result A BsrsError) : no_fuel (ask_ok f).
Proof. unfold ask_ok. fuel_auto. Qed.
Lemma no_fuel_race {A} (r : Instant → option (Result A BsrsError)) : no_fuel (race r).
Proof. unfold race, cancelled. fuel_auto. Qed.
Lemma no_fuel_freshes n : no_fuel (freshes n).
Proof. induction n; simpl; unfold fresh; fuel_auto. Qed.
#[local] Hint Resolve no_fuel_ask_ok no_fuel_race no_fuel_freshes : fuel.
Ltac fuel_unfold :=
  unfold stream_object, ensure_object_configuration, read_object_configuration, ignore,
    fresh, clock, broadcast, set_result, get_slot, require_run, put_bundler.
Lemma no_fuel_stream_object key obj dks : no_fuel (stream_object key obj dks).
Proof. fuel_unfold. fuel_auto. Qed.
Lemma no_fuel_describe key objs d : (∀ obj, no_fuel (d obj)) → no_fuel (describe_objs key objs d).
Proof.
  intros Hd. induction objs; simpl; [done|]. apply no_fuel_bind; [done|]. intros dks.
  apply no_fuel_bind; [apply no_fuel_stream_object|]. intros so. by apply no_fuel_bind.
Qed.
Lemma no_fuel_drain uid objs : no_fuel (drain_objs uid objs).
Proof. induction objs; simpl; fuel_auto. Qed.
Lemma no_fuel_missing key obj config descs : no_fuel (declare_missing key obj config descs).
Proof. induction descs as [|[name dks] descs]; simpl; unfold declare_in; fuel_unfold; fuel_auto. Qed.
Lemma no_fuel_describe_stream key name objs : no_fuel (describe_stream_objs key name objs).
Proof. destruct objs; apply no_fuel_describe; unfold collect_keys; intros; fuel_auto. Qed.
Lemma no_fuel_describe_collect key obj : no_fuel (describe_collect key obj).
Proof.
  unfold describe_collect. repeat first [apply no_fuel_missing|solve [fuel_unfold; fuel_auto]|fuel_step].
Qed.
#[local] Hint Resolve no_fuel_stream_object no_fuel_describe_stream no_fuel_drain no_fuel_missing
  no_fuel_describe_collect : fuel.
Lemma no_fuel_collect key obj name : no_fuel (collect_object key obj name).
Proof. unfold collect_object, collect_assets, collect_event. fuel_unfold. fuel_auto. Qed.
Lemma no_fuel_monitor key stream obj : no_fuel (start_monitor key stream obj).
Proof. unfold start_monitor, declare_in. fuel_unfold. fuel_auto. Qed.
Lemma no_fuel_close key status why : no_fuel (close_run_if_open key status why).
Proof. unfold close_run_if_open, snapshot. fuel_unfold. fuel_auto. Qed.
#[local] Hint Resolve no_fuel_collect no_fuel_monitor no_fuel_close : fuel.

Lemma no_fuel_handle m : no_fuel (handle m).
Proof.
  unfold handle. apply no_fuel_bind; [apply no_fuel_lift|]. intros [key m']. simpl.
  destruct m'; simpl;
    unfold open_run, start_document, resolve_scan_id, handle_create, handle_save, pack_save_assets,
      handle_drop, handle_declare_stream, declare_in, handle_read, handle_set, handle_stage,
      handle_unstage, handle_kickoff, start_status, handle_status, handle_monitor,
      default_monitor_stream_name, handle_unmonitor, monitored, stop_pump, wait_group, wait_for, sleep,
      handle_checkpoint, snapshot, handle_configure, reconfigure;
    fuel_unfold; fuel_auto.
Qed.
#[local] Hint Resolve no_fuel_handle : fuel.

(** ** The loop's own computations *)

Lemma no_fuel_record content : no_fuel (record_interruption content).
Proof. unfold record_interruption, record_in. fuel_unfold. fuel_auto. Qed.
Lemma no_fuel_restore : no_fuel restore_monitors.
Proof. unfold restore_monitors. fuel_unfold. fuel_auto. Qed.
Lemma no_fuel_stop_all objs : no_fuel (stop_on_pause_all objs).
Proof. unfold stop_on_pause_all. fuel_unfold. fuel_auto. Qed.
#[local] Hint Resolve no_fuel_record no_fuel_restore no_fuel_stop_all : fuel.
Lemma no_fuel_pause_enter content : no_fuel (on_pause_enter content).
Proof. unfold on_pause_enter. fuel_unfold. fuel_auto. Qed.
Lemma no_fuel_resume : no_fuel on_resume.
Proof. unfold on_resume. fuel_unfold. fuel_auto. Qed.
Lemma no_fuel_drain_close status why : no_fuel (drain_and_close status why).
Proof. unfold drain_and_close, backstop_collect. fuel_unfold. fuel_auto. Qed.
Lemma no_fuel_result uids status x : no_fuel (build_result uids status x).
Proof. unfold build_result. fuel_auto. Qed.
#[local] Hint Resolve no_fuel_drain_close no_fuel_result : fuel.
Lemma no_fuel_interrupted uids status : no_fuel (end_interrupted uids status).
Proof. unfold end_interrupted. fuel_auto. Qed.
Lemma no_fuel_thrown uids t : no_fuel (end_thrown uids t).
Proof. unfold end_thrown, end_interrupted, end_failed. fuel_auto. Qed.
Lemma no_fuel_plan_end uids : no_fuel (end_of_plan uids).
Proof. unfold end_of_plan. fuel_auto. Qed.
Lemma no_fuel_clean_up : no_fuel clean_up.
Proof. unfold clean_up, undo. fuel_unfold. fuel_auto. Qed.
Lemma no_fuel_suspenders : no_fuel wait_for_suspenders.
Proof. unfold wait_for_suspenders. fuel_auto. Qed.
End fueled.

#[export] Hint Resolve no_fuel_handle no_fuel_restore no_fuel_pause_enter no_fuel_resume
  no_fuel_drain_close no_fuel_result no_fuel_interrupted no_fuel_thrown no_fuel_plan_end
  no_fuel_clean_up no_fuel_suspenders no_fuel_ret no_fuel_throw no_fuel_hang no_fuel_panic
  no_fuel_gets no_fuel_modify no_fuel_atomic no_fuel_lift no_fuel_await : fuel.

(** ** More fuel changes nothing *)

Section more_fuel.
Context `{JsonNumber, !TextFormat, !UuidSource, !Schedule, !Hooks, !PlanSource}.

(** Where [m] does not run out, [m'] does the same. *)
Definition extends {A} (m m' : M A) : Prop := ∀ e, (m e).1 ≠ OutOfFuel → m' e = m e.

Lemma extends_refl {A} (m : M A) : extends m m.
Proof. done. Qed.
Lemma extends_out {A} (m : M A) : extends out_of_fuel m.
Proof. intros e Ho. by destruct Ho. Qed.
Lemma extends_bind {A B} (m m' : M A) (f f' : A → M B) :
  extends m m' → (∀ a, extends (f a) (f' a)) → extends (m ≫= f) (m' ≫= f').
Proof.
  intros Hm Hf e. specialize (Hm e). unfold mbind, M_bind in *. intros Ho.
  rewrite Hm by (by destruct (m e) as [[a| | | | |] e']).
  destruct (m e) as [[a| | | | |] e']; try done. by apply Hf.
Qed.
Lemma extends_attempt {A} (m m' : M A) : extends m m' → extends (attempt m) (attempt m').
Proof.
  intros Hm e. specialize (Hm e). unfold attempt. intros Ho.
  rewrite Hm by (by destruct (m e) as [[a| | | | |] e']). done.
Qed.

Ltac extends_step :=
  lazymatch goal with
  | |- extends ?m ?m => apply extends_refl
  | |- extends (_ ≫= _) _ => apply extends_bind; [|intros ?]
  | |- extends (match ?x with _ => _ end) _ => destruct x
  | |- extends (attempt _) _ => apply extends_attempt
  end.

Lemma injected_more fuel : ∀ fuel' p, fuel ≤ fuel' →
  extends (run_injected_plan fuel p) (run_injected_plan fuel' p).
Proof.
  induction fuel as [|fuel IH]; intros fuel' p Hf; [apply extends_out|].
  destruct fuel' as [|fuel']; [lia|]. simpl. repeat extends_step. all: apply IH; lia.
Qed.

Lemma run_injected_more fuel fuel' cb : fuel ≤ fuel' → extends (run_injected fuel cb) (run_injected fuel' cb).
Proof. intros. destruct cb; simpl; [by apply injected_more|apply extends_refl]. Qed.

Lemma gate_more fuel : ∀ fuel' thrown seen, fuel ≤ fuel' →
  extends (pause_gate fuel thrown seen) (pause_gate fuel' thrown seen).
Proof.
  induction fuel as [|fuel IH]; intros fuel' thrown seen Hf; [apply extends_out|].
  destruct fuel' as [|fuel']; [lia|]. simpl.
  repeat first [apply run_injected_more; lia|extends_step]. all: apply IH; lia.
Qed.

Lemma loop_more fuel : ∀ fuel' p thrown seen uids, fuel ≤ fuel' →
  extends (run_loop fuel p thrown seen uids) (run_loop fuel' p thrown seen uids).
Proof.
  induction fuel as [|fuel IH]; intros fuel' p thrown seen uids Hf; [apply extends_out|].
  destruct fuel' as [|fuel']; [lia|]. simpl.
  repeat first [apply gate_more; lia|extends_step]. all: apply IH; lia.
Qed.

Lemma bounded_more fuel fuel' p thrown seen : fuel ≤ fuel' →
  extends (bounded_loop fuel p thrown seen) (bounded_loop fuel' p thrown seen).
Proof.
  intros Hf e. unfold bounded_loop. destruct loop_timeout as [d|].
  - pose proof (extends_attempt _ _ (loop_more fuel fuel' p thrown seen [] Hf) (set_bounded true e)) as Ha.
    intros Ho. rewrite Ha; [done|].
    by destruct (attempt _ _) as [[a| | | | |] e'].
  - apply (extends_attempt _ _ (loop_more fuel fuel' p thrown seen [] Hf) e).
Qed.

Lemma run_async_more fuel fuel' pps p : fuel ≤ fuel' →
  extends (run_async fuel pps p) (run_async fuel' pps p).
Proof.
  intros Hf. unfold run_async. repeat first [by apply bounded_more|extends_step].
Qed.
End more_fuel.

(** ** Enough fuel *)

Section enough_fuel.
Context `{JsonNumber, !TextFormat, !UuidSource, !Schedule, !Hooks, !PlanSource}.
Implicit Types (e : RunEngine) (c : Control) (thrown seen : Z).

(** A plan of at most [n] items, whatever it is answered. *)
Fixpoint at_most (n : nat) (p : Plan) : Prop :=
  ∀ t ch, match plan_next p t ch with
         | (None, _, _) => True
         | (Some _, p, _) => match n with 0 => False | S n => at_most n p end
         end.

(** The plans suspensions inject have [len] items, and from the instant [horizon] on
    nobody pauses or interrupts the run. *)
Context (len : SuspendCallback → nat) (horizon : nat).

Definition plans_len (s : Suspension) : nat :=
  default 0 (len <$> susp_pre_plan s) + default 0 (len <$> susp_post_plan s).

(** What a request may cost the loop. *)
Definition weight (n : Noise) : nat :=
  match n with
  | NPause defer => if defer then 0 else 1
  | NAbort _ | NHalt _ | NStop | NSigint => 1
  | NSuspend s => S (plans_len s)
  | _ => 0
  end.
Definition weights (ns : list Noise) : nat := foldr (λ n k, weight n + k) 0 ns.
Definition ahead (t : nat) : nat := foldr (λ i k, weights (noise i) + k) 0 (seq t (horizon - t)).

Context (Hlen : ∀ cb, at_most (len cb) (suspend_plan cb)).
Context (Hquiet : ∀ t, horizon ≤ t → weights (noise t) = 0).

Definition flag (b : bool) : nat := if b then 1 else 0.

(** Requests made and not yet acted on. *)
Definition due thrown seen c : nat :=
  flag (pause_pending seen c) + flag (interrupt_pending thrown c)
  + default 0 (plans_len <$> pending_suspend (ctl c)).

(** What may still interrupt the loop, and what it may still have to replay. *)
Definition credit thrown seen e : nat := ahead (tick e) + due thrown seen (control e).
Definition rework e : nat := length (msg_cache (state e)) + length (replay_queue (state e)).

Definition budget thrown seen (k r : nat) e : Prop := credit thrown seen e ≤ k ∧ rework e ≤ r.

Lemma ahead_step t : ahead t = weights (noise t) + ahead (S t).
Proof.
  unfold ahead. destruct (decide (horizon ≤ t)) as [Ht|Ht].
  - rewrite Hquiet by done. by replace (horizon - t) with 0 by lia; replace (horizon - S t) with 0 by lia.
  - replace (horizon - t) with (S (horizon - S t)) by lia. done.
Qed.

Lemma flag_le b : flag b ≤ 1.
Proof. destruct b; simpl; lia. Qed.

Lemma due_pause thrown seen c : due thrown seen (set_ctl (rc_pause (ctl c)) c) ≤ S (due thrown seen c).
Proof.
  unfold due, interrupt_pending. simpl. pose proof (flag_le (pause_pending seen (set_ctl (rc_pause (ctl c)) c))).
  lia.
Qed.

Lemma due_interrupt thrown seen c c' :
  interrupt_pending thrown c' = interrupt_pending thrown (request_interrupt c) →
  pause_pending seen c' = pause_pending seen c → pending_suspend (ctl c') = pending_suspend (ctl c) →
  due thrown seen c' ≤ S (due thrown seen c).
Proof.
  intros Hi Hp Hs. unfold due. rewrite Hi, Hp, Hs.
  pose proof (flag_le (interrupt_pending thrown (request_interrupt c))). lia.
Qed.

Lemma due_noise thrown seen n e :
  due thrown seen (control (noise_step n e)) ≤ due thrown seen (control e) + weight n.
Proof.
  destruct n; simpl; try lia.
  - destruct defer; [change (due thrown seen (control e) ≤ due thrown seen (control e) + 0); lia|].
    etrans; [apply due_pause|lia].
  - change (due thrown seen (control e) ≤ due thrown seen (control e) + 0). lia.
  - etrans; [by apply (due_interrupt _ _ (control e))|lia].
  - etrans; [by apply (due_interrupt _ _ (control e))|lia].
  - etrans; [by apply (due_interrupt _ _ (control e))|lia].
  - unfold sigint. destruct (negb _); [lia|]. repeat case_match.
    + etrans; [apply due_pause|].
      change (S (due thrown seen (control e)) ≤ due thrown seen (control e) + 1). lia.
    + etrans; [by apply (due_interrupt _ _ (control e))|lia].
    + etrans; [by apply (due_interrupt _ _ (control e))|lia].
  - unfold due, interrupt_pending. simpl.
    match goal with |- flag ?b + _ + _ ≤ _ => pose proof (flag_le b) end. lia.
  - unfold release. repeat case_match;
      change (due thrown seen (control e) ≤ due thrown seen (control e) + 0); lia.
  - unfold pump_compose. destruct (runs (state e) !! key) as [sl|]; [|lia].
    destruct (sl_monitor_tasks sl !! obj) as [task|]; [|lia]. case_match; [lia|]. simpl.
    destruct (event _ _ _ _ _ _) as [[ev|] bd]; simpl; lia.
  - unfold pump_deliver. case_match; simpl; lia.
Qed.

Lemma due_noises thrown seen ns e :
  due thrown seen (control (noise_steps ns e)) ≤ due thrown seen (control e) + weights ns.
Proof.
  revert e. induction ns as [|n ns IH]; intros e; simpl; [lia|].
  change (noise_steps (n :: ns) e) with (noise_steps ns (noise_step n e)).
  etrans; [apply IH|]. pose proof (due_noise thrown seen n e). lia.
Qed.

Lemma tick_noise n e : tick (noise_step n e) = tick e.
Proof.
  destruct n; try done; simpl.
  - unfold pump_compose. destruct (runs (state e) !! key) as [sl|]; [|done].
    destruct (sl_monitor_tasks sl !! obj) as [task|]; [|done]. case_match; [done|]. simpl.
    by destruct (event _ _ _ _ _ _) as [[ev|] bd].
  - unfold pump_deliver. by case_match.
Qed.

Lemma tick_noises ns e : tick (noise_steps ns e) = tick e.
Proof.
  revert e. induction ns as [|n ns IH]; intros e; [done|].
  change (tick (noise_steps ns (noise_step n e)) = tick e). by rewrite IH, tick_noise.
Qed.

Lemma budget_await thrown seen k r e : budget thrown seen k r e → budget thrown seen k r (await_step e).
Proof.
  unfold budget, credit, rework. destruct (await_state e) as (_&_&_&_&_&->&->&_).
  intros [Hc Hr]. split; [|done]. unfold await_step. simpl. rewrite ahead_step in Hc.
  pose proof (due_noises thrown seen (noise (tick e)) e) as Hd.
  change (control (set_tick _ ?e')) with (control e'). lia.
Qed.

(** The steps of a handler that does not pause cost nothing. *)
Lemma budget_step thrown seen k r e e' :
  budget thrown seen k r e → hstep Defers e e' → budget thrown seen k r e'.
Proof.
  intros Hb Hs. destruct Hs as [e e' Hs|e|c e Hc|obj e|obj e|obj v e|obj e|e e' Hs|e e' Hs|e e' Hs|e|e|e|e];
    try done; try (by apply budget_await);
    unfold budget, credit, rework in *; simpl in *.
  - destruct Hs as [-> _ -> _ _ _ _ -> -> _ _ _]. done.
  - simpl. lia.
  - simpl. lia.
  - destruct Hs as [-> _ -> _ _ _ _ -> -> _ _ _]. simpl. lia.
  - destruct Hs as [-> _ -> _ _ _ _ -> -> _ _ _]. simpl. lia.
  - destruct Hs as [-> _ -> _ _ _ _ -> -> _ _ _]. simpl. lia.
Qed.

(** ** Ending within a budget *)

(** [m] does not run out of fuel, returns in [Q], fails in [E]. *)
Definition ends {A} (P : RunEngine → Prop) (m : M A) (Q : A → RunEngine → Prop)
  (E : RunEngine → Prop) : Prop :=
  ∀ e, P e → match m e with
             | (Ret a, e') => Q a e'
             | (Threw _, e') => E e'
             | (OutOfFuel, _) => False
             | _ => True
             end.

Lemma ends_ret {A} (P : RunEngine → Prop) (a : A) Q E : (∀ e, P e → Q a e) → ends P (mret a) Q E.
Proof. intros HQ e He. by apply HQ. Qed.
Lemma ends_gets {A} (P : RunEngine → Prop) (f : RunEngine → A) Q E :
  (∀ e, P e → Q (f e) e) → ends P (gets f) Q E.
Proof. intros HQ e He. by apply HQ. Qed.
Lemma ends_modify (P : RunEngine → Prop) f (Q : unit → RunEngine → Prop) E :
  (∀ e, P e → Q () (f e)) → ends P (modify f) Q E.
Proof. intros HQ e He. by apply HQ. Qed.
Lemma ends_bind {A B} P (m : M A) (f : A → M B) R Q E :
  ends P m R E → (∀ a, ends (R a) (f a) Q E) → ends P (m ≫= f) Q E.
Proof.
  intros Hm Hf e He. specialize (Hm e He). unfold mbind, M_bind in *.
  destruct (m e) as [[a| | | | |] e']; try done. by apply Hf.
Qed.
Lemma ends_weaken {A} (P P' : RunEngine → Prop) (m : M A) (Q Q' : A → RunEngine → Prop)
  (E E' : RunEngine → Prop) :
  ends P m Q E → (∀ e, P' e → P e) → (∀ a e, Q a e → Q' a e) → (∀ e, E e → E' e) → ends P' m Q' E'.
Proof.
  intros Hm HP HQ HE e He. specialize (Hm e (HP e He)).
  destruct (m e) as [[a| | | | |] e']; auto.
Qed.
Lemma ends_attempt {A} P (m : M A) (Q : RunEngine → Prop) E :
  ends P m (λ _, Q) Q → ends P (attempt m) (λ _, Q) E.
Proof.
  intros Hm e He. specialize (Hm e He). unfold attempt. by destruct (m e) as [[a| | | | |] e'].
Qed.
Lemma ends_no_fuel {A} P (m : M A) : no_fuel m → ends P m (λ _ _, True) (λ _, True).
Proof. intros Hm e _. specialize (Hm e). by destruct (m e) as [[a| | | | |] e']. Qed.

Lemma ends_given {A} (φ : Prop) P (m : M A) Q E :
  (φ → ends P m Q E) → ends (λ e, φ ∧ P e) m Q E.
Proof. intros Hm e [Hφ He]. by apply Hm. Qed.

(** What consists of steps that cost nothing. *)
Lemma ends_steps {A} thrown seen k r (m : M A) :
  no_fuel m → (∀ e0, keeps (hsteps Defers e0) (hsteps Defers e0) m) →
  ends (budget thrown seen k r) m (λ _, budget thrown seen k r) (budget thrown seen k r).
Proof.
  intros Hf Hm e He.
  pose proof (steps_keep Defers (budget thrown seen k r) m (budget_step thrown seen k r) Hm e He) as Hw.
  specialize (Hf e). unfold wp in Hw. by destruct (m e) as [[a| | | | |] e'].
Qed.

Lemma budget_le thrown seen k k' r r' e :
  budget thrown seen k r e → k ≤ k' → r ≤ r' → budget thrown seen k' r' e.
Proof. unfold budget. lia. Qed.

Lemma budget_pause thrown seen k r e c :
  (c = control e ∨ c = set_ctl (rc_pause (ctl (control e))) (control e)
   ∨ c = set_ctl (rc_pause (ctl (control e))) (set_deferred_pause false (control e))) →
  budget thrown seen k r e → budget thrown seen (S k) r (set_control c e).
Proof.
  intros Hc [Hk Hr]. split; [|exact Hr]. unfold credit in *. simpl.
  pose proof (due_pause thrown seen (control e)) as Hd.
  destruct Hc as [->|[->| ->]]; [lia| |]; [lia|].
  change (due thrown seen (set_ctl (rc_pause (ctl (control e))) (set_deferred_pause false (control e))))
    with (due thrown seen (set_ctl (rc_pause (ctl (control e))) (control e))). lia.
Qed.

Lemma apply_deferred_cases c :
  apply_deferred c = c ∨ apply_deferred c = set_ctl (rc_pause (ctl c)) c
  ∨ apply_deferred c = set_ctl (rc_pause (ctl c)) (set_deferred_pause false c).
Proof. unfold apply_deferred. destruct (deferred_pause c); auto. Qed.

Lemma ends_checkpoint thrown seen k r :
  ends (budget thrown seen k r) handle_checkpoint (λ _, budget thrown seen (S k) r)
    (budget thrown seen (S k) r).
Proof.
  unfold handle_checkpoint. eapply (ends_bind _ _ _ (λ _, budget thrown seen k r)).
  { by apply ends_gets. }
  intros []; [intros e He; eapply budget_le; [exact He|lia|done]|].
  eapply (ends_bind _ _ _ (λ _, budget thrown seen k r)).
  { apply ends_modify. intros e [Hk Hr]. split; [exact Hk|]. unfold rework in *. simpl. lia. }
  intros ?. eapply (ends_bind _ _ _ (λ _, budget thrown seen k r)); [by apply ends_gets|].
  intros uid. eapply (ends_bind _ _ _ (λ _, budget thrown seen k r)).
  { unfold snapshot. destruct checkpoint_hook; [|by apply ends_ret].
    eapply (ends_bind _ _ _ (λ _, budget thrown seen k r)); [by apply ends_gets|].
    intros t. by apply ends_modify. }
  intros ?. apply ends_modify. intros e He. apply budget_pause; [apply apply_deferred_cases|exact He].
Qed.

(** A message costs at most one pause. *)
Lemma ends_handle thrown seen k r m :
  ends (budget thrown seen k r) (handle m) (λ _, budget thrown seen (S k) r) (budget thrown seen (S k) r).
Proof.
  destruct (allowed Defers m) eqn:Hp; revgoals.
  - unfold handle. destruct (route m) as [[key m']|x] eqn:Hr.
    + assert (m' = Checkpoint ∨ m' = Pause false) as [-> | ->].
      { destruct m; try discriminate Hp; simpl in *.
        - destruct m; try discriminate Hp; try discriminate Hr; injection Hr as <- <-; simpl in *;
            try discriminate Hp; [by left|]. destruct defer; [discriminate Hp|by right].
        - injection Hr as <- <-. by left.
        - injection Hr as <- <-. destruct defer; [discriminate Hp|by right]. }
      * change (ends (budget thrown seen k r) (handle_checkpoint;; mret (@None string))
          (λ _, budget thrown seen (S k) r) (budget thrown seen (S k) r)).
        eapply ends_bind; [apply ends_checkpoint|]. intros ?. by apply ends_ret.
      * intros e He. apply (budget_pause _ _ _ _ e); [right; by left|exact He].
    + intros e He. eapply budget_le; [exact He|lia|done].
  - eapply ends_weaken; [apply ends_steps|done| |].
    + apply no_fuel_handle.
    + intros e0. by apply handle_steps.
    + intros a e He. eapply budget_le; [exact He|lia|done].
    + intros e He. eapply budget_le; [exact He|lia|done].
Qed.

(** ** Injected plans and the pause gate *)

Notation none := (λ _ : RunEngine, False).

Definition item_bound (n : nat) (ip : option PlanItem * Plan) : Prop :=
  match ip.1 with None => True | Some _ => ∃ k, n = S k ∧ at_most k ip.2 end.

(** Whatever is bounded by the control plane, the clock and the cache alone. *)
Lemma budget_channel thrown seen k r ch e :
  budget thrown seen k r e → budget thrown seen k r (set_channel ch e).
Proof. done. Qed.

Lemma ends_await thrown seen k r :
  ends (budget thrown seen k r) await (λ _, budget thrown seen k r) none.
Proof.
  intros e He%budget_await. unfold await. fold (await_step e). by destruct (_ && _).
Qed.

Lemma ends_next_item thrown seen k r n p :
  at_most n p →
  ends (budget thrown seen k r) (next_item p)
    (λ ip e, item_bound n ip ∧ budget thrown seen k r e) none.
Proof.
  intros Hp. unfold next_item. eapply ends_bind; [apply ends_await|]. intros t e He.
  unfold atomic. assert (match plan_next p t (channel e) with
    | (None, _, _) => True | (Some _, p', _) => match n with 0 => False | S n => at_most n p' end end) as Hn.
  { destruct n; apply Hp. }
  destruct (plan_next p t (channel e)) as [[[i|] p'] ch]; simpl in *; (split; [|by apply budget_channel]).
  - destruct n as [|n]; [done|]. exists n. done.
  - done.
Qed.

Lemma ends_answer thrown seen k r :
  ends (budget thrown seen k r) answer_plan (λ _, budget thrown seen k r) none.
Proof. by apply ends_modify. Qed.

Lemma ends_injected thrown seen r fuel : ∀ k n p, at_most n p → n < fuel →
  ends (budget thrown seen k r) (run_injected_plan fuel p) (λ _, budget thrown seen (k + n) r) none.
Proof.
  induction fuel as [|fuel IH]; intros k n p Hp Hn; [lia|]. simpl.
  eapply (ends_bind _ _ _ (λ _, budget thrown seen k r)); [by apply ends_gets|].
  intros aborting.
  assert (∀ e, budget thrown seen k r e → budget thrown seen (k + n) r e) as Hle.
  { intros e He. eapply budget_le; [exact He|lia|done]. }
  destruct aborting; [by apply ends_ret|].
  eapply ends_bind; [by apply ends_next_item|]. intros [[i|] p'] e [Hi He]; [|by apply Hle].
  destruct Hi as (n' & -> & Hp'). simpl in Hp'. revert e He. simpl fst. cbv iota.
  assert (∀ m, ends (budget thrown seen k r)
    (r0 ← attempt (handle m);
     match r0 with
     | Err _ => mret ()
     | Ok _ => match i with Respond _ => answer_plan | Bare _ => mret () end;;
               run_injected_plan fuel p'
     end) (λ _, budget thrown seen (k + S n') r) none) as Hm.
  { intros m. eapply ends_bind; [apply ends_attempt, ends_handle|]. intros [u|x].
    - eapply (ends_bind _ _ _ (λ _, budget thrown seen (S k) r)).
      + destruct i; [by apply ends_ret|apply ends_answer].
      + intros ?. eapply ends_weaken; [apply (IH (S k) n' p'); [done|lia]|done| |done].
        intros ? e He. eapply budget_le; [exact He|lia|done].
    - apply ends_ret. intros e He. eapply budget_le; [exact He|lia|done]. }
  change (ends (budget thrown seen k r)
    (match item_msg i with
     | Raise _ => mret ()
     | m => r0 ← attempt (handle m);
            match r0 with
            | Err _ => mret ()
            | Ok _ => match i with Respond _ => answer_plan | Bare _ => mret () end;;
                      run_injected_plan fuel p'
            end
     end) (λ _, budget thrown seen (k + S n') r) none).
  destruct (item_msg i); try apply Hm. by apply ends_ret.
Qed.

Definition cb_len (cb : option SuspendCallback) : nat := default 0 (len <$> cb).

Lemma ends_run_injected thrown seen k r fuel cb :
  cb_len cb < fuel →
  ends (budget thrown seen k r) (run_injected fuel cb) (λ _, budget thrown seen (k + cb_len cb) r) none.
Proof.
  intros Hf. destruct cb as [f|]; simpl.
  - apply (ends_injected thrown seen r fuel k (len f)); [apply Hlen|exact Hf].
  - apply ends_ret. intros e He. eapply budget_le; [exact He|lia|done].
Qed.

Lemma ends_ack thrown seen k r :
  ends (λ e, budget thrown seen k r e ∧ pause_pending seen (control e) = true) (ack seen)
    (λ seen' e, 0 < k ∧ budget thrown seen' (pred k) r e) none.
Proof.
  intros e [[Hk Hr] Hp]. unfold ack, atomic, ack_pause. unfold credit, due in Hk. rewrite Hp in Hk.
  unfold pause_pending in Hp. apply negb_true_iff in Hp. rewrite Hp. simpl in *.
  split; [lia|]. split; [|exact Hr]. unfold credit, due, pause_pending. simpl.
  rewrite Z.eqb_refl. unfold interrupt_pending in *. simpl in *. lia.
Qed.

Lemma ends_ack_any thrown seen k r :
  ends (budget thrown seen k r) (ack seen) (λ seen', budget thrown seen' k r) none.
Proof.
  intros e He. destruct (pause_pending seen (control e)) eqn:Hp.
  - pose proof (ends_ack thrown seen k r e (conj He Hp)) as Ha.
    destruct (ack seen e) as [[a| | | | |] e']; try done.
    destruct Ha as [_ Ha]. eapply budget_le; [exact Ha|lia|done].
  - unfold ack, atomic, ack_pause. unfold pause_pending in Hp. apply negb_false_iff in Hp.
    by rewrite Hp.
Qed.

(** A taken suspension's plans are paid for by what it was due. *)
Lemma ends_take_suspension thrown seen k r :
  ends (budget thrown seen k r) take_suspension
    (λ su e, default 0 (plans_len <$> su) ≤ k ∧ budget thrown seen (k - default 0 (plans_len <$> su)) r e) none.
Proof.
  intros e [Hk Hr]. unfold credit, due in Hk. simpl. split; [lia|]. split; [|exact Hr].
  unfold credit, due, pause_pending, interrupt_pending in *. simpl in *. lia.
Qed.

Lemma ends_park thrown seen k r n :
  ends (budget thrown seen k r) (park n) (λ _, budget thrown seen k r) none.
Proof.
  unfold park. eapply (ends_bind _ _ _ (λ _, budget thrown seen k r)); [by apply ends_gets|]. intros i.
  destruct (decide _); [by apply ends_ret|]. eapply ends_bind; [apply ends_await|]. intros t.
  eapply (ends_bind _ _ _ (λ _, budget thrown seen k r)); [by apply ends_gets|]. intros j.
  destruct (decide _); [by apply ends_ret|]. by intros e He.
Qed.

Notation any := (λ _ : RunEngine, True).

Lemma ends_any {A} P (m : M A) Q E : ends P m Q E → ends P m Q any.
Proof. intros Hm. by eapply ends_weaken. Qed.

Lemma ends_on_resume thrown seen k r :
  ends (budget thrown seen k r) on_resume (λ _, budget thrown seen k r) any.
Proof.
  unfold on_resume. eapply (ends_bind _ _ _ (λ _, budget thrown seen k r)).
  { apply ends_modify. intros e [Hk Hr]. split; [exact Hk|]. unfold rework in *.
    unfold on_state, arm_replay. simpl. destruct (msg_cache (state e)) eqn:Hc; simpl in *;
      rewrite ?Hc, ?length_app in *; simpl in *; lia. }
  intros ?. eapply ends_any, ends_steps; [|intros e0; apply resume_steps].
  unfold ignore. apply no_fuel_bind; [done|]. intros s.
  apply no_fuel_bind; [|intros ?; apply no_fuel_bind; [apply no_fuel_restore|intros ?; apply no_fuel_record]].
  apply no_fuel_for_each. intros obj. apply no_fuel_bind; [done|]. intros ?.
  apply no_fuel_bind; [apply no_fuel_attempt, no_fuel_ask_ok|done].
Qed.

(** One pass through the gate, once its request is taken. *)
Lemma ends_pass thrown seen k r fuel n content pre post (rest : Z → M Z) (Q : Z → RunEngine → Prop) :
  cb_len pre < fuel → cb_len post < fuel →
  (∀ seen', ends (budget thrown seen' (k + cb_len pre + cb_len post) r) (rest seen') Q any) →
  (∀ seen' e, budget thrown seen' (k + cb_len pre) r e → Q seen' e) →
  ends (budget thrown seen k r)
    (on_pause_enter content;;
     run_injected fuel pre;;
     paused ← gets (λ e, is_paused (ctl (control e)));
     when paused (park n);;
     seen ← ack seen;
     interrupted ← gets (λ e, interrupt_pending thrown (control e));
     if interrupted : bool then restore_monitors;; mret seen else
     on_resume;;
     run_injected fuel post;;
     rest seen) Q any.
Proof.
  intros Hpre Hpost Hrest HQ.
  eapply (ends_bind _ _ _ (λ _, budget thrown seen k r)).
  { eapply ends_any, ends_steps; [apply no_fuel_pause_enter|intros e0; apply on_pause_enter_steps]. }
  intros ?. eapply ends_bind; [by eapply ends_any, ends_run_injected|]. intros ?.
  eapply (ends_bind _ _ _ (λ _, budget thrown seen (k + cb_len pre) r)); [by apply ends_gets|]. intros paused.
  eapply (ends_bind _ _ _ (λ _, budget thrown seen (k + cb_len pre) r)).
  { destruct paused; [eapply ends_any, ends_park|by apply ends_ret]. }
  intros ?. eapply ends_bind; [eapply ends_any, ends_ack_any|]. intros seen'.
  eapply (ends_bind _ _ _ (λ _, budget thrown seen' (k + cb_len pre) r)); [by apply ends_gets|]. intros [|].
  - eapply (ends_bind _ _ _ (λ _, budget thrown seen' (k + cb_len pre) r)).
    + eapply ends_any, ends_steps; [apply no_fuel_restore|intros e0; apply restore_monitors_steps].
    + intros ?. apply ends_ret. apply HQ.
  - eapply ends_bind; [apply ends_on_resume|]. intros ?.
    eapply ends_bind; [by eapply ends_any, ends_run_injected|]. intros ?. apply Hrest.
Qed.

(** Every pass through the gate answers a request. *)
Lemma ends_pause_gate thrown r fuel : ∀ seen k, k < fuel →
  ends (budget thrown seen k r) (pause_gate fuel thrown seen) (λ seen', budget thrown seen' k r) any.
Proof.
  induction fuel as [|fuel IH]; intros seen k Hf; [lia|]. simpl.
  eapply (ends_bind _ _ _ (λ b e, budget thrown seen k r e ∧ pause_pending seen (control e) = b));
    [by apply ends_gets|]. intros [|].
  2:{ apply ends_ret. by intros e []. }
  eapply (ends_bind _ _ _ (λ _ e, budget thrown seen k r e ∧ pause_pending seen (control e) = true));
    [by apply ends_gets|]. intros n.
  eapply ends_bind; [eapply ends_any, ends_ack|]. intros seen1. apply ends_given. intros Hk.
  eapply ends_bind; [eapply ends_any, ends_take_suspension|]. intros su. apply ends_given. intros Hsu.
  set (k1 := pred k - default 0 (plans_len <$> su)) in *.
  set (pre := su ← su; susp_pre_plan su). set (post := su ← su; susp_post_plan su).
  assert (k1 + cb_len pre + cb_len post = pred k) as Hsum.
  { subst k1 pre post. destruct su as [su|]; simpl in *; unfold plans_len, cb_len in *; simpl in *; lia. }
  apply ends_pass; [lia|lia| |].
  - intros seen'. rewrite Hsum. eapply ends_weaken; [apply (IH seen' (pred k)); lia|done| |done].
    intros a e He. eapply budget_le; [exact He|lia|done].
  - intros seen' e He. eapply budget_le; [exact He|lia|done].
Qed.

(** ** The loop *)

Lemma ends_take thrown seen k r :
  ends (budget thrown seen k r) (take thrown)
    (λ rs e, match rs.1 with
             | Some _ => 0 < k ∧ budget rs.2 seen (pred k) r e
             | None => budget rs.2 seen k r e
             end) none.
Proof.
  intros e [Hk Hr]. unfold take, atomic, take_interrupt.
  destruct (_ =? _)%Z eqn:Hp; simpl; [done|]. unfold credit, due, interrupt_pending in Hk.
  rewrite Hp in Hk. simpl in Hk. split; [lia|]. split; [|exact Hr].
  unfold credit, due, interrupt_pending, pause_pending in *. simpl in *. rewrite Z.eqb_refl. simpl. lia.
Qed.

Lemma ends_throw thrown seen k r t :
  ends (budget thrown seen k r) (throw_into_plan t) (λ _, budget thrown seen k r) any.
Proof.
  unfold throw_into_plan. eapply (ends_bind _ _ _ (λ _, budget thrown seen k r)); [by apply ends_gets|].
  intros [sink|]; [|by apply ends_ret].
  eapply (ends_bind _ _ _ (λ _, budget thrown seen k r)); [by apply ends_modify|]. intros ?.
  eapply (ends_bind _ _ _ (λ _, budget thrown seen k r)).
  - apply ends_modify. intros e [Hk Hr]. split; [exact Hk|]. unfold rework in *. simpl. lia.
  - intros ?. by apply ends_ret.
Qed.

(** A message replayed or taken from the plan; what it may cost later is counted: two for
    a cached message, four for an item of the plan. *)
Lemma ends_pull thrown seen k r n p :
  at_most n p →
  ends (budget thrown seen k r) (pull_msg p)
    (λ mp e, match mp.1 with
             | None => True
             | Some _ => ∃ n' r', at_most n' mp.2 ∧ 2 * r' + 4 * n' + 2 ≤ 2 * r + 4 * n
                         ∧ budget thrown seen k r' e
             end) any.
Proof.
  intros Hp. unfold pull_msg.
  eapply (ends_bind _ _ _ (λ q e, budget thrown seen k r e ∧ replay_queue (state e) = q));
    [by apply ends_gets|].
  intros [|m q].
  - eapply (ends_bind _ _ _ (λ ip e, item_bound n ip ∧ budget thrown seen k r e)).
    { intros e [He _]. pose proof (ends_next_item thrown seen k r n p Hp e He) as Hn.
      by destruct (next_item p e) as [[a| | | | |] e']. }
    intros [[i|] p']; apply ends_given; intros Hi; simpl fst; simpl snd; cbv iota.
    + destruct Hi as (n' & -> & Hp'). destruct i as [m|m].
      * eapply (ends_bind _ _ _ (λ _, budget thrown seen k (S r))).
        -- apply ends_modify. intros e [Hk Hr]. split; [exact Hk|]. unfold rework in *. simpl.
           destruct (_ && _); simpl; rewrite ?length_app; simpl; lia.
        -- intros ?. apply ends_ret. intros e He. exists n', (S r). split_and!; [done|lia|done].
      * apply ends_ret. intros e He. exists n', r. split_and!; [done|lia|done].
    + by apply ends_ret.
  - eapply (ends_bind _ _ _ (λ _ e, 0 < r ∧ budget thrown seen k (pred r) e)).
    + apply ends_modify. intros e [[Hk Hr] Hq]. unfold rework in Hr. rewrite Hq in Hr. simpl in Hr.
      split; [lia|]. split; [exact Hk|]. unfold rework. simpl. lia.
    + intros ?. apply ends_given. intros Hr. apply ends_ret. intros e He. exists n, (pred r).
      split_and!; [done|lia|done].
Qed.

Lemma ends_handle_msg thrown seen k r m :
  ends (budget thrown seen k r) (handle_msg thrown seen m) (λ hs, budget hs.2 seen (S k) r) any.
Proof.
  unfold handle_msg.
  assert (ends (budget thrown seen k r)
    (r0 ← attempt (handle m);
     match r0 with
     | Ok uid => mret (HDone uid, thrown)
     | Err Cancelled =>
         rs ← take thrown;
         match rs.1 with
         | None =>
             pending ← gets (λ e, pause_pending seen (control e));
             mret (if pending : bool then HPausing else HThrown (ThError Cancelled), rs.2)
         | Some Halt => mret (HHalt, rs.2)
         | Some (Throw kind) => th ← throw_kind kind; mret (HThrown th, rs.2)
         end
     | Err x => mret (HThrown (ThError x), thrown)
     end) (λ hs, budget hs.2 seen (S k) r) any) as Hm.
  { eapply ends_bind; [apply ends_attempt, ends_handle|]. intros [uid|x]; [by apply ends_ret|].
    destruct x; try by apply ends_ret.
    eapply ends_bind; [eapply ends_any, ends_take|]. intros [[req|] thrown']; simpl fst; simpl snd; cbv iota.
    - apply ends_given. intros _. destruct req as [|kind].
      + apply ends_ret. intros e He. eapply budget_le; [exact He|lia|done].
      + eapply (ends_bind _ _ _ (λ _, budget thrown' seen (S k) r)).
        * unfold throw_kind. eapply (ends_bind _ _ _ (λ _, budget thrown' seen (S k) r)).
          -- apply ends_gets. intros e He. eapply budget_le; [exact He|lia|done].
          -- intros c. by apply ends_ret.
        * intros th. by apply ends_ret.
    - eapply (ends_bind _ _ _ (λ _, budget thrown' seen (S k) r)); [by apply ends_gets|].
      intros pending. by apply ends_ret. }
  destruct m; exact Hm.
Qed.

Lemma ends_run_loop fuel : ∀ p thrown seen uids k r n,
  at_most n p → k + 2 * r + 4 * n + 2 ≤ fuel →
  ends (budget thrown seen k r) (run_loop fuel p thrown seen uids) (λ _, any) any.
Proof.
  induction fuel as [|fuel IH]; intros p thrown seen uids k r n Hp Hf; [lia|]. simpl.
  eapply ends_bind; [apply ends_pause_gate; lia|]. intros seen1.
  eapply ends_bind; [eapply ends_any, ends_take|]. intros [[req|] thrown1]; simpl fst; simpl snd; cbv iota.
  - apply ends_given. intros Hk. destruct req as [|kind]; [apply ends_no_fuel; auto with fuel|].
    eapply (ends_bind _ _ _ (λ _, budget thrown1 seen1 (pred k) r)).
    { unfold throw_kind. eapply (ends_bind _ _ _ (λ _, budget thrown1 seen1 (pred k) r)); [by apply ends_gets|].
      intros c. by apply ends_ret. }
    intros th. eapply ends_bind; [apply ends_throw|].
    intros [|]; [|apply ends_no_fuel; auto with fuel]. eapply IH; [exact Hp|lia].
  - eapply ends_bind; [by apply ends_pull|].
    intros [[[m responder]|] p1]; [|apply ends_no_fuel; auto with fuel].
    intros e (n' & r' & Hp1 & Hle & He). revert e He. simpl in Hp1.
    match goal with |- ∀ e, _ → match ?c e with _ => _ end =>
      change (ends (budget thrown1 seen1 k r') c (λ _, any) any) end.
    eapply ends_bind; [apply ends_handle_msg|]. intros [h thrown2]. simpl snd.
    destruct h as [uid| | |t].
    + eapply (ends_bind _ _ _ (λ _, budget thrown2 seen1 (S k) r')).
      { destruct responder; [eapply ends_any, ends_answer|by apply ends_ret]. }
      intros ?. eapply IH; [exact Hp1|lia].
    + eapply IH; [exact Hp1|lia].
    + apply ends_no_fuel; auto with fuel.
    + eapply ends_bind; [apply ends_throw|].
      intros [|]; [|apply ends_no_fuel; auto with fuel]. eapply IH; [exact Hp1|lia].
Qed.

(** ** A call of [run_async] *)

(** The fuel a call needs for a plan of [n] items. *)
Definition fuel_for (n : nat) e : nat := ahead (tick e) + 2 * rework e + 4 * n + 2.

Lemma ends_bounded fuel p thrown seen k r n :
  at_most n p → k + 2 * r + 4 * n + 2 ≤ fuel →
  ends (budget thrown seen k r) (bounded_loop fuel p thrown seen) (λ _, any) any.
Proof.
  intros Hp Hf e He. unfold bounded_loop, attempt. destruct loop_timeout as [d|].
  - pose proof (ends_run_loop fuel p thrown seen [] k r n Hp Hf (set_bounded true e) He) as Hl.
    by destruct (run_loop _ _ _ _ _ _) as [[a| | | | |] e'].
  - pose proof (ends_run_loop fuel p thrown seen [] k r n Hp Hf e He) as Hl.
    by destruct (run_loop _ _ _ _ _ _) as [[a| | | | |] e'].
Qed.

Lemma ends_run_async fuel pps p n e :
  at_most n (foldl (λ p pp, pp p) p pps) → fuel_for n e ≤ fuel → (run_async fuel pps p e).1 ≠ OutOfFuel.
Proof.
  intros Hp Hf. destruct (is_running (ctl (control e))) eqn:Hr.
  { unfold run_async, mbind, M_bind, gets. cbv beta iota. by rewrite Hr. }
  assert (ends (λ e0, e0 = e) (run_async fuel pps p) (λ _, any) any) as Hends.
  2:{ specialize (Hends e eq_refl). by destruct (run_async fuel pps p e) as [[a| | | | |] e']. }
  unfold run_async.
  eapply (ends_bind _ _ _ (λ r e0, r = false ∧ e0 = e)); [apply ends_gets; by intros e0 ->|].
  intros r. apply ends_given. intros ->.
  eapply (ends_bind _ _ _ (λ _ e0, e0 = on_control claim e)); [apply ends_modify; by intros e0 ->|].
  intros ?. eapply (ends_bind _ _ _ (λ t e0, t = interrupt_seq (control e) ∧ e0 = on_control claim e));
    [apply ends_gets; by intros e0 ->|].
  intros thrown. apply ends_given. intros ->.
  set (e2 := on_control start_up (on_control claim e)).
  eapply (ends_bind _ _ _ (λ _ e0, e0 = e2)); [apply ends_modify; by intros e0 ->|].
  intros ?. eapply (ends_bind _ _ _ (λ t e0, t = pause_seq (ctl (control e)) ∧ e0 = e2));
    [apply ends_gets; by intros e0 ->|].
  intros seen. apply ends_given. intros ->.
  set (thrown := interrupt_seq (control e)). set (seen := pause_seq (ctl (control e))).
  assert (budget thrown seen (ahead (tick e)) (rework e) e2) as He2.
  { split; [|done]. unfold credit, due, pause_pending, interrupt_pending. simpl.
    unfold thrown, seen. rewrite !Z.eqb_refl. simpl. lia. }
  eapply (ends_bind _ _ _ (λ _, budget thrown seen (ahead (tick e)) (rework e))).
  { apply ends_modify. intros e0 ->. exact He2. }
  intros ?. eapply (ends_bind _ _ _ (λ _, budget thrown seen (ahead (tick e)) (rework e))).
  { unfold wait_for_suspenders. eapply (ends_bind _ _ _ (λ _, budget thrown seen (ahead (tick e)) (rework e)));
      [by apply ends_gets|].
    intros [|]; [by apply ends_ret|]. eapply ends_bind; [eapply ends_any, ends_await|].
    intros ?. by apply ends_ret. }
  intros ?. eapply ends_bind; [by eapply ends_bounded|]. intros outcome.
  apply ends_no_fuel. apply no_fuel_bind; [apply no_fuel_clean_up|intros ?; apply no_fuel_lift].
Qed.

(** ** Waiting for good *)

Definition no_hang {A} (m : M A) : Prop := ∀ e, (m e).1 ≠ Hung.

Lemma no_hang_bind {A B} (m : M A) (f : A → M B) :
  no_hang m → (∀ a, no_hang (f a)) → no_hang (m ≫= f).
Proof.
  intros Hm Hf e. specialize (Hm e). unfold mbind, M_bind.
  destruct (m e) as [[a| | | | |] e']; try done. apply Hf.
Qed.
Lemma no_hang_ignore {A} (m : M A) : no_hang m → no_hang (ignore m).
Proof.
  intros Hm. apply no_hang_bind; [|done]. intros e. specialize (Hm e). unfold attempt.
  by destruct (m e) as [[a| | | | |] e'].
Qed.
Lemma no_hang_for_each {A} (f : A → M unit) l : (∀ x, no_hang (f x)) → no_hang (for_each f l).
Proof. intros Hf. induction l; simpl; [done|]. by apply no_hang_bind. Qed.
Lemma no_hang_lift {A} (r : Result A BsrsError) : no_hang (lift r).
Proof. by destruct r. Qed.
Lemma no_hang_await : no_hang await.
Proof. intros e. unfold await. by destruct (_ && _). Qed.
Lemma no_hang_ask {A} (f : Instant → Result A BsrsError) : no_hang (ask_ok f).
Proof.
  apply no_hang_bind; [|apply no_hang_lift]. apply no_hang_bind; [apply no_hang_await|done].
Qed.
Lemma no_hang_stop objs : no_hang (stop_on_pause_all objs).
Proof.
  apply no_hang_for_each. intros obj. apply no_hang_bind; [done|]. intros _.
  apply no_hang_ignore, no_hang_ask.
Qed.

(** The clean-up waits for answers only. *)
Lemma no_hang_clean_up : no_hang clean_up.
Proof.
  unfold clean_up, undo. do 2 (apply no_hang_bind; [done|intros ?]).
  repeat (apply no_hang_bind; [first [apply no_hang_stop|apply no_hang_for_each; intros ?|done]|intros ?]); try done.
  apply no_hang_ignore, no_hang_ask.
Qed.

(** A call with an overall timeout does not wait for good. *)
Lemma no_hang_run_async fuel pps p e :
  is_Some loop_timeout → (run_async fuel pps p e).1 ≠ Hung.
Proof.
  intros [d Hd]. revert e. change (no_hang (run_async fuel pps p)). unfold run_async.
  apply no_hang_bind; [done|]. intros [|]; [done|].
  do 5 (apply no_hang_bind; [done|intros ?]).
  apply no_hang_bind; [|intros ?].
  { unfold wait_for_suspenders. apply no_hang_bind; [done|]. intros [|]; [done|].
    apply no_hang_bind; [apply no_hang_await|done]. }
  apply no_hang_bind; [|intros ?; apply no_hang_bind; [apply no_hang_clean_up|intros ?; apply no_hang_lift]].
  intros e0. unfold bounded_loop. rewrite Hd. by destruct (attempt _ _) as [[r| | | | |] e1].
Qed.

(** ** Theorems *)

End enough_fuel.

Module TerminationExamples.
Import Sample World.

(** The run is paused at one instant, resumed at another and stopped at a third. *)
#[local] Instance busy : Schedule :=
  {| noise t := match t with 3 => [NPause false] | 6 => [NResume] | 9 => [NStop] | _ => [] end;
     pick _ := false; deadline _ := false; now t := Z.of_nat t |}.

Lemma list_at_most (p : list PlanItem) : at_most (length p) (p : Plan).
Proof. induction p as [|i p IH]; intros t ch; simpl; [done|exact IH]. Qed.

Lemma busy_until t : 10 ≤ t → weights (λ _, 0) (noise t) = 0.
Proof. intros Ht. do 10 (destruct t as [|t]; [lia|]). done. Qed.

Definition long_plan : Plan :=
  Bare <$> [OpenRun (mkMeta None ∅ None); Checkpoint; Create "primary"; Read (device 0 "det");
            Save; Sleep 1%Z; Sleep 1%Z; CloseRun "success" None].

(** A plan that waits for what never comes, with and without an overall timeout. *)
#[local] Instance an_overall_timeout : Hooks :=
  {| md_validator := None; md_normalizer := None; scan_id_source := None;
     input_handler := None; commands _ := None; checkpoint_hook := true;
     loop_timeout := Some 5%Z; error_text _ := "error" |}.
Definition stuck_plan : Plan := Bare <$> [WaitFor [λ _, None] None].
Definition stuck (hooks : Hooks) (fuel : nat) :=
  run_async_with (H3 := hooks) fuel [] stuck_plan (mkOptions ∅ []) fresh_engine.

End TerminationExamples.
