(* ===== verification/Calm.v ===== *)
(** * A run nobody interrupts

    Pausing, rewinding and interrupting are the bulk of the run loop. Where no other
    task pauses or interrupts the engine and the plan sends no Pause, all of it
    is invisible: the loop is the plain interpreter that takes one item after the other
    and handles it. *)

From S2P Require Import Prelude Interfaces Errors Control Documents Compose Bundler Assets.
From S2P Require Import Device Machine Logic Handle RunLoop Steps.

Section calm.
Context `{JsonNumber, !TextFormat, !UuidSource, !Schedule, !Hooks, !PlanSource}.
Implicit Types (e : RunEngine) (p : Plan) (uids : list string).

(** ** The plain interpreter *)

(** What a plan's own message errors do: the innermost region gets them, else the run
    fails. *)
Definition plain_thrown (again : M RunResult) uids (t : Thrown) : M RunResult :=
  caught ← throw_into_plan t;
  if caught : bool then again else end_thrown uids t.

Definition keep_for_rewind (i : PlanItem) : M unit :=
  match i with
  | Bare m => modify (on_state (λ s,
      if rewindable s && is_cacheable m then set_msg_cache (msg_cache s ++ [msg_clone m]) s else s))
  | Respond _ => mret ()
  end.

Definition plain_item (again : list string → M RunResult) (i : PlanItem) uids : M RunResult :=
  match item_msg i with
  | Raise t => plain_thrown (again uids) uids t
  | m =>
      r ← attempt (handle m);
      match r with
      | Ok uid =>
          match i with Respond _ => answer_plan | Bare _ => mret () end;;
          again (uids ++ option_list uid)
      | Err x => plain_thrown (again uids) uids (ThError x)
      end
  end.

Fixpoint plain_loop (fuel : nat) p uids : M RunResult :=
  match fuel with
  | 0 => out_of_fuel
  | S fuel =>
      ip ← next_item p;
      match ip.1 with
      | None => end_of_plan uids
      | Some i => keep_for_rewind i;; plain_item (plain_loop fuel ip.2) i uids
      end
  end.

(** ** Calm *)

Definition calm_noise (n : Noise) : bool :=
  match n with
  | NPause _ | NAbort _ | NHalt _ | NStop | NSigint | NSuspend _ => false
  | _ => true
  end.

Context (Hcalm : ∀ t, Forall (λ n, calm_noise n = true) (noise t)).

(** No item of the plan requests a pause, now or for the next checkpoint. *)
Definition never_pauses (ok : Plan → Prop) : Prop :=
  ∀ p t ch, ok p → match plan_next p t ch with
                   | (None, _, _) => True
                   | (Some i, p', _) => allowed Checkpoints (item_msg i) = true ∧ ok p'
                   end.

(** Nothing is requested, no pause waits for a checkpoint, [q] is to be replayed. *)
Definition undisturbed (thrown seen : Z) (q : list Msg) e : Prop :=
  pause_seq (ctl (control e)) = seen ∧ interrupt_seq (control e) = thrown ∧ replay_queue (state e) = q
  ∧ deferred_pause (control e) = false.

Lemma calm_step thrown seen q n e :
  calm_noise n = true → undisturbed thrown seen q e → undisturbed thrown seen q (noise_step n e).
Proof.
  unfold undisturbed. destruct n; intros Hn He; try discriminate Hn; try exact He.
  - simpl. unfold release. repeat case_match; exact He.
  - simpl. unfold pump_compose. destruct (runs (state e) !! key) as [sl|]; [|exact He].
    destruct (sl_monitor_tasks sl !! obj) as [task|]; [|exact He]. case_match; [exact He|]. simpl.
    destruct (event _ _ _ _ _ _) as [[ev|] bd]; exact He.
  - simpl. unfold pump_deliver. case_match; exact He.
Qed.

Lemma calm_noises thrown seen q ns e :
  Forall (λ n, calm_noise n = true) ns → undisturbed thrown seen q e →
  undisturbed thrown seen q (noise_steps ns e).
Proof.
  intros Hns. revert e. induction Hns as [|n ns Hn _ IH]; intros e He; [exact He|].
  apply IH. by apply calm_step.
Qed.

Lemma calm_hstep thrown seen q e e' :
  undisturbed thrown seen q e → hstep Checkpoints e e' → undisturbed thrown seen q e'.
Proof.
  intros He Hs. unfold undisturbed in *.
  destruct Hs as [e e' []|e|c e Hc|obj e|obj e|obj v e|obj e|e e' []|e e' []|e e' []|e|e|e|e];
    simpl in *; try done; destruct He as (Hp & Hi & Hq & Hd); try (split_and!; congruence).
  - by apply (calm_noises thrown seen q (noise (tick e)) e).
  - unfold apply_deferred. by rewrite Hd.
Qed.

(** What does not pause leaves a calm engine calm. *)
Lemma calm_keeps thrown seen q {A} (m : M A) :
  (∀ e0, Logic.keeps (hsteps Checkpoints e0) (hsteps Checkpoints e0) m) →
  Logic.keeps (undisturbed thrown seen q) (undisturbed thrown seen q) m.
Proof. apply steps_keep, calm_hstep. Qed.

(** ** The loop is the interpreter *)

Lemma calm_gate fuel thrown seen q e :
  undisturbed thrown seen q e → pause_gate (S fuel) thrown seen e = (Ret seen, e).
Proof.
  intros (Hp & _ & _). simpl. unfold mbind, M_bind, gets, pause_pending. cbv beta iota.
  by rewrite Hp, Z.eqb_refl.
Qed.

Lemma calm_take thrown seen q e : undisturbed thrown seen q e → take thrown e = (Ret (None, thrown), e).
Proof.
  intros (_ & Hi & _). unfold take, atomic, take_interrupt. rewrite Hi, Z.eqb_refl. simpl.
  by destruct e.
Qed.

Lemma bind_ret {A B} (m : M A) (f : A → M B) a e e' : m e = (Ret a, e') → (m ≫= f) e = f a e'.
Proof. unfold mbind, M_bind. by intros ->. Qed.

Lemma bind_cong {A B} (m : M A) (f g : A → M B) e :
  (∀ a e', m e = (Ret a, e') → f a e' = g a e') → (m ≫= f) e = (m ≫= g) e.
Proof.
  unfold mbind, M_bind. intros Hfg. destruct (m e) as [[a| | | | |] e']; try done. by apply Hfg.
Qed.

Lemma bind_assoc {A B C} (m : M A) (f : A → M B) (g : B → M C) e :
  ((m ≫= f) ≫= g) e = (m ≫= (λ a, f a ≫= g)) e.
Proof. unfold mbind, M_bind. by destruct (m e) as [[a| | | | |] e']. Qed.

Lemma keeps_ret_state {A} thrown seen q (m : M A) a e e' :
  Logic.keeps (undisturbed thrown seen q) (undisturbed thrown seen q) m →
  undisturbed thrown seen q e → m e = (Ret a, e') → undisturbed thrown seen q e'.
Proof. intros Hm He Hr. specialize (Hm e He). unfold wp in Hm. by rewrite Hr in Hm. Qed.

(** The next item, and a plan that still does not pause. *)
Lemma next_item_ok ok thrown seen q p i p' e e' :
  never_pauses ok → ok p → undisturbed thrown seen q e → next_item p e = (Ret (Some i, p'), e') →
  undisturbed thrown seen q e' ∧ allowed Checkpoints (item_msg i) = true ∧ ok p'.
Proof.
  intros Hok Hp He Hn. split.
  { eapply keeps_ret_state; [|exact He|exact Hn]. apply calm_keeps. intros e0. apply next_item_steps. }
  unfold next_item, mbind, M_bind, atomic in Hn. destruct (await e) as [[t| | | | |] e1]; try done.
  specialize (Hok p t (channel e1) Hp). destruct (plan_next p t (channel e1)) as [[[j|] p2] ch]; [|done].
  by injection Hn as -> -> _.
Qed.

Lemma throw_undisturbed thrown seen q t b e e' :
  undisturbed thrown seen q e → throw_into_plan t e = (Ret b, e') →
  undisturbed thrown seen (if b then [] else q) e'.
Proof.
  intros He. unfold throw_into_plan, mbind, M_bind, gets, modify. cbv beta iota.
  destruct (last _) as [sink|]; intros [= <- <-]; [|exact He].
  destruct He as (Hp & Hi & Hq & Hd). by split_and!.
Qed.

Definition wants_answer (i : PlanItem) : bool := match i with Respond _ => true | Bare _ => false end.

Lemma pull_calm {A} thrown seen p (k : option (Msg * bool) * Plan → M A) e :
  undisturbed thrown seen [] e →
  (pull_msg p ≫= k) e =
  (ip ← next_item p;
   match ip.1 with
   | None => k (None, ip.2)
   | Some i => keep_for_rewind i;; k (Some (item_msg i, wants_answer i), ip.2)
   end) e.
Proof.
  intros (_ & _ & Hq & _). unfold pull_msg. rewrite bind_assoc.
  rewrite (bind_ret (gets _) _ (replay_queue (state e)) e e) by done. rewrite Hq, bind_assoc.
  apply bind_cong. intros [[[m|m]|] p'] e' _; done.
Qed.

Lemma handle_msg_calm {A} thrown seen q m (k : Handled * Z → M A) e :
  undisturbed thrown seen q e → allowed Checkpoints m = true →
  (handle_msg thrown seen m ≫= k) e =
  (match m with
   | Raise t => k (HThrown t, thrown)
   | m => r ← attempt (handle m);
          match r with
          | Ok uid => k (HDone uid, thrown)
          | Err x => k (HThrown (ThError x), thrown)
          end
   end) e.
Proof.
  intros He Hm.
  assert (((r ← attempt (handle m);
     match r with
     | Ok uid => mret (HDone uid, thrown)
     | Err Cancelled =>
         rs ← take thrown;
         match rs.1 with
         | None =>
             pending ← gets (λ e, pause_pending seen (control e));
             mret (if pending : bool then HPausing else HThrown (ThError Cancelled), rs.2)
         | Some Halt => mret (HHalt, rs.2)
         | Some (Throw kind) => th ← throw_kind kind; mret (HThrown th, rs.2)
         end
     | Err x => mret (HThrown (ThError x), thrown)
     end) ≫= k) e =
    (r ← attempt (handle m);
     match r with
     | Ok uid => k (HDone uid, thrown)
     | Err x => k (HThrown (ThError x), thrown)
     end) e) as Heq.
  { rewrite bind_assoc. apply bind_cong. intros [uid|x] e' Hr; [done|]. destruct x; try done.
    assert (undisturbed thrown seen q e') as He'.
    { eapply keeps_ret_state; [|exact He|exact Hr]. apply keeps_attempt, calm_keeps.
      intros e0. by apply handle_steps. }
    rewrite bind_assoc, (bind_ret _ _ _ _ _ (calm_take thrown seen q e' He')). simpl.
    destruct He' as (Hp & _). unfold mbind, M_bind, gets, pause_pending. cbv beta iota.
    by rewrite Hp, Z.eqb_refl. }
  destruct m; try exact Heq. done.
Qed.

Lemma keep_undisturbed thrown seen q i e :
  undisturbed thrown seen q e → undisturbed thrown seen q (keep_for_rewind i e).2.
Proof.
  intros He. destruct i; [|exact He]. simpl. unfold undisturbed, on_state. simpl.
  by destruct (_ && _).
Qed.

Lemma keep_ret i e : keep_for_rewind i e = (Ret (), (keep_for_rewind i e).2).
Proof. by destruct i. Qed.

(** One turn of the loop. *)
Definition after_msg (again : Plan → Z → list string → M RunResult) uids (mp : option (Msg * bool) * Plan)
    (thrown seen : Z) : M RunResult :=
  match mp with
  | (None, _) => end_of_plan uids
  | (Some (m, responder), p) =>
      hs ← handle_msg thrown seen m;
      match hs with
      | (HHalt, _) => end_interrupted uids "halt"
      | (HPausing, thrown_seq) => again p thrown_seq uids
      | (HThrown t, thrown_seq) => plain_thrown (again p thrown_seq uids) uids t
      | (HDone uid, thrown_seq) =>
          when responder answer_plan;; again p thrown_seq (uids ++ option_list uid)
      end
  end.

Lemma calm_turn fuel thrown seen q p uids e :
  undisturbed thrown seen q e →
  run_loop (S (S fuel)) p thrown seen uids e =
  (mp ← pull_msg p;
   after_msg (λ p thrown_seq uids, run_loop (S fuel) p thrown_seq seen uids) uids mp thrown seen) e.
Proof.
  intros He.
  change (run_loop (S (S fuel)) p thrown seen uids e) with
    ((pause_seen ← pause_gate (S fuel) thrown seen;
      rs ← take thrown;
      match rs with
      | (Some Halt, _) => end_interrupted uids "halt"
      | (Some (Throw kind), thrown_seq) =>
          th ← throw_kind kind;
          caught ← throw_into_plan th;
          if caught : bool then run_loop (S fuel) p thrown_seq pause_seen uids
          else end_interrupted uids (interrupt_exit_status kind)
      | (None, thrown_seq) =>
          mp ← pull_msg p;
          after_msg (λ p thrown_seq uids, run_loop (S fuel) p thrown_seq pause_seen uids) uids mp
            thrown_seq pause_seen
      end) e).
  rewrite (bind_ret _ _ _ _ _ (calm_gate fuel thrown seen q e He)).
  by rewrite (bind_ret _ _ _ _ _ (calm_take thrown seen q e He)).
Qed.

(** What both loops do with a thrown value is the same when they agree from then on. *)
Lemma thrown_agree thrown seen q (f g : M RunResult) uids t e :
  (∀ e', undisturbed thrown seen [] e' → f e' = g e') → undisturbed thrown seen q e →
  plain_thrown f uids t e = plain_thrown g uids t e.
Proof.
  intros Hfg He. apply bind_cong. intros [|] e' Ht; [|done].
  apply Hfg. exact (throw_undisturbed thrown seen q t true e e' He Ht).
Qed.

(** ... and so is what they do with a message. *)
Lemma message_agree thrown seen q (f g : list string → M RunResult) (ft gt : M RunResult) uids m e :
  (∀ uids e', undisturbed thrown seen q e' → f uids e' = g uids e') →
  (∀ e', undisturbed thrown seen [] e' → ft e' = gt e') →
  allowed Checkpoints m = true → undisturbed thrown seen q e →
  (r ← attempt (handle m);
   match r with
   | Ok uid => f (uids ++ option_list uid) | Err x => plain_thrown ft uids (ThError x)
   end) e =
  (r ← attempt (handle m);
   match r with
   | Ok uid => g (uids ++ option_list uid) | Err x => plain_thrown gt uids (ThError x)
   end) e.
Proof.
  intros Hfg Ht Hm He. apply bind_cong. intros r e' Hr.
  assert (undisturbed thrown seen q e') as He'.
  { eapply keeps_ret_state; [|exact He|exact Hr]. apply keeps_attempt, calm_keeps.
    intros e0. by apply handle_steps. }
  destruct r as [uid|x]; [by apply Hfg|by eapply thrown_agree].
Qed.

Lemma calm_plain ok fuel p thrown seen uids e :
  never_pauses ok → ok p → undisturbed thrown seen [] e →
  run_loop (S fuel) p thrown seen uids e = plain_loop fuel p uids e.
Proof.
  intros Hok. revert p uids e. induction fuel as [|fuel IH]; intros p uids e Hp He; [done|].
  rewrite (calm_turn _ _ _ []) by exact He. rewrite (pull_calm thrown seen) by exact He.
  change (plain_loop (S fuel) p uids e) with
    ((ip ← next_item p;
      match ip.1 with
      | None => end_of_plan uids
      | Some i => keep_for_rewind i;; plain_item (plain_loop fuel ip.2) i uids
      end) e).
  apply bind_cong. intros [[i|] p'] e1 Hn; [|done].
  destruct (next_item_ok ok thrown seen [] p i p' e e1 Hok Hp He Hn) as (He1 & Hi & Hp').
  cbv beta iota delta [fst snd after_msg].
  rewrite !(bind_ret _ _ _ _ _ (keep_ret i e1)).
  pose proof (keep_undisturbed thrown seen [] i e1 He1) as He2. set (e2 := (keep_for_rewind i e1).2) in *.
  rewrite (handle_msg_calm thrown seen []) by done.
  assert (∀ uids e', undisturbed thrown seen [] e' →
    run_loop (S fuel) p' thrown seen uids e' = plain_loop fuel p' uids e') as Hloop.
  { intros ?? He'. by apply IH. }
  assert (∀ uids e', undisturbed thrown seen [] e' →
    (when (wants_answer i) answer_plan;; run_loop (S fuel) p' thrown seen uids) e' =
    (match i with Respond _ => answer_plan | Bare _ => mret () end;; plain_loop fuel p' uids) e') as Hdone.
  { intros us e' He'. assert (match i with Respond _ => answer_plan | Bare _ => mret () end
                           = when (wants_answer i) answer_plan) as -> by by destruct i.
    apply bind_cong. intros [] e4 Ha. apply Hloop.
    eapply keeps_ret_state; [|exact He'|exact Ha]. apply keeps_when, calm_keeps.
    intros e0. apply answer_plan_steps. }
  unfold plain_item. destruct (item_msg i) eqn:Hit;
    try (eapply (message_agree thrown seen [] _ _ _ _ uids _ e2 Hdone (Hloop uids)); done).
  eapply thrown_agree; [exact (Hloop uids)|exact He2].
Qed.
(** ** Theorem *)

(** C12: With no pause (a deferred one is one too), suspension or interrupt from outside, no
    pause left for a checkpoint to make, nothing left to replay, and no Pause message from the
    plan, the run loop is the plain interpreter: the same outcome in the same state, whatever
    else the plan sends, checkpoints among it, the devices answer and the monitors emit. *)
Theorem calm_loop_is_plain ok fuel p thrown seen uids e :
  never_pauses ok → ok p → undisturbed thrown seen [] e →
  run_loop (S fuel) p thrown seen uids e = plain_loop fuel p uids e.
Proof. apply calm_plain. Qed.
End calm.

Module CalmExamples.
Import Sample World.

Definition point_plan : Plan :=
  Bare <$> [OpenRun (mkMeta None ∅ None); Checkpoint; Create "primary"; Read (device 0 "det"); Save;
            Checkpoint; CloseRun "success" None].

Definition all_calm (p : Plan) : Prop := Forall (λ i, allowed Checkpoints (item_msg i) = true) (p : list PlanItem).

Lemma quiet_calm t : Forall (λ n, calm_noise n = true) (noise t).
Proof. constructor. Qed.

Lemma all_calm_never_pauses : never_pauses all_calm.
Proof. intros p t ch Ha. destruct p as [|i p]; simpl; [done|]. unfold all_calm in *. by apply Forall_cons in Ha. Qed.

Lemma calm_loop_is_plain_witness :
  all_calm point_plan
  ∧ match (plain_loop 49 point_plan [] fresh_engine).1 with
    | Ret r => exit_status r = "success" | _ => False end
  ∧ run_loop 50 point_plan 0 0 [] fresh_engine = plain_loop 49 point_plan [] fresh_engine.
Proof.
  assert (all_calm point_plan) as Hp by by repeat constructor.
  split; [exact Hp|]. split; [by vm_compute|].
  apply (calm_loop_is_plain quiet_calm all_calm).
  - exact all_calm_never_pauses.
  - exact Hp.
  - by split_and!.
Defined.
End CalmExamples.
