(* ===== verification/Rewind.v ===== *)
(** * The rewind

    What the engine keeps for a rewind and what it does with it: only messages that
    may be replayed are kept, a resume replays all of them in order before the plan
    goes on, and every open run is back at its checkpoint. The last section shows what
    the rewind does not do: a message interrupted while it is replayed is lost, and
    what an interrupted run had left to replay is handled by the next run. *)

From S2P Require Import Prelude Interfaces Errors Control Documents Compose Bundler Assets.
From S2P Require Import Device Machine Logic Handle RunLoop Steps Calm.

Section rewind.
Context `{JsonNumber, !TextFormat, !UuidSource, !Schedule, !Hooks, !PlanSource}.
Implicit Types (e : RunEngine).

(** ** What is kept *)

Definition replayable e : Prop :=
  Forall (λ m, is_cacheable m = true) (msg_cache (state e) ++ replay_queue (state e)).

(** A handler leaves the cache as it is or empties it, and never touches the queue. *)
Lemma hstep_cache p e e' :
  hstep p e e' →
  (msg_cache (state e') = msg_cache (state e) ∨ msg_cache (state e') = [])
  ∧ replay_queue (state e') = replay_queue (state e).
Proof.
  destruct 1 as [e e' []|e|c e Hc|obj e|obj e|obj v e|obj e|e e' []|e e' []|e e' []|e|e|e|e];
    simpl in *; auto.
  pose proof (await_state e) as Ha. unfold unattended in Ha. simpl in Ha.
  destruct Ha as (_&_&_&_&_&->&->&_). auto.
Qed.

Lemma cache_stays_empty p e e' : msg_cache (state e) = [] → hstep p e e' → msg_cache (state e') = [].
Proof. intros Hc Hs. apply hstep_cache in Hs as [[-> | ->] _]; done. Qed.

Lemma handle_cache m e :
  msg_cache (state (handle m e).2) = msg_cache (state e) ∨ msg_cache (state (handle m e).2) = [].
Proof.
  pose proof (handle_steps Pauses e m (all_allowed m) e ltac:(constructor)) as Hw. unfold wp in Hw.
  assert (∀ e', hsteps Pauses e e' → msg_cache (state e') = msg_cache (state e) ∨ msg_cache (state e') = []) as Hs.
  { intros e' Hs. clear Hw. induction Hs as [|e1 e2 e3 Hs _ IH]; [by left|].
    destruct (hstep_cache Pauses e1 e2 Hs) as [[Hc|Hc] _]; destruct IH as [IH|IH];
      [left|right|right|right]; congruence. }
  destruct (handle m e) as [[a| | | | |] e']; by apply Hs.
Qed.

#[local] Instance replayable_loop : LoopInv replayable.
Proof.
  unfold replayable. split.
  - intros e e' He Hs. destruct (hstep_cache _ _ _ Hs) as [[Hc|Hc] Hq]; rewrite Hc, Hq; [done|].
    by apply Forall_app in He as [_ He].
  - intros m e Hm He. simpl. rewrite !Forall_app in *. rewrite Forall_singleton. simpl. tauto.
  - intros m q e Hq He. rewrite Hq in He. simpl. rewrite Forall_app in *. rewrite Forall_cons in He. tauto.
  - intros e [Hc Hq]%Forall_app. unfold on_state, arm_replay. simpl.
    destruct (msg_cache (state e)); simpl; by apply Forall_app.
  - intros e He. simpl. rewrite Forall_app in *. split; [tauto|constructor].
  - done.
Qed.

Lemma same_queues e e' : state e' = state e → replayable e → replayable e'.
Proof. unfold replayable. by intros ->. Qed.

#[local] Instance replayable_awaits : Awaits replayable.
Proof. intros e He. eapply li_step; [exact He|apply hs_await]. Qed.

#[local] Hint Extern 2 (replayable _) => assumption : keeps.
#[local] Hint Extern 1 (∀ e, replayable e → replayable e) => (intros ??; assumption) : keeps.

Notation keeps := (Logic.keeps replayable replayable).

Lemma bounded_replayable fuel p thrown seen : keeps (bounded_loop fuel p thrown seen).
Proof.
  intros e He. unfold wp, bounded_loop, attempt. destruct loop_timeout as [d|].
  - pose proof (run_loop_inv replayable fuel p thrown seen [] (set_bounded true e) He) as Hw. unfold wp in Hw.
    by destruct (run_loop _ _ _ _ _ _) as [[r| | | | |] e'].
  - pose proof (run_loop_inv replayable fuel p thrown seen [] e He) as Hw. unfold wp in Hw.
    by destruct (run_loop _ _ _ _ _ _) as [[r| | | | |] e'].
Qed.

Lemma run_async_replayable fuel pps p : keeps (run_async fuel pps p).
Proof.
  unfold run_async, wait_for_suspenders, clean_up, undo, stop_on_pause_all.
  repeat first [apply bounded_replayable|solve [eauto with keeps]|keeps_step].
Qed.

(** ** A resume *)

Lemma pull_queue p m q e :
  replay_queue (state e) = m :: q →
  pull_msg p e = (Ret (Some (m, false), p), on_state (set_replay_queue q) e).
Proof.
  intros Hq. unfold pull_msg.
  change ((match replay_queue (state e) with
           | m :: q => modify (on_state (set_replay_queue q));; mret (Some (m, false), p)
           | [] =>
               ip ← next_item p;
               match ip.1 with
               | None => mret (None, ip.2)
               | Some (Respond m) => mret (Some (m, true), ip.2)
               | Some (Bare m) =>
                   modify (on_state (λ s,
                     if rewindable s && is_cacheable m then set_msg_cache (msg_cache s ++ [msg_clone m]) s
                     else s));;
                   mret (Some (m, false), ip.2)
               end
           end) e = (Ret (Some (m, false), p), on_state (set_replay_queue q) e)).
  by rewrite Hq.
Qed.

(** Whatever an engine went through, what it keeps for a rewind and what it has left to
    replay are messages of the kinds that are cached. *)
Lemma rewind_keeps_cacheable e : reached e → replayable e.
Proof.
  induction 1 as [e [_ Hst _ _ _]|e n _ IH|e fuel pps p opts _ IH].
  - unfold replayable. rewrite Hst. constructor.
  - destruct (noise_state n e) as (_&_&_&_&_&Hc&Hq&_). unfold replayable. by rewrite Hc, Hq.
  - set (e1 := stage_subs (opt_subs opts) (set_per_call_md (opt_md opts) e)).
    change (run_async_with fuel pps p opts e) with (run_async fuel pps p e1).
    assert (replayable e1) as He1 by (eapply (same_queues (set_per_call_md (opt_md opts) e)); [apply stage_subs_spec|exact IH]).
    pose proof (run_async_replayable fuel pps p e1 He1) as Hw. unfold wp in Hw.
    by destruct (run_async fuel pps p e1) as [[r| | | | |] e'].
Qed.

End rewind.

(** ** What a resume replays *)

Section replay.
Context `{JsonNumber, !TextFormat, !UuidSource, !Schedule, !Hooks, !PlanSource}.
Implicit Types (e : RunEngine) (q : list Msg).

(** The messages of [q], each handled once and kept no more; then the plan. What one of them
    throws goes where the plan's own errors go, and a region that catches it has the rest of
    [q] dropped. *)
Fixpoint replay_loop (fuel : nat) q p uids : M RunResult :=
  match q, fuel with
  | [], _ => plain_loop fuel p uids
  | _ :: _, 0 => out_of_fuel
  | m :: q, S fuel =>
      modify (on_state (set_replay_queue q));;
      match m with
      | Raise t => plain_thrown (plain_loop fuel p uids) uids t
      | m =>
          r ← attempt (handle m);
          match r with
          | Ok uid => replay_loop fuel q p (uids ++ option_list uid)
          | Err x => plain_thrown (plain_loop fuel p uids) uids (ThError x)
          end
      end
  end.

Context (Hcalm : ∀ t, Forall (λ n, calm_noise n = true) (noise t)).

Lemma replay_is_calm ok fuel q p thrown seen uids e :
  never_pauses ok → ok p → Forall (λ m, allowed Checkpoints m = true) q → undisturbed thrown seen q e →
  run_loop (S fuel) p thrown seen uids e = replay_loop fuel q p uids e.
Proof.
  intros Hok Hp. revert fuel uids e. induction q as [|m q IH]; intros fuel uids e Hq He.
  { assert (replay_loop fuel [] p uids = plain_loop fuel p uids) as -> by by destruct fuel.
    by apply (calm_plain Hcalm ok). }
  destruct fuel as [|fuel]; [done|]. apply Forall_cons in Hq as [Hm Hq].
  rewrite (calm_turn _ _ _ (m :: q)) by exact He.
  destruct He as (Hps & Hi & Hr & Hd). rewrite (bind_ret _ _ _ _ _ (pull_queue p m q e Hr)).
  set (e1 := on_state (set_replay_queue q) e).
  assert (undisturbed thrown seen q e1) as He1 by by split_and!.
  change (replay_loop (S fuel) (m :: q) p uids e) with
    ((match m with
      | Raise t => plain_thrown (plain_loop fuel p uids) uids t
      | m =>
          r ← attempt (handle m);
          match r with
          | Ok uid => replay_loop fuel q p (uids ++ option_list uid)
          | Err x => plain_thrown (plain_loop fuel p uids) uids (ThError x)
          end
      end) e1).
  cbv beta iota delta [after_msg]. rewrite (handle_msg_calm Hcalm thrown seen q) by done.
  assert (∀ e', undisturbed thrown seen [] e' →
    run_loop (S fuel) p thrown seen uids e' = plain_loop fuel p uids e') as Hplain.
  { intros e' He'. by apply (calm_plain Hcalm ok). }
  assert (∀ us e', undisturbed thrown seen q e' →
    (when false answer_plan;; run_loop (S fuel) p thrown seen us) e' = replay_loop fuel q p us e') as Hdone.
  { intros us e' He'. exact (IH fuel us e' Hq He'). }
  destruct m; try (eapply (message_agree Hcalm thrown seen q _ _ _ _ uids _ e1 Hdone Hplain); done).
  eapply thrown_agree; [exact Hplain|exact He1].
Qed.

(** The engine a resume leaves: calm, with the kept messages behind those left to replay. *)
Lemma on_resume_leaves thrown seen e e1 :
  undisturbed thrown seen (replay_queue (state e)) e → on_resume e = (Ret (), e1) →
  undisturbed thrown seen (replay_queue (state e) ++ msg_cache (state e)) e1 ∧ msg_cache (state e1) = [].
Proof.
  intros (Hp & Hi & _ & Hd) Hr. set (q := replay_queue (state e) ++ msg_cache (state e)).
  assert (undisturbed thrown seen q (on_state arm_replay e) ∧ msg_cache (state (on_state arm_replay e)) = []) as He0.
  { unfold undisturbed, on_state, arm_replay. simpl. by destruct (msg_cache (state e)). }
  pose proof (steps_keep Checkpoints (λ e, undisturbed thrown seen q e ∧ msg_cache (state e) = []) _
    (λ e e' '(conj He Hc) Hs, conj (calm_hstep Hcalm _ _ _ e e' He Hs) (cache_stays_empty _ e e' Hc Hs))
    (λ e0, resume_steps Checkpoints e0) (on_state arm_replay e) He0) as Hw.
  unfold wp in Hw. change (on_resume e) with ((s ← gets state;
   for_each (λ obj, modify (log_call (CResume (d_name obj)));; ignore (ask_ok (resume_dyn obj)))
     (values (pausables s));;
   restore_monitors;;
   record_interruption "resume") (on_state arm_replay e)) in Hr. by rewrite Hr in Hw.
Qed.

End replay.

(** ** What the rewind does not do *)
Module RewindExamples.
Import Sample World CalmExamples.

(** A device whose moves are over from an instant on. *)
Definition slow (until : nat) (d : Device) : Device :=
  mkDevice (d_ptr d) (d_name d) (read_dyn d) (describe_dyn d) (hint_fields d)
    (as_stageable d) (writes_external_assets d) (collect_asset_docs_dyn d) (as_configurable d) (configurable d)
    (λ _ _ t, if t <? until then None else Some (Ok ())) (stop_on_pause d) (locate_dyn d)
    (stop_dyn d) (trigger_dyn d) (stage_dyn d) (unstage_dyn d) (kickoff_dyn d) (complete_dyn d)
    (as_collectable d) (prepare_dyn d) (pause_dyn d) (resume_dyn d) (describe_collect_dyn d)
    (collect_dyn d) (collect_stream_docs_dyn d) (subscribe_dyn d) (configure_dyn d).

Definition motor : Device := slow 100 (device 1 "motor").

(** Move the motor, wait for it, take a point. *)
Definition scan_plan : Plan :=
  Bare <$> [OpenRun (mkMeta None ∅ None); Checkpoint;
            Set_ motor 5%Z (Some "move"); Wait "move" false None;
            Create "primary"; Read (device 0 "det"); Save; CloseRun "success" None].

Definition timed (nz : nat → list Noise) : Schedule :=
  {| noise := nz; pick _ := false; deadline _ := false; now t := Z.of_nat t |}.

Definition status_of (o : Out RunResult) : string :=
  match o with Ret r => exit_status r | _ => "none" end.
Definition events (e : RunEngine) : nat :=
  length (filter (λ d, match d.2 with DocEvent _ => true | _ => false end = true) (emitted e)).

Definition run_in (nz : nat → list Noise) (p : Plan) (e : RunEngine) :=
  run_async_with (H2 := timed nz) 100 [] p (mkOptions ∅ []) e.

(** Paused while the motor moves, resumed, and paused again during the replayed wait. *)
Definition twice_paused :=
  run_in (λ t, match t with
               | 6 => [NPause false] | 8 => [NResume] | 10 => [NPause false] | 12 => [NResume]
               | _ => [] end) scan_plan fresh_engine.

(** A pause that lands while a replayed message is handled loses the message: it is
    neither kept nor left to replay. Here the second resume neither moves the stopped
    motor again nor waits for it: the point is taken where the motor was stopped, long
    before its move is over, and the run is a success. *)
Theorem second_pause_skips_move :
  status_of twice_paused.1 = "success" ∧ events twice_paused.2 = 1 ∧ tick twice_paused.2 < 100
  ∧ calls twice_paused.2 =
      [CSet "motor" 5%Z; CStopOnPause "motor"; CSet "motor" 5%Z; CStopOnPause "motor"; CStopOnPause "motor"].
Proof. split_and!; [by vm_compute|by vm_compute|by apply Nat.ltb_lt; vm_compute|by vm_compute]. Qed.

Lemma outcome_state {A} (m : M A) e o : (m e).1 = o → m e = (o, (m e).2).
Proof. intros <-. by destruct (m e). Qed.

(** An engine paused in the middle of a point: the run is open, the bundle too, and the
    messages sent since the checkpoint are kept. *)
Definition sent (m : Msg) (e : RunEngine) : RunEngine := (handle m (keep_for_rewind (Bare m) e).2).2.
Definition paused_in_point : RunEngine :=
  foldl (λ e m, sent m e) fresh_engine
    [OpenRun (mkMeta None ∅ None); Checkpoint; Create "primary"; Read (device 0 "det")].
Definition rest_of_point : Plan := Bare <$> [Save; CloseRun "success" None].


(** A run aborted while it replays, then an empty plan. *)
Definition two_motors : Plan :=
  Bare <$> [Checkpoint; Set_ motor 5%Z (Some "move"); Set_ (slow 100 (device 2 "mirror")) 7%Z (Some "move");
            Sleep 1%Z].
Definition abort_noise (t : nat) : list Noise :=
  match t with 6 => [NPause false] | 9 => [NResume] | 10 => [NAbort "enough"] | _ => [] end.
Definition aborted := run_in abort_noise two_motors fresh_engine.
Definition after_abort := run_in (λ _, []) (Bare <$> []) aborted.2.

Lemma rewind_keeps_cacheable_witness :
  (reached (H2 := timed abort_noise) aborted.2 ∧ length (replay_queue (state aborted.2)) = 2)
  ∧ replayable aborted.2.
Proof.
  assert (reached (H2 := timed abort_noise) aborted.2) as Hr.
  { unfold aborted, run_in. apply (reached_run (H2 := timed abort_noise)). by apply reached_new. }
  split; [split; [exact Hr|vm_eq]|]. exact (rewind_keeps_cacheable _ Hr).
Defined.

(** What an aborted run had left to replay is handled by the next run: a plan of no
    messages moves the mirror. *)
Theorem next_run_replays_previous :
  status_of aborted.1 = "abort" ∧ status_of after_abort.1 = "no-run"
  ∧ calls after_abort.2 = calls aborted.2 ++ [CSet "mirror" 7%Z; CStopOnPause "mirror"].
Proof. split_and!; by vm_compute. Qed.
End RewindExamples.
