(* ===== verification/OpenRun.v ===== *)
(** * Run metadata, rejected calls and abnormal ends

    Where the metadata of a [RunStart] comes from, what a call that finds the engine
    busy changes, and two ways a call leaves a run without its [RunStop]. *)

From stdpp Require Import pretty.
From S2P Require Import Prelude Interfaces Errors Control Documents Compose Bundler Assets.
From S2P Require Import Device Machine Logic Handle RunLoop Steps.

Section metadata.
Context `{JsonNumber, !TextFormat, !UuidSource, !Schedule, !Hooks, !PlanSource}.
Implicit Types (e : RunEngine) (meta : RunMetadata).

(** ** The metadata of a run *)

(** A chain of maps: the first that has the key. *)
Definition chain_map (ms : list (gmap string Value)) (k : string) : option Value :=
  head (omap (λ m, m !! k) ms).

(** What the engine itself adds. *)
Definition computed_md meta : gmap string Value :=
  match meta_plan_name meta with
  | Some pn => {["plan_name" := VString pn; "plan_type" := VString "generator"]}
  | None => {["plan_type" := VString "generator"]}
  end.

Lemma chain_map_cons m ms k :
  chain_map (m :: ms) k = match m !! k with Some v => Some v | None => chain_map ms k end.
Proof. unfold chain_map. simpl. by destruct (m !! k). Qed.

Lemma merge_md_chain persistent meta per_call k :
  merge_md persistent meta per_call !! k =
  chain_map [per_call; meta_extra meta; computed_md meta; persistent] k.
Proof.
  unfold merge_md, computed_md. rewrite !chain_map_cons, !lookup_union.
  destruct (per_call !! k) as [v|]; [by destruct (meta_extra meta !! k); destruct (_ !! k)|].
  destruct (meta_extra meta !! k) as [v|]; [by destruct (_ !! k)|]. simpl.
  rewrite !(left_id None _). destruct (meta_plan_name meta) as [pn|]; simpl_map.
  - destruct (decide (k = "plan_name")) as [->|Hn]; [by simpl_map|].
    destruct (decide (k = "plan_type")) as [->|Ht]; [by simpl_map|].
    rewrite !lookup_insert_ne, lookup_singleton_ne by done. by destruct (persistent !! k).
  - destruct (decide (k = "plan_type")) as [->|Ht]; [by simpl_map|].
    rewrite lookup_insert_ne, lookup_singleton_ne by done. by destruct (persistent !! k).
Qed.

(** The scan number of a run, and what the counter holds then. *)
Definition scan_resolved meta (merged : gmap string Value) e (scan counter : Z) : Prop :=
  match meta_scan_id meta with
  | Some s => scan = s ∧ counter = s
  | None =>
      match scan_id_source with
      | Some src => src merged = Ok scan ∧ counter = scan_id e
      | None => scan = wrap64 (scan_id e + 1) ∧ counter = scan
      end
  end.

Definition validated (merged : gmap string Value) : Prop :=
  match md_validator with Some v => v merged = Ok () | None => True end.
Definition normalized (merged extra : gmap string Value) : Prop :=
  match md_normalizer with Some n => n merged = Ok extra | None => extra = merged end.

Lemma resolve_scan_id_spec meta merged e :
  match resolve_scan_id meta merged e with
  | (Ret scan, e') => scan_resolved meta merged e scan (scan_id e')
                      ∧ e' = set_scan_id (scan_id e') e
  | (Threw _, e') => e' = e
  | _ => False
  end.
Proof.
  unfold resolve_scan_id, scan_resolved. destruct (meta_scan_id meta) as [s|]; [done|].
  destruct scan_id_source as [src|].
  - unfold lift. destruct (src merged); [|done]. simpl. split; [done|]. by destruct e.
  - done.
Qed.

(** A call is in progress. *)
Definition busy e : bool := is_running (ctl (control e)).

(** A call that finds the engine busy is refused as it is. *)
Lemma run_async_busy fuel pps p e :
  busy e = true →
  run_async fuel pps p e = (Threw (StateE "a plan is already running on this RunEngine"), e).
Proof. unfold busy. intros Hr. unfold run_async, mbind, M_bind, gets. cbv beta iota. by rewrite Hr. Qed.

(** ** Theorems *)

(** C14: The metadata of a [RunStart], by decreasing precedence: the call's, the message's,
    what the engine computes, the engine's own, and only then the run's scan number. A
    run whose metadata is refused sends nothing and opens nothing. *)
Theorem start_metadata meta e :
  match start_document meta e with
  | (Ret start, e') =>
      ∃ scan merged,
        (∀ k, merged !! k =
           chain_map [per_call_md e; meta_extra meta; computed_md meta; md e;
                      {["scan_id" := json_Z scan]}] k)
        ∧ scan_resolved meta (merge_md (md e) meta (per_call_md e)) e scan (scan_id e')
        ∧ validated merged ∧ normalized merged (rs_extra start)
        ∧ rs_scan_id start = Some scan
        ∧ md e' = <["scan_id" := json_Z scan]> (md e)
        ∧ state e' = state e ∧ emitted e' = emitted e
  | (Threw _, e') => state e' = state e ∧ emitted e' = emitted e
  | _ => False
  end.
Proof.
  unfold start_document, mbind, M_bind, gets. cbv beta iota.
  set (merged0 := merge_md (md e) meta (per_call_md e)).
  pose proof (resolve_scan_id_spec meta merged0 e) as Hs.
  destruct (resolve_scan_id meta merged0 e) as [[scan|x| | | |] e1]; try done; [|by subst e1].
  destruct Hs as [Hscan He1]. rewrite He1. unfold modify, fresh, atomic, take_uuid, clock, gets.
  cbv beta iota zeta. set (merged := or_insert "scan_id" (json_Z scan) merged0).
  assert (∀ k, merged !! k = chain_map [per_call_md e; meta_extra meta; computed_md meta; md e;
            {["scan_id" := json_Z scan]}] k) as Hm.
  { intros k. pose proof (merge_md_chain (md e) meta (per_call_md e) k) as Hk. fold merged0 in Hk.
    rewrite !chain_map_cons in *. unfold merged, or_insert.
    destruct (decide (k = "scan_id")) as [->|Hne].
    - rewrite lookup_singleton_eq. destruct (merged0 !! "scan_id") as [v|] eqn:Hv;
        rewrite ?lookup_insert_eq, ?Hv; repeat case_match; simplify_eq; done.
    - rewrite lookup_singleton_ne by done.
      assert (match merged0 !! "scan_id" with Some _ => merged0 | None => <["scan_id" := json_Z scan]> merged0 end
                !! k = merged0 !! k) as ->.
      { destruct (merged0 !! "scan_id"); [reflexivity|]. rewrite lookup_insert_ne by done. reflexivity. }
      rewrite Hk. repeat case_match; done. }
  clearbody merged.
  assert (validated merged → ∀ extra, normalized merged extra →
    ∃ scan0 merged0',
      (∀ k, merged0' !! k = chain_map [per_call_md e; meta_extra meta; computed_md meta; md e;
            {["scan_id" := json_Z scan0]}] k)
      ∧ scan_resolved meta merged0 e scan0 (scan_id e1)
      ∧ validated merged0' ∧ normalized merged0' extra ∧ Some scan = Some scan0
      ∧ <["scan_id" := json_Z scan]> (md e) = <["scan_id" := json_Z scan0]> (md e)
      ∧ state e = state e ∧ emitted e = emitted e) as Hdone.
  { intros Hv extra Hn. by exists scan, merged. }
  unfold validated, normalized, lift, throw, mret, M_ret in *. simpl.
  destruct md_validator as [v|]; [destruct (v merged) as [[]|x]; [|by split]|];
    (destruct md_normalizer as [n|]; [destruct (n merged) as [m|x] eqn:Hn; [|by split]|]); simpl;
    rewrite (right_id_L ∅ (∪)); by apply Hdone.
Qed.

(** A call that finds the engine busy changes nothing, but the call with options has
    stored its metadata and its subscribers before it is refused: from then on they are
    those of the run in progress. *)
Theorem rejected_call_leaks_options fuel pps p opts e :
  busy e = true →
  run_async fuel pps p e = (Threw (StateE "a plan is already running on this RunEngine"), e)
  ∧ ∃ e', run_async_with fuel pps p opts e =
            (Threw (StateE "a plan is already running on this RunEngine"), e')
          ∧ per_call_md e' = opt_md opts
          ∧ (∀ cb, cb ∈ opt_subs opts → ∃ id, (id, FAll, cb) ∈ subscribers e')
          ∧ state e' = state e ∧ control e' = control e.
Proof.
  intros Hr. split; [by apply run_async_busy|].
  destruct (stage_subs_spec (opt_subs opts) (set_per_call_md (opt_md opts) e))
    as ((_ & _ & Hs & Hc & _ & Hp) & _ & Hin).
  exists (stage_subs (opt_subs opts) (set_per_call_md (opt_md opts) e)).
  split_and!; [|exact Hp|exact Hin|exact Hs|exact Hc].
  apply run_async_busy. unfold busy in *. by rewrite Hc.
Qed.
End metadata.

Module OpenRunExamples.
Import Sample World.

Definition busy_engine : RunEngine := on_control (λ c, set_ctl (rc_set_is_running true (ctl c)) c) fresh_engine.

Lemma rejected_call_leaks_options_witness :
  busy busy_engine = true ∧
  ∃ e', run_async_with 10 [] count_plan (mkOptions {["operator" := VString "bob"]} [3]) busy_engine =
          (Threw (StateE "a plan is already running on this RunEngine"), e')
        ∧ per_call_md e' = {["operator" := VString "bob"]} ∧ ∃ id, (id, FAll, 3) ∈ subscribers e'.
Proof.
  split; [reflexivity|].
  destruct (rejected_call_leaks_options 10 [] count_plan (mkOptions {["operator" := VString "bob"]} [3])
    busy_engine eq_refl) as (_ & e' & Hrun & Hp & Hs & _).
  exists e'. split; [exact Hrun|]. split; [exact Hp|]. apply (Hs 3). left.
Defined.

Definition run_of (p : Plan) := run_async_with 50 [] p (mkOptions ∅ []) fresh_engine.

(** ** The scan number of the second run *)

Definition two_runs : Plan :=
  Bare <$> [OpenRun (mkMeta None ∅ None); CloseRun "success" None;
            OpenRun (mkMeta None ∅ None); CloseRun "success" None].

Definition scan_ids (e : RunEngine) : list (option Z * option Z) :=
  omap (λ d, match d.2 with
             | DocStart s =>
                 Some (rs_scan_id s, match rs_extra s !! "scan_id" with
                                     | Some (VNumber n) => num_as_i64 n
                                     | _ => None
                                     end)
             | _ => None
             end) (emitted e).

(** The number a run persists outranks the next run's own: from the second run on, the
    metadata of a [RunStart] carries the number of the run before, beside the field with
    the right one. *)
Theorem scan_id_goes_stale :
  scan_ids (run_of two_runs).2 =
    [(Some 1%Z, Some 1%Z); (Some 2%Z, Some 1%Z)].
Proof. vm_eq. Qed.

(** ** A close with a status of its own *)

Definition bad_close : Plan := Bare <$> [OpenRun (mkMeta None ∅ None); CloseRun "done" None].

Definition stops (e : RunEngine) : nat :=
  length (filter (λ d, match d.2 with DocStop _ => true | _ => false end = true) (emitted e)).

(** A [CloseRun] whose status is none of the schema's panics after the run is forgotten:
    its [RunStop] is never sent and the engine stays claimed, so every later call is
    refused. *)
Theorem bad_close_status_panics :
  let e := (run_of bad_close).2 in
  (run_of bad_close).1 = Panicked ∧ stops e = 0 ∧ busy e = true
  ∧ ∀ fuel pps p, run_async fuel pps p e =
      (Threw (StateE "a plan is already running on this RunEngine"), e).
Proof.
  assert (busy (run_of bad_close).2 = true) as Hr by vm_eq.
  split_and!; [vm_eq|vm_eq|exact Hr|]. intros fuel pps p. by apply run_async_busy.
Qed.

(** ** The overall timeout *)

Definition timeout_hooks : Hooks :=
  {| md_validator := None; md_normalizer := None; scan_id_source := None;
     input_handler := None; commands _ := None; checkpoint_hook := true;
     loop_timeout := Some 5%Z; error_text _ := "error" |}.
Definition late : Schedule :=
  {| noise _ := []; pick _ := false; deadline t := 5 <=? t; now t := Z.of_nat t |}.
Definition timed_out :=
  run_async_with (H2 := late) (H3 := timeout_hooks) 50 [] count_plan (mkOptions ∅ []) fresh_engine.

(** A run cut off by the overall timeout is forgotten without its [RunStop]: its
    documents on the wire never end. *)
Theorem timeout_leaves_run_open :
  timed_out.1 = Threw (Timeout_ 5)
  ∧ length (scan_ids timed_out.2) = 1 ∧ stops timed_out.2 = 0 ∧ runs (state timed_out.2) = ∅
  ∧ busy timed_out.2 = false.
Proof. split_and!; vm_eq. Qed.
End OpenRunExamples.
