(* ===== verification/Phases.v ===== *)
(** * The phases of a run

    Where the engine stands in its runs (not open, open, inside an event bundle), what
    every message makes of it, and which messages that leaves no reason to refuse. *)

From S2P Require Import Prelude Interfaces Errors Control Documents Compose Bundler Assets.
From S2P Require Import Device Machine Logic Handle RunLoop.

Section phases.
Context `{JsonNumber, !TextFormat, !UuidSource, !Schedule, !Hooks}.
Implicit Types (e : RunEngine) (key : option string) (obj : Device) (Φ : gmap (option string) bool).

(** The open runs, each with whether a bundle is open in it. *)
Definition bundling (sl : RunSlot) : bool := is_bundling (sl_bundler sl).
Definition phases e : gmap (option string) bool := bundling <$> runs (state e).

(** What a message makes of them when it is handled. *)
Definition phase_after key (m : Msg) Φ : gmap (option string) bool :=
  match m with
  | OpenRun _ | Save | Drop => <[key := false]> Φ
  | CloseRun _ _ => delete key Φ
  | Create _ => <[key := true]> Φ
  | _ => Φ
  end.

Definition after (m : Msg) Φ : gmap (option string) bool :=
  match route m with Ok (key, m) => phase_after key m Φ | Err _ => Φ end.

(** ** What does not change them *)

Lemma phases_slot key f e :
  (∀ sl, runs (state e) !! key = Some sl → bundling (f sl) = bundling sl) →
  phases (on_slot key f e) = phases e.
Proof.
  intros Hf. unfold phases, on_slot, on_state. simpl. apply map_eq. intros k. rewrite !lookup_fmap.
  destruct (decide (k = key)) as [->|Hk]; [|by rewrite lookup_alter_ne].
  rewrite lookup_alter_eq. destruct (runs (state e) !! key) as [sl|] eqn:Hs; [|done].
  simpl. by rewrite Hf.
Qed.

Lemma phases_bundler key f e :
  (∀ b, is_bundling (f b) = is_bundling b) → phases (on_bundler key f e) = phases e.
Proof. intros Hf. apply phases_slot. intros sl _. apply Hf. Qed.

Lemma phases_runs g e e' :
  runs (state e') = g <$> runs (state e) → (∀ sl, bundling (g sl) = bundling sl) → phases e' = phases e.
Proof.
  intros Hr Hg. unfold phases. rewrite Hr, <- map_fmap_compose. apply map_fmap_ext. intros k sl _. apply Hg.
Qed.

Lemma phases_same e e' : runs (state e') = runs (state e) → phases e' = phases e.
Proof. unfold phases. by intros ->. Qed.

Lemma prepare_stream_bundling u t n objs b :
  is_bundling (prepare_stream u t n objs b).2 = is_bundling b.
Proof. unfold prepare_stream, is_bundling. by destruct (descriptor _ _ _ _ _ _ _ _) as [[d x] bd]. Qed.

Lemma noise_phases n e : phases (noise_step n e) = phases e.
Proof.
  destruct n; try done; simpl.
  - unfold pump_compose. destruct (runs (state e) !! key) as [sl|]; [|done].
    destruct (sl_monitor_tasks sl !! obj) as [task|]; [|done]. case_match; [done|]. simpl.
    set (e1 := set_uuids _ e). destruct (event _ _ _ _ _ _) as [ev bd]. transitivity (phases e1); [|done].
    destruct ev; by apply (phases_bundler key (set_bundle bd) e1).
  - unfold pump_deliver. by case_match.
Qed.

Section walk.
Context (Φ : gmap (option string) bool).
Definition at_phase e : Prop := phases e = Φ.

#[local] Instance at_phase_steady : Steady at_phase.
Proof. split; unfold at_phase; [intros n e <-; apply noise_phases|done]. Qed.

Notation keeps := (Logic.keeps at_phase at_phase).
Notation spec := (Logic.spec at_phase at_phase).

Ltac phase_tac :=
  unfold at_phase in *;
  match goal with He : phases ?e = Φ |- phases _ = Φ => etransitivity; [|exact He] end;
  first [ done | by apply phases_same | by apply phases_slot | by apply phases_bundler
        | by eapply phases_runs ].
#[local] Hint Extern 2 (at_phase _) => solve [phase_tac] : keeps.
#[local] Hint Extern 1 (∀ e, at_phase e → at_phase e) => (intros ??; assumption) : keeps.

Lemma fresh_phase : keeps fresh.
Proof. unfold fresh. keeps_auto. Qed.
Lemma freshes_phase n : keeps (freshes n).
Proof. induction n; simpl; keeps_auto; apply fresh_phase. Qed.
Lemma broadcast_phase o d : keeps (broadcast o d).
Proof. unfold broadcast. keeps_auto. Qed.
Lemma set_result_phase r : keeps (set_result r).
Proof. unfold set_result. keeps_auto. Qed.
Lemma found_slot_phase key why : keeps (get_slot key why).
Proof. unfold get_slot. keeps_auto. Qed.
Lemma require_run_phase key why : keeps (require_run key why).
Proof. unfold require_run. keeps_auto. Qed.
#[local] Hint Resolve fresh_phase freshes_phase broadcast_phase set_result_phase found_slot_phase
  require_run_phase : keeps.

(** The slot of a run shows the phase of the run. *)
Lemma slot_phase key sl e :
  at_phase e → runs (state e) !! key = Some sl → Φ !! key = Some (bundling sl).
Proof. unfold at_phase, phases. intros <- Hs. by rewrite lookup_fmap, Hs. Qed.

Lemma get_slot_phase key why :
  spec at_phase (get_slot key why) (λ sl e, at_phase e ∧ Φ !! key = Some (bundling sl)).
Proof.
  intros e He. unfold wp, get_slot, mbind, M_bind, gets, expect, lift.
  destruct (runs (state e) !! key) as [sl|] eqn:Hs; simpl; [|done].
  split; [done|]. by eapply slot_phase.
Qed.

Lemma gets_slot_phase key :
  spec at_phase (gets (λ e, runs (state e) !! key))
    (λ o e, at_phase e ∧ ∀ sl, o = Some sl → Φ !! key = Some (bundling sl)).
Proof. apply spec_gets. intros e He. split; [done|]. intros sl. by apply slot_phase. Qed.

Lemma put_bundler_phase key b : Φ !! key = Some (is_bundling b) → keeps (put_bundler key b).
Proof.
  intros Hb. unfold put_bundler. apply keeps_modify. intros e He.
  unfold at_phase in *. rewrite <- He. apply phases_slot. intros sl Hs.
  pose proof (slot_phase _ _ _ He Hs) as Hs'. rewrite Hb in Hs'. by injection Hs'.
Qed.

Ltac slot_step := eapply spec_bind; [apply get_slot_phase|intros ?; apply spec_pure_r; intros ?]; as_keeps.

Lemma configuration_phase c : keeps (read_object_configuration c).
Proof. unfold read_object_configuration. keeps_auto. Qed.
#[local] Hint Resolve configuration_phase : keeps.
Lemma ensure_configuration_phase key obj : keeps (ensure_object_configuration key obj).
Proof. unfold ensure_object_configuration. keeps_auto. Qed.
#[local] Hint Resolve ensure_configuration_phase : keeps.
Lemma stream_object_phase key obj dks : keeps (stream_object key obj dks).
Proof. unfold stream_object. keeps_auto. Qed.
#[local] Hint Resolve stream_object_phase : keeps.
Lemma start_status_phase st g : keeps (start_status st g).
Proof. unfold start_status, handle_status. keeps_auto. Qed.
Lemma wait_group_phase g b t : keeps (wait_group g b t).
Proof. unfold wait_group. keeps_auto. Qed.
Lemma wait_for_phase fs t : keeps (wait_for fs t).
Proof. unfold wait_for. keeps_auto. Qed.
Lemma sleep_phase : keeps sleep.
Proof. unfold sleep. keeps_auto. Qed.
#[local] Hint Resolve start_status_phase wait_group_phase wait_for_phase sleep_phase : keeps.
Lemma collect_keys_phase name obj : keeps (collect_keys name obj).
Proof. unfold collect_keys. keeps_auto. Qed.
#[local] Hint Resolve collect_keys_phase : keeps.
Lemma describe_objs_phase key objs d : (∀ obj, keeps (d obj)) → keeps (describe_objs key objs d).
Proof. intros Hd. induction objs; simpl; keeps_auto. Qed.
Lemma describe_stream_objs_phase key name objs : keeps (describe_stream_objs key name objs).
Proof. destruct objs; apply describe_objs_phase; keeps_auto. Qed.
#[local] Hint Resolve describe_stream_objs_phase : keeps.
Lemma declare_in_phase key why name objs : keeps (declare_in key why name objs).
Proof.
  unfold declare_in. slot_step. keeps_step; [keeps_auto|]. keeps_step; [keeps_auto|].
  pose proof (prepare_stream_bundling a0 a1 name objs (sl_bundler a)) as Hb.
  unfold declare_stream. destruct (prepare_stream _ _ _ _ _) as [d b]. simpl in Hb.
  keeps_step; [apply put_bundler_phase; by rewrite Hb|keeps_auto].
Qed.
#[local] Hint Resolve declare_in_phase : keeps.
Lemma handle_declare_stream_phase key name objs : keeps (handle_declare_stream key name objs).
Proof. unfold handle_declare_stream. keeps_auto. Qed.
#[local] Hint Resolve handle_declare_stream_phase : keeps.
Lemma add_read_bundling so rs b b' : add_read so rs b = Ok b' → is_bundling b' = is_bundling b.
Proof. unfold add_read, is_bundling. destruct (opened b); simpl; [|done]. case_match; [|done]. by intros [= <-]. Qed.
Lemma handle_read_phase key obj : keeps (handle_read key obj).
Proof.
  unfold handle_read. keeps_step; [keeps_auto|]. keeps_step; [keeps_auto|].
  keeps_step; [|intros; keeps_auto]. apply keeps_when.
  keeps_step; [keeps_auto|]. keeps_step; [keeps_auto|].
  eapply spec_bind; [apply gets_slot_phase|]. intros [sl|]; apply spec_pure_r; intros Hsl; [|as_keeps; keeps_auto].
  specialize (Hsl sl eq_refl).
  eapply spec_bind; [apply (spec_lift _ _ _ _ (λ b e, at_phase e ∧ is_bundling b = bundling sl))|].
  - intros b e Hb He. split; [done|]. by eapply add_read_bundling.
  - done.
  - intros b. apply spec_pure_r. intros Hb. as_keeps.
    keeps_step; [apply put_bundler_phase; by rewrite Hb|]. keeps_auto.
Qed.
#[local] Hint Resolve handle_read_phase : keeps.
Lemma drain_objs_phase uid objs : keeps (drain_objs uid objs).
Proof. induction objs; simpl; keeps_auto. Qed.
#[local] Hint Resolve drain_objs_phase : keeps.
Lemma pack_save_phase key name docs assets : keeps (pack_save_assets key name docs assets).
Proof. unfold pack_save_assets. keeps_auto. Qed.
#[local] Hint Resolve pack_save_phase : keeps.
Lemma declare_missing_phase key obj config descs : keeps (declare_missing key obj config descs).
Proof. revert config. induction descs as [|[name dks] descs]; intros config; simpl; keeps_auto. Qed.
#[local] Hint Resolve declare_missing_phase : keeps.
Lemma describe_collect_phase key obj : keeps (describe_collect key obj).
Proof. unfold describe_collect. keeps_auto. Qed.
#[local] Hint Resolve describe_collect_phase : keeps.
Lemma drain_assets_bundling name docs b : is_bundling (drain_assets name docs b).2 = is_bundling b.
Proof. unfold drain_assets. repeat case_match; done. Qed.
Lemma collect_assets_phase key obj stream : keeps (collect_assets key obj stream).
Proof.
  unfold collect_assets. keeps_step; [keeps_auto|]. case_match; [|keeps_auto]. destruct p as [s uid].
  keeps_step; [keeps_auto|]. case_match; [keeps_auto|]. slot_step.
  pose proof (drain_assets_bundling s a0 (sl_bundler a1)) as Hb. subst a0.
  destruct (drain_assets _ _ _) as [r b]. simpl in Hb.
  keeps_step; [apply put_bundler_phase; by rewrite Hb|keeps_auto].
Qed.
#[local] Hint Resolve collect_assets_phase : keeps.
Lemma collect_event_phase key stream data ts : keeps (collect_event key stream data ts).
Proof. unfold collect_event. keeps_auto. Qed.
#[local] Hint Resolve collect_event_phase : keeps.
Lemma collect_object_phase key obj name : keeps (collect_object key obj name).
Proof. unfold collect_object. keeps_auto. Qed.
Lemma start_monitor_phase key stream obj : keeps (start_monitor key stream obj).
Proof. unfold start_monitor. keeps_auto. Qed.
#[local] Hint Resolve collect_object_phase start_monitor_phase : keeps.
Lemma handle_monitor_phase key obj name : keeps (handle_monitor key obj name).
Proof. unfold handle_monitor, monitored, default_monitor_stream_name. keeps_auto. Qed.
Lemma flush_pump_phase pid e : phases (flush_pump pid e) = phases e.
Proof.
  unfold flush_pump. set (e1 := set_inflight _ e). transitivity (phases e1); [|done]. clearbody e1.
  revert e1. induction (filter _ (inflight e)) as [|x l IH]; intros e2; simpl; [done|]. by rewrite IH.
Qed.
Lemma stop_pump_phase key obj : keeps (stop_pump key obj).
Proof.
  unfold stop_pump. keeps_auto. unfold at_phase in *. by rewrite flush_pump_phase.
Qed.
#[local] Hint Resolve stop_pump_phase : keeps.
Lemma handle_unmonitor_phase key obj : keeps (handle_unmonitor key obj).
Proof. unfold handle_unmonitor, monitored. keeps_auto. Qed.
Lemma handle_stage_phase obj : keeps (handle_stage obj).
Proof. unfold handle_stage. keeps_auto. Qed.
Lemma handle_unstage_phase obj : keeps (handle_unstage obj).
Proof. unfold handle_unstage. keeps_auto. Qed.
Lemma handle_set_phase obj v g : keeps (handle_set obj v g).
Proof. unfold handle_set. keeps_auto. Qed.
Lemma handle_kickoff_phase key obj g : keeps (handle_kickoff key obj g).
Proof. unfold handle_kickoff. keeps_auto. Qed.
Lemma install_bundling ds b : is_bundling (install_reconfigured ds b) = is_bundling b.
Proof. unfold install_reconfigured. revert b. induction ds as [|d ds IH]; intros b; simpl; [done|]. rewrite IH. unfold install_one. by repeat case_match. Qed.
Lemma reconfigure_phase key obj config : keeps (reconfigure key obj config).
Proof.
  unfold reconfigure. eapply spec_bind; [apply gets_slot_phase|].
  intros [sl|]; apply spec_pure_r; intros Hsl; as_keeps; [|keeps_auto].
  keeps_step; [keeps_auto|]. keeps_step; [keeps_auto|].
  keeps_step; [apply put_bundler_phase; by apply Hsl|]. keeps_auto.
  unfold at_phase in *. rewrite phases_bundler; [done|apply install_bundling].
Qed.
#[local] Hint Resolve reconfigure_phase : keeps.
Lemma handle_configure_phase key obj args : keeps (handle_configure key obj args).
Proof. unfold handle_configure. keeps_auto. Qed.
Lemma snapshot_phase uid st : keeps (snapshot uid st).
Proof. unfold snapshot. keeps_auto. Qed.
#[local] Hint Resolve snapshot_phase : keeps.
Lemma handle_checkpoint_phase : keeps handle_checkpoint.
Proof. unfold handle_checkpoint. keeps_auto. Qed.
Lemma start_document_phase meta : keeps (start_document meta).
Proof. unfold start_document, resolve_scan_id. keeps_auto. Qed.
#[local] Hint Resolve handle_monitor_phase handle_unmonitor_phase handle_stage_phase
  handle_unstage_phase handle_set_phase handle_kickoff_phase handle_configure_phase
  handle_checkpoint_phase start_document_phase : keeps.
Lemma rewindable_phase b e : at_phase e → at_phase (on_state (handle_rewindable b) e).
Proof. intros He. unfold on_state, handle_rewindable. case_match; auto with keeps. Qed.
#[local] Hint Resolve rewindable_phase : keeps.

(** Every message but the five that open and close. *)
Definition phasing (m : Msg) : bool :=
  match m with OpenRun _ | CloseRun _ _ | Create _ | Save | Drop => true | _ => false end.

Lemma handle_in_phase key m : phasing m = false → keeps (handle_in key m).
Proof. intros Hm. unfold handle_in. destruct m; try discriminate Hm; keeps_auto. Qed.
End walk.

(** ** The messages that open and close *)

Section phasing.
Context (Φ Φ' : gmap (option string) bool).
Definition either e : Prop := phases e = Φ ∨ phases e = Φ'.
Notation spec := (Logic.spec either either).

Lemma spec_before {A} (m : M A) :
  Logic.keeps (at_phase Φ) (at_phase Φ) m → spec (at_phase Φ) m (λ _, at_phase Φ).
Proof. intros Hm. eapply spec_errors; [exact Hm|by left|by left]. Qed.
Lemma spec_later {A} (m : M A) :
  Logic.keeps (at_phase Φ') (at_phase Φ') m → spec (at_phase Φ') m (λ _, at_phase Φ').
Proof. intros Hm. eapply spec_errors; [exact Hm|by right|by right]. Qed.

Lemma phases_set key f v e :
  is_Some (phases e !! key) → (∀ sl, bundling (f sl) = v) →
  phases (on_slot key f e) = <[key := v]> (phases e).
Proof.
  intros [b Hb] Hf. unfold phases, on_slot, on_state in *. simpl. apply map_eq. intros k.
  rewrite !lookup_fmap. destruct (decide (k = key)) as [->|Hk].
  - rewrite lookup_alter_eq, lookup_insert_eq. rewrite lookup_fmap in Hb.
    destruct (runs (state e) !! key); [|done]. simpl. by rewrite Hf.
  - rewrite lookup_alter_ne, lookup_insert_ne by done. by rewrite ?lookup_fmap.
Qed.
End phasing.

#[local] Hint Resolve fresh_phase freshes_phase broadcast_phase set_result_phase found_slot_phase
  require_run_phase snapshot_phase start_document_phase drain_objs_phase pack_save_phase : keeps.
Notation to key m Φ := (either Φ (phase_after key m Φ)).

Ltac step_before := eapply spec_bind; [apply spec_before; solve [keeps_auto]|intros ?].
Ltac rest_later := apply spec_later; unfold at_phase; keeps_auto.

Lemma open_bundling (record : bool) u t start :
  is_bundling (if record then
     let '(d, b) := declare_stream u t "interruptions" [objectless interruption_keys]
                      (bundler_new (bundle_open start)) in ([d], b)
   else ([], bundler_new (bundle_open start))).2 = false.
Proof.
  destruct record; [|done].
  pose proof (prepare_stream_bundling u t "interruptions" [objectless interruption_keys]
    (bundler_new (bundle_open start))) as Hb.
  unfold declare_stream. by destruct (prepare_stream _ _ _ _ _) as [d b].
Qed.

Lemma open_phase key meta Φ :
  Logic.spec (to key (OpenRun meta) Φ) (to key (OpenRun meta) Φ) (at_phase Φ)
    (handle_in key (OpenRun meta)) (λ _, at_phase (<[key := false]> Φ)).
Proof.
  unfold handle_in. eapply (spec_bind _ _ _ _ _ (λ _, at_phase (<[key := false]> Φ))); [|intros; rest_later].
  unfold open_run. step_before. destruct a; [apply spec_throw; by left|].
  do 5 step_before. pose proof (open_bundling a1 a2 a3 a) as Hb.
  destruct (if a1 : bool then _ else _) as [ds b]. simpl in Hb.
  eapply (spec_bind _ _ _ _ _ (λ _, at_phase (<[key := false]> Φ))); [|intros; rest_later].
  apply spec_modify. unfold at_phase, phases. intros e <-. simpl. rewrite fmap_insert. f_equal. exact Hb.
Qed.

Lemma close_phase key status why Φ :
  Logic.spec (to key (CloseRun status why) Φ) (to key (CloseRun status why) Φ) (at_phase Φ)
    (handle_in key (CloseRun status why)) (λ _, at_phase (delete key Φ)).
Proof.
  unfold handle_in.
  eapply (spec_bind _ _ _ _ _ (λ _, at_phase (delete key Φ))); [|intros; rest_later].
  step_before. eapply (spec_bind _ _ _ _ _ (λ _, at_phase (delete key Φ))); [|intros; rest_later].
  unfold close_run_if_open.
  eapply (spec_bind _ _ _ _ _ (λ o e, at_phase Φ e ∧ (o = None → Φ !! key = None))).
  { apply spec_gets. intros e He. split; [done|]. intros Ho. unfold at_phase, phases in He.
    by rewrite <- He, lookup_fmap, Ho. }
  intros [sl|]; apply spec_pure_r; intros Hn.
  - eapply (spec_bind _ _ _ _ _ (λ _, at_phase (delete key Φ))).
    { apply spec_modify. unfold at_phase, phases. intros e <-. simpl. by rewrite fmap_delete. }
    intros ?. rest_later.
  - rewrite delete_id by auto. apply spec_ret. done.
Qed.

(** Creating, saving and dropping: the slot's bundler is replaced. *)
Lemma slot_there key why Φ Φ' :
  Logic.spec (either Φ Φ') (either Φ Φ') (at_phase Φ) (get_slot key why)
    (λ sl e, at_phase Φ e ∧ Φ !! key = Some (bundling sl)).
Proof. eapply spec_errors; [apply get_slot_phase|by left|by left]. Qed.

Lemma create_phase key name Φ :
  Logic.spec (to key (Create name) Φ) (to key (Create name) Φ) (at_phase Φ)
    (handle_in key (Create name)) (λ _, at_phase (<[key := true]> Φ)).
Proof.
  unfold handle_in.
  eapply (spec_bind _ _ _ _ _ (λ _, at_phase (<[key := true]> Φ))); [|intros; rest_later].
  unfold handle_create. eapply spec_bind; [apply slot_there|]. intros sl. apply spec_pure_r. intros Hsl.
  eapply (spec_bind _ _ _ _ _ (λ b e, at_phase Φ e ∧ is_bundling b = true)).
  { apply spec_lift; [|by left]. intros b e Hb He. split; [done|].
    unfold create in Hb. destruct (opened _); [done|]. by injection Hb as <-. }
  intros b. apply spec_pure_r. intros Hb. apply spec_modify. unfold at_phase. intros e <-.
  apply phases_set; [by rewrite Hsl|done].
Qed.

Lemma drop_phase key Φ :
  Logic.spec (to key Drop Φ) (to key Drop Φ) (at_phase Φ)
    (handle_in key Drop) (λ _, at_phase (<[key := false]> Φ)).
Proof.
  unfold handle_in.
  eapply (spec_bind _ _ _ _ _ (λ _, at_phase (<[key := false]> Φ))); [|intros; rest_later].
  unfold handle_drop. eapply spec_bind; [apply slot_there|]. intros sl. apply spec_pure_r. intros Hsl.
  eapply (spec_bind _ _ _ _ _ (λ b e, at_phase Φ e ∧ is_bundling b = false)).
  { apply spec_lift; [|by left]. intros b e Hb He. split; [done|].
    unfold drop_bundle in Hb. destruct (opened _); [|done]. by injection Hb as <-. }
  intros b. apply spec_pure_r. intros Hb. apply spec_modify. unfold at_phase. intros e <-.
  apply phases_set; [by rewrite Hsl|done].
Qed.

Lemma save_bundling ud ue t b : is_bundling (save ud ue t b).2 = false.
Proof.
  unfold save, is_bundling. destruct (opened b) eqn:Ho; [|simpl; by rewrite Ho].
  destruct (ob_objs o); [done|].
  match goal with |- context [let '(_, _) := ?x in _] =>
    assert (opened x.2 = None) as Hx; [|destruct x as [out b']; simpl in Hx] end.
  { case_match; [|done].
    match goal with |- context [prepare_stream ?u ?t ?n ?os ?b] =>
      pose proof (prepare_stream_bundling u t n os b) as Hb; destruct (prepare_stream u t n os b) as [d b'] end.
    unfold is_bundling in Hb. simpl in *. by destruct (opened b'). }
  destruct (event _ _ _ _ _ _) as [[ev|] bd]; simpl; by rewrite Hx.
Qed.

Lemma on_slot_phases key f e :
  (∀ sl, bundling (f sl) = bundling sl) → phases (on_slot key f e) = phases e.
Proof.
  intros Hf. unfold phases, on_slot. simpl. apply map_eq. intros k. rewrite !lookup_fmap.
  destruct (decide (k = key)) as [->|]; [rewrite lookup_alter_eq|by rewrite lookup_alter_ne].
  destruct (runs (state e) !! key); [|done]. simpl. by rewrite Hf.
Qed.

Lemma save_phase key Φ :
  Logic.spec (to key Save Φ) (to key Save Φ) (at_phase Φ)
    (handle_in key Save) (λ _, at_phase (<[key := false]> Φ)).
Proof.
  unfold handle_in.
  eapply (spec_bind _ _ _ _ _ (λ _, at_phase (<[key := false]> Φ))); [|intros; rest_later].
  unfold handle_save. eapply spec_bind; [apply slot_there|]. intros sl. apply spec_pure_r. intros Hsl.
  do 3 step_before. pose proof (save_bundling a a0 a1 (sl_bundler sl)) as Hb.
  destruct (save _ _ _ _) as [r b]. simpl in Hb.
  eapply (spec_bind _ _ _ _ _ (λ _, at_phase (<[key := false]> Φ))).
  { unfold put_bundler. apply spec_modify. unfold at_phase. intros e <-.
    apply phases_set; [by rewrite Hsl|done]. }
  intros ?. apply spec_later; unfold at_phase; keeps_auto.
  by rewrite on_slot_phases.
Qed.

Lemma handle_in_phases key m Φ :
  Logic.spec (to key m Φ) (to key m Φ) (at_phase Φ) (handle_in key m)
    (λ _, at_phase (phase_after key m Φ)).
Proof.
  destruct (phasing m) eqn:Hp.
  - destruct m; try discriminate Hp;
      [apply open_phase|apply close_phase|apply create_phase|apply save_phase|apply drop_phase].
  - assert (phase_after key m Φ = Φ) as -> by (by destruct m).
    eapply spec_errors; [by apply handle_in_phase|by left|by left].
Qed.

Lemma handle_in_leaves key m e :
  match handle_in key m e with
  | (Ret _, e') => phases e' = phase_after key m (phases e)
  | (_, e') => phases e' = phases e ∨ phases e' = phase_after key m (phases e)
  end.
Proof.
  pose proof (handle_in_phases key m (phases e) e eq_refl) as Hs. unfold wp, either, at_phase in Hs.
  destruct (handle_in key m e) as [[a| | | | |] e']; exact Hs.
Qed.

(** ** Theorems *)

(** A message that is handled makes of the open runs what it says: a run is opened,
    closed, a bundle opened, saved or dropped, and no other message, no device, no
    pump and no other task changes any of it. One that fails has left them as they were
    or has done that and failed later. *)
Theorem phases_follow_messages m e :
  match handle m e with
  | (Ret _, e') => phases e' = after m (phases e)
  | (_, e') => phases e' = phases e ∨ phases e' = after m (phases e)
  end.
Proof.
  unfold handle, after. destruct (route m) as [[key m']|x] eqn:Hr; [|by left].
  apply (handle_in_leaves key m').
Qed.
End phases.
