(* ===== verification/Gen.v ===== *)
(** * Plan bodies ([core/plan.rs] and the [async_stream] blocks of [plans/])

    A plan body is a generator: it yields items and, between two items, reads the clock
    and the devices at the instant it is polled and reads and changes what it shares
    with the engine and with the rest of the plan. A loop without a bound of its own
    takes fuel and is [CutShort] when that is used up. *)

From S2P Require Import Prelude Interfaces Errors Control Documents Bundler Device.

Section gen.
Context `{JsonNumber}.
Implicit Types (i : PlanItem) (t : Instant) (c : Channel).

Inductive Gen :=
| Done
| CutShort
| Yield (i : PlanItem) (k : Gen)
| Env (u : Instant → Channel → Channel) (k : Instant → Channel → Gen).

(** [stream.next().await]. *)
Fixpoint poll (g : Gen) t c : option PlanItem * Gen * Channel :=
  match g with
  | Done | CutShort => (None, g, c)
  | Yield i k => (Some i, k, c)
  | Env u k => poll (k t c) t (u t c)
  end.

(** ** Building blocks *)

(** [yield m; ...] for each of a list of messages. *)
Fixpoint emit (ms : list Msg) (k : Gen) : Gen :=
  match ms with [] => k | m :: ms => Yield (Bare m) (emit ms k) end.

(** [while let Some(item) = g.next().await { yield item }; k] *)
Fixpoint and_then (g k : Gen) : Gen :=
  match g with
  | Done => k
  | CutShort => CutShort
  | Yield i g => Yield i (and_then g k)
  | Env u g => Env u (λ t c, and_then (g t c) k)
  end.

(** The same where the loop yields only the message of each item: the channel on which
    a [Respond] expects its answer is dropped. *)
Fixpoint bare_only (g : Gen) : Gen :=
  match g with
  | Done => Done
  | CutShort => CutShort
  | Yield i g => Yield (Bare (item_msg i)) (bare_only g)
  | Env u g => Env u (λ t c, bare_only (g t c))
  end.

(** The clock, a device. *)
Definition look (k : Instant → Gen) : Gen := Env (λ _ c, c) (λ t _, k t).

(** [Arc::new(..)]: a new sink or cell. *)
Definition new_cell (k : nat → Gen) : Gen :=
  Env (λ _ c, set_next_cell (S (next_cell c)) c) (λ _ c, k (next_cell c)).

(** [sink.lock().unwrap().take()] *)
Definition take_sink (s : nat) (k : option Thrown → Gen) : Gen :=
  Env (λ _ c, set_sinks (delete s (sinks c)) c) (λ _ c, k (sinks c !! s)).

(** [rx.await]: [None] when the sender was dropped. *)
Definition receive (k : option MsgResult → Gen) : Gen :=
  Env (λ _ c, set_answer None c) (λ _ c, k (answer c)).

(** [std::mem::take] of a cell, and a push to it. *)
Definition take_moved (cell : nat) (k : list (Device * f64) → Gen) : Gen :=
  Env (λ _ c, set_moved (delete cell (moved c)) c) (λ _ c, k (default [] (moved c !! cell))).
Definition push_moved (cell : nat) (x : Device * f64) (k : Gen) : Gen :=
  Env (λ _ c, set_moved (<[cell := default [] (moved c !! cell) ++ [x]]> (moved c)) c) (λ _ _, k).
Definition take_staging (cell : nat) (k : list Device → Gen) : Gen :=
  Env (λ _ c, set_staging (delete cell (staging c)) c) (λ _ c, k (default [] (staging c !! cell))).
Definition push_staging (cell : nat) (d : Device) (k : Gen) : Gen :=
  Env (λ _ c, set_staging (<[cell := default [] (staging c !! cell) ++ [d]]> (staging c)) c) (λ _ _, k).

(** ** Complete and interrupted executions

    [completes g t c ins out]: polled first at [t] with channel [c] and then with the
    instants and channels [ins] that the engine hands back, one after each item, [g]
    yields [out] and ends. [yields g t c ins out]: it has just yielded the last of [out].
    The engine hands back channels related by [E] to the ones the plan left. *)
Section executions.
Context (E : Channel → Channel → Prop).

Inductive completes : Gen → Instant → Channel → list (Instant * Channel) → list PlanItem →
  Instant → Channel → Prop :=
| comp_done t c : completes Done t c [] [] t c
| comp_env u k t c ins out t' c' :
    completes (k t c) t (u t c) ins out t' c' → completes (Env u k) t c ins out t' c'
| comp_yield i k t c t1 c1 ins out t' c' :
    E c c1 → completes k t1 c1 ins out t' c' → completes (Yield i k) t c ((t1, c1) :: ins) (i :: out) t' c'.

Inductive yields : Gen → Instant → Channel → list (Instant * Channel) → list PlanItem →
  Channel → Prop :=
| yields_env u k t c ins out c' :
    yields (k t c) t (u t c) ins out c' → yields (Env u k) t c ins out c'
| yields_last i k t c : yields (Yield i k) t c [] [i] c
| yields_more i k t c t1 c1 ins out c' :
    E c c1 → yields k t1 c1 ins out c' → yields (Yield i k) t c ((t1, c1) :: ins) (i :: out) c'.

(** These are the executions of [poll]. *)
Lemma completes_poll g t c ins out t' c' :
  completes g t c ins out t' c' →
  match poll g t c with
  | (None, _, c0) => ins = [] ∧ out = [] ∧ t' = t ∧ c' = c0
  | (Some i, k, c0) => ∃ t1 c1 ins' out', ins = (t1, c1) :: ins' ∧ out = i :: out' ∧ E c0 c1
                                        ∧ completes k t1 c1 ins' out' t' c'
  end.
Proof. induction 1; simpl; [done|done|]. by eexists _, _, _, _. Qed.

Lemma completes_length g t c ins out t' c' : completes g t c ins out t' c' → length ins = length out.
Proof. induction 1; simpl; auto. Qed.

Lemma yields_length g t c ins out c' : yields g t c ins out c' → length out = S (length ins).
Proof. induction 1; simpl; auto. Qed.

Lemma completes_emit ms k t c ins out t' c' :
  completes (emit ms k) t c ins out t' c' →
  ∃ ins1 ins2 out2 t1 c1, ins = ins1 ++ ins2 ∧ out = (Bare <$> ms) ++ out2 ∧ length ins1 = length ms
    ∧ completes k t1 c1 ins2 out2 t' c'.
Proof.
  revert t c ins out. induction ms as [|m ms IH]; intros t c ins out Hc; simpl in *.
  - by exists [], ins, out, t, c.
  - inversion Hc as [| |? ? ? ? t1 c1 ins1 out1 ? ? HE Hk]; subst.
    destruct (IH _ _ _ _ Hk) as (a & b & out2 & t2 & c2 & -> & -> & Hl & Hrest).
    exists ((t1, c1) :: a), b, out2, t2, c2. simpl. by rewrite Hl.
Qed.

Lemma completes_and_then g k t c ins out t' c' :
  completes (and_then g k) t c ins out t' c' →
  ∃ ins1 ins2 out1 out2 t1 c1, ins = ins1 ++ ins2 ∧ out = out1 ++ out2
    ∧ completes g t c ins1 out1 t1 c1 ∧ completes k t1 c1 ins2 out2 t' c'.
Proof.
  revert t c ins out. induction g as [| |i g IH|u g IH]; intros t c ins out Hc; simpl in *.
  - exists [], ins, [], out, t, c. split_and!; [done|done|constructor|done].
  - inversion Hc.
  - inversion Hc as [| |? ? ? ? t1 c1 ins1 out1 ? ? HE Hk]; subst.
    destruct (IH _ _ _ _ Hk) as (a & b & out2 & out3 & t2 & c2 & -> & -> & H1 & H2).
    exists ((t1, c1) :: a), b, (i :: out2), out3, t2, c2. split_and!; [done|done|by constructor|done].
  - inversion Hc as [|? ? ? ? ? ? ? ? Hk|]; subst.
    destruct (IH _ _ _ _ _ _ Hk) as (a & b & out2 & out3 & t2 & c2 & -> & -> & H1 & H2).
    exists a, b, out2, out3, t2, c2. split_and!; [done|done|by constructor|done].
Qed.
End executions.

(** ** Disciplined plans

    A discipline is an automaton that reads the messages of a plan. [follows g R Q]
    from a state: whatever the clock, the devices and the engine answer, the automaton
    accepts every message, is in a state of [R] whenever the plan is suspended at one
    and in a state of [Q] when the plan ends. [cut]: its loops may use up their fuel. *)
Section discipline.
Context {S : Type} (step : S → Msg → option S) (cut : Prop).
Implicit Types (s : S) (R Q : S → Prop).

Fixpoint follows R Q (g : Gen) s : Prop :=
  match g with
  | Done => Q s
  | CutShort => cut
  | Yield i k => match step s (item_msg i) with Some s' => R s' ∧ follows R Q k s' | None => False end
  | Env _ k => ∀ t c, follows R Q (k t c) s
  end.

Lemma follows_weaken R R' Q Q' g s :
  (∀ s, R s → R' s) → (∀ s, Q s → Q' s) → follows R Q g s → follows R' Q' g s.
Proof.
  intros HR HQ. revert s. induction g as [| |i g IH|u g IH]; intros s; simpl; [auto|done| |eauto].
  destruct (step s _); [|done]. naive_solver.
Qed.

Lemma follows_and_then R Q g k s : follows R (follows R Q k) g s → follows R Q (and_then g k) s.
Proof.
  revert s. induction g as [| |i g IH|u g IH]; intros s; simpl; [auto|done| |eauto].
  destruct (step s _); naive_solver.
Qed.

Lemma follows_bare R Q g s : follows R Q g s → follows R Q (bare_only g) s.
Proof.
  revert s. induction g as [| |i g IH|u g IH]; intros s; simpl; [auto|done| |eauto].
  destruct (step s _); naive_solver.
Qed.

(** The automaton on a list of messages. *)
Fixpoint reads (ms : list Msg) s : option S :=
  match ms with
  | [] => Some s
  | m :: ms => s' ← step s m; reads ms s'
  end.

Lemma follows_emit R Q ms k s :
  (∀ m s s', m ∈ ms → step s m = Some s' → R s') →
  match reads ms s with Some s' => follows R Q k s' | None => False end →
  follows R Q (emit ms k) s.
Proof.
  revert s. induction ms as [|m ms IH]; intros s HR; simpl; [done|].
  destruct (step s m) as [s'|] eqn:Hs; [|done]. simpl. intros Hk. split; [eapply HR; [left|done]|].
  apply IH; [|done]. intros m' s1 s2 Hm. apply HR. by right.
Qed.
End discipline.
End gen.

#[global] Hint Constructors completes yields : bsrs.
