(* ===== verification/Preproc.v ===== *)
(** * Plan preprocessors ([plans/preprocessors.rs])

    The wrappers that transform a plan: mutators, brackets around a plan or around the
    runs it opens, and the try/except/else/finally bracket that the others build on.
    Printing a plan's messages has no effect here. *)

From S2P Require Import Prelude Interfaces Errors Control Documents F64 Bundler Device Gen.

(** What the plans take from the process they run in: the monotonic clock in
    nanoseconds at each instant, the texts of errors and durations, JSON numbers of
    doubles. *)
Class PlanHost `{JsonNumber} := {
  mono : Instant → Z;
  display_error : BsrsError → string;
  display_f64 : f64 → string;
  json_f64 : f64 → Value;
  value_as_f64 : Value → option f64;
}.

Section preprocessors.
Context `{JsonNumber, !PlanHost}.
Implicit Types (inner : Gen) (d obj : Device) (m : Msg) (i : PlanItem).

(** ** Mutators

    An [FnMut] is a function of the state it keeps. *)
Fixpoint plan_mutator {A} (f : A → Msg → option Gen * A) (a : A) inner : Gen :=
  match inner with
  | Done => Done
  | CutShort => CutShort
  | Env u k => Env u (λ t c, plan_mutator f a (k t c))
  | Yield i k =>
      match f a (item_msg i) with
      | (Some repl, a) => and_then repl (plan_mutator f a k)
      | (None, a) => Yield i (plan_mutator f a k)
      end
  end.

Fixpoint msg_mutator {A} (f : A → Msg → Msg * A) (a : A) inner : Gen :=
  match inner with
  | Done => Done
  | CutShort => CutShort
  | Env u k => Env u (λ t c, msg_mutator f a (k t c))
  | Yield i k =>
      Yield (map_msg (λ m, (f a m).1) i) (msg_mutator f (f a (item_msg i)).2 k)
  end.

Fixpoint pchain (plans : list Gen) : Gen :=
  match plans with [] => Done | p :: plans => and_then p (pchain plans) end.

Definition inject_md (md_extra : gmap string Value) m : Msg :=
  match m with
  | OpenRun meta => OpenRun (mkMeta (meta_scan_id meta) (meta_extra meta ∪ md_extra) (meta_plan_name meta))
  | m => m
  end.

Definition inject_md_wrapper inner (md_extra : gmap string Value) : Gen :=
  msg_mutator (λ _ m, (inject_md md_extra m, ())) () inner.

Definition set_run_key_wrapper inner (run_key : string) : Gen :=
  msg_mutator (λ _ m, (inject_md {["run_key" := VString run_key]} m, ())) () inner.

(** ** Try, except, else, finally *)

(** The [try] part: each item is forwarded, then the sink is looked at. *)
Fixpoint guard (sink : nat) (after : option Thrown → Gen) inner : Gen :=
  match inner with
  | Done => after None
  | CutShort => CutShort
  | Env u k => Env u (λ t c, guard sink after (k t c))
  | Yield i k =>
      Yield i (take_sink sink (λ thrown,
        match thrown with
        | Some t => after (Some t)
        | None => guard sink after k
        end))
  end.

Definition option_plan (p : option Gen) : Gen := default Done p.
Definition reraise (thrown : option Thrown) : Gen :=
  match thrown with Some t => emit [Raise t] Done | None => Done end.

Definition after_inner (except_plan : option (Thrown → Gen)) (else_plan final_plan : option Gen)
  (auto_raise : bool) (thrown : option Thrown) : Gen :=
  emit [PopContingency]
    (let '(branch, again) :=
       match thrown, except_plan with
       | Some t, Some build => (build t, if auto_raise then Some t else None)
       | Some t, None => (Done, Some t)
       | None, _ => (option_plan else_plan, None)
       end in
     and_then branch (and_then (option_plan final_plan) (reraise again))).

Definition contingency_wrapper inner (except_plan : option (Thrown → Gen))
  (else_plan final_plan : option Gen) (auto_raise : bool) : Gen :=
  new_cell (λ sink,
    emit [PushContingency sink]
      (guard sink (after_inner except_plan else_plan final_plan auto_raise) inner)).

Definition finalize_wrapper inner (final_plan : Gen) : Gen :=
  contingency_wrapper inner None None (Some final_plan) true.

(** ** Brackets *)

Definition close_thrown (thrown : Thrown) : Msg :=
  match thrown with
  | ThError e => CloseRun "fail" (Some (display_error e))
  | ThInterrupt kind reason => CloseRun (interrupt_exit_status kind) reason
  end.

Definition run_wrapper inner (md : RunMetadata) : Gen :=
  emit [OpenRun md]
    (contingency_wrapper inner (Some (λ thrown, emit [close_thrown thrown] Done))
       (Some (emit [CloseRun "success" None] Done)) None true).

Definition rewindable_wrapper inner (on : bool) : Gen :=
  emit [Rewindable on] (finalize_wrapper inner (emit [Rewindable true] Done)).

Definition stage_wrapper inner (devices : list Device) : Gen :=
  finalize_wrapper (emit (Stage <$> devices) inner) (emit (Unstage <$> reverse devices) Done).

Definition suspend_wrapper (id : Z) inner (suspender : Suspender) : Gen :=
  finalize_wrapper (emit [InstallSuspender id (Some suspender)] inner)
    (emit [RemoveSuspender id] Done).

Definition configure_count_time_wrapper inner (time : f64) (detectors : list Device) : Gen :=
  emit ((λ d, Configure d {["count_time" := json_f64 time]}) <$> detectors) inner.

Definition subs_wrapper inner : Gen := inner.
Definition print_summary_wrapper inner : Gen := inner.

Fixpoint stub_wrapper inner : Gen :=
  match inner with
  | Done => Done
  | CutShort => CutShort
  | Env u k => Env u (λ t c, stub_wrapper (k t c))
  | Yield i k =>
      match item_msg i with
      | OpenRun _ => emit [Fail "stub_wrapper: inner plan must not emit OpenRun"] Done
      | CloseRun _ _ => emit [Fail "stub_wrapper: inner plan must not emit CloseRun"] Done
      | _ => Yield i (stub_wrapper k)
      end
  end.

(** ** At the borders of a run

    What the callers insert does not change from run to run. *)
Fixpoint during_run_wrapper (after_open before_close : list Msg) inner : Gen :=
  match inner with
  | Done => Done
  | CutShort => CutShort
  | Env u k => Env u (λ t c, during_run_wrapper after_open before_close (k t c))
  | Yield i k =>
      match item_msg i with
      | OpenRun _ => Yield i (emit after_open (during_run_wrapper after_open before_close k))
      | CloseRun _ _ => emit before_close (Yield i (during_run_wrapper after_open before_close k))
      | _ => Yield i (during_run_wrapper after_open before_close k)
      end
  end.

Definition monitor_during_wrapper inner (signals : list Device) : Gen :=
  during_run_wrapper
    ((λ s, Monitor s (Some (d_name s +:+ "_monitor"))) <$> signals)
    (Unmonitor <$> reverse signals) inner.

Definition read_block (stream : string) (devices : list Device) : list Msg :=
  Create stream :: (Read <$> devices) ++ [Save].

Definition baseline_wrapper inner (devices : list Device) (name : string) : Gen :=
  during_run_wrapper (read_block name devices) (read_block name devices) inner.

Definition FlyerPair : Type := Device * Device.

Definition wait_if {A} (l : list A) (group : string) : list Msg :=
  match l with [] => [] | _ => [Wait group true None] end.

Definition fly_during_wrapper inner (flyers : list FlyerPair) : Gen :=
  during_run_wrapper
    (((λ fc, Kickoff fc.1 (Some "fly_kick")) <$> flyers) ++ wait_if flyers "fly_kick")
    (((λ fc, Complete fc.1 (Some "fly_done")) <$> flyers) ++ wait_if flyers "fly_done"
      ++ ((λ fc, Collect fc.2 None) <$> flyers)) inner.

(** ** Wrappers that watch the devices a plan uses *)

(** A [HashMap] of devices by name: the last of a name wins. *)
Definition by_name (devices : list Device) : gmap string Device :=
  foldl (λ acc d, <[d_name d := d]> acc) ∅ devices.

Fixpoint relative_sets (motors : gmap string Device) (bases : gmap string f64) inner : Gen :=
  match inner with
  | Done => Done
  | CutShort => CutShort
  | Env u k => Env u (λ t c, relative_sets motors bases (k t c))
  | Yield i k =>
      match item_msg i with
      | Set_ obj value group =>
          let name := d_name obj in
          let moved_by (base : f64) :=
            map_msg (λ m, match m with Set_ obj value group => Set_ obj (value + base)%f64 group | m => m end) i in
          match motors !! name, bases !! name with
          | None, _ => Yield i (relative_sets motors bases k)
          | Some _, Some base => Yield (moved_by base) (relative_sets motors bases k)
          | Some motor, None =>
              look (λ t,
                let base := match locate_dyn motor t with Ok loc => loc.1 | Err _ => 0%Z end in
                Yield (moved_by base) (relative_sets motors (<[name := base]> bases) k))
          end
      | _ => Yield i (relative_sets motors bases k)
      end
  end.

Definition relative_set_wrapper inner (motors : list Device) : Gen :=
  relative_sets (by_name motors) ∅ inner.

Fixpoint watch_moves (cell : nat) (motors : gmap string Device) (seen : gset string) inner : Gen :=
  match inner with
  | Done => Done
  | CutShort => CutShort
  | Env u k => Env u (λ t c, watch_moves cell motors seen (k t c))
  | Yield i k =>
      match item_msg i with
      | Set_ obj _ _ =>
          let name := d_name obj in
          match motors !! name with
          | Some motor =>
              if decide (name ∈ seen) then Yield i (watch_moves cell motors seen k) else
              look (λ t,
                let rest := Yield i (watch_moves cell motors ({[name]} ∪ seen) k) in
                match locate_dyn motor t with
                | Ok loc => push_moved cell (motor, loc.1) rest
                | Err _ => rest
                end)
          | None => Yield i (watch_moves cell motors seen k)
          end
      | _ => Yield i (watch_moves cell motors seen k)
      end
  end.

Definition reset_moves (moved : list (Device * f64)) : list Msg :=
  ((λ mv, Set_ mv.1 mv.2 (Some "reset")) <$> moved) ++ [Wait "reset" true None].

Definition reset_positions_wrapper inner (motors : list Device) : Gen :=
  new_cell (λ cell,
    finalize_wrapper (watch_moves cell (by_name motors) ∅ inner)
      (take_moved cell (λ moved, emit (reset_moves moved) Done))).

Definition touched m : option string :=
  match m with
  | Read o | Set_ o _ _ | Trigger o _ | Configure o _ => Some (d_name o)
  | _ => None
  end.

Fixpoint watch_touches (cell : nat) (devices : gmap string Device) (seen : gset string) inner : Gen :=
  match inner with
  | Done => Done
  | CutShort => CutShort
  | Env u k => Env u (λ t c, watch_touches cell devices seen (k t c))
  | Yield i k =>
      match touched (item_msg i) with
      | Some name =>
          if decide (name ∈ seen) then Yield i (watch_touches cell devices seen k) else
          let rest := Yield i (watch_touches cell devices ({[name]} ∪ seen) k) in
          match devices !! name with
          | Some d => Yield (Bare (Stage d)) (push_staging cell d rest)
          | None => rest
          end
      | None => Yield i (watch_touches cell devices seen k)
      end
  end.

Definition lazily_stage_wrapper inner (devices : list Device) : Gen :=
  new_cell (λ cell,
    finalize_wrapper (watch_touches cell (by_name devices) ∅ inner)
      (take_staging cell (λ staged, emit (Unstage <$> reverse staged) Done))).

(** ** Supplemental data *)

Record SupplementalData := mkSupplemental {
  baseline : list Device;
  monitors : list Device;
  flyers : list FlyerPair;
}.

Definition supplemental_new : SupplementalData := mkSupplemental [] [] [].
Definition add_baseline d (sd : SupplementalData) : SupplementalData :=
  mkSupplemental (baseline sd ++ [d]) (monitors sd) (flyers sd).
Definition add_monitor d (sd : SupplementalData) : SupplementalData :=
  mkSupplemental (baseline sd) (monitors sd ++ [d]) (flyers sd).
Definition add_flyer (flyer collectable : Device) (sd : SupplementalData) : SupplementalData :=
  mkSupplemental (baseline sd) (monitors sd) (flyers sd ++ [(flyer, collectable)]).
Definition supplemental_clear (sd : SupplementalData) : SupplementalData := supplemental_new.

Definition supplemental_apply (sd : SupplementalData) (plan : Gen) : Gen :=
  let plan := match flyers sd with [] => plan | fl => fly_during_wrapper plan fl end in
  let plan := match monitors sd with [] => plan | ms => monitor_during_wrapper plan ms end in
  match baseline sd with [] => plan | bl => baseline_wrapper plan bl "baseline" end.
End preprocessors.

Module HostSample.
Import Sample.
#[export] Instance sample_host : PlanHost :=
  {| mono t := Z.of_nat t; display_error _ := "error"; display_f64 _ := "f64";
     json_f64 _ := VNull; value_as_f64 _ := None |}.
End HostSample.
