(* ===== verification/Wrappers.v ===== *)
(** * What the plan wrappers do

    Every execution of a [contingency_wrapper] and of the wrappers built on it, whatever
    the wrapped plans are, the devices answer and the engine throws. *)

From S2P Require Import Prelude Interfaces Errors Control Documents F64 Bundler Device Gen.
From S2P Require Import Preproc.

Section wrappers.
Context `{JsonNumber, !PlanHost}.
Context (E : Channel → Channel → Prop).
Implicit Types (inner : Gen) (t : Instant) (c : Channel) (ins : list (Instant * Channel)).

#[local] Notation completes := (completes E).
#[local] Notation yields := (yields E).

(** [out] is all that [g] yields in some execution; or the items up to one at which it
    was left suspended. *)
Definition whole (g : Gen) (out : list PlanItem) : Prop :=
  ∃ t c ins t' c', completes g t c ins out t' c'.
Definition start_of (g : Gen) (out : list PlanItem) : Prop :=
  ∃ t c ins c', yields g t c ins out c'.

Definition thrown_at (s : nat) (tc : Instant * Channel) : option Thrown := sinks tc.2 !! s.

Lemma take_nothing s c : sinks c !! s = None → set_sinks (delete s (sinks c)) c = c.
Proof. intros Hs. rewrite delete_id by done. by destruct c. Qed.

Lemma whole_emit ms k out : whole (emit ms k) out → ∃ out', out = (Bare <$> ms) ++ out' ∧ whole k out'.
Proof.
  intros (t & c & ins & t' & c' & Hc).
  destruct (completes_emit E ms k t c ins out t' c' Hc) as (a & b & out' & t1 & c1 & -> & -> & _ & Hk).
  exists out'. split; [done|]. by exists t1, c1, b, t', c'.
Qed.

Lemma whole_and_then g k out :
  whole (and_then g k) out → ∃ out1 out2, out = out1 ++ out2 ∧ whole g out1 ∧ whole k out2.
Proof.
  intros (t & c & ins & t' & c' & Hc).
  destruct (completes_and_then E g k t c ins out t' c' Hc)
    as (a & b & out1 & out2 & t1 & c1 & -> & -> & H1 & H2).
  exists out1, out2. split_and!; [done|by exists t, c, a, t1, c1|by exists t1, c1, b, t', c'].
Qed.

Lemma whole_done out : whole Done out → out = [].
Proof. intros (t & c & ins & t' & c' & Hc). by inversion Hc. Qed.

Lemma whole_reraise thrown out : whole (reraise thrown) out → out = Bare ∘ Raise <$> option_list thrown.
Proof.
  destruct thrown; simpl; [|apply whole_done].
  intros (out' & -> & ->%whole_done)%(whole_emit [_]). done.
Qed.

(** ** The guarded part *)

Lemma guard_completes s after inner t c ins out t' c' :
  completes (guard s after inner) t c ins out t' c' →
  (∃ ins1 ins2 out1 out2 t1 c1, ins = ins1 ++ ins2 ∧ out = out1 ++ out2
     ∧ completes inner t c ins1 out1 t1 c1 ∧ Forall (λ tc, thrown_at s tc = None) ins1
     ∧ completes (after None) t1 c1 ins2 out2 t' c')
  ∨ (∃ ins1 t1 c1 ins2 out1 out2 c0 th, ins = ins1 ++ (t1, c1) :: ins2 ∧ out = out1 ++ out2
     ∧ yields inner t c ins1 out1 c0 ∧ E c0 c1 ∧ Forall (λ tc, thrown_at s tc = None) ins1
     ∧ thrown_at s (t1, c1) = Some th
     ∧ completes (after (Some th)) t1 (set_sinks (delete s (sinks c1)) c1) ins2 out2 t' c').
Proof.
  revert t c ins out. induction inner as [| |i k IH|u k IH]; intros t c ins out Hc; simpl in *.
  - left. exists [], ins, [], out, t, c. by split_and!; (done || constructor).
  - inversion Hc.
  - inversion Hc as [| |? ? ? ? t1 c1 ins1 out1 ? ? HE Hk]; subst.
    inversion Hk as [|? ? ? ? ? ? ? ? Hk'|]; subst. clear Hc Hk.
    destruct (sinks c1 !! s) as [th|] eqn:Hs.
    + right. exists [], t1, c1, ins1, [i], out1, c, th. by split_and!; (done || constructor).
    + rewrite take_nothing in Hk' by done.
      destruct (IH _ _ _ _ Hk') as
        [(a & b & o1 & o2 & t2 & c2 & -> & -> & H1 & Hf & H2)
        |(a & t2 & c2 & b & o1 & o2 & c0 & th & -> & -> & H1 & HE' & Hf & Hth & H2)].
      * left. exists ((t1, c1) :: a), b, (i :: o1), o2, t2, c2.
        by split_and!; (done || constructor).
      * right. exists ((t1, c1) :: a), t2, c2, b, (i :: o1), o2, c0, th.
        by split_and!; (done || constructor).
  - inversion Hc as [|? ? ? ? ? ? ? ? Hk|]; subst.
    destruct (IH _ _ _ _ _ _ Hk) as
      [(a & b & o1 & o2 & t2 & c2 & -> & -> & H1 & Hf & H2)
      |(a & t2 & c2 & b & o1 & o2 & c0 & th & -> & -> & H1 & HE' & Hf & Hth & H2)].
    + left. exists a, b, o1, o2, t2, c2. by split_and!; (done || constructor).
    + right. exists a, t2, c2, b, o1, o2, c0, th. by split_and!; (done || constructor).
Qed.

Lemma whole_after ex el fin ar thrown out :
  whole (after_inner ex el fin ar thrown) out →
  ∃ branch final,
    out = Bare PopContingency :: branch ++ final ++
          (Bare ∘ Raise <$> option_list
             match thrown with Some t => match ex with Some _ => if ar : bool then Some t else None
                                         | None => Some t end
             | None => None end)
    ∧ whole (option_plan fin) final
    ∧ match thrown, ex with
      | Some t, Some build => whole (build t) branch
      | Some t, None => branch = []
      | None, _ => whole (option_plan el) branch
      end.
Proof.
  intros (out' & -> & Hw)%(whole_emit [_]).
  destruct thrown as [th|]; [destruct ex as [build|]|];
    apply whole_and_then in Hw as (branch & rest & -> & Hb & Hw);
    apply whole_and_then in Hw as (final & again & -> & Hf & Hr);
    apply whole_reraise in Hr as ->; exists branch, final; split_and!; try done.
  by apply whole_done.
Qed.

(** ** Theorems *)

End wrappers.

Import Sample.
