(* ===== verification/Stubs.v ===== *)
(** * Plan stubs ([plans/mod.rs], module [stubs])

    The building blocks of compound plans: one message each, or a few. *)

From stdpp Require Import pretty.
From S2P Require Import Prelude Interfaces Errors Control Documents F64 Bundler Device Gen.
From S2P Require Import Preproc.

(** A motor's role in a step: its handle, its reader, its target if it is to move. *)
Definition StepMotor `{JsonNumber} : Type := Device * Device * option f64.

(** [short_uid]: the counter's value is an argument. *)
Definition short_uid (label : string) (n : Z) : string := label +:+ "-" +:+ pretty n.

Module stubs.
Section stubs.
Context `{JsonNumber, !PlanHost}.
Implicit Types (obj motor flyer d : Device) (group : option string).

Definition one (m : Msg) : Gen := emit [m] Done.

(** [Arc::ptr_eq] duplicates are dropped, the first kept. *)
Definition separate_devices (devices : list Device) : list Device :=
  foldl (λ out d, if decide (Exists (λ e, d_ptr e = d_ptr d) out) then out else out ++ [d]) [] devices.

Definition open_run (md : RunMetadata) : Gen := one (OpenRun md).
Definition close_run (exit_status : string) (reason : option string) : Gen :=
  one (CloseRun exit_status reason).
Definition create (stream_name : string) : Gen := one (Create stream_name).
Definition save : Gen := one Save.
Definition drop_bundle : Gen := one Drop.
Definition declare_stream (stream_name : string) (objs : StreamObjs) : Gen :=
  one (DeclareStream stream_name objs).
Definition read obj : Gen := one (Read obj).
Definition null : Gen := one Null.
Definition abs_set motor (value : f64) group : Gen := one (Set_ motor value group).

Definition wait_msg (group : string) : Msg := Wait group true None.

Definition set_all (g : string) (moves : list (Device * f64)) : list Msg :=
  ((λ mv, Set_ mv.1 mv.2 (Some g)) <$> moves) ++ [wait_msg g].

Definition mv_many (moves : list (Device * f64)) : Gen := emit (set_all "mv" moves) Done.
Definition mv motor (value : f64) : Gen := mv_many [(motor, value)].

(** Every setpoint is read before anything moves. *)
Fixpoint resolve_moves (moves targets : list (Device * f64)) : Gen :=
  match moves with
  | [] => emit (set_all "mv" targets) Done
  | (motor, delta) :: moves =>
      look (λ t,
        match locate_dyn motor t with
        | Ok loc => resolve_moves moves (targets ++ [(motor, (loc.1 + delta)%f64)])
        | Err e =>
            one (Fail ("mvr(" +:+ d_name motor +:+ "): locate_dyn failed: " +:+ display_error e))
        end)
  end.

Definition mvr_many (moves : list (Device * f64)) : Gen := resolve_moves moves [].
Definition mvr motor (delta : f64) : Gen := mvr_many [(motor, delta)].

Definition rel_set motor (value : f64) group : Gen :=
  look (λ t,
    match locate_dyn motor t with
    | Ok loc => one (Set_ motor (loc.1 + value)%f64 group)
    | Err e =>
        one (Fail ("rel_set(" +:+ d_name motor +:+ "): locate_dyn failed: " +:+ display_error e))
    end).

Definition trigger obj group : Gen := one (Trigger obj group).
Definition stop obj : Gen := one (Stop obj true).
Definition stop_emergency obj : Gen := one (Stop obj false).
Definition sleep (d : Z) : Gen := one (Sleep d).
Definition wait (group : string) (timeout : option Z) : Gen := one (Wait group true timeout).
Definition wait_for (factories : list Awaitable) (timeout : option Z) : Gen :=
  one (WaitFor factories timeout).
Definition checkpoint : Gen := one Checkpoint.
Definition clear_checkpoint : Gen := one ClearCheckpoint.
Definition pause : Gen := one (Pause false).
Definition deferred_pause : Gen := one (Pause true).
Definition resume : Gen := one Resume.

Definition prepare (uid : Z) obj (value : Value) group (wait : bool) : Gen :=
  if wait then
    let g := default (short_uid "prepare" uid) group in
    emit [Prepare obj value (Some g); wait_msg g] Done
  else one (Prepare obj value group).

Definition kickoff flyer group : Gen := one (Kickoff flyer group).
Definition complete flyer group : Gen := one (Complete flyer group).

Definition kickoff_all (uid : Z) (flyers : list Device) group (wait : bool) : Gen :=
  let g := default (short_uid "kickoff_all" uid) group in
  emit (((λ f, Kickoff f (Some g)) <$> flyers) ++ (if wait then [wait_msg g] else [])) Done.

Definition complete_all (uid : Z) (flyers : list Device) group (wait : bool) : Gen :=
  let g := default (short_uid "complete_all" uid) group in
  emit (((λ f, Complete f (Some g)) <$> flyers) ++ (if wait then [wait_msg g] else [])) Done.

Definition collect obj (stream_name : option string) : Gen := one (Collect obj stream_name).

Fixpoint flush_loop (fuel : nat) (g : string) (dets : list Device) (flush_period : option Z)
  (stream_name : option string) : Gen :=
  match fuel with
  | 0 => CutShort
  | S fuel =>
      Yield (Respond (Wait g false flush_period)) (receive (λ r,
        match r with
        | Some (RWaitComplete done) =>
            emit ((λ d, Collect d stream_name) <$> dets)
              (if done then Done else flush_loop fuel g dets flush_period stream_name)
        | _ => Done
        end))
  end.

Definition collect_while_completing (fuel : nat) (uid : Z) (flyers dets : list Device)
  (flush_period : option Z) (stream_name : option string) : Gen :=
  let g := short_uid "complete" uid in
  emit ((λ f, Complete f (Some g)) <$> flyers) (flush_loop fuel g dets flush_period stream_name).

Definition stage obj : Gen := one (Stage obj).
Definition unstage obj : Gen := one (Unstage obj).
Definition stage_all (objs : list Device) : Gen := emit (Stage <$> objs) Done.
Definition unstage_all (objs : list Device) : Gen := emit (Unstage <$> reverse objs) Done.
Definition broadcast_msg (objs : list Device) (make : Device → Msg) : Gen := emit (make <$> objs) Done.
Definition configure obj (args : ConfigureArgs) : Gen := one (Configure obj args).
Definition monitor obj (name : option string) : Gen := one (Monitor obj name).
Definition unmonitor obj : Gen := one (Unmonitor obj).

Definition trigger_all (g : string) (triggerables : list Device) : list Msg :=
  match triggerables with
  | [] => []
  | _ => ((λ t, Trigger t (Some g)) <$> triggerables) ++ [wait_msg g]
  end.

Definition trigger_and_read (triggerables readables : list Device) (name : string) : Gen :=
  let triggerables := separate_devices triggerables in
  let readables := separate_devices readables in
  emit (trigger_all "trig" triggerables)
    (emit [Create name]
      (bare_only (contingency_wrapper (emit (Read <$> readables) Done)
        (Some (λ _, drop_bundle)) (Some save) None true))).

Definition one_shot (triggerables readables : list Device) : Gen :=
  emit [Checkpoint] (bare_only (trigger_and_read triggerables readables "primary")).

(** [plan_fn k] is the plan built by the [k]-th call. *)
Definition repeater (n : nat) (plan_fn : nat → Gen) : Gen :=
  foldr (λ k rest, and_then (plan_fn k) rest) Done (seq 0 n).

(** [d - start.elapsed()] if that is positive. *)
Definition sleep_out (target : Z) (start : Z) (k : Gen) : Gen :=
  if (target =? 0)%Z then k else
  look (λ t, let elapsed := Z.max 0 (mono t - start) in
             if (elapsed <? target)%Z then emit [Sleep (target - elapsed)%Z] k else k).

Fixpoint repeat_loop (fuel : nat) (plan_fn : nat → Gen) (num : option nat) (delay : Z) (i : nat) : Gen :=
  match fuel with
  | 0 => CutShort
  | S fuel =>
      if match num with Some n => n <=? i | None => false end then Done else
      look (λ t,
        emit [Checkpoint]
          (and_then (plan_fn i)
            (sleep_out delay (mono t) (repeat_loop fuel plan_fn num delay (S i)))))
  end.

(** A number of repetitions bounds the loop, its absence leaves it to [fuel]. *)
Definition loop_fuel (num : option nat) (fuel : nat) : nat :=
  match num with Some n => S n | None => fuel end.

Definition repeat (fuel : nat) (plan_fn : nat → Gen) (num : option nat) (delay : Z) : Gen :=
  repeat_loop (loop_fuel num fuel) plan_fn num delay 0.

Definition move_per_step (motors : list StepMotor) : Gen :=
  emit (Checkpoint
        :: omap (λ m : StepMotor, pos ← m.2; Some (Set_ m.1.1 pos (Some "set"))) motors
        ++ [wait_msg "set"]) Done.

Definition one_nd_step (detectors : list Device) (motors : list StepMotor) : Gen :=
  and_then (bare_only (move_per_step motors))
    (emit (Create "primary" :: ((λ m : StepMotor, Read m.1.2) <$> motors)
           ++ (Read <$> detectors) ++ [Save]) Done).

Definition read_shot (detectors : list Device) : Gen :=
  emit (Checkpoint :: Create "primary" :: (Read <$> detectors) ++ [Save]) Done.
End stubs.
End stubs.
