(* ===== verification/Plans.v ===== *)
(** * Plans ([plans/mod.rs])

    The compound plans: counts, step scans, grids, spirals, ramps, fly scans and the
    scans that follow a signal. A plan built by another is forwarded message by message. *)

From S2P Require Import Prelude Interfaces Errors Control Documents F64 Patterns.
From S2P Require Import Bundler Device Gen Preproc Stubs.

Module plans.
Section plans.
Context `{JsonNumber, !PlanHost, !Libm}.
Implicit Types (detectors motors : list Device) (motor reader : Device).

(** ** The metadata of a run *)

Inductive AxisGrouping := Coupled | Grid | Time.

Definition motor_hint_fields reader : list string := default [d_name reader] (hint_fields reader).

Definition json_names (l : list string) : Value := VArray (VString <$> l).
Definition arg_names (objs : list Device) : Value := json_names (d_name <$> objs).
Definition json_nat (n : nat) : Value := json_Z (Z.of_nat n).

Definition hints_json (h : Hints) : Value :=
  VObject match dimensions h with
          | None => []
          | Some ds =>
              [("dimensions", VArray ((λ d, VArray ((λ i, match i with
                  | DimName s => VString s
                  | DimFields l => json_names l
                  end) <$> d)) <$> ds))]
          end.

Definition run_md_with_args (plan_name : string) (plan_args : Value) : RunMetadata :=
  mkMeta None (if is_null plan_args then ∅ else {["plan_args" := plan_args]}) (Some plan_name).

Definition axes_of (grouping : AxisGrouping) (readers : list Device) : list (list string) :=
  match grouping with
  | Time => [["time"]]
  | Coupled => [readers ≫= motor_hint_fields]
  | Grid => motor_hint_fields <$> readers
  end.

Definition axis_hints (axes : list (list string)) : Hints :=
  let dims := (λ fields, [DimFields fields; DimName "primary"]) <$> filter (λ f, f ≠ []) axes in
  mkHints match dims with [] => None | _ => Some dims end.

Definition scan_run_md (plan_name : string) detectors (readers : list Device)
  (num_points : option nat) (grouping : AxisGrouping) (plan_args : Value) : RunMetadata :=
  let extra := if is_null plan_args then ∅ else {["plan_args" := plan_args]} in
  let extra := <["detectors" := arg_names detectors]> extra in
  let extra := match readers with [] => extra | _ => <["motors" := arg_names readers]> extra end in
  let extra := match num_points with
               | Some n => <["num_intervals" := json_nat (n - 1)]> (<["num_points" := json_nat n]> extra)
               | None => extra
               end in
  let extra := <["hints" := hints_json (axis_hints (axes_of grouping readers))]> extra in
  mkMeta None extra (Some plan_name).

(** ** Parts of a run *)

Definition close_success : Msg := CloseRun "success" None.

(** Bodies one after the other, each of which is forwarded bare. *)
Definition run_steps (steps : list Gen) (k : Gen) : Gen :=
  foldr (λ s rest, and_then (bare_only s) rest) k steps.

Definition stageables_for detectors motors : list Device :=
  stubs.separate_devices (filter (λ d, as_stageable d = true) (detectors ++ motors)).

Definition PerStep : Type := list Device → list StepMotor → Gen.
Definition PerShot : Type := list Device → Gen.

Definition hook_json {A} (hook : option A) : Value :=
  VString match hook with Some _ => "custom" | None => "default" end.

(** ** count *)

Inductive CountDelay := DelayNone | DelayEvery (d : Z) | DelaySequence (ds : list Z).

Definition count_delay_json (delay : CountDelay) : Value :=
  match delay with
  | DelayNone => VNull
  | DelayEvery d => json_f64 (as_secs_f64 d)
  | DelaySequence ds => VArray ((λ d, json_f64 (as_secs_f64 d)) <$> ds)
  end.

Definition delay_after (delay : CountDelay) (i : nat) : option Z :=
  match delay with
  | DelayNone => Some 0%Z
  | DelayEvery d => Some d
  | DelaySequence ds => ds !! i
  end.

Fixpoint count_loop (fuel : nat) detectors (num : option nat) (delay : CountDelay)
  (per_shot : PerShot) (i : nat) : Gen :=
  match fuel with
  | 0 => CutShort
  | S fuel =>
      let close := emit [close_success] Done in
      if match num with Some n => n <=? i | None => false end then close else
      look (λ start,
        and_then (bare_only (per_shot detectors))
          (match delay_after delay i with
           | None => close
           | Some d =>
               stubs.sleep_out d (mono start)
                 (count_loop fuel detectors num delay per_shot (S i))
           end))
  end.

(** A finite count given too short a sequence of delays. *)
Definition delays_missing (num : option nat) (delay : CountDelay) : bool :=
  match num, delay with
  | Some n, DelaySequence ds => (1 <? n) && (length ds <? n - 1)
  | _, _ => false
  end.

Definition nat_text (n : nat) : string := pretty.pretty n.

Definition missing_text (num : option nat) (delay : CountDelay) : string :=
  match num, delay with
  | Some n, DelaySequence ds =>
      "count: num=" +:+ nat_text n +:+ " needs at least " +:+ nat_text (n - 1)
      +:+ " delay entries but got " +:+ nat_text (length ds)
  | _, _ => EmptyString
  end.

Definition json_num (num : option nat) : Value :=
  match num with Some n => json_nat n | None => VNull end.

Definition count_ext (fuel : nat) detectors (num : option nat) (delay : CountDelay)
  (per_shot : option PerShot) : Gen :=
  if delays_missing num delay then stubs.one (Fail (missing_text num delay)) else
  let shot := default stubs.read_shot per_shot in
  let args := VObject [("detectors", arg_names detectors); ("num", json_num num);
                       ("delay", count_delay_json delay)] in
  stage_wrapper
    (emit [OpenRun (scan_run_md "count" detectors [] num Time args)]
      (count_loop (stubs.loop_fuel num fuel) detectors num delay shot 0))
    (stageables_for detectors []).

Definition count_per_shot detectors (num : nat) (per_shot : option PerShot) : Gen :=
  count_ext 0 detectors (Some num) DelayNone per_shot.

Definition count detectors (num : nat) : Gen := count_per_shot detectors num None.

Definition triggered_shot detectors (triggerables : list Device) : list Msg :=
  Checkpoint :: stubs.trigger_all "trigger" triggerables ++ read_block "primary" detectors.

Definition count_with_trigger detectors (triggerables : list Device) (num : nat) : Gen :=
  let args := VObject [("detectors", arg_names detectors); ("triggerables", arg_names triggerables);
                       ("num", json_nat num)] in
  emit (OpenRun (scan_run_md "count_with_trigger" detectors [] (Some num) Time args)
        :: mjoin (replicate num (triggered_shot detectors triggerables)) ++ [close_success]) Done.

(** ** Step scans *)

Definition ScanAxis : Type := Device * Device * f64 * f64.

(** A run of steps, the devices staged around it. *)
Definition step_run (md : RunMetadata) (steps : list Gen) (staged : list Device) : Gen :=
  stage_wrapper (emit [OpenRun md] (run_steps steps (emit [close_success] Done))) staged.

Definition step_of (per_step : option PerStep) : PerStep := default stubs.one_nd_step per_step.

Definition inner_product_core detectors (num : nat) (axes : list ScanAxis)
  (per_step : option PerStep) (plan_name : string) : Gen :=
  let pts := patterns.inner_product num ((λ ax : ScanAxis, (ax.1.2, ax.2)) <$> axes) in
  let args := VObject [("detectors", arg_names detectors); ("num", json_nat num);
    ("args", VArray (ax ← axes;
       [VString (d_name ax.1.1.1); json_f64 ax.1.2; json_f64 ax.2]));
    ("per_step", hook_json per_step)] in
  let readers := (λ ax : ScanAxis, ax.1.1.2) <$> axes in
  step_run (scan_run_md plan_name detectors readers (Some num) Coupled args)
    ((λ row, step_of per_step detectors
       (zip_with (λ (ax : ScanAxis) v, (ax.1.1.1, ax.1.1.2, Some v)) axes row)) <$> pts)
    (stageables_for detectors ((λ ax : ScanAxis, ax.1.1.1) <$> axes)).

Definition scan_per_step detectors (axes : list ScanAxis) (num : nat) (per_step : option PerStep) : Gen :=
  inner_product_core detectors num axes per_step "scan".
Definition scan detectors (axes : list ScanAxis) (num : nat) : Gen := scan_per_step detectors axes num None.

Definition inner_product_scan_per_step detectors (num : nat) (axes : list ScanAxis)
  (per_step : option PerStep) : Gen :=
  inner_product_core detectors num axes per_step "inner_product_scan".
Definition inner_product_scan detectors (num : nat) (axes : list ScanAxis) : Gen :=
  inner_product_scan_per_step detectors num axes None.

(** [(hi - lo) / (num as f64 - 1.0)] *)
Definition step_size (lo hi : f64) (num : nat) : f64 :=
  if 1 <? num then ((hi - lo) / (f64_of_nat num - f64_one))%f64 else 0%Z.

(** One motor, at each of the points. *)
Definition motor_steps detectors motor reader (points : list f64) (per_step : option PerStep) : list Gen :=
  (λ pos, step_of per_step detectors [(motor, reader, Some pos)]) <$> points.

Definition scan_points (lo hi : f64) (num : nat) : list f64 :=
  (λ i, (lo + step_size lo hi num * f64_of_nat i)%f64) <$> seq 0 num.

Definition scan_1d_per_step detectors motor reader (start stop : f64) (num : nat)
  (per_step : option PerStep) : Gen :=
  let args := VObject [("detectors", arg_names detectors); ("num", json_nat num);
    ("args", VArray [VString (d_name motor); json_f64 start; json_f64 stop]);
    ("per_step", hook_json per_step)] in
  step_run (scan_run_md "scan" detectors [reader] (Some num) Coupled args)
    (motor_steps detectors motor reader (scan_points start stop num) per_step)
    (stageables_for detectors [motor]).

Definition scan_1d detectors motor reader (start stop : f64) (num : nat) : Gen :=
  scan_1d_per_step detectors motor reader start stop num None.

Definition json_points (points : list f64) : Value := VArray (json_f64 <$> points).

Definition list_scan_per_step detectors motor reader (points : list f64) (per_step : option PerStep) : Gen :=
  let args := VObject [("detectors", arg_names detectors);
    ("args", VArray [VString (d_name motor); json_points points]);
    ("per_step", hook_json per_step)] in
  step_run (scan_run_md "list_scan" detectors [reader] (Some (length points)) Coupled args)
    (motor_steps detectors motor reader points per_step)
    (stageables_for detectors [motor]).

Definition list_scan detectors motor reader (points : list f64) : Gen :=
  list_scan_per_step detectors motor reader points None.

(** ** Scans over a list of points

    [pos_cache]: a motor is commanded only where its target is not the one it was last
    set to. *)
Definition same_target (cached : option f64) (v : f64) : bool :=
  match cached with Some w => (w =? v)%f64 | None => false end.

Fixpoint step_targets (motors : list (Device * Device)) (pos_cache : list (option f64)) (row : list f64)
  : list StepMotor * list (option f64) :=
  match motors, pos_cache with
  | (m, mr) :: motors, cached :: cache =>
      let '(target, cached) :=
        match row with
        | v :: _ => if same_target cached v then (None, cached) else (Some v, Some v)
        | [] => (None, cached)
        end in
      let '(steps, cache) := step_targets motors cache (tail row) in
      ((m, mr, target) :: steps, cached :: cache)
  | _, _ => ([], [])
  end.

Fixpoint cached_steps (motors : list (Device * Device)) (pos_cache : list (option f64))
  (points : list (list f64)) : list (list StepMotor) :=
  match points with
  | [] => []
  | row :: points =>
      let '(steps, cache) := step_targets motors pos_cache row in
      steps :: cached_steps motors cache points
  end.

Definition scan_nd_with_md detectors (motors : list (Device * Device)) (points : list (list f64))
  (md : RunMetadata) (per_step : option PerStep) : Gen :=
  step_run md
    (step_of per_step detectors <$> cached_steps motors (replicate (length motors) None) points)
    (stageables_for detectors (motors.*1)).

Definition scan_nd_per_step detectors (motors : list (Device * Device)) (points : list (list f64))
  (per_step : option PerStep) : Gen :=
  let args := VObject [("detectors", arg_names detectors); ("args", arg_names (motors.*1));
    ("num_points", json_nat (length points)); ("per_step", hook_json per_step)] in
  scan_nd_with_md detectors motors points
    (scan_run_md "scan_nd" detectors (motors.*2) (Some (length points)) Coupled args) per_step.

Definition scan_nd detectors (motors : list (Device * Device)) (points : list (list f64)) : Gen :=
  scan_nd_per_step detectors motors points None.

Definition ListScanAxis : Type := Device * Device * list f64.

Definition axis_args (axes : list ListScanAxis) : Value :=
  VArray (ax ← axes; [VString (d_name ax.1.1); json_points ax.2]).

Definition list_scan_nd detectors (axes : list ListScanAxis) (per_step : option PerStep) : Gen :=
  let bad := first ← head axes;
             bad ← head (filter (λ ax : ListScanAxis, length ax.2 ≠ length first.2) (tail axes));
             Some (first, bad) in
  match bad with
  | Some (first, bad) =>
      stubs.one (Fail ("list_scan: all position lists must be the same length; '"
        +:+ d_name first.1.1 +:+ "' has " +:+ nat_text (length first.2) +:+ " but '"
        +:+ d_name bad.1.1 +:+ "' has " +:+ nat_text (length bad.2)))
  | None =>
      let args := VObject [("detectors", arg_names detectors); ("args", axis_args axes);
                           ("per_step", hook_json per_step)] in
      let pts := patterns.inner_list_product (axes.*2) in
      scan_nd_with_md detectors (axes.*1) pts
        (scan_run_md "list_scan" detectors (axes.*1).*2 (Some (length pts)) Coupled args) per_step
  end.

(** ** Grids *)

Inductive SnakeAxes := SnakeNone | SnakeAll | SnakeOnly (idxs : list nat).

Definition to_flags (sn : SnakeAxes) (n : nat) : list bool :=
  match sn with
  | SnakeNone => replicate n false
  | SnakeAll => (λ i, 0 <? i) <$> seq 0 n
  | SnakeOnly idxs => (λ i, bool_decide (i ∈ idxs)) <$> seq 0 n
  end.

Definition list_grid_scan_snake detectors (axes : list ListScanAxis) (snake_axes : SnakeAxes) : Gen :=
  let flags := to_flags snake_axes (length axes) in
  let pts := patterns.outer_list_product_snake (axes.*2) flags in
  let args := VObject [("detectors", arg_names detectors); ("args", axis_args axes);
                       ("snake_axes", VArray (VBool <$> flags))] in
  scan_nd_with_md detectors (axes.*1) pts
    (scan_run_md "list_grid_scan" detectors (axes.*1).*2 (Some (length pts)) Grid args) None.

Definition list_grid_scan detectors (axes : list ListScanAxis) : Gen :=
  list_grid_scan_snake detectors axes SnakeNone.

(** A point of the two-motor scans, the motors already there. *)
Definition xy_read detectors (x_reader y_reader : Device) : list Msg :=
  read_block "primary" (x_reader :: y_reader :: detectors).

Definition grid_row detectors motor1 reader1 (p1 : f64) motor2 reader2 (p2s : list f64) : list Msg :=
  [Checkpoint; Set_ motor1 p1 (Some "set1"); stubs.wait_msg "set1"] ++
  (p2 ← p2s;
   [Checkpoint; Set_ motor2 p2 (Some "set2"); stubs.wait_msg "set2"] ++ xy_read detectors reader1 reader2).

Definition grid_scan_snake detectors motor1 reader1 (s1 e1 : f64) (n1 : nat)
  motor2 reader2 (s2 e2 : f64) (n2 : nat) (snake : bool) : Gen :=
  let args := VObject [("detectors", arg_names detectors);
    ("args", VArray [VString (d_name motor1); json_f64 s1; json_f64 e1; json_nat n1;
                     VString (d_name motor2); json_f64 s2; json_f64 e2; json_nat n2]);
    ("snake_axes", VBool snake)] in
  let body :=
    i ← seq 0 n1;
    grid_row detectors motor1 reader1 (s1 + step_size s1 e1 n1 * f64_of_nat i)%f64 motor2 reader2
      ((λ j, let jj := if snake && Nat.odd i then n2 - 1 - j else j in
             (s2 + step_size s2 e2 n2 * f64_of_nat jj)%f64) <$> seq 0 n2) in
  stage_wrapper
    (emit (OpenRun (scan_run_md "grid_scan" detectors [reader1; reader2] (Some (n1 * n2)) Grid args)
           :: body ++ [close_success]) Done)
    (stageables_for detectors [motor1; motor2]).

Definition grid_scan detectors motor1 reader1 (s1 e1 : f64) (n1 : nat)
  motor2 reader2 (s2 e2 : f64) (n2 : nat) : Gen :=
  grid_scan_snake detectors motor1 reader1 s1 e1 n1 motor2 reader2 s2 e2 n2 false.

(** ** Spirals *)

Definition xy_point detectors (x_motor x_reader y_motor y_reader : Device) (p : f64 * f64) : list Msg :=
  [Checkpoint; Set_ x_motor p.1 (Some "set"); Set_ y_motor p.2 (Some "set"); stubs.wait_msg "set"]
  ++ xy_read detectors x_reader y_reader.

Definition xy_run (plan_name : string) detectors (x_motor x_reader y_motor y_reader : Device)
  (args : list (string * Value)) (pts : list (f64 * f64)) : Gen :=
  let args := VObject ([("detectors", arg_names detectors); ("x_motor", VString (d_name x_motor));
                        ("y_motor", VString (d_name y_motor))] ++ args) in
  emit (OpenRun (scan_run_md plan_name detectors [x_reader; y_reader] None Grid args)
        :: (pts ≫= xy_point detectors x_motor x_reader y_motor y_reader) ++ [close_success]) Done.

Definition json_opt_f64 (x : option f64) : Value := match x with Some x => json_f64 x | None => VNull end.

Definition spiral_square detectors (x_motor x_reader y_motor y_reader : Device)
  (x_center y_center x_range y_range : f64) (x_num y_num : nat) : Gen :=
  xy_run "spiral_square" detectors x_motor x_reader y_motor y_reader
    [("x_center", json_f64 x_center); ("y_center", json_f64 y_center); ("x_range", json_f64 x_range);
     ("y_range", json_f64 y_range); ("x_num", json_nat x_num); ("y_num", json_nat y_num)]
    (patterns.spiral_square_pattern x_center y_center x_range y_range x_num y_num).

Definition spiral detectors (x_motor x_reader y_motor y_reader : Device)
  (x_start y_start x_range y_range dr : f64) (nth : Z) (dr_y : option f64) (tilt : f64) : Gen :=
  xy_run "spiral" detectors x_motor x_reader y_motor y_reader
    [("x_start", json_f64 x_start); ("y_start", json_f64 y_start); ("x_range", json_f64 x_range);
     ("y_range", json_f64 y_range); ("dr", json_f64 dr); ("nth", json_Z nth);
     ("dr_y", json_opt_f64 dr_y); ("tilt", json_f64 tilt)]
    (patterns.spiral x_start y_start x_range y_range dr nth dr_y tilt).

Definition spiral_fermat detectors (x_motor x_reader y_motor y_reader : Device)
  (x_start y_start x_range y_range dr factor : f64) (dr_y : option f64) (tilt : f64) : Gen :=
  xy_run "spiral_fermat" detectors x_motor x_reader y_motor y_reader
    [("x_start", json_f64 x_start); ("y_start", json_f64 y_start); ("x_range", json_f64 x_range);
     ("y_range", json_f64 y_range); ("dr", json_f64 dr); ("factor", json_f64 factor);
     ("dr_y", json_opt_f64 dr_y); ("tilt", json_f64 tilt)]
    (patterns.spiral_fermat_pattern x_start y_start x_range y_range dr factor dr_y tilt).

(** ** Relative scans *)

Definition rel_scan detectors motor reader (current start stop : f64) (num : nat) : Gen :=
  and_then (bare_only (scan_1d detectors motor reader (current + start)%f64 (current + stop)%f64 num))
    (emit [Set_ motor current (Some "reset"); Wait "reset" true None] Done).

(** [motor.locate_dyn().await.map(|l| l.setpoint).unwrap_or(0.0)] *)
Definition bias_of motor (t : Instant) : f64 :=
  match locate_dyn motor t with Ok loc => loc.1 | Err _ => 0%Z end.

Definition rel_list_grid_scan detectors (axes : list ListScanAxis) : Gen :=
  reset_positions_wrapper
    (look (λ t, bare_only (list_grid_scan detectors
       ((λ ax : ListScanAxis, (ax.1, (λ p, (p + bias_of ax.1.1 t)%f64) <$> ax.2)) <$> axes))))
    ((λ ax : ListScanAxis, ax.1.1) <$> axes).

Definition rel_list_scan detectors motor reader (points : list f64) : Gen :=
  reset_positions_wrapper
    (look (λ t, bare_only (list_scan detectors motor reader ((λ p, (p + bias_of motor t)%f64) <$> points))))
    [motor].

Definition rel_grid_scan detectors motor1 reader1 (s1 e1 : f64) (n1 : nat)
  motor2 reader2 (s2 e2 : f64) (n2 : nat) : Gen :=
  reset_positions_wrapper
    (look (λ t, let b1 := bias_of motor1 t in let b2 := bias_of motor2 t in
       bare_only (grid_scan detectors motor1 reader1 (s1 + b1)%f64 (e1 + b1)%f64 n1
                    motor2 reader2 (s2 + b2)%f64 (e2 + b2)%f64 n2)))
    [motor1; motor2].

(** A scan made relative, its motors brought back at the end. *)
Definition relative_reset (inner : Gen) motors : Gen :=
  reset_positions_wrapper (relative_set_wrapper inner motors) motors.

Definition rel_spiral detectors (x_motor x_reader y_motor y_reader : Device)
  (x_start y_start x_range y_range dr : f64) (nth : Z) (dr_y : option f64) (tilt : f64) : Gen :=
  relative_reset (spiral detectors x_motor x_reader y_motor y_reader x_start y_start x_range y_range
                    dr nth dr_y tilt) [x_motor; y_motor].

Definition rel_spiral_square detectors (x_motor x_reader y_motor y_reader : Device)
  (x_center y_center x_range y_range : f64) (x_num y_num : nat) : Gen :=
  relative_reset (spiral_square detectors x_motor x_reader y_motor y_reader x_center y_center
                    x_range y_range x_num y_num) [x_motor; y_motor].

Definition rel_spiral_fermat detectors (x_motor x_reader y_motor y_reader : Device)
  (x_start y_start x_range y_range dr factor : f64) (dr_y : option f64) (tilt : f64) : Gen :=
  relative_reset (spiral_fermat detectors x_motor x_reader y_motor y_reader x_start y_start
                    x_range y_range dr factor dr_y tilt) [x_motor; y_motor].

Definition x2x_scan detectors motor1 reader1 motor2 reader2 (start stop : f64) (num : nat) : Gen :=
  relative_set_wrapper
    (inner_product_scan detectors num
       [(motor1, reader1, start, stop);
        (motor2, reader2, (start / f64_two)%f64, (stop / f64_two)%f64)])
    [motor1; motor2].

Definition log_points (start stop : f64) (num : nat) : list f64 :=
  let log_start := f64_ln (f64_abs start) in
  let log_stop := f64_ln (f64_abs stop) in
  (λ i, (f64_signum start
         * f64_exp (log_start + (log_stop - log_start) * patterns.linspace_t i num))%f64) <$> seq 0 num.

Definition log_scan detectors motor reader (start stop : f64) (num : nat) : Gen :=
  if (num =? 0) || (start =? 0%Z)%f64 || (stop =? 0%Z)%f64
     || negb (f64_signum start =? f64_signum stop)%f64
  then stubs.null
  else list_scan detectors motor reader (log_points start stop num).

Definition rel_log_scan detectors motor reader (start stop : f64) (num : nat) : Gen :=
  relative_reset (log_scan detectors motor reader start stop num) [motor].

(** ** Ramps and fly scans *)

(** [inner k] is the plan of the [k]-th sample after the first. *)
Fixpoint ramp_loop (fuel : nat) (inner : nat → Gen) (is_complete : Instant → bool)
  (fail_time period : option Z) (k : nat) : Gen :=
  match fuel with
  | 0 => CutShort
  | S fuel =>
      look (λ t,
        if is_complete t then and_then (bare_only (inner k)) (emit [close_success] Done) else
        and_then (bare_only (inner k))
          (look (λ t',
            if match fail_time with Some ft => (ft <? mono t')%Z | None => false end then
              stubs.one (Fail "ramp_plan: ramp did not complete within timeout")
            else
              let again := ramp_loop fuel inner is_complete fail_time period (S k) in
              match period with
              | Some min_period =>
                  let remaining := (mono t + min_period - mono t')%Z in
                  if (0 <? remaining)%Z then emit [Sleep remaining] again else again
              | None => again
              end)))
  end.

Definition ramp_plan (fuel : nat) (go_plan : Gen) (monitor_sig : Device) (inner : nat → Gen)
  (is_complete : Instant → bool) (take_pre_data : bool) (timeout period : option Z) : Gen :=
  let secs (d : option Z) := match d with Some d => json_f64 (as_secs_f64 d) | None => VNull end in
  let args := VObject [("monitor", VString (d_name monitor_sig)); ("take_pre_data", VBool take_pre_data);
                       ("timeout", secs timeout); ("period", secs period)] in
  monitor_during_wrapper
    (emit [OpenRun (run_md_with_args "ramp_plan" args)]
      (look (λ t,
        and_then (if take_pre_data then bare_only (inner 0) else Done)
          (and_then (bare_only go_plan)
            (ramp_loop fuel inner is_complete ((λ d, mono t + d)%Z <$> timeout) period 1)))))
    [monitor_sig].

Definition Flyer : Type := Device * Device.

Definition fly (flyers : list Flyer) : Gen :=
  let args := VObject [("flyers", arg_names (flyers.*1))] in
  let ends := emit (((λ c, Collect c None) <$> flyers.*2) ++ [close_success]) Done in
  emit [OpenRun (run_md_with_args "fly" args)]
    match flyers with
    | [] => ends
    | _ =>
        and_then (bare_only (stubs.kickoff_all 0 (flyers.*1) (Some "kick") true))
          (and_then (bare_only (stubs.complete_all 0 (flyers.*1) (Some "complete") true)) ends)
    end.

(** ** Scans that follow a signal *)

(** The signal from the first detector that reports it. *)
Fixpoint sample (signal_field : string) detectors (t : Instant) : option f64 :=
  match detectors with
  | [] => None
  | d :: detectors =>
      match (match read_dyn d t with
             | Ok readings => r ← readings !! signal_field; value_as_f64 (rd_value r)
             | Err _ => None
             end) with
      | Some v => Some v
      | None => sample signal_field detectors t
      end
  end.

Definition signal_point detectors motor reader (pos : f64) : list Msg :=
  [Checkpoint; Set_ motor pos (Some "set"); stubs.wait_msg "set"] ++ read_block "primary" (reader :: detectors).

Record Adaptive := mkAdaptive { ad_pos : f64; ad_past : option f64; ad_step : f64 }.

Record AdaptiveArgs := mkAdaptiveArgs {
  aa_start : f64; aa_stop : f64; aa_min_step : f64; aa_max_step : f64;
  aa_target_delta : f64; aa_backstep : bool; aa_threshold : f64;
}.

Definition direction (a : AdaptiveArgs) : f64 :=
  if (aa_start a <=? aa_stop a)%f64 then f64_one else (- f64_one)%f64.

Definition adaptive_next (a : AdaptiveArgs) (cur : option f64) (s : Adaptive) : Adaptive :=
  let pos := ad_pos s in
  let step := ad_step s in
  let dir := direction a in
  match ad_past s, cur with
  | None, _ => mkAdaptive (pos + step * dir)%f64 cur step
  | Some p, None => mkAdaptive (pos + step * dir)%f64 (Some p) step
  | Some p, Some n =>
      let slope := (f64_abs (n - p) / step)%f64 in
      let new_step :=
        if negb (slope =? 0%Z)%f64
        then default quiet_nan (f64_clamp (aa_target_delta a / slope)%f64 (aa_min_step a) (aa_max_step a))
        else f64_min (step * f64_dec 11 1)%f64 (aa_max_step a) in
      if aa_backstep a && (new_step <? step * aa_threshold a)%f64 then
        mkAdaptive (pos - step + new_step * dir)%f64 (Some p) new_step
      else
        let step := (f64_dec 2 1 * new_step + f64_dec 8 1 * step)%f64 in
        mkAdaptive (pos + step * dir)%f64 (Some n) step
  end.

Definition adaptive_ahead (a : AdaptiveArgs) (s : Adaptive) : bool :=
  (ad_pos s * direction a <? aa_stop a * direction a)%f64.

(** At most [iters] points. *)
Fixpoint adaptive_loop (iters : nat) (a : AdaptiveArgs) detectors (signal_field : string) motor reader
  (s : Adaptive) : Gen :=
  match iters with
  | 0 => emit [close_success] Done
  | S iters =>
      if adaptive_ahead a s then
        emit (signal_point detectors motor reader (ad_pos s))
          (look (λ t, adaptive_loop iters a detectors signal_field motor reader
                        (adaptive_next a (sample signal_field detectors t) s)))
      else emit [close_success] Done
  end.

Definition max_iters : nat := Z.to_nat 10000.

Definition adaptive_scan detectors (signal_field : string) motor reader (a : AdaptiveArgs) : Gen :=
  if negb ((0%Z <? aa_min_step a)%f64 && (aa_min_step a <? aa_max_step a)%f64) then
    stubs.one (Fail ("adaptive_scan: require 0 < min_step < max_step, got min_step="
      +:+ display_f64 (aa_min_step a) +:+ ", max_step=" +:+ display_f64 (aa_max_step a)))
  else
    let args := VObject [("detectors", arg_names detectors); ("target_field", VString signal_field);
      ("motor", VString (d_name motor)); ("start", json_f64 (aa_start a)); ("stop", json_f64 (aa_stop a));
      ("min_step", json_f64 (aa_min_step a)); ("max_step", json_f64 (aa_max_step a));
      ("target_delta", json_f64 (aa_target_delta a)); ("backstep", VBool (aa_backstep a));
      ("threshold", json_f64 (aa_threshold a))] in
    emit [OpenRun (run_md_with_args "adaptive_scan" args)]
      (adaptive_loop max_iters a detectors signal_field motor reader
        (mkAdaptive (aa_start a) None ((aa_max_step a - aa_min_step a) / f64_two)%f64)).

Definition rel_adaptive_scan detectors (signal_field : string) motor reader (a : AdaptiveArgs) : Gen :=
  reset_positions_wrapper
    (look (λ t,
      match locate_dyn motor t with
      | Err e => stubs.one (Fail ("rel_adaptive_scan(" +:+ d_name motor +:+ "): locate_dyn failed: "
                                  +:+ display_error e))
      | Ok loc =>
          bare_only (adaptive_scan detectors signal_field motor reader
            (mkAdaptiveArgs (loc.1 + aa_start a)%f64 (loc.1 + aa_stop a)%f64 (aa_min_step a) (aa_max_step a)
               (aa_target_delta a) (aa_backstep a) (aa_threshold a)))
      end))
    [motor].

Record TuneArgs := mkTuneArgs {
  ta_start : f64; ta_stop : f64; ta_min_step : f64; ta_num : nat; ta_step_factor : f64; ta_snake : bool;
}.

Record Tune := mkTune {
  tu_start : f64; tu_stop : f64; tu_pos : f64; tu_step : f64; tu_peak : option f64;
  tu_sum_i : f64; tu_sum_xi : f64;
}.

Definition low_limit (a : TuneArgs) : f64 := f64_min (ta_start a) (ta_stop a).
Definition high_limit (a : TuneArgs) : f64 := f64_max (ta_start a) (ta_stop a).

Definition tune_start (a : TuneArgs) : Tune :=
  mkTune (ta_start a) (ta_stop a) (ta_start a) (step_size (ta_start a) (ta_stop a) (ta_num a)) None 0%Z 0%Z.

Definition tune_goes_on (a : TuneArgs) (s : Tune) : bool :=
  (ta_min_step a <=? f64_abs (tu_step s))%f64
  && (low_limit a <=? tu_pos s)%f64 && (tu_pos s <=? high_limit a)%f64.

(** [None]: no signal in this pass. *)
Definition tune_next (a : TuneArgs) (cur : option f64) (s : Tune) : option Tune :=
  let sum_i := match cur with Some y => (tu_sum_i s + y)%f64 | None => tu_sum_i s end in
  let sum_xi := match cur with Some y => (tu_sum_xi s + tu_pos s * y)%f64 | None => tu_sum_xi s end in
  let pos := (tu_pos s + tu_step s)%f64 in
  let lo := f64_min (tu_start s) (tu_stop s) in
  let hi := f64_max (tu_start s) (tu_stop s) in
  if (lo <=? pos)%f64 && (pos <=? hi)%f64 then
    Some (mkTune (tu_start s) (tu_stop s) pos (tu_step s) (tu_peak s) sum_i sum_xi)
  else if (sum_i =? 0%Z)%f64 then None
  else
    let centroid := (sum_xi / sum_i)%f64 in
    let new_range := ((tu_stop s - tu_start s) / ta_step_factor a)%f64 in
    let limited x := default quiet_nan (f64_clamp x (low_limit a) (high_limit a)) in
    let pass_start := limited (centroid - new_range / f64_two)%f64 in
    let pass_stop := limited (centroid + new_range / f64_two)%f64 in
    let '(pass_start, pass_stop) := if ta_snake a then (pass_stop, pass_start) else (pass_start, pass_stop) in
    Some (mkTune pass_start pass_stop pass_start (step_size pass_start pass_stop (ta_num a))
            (Some centroid) 0%Z 0%Z).

Fixpoint tune_loop (fuel : nat) (a : TuneArgs) detectors (signal : string) motor reader (s : Tune) : Gen :=
  match fuel with
  | 0 => CutShort
  | S fuel =>
      if tune_goes_on a s then
        emit (signal_point detectors motor reader (tu_pos s))
          (look (λ t,
            match tune_next a (sample signal detectors t) s with
            | Some s => tune_loop fuel a detectors signal motor reader s
            | None => emit [close_success] Done
            end))
      else
        emit (match tu_peak s with
              | Some peak => [Set_ motor peak (Some "center"); stubs.wait_msg "center"]
              | None => []
              end ++ [close_success]) Done
  end.

Definition tune_centroid (fuel : nat) detectors (signal_field : string) motor reader (a : TuneArgs) : Gen :=
  if (ta_min_step a <=? 0%Z)%f64 then stubs.one (Fail "tune_centroid: min_step must be positive") else
  if (ta_step_factor a <=? f64_one)%f64 then
    stubs.one (Fail "tune_centroid: step_factor must be greater than 1.0") else
  let args := VObject [("detectors", arg_names detectors); ("signal", VString signal_field);
    ("motor", VString (d_name motor)); ("start", json_f64 (ta_start a)); ("stop", json_f64 (ta_stop a));
    ("min_step", json_f64 (ta_min_step a)); ("num", json_nat (ta_num a));
    ("step_factor", json_f64 (ta_step_factor a)); ("snake", VBool (ta_snake a))] in
  emit [OpenRun (run_md_with_args "tune_centroid" args)]
    (tune_loop fuel a detectors signal_field motor reader (tune_start a)).
End plans.
End plans.
