(* ===== verification/Discipline.v ===== *)
(** * The order of messages in a plan

    An automaton of the runs and bundles that the messages of a plan open and close.
    It refuses what the engine refuses, and the library's plans keep to it, the engine's
    answers, the devices and the clock being what they may. *)

From S2P Require Import Prelude Interfaces Errors Control Documents F64 Patterns.
From S2P Require Import Bundler Device Machine Logic Handle RunLoop Phases Gen Preproc Stubs Plans.

(** ** The automaton *)

(** [Failed]: the plan has sent [Fail] or [Raise], which the engine throws back. *)
Inductive Phase := Closed | Opened | Bundling | Failed.

#[global] Instance Phase_eq_dec : EqDecision Phase.
Proof. solve_decision. Defined.

Section discipline.
Context `{JsonNumber}.
Implicit Types (p : Phase) (m : Msg) (g k inner : Gen).

Definition unless_bundling p : option Phase := match p with Bundling => None | p => Some p end.
Definition if_run_open p : option Phase := match p with Closed => None | p => Some p end.

(** A message of a plan that has one run at a time. *)
Definition follow p m : option Phase :=
  match p, m with
  | Failed, _ | _, Fail _ | _, Raise _ => Some Failed
  | _, InRun _ _ => None
  | Closed, OpenRun _ => Some Opened
  | _, OpenRun _ => None
  | p, CloseRun _ _ => p ← if_run_open p; Some Closed
  | Opened, Create _ => Some Bundling
  | _, Create _ => None
  | Bundling, Save | Bundling, Drop => Some Opened
  | _, Save | _, Drop => None
  | p, Checkpoint | p, Configure _ _ => unless_bundling p
  | p, DeclareStream _ _ | p, Kickoff _ _ | p, Collect _ _ | p, Monitor _ _ => if_run_open p
  | p, _ => Some p
  end.

(** A plan between runs; a part of a plan inside a run. *)
Definition settled p : Prop := p = Closed ∨ p = Failed.
Definition running p : Prop := p = Opened ∨ p = Failed.
Definition live p : Prop := p ≠ Closed.
Definition any p : Prop := True.

Context (cut : Prop).
#[local] Notation obeys := (follows follow cut).

Definition between_runs g : Prop := obeys any settled g Closed.
Definition inside_run g : Prop := obeys live running g Opened.

(** ** Rules *)

Lemma obeys_failed R Q g p : obeys R Q g p → R Failed → Q Failed → obeys R Q g Failed.
Proof.
  intros Hg HR HQ. revert p Hg. induction g as [| |i g IH|u g IH]; intros p; simpl; [done|done| |].
  - destruct (follow p _); [|done]. intros [_ Hg]. split; [done|by eapply IH].
  - intros Hg t c. by eapply IH.
Qed.

Lemma obeys_yield (R Q : Phase → Prop) i k p p' :
  follow p (item_msg i) = Some p' → R p' → obeys R Q k p' → obeys R Q (Yield i k) p.
Proof. simpl. by intros ->. Qed.
Lemma obeys_cons (R Q : Phase → Prop) m ms k p p' :
  follow p m = Some p' → R p' → obeys R Q (emit ms k) p' → obeys R Q (emit (m :: ms) k) p.
Proof. simpl. by intros ->. Qed.

(** Messages that change nothing. *)
Definition idle p m : Prop := follow p m = Some p.

Lemma obeys_idle (R Q : Phase → Prop) ms k p :
  R p → Forall (idle p) ms → obeys R Q k p → obeys R Q (emit ms k) p.
Proof. intros HR Hms Hk. induction Hms; simpl; [done|]. by rewrite H0. Qed.

Lemma emit_app ms ms' k : emit (ms ++ ms') k = emit ms (emit ms' k).
Proof. induction ms; simpl; congruence. Qed.

Lemma obeys_guard R R' Q Q' sink after g p :
  obeys R' Q' g p → (∀ p, R' p → R p) →
  (∀ p, Q' p → obeys R Q (after None) p) →
  (∀ p th, R' p → obeys R Q (after (Some th)) p) →
  obeys R Q (guard sink after g) p.
Proof.
  intros Hg HR Hn Hs. revert p Hg. induction g as [| |i g IH|u g IH]; intros p; simpl; [auto|done| |].
  - destruct (follow p _) as [p'|]; [|done]. intros [Hp Hg]. split; [auto|]. intros t c.
    destruct (sinks c !! sink); auto.
  - intros Hg t c. by apply IH.
Qed.

(** What follows a guarded plan: its [final_plan] comes last, then what was thrown. *)
Lemma obeys_reraise (R Q : Phase → Prop) thrown p :
  R Failed → Q Failed → Q p → obeys R Q (reraise thrown) p.
Proof. intros HR HF Hp. destruct thrown; simpl; [|done]. by destruct p. Qed.

Lemma idle_push p sink : idle p (PushContingency sink).
Proof. by destruct p. Qed.
Lemma idle_pop p : idle p PopContingency.
Proof. by destruct p. Qed.

(** What a plan reads or keeps between its messages. *)
Lemma obeys_env R Q u (k : Instant → Channel → Gen) p : (∀ t c, obeys R Q (k t c) p) → obeys R Q (Env u k) p.
Proof. done. Qed.
Lemma obeys_look R Q (k : Instant → Gen) p : (∀ t, obeys R Q (k t) p) → obeys R Q (look k) p.
Proof. intros Hk. by apply obeys_env. Qed.
Lemma obeys_new_cell R Q (k : nat → Gen) p : (∀ n, obeys R Q (k n) p) → obeys R Q (new_cell k) p.
Proof. intros Hk. by apply obeys_env. Qed.

(** The bracket's parts: what comes after its end on either path. *)
Lemma obeys_after (R Q1 Q2 Q : Phase → Prop) branch fin again p :
  R Failed → Q Failed → R p → obeys R Q1 branch p →
  (∀ p, Q1 p → obeys R Q2 fin p) →
  (∀ p, Q2 p → if again is Some _ then True else Q p) →
  obeys R Q (emit [PopContingency] (and_then branch (and_then fin (reraise again)))) p.
Proof.
  intros HRF HQF Hp Hb Hf Hq. eapply obeys_cons; [apply idle_pop|done|]; cbn [emit].
  apply follows_and_then. eapply follows_weaken; [done| |exact Hb].
  intros q Hq1. apply follows_and_then. eapply follows_weaken; [done| |by apply Hf].
  intros q' Hq2. specialize (Hq q' Hq2). destruct again; simpl; [|done]. by destruct q'.
Qed.

Lemma obeys_contingency R R' Q1 Q2 Q g build el p :
  R Failed → Q Failed → (∀ p, R' p → R p) → (∀ p, Q1 p → R p) → R p →
  obeys R' Q1 g p →
  (∀ p th, R' p → obeys R Q2 (build th) p) →
  (∀ p, Q1 p → obeys R Q (option_plan el) p) →
  obeys R Q (contingency_wrapper g (Some build) el None true) p.
Proof.
  intros HRF HQF HR HQ1 Hp Hg Hb He. apply obeys_new_cell. intros sink. eapply obeys_cons; [apply idle_push|done|]; cbn [emit].
  eapply obeys_guard; [exact Hg|done| |]; unfold after_inner.
  - intros q Hq. eapply (obeys_after _ Q Q); auto.
  - intros q th Hq. eapply (obeys_after _ Q2 Q2); auto.
Qed.

Lemma obeys_finalize R Q g fin p :
  R Failed → Q Failed → R p → (∀ p, Q p → R p) → obeys R Q g p →
  (∀ p, R p → obeys R any fin p) → (∀ p, Q p → obeys R Q fin p) →
  obeys R Q (finalize_wrapper g fin) p.
Proof.
  intros HRF HQF Hp HQR Hg Hany HQ. apply obeys_new_cell. intros sink. eapply obeys_cons; [apply idle_push|done|]; cbn [emit].
  eapply obeys_guard; [exact Hg|done| |]; unfold after_inner.
  - intros q Hq. by eapply (obeys_after _ Q Q); auto.
  - intros q th Hq. by eapply (obeys_after _ R any); auto.
Qed.

(** ** Plans made of others *)

Lemma obeys_bare_then R Q R' Q' g k p :
  obeys R' Q' g p → (∀ p, R' p → R p) → (∀ p, Q' p → obeys R Q k p) →
  obeys R Q (and_then (bare_only g) k) p.
Proof.
  intros Hg HR Hk. apply follows_and_then, follows_bare.
  eapply follows_weaken; [exact HR|exact Hk|exact Hg].
Qed.

(** A part of a run, then the rest of it. *)
Lemma obeys_inside g k :
  inside_run g → obeys any settled k Opened → obeys any settled (and_then (bare_only g) k) Opened.
Proof.
  intros Hg Hk. eapply obeys_bare_then; [exact Hg|done|].
  intros p [->| ->]; [done|]. eapply obeys_failed; [exact Hk|done|by right].
Qed.

Lemma obeys_run_steps steps k :
  Forall inside_run steps → obeys any settled k Opened → obeys any settled (plans.run_steps steps k) Opened.
Proof. induction 1; simpl; auto using obeys_inside. Qed.

Lemma between_runs_failed g : between_runs g → obeys any settled g Failed.
Proof. intros Hg. eapply obeys_failed; [exact Hg|done|by right]. Qed.

Lemma between_runs_settled g p : between_runs g → settled p → obeys any settled g p.
Proof. intros Hg [->| ->]; [done|by apply between_runs_failed]. Qed.

Lemma between_then g k : between_runs g → between_runs k → between_runs (and_then g k).
Proof.
  intros Hg Hk. apply follows_and_then. eapply follows_weaken; [done| |exact Hg].
  intros p. by apply between_runs_settled.
Qed.

(** A plan whose messages are idle in every phase. *)
Lemma obeys_free R (Q : Phase → Prop) ms p :
  R p → Q p → (∀ m, m ∈ ms → idle p m) → obeys R Q (emit ms Done) p.
Proof. intros HR HQ Hms. apply obeys_idle; [done|by apply Forall_forall|done]. Qed.
End discipline.

(** ** The automaton and the engine *)

Section engine.
Context `{JsonNumber, !TextFormat, !UuidSource, !Schedule, !Hooks}.
Implicit Types (e : RunEngine) (m : Msg) (p : Phase).

(** Where the engine stands in the run that a plan's messages mean by default. *)
Definition phase_of e : Phase :=
  match phases e !! None with
  | None => Closed
  | Some bundling => if bundling : bool then Bundling else Opened
  end.

Definition same_wire e e' : Prop := emitted e' = emitted e ∧ calls e' = calls e.

(** A refusal: an error of the plan, nothing sent, nothing asked of a device. *)
Definition refuses m e : Prop :=
  ∃ why e', handle m e = (Threw (PlanE why), e') ∧ phases e' = phases e ∧ same_wire e e'.

Lemma phase_of_slot e :
  phase_of e = match runs (state e) !! None with
               | None => Closed
               | Some sl => if bundling sl then Bundling else Opened
               end.
Proof. unfold phase_of, phases. rewrite lookup_fmap. by destruct (runs (state e) !! None). Qed.

Lemma refuses_closed {A} why (k : unit → M A) e :
  phase_of e = Closed → (require_run None why ≫= k) e = (Threw (PlanE why), e).
Proof.
  rewrite phase_of_slot. intros Hp. unfold require_run, mbind, M_bind, gets, run_open.
  destruct (runs (state e) !! None) as [sl|] eqn:Hs; [by destruct (bundling sl)|].
  by rewrite bool_decide_false by (by intros [? ?]).
Qed.
Lemma slot_closed {A} why (k : RunSlot → M A) e :
  phase_of e = Closed → (get_slot None why ≫= k) e = (Threw (PlanE why), e).
Proof.
  rewrite phase_of_slot. intros Hp. unfold get_slot, expect, mbind, M_bind, gets.
  destruct (runs (state e) !! None) as [sl|]; [by destruct (bundling sl)|done].
Qed.
Lemma slot_open e :
  phase_of e ≠ Closed → ∃ sl, runs (state e) !! None = Some sl ∧
    phase_of e = (if bundling sl then Bundling else Opened).
Proof. rewrite phase_of_slot. intros Hp. destruct (runs (state e) !! None) as [sl|]; [by exists sl|done]. Qed.
Lemma slot_found {A} why (k : RunSlot → M A) sl e :
  runs (state e) !! None = Some sl → (get_slot None why ≫= k) e = k sl e.
Proof. intros Hs. unfold get_slot, expect, mbind, M_bind, gets. by rewrite Hs. Qed.

Lemma bundling_anywhere e : phase_of e = Bundling → any_bundling (state e) = true.
Proof.
  rewrite phase_of_slot. intros Hp. apply existsb_exists.
  destruct (runs (state e) !! None) as [sl|] eqn:Hs; [|done].
  exists (None, sl). split; [by apply list_elem_of_In, elem_of_map_to_list|].
  unfold bundling in Hp. simpl. by destruct (is_bundling _).
Qed.

Lemma bind_threw {A B} (c : M A) (k : A → M B) x e e' :
  c e = (Threw x, e') → (c ≫= k) e = (Threw x, e').
Proof. unfold mbind, M_bind. by intros ->. Qed.

Lemma handle_default m e : (∀ run inner, m ≠ InRun run inner) → handle m e = handle_in None m e.
Proof. intros Hm. destruct m; try done. by destruct (Hm run m). Qed.

Lemma refuses_at_once m e why : handle m e = (Threw (PlanE why), e) → refuses m e.
Proof. intros Hh. by exists why, e. Qed.

Lemma refused_create name e : phase_of e = Closed ∨ phase_of e = Bundling → refuses (Create name) e.
Proof.
  intros [Hp|Hp]; eapply refuses_at_once; rewrite handle_default by done; apply bind_threw.
  - by apply slot_closed.
  - destruct (slot_open e) as (sl & Hsl & Hb); [by rewrite Hp|]. rewrite Hp in Hb.
    unfold handle_create. rewrite (slot_found _ _ sl) by done. apply bind_threw. unfold create, bundling, is_bundling in *. by destruct (opened _).
Qed.

Lemma refused_drop e : phase_of e = Closed ∨ phase_of e = Opened → refuses Drop e.
Proof.
  intros [Hp|Hp]; eapply refuses_at_once; rewrite handle_default by done; apply bind_threw.
  - by apply slot_closed.
  - destruct (slot_open e) as (sl & Hsl & Hb); [by rewrite Hp|]. rewrite Hp in Hb.
    unfold handle_drop. rewrite (slot_found _ _ sl) by done. apply bind_threw. unfold drop_bundle, bundling, is_bundling in *. by destruct (opened _).
Qed.

Lemma refused_save e : phase_of e = Closed ∨ phase_of e = Opened → refuses Save e.
Proof.
  intros [Hp|Hp].
  - eapply refuses_at_once. rewrite handle_default by done. apply bind_threw. by apply slot_closed.
  - unfold refuses. rewrite handle_default by done.
    destruct (slot_open e) as (sl & Hsl & Hb); [by rewrite Hp|]. rewrite Hp in Hb.
    eexists _, _. split; [apply bind_threw; unfold handle_save; rewrite (slot_found _ _ sl) by done|].
    + unfold save, bundling, is_bundling in *.
      destruct (opened (sl_bundler sl)) eqn:Ho; [done|]. reflexivity.
    + split; [|done]. unfold on_bundler. apply map_eq. intros k. unfold phases. simpl.
      rewrite !lookup_fmap. destruct (decide (k = None)) as [->|]; [|by rewrite lookup_alter_ne].
      by rewrite lookup_alter_eq, Hsl.
Qed.

Lemma refused_open meta e : phase_of e ≠ Closed → refuses (OpenRun meta) e.
Proof.
  intros (sl & Hsl & _)%slot_open. eapply refuses_at_once. rewrite handle_default by done.
  apply bind_threw. unfold open_run, mbind, M_bind, gets, run_open.
  rewrite bool_decide_true by (rewrite Hsl; by eexists). done.
Qed.

Lemma refused_bundling m e :
  phase_of e = Bundling → match m with Checkpoint | Configure _ _ => True | _ => False end → refuses m e.
Proof.
  intros Hp Hm. destruct m; try done; eapply refuses_at_once; rewrite handle_default by done;
    apply bind_threw.
  - unfold handle_checkpoint, mbind, M_bind, gets. by rewrite bundling_anywhere.
  - destruct (slot_open e) as (sl & Hsl & Hb); [by rewrite Hp|]. rewrite Hp in Hb.
    unfold handle_configure, mbind, M_bind, gets, bundler_of. rewrite Hsl. simpl.
    unfold bundling in Hb. by destruct (is_bundling _).
Qed.

Lemma refused_closed m e :
  phase_of e = Closed →
  match m with CloseRun _ _ | DeclareStream _ _ | Kickoff _ _ | Collect _ _ | Monitor _ _ => True | _ => False end →
  refuses m e.
Proof.
  intros Hp Hm. destruct m; try done; eapply refuses_at_once; rewrite handle_default by done;
    apply bind_threw; by apply refuses_closed.
Qed.

Lemma phase_of_cases e : phase_of e = Closed ∨ phase_of e = Opened ∨ phase_of e = Bundling.
Proof. unfold phase_of. destruct (phases e !! None) as [[]|]; auto. Qed.

Lemma refused m e :
  (∀ run inner, m ≠ InRun run inner) → follow (phase_of e) m = None → refuses m e.
Proof.
  intros Hm Hf.
  destruct (phase_of_cases e) as [Hp|[Hp|Hp]]; rewrite Hp in Hf; destruct m; try discriminate Hf;
    lazymatch goal with
    | |- refuses (InRun ?r ?i) _ => by destruct (Hm r i)
    | |- refuses (OpenRun _) _ => apply refused_open; by rewrite Hp
    | |- refuses (Create _) _ => apply refused_create; by auto
    | |- refuses Save _ => apply refused_save; by auto
    | |- refuses Drop _ => apply refused_drop; by auto
    | _ => first [by apply refused_closed|by apply refused_bundling]
    end.
Qed.

Lemma phase_of_after m e e' p :
  phases e' = phase_after None m (phases e) → follow (phase_of e) m = Some p → p ≠ Failed →
  phase_of e' = p.
Proof.
  unfold phase_of. intros Hp Hf Hn. rewrite Hp.
  destruct m; simpl in *; rewrite ?lookup_insert_eq, ?lookup_delete_eq;
    destruct (phases e !! None) as [[]|]; simplify_eq/=; done.
Qed.

(** ** Theorem *)

End engine.

Module DisciplineExamples.
Import Sample World.

End DisciplineExamples.
