(* ===== verification/Library.v ===== *)
(** * The library's plans and their messages

    The plans of [plans/] and the wrappers around them, as a grammar, and the proof that
    whatever it derives keeps to the order of runs and bundles. *)

From S2P Require Import Prelude Interfaces Errors Control Documents F64 Patterns.
From S2P Require Import Bundler Device Machine Logic Handle Phases Gen Preproc Stubs Plans.
From S2P Require Import Discipline.

Section library.
Context `{JsonNumber, !PlanHost, !Libm}.
Implicit Types (p : Phase) (m : Msg) (g k inner : Gen).
Implicit Types (detectors motors devices : list Device) (motor reader : Device).
Context (cut : Prop).
#[local] Notation obeys := (follows follow cut).
#[local] Notation between_runs := (between_runs cut).
#[local] Notation inside_run := (inside_run cut).

(** ** Automation *)

Ltac idle_all :=
  apply Forall_forall; intros ? Hin;
  repeat match goal with
  | H : _ ∈ _ ++ _ |- _ => apply elem_of_app in H as [H|H]
  | H : _ ∈ _ :: _ |- _ => apply elem_of_cons in H as [->|H]
  | H : _ ∈ [] |- _ => by apply not_elem_of_nil in H
  | H : _ ∈ _ <$> _ |- _ => apply list_elem_of_fmap in H as (? & -> & H)
  | H : _ ∈ omap _ _ |- _ => apply list_elem_of_omap in H as (? & H & ?)
  end; try done.

Ltac phase_side := first [done | by left | by right | (intros ->; discriminate)].

Ltac obey1 :=
  lazymatch goal with
  | |- follows _ _ _ _ (emit (_ ++ _) _) _ => rewrite emit_app
  | |- follows _ _ _ _ (emit (_ :: _) _) _ => eapply obeys_cons; [reflexivity|phase_side|]
  | |- follows _ _ _ _ (emit [] ?k) ?p => change (emit [] k) with k
  | |- follows _ _ _ _ (Yield _ _) _ => eapply obeys_yield; [reflexivity|phase_side|]
  | |- follows _ _ _ _ (emit (_ <$> _) _) _ => apply obeys_idle; [phase_side|idle_all|]
  | |- follows _ _ _ _ (look _) _ => apply obeys_look; intros ?
  | |- follows _ _ _ _ (new_cell _) _ => apply obeys_new_cell; intros ?
  | |- follows _ _ _ _ (and_then (bare_only _) _) Opened => apply obeys_inside
  | |- follows _ _ _ _ (bare_only _) _ => apply follows_bare
  | |- follows _ _ _ _ Done _ => cbn [follows]; phase_side
  | |- follows _ _ _ _ (stubs.one _) _ => unfold stubs.one
  | |- follows _ _ _ _ (if ?b then _ else _) _ => destruct b
  | |- follows _ _ _ _ (match ?x with _ => _ end) _ => destruct x
  end.
Ltac obey := repeat obey1.
Ltac obey_tail := lazymatch goal with |- follows _ _ _ _ (emit [] ?k) _ => change (emit [] k) with k end.

(** ** Parts of a run *)

Lemma obeys_block stream devices k :
  obeys live running k Opened → obeys live running (emit (read_block stream devices) k) Opened.
Proof. intros Hk. unfold read_block. obey. exact Hk. Qed.

Lemma trigger_all_idle grp devices p : Forall (idle p) (stubs.trigger_all grp devices).
Proof.
  destruct devices as [|d ds]; [done|].
  unfold stubs.trigger_all. idle_all; by destruct p.
Qed.

Lemma moves_idle (steps : list StepMotor) p :
  Forall (idle p) (omap (λ m : StepMotor, pos ← m.2; Some (Set_ m.1.1 pos (Some "set"))) steps).
Proof.
  induction steps as [|[mr [v|]] steps IH]; simpl; [done| |done]. constructor; [by destruct p|done].
Qed.

(** The steps and shots that the plans take by default. *)
Lemma inside_one_nd_step detectors steps : inside_run (stubs.one_nd_step detectors steps).
Proof.
  unfold stubs.one_nd_step, stubs.move_per_step. apply obeys_bare_then with live running; [|done|].
  - obey. apply obeys_idle; [done|apply moves_idle|]. obey.
  - intros p [->| ->]; obey.
Qed.

Lemma inside_read_shot detectors : inside_run (stubs.read_shot detectors).
Proof. unfold stubs.read_shot, inside_run. obey. Qed.

Lemma inside_trigger_and_read triggerables readables name :
  inside_run (stubs.trigger_and_read triggerables readables name).
Proof.
  unfold stubs.trigger_and_read, inside_run. apply obeys_idle; [done|apply trigger_all_idle|]. obey.
  apply obeys_contingency with (λ p, p = Bundling) (λ p, p = Bundling) running; try (by intros ? ->).
  - done.
  - by right.
  - done.
  - obey.
  - intros p th ->. unfold stubs.drop_bundle. obey.
  - intros p ->. change (obeys live running stubs.save Bundling). unfold stubs.save. obey.
Qed.

Lemma inside_one_shot triggerables readables : inside_run (stubs.one_shot triggerables readables).
Proof.
  unfold stubs.one_shot, inside_run. obey. apply inside_trigger_and_read.
Qed.

Lemma inside_mv_many moves : inside_run (stubs.mv_many moves).
Proof. unfold stubs.mv_many, stubs.set_all, inside_run. obey. Qed.

Lemma inside_mvr_many moves : inside_run (stubs.mvr_many moves).
Proof.
  unfold stubs.mvr_many. generalize (@nil (Device * f64)).
  induction moves as [|[mr d] moves IH]; intros targets; simpl; [apply inside_mv_many|].
  apply obeys_look. intros t. destruct (locate_dyn mr t); [apply IH|]. obey.
Qed.

Definition step_keeps (hook : option plans.PerStep) : Prop :=
  match hook with Some f => ∀ detectors steps, inside_run (f detectors steps) | None => True end.
Definition shot_keeps (hook : option plans.PerShot) : Prop :=
  match hook with Some f => ∀ detectors, inside_run (f detectors) | None => True end.

Lemma step_of_inside hook detectors steps :
  step_keeps hook → inside_run (plans.step_of hook detectors steps).
Proof. destruct hook; simpl; [done|intros _; apply inside_one_nd_step]. Qed.

(** ** Brackets around plans *)

Lemma idle_unstage devices p m : m ∈ Unstage <$> devices → idle p m.
Proof. intros (? & -> & _)%list_elem_of_fmap. by destruct p. Qed.

Lemma between_finalize g (ms : list Msg) :
  (∀ m p, m ∈ ms → idle p m) → between_runs g → between_runs (finalize_wrapper g (emit ms Done)).
Proof.
  intros Hms Hg. apply obeys_finalize; try done; [by right| |].
  - intros p _. apply obeys_free; try done. auto.
  - intros p Hp. apply obeys_free; try done. auto.
Qed.

Lemma between_stage g devices : between_runs g → between_runs (stage_wrapper g devices).
Proof.
  intros Hg. apply between_finalize; [intros m p; apply idle_unstage|].
  unfold Discipline.between_runs. obey. exact Hg.
Qed.

Lemma between_close ms :
  Forall (idle Opened) ms → obeys any settled (emit (ms ++ [plans.close_success]) Done) Opened.
Proof. intros Hms. rewrite emit_app. apply obeys_idle; [done|done|]. unfold plans.close_success. obey. Qed.

Lemma between_step_run md steps devices :
  Forall inside_run steps → between_runs (plans.step_run md steps devices).
Proof.
  intros Hs. apply between_stage. unfold Discipline.between_runs. obey.
  apply obeys_run_steps; [done|]. unfold plans.close_success. obey.
Qed.

(** ** Wrappers that change or insert messages *)

Lemma item_map_msg f i : item_msg (map_msg f i) = f (item_msg i).
Proof. by destruct i. Qed.

Lemma obeys_msg_mutator {A} (f : A → Msg → Msg * A) R Q a g p :
  (∀ a m p, follow p (f a m).1 = follow p m) → obeys R Q g p → obeys R Q (msg_mutator f a g) p.
Proof.
  intros Hf. revert a p. induction g as [| |i g IH|u g IH]; intros a p; simpl; [done|done| |auto].
  rewrite item_map_msg, Hf. destruct (follow p _); [|done]. naive_solver.
Qed.

Lemma follow_inject extra p m : follow p (inject_md extra m) = follow p m.
Proof. by destruct m. Qed.

Lemma obeys_relative_sets R Q mots bases g p :
  obeys R Q g p → obeys R Q (relative_sets mots bases g) p.
Proof.
  revert bases p. induction g as [| |i g IH|u g IH]; intros bases p; simpl; [done|done| |auto].
  destruct (follow p (item_msg i)) as [p'|] eqn:Hp; [|done]. intros [HR Hg].
  destruct (item_msg i) as [] eqn:Hm; try (simpl; rewrite Hm, Hp; by auto).
  assert (∀ f v grp, f (Set_ obj value group) = Set_ obj v grp →
            follow p (item_msg (map_msg f i)) = Some p') as Hset.
  { intros f v grp Hf. rewrite item_map_msg, Hm, Hf. rewrite <- Hp. by destruct p. }
  destruct (mots !! d_name obj) as [mr|]; [|simpl; rewrite Hm, Hp; by auto].
  destruct (bases !! d_name obj) as [base|].
  - eapply obeys_yield; [by eapply Hset|done|auto].
  - apply obeys_look. intros t. eapply obeys_yield; [by eapply Hset|done|auto].
Qed.

Lemma obeys_watch_moves R Q cell mots seen g p :
  obeys R Q g p → obeys R Q (watch_moves cell mots seen g) p.
Proof.
  revert seen p. induction g as [| |i g IH|u g IH]; intros seen p; simpl; [done|done| |auto].
  destruct (follow p (item_msg i)) as [p'|] eqn:Hp; [|done]. intros [HR Hg].
  assert (∀ seen, obeys R Q (Yield i (watch_moves cell mots seen g)) p) as Hy.
  { intros seen'. eapply obeys_yield; [exact Hp|done|auto]. }
  destruct (item_msg i); try apply Hy. destruct (mots !! d_name obj) as [mr|]; [|apply Hy].
  case_decide; [apply Hy|]. apply obeys_look. intros t. destruct (locate_dyn mr t); [|apply Hy].
  apply obeys_env. intros t' c. apply Hy.
Qed.

Lemma obeys_watch_touches (R Q : Phase → Prop) cell (devices : gmap string Device) seen g p :
  R p → (∀ p p' m, follow p m = Some p' → R p' → R p) →
  obeys R Q g p → obeys R Q (watch_touches cell devices seen g) p.
Proof.
  intros HRp HRback. revert seen p HRp. induction g as [| |i g IH|u g IH]; intros seen p HRp; simpl; [done|done| |auto].
  destruct (follow p (item_msg i)) as [p'|] eqn:Hp; [|done]. intros [HR Hg].
  assert (∀ seen, obeys R Q (Yield i (watch_touches cell devices seen g)) p) as Hy.
  { intros seen'. eapply obeys_yield; [exact Hp|done|auto]. }
  destruct (touched (item_msg i)) as [name|]; [|apply Hy]. case_decide; [apply Hy|].
  destruct (devices !! name) as [d|]; [|apply Hy].
  eapply (obeys_yield _ _ _ _ _ _ p); [by destruct p|done|]. apply obeys_env. intros t c. apply Hy.
Qed.

Lemma obeys_during_run Q after_open before_close g p :
  (∀ m p, m ∈ after_open → p ≠ Closed → idle p m) →
  (∀ m p, m ∈ before_close → p ≠ Closed → idle p m) →
  obeys any Q g p → obeys any Q (during_run_wrapper after_open before_close g) p.
Proof.
  intros Ho Hc. revert p. induction g as [| |i g IH|u g IH]; intros p; simpl; [done|done| |auto].
  destruct (follow p (item_msg i)) as [p'|] eqn:Hp; [|done]. intros [HR Hg].
  assert (obeys any Q (Yield i (during_run_wrapper after_open before_close g)) p) as Hy.
  { eapply obeys_yield; [exact Hp|done|auto]. }
  destruct (item_msg i) as [] eqn:Hm; try exact Hy.
  - eapply obeys_yield; [by rewrite Hm|done|]. apply obeys_idle; [done| |auto].
    apply Forall_forall. intros m Hin. apply Ho; [done|]. by destruct p; simplify_eq/=.
  - apply obeys_idle; [done| |exact Hy].
    apply Forall_forall. intros m Hin. apply Hc; [done|]. by destruct p; simplify_eq/=.
Qed.

Lemma between_monitor_during g signals : between_runs g → between_runs (monitor_during_wrapper g signals).
Proof.
  apply obeys_during_run; intros m p (d & -> & _)%list_elem_of_fmap Hp; by destruct p.
Qed.

Lemma elem_of_wait_if {A} (l : list A) grp m : m ∈ wait_if l grp → m = Wait grp true None.
Proof. destruct l; simpl; [by intros ?%not_elem_of_nil|by intros ->%list_elem_of_singleton]. Qed.

Lemma between_fly_during g flyers : between_runs g → between_runs (fly_during_wrapper g flyers).
Proof.
  apply obeys_during_run; intros m p Hin Hp; rewrite ?elem_of_app in Hin;
    repeat match goal with
    | H : _ ∨ _ |- _ => destruct H
    | H : _ ∈ _ <$> _ |- _ => apply list_elem_of_fmap in H as (? & -> & _)
    | H : _ ∈ wait_if _ _ |- _ => apply elem_of_wait_if in H as ->
    end; by destruct p.
Qed.

Lemma between_reset_positions g motors : between_runs g → between_runs (reset_positions_wrapper g motors).
Proof.
  intros Hg. apply obeys_new_cell. intros cell.
  assert (∀ p Q, Q p → obeys any Q (take_moved cell (λ moved, emit (reset_moves moved) Done)) p) as Hr.
  { intros p Q HQ. apply obeys_env. intros t c. unfold reset_moves. apply obeys_free; [done|done|].
    intros m [(? & -> & _)%list_elem_of_fmap| ->%list_elem_of_singleton]%elem_of_app; by destruct p. }
  apply obeys_finalize; try done; [by right| |auto..]. by apply obeys_watch_moves.
Qed.

Lemma between_lazily_stage g devices : between_runs g → between_runs (lazily_stage_wrapper g devices).
Proof.
  intros Hg. apply obeys_new_cell. intros cell.
  assert (∀ p Q, Q p →
    obeys any Q (take_staging cell (λ staged, emit (Unstage <$> reverse staged) Done)) p) as Hr.
  { intros p Q HQ. apply obeys_env. intros t c. apply obeys_free; [done|done|].
    intros m. apply idle_unstage. }
  apply obeys_finalize; try done; [by right| |auto..]. by apply obeys_watch_touches.
Qed.

Lemma between_relative g motors : between_runs g → between_runs (relative_set_wrapper g motors).
Proof. apply obeys_relative_sets. Qed.

Lemma between_relative_reset g motors : between_runs g → between_runs (plans.relative_reset g motors).
Proof. intros Hg. by apply between_reset_positions, between_relative. Qed.

Lemma between_suspend id g su : between_runs g → between_runs (suspend_wrapper id g su).
Proof.
  intros Hg. apply (between_finalize _ [RemoveSuspender id]); [by intros m p ->%list_elem_of_singleton; destruct p|].
  unfold Discipline.between_runs. obey. exact Hg.
Qed.

Lemma between_rewindable g on : between_runs g → between_runs (rewindable_wrapper g on).
Proof.
  intros Hg. unfold rewindable_wrapper, Discipline.between_runs. obey.
  by apply (between_finalize g [Rewindable true]); [intros m p ->%list_elem_of_singleton; destruct p|].
Qed.

Lemma between_configure g time detectors :
  between_runs g → between_runs (configure_count_time_wrapper g time detectors).
Proof. intros Hg. unfold configure_count_time_wrapper, Discipline.between_runs. obey. exact Hg. Qed.

Lemma between_run_wrapper g md : inside_run g → between_runs (run_wrapper g md).
Proof.
  intros Hg. unfold run_wrapper, Discipline.between_runs. obey.
  apply obeys_contingency with live running settled; try done; try (by right).
  - intros p th Hp. destruct p; [by destruct Hp|..]; destruct th; obey.
  - intros p [->| ->]; unfold option_plan; cbn [default from_option id]; obey.
Qed.

(** ** The plans *)

Lemma between_failing text : between_runs (stubs.one (Fail text)).
Proof. unfold Discipline.between_runs. obey. Qed.

Lemma obeys_sleep_out target start k :
  obeys any settled k Opened → obeys any settled (stubs.sleep_out target start k) Opened.
Proof. intros Hk. unfold stubs.sleep_out. obey; exact Hk. Qed.

(** As many turns as there are shots left, or no bound at all. *)
Definition enough (fuel : nat) (num : option nat) (i : nat) : Prop :=
  match num with Some n => i ≤ n < i + fuel | None => cut end.

Lemma enough_loop_fuel num fuel : (num = None → cut) → enough (stubs.loop_fuel num fuel) num 0.
Proof. destruct num; simpl; [lia|auto]. Qed.

Lemma obeys_count_loop fuel detectors num delay per_shot i :
  (∀ detectors, inside_run (per_shot detectors)) → enough fuel num i →
  obeys any settled (plans.count_loop fuel detectors num delay per_shot i) Opened.
Proof.
  intros Hs. revert i. induction fuel as [|fuel IH]; intros i He.
  { destruct num; simpl in *; [lia|done]. }
  assert (obeys any settled (emit [plans.close_success] Done) Opened) as Hclose.
  { unfold plans.close_success. obey. }
  cbn [plans.count_loop]. destruct (match num with Some n => n <=? i | None => false end) eqn:Hn; [done|].
  apply obeys_look. intros t. apply obeys_inside; [done|].
  destruct (plans.delay_after delay i); [|done]. apply obeys_sleep_out, IH.
  destruct num; simpl in *; [|done]. apply Nat.leb_gt in Hn. lia.
Qed.

Lemma between_count fuel detectors num delay per_shot :
  shot_keeps per_shot → (num = None → cut) →
  between_runs (plans.count_ext fuel detectors num delay per_shot).
Proof.
  intros Hs Hn. unfold plans.count_ext. destruct (plans.delays_missing num delay); [apply between_failing|].
  apply between_stage. unfold Discipline.between_runs. obey.
  apply obeys_count_loop; [|by apply enough_loop_fuel].
  destruct per_shot; [done|]. intros d. apply inside_read_shot.
Qed.

(** Bundles one after the other, with moves between them. *)
Definition rounds (ms : list Msg) : Prop := reads follow ms Opened = Some Opened.

Lemma reads_app ms ms' p : reads follow (ms ++ ms') p = (p' ← reads follow ms p; reads follow ms' p').
Proof.
  revert p. induction ms as [|m ms IH]; intros p; [done|]. simpl.
  destruct (follow p m) as [p'|]; simpl; [apply IH|done].
Qed.

Lemma reads_idle ms p : Forall (idle p) ms → reads follow ms p = Some p.
Proof. induction 1 as [|m ms Hm _ IH]; simpl; [done|]. by rewrite Hm. Qed.

Lemma rounds_app ms ms' : rounds ms → rounds ms' → rounds (ms ++ ms').
Proof. unfold rounds. rewrite reads_app. by intros ->. Qed.

Lemma rounds_bind {A} (f : A → list Msg) l : (∀ x, x ∈ l → rounds (f x)) → rounds (l ≫= f).
Proof.
  induction l as [|x l IH]; intros Hf; [done|]. rewrite bind_cons. apply rounds_app; [apply Hf; left|].
  apply IH. intros y Hy. apply Hf. by right.
Qed.

Lemma rounds_block stream devices : rounds (read_block stream devices).
Proof.
  unfold rounds, read_block. simpl. rewrite reads_app, reads_idle; [done|].
  idle_all.
Qed.

Lemma obeys_rounds ms k : rounds ms → obeys any settled k Opened → obeys any settled (emit ms k) Opened.
Proof.
  intros Hr Hk. apply follows_emit; [done|]. unfold rounds in Hr. by rewrite Hr.
Qed.

Lemma between_rounds md ms :
  rounds ms → between_runs (emit (OpenRun md :: ms ++ [plans.close_success]) Done).
Proof.
  intros Hr. unfold Discipline.between_runs. obey. apply obeys_rounds; [done|].
  unfold plans.close_success. obey.
Qed.

Lemma rounds_triggered detectors triggerables : rounds (plans.triggered_shot detectors triggerables).
Proof.
  unfold plans.triggered_shot. change (rounds ([Checkpoint] ++ stubs.trigger_all "trigger" triggerables
    ++ read_block "primary" detectors)).
  repeat apply rounds_app; [done| |apply rounds_block]. apply reads_idle, trigger_all_idle.
Qed.

Lemma between_count_with_trigger detectors triggerables num :
  between_runs (plans.count_with_trigger detectors triggerables num).
Proof.
  apply between_rounds. induction num as [|num IH]; [done|]. simpl. apply rounds_app; [apply rounds_triggered|exact IH].
Qed.

Lemma rounds_signal_point detectors motor reader pos : rounds (plans.signal_point detectors motor reader pos).
Proof. apply (rounds_app [_; _; _]); [done|apply rounds_block]. Qed.

Lemma between_grid detectors motor1 reader1 s1 e1 n1 motor2 reader2 s2 e2 n2 snake :
  between_runs (plans.grid_scan_snake detectors motor1 reader1 s1 e1 n1 motor2 reader2 s2 e2 n2 snake).
Proof.
  apply between_stage, between_rounds, rounds_bind. intros i _. apply (rounds_app [_; _; _]); [done|].
  apply rounds_bind. intros p _. apply (rounds_app [_; _; _]); [done|apply rounds_block].
Qed.

Lemma between_xy name detectors x_motor x_reader y_motor y_reader args pts :
  between_runs (plans.xy_run name detectors x_motor x_reader y_motor y_reader args pts).
Proof.
  apply between_rounds, rounds_bind. intros p _. apply (rounds_app [_; _; _; _]); [done|apply rounds_block].
Qed.

Lemma steps_inside {A} (f : A → Gen) l : (∀ x, inside_run (f x)) → Forall inside_run (f <$> l).
Proof. intros Hf. apply Forall_fmap, Forall_true. auto. Qed.

Lemma between_inner_product detectors num axes hook name :
  step_keeps hook → between_runs (plans.inner_product_core detectors num axes hook name).
Proof. intros Hh. apply between_step_run, steps_inside. intros. by apply step_of_inside. Qed.

Lemma between_scan_1d detectors motor reader start stop num hook :
  step_keeps hook → between_runs (plans.scan_1d_per_step detectors motor reader start stop num hook).
Proof. intros Hh. apply between_step_run, steps_inside. intros. by apply step_of_inside. Qed.

Lemma between_list_scan detectors motor reader points hook :
  step_keeps hook → between_runs (plans.list_scan_per_step detectors motor reader points hook).
Proof. intros Hh. apply between_step_run, steps_inside. intros. by apply step_of_inside. Qed.

Lemma between_scan_nd detectors ms points md hook :
  step_keeps hook → between_runs (plans.scan_nd_with_md detectors ms points md hook).
Proof. intros Hh. apply between_step_run, steps_inside. intros. by apply step_of_inside. Qed.

Lemma between_list_scan_nd detectors axes hook :
  step_keeps hook → between_runs (plans.list_scan_nd detectors axes hook).
Proof.
  intros Hh. unfold plans.list_scan_nd. cbv zeta. destruct (_ ≫= _) as [[first bad]|];
    [apply between_failing|by apply between_scan_nd].
Qed.

Lemma between_null : between_runs stubs.null.
Proof. unfold Discipline.between_runs, stubs.null. obey. Qed.

Lemma between_log_scan detectors motor reader start stop num :
  between_runs (plans.log_scan detectors motor reader start stop num).
Proof. unfold plans.log_scan. destruct (_ || _); [apply between_null|by apply between_list_scan]. Qed.

Lemma between_bare g : between_runs g → between_runs (bare_only g).
Proof. apply follows_bare. Qed.

Lemma between_rel_scan detectors motor reader current start stop num :
  between_runs (plans.rel_scan detectors motor reader current start stop num).
Proof.
  apply between_then; [by apply between_bare, between_scan_1d|].
  unfold Discipline.between_runs. obey.
Qed.

Lemma between_look (k : Instant → Gen) : (∀ t, between_runs (k t)) → between_runs (look k).
Proof. intros Hk. by apply obeys_look. Qed.

Lemma closes : obeys any settled (emit [plans.close_success] Done) Opened.
Proof. unfold plans.close_success. obey. Qed.

Lemma obeys_ramp_loop fuel (sampling : nat → Gen) is_complete fail_time period i :
  cut → (∀ i, inside_run (sampling i)) →
  obeys any settled (plans.ramp_loop fuel sampling is_complete fail_time period i) Opened.
Proof.
  intros Hcut Hin. revert i. induction fuel as [|fuel IH]; intros i; [done|].
  cbn [plans.ramp_loop]. apply obeys_look. intros t.
  destruct (is_complete t); apply obeys_inside; auto using closes.
  apply obeys_look. intros t'. destruct (match fail_time with Some _ => _ | None => _ end); [obey|].
  destruct period; [|apply IH]. destruct (_ <? _)%Z; [|apply IH]. obey. apply IH.
Qed.

Lemma between_ramp fuel go signal (sampling : nat → Gen) is_complete take_pre timeout period :
  cut → inside_run go → (∀ i, inside_run (sampling i)) →
  between_runs (plans.ramp_plan fuel go signal sampling is_complete take_pre timeout period).
Proof.
  intros Hcut Hgo Hin. apply between_monitor_during. unfold Discipline.between_runs. obey1.
  obey_tail. apply obeys_look. intros t.
  assert (obeys any settled (and_then (bare_only go) (plans.ramp_loop fuel sampling is_complete
            ((λ d, mono t + d)%Z <$> timeout) period 1)) Opened) as Hrest.
  { apply obeys_inside; auto using obeys_ramp_loop. }
  destruct take_pre; [by apply obeys_inside|exact Hrest].
Qed.

Lemma inside_kickoff_all uid flyers grp wait : inside_run (stubs.kickoff_all uid flyers grp wait).
Proof. unfold stubs.kickoff_all, inside_run. destruct wait; obey. Qed.

Lemma inside_complete_all uid flyers grp wait : inside_run (stubs.complete_all uid flyers grp wait).
Proof. unfold stubs.complete_all, inside_run. destruct wait; obey. Qed.

Lemma between_fly flyers : between_runs (plans.fly flyers).
Proof.
  unfold plans.fly, Discipline.between_runs. obey1. obey_tail.
  assert (obeys any settled (emit (((λ c, Collect c None) <$> flyers.*2) ++ [plans.close_success]) Done) Opened).
  { apply between_close. idle_all. }
  destruct flyers; [done|]. apply obeys_inside; [apply inside_kickoff_all|].
  apply obeys_inside; [apply inside_complete_all|done].
Qed.

Lemma obeys_adaptive_loop iters a detectors signal motor reader s :
  obeys any settled (plans.adaptive_loop iters a detectors signal motor reader s) Opened.
Proof.
  revert s. induction iters as [|iters IH]; intros s; [apply closes|].
  cbn [plans.adaptive_loop]. destruct (plans.adaptive_ahead a s); [|apply closes].
  apply obeys_rounds; [apply rounds_signal_point|]. apply obeys_look. auto.
Qed.

Lemma between_adaptive detectors signal motor reader a :
  between_runs (plans.adaptive_scan detectors signal motor reader a).
Proof.
  unfold plans.adaptive_scan. destruct (negb _); [apply between_failing|].
  unfold Discipline.between_runs. obey1. apply obeys_adaptive_loop.
Qed.

Lemma between_rel_adaptive detectors signal motor reader a :
  between_runs (plans.rel_adaptive_scan detectors signal motor reader a).
Proof.
  apply between_reset_positions, between_look. intros t. destruct (locate_dyn motor t);
    [by apply between_bare, between_adaptive|apply between_failing].
Qed.

Lemma obeys_tune_loop fuel a detectors signal motor reader s :
  cut → obeys any settled (plans.tune_loop fuel a detectors signal motor reader s) Opened.
Proof.
  intros Hcut. revert s. induction fuel as [|fuel IH]; intros s; [done|].
  cbn [plans.tune_loop]. destruct (plans.tune_goes_on a s).
  - apply obeys_rounds; [apply rounds_signal_point|]. apply obeys_look. intros t.
    destruct (plans.tune_next _ _ _); [apply IH|apply closes].
  - apply between_close. destruct (plans.tu_peak s); repeat constructor.
Qed.

Lemma between_tune fuel detectors signal motor reader a :
  cut → between_runs (plans.tune_centroid fuel detectors signal motor reader a).
Proof.
  intros Hcut. unfold plans.tune_centroid. destruct (_ <=? _)%f64; [apply between_failing|].
  destruct (_ <=? _)%f64; [apply between_failing|].
  unfold Discipline.between_runs. obey1. by apply obeys_tune_loop.
Qed.

(** ** The grammar *)

(** The compound plans, and every wrapper around one that keeps it a plan of its own:
    [cut] for the loops that have no bound. The hooks stay inside their run. *)
Inductive library : Gen → Prop :=
| lib_count fuel detectors num delay per_shot :
    shot_keeps per_shot → (num = None → cut) →
    library (plans.count_ext fuel detectors num delay per_shot)
| lib_count_with_trigger detectors triggerables num :
    library (plans.count_with_trigger detectors triggerables num)
| lib_scan detectors axes num per_step :
    step_keeps per_step → library (plans.scan_per_step detectors axes num per_step)
| lib_inner_product_scan detectors num axes per_step :
    step_keeps per_step → library (plans.inner_product_scan_per_step detectors num axes per_step)
| lib_scan_1d detectors motor reader start stop num per_step :
    step_keeps per_step → library (plans.scan_1d_per_step detectors motor reader start stop num per_step)
| lib_list_scan detectors motor reader points per_step :
    step_keeps per_step → library (plans.list_scan_per_step detectors motor reader points per_step)
| lib_scan_nd detectors (pairs : list (Device * Device)) points per_step :
    step_keeps per_step → library (plans.scan_nd_per_step detectors pairs points per_step)
| lib_list_scan_nd detectors axes per_step :
    step_keeps per_step → library (plans.list_scan_nd detectors axes per_step)
| lib_list_grid_scan detectors axes snake_axes :
    library (plans.list_grid_scan_snake detectors axes snake_axes)
| lib_grid_scan detectors motor1 reader1 s1 e1 n1 motor2 reader2 s2 e2 n2 snake :
    library (plans.grid_scan_snake detectors motor1 reader1 s1 e1 n1 motor2 reader2 s2 e2 n2 snake)
| lib_spiral_square detectors xm xr ym yr x_center y_center x_range y_range x_num y_num :
    library (plans.spiral_square detectors xm xr ym yr x_center y_center x_range y_range x_num y_num)
| lib_spiral detectors xm xr ym yr x_start y_start x_range y_range dr nth dr_y tilt :
    library (plans.spiral detectors xm xr ym yr x_start y_start x_range y_range dr nth dr_y tilt)
| lib_spiral_fermat detectors xm xr ym yr x_start y_start x_range y_range dr factor dr_y tilt :
    library (plans.spiral_fermat detectors xm xr ym yr x_start y_start x_range y_range dr factor dr_y tilt)
| lib_rel_scan detectors motor reader current start stop num :
    library (plans.rel_scan detectors motor reader current start stop num)
| lib_rel_list_scan detectors motor reader points :
    library (plans.rel_list_scan detectors motor reader points)
| lib_rel_list_grid_scan detectors axes : library (plans.rel_list_grid_scan detectors axes)
| lib_rel_grid_scan detectors motor1 reader1 s1 e1 n1 motor2 reader2 s2 e2 n2 :
    library (plans.rel_grid_scan detectors motor1 reader1 s1 e1 n1 motor2 reader2 s2 e2 n2)
| lib_log_scan detectors motor reader start stop num :
    library (plans.log_scan detectors motor reader start stop num)
| lib_ramp fuel go signal (sampling : nat → Gen) is_complete take_pre timeout period :
    cut → inside_run go → (∀ i, inside_run (sampling i)) →
    library (plans.ramp_plan fuel go signal sampling is_complete take_pre timeout period)
| lib_fly flyers : library (plans.fly flyers)
| lib_adaptive detectors signal motor reader a :
    library (plans.adaptive_scan detectors signal motor reader a)
| lib_rel_adaptive detectors signal motor reader a :
    library (plans.rel_adaptive_scan detectors signal motor reader a)
| lib_tune fuel detectors signal motor reader a :
    cut → library (plans.tune_centroid fuel detectors signal motor reader a)
| lib_run g md : inside_run g → library (run_wrapper g md)
| lib_bare g : library g → library (bare_only g)
| lib_chain_nil : library (pchain [])
| lib_chain g plans : library g → library (pchain plans) → library (pchain (g :: plans))
| lib_stage g devices : library g → library (stage_wrapper g devices)
| lib_lazily_stage g devices : library g → library (lazily_stage_wrapper g devices)
| lib_suspend id g su : library g → library (suspend_wrapper id g su)
| lib_rewindable g on : library g → library (rewindable_wrapper g on)
| lib_configure g time detectors : library g → library (configure_count_time_wrapper g time detectors)
| lib_inject g md : library g → library (inject_md_wrapper g md)
| lib_run_key g key : library g → library (set_run_key_wrapper g key)
| lib_relative g motors : library g → library (relative_set_wrapper g motors)
| lib_reset g motors : library g → library (reset_positions_wrapper g motors)
| lib_monitor g signals : library g → library (monitor_during_wrapper g signals)
| lib_fly_during g flyers : library g → library (fly_during_wrapper g flyers).

(** ** Theorem *)

(** C5: The plans of the library: the counts, scans, grid scans, spirals, ramps, fly and adaptive
    scans and the tuning scan of [library], [run_wrapper] around a body that stays inside its
    run, chains of them, and any of them under [stage_wrapper], [lazily_stage_wrapper],
    [suspend_wrapper], [rewindable_wrapper], [configure_count_time_wrapper],
    [inject_md_wrapper], [set_run_key_wrapper], [relative_set_wrapper],
    [reset_positions_wrapper], [monitor_during_wrapper] and [fly_during_wrapper]. Where the
    hooks they are given (per shot, per step, the motion and the sampling of a ramp) stay
    inside the run, such a plan, whatever the clock, the devices and the engine answer, opens a
    run only when none is open and closes it, opens bundles only inside the run and one at a
    time, and takes checkpoints, configures devices, declares streams, monitors, kicks off and
    collects only where the engine allows it; it ends outside a run unless it has sent a
    failure of its own, and the loops of those that have a bound end. [baseline_wrapper] is
    not among the wrappers: it can break the order. *)
Theorem library_plans_keep_order g : library g → between_runs g.
Proof.
  induction 1; auto using between_bare, between_stage, between_lazily_stage, between_suspend,
    between_rewindable, between_configure, between_relative, between_reset_positions,
    between_monitor_during, between_fly_during, between_count, between_count_with_trigger,
    between_scan_1d, between_list_scan, between_list_scan_nd, between_grid, between_xy,
    between_rel_scan, between_log_scan, between_ramp, between_fly, between_adaptive,
    between_rel_adaptive, between_tune, between_run_wrapper, between_inner_product.
  - by apply between_inner_product.
  - by apply between_inner_product.
  - by apply between_scan_nd.
  - by apply between_scan_nd.
  - apply between_xy.
  - apply between_xy.
  - apply between_xy.
  - apply between_reset_positions, between_look. intros t. by apply between_bare, between_list_scan.
  - apply between_reset_positions, between_look. intros t. by apply between_bare, between_scan_nd.
  - apply between_reset_positions, between_look. intros t. apply between_bare, between_grid.
  - by left.
  - by apply between_then.
  - apply obeys_msg_mutator; [intros; apply follow_inject|auto].
  - apply obeys_msg_mutator; [intros; apply follow_inject|auto].
Qed.
End library.

Module LibraryExamples.
Import Sample HostSample LibmSample.

Lemma library_plans_keep_order_witness :
  between_runs False (plans.count_ext 0 [] (Some 2) (plans.DelayEvery 1) None).
Proof. apply (library_plans_keep_order False). by constructor. Defined.
End LibraryExamples.
