(* ===== verification/PlanRuns.v ===== *)
(** * Plans run by the engine

    A generator of [plans/] as the plan of [run_async]: what happens where a plan's
    brackets and the engine's interruptions meet. *)

From S2P Require Import Prelude Interfaces Errors Control Documents F64 Bundler Device Machine.
From S2P Require Import Handle RunLoop Gen Preproc Stubs Plans.

(** Plans that suspend the engine do not occur here. *)
#[export] Instance gen_plan `{JsonNumber} : PlanSource :=
  {| Plan := Gen; plan_next p t c := poll p t c; suspend_plan _ := Done |}.

Module PlanRunsExamples.
Import Sample World HostSample.

(** The engine is asked to abort while it awaits at [at_]. *)
Definition aborting (at_ : Instant) : Schedule :=
  {| noise t := if t =? at_ then [NAbort "enough"] else []; pick _ := true;
     deadline _ := false; now t := Z.of_nat t |}.

Definition run_gen (s : Schedule) (p : Gen) :=
  run_async (H2 := s) (H4 := gen_plan) 100 [] p fresh_engine.

(** How a run ended, the documents it sent, what it asked of the devices. *)
Definition result (r : Out RunResult * RunEngine) : option (string * option BsrsError) :=
  match r.1 with Ret r => Some (exit_status r, exception r) | _ => None end.

Definition wire (r : Out RunResult * RunEngine) : list string :=
  (λ d : Origin * Document, match d.2 with
   | DocStart _ => "start" | DocDescriptor _ => "descriptor" | DocEvent _ => "event"
   | DocStop _ => "stop" | _ => "other" end) <$> emitted r.2.

Definition md : RunMetadata := mkMeta None ∅ None.
Definition in_run (p : Gen) : Gen :=
  emit [OpenRun md] (and_then p (emit [CloseRun "success" None] Done)).

(** ** An abort at the bracket *)

Definition motor : Device := device 1 "m".
Definition move_to (v : f64) : Gen := emit [Set_ motor v None] Done.
Definition guarded_move : Gen := finalize_wrapper (move_to 5%Z) Done.
Definition guarded_nothing : Gen := and_then (finalize_wrapper Done Done) (move_to 5%Z).

(** ** A flyer that is collected while it completes *)

Definition flyer : Device :=
  let key := mkDataKey "sim" DNumber [] None None None None None None None None in
  mkDevice 2 "f" (at_once ∅) (at_once ∅)
    None false false (λ _, at_once []) false (mkConfigurable (at_once ∅) (at_once ∅))
    (λ _, succeeds) (λ _, at_once ()) (at_once (0%Z, 0%Z)) (λ _, at_once ()) succeeds
    (at_once ()) (at_once ()) succeeds succeeds true (λ _, succeeds) (at_once ())
    (at_once ()) (at_once {["s" := {["x" := key]}]})
    (at_once [("s", {["x" := VBool true]}, {["x" := 1%Z]})]) (λ _, at_once []) (at_once "f")
    (λ _, at_once ()).

Definition flush : Gen :=
  emit [Kickoff flyer (Some "k"); Wait "k" true None]
    (stubs.collect_while_completing 10 0 [flyer] [flyer] (Some 1%Z) None).

(** ** A run that reads a broken detector *)

Definition broken : Device :=
  mkDevice 0 "det" (λ _, Err (PlanE "broken")) (at_once ∅)
    None false false (λ _, at_once []) false (mkConfigurable (at_once ∅) (at_once ∅))
    (λ _, succeeds) (λ _, at_once ()) (at_once (0%Z, 0%Z)) (λ _, at_once ()) succeeds
    (at_once ()) (at_once ()) succeeds succeeds false (λ _, succeeds) (at_once ())
    (at_once ()) (at_once ∅) (at_once []) (λ _, at_once []) (at_once "det") (λ _, at_once ()).

Definition reading_run (d : Device) : Gen :=
  run_wrapper (emit [Create "primary"; Read d; Save] Done) md.
Definition with_baseline (p : Gen) : Gen := baseline_wrapper p [device 1 "base"] "baseline".
Definition double_create : option BsrsError :=
  Some (PlanE "create called while a previous bundle is still open").

(** ** Theorems *)

(** An abort that arrives before the first message of a [contingency_wrapper] does not
    stop its plan: the wrapper looks at what was thrown only after it has forwarded an
    item, so the first message of the plan is still executed, here a move; and around a
    plan without messages the abort is lost and the run goes on to the end. *)
Theorem abort_at_bracket_runs_on :
  (let r := run_gen (aborting 0) guarded_move in
   result r = Some ("abort", None) ∧ calls r.2 = [CSet "m" 5%Z; CStopOnPause "m"])
  ∧ (let r := run_gen (aborting 0) guarded_nothing in
     result r = Some ("no-run", None) ∧ calls r.2 = [CSet "m" 5%Z; CStopOnPause "m"]
     ∧ interrupt_reason (control r.2) = "enough").
Proof. cbv zeta. split_and!; vm_eq. Qed.

(** A [per_shot] of [count] that asks the engine for answers does not get them: [count]
    forwards its messages without their channels, and what the same plan collects from a
    flyer in a run of its own is not collected, with the run a success. *)
Theorem hooks_lose_their_answers :
  (let r := run_gen quiet (in_run flush) in
   result r = Some ("success", None) ∧ wire r = ["start"; "descriptor"; "event"; "stop"])
  ∧ (let r := run_gen quiet (plans.count_per_shot [] 1 (Some (λ _, flush))) in
     result r = Some ("success", None) ∧ wire r = ["start"; "stop"]).
Proof. cbv zeta. split_and!; vm_eq. Qed.

(** Around a run that ends in the middle of a bundle [baseline_wrapper] opens a bundle in
    the open one: the failure the run is closed for is replaced by that error, and an
    abort there ends the run as a failure. *)
Theorem baseline_masks_what_was_thrown :
  result (run_gen quiet (reading_run broken)) = Some ("fail", Some (PlanE "broken"))
  ∧ result (run_gen quiet (with_baseline (reading_run broken))) = Some ("fail", double_create)
  ∧ result (run_gen (aborting 6) (reading_run (device 0 "det"))) = Some ("abort", None)
  ∧ result (run_gen (aborting 12) (with_baseline (reading_run (device 0 "det")))) =
      Some ("fail", double_create).
Proof. cbv zeta. split_and!; vm_eq. Qed.
End PlanRunsExamples.
