(* ===== verification/Scans.v ===== *)
(** * What the scans do

    Counts take the shots they are asked for, scans reach their points though they
    leave out moves, and a scan that follows a signal need not end. *)

From S2P Require Import Prelude Interfaces Errors Control Documents F64 Patterns.
From S2P Require Import Bundler Device Gen Preproc Wrappers Stubs Plans.

(** ** Moves that are left out *)

Section positions.
Context `{JsonNumber}.
Implicit Types (motors : list (Device * Device)) (cache : list (option f64)) (row : list f64).
Implicit Types (steps : list StepMotor).

(** Where a motor was last sent, and where the [j]-th motor is after some steps. *)
Definition moved_to (before : option f64) (m : StepMotor) : option f64 :=
  match m.2 with Some v => Some v | None => before end.
Definition moves (j : nat) (before : option f64) steps : option f64 :=
  match steps !! j with Some m => moved_to before m | None => before end.
Definition last_sent (j : nat) (before : option f64) (stepss : list (list StepMotor)) : option f64 :=
  foldl (moves j) before stepss.

(** The same point, [0.0] and [-0.0] being one. *)
Definition same_point (v w : f64) : Prop := w = v ∨ (w =? v)%f64 = true.

(** One motor of a step: it is sent to its coordinate exactly if it is not there. *)
Lemma step_targets_lookup motors cache row j v c m :
  motors !! j = Some m → cache !! j = Some c → row !! j = Some v →
  (plans.step_targets motors cache row).1 !! j =
    Some (m, if plans.same_target c v then None else Some v).
Proof.
  revert cache row j. induction motors as [|[m1 m2] motors IH]; intros [|c' cache] row j Hm Hc Hr; try done.
  simpl in *. destruct row as [|v' row]; [done|]. simpl.
  destruct (plans.step_targets motors cache row) as [steps cache'] eqn:Ht.
  destruct j as [|j]; simplify_eq/=.
  - by destruct (plans.same_target c v).
  - specialize (IH cache row j Hm Hc Hr). rewrite Ht in IH. by destruct (plans.same_target c' v').
Qed.

Lemma step_targets_cache motors cache row j c m :
  motors !! j = Some m → cache !! j = Some c →
  (plans.step_targets motors cache row).2 !! j =
    Some (moves j c (plans.step_targets motors cache row).1).
Proof.
  revert cache row j. induction motors as [|[m1 m2] motors IH]; intros [|c' cache] row j Hm Hc; try done.
  simpl in *. specialize (IH cache (tail row)).
  destruct (plans.step_targets motors cache (tail row)) as [steps cache'].
  destruct row as [|v row]; [|destruct (plans.same_target c' v) eqn:Hs];
    destruct j as [|j]; simplify_eq/=; first [done|by apply IH].
Qed.

Lemma cached_steps_cons motors cache row points :
  plans.cached_steps motors cache (row :: points) =
    (plans.step_targets motors cache row).1
    :: plans.cached_steps motors (plans.step_targets motors cache row).2 points.
Proof. simpl. by destruct (plans.step_targets motors cache row). Qed.

Lemma cached_steps_step motors cache points k row j c m v :
  motors !! j = Some m → cache !! j = Some c → points !! k = Some row → row !! j = Some v →
  let stepss := plans.cached_steps motors cache points in
  ∃ steps, stepss !! k = Some steps
    ∧ steps !! j = Some (m, if plans.same_target (last_sent j c (take k stepss)) v then None else Some v).
Proof.
  revert cache k c. induction points as [|row' points IH]; intros cache k c Hm Hc Hk Hv; [done|].
  cbv zeta. rewrite cached_steps_cons. destruct k as [|k]; simplify_eq/=.
  - eexists. split; [done|]. by apply step_targets_lookup.
  - apply IH; [done|by eapply step_targets_cache|done|done].
Qed.

(** ** Theorem *)

(** C26: A scan over a list of points leaves out every move of a motor to where it was last
    sent, and no other: at each point every motor was last sent to its coordinate there. *)
Theorem scan_reaches_its_points motors points k row j v m :
  motors !! j = Some m → points !! k = Some row → row !! j = Some v →
  let stepss := plans.cached_steps motors (replicate (length motors) None) points in
  ∃ steps, stepss !! k = Some steps
    ∧ steps !! j = Some (m, if plans.same_target (last_sent j None (take k stepss)) v
                            then None else Some v)
    ∧ ∃ w, last_sent j None (take (S k) stepss) = Some w ∧ same_point v w.
Proof.
  intros Hm Hk Hv stepss.
  assert (replicate (length motors) (@None f64) !! j = Some None) as Hc.
  { apply lookup_replicate. split; [done|]. by apply lookup_lt_is_Some_1; eexists. }
  destruct (cached_steps_step motors _ points k row j None m v Hm Hc Hk Hv) as (steps & Hs & Hj).
  fold stepss in Hs, Hj. exists steps. split_and!; [done|done|].
  rewrite (take_S_r _ _ _ Hs). unfold last_sent in *. rewrite foldl_app. simpl. unfold moves at 1.
  unfold StepMotor in *. rewrite Hj. unfold moved_to, plans.same_target. simpl.
  destruct (foldl _ _ _) as [w|]; [destruct (w =? v)%f64 eqn:Hw|]; simpl.
  - exists w. split; [done|by right].
  - exists v. split; [done|by left].
  - exists v. split; [done|by left].
Qed.
End positions.

(** ** Counts *)

Section counts.
Context `{JsonNumber, !PlanHost}.
Context (E : Channel → Channel → Prop).
#[local] Notation completes := (completes E).
#[local] Notation whole := (whole E).

(** What follows a shot of [count]: nothing, or a sleep that is at most the delay. *)
Definition pauses (delay : plans.CountDelay) (i : nat) (out : list PlanItem) : Prop :=
  out = [] ∨ ∃ d s, plans.delay_after delay i = Some d ∧ (0 < s ≤ d)%Z ∧ out = [Bare (Sleep s)].

(** One turn of the loop. *)
Definition turn (detectors : list Device) (per_shot : plans.PerShot) (delay : plans.CountDelay)
  (i : nat) (out : list PlanItem) : Prop :=
  ∃ shot pause, out = shot ++ pause ∧ whole (bare_only (per_shot detectors)) shot ∧ pauses delay i pause.

Lemma completes_sleep_out target start k t c ins out t' c' :
  completes (stubs.sleep_out target start k) t c ins out t' c' →
  ∃ pause ins1 ins2 out2 t1 c1, ins = ins1 ++ ins2 ∧ out = pause ++ out2
    ∧ completes k t1 c1 ins2 out2 t' c'
    ∧ (pause = [] ∨ ∃ s, (0 < s ≤ target)%Z ∧ pause = [Bare (Sleep s)]).
Proof.
  unfold stubs.sleep_out. intros Hc. destruct (target =? 0)%Z.
  { exists [], [], ins, out, t, c. by split_and!; [..|left]. }
  inversion Hc as [|? ? ? ? ? ? ? ? Hk|]; subst. cbv beta zeta in Hk.
  destruct (_ <? target)%Z eqn:Hlt.
  - destruct (completes_emit E [Sleep _] k _ _ _ _ _ _ Hk) as (a & b & out2 & t1 & c1 & -> & -> & _ & Hk').
    exists [Bare (Sleep (target - Z.max 0 (mono t - start))%Z)], a, b, out2, t1, c1.
    split_and!; [done|done|done|]. right. eexists. split; [|done]. apply Z.ltb_lt in Hlt. lia.
  - exists [], [], ins, out, t, c. by split_and!; [..|left].
Qed.

Lemma delays_last n delay i :
  plans.delays_missing (Some n) delay = false → plans.delay_after delay i = None → i < n → S i = n.
Proof.
  destruct delay as [| |ds]; simpl; [done|done|]. intros Hm Hd%lookup_ge_None_1 Hi.
  destruct (1 <? n) eqn:H1; simpl in Hm; [apply Nat.ltb_ge in Hm; lia|apply Nat.ltb_ge in H1; lia].
Qed.

Lemma count_loop_turns fuel detectors n delay per_shot i t c ins out t' c' :
  plans.delays_missing (Some n) delay = false → i ≤ n →
  completes (plans.count_loop fuel detectors (Some n) delay per_shot i) t c ins out t' c' →
  ∃ turns, length turns = n - i ∧ out = mjoin turns ++ [Bare plans.close_success]
    ∧ ∀ k o, turns !! k = Some o → turn detectors per_shot delay (i + k) o.
Proof.
  intros Hm. revert i t c ins out. induction fuel as [|fuel IH]; intros i t c ins out Hi Hc; [inversion Hc|].
  cbn [plans.count_loop] in Hc.
  assert (∀ t c ins out, completes (emit [plans.close_success] Done) t c ins out t' c' →
            out = [Bare plans.close_success]) as Hclose.
  { intros t0 c0 ins0 out0 Hd. assert (whole (emit [plans.close_success] Done) out0) as Hw by by do 5 eexists.
    by destruct (whole_emit E [_] Done out0 Hw) as (? & -> & ->%whole_done). }
  destruct (n <=? i) eqn:Hn.
  { apply Nat.leb_le in Hn. exists []. split_and!; [simpl; lia|by eapply Hclose|done]. }
  apply Nat.leb_gt in Hn. inversion Hc as [|? ? ? ? ? ? ? ? Hk|]; subst. cbv beta in Hk.
  apply completes_and_then in Hk as (a & b & shot & rest & t1 & c1 & -> & -> & Hs & Hk).
  assert (whole (bare_only (per_shot detectors)) shot) as Hshot by by do 5 eexists.
  destruct (plans.delay_after delay i) as [d|] eqn:Hd.
  - apply completes_sleep_out in Hk as (pause & i1 & i2 & out2 & t2 & c2 & -> & -> & Hk & Hp).
    destruct (IH (S i) _ _ _ _ ltac:(lia) Hk) as (turns & Hl & -> & Hall).
    exists ((shot ++ pause) :: turns). split_and!; [simpl; lia|simpl; by rewrite <- !app_assoc|].
    intros [|k] o Ho; simplify_eq/=.
    + exists shot, pause. rewrite Nat.add_0_r. split_and!; [done|done|].
      destruct Hp as [->|(s & Hs' & ->)]; [by left|right; by exists d, s].
    + rewrite Nat.add_succ_r. by apply Hall.
  - pose proof (delays_last n delay i Hm Hd Hn) as <-. apply Hclose in Hk as ->.
    exists [shot]. split_and!; [simpl; lia|simpl; by rewrite app_nil_r|].
    intros [|k] o Ho; simplify_eq/=. exists o, []. rewrite Nat.add_0_r, app_nil_r. by split_and!; [..|left].
Qed.

(** ** Theorem *)

(** A count of [n] that is not interrupted takes [n] shots, each but for its delay the
    plan of one shot, and closes its run; a sequence of delays one short of the shots
    is enough. Whatever fuel its loop had, it was enough. *)
Theorem count_takes_its_shots fuel detectors n delay per_shot t c ins out t' c' :
  plans.delays_missing (Some n) delay = false →
  completes (plans.count_loop (stubs.loop_fuel (Some n) fuel) detectors (Some n) delay per_shot 0)
    t c ins out t' c' →
  ∃ turns, length turns = n ∧ out = mjoin turns ++ [Bare plans.close_success]
    ∧ ∀ k o, turns !! k = Some o → turn detectors per_shot delay k o.
Proof.
  intros Hm Hc. destruct (count_loop_turns _ _ _ _ _ _ _ _ _ _ _ _ Hm (Nat.le_0_l n) Hc) as (turns & Hl & Ho & Ht).
  exists turns. split_and!; [lia|done|exact Ht].
Qed.
End counts.

(** ** A tuning scan at the resolution of its motor *)

Section tuning.
Context `{JsonNumber, !PlanHost}.
Context (E : Channel → Channel → Prop).

(** From [2^53] to [2^53 + 10] in a hundred steps of [0.1], which no double there resolves. *)
Definition coarse : f64 := f64_of_Z (2 ^ 53).
Definition coarse_args : plans.TuneArgs :=
  plans.mkTuneArgs coarse (f64_of_Z (2 ^ 53 + 10)) (f64_dec 5 2) 101 (f64_of_Z 3) false.

(** The first pass, at its first point. *)
Definition at_start (s : plans.Tune) : Prop :=
  plans.tu_start s = coarse ∧ plans.tu_stop s = f64_of_Z (2 ^ 53 + 10) ∧ plans.tu_pos s = coarse
  ∧ plans.tu_step s = plans.tu_step (plans.tune_start coarse_args).

Lemma stays_at_start cur s :
  at_start s → ∃ s', plans.tune_next coarse_args cur s = Some s' ∧ at_start s'.
Proof.
  intros (H1 & H2 & H3 & H4). unfold plans.tune_next. rewrite H1, H2, H3, H4.
  assert ((coarse + plans.tu_step (plans.tune_start coarse_args))%f64 = coarse) as -> by vm_eq.
  assert ((f64_min coarse (f64_of_Z (2 ^ 53 + 10)) <=? coarse)%f64
          && (coarse <=? f64_max coarse (f64_of_Z (2 ^ 53 + 10)))%f64 = true) as -> by vm_eq.
  cbn [plans.ta_step_factor]. eexists. split; [reflexivity|]. unfold at_start.
  cbn [plans.tu_start plans.tu_stop plans.tu_pos plans.tu_step]. by split_and!.
Qed.

Lemma goes_on_at_start s : at_start s → plans.tune_goes_on coarse_args s = true.
Proof. intros (_ & _ & H3 & H4). unfold plans.tune_goes_on. rewrite H3, H4. vm_eq. Qed.

Lemma tune_loop_never_ends fuel detectors signal motor reader s t c ins out t' c' :
  at_start s → ¬ completes E (plans.tune_loop fuel coarse_args detectors signal motor reader s) t c ins out t' c'.
Proof.
  revert s t c ins out. induction fuel as [|fuel IH]; intros s t c ins out Hs Hc; [inversion Hc|].
  cbn [plans.tune_loop] in Hc. rewrite goes_on_at_start in Hc by done.
  apply completes_emit in Hc as (a & b & out2 & t1 & c1 & -> & -> & _ & Hc).
  inversion Hc as [|? ? ? ? ? ? ? ? Hk|]; subst. cbv beta in Hk.
  destruct (stays_at_start (plans.sample signal detectors t1) s Hs) as (s' & Hn & Hs').
  rewrite Hn in Hk. by eapply IH.
Qed.

(** ** Theorem *)

(** A tuning scan whose step is finer than the doubles around its start, though above the
    [min_step] that is to end it, never leaves its first point and never ends. *)
Theorem tune_centroid_never_ends fuel detectors signal motor reader t c ins out t' c' :
  (plans.ta_min_step coarse_args <=? 0%Z)%f64 = false
  ∧ (plans.ta_min_step coarse_args <=? f64_abs (plans.tu_step (plans.tune_start coarse_args)))%f64 = true
  ∧ (plans.ta_step_factor coarse_args <=? f64_one)%f64 = false
  ∧ ¬ completes E (plans.tune_centroid fuel detectors signal motor reader coarse_args) t c ins out t' c'.
Proof.
  split_and!; [vm_eq|vm_eq|vm_eq|]. unfold plans.tune_centroid.
  assert ((plans.ta_min_step coarse_args <=? 0%Z)%f64 = false) as -> by vm_eq.
  assert ((plans.ta_step_factor coarse_args <=? f64_one)%f64 = false) as -> by vm_eq.
  intros (a & b & out2 & t1 & c1 & -> & -> & _ & Hc)%completes_emit.
  by eapply tune_loop_never_ends in Hc.
Qed.
End tuning.

From S2P Require Import Machine RunLoop.

Module ScansExamples.
Import Sample World HostSample.

Lemma scan_reaches_its_points_witness :
  let m := device 0 "m" in
  let stepss := plans.cached_steps [(m, m)] [None] [[0%Z]; [0%Z]; [1%Z]] in
  ∃ steps, stepss !! 1 = Some steps ∧ steps !! 0 = Some (m, m, None).
Proof.
  cbv zeta.
  destruct (scan_reaches_its_points [(device 0 "m", device 0 "m")] [[0%Z]; [0%Z]; [1%Z]] 1 [0%Z] 0 0%Z
    (device 0 "m", device 0 "m") eq_refl eq_refl eq_refl) as (steps & Hs & Hj & _).
  exists steps. split; [exact Hs|exact Hj].
Defined.

Definition shot : plans.PerShot := λ _, emit [Null] Done.

Lemma count_takes_its_shots_witness :
  let c := mkChannel ∅ None RNone 0 ∅ ∅ in
  ∃ turns, length turns = 2
    ∧ [Bare Null; Bare (Sleep 4); Bare Null; Bare plans.close_success] = mjoin turns ++ [Bare plans.close_success]
    ∧ ∀ k o, turns !! k = Some o → turn (λ _ _, True) [] shot (plans.DelaySequence [5%Z]) k o.
Proof.
  intros c.
  apply (count_takes_its_shots (λ _ _, True) 0 [] 2 (plans.DelaySequence [5%Z]) shot 0 c
    [(1, c); (2, c); (3, c); (4, c)] _ 4 c); [reflexivity|].
  do 20 (constructor; try done).
Defined.
End ScansExamples.
