(* ===== verification/Page.v ===== *)
(** * Row and column documents ([event_model/page.rs])

    Packing events and datums into pages, unpacking, merging and rechunking them.
    [None] is a panic (an index or a slice out of range). *)

From S2P Require Import Prelude Interfaces Documents.

(** ** Columns *)

Section columns.
Context {A : Type}.
Implicit Types (cols : gmap string (list A)) (row : gmap string A) (rows : list (gmap string A)).

(** [cols.entry(k).or_default().push(v)] for every [(k, v)] of [row]. *)
Definition push_row cols row : gmap string (list A) :=
  merge (λ c v, match v with Some v => Some (default [] c ++ [v]) | None => c end) cols row.

(** [cols.entry(k).or_default().extend(col)] for every [(k, col)] of [more]. *)
Definition extend_cols cols (more : gmap string (list A)) : gmap string (list A) :=
  merge (λ c v, match v with Some v => Some (default [] c ++ v) | None => c end) cols more.

(** Row [i]: the columns long enough to have one. *)
Definition row_at (i : nat) cols : gmap string A := omap (λ col, col !! i) cols.

Definition slice_cols (start stop : nat) cols : gmap string (list A) :=
  (λ v, let lo := start `min` length v in let hi := stop `min` length v in
        take (hi - lo) (drop lo v)) <$> cols.

(** [l[start..stop].to_vec()] *)
Definition slice {B} (start stop : nat) (l : list B) : option (list B) :=
  if decide (start ≤ stop ∧ stop ≤ length l) then Some (take (stop - start) (drop start l))
  else None.
End columns.

Section page.
Context `{JsonNumber}.

(** [EventModelError::EmptyPack] *)
Inductive EmptyPack := mkEmptyPack (kind field : string).

Definition pack_event_page (events : list Event) : Result EventPage EmptyPack :=
  let! first := ok_or (head events) (mkEmptyPack "Event" "descriptor") in
  Ok (mkEventPage (ev_uid <$> events) (ev_descriptor first) (ev_time <$> events)
        (ev_seq_num <$> events)
        (foldl push_row ∅ (ev_data <$> events))
        (foldl push_row ∅ (ev_timestamps <$> events))
        (foldl push_row ∅ (ev_filled <$> events))).

Definition event_row (p : EventPage) (i : nat) : option Event :=
  u ← ep_uid p !! i; t ← ep_time p !! i; n ← ep_seq_num p !! i;
  Some (mkEvent u (ep_descriptor p) t n (row_at i (ep_data p)) (row_at i (ep_timestamps p))
          (row_at i (ep_filled p))).

Definition unpack_event_page (p : EventPage) : option (list Event) :=
  mapM (event_row p) (seq 0 (length (ep_uid p))).

Definition pack_datum_page (datums : list Datum) : Result DatumPage EmptyPack :=
  let! first := ok_or (head datums) (mkEmptyPack "Datum" "resource") in
  Ok (mkDatumPage (datum_id <$> datums) (datum_resource first)
        (foldl push_row ∅ (datum_kwargs <$> datums))).

Definition datum_row (p : DatumPage) (i : nat) : option Datum :=
  u ← dp_id p !! i; Some (mkDatum u (dp_resource p) (row_at i (dp_kwargs p))).

Definition unpack_datum_page (p : DatumPage) : option (list Datum) :=
  mapM (datum_row p) (seq 0 (length (dp_id p))).

Definition merge_event_pages (pages : list EventPage) : EventPage :=
  match pages with
  | [p] => p
  | _ =>
      mkEventPage (concat (ep_uid <$> pages))
        (default EmptyString (ep_descriptor <$> head pages))
        (concat (ep_time <$> pages)) (concat (ep_seq_num <$> pages))
        (foldl extend_cols ∅ (ep_data <$> pages))
        (foldl extend_cols ∅ (ep_timestamps <$> pages))
        (foldl extend_cols ∅ (ep_filled <$> pages))
  end.

Definition merge_datum_pages (pages : list DatumPage) : DatumPage :=
  match pages with
  | [p] => p
  | _ =>
      mkDatumPage (concat (dp_id <$> pages)) (default EmptyString (dp_resource <$> head pages))
        (foldl extend_cols ∅ (dp_kwargs <$> pages))
  end.

Definition slice_event_page (p : EventPage) (start stop : nat) : option EventPage :=
  u ← slice start stop (ep_uid p); t ← slice start stop (ep_time p);
  n ← slice start stop (ep_seq_num p);
  Some (mkEventPage u (ep_descriptor p) t n (slice_cols start stop (ep_data p))
          (slice_cols start stop (ep_timestamps p)) (slice_cols start stop (ep_filled p))).

Definition slice_datum_page (p : DatumPage) (start stop : nat) : option DatumPage :=
  u ← slice start stop (dp_id p);
  Some (mkDatumPage u (dp_resource p) (slice_cols start stop (dp_kwargs p))).

(** The [while start < n] loop; one turn per row is fuel enough. *)
Fixpoint chunks {P} (cut : nat → nat → option P) (fuel start n chunk_size : nat)
  : option (list P) :=
  if decide (start < n) then
    match fuel with
    | O => None
    | S fuel =>
        let stop := (start + chunk_size) `min` n in
        p ← cut start stop; ps ← chunks cut fuel stop n chunk_size; Some (p :: ps)
    end
  else Some [].

Definition rechunk_event_pages (pages : list EventPage) (chunk_size : nat)
  : option (list EventPage) :=
  if decide (chunk_size = 0) then Some []
  else
    let merged := merge_event_pages pages in
    let n := length (ep_uid merged) in
    chunks (slice_event_page merged) n 0 n chunk_size.

Definition rechunk_datum_pages (pages : list DatumPage) (chunk_size : nat)
  : option (list DatumPage) :=
  if decide (chunk_size = 0) then Some []
  else
    let merged := merge_datum_pages pages in
    let n := length (dp_id merged) in
    chunks (slice_datum_page merged) n 0 n chunk_size.
End page.

(** ** Columns that hold rows *)

Section column_lemmas.
Context {A : Type}.
Implicit Types (cols : gmap string (list A)) (row : gmap string A) (rows : list (gmap string A))
  (K : gset string).

(** The rows of a table with the keys [K]. *)
Definition keyed K rows : Prop := Forall (λ r, dom r = K) rows.

(** [cols] holds [rows], every one with the keys [K]. *)
Definition holds K rows cols : Prop :=
  keyed K rows ∧ ∀ k, cols !! k = if decide (k ∈ K) then Some (omap (.!! k) rows) else None.

Lemma keyed_lookup K rows r k : keyed K rows → r ∈ rows → k ∈ K ↔ is_Some (r !! k).
Proof.
  intros Hk Hr. unfold keyed in Hk. rewrite Forall_forall in Hk.
  rewrite <-(Hk r Hr). by rewrite elem_of_dom.
Qed.

Lemma column_lookup K rows k i :
  keyed K rows → k ∈ K → omap (.!! k) rows !! i = (rows !! i) ≫= (.!! k).
Proof.
  intros Hk Hin. revert i. induction rows as [|r rows IH]; intros i; [done|].
  apply Forall_cons in Hk as [Hr Hk].
  assert (is_Some (r !! k)) as [v Hv] by (by rewrite <-elem_of_dom, Hr).
  simpl. rewrite Hv. destruct i as [|i]; simpl; [done|]. by apply IH.
Qed.

Lemma length_column K rows k : keyed K rows → k ∈ K → length (omap (.!! k) rows) = length rows.
Proof.
  intros Hk Hin. induction rows as [|r rows IH]; [done|]. apply Forall_cons in Hk as [Hr Hk].
  assert (is_Some (r !! k)) as [v Hv] by (by rewrite <-elem_of_dom, Hr).
  simpl. rewrite Hv. simpl. f_equal. by apply IH.
Qed.

Lemma holds_row K rows cols i r : holds K rows cols → rows !! i = Some r → row_at i cols = r.
Proof.
  intros [Hk Hc] Hi. apply map_eq. intros k. unfold row_at. rewrite lookup_omap, Hc.
  pose proof (keyed_lookup K rows r k Hk (list_elem_of_lookup_2 _ _ _ Hi)) as Hr.
  case_decide as Hin; simpl.
  - by rewrite (column_lookup K), Hi by done.
  - symmetry. apply eq_None_not_Some. by rewrite <-Hr.
Qed.

Lemma lookup_push_row cols row k :
  push_row cols row !! k =
    match row !! k with Some v => Some (default [] (cols !! k) ++ [v]) | None => cols !! k end.
Proof.
  unfold push_row. rewrite lookup_merge. unfold diag_None.
  by destruct (cols !! k), (row !! k).
Qed.

Lemma lookup_extend_cols cols more k :
  extend_cols cols more !! k =
    match more !! k with Some v => Some (default [] (cols !! k) ++ v) | None => cols !! k end.
Proof.
  unfold extend_cols. rewrite lookup_merge. unfold diag_None.
  by destruct (cols !! k), (more !! k).
Qed.

Lemma holds_push K rows cols row :
  holds K rows cols → dom row = K → holds K (rows ++ [row]) (push_row cols row).
Proof.
  intros [Hk Hc] Hr. split; [by apply Forall_app; split; [|constructor]|].
  intros k. rewrite lookup_push_row, Hc, omap_app. simpl.
  destruct (row !! k) as [v|] eqn:Hv.
  - assert (k ∈ K) by (rewrite <-Hr; by apply elem_of_dom_2 in Hv). by rewrite !decide_True.
  - apply not_elem_of_dom in Hv. rewrite Hr in Hv. by rewrite !decide_False.
Qed.

Lemma holds_first row : holds (dom row) [row] (push_row ∅ row).
Proof.
  split; [by constructor|]. intros k. rewrite lookup_push_row, lookup_empty. simpl.
  destruct (row !! k) as [v|] eqn:Hv.
  - rewrite decide_True; [done|]. by apply elem_of_dom_2 in Hv.
  - rewrite decide_False; [done|]. by apply not_elem_of_dom in Hv.
Qed.

Lemma holds_pack K rows : rows ≠ [] → keyed K rows → holds K rows (foldl push_row ∅ rows).
Proof.
  intros Hne Hk. destruct rows as [|r rows]; [done|]. apply Forall_cons in Hk as [<- Hk].
  simpl. assert (∀ pre cols, holds (dom r) pre cols →
    holds (dom r) (pre ++ rows) (foldl push_row cols rows)) as Hf.
  { clear Hne. induction rows as [|r' rows IH]; intros pre cols Hh; simpl; [by rewrite app_nil_r|].
    apply Forall_cons in Hk as [Hr Hk]. rewrite (cons_middle r' pre rows), app_assoc.
    apply IH; [done|]. by apply holds_push. }
  apply (Hf [r]). apply holds_first.
Qed.

Lemma holds_extend K rows1 rows2 cols1 cols2 :
  holds K rows1 cols1 → holds K rows2 cols2 → holds K (rows1 ++ rows2) (extend_cols cols1 cols2).
Proof.
  intros [Hk1 Hc1] [Hk2 Hc2]. split; [by apply Forall_app|].
  intros k. rewrite lookup_extend_cols, Hc1, Hc2, omap_app. by case_decide.
Qed.

Lemma holds_extend_empty K rows cols : holds K rows cols → extend_cols ∅ cols = cols.
Proof.
  intros _. apply map_eq. intros k. rewrite lookup_extend_cols, lookup_empty. simpl.
  by destruct (cols !! k).
Qed.

Lemma holds_merge K rowss colss :
  rowss ≠ [] → Forall2 (holds K) rowss colss →
  holds K (concat rowss) (foldl extend_cols ∅ colss).
Proof.
  intros Hne Hh. destruct Hh as [|rows cols rowss colss Hh Hhs]; [done|]. clear Hne. simpl.
  rewrite (holds_extend_empty K rows) by done.
  revert rows cols Hh. induction Hhs as [|rows2 cols2 rowss colss Hh2 _ IH]; intros rows cols Hh;
    simpl; [by rewrite app_nil_r|].
  rewrite app_assoc. apply IH. by apply holds_extend.
Qed.

Lemma holds_slice K rows cols start stop :
  holds K rows cols → start ≤ stop → stop ≤ length rows →
  holds K (take (stop - start) (drop start rows)) (slice_cols start stop cols).
Proof.
  intros [Hk Hc] H1 H2. split.
  - apply Forall_take, Forall_drop, Hk.
  - intros k. unfold slice_cols. rewrite lookup_fmap, Hc. case_decide as Hin; [|done]. simpl.
    rewrite (length_column K) by done. f_equal.
    rewrite !Nat.min_l by lia. apply list_eq. intros i.
    assert (keyed K (take (stop - start) (drop start rows)))
      as Hk' by apply Forall_take, Forall_drop, Hk.
    rewrite (column_lookup K) by done.
    destruct (decide (i < stop - start)).
    + rewrite !lookup_take_lt, !lookup_drop by lia. by apply column_lookup with K.
    + rewrite !lookup_take_ge by lia. done.
Qed.
End column_lemmas.

(** ** Pages that hold events *)

Section theorems.
Context `{JsonNumber}.
Implicit Types (es : list Event) (p : EventPage) (Ks : gset string * gset string * gset string).

(** The events of one descriptor with the same keys, and a page that holds them. *)
Record page_of Ks (d : string) es p : Prop := {
  po_uid : ep_uid p = ev_uid <$> es;
  po_descriptor : ep_descriptor p = d;
  po_time : ep_time p = ev_time <$> es;
  po_seq : ep_seq_num p = ev_seq_num <$> es;
  po_data : holds Ks.1.1 (ev_data <$> es) (ep_data p);
  po_timestamps : holds Ks.1.2 (ev_timestamps <$> es) (ep_timestamps p);
  po_filled : holds Ks.2 (ev_filled <$> es) (ep_filled p);
  po_same : Forall (λ e, ev_descriptor e = d) es;
}.

Definition uniform Ks (d : string) es : Prop :=
  Forall (λ e, ev_descriptor e = d ∧ dom (ev_data e) = Ks.1.1 ∧ dom (ev_timestamps e) = Ks.1.2
               ∧ dom (ev_filled e) = Ks.2) es.

Lemma uniform_keyed {A} (f : Event → gmap string A) K es :
  (∀ e, e ∈ es → dom (f e) = K) → keyed K (f <$> es).
Proof.
  intros He. apply Forall_forall. intros r (e & -> & Hin)%list_elem_of_fmap. by apply He.
Qed.

Lemma pack_page_of Ks d es :
  es ≠ [] → uniform Ks d es → ∃ p, pack_event_page es = Ok p ∧ page_of Ks d es p.
Proof.
  intros Hne Hu. unfold uniform in Hu. rewrite Forall_forall in Hu.
  destruct es as [|e es]; [done|]. unfold pack_event_page. simpl head. simpl ok_or.
  eexists. split; [done|].
  assert (∀ A (f : Event → gmap string A) K, (∀ e', e' ∈ e :: es → dom (f e') = K) →
    holds K (f <$> e :: es) (foldl push_row ∅ (f <$> e :: es))) as Hp.
  { intros A f K Hf. apply holds_pack; [done|]. by apply uniform_keyed. }
  split; try done; simpl ep_descriptor.
  - apply (Hu e). left.
  - apply Hp. intros e' He'. by apply Hu.
  - apply Hp. intros e' He'. by apply Hu.
  - apply Hp. intros e' He'. by apply Hu.
  - apply Forall_forall. intros e' He'. by apply Hu.
Qed.

Lemma event_row_page_of Ks d es p i e :
  page_of Ks d es p → es !! i = Some e → event_row p i = Some e.
Proof.
  intros [Hu Hd Ht Hn Hda Hts Hfi Hs] Hi. unfold event_row.
  rewrite Hu, Ht, Hn, !list_lookup_fmap, Hi, Hd. simpl.
  assert (∀ A (f : Event → gmap string A), (f <$> es) !! i = Some (f e)) as Hrow
    by (intros; by rewrite list_lookup_fmap, Hi).
  rewrite (holds_row _ _ _ i _ Hda (Hrow _ _)), (holds_row _ _ _ i _ Hts (Hrow _ _)),
    (holds_row _ _ _ i _ Hfi (Hrow _ _)).
  rewrite Forall_lookup in Hs. rewrite <-(Hs i e Hi). by destruct e.
Qed.

Lemma unpack_page_of Ks d es p : page_of Ks d es p → unpack_event_page p = Some es.
Proof.
  intros Hp. unfold unpack_event_page. apply mapM_Some. rewrite (po_uid _ _ _ _ Hp), length_fmap.
  apply Forall2_same_length_lookup. rewrite length_seq. split; [done|].
  intros i j e Hj He. apply lookup_seq in Hj as [-> _]. by eapply event_row_page_of.
Qed.

Lemma merge_page_of Ks d ess pages :
  pages ≠ [] → Forall2 (page_of Ks d) ess pages →
  page_of Ks d (concat ess) (merge_event_pages pages).
Proof.
  intros Hne Hp. destruct Hp as [|es p ess pages Hp Hps]; [done|].
  destruct Hps as [|es2 p2 ess pages Hp2 Hps].
  { simpl. by rewrite app_nil_r. }
  assert (Forall2 (page_of Ks d) (es :: es2 :: ess) (p :: p2 :: pages)) as Hall
    by (constructor; [done|by constructor]).
  set (all := es :: es2 :: ess) in *. set (ps := p :: p2 :: pages) in *.
  change (merge_event_pages ps) with
    (mkEventPage (concat (ep_uid <$> ps)) (default EmptyString (ep_descriptor <$> head ps))
        (concat (ep_time <$> ps)) (concat (ep_seq_num <$> ps))
        (foldl extend_cols ∅ (ep_data <$> ps))
        (foldl extend_cols ∅ (ep_timestamps <$> ps))
        (foldl extend_cols ∅ (ep_filled <$> ps))).
  assert (∀ B (f : EventPage → list B) (g : Event → B),
    (∀ es p, page_of Ks d es p → f p = g <$> es) → concat (f <$> ps) = g <$> concat all) as Hcol.
  { intros B f g Hfg. clear -Hall Hfg. induction Hall as [|? ? ? ? Hx _ IH]; [done|].
    rewrite fmap_cons. cbn [concat]. by rewrite fmap_app, IH, (Hfg _ _ Hx). }
  assert (∀ B (f : EventPage → gmap string (list B)) (g : Event → gmap string B) K,
    (∀ es p, page_of Ks d es p → holds K (g <$> es) (f p)) →
    holds K (g <$> concat all) (foldl extend_cols ∅ (f <$> ps))) as Hcols.
  { intros B f g K Hfg. replace (g <$> concat all) with (concat ((λ es, g <$> es) <$> all)).
    - apply holds_merge; [done|]. apply Forall2_fmap. eapply Forall2_impl; [exact Hall|done].
    - clear. induction all as [|l all IH]; [done|]. rewrite fmap_cons. cbn [concat].
      by rewrite fmap_app, IH. }
  split; simpl ep_uid; simpl ep_time; simpl ep_seq_num.
  - apply Hcol. by intros ? ? [].
  - by destruct Hp.
  - apply Hcol. by intros ? ? [].
  - apply Hcol. by intros ? ? [].
  - apply Hcols. by intros ? ? [].
  - apply Hcols. by intros ? ? [].
  - apply Hcols. by intros ? ? [].
  - clear -Hall. induction Hall as [|? ? ? ? Hx _ IH]; simpl; [done|].
    apply Forall_app. split; [by destruct Hx|done].
Qed.

Lemma slice_page_of Ks d es p start stop :
  page_of Ks d es p → start ≤ stop → stop ≤ length es →
  ∃ q, slice_event_page p start stop = Some q
       ∧ page_of Ks d (take (stop - start) (drop start es)) q.
Proof.
  intros [Hu Hd Ht Hn Hda Hts Hfi Hs] H1 H2. unfold slice_event_page.
  rewrite Hu, Ht, Hn. unfold slice. rewrite !length_fmap, !decide_True by done. simpl.
  eexists. split; [done|].
  assert (∀ A (f : Event → gmap string A) K cols, holds K (f <$> es) cols →
    holds K (f <$> take (stop - start) (drop start es)) (slice_cols start stop cols)) as Hsl.
  { intros A f K cols Hh. rewrite fmap_take, fmap_drop. apply holds_slice; [done|done|].
    by rewrite length_fmap. }
  split; simpl; rewrite ?fmap_take, ?fmap_drop; try done; try (by apply Hsl).
  - specialize (Hsl _ ev_data _ _ Hda). by rewrite fmap_take, fmap_drop in Hsl.
  - specialize (Hsl _ ev_timestamps _ _ Hts). by rewrite fmap_take, fmap_drop in Hsl.
  - specialize (Hsl _ ev_filled _ _ Hfi). by rewrite fmap_take, fmap_drop in Hsl.
  - by apply Forall_take, Forall_drop.
Qed.

(** Batches of [size] rows, the last of the remainder. *)
Fixpoint batched {B} (size : nat) (bs : list (list B)) : Prop :=
  match bs with
  | [] => True
  | [b] => 0 < length b ≤ size
  | b :: bs => length b = size ∧ batched size bs
  end.

Lemma batched_cons {B} size (b : list B) bs :
  batched size bs → length b = size ∨ (bs = [] ∧ 0 < length b ≤ size) → 0 < size →
  batched size (b :: bs).
Proof. intros Hb [Hl|[-> Hl]] Hs; [|done]. destruct bs; simpl in *; [lia|done]. Qed.

Lemma chunks_page_of Ks d es p size : ∀ fuel start,
  page_of Ks d es p → 0 < size → length es - start ≤ fuel →
  ∃ qs ess, chunks (slice_event_page p) fuel start (length es) size = Some qs
    ∧ Forall2 (page_of Ks d) ess qs ∧ concat ess = drop start es ∧ batched size ess.
Proof.
  intros fuel. induction fuel as [|fuel IH]; intros start Hp Hsz Hf; simpl; case_decide as Hlt;
    try lia; try (exists [], []; split_and!; [done|constructor|by rewrite drop_ge by lia|done]).
  set (stop := (start + size) `min` length es).
  destruct (slice_page_of Ks d es p start stop Hp) as (q & -> & Hq); [unfold stop; lia..|]. simpl.
  destruct (IH stop) as (qs & ess & -> & Hqs & Hc & Hb); [done|done|unfold stop; lia|]. simpl.
  eexists _, (take (stop - start) (drop start es) :: ess).
  split_and!; [done|by constructor| |].
  - simpl. rewrite Hc. rewrite <-(take_drop (stop - start) (drop start es)) at 2.
    rewrite drop_drop. do 2 f_equal. unfold stop. lia.
  - apply batched_cons; [done| |done]. rewrite length_take, length_drop.
    destruct (decide (start + size < length es)); [left; unfold stop; lia|].
    destruct (decide (start + size = length es)); [left; unfold stop; lia|right].
    assert (stop = length es) as Hstop by (unfold stop; lia). split; [|lia].
    rewrite Hstop, drop_all in Hc. destruct ess as [|b bs]; [done|exfalso].
    simpl in Hc. apply app_nil in Hc as [-> _]. destruct bs; simpl in Hb; lia.
Qed.

(** C24: Packing a non-empty list of events of one descriptor and one key set and unpacking the
    page gives the events back. *)
Theorem event_page_round_trip Ks d es :
  es ≠ [] → uniform Ks d es →
  ∃ p, pack_event_page es = Ok p ∧ unpack_event_page p = Some es.
Proof.
  intros Hne Hu. destruct (pack_page_of Ks d es Hne Hu) as (p & Hp & Hpo).
  exists p. split; [done|]. by eapply unpack_page_of.
Qed.

(** Rechunking keeps the rows: from pages of one stream the loop ends with pages of
    exactly the requested size, a smaller last one apart, that unpack to the events
    of the input pages in order. *)
Theorem rechunk_keeps_rows Ks d ess pages size :
  pages ≠ [] → Forall2 (page_of Ks d) ess pages → 0 < size →
  ∃ qs ess', rechunk_event_pages pages size = Some qs
    ∧ mapM unpack_event_page qs = Some ess' ∧ concat ess' = concat ess ∧ batched size ess'.
Proof.
  intros Hne Hp Hsz. pose proof (merge_page_of Ks d ess pages Hne Hp) as Hm.
  unfold rechunk_event_pages. rewrite decide_False by lia.
  assert (length (ep_uid (merge_event_pages pages)) = length (concat ess)) as Hl
    by (rewrite (po_uid _ _ _ _ Hm); apply length_fmap).
  cbv zeta. rewrite Hl.
  destruct (chunks_page_of Ks d _ _ size (length (concat ess)) 0 Hm Hsz) as
    (qs & ess' & -> & Hqs & Hc & Hb); [lia|].
  exists qs, ess'. split_and!; [done| |by rewrite Hc, drop_0|done].
  apply mapM_Some. apply Forall2_flip. eapply Forall2_impl; [exact Hqs|].
  intros es q. apply unpack_page_of.
Qed.

(** The same for datums of one resource. *)
Theorem datum_page_round_trip (K : gset string) r (ds : list Datum) :
  ds ≠ [] → Forall (λ d, datum_resource d = r ∧ dom (datum_kwargs d) = K) ds →
  ∃ p : DatumPage, pack_datum_page ds = Ok p ∧ unpack_datum_page p = Some ds.
Proof.
  intros Hne Hu. rewrite Forall_forall in Hu. destruct ds as [|d0 ds]; [done|].
  unfold pack_datum_page. simpl head. simpl ok_or. eexists. split; [done|].
  assert (holds K (datum_kwargs <$> d0 :: ds) (foldl push_row ∅ (datum_kwargs <$> d0 :: ds))) as Hh.
  { apply holds_pack; [done|]. apply Forall_forall. intros x (d & -> & Hd)%list_elem_of_fmap.
    by apply Hu. }
  unfold unpack_datum_page. cbn [dp_id]. apply mapM_Some. rewrite length_fmap.
  apply Forall2_same_length_lookup. rewrite length_seq. split; [done|].
  intros i j d Hj Hd. apply lookup_seq in Hj as [-> _]. unfold datum_row. cbn [dp_id].
  rewrite list_lookup_fmap. simpl (0 + i). rewrite Hd. cbn.
  assert ((datum_kwargs <$> d0 :: ds) !! i = Some (datum_kwargs d)) as Hrow
    by (by rewrite list_lookup_fmap, Hd).
  pose proof (holds_row _ _ _ i _ Hh Hrow) as Hr. cbn in Hr. rewrite Hr.
  destruct (Hu d) as [Hr1 _]; [by eapply list_elem_of_lookup_2|].
  destruct (Hu d0) as [-> _]; [left|]. rewrite <-Hr1. by destruct d.
Qed.
End theorems.

(** ** Witnesses *)

Module ExP.
Export Sample.
Definition ev (u : string) (n : Z) : Event :=
  mkEvent u "d" n n {["x" := VBool true]} {["x" := n]} ∅.
Definition keys : gset string * gset string * gset string := ({["x"]}, {["x"]}, ∅).
Lemma evs_uniform l : uniform keys "d" ((λ n, ev "e" n) <$> l).
Proof. apply Forall_fmap, Forall_true. intros n. split_and!; [done|..]; set_solver. Qed.
End ExP.
Import ExP.

Lemma event_page_round_trip_witness : ∃ p,
  pack_event_page [ev "e" 1; ev "e" 2] = Ok p ∧ unpack_event_page p = Some [ev "e" 1; ev "e" 2].
Proof. apply (event_page_round_trip keys "d"); [done|apply (evs_uniform [1; 2]%Z)]. Defined.

Lemma rechunk_keeps_rows_witness : ∃ pages qs,
  rechunk_event_pages pages 2 = Some qs ∧ (ep_seq_num <$> qs) = [[1; 2]; [3]]%Z.
Proof.
  destruct (pack_page_of keys "d" [ev "e" 1]) as (p1 & Hp1 & H1); [done|apply (evs_uniform [1%Z])|].
  destruct (pack_page_of keys "d" [ev "e" 2; ev "e" 3]) as (p2 & Hp2 & H2);
    [done|apply (evs_uniform [2; 3]%Z)|].
  destruct (rechunk_keeps_rows keys "d" [[ev "e" 1]; [ev "e" 2; ev "e" 3]] [p1; p2] 2)
    as (qs & ess & Hr & _); [done|constructor; [exact H1|constructor; [exact H2|constructor]]|lia|].
  exists [p1; p2], qs. split; [exact Hr|].
  injection Hp1 as <-. injection Hp2 as <-. injection Hr as <-. reflexivity.
Defined.
